(* ===== verification/_CoqProject ===== *)
-Q . S2P
Prelude.v
JobStatus.v
Job.v
GoHeap.v
PriorityQueue.v
Retry.v
JobRepo.v
Scheduler.v
PriorityScheduler.v
JobRecovery.v
MasterTypes.v
CrashTypes.v
MasterState.v
MasterJobs.v
TimeoutManager.v
Healthy.v
AppErrors.v
Minimizer.v
BotAgent.v
BotRegistry.v
Regex.v
CrashSignature.v
Crash.v
Corpus.v
CampaignStore.v
CampaignService.v
CampaignMonitor.v
DomainCampaign.v
CampaignQuery.v
Base64.v
MasterCrash.v
MasterRecovery.v
BotService.v
JobService.v
BotPoller.v
WsHub.v
SseEvents.v
SseManager.v
StorageRetry.v
Sql.v
CorpusStore.v
Paths.v
FileBackend.v
FileStorage.v
CorpusQuarantine.v
Dedup.v
CorpusService.v
CorpusSync.v
CleanupManager.v
JobOutcome.v
Http.v
HttpAuth.v
HttpCors.v
HttpValidation.v
RateLimit.v
HttpStack.v
ReproScorer.v
ReproService.v
BotWork.v
