(* ===== verification/Prelude.v ===== *)
(** * PandaFuzz: a verified model of its scheduling, state and result handling

    PandaFuzz (src/, Go) coordinates fuzzing: a master keeps bots, jobs and
    campaigns in memory and in a database, hands jobs to bots, watches deadlines,
    retries what fails and stores crashes and coverage; services and a poller
    sit on top of that state; the domain packages (src/pkg/domain) have their
    own entities, queues and registries.  This library models these parts as
    executable functions and proves what they guarantee, and where they do not.

    ** Files and what they model

    Foundations:
    - Prelude.v: machine integers, time, errors, results, the [io] monad with its
      weakest preconditions, strings, record update, shared lemmas and tactics.
    - AppErrors.v: the structured errors of src/pkg/errors/errors.go and their
      type tests.
    - Regex.v, Base64.v, GoHeap.v: the parts of Go's regexp, strings,
      encoding/base64 and container/heap that the program relies on.

    Jobs and their queue (src/pkg/domain/job):
    - JobStatus.v: types/status.go.  Statuses are strings, as in Go;
      [transitions] is the table of [CanTransitionTo].
    - Job.v: types/job.go.  [Job] is the struct, a method is a function returning
      the changed record, and [job_step] is one call of any method.
    - PriorityQueue.v: the queue of scheduler/priority_queue.go (heap slice plus
      index map); [pq_step] is one operation.
    - JobRepo.v: repository/interface.go as a type class with laws
      ([JobRepository], [RepoLaws]) and a map-backed instance.
    - Scheduler.v: scheduler/queue.go over any repository; [pool_step]
      interleaves workers, clients and maintenance.
    - PriorityScheduler.v, JobRecovery.v: the [PriorityScheduler] of
      priority_queue.go, and scheduler/job_recovery.go.

    The master (src/pkg/master, src/pkg/common, src/pkg/retry):
    - Retry.v: policy.go and manager.go of src/pkg/retry: error classification,
      the retry loop with backoff, the circuit breaker, the resilient client.
    - MasterTypes.v, CrashTypes.v: bots, jobs, results and typed errors of
      src/pkg/common.
    - MasterState.v: the caches and the persistence of state_core.go,
      state_bot.go, state_job.go and state.go; MasterJobs.v has the theorems on
      assignment, completion, orphans and caches.
    - TimeoutManager.v: timeouts.go.  Healthy.v: what the operations of the state
      do when no call to the database fails.
    - MasterCrash.v: state_crash.go: processing and reading of crashes, coverage
      and corpus updates.
    - MasterRecovery.v: recovery.go, and the loading of state.go.
    - BotPoller.v: bot_poller.go, over the services, the time-out manager and
      the crashes of the state; the replies of the bots are parameters.
    - WsHub.v: websocket.go: the hub, its clients and its callers as steps of
      one state, with the notifications of the server.

    Services (src/pkg/service):
    - BotService.v, JobService.v: bot_service.go and job_service.go, with the
      optimised operations of src/pkg/master/state_adapter.go.
    - CampaignStore.v: campaigns and their storage as a class with laws
      (campaign_queries.go of src/pkg/storage); CampaignService.v:
      campaign_service.go; CampaignMonitor.v: src/pkg/master/campaign_state.go.
    - Minimizer.v: crash_minimizer.go.
    - CorpusService.v, CorpusQuarantine.v, Dedup.v: corpus_service.go,
      corpus_quarantine.go and dedup_service.go, over the storage below.
    - ReproService.v: reproducibility_service.go: the queue of requests over the
      heap of GoHeap.v, with the queue manager and the workers as steps.
      ReproScorer.v: reproducibility_scorer.go in binary64, over a class for the
      storage; the order of a map is an argument.
    - FileStorage.v: file_storage.go: the file interface of the services as a
      class with laws, and its two implementations.

    The storage (src/pkg/storage):
    - StorageRetry.v: retry.go, and the runner of the migrations.
    - Sql.v: what the statements need of a database: tables, constraints,
      transactions and a script of faults.
    - CorpusStore.v: the statements of corpus_queries.go, dedup_queries.go,
      storage_interface_impl.go, campaign_queries.go and sqlite.go that the
      corpus and crash services run, over the tables of migrations.go.
    - Paths.v: path/filepath, as far as it is used.  FileBackend.v:
      backend/filesystem.go over a disk with faulty system calls.

    Other domains (src/pkg/domain):
    - BotAgent.v, BotRegistry.v: bot/types, bot/registry over the interface of
      bot/repository, with its health checker.
    - CrashSignature.v, Crash.v: crash/types.
    - Corpus.v: corpus/types.
    - DomainCampaign.v, CampaignQuery.v: campaign/types and campaign/query.

    The event stream (src/pkg/api/v1/sse, src/pkg/clients/go):
    - SseEvents.v: events.go, filters.go and the history of types.go, the wire
      format of client.go and its reader, sse.go of the Go client.
    - SseManager.v: manager.go and client.go: clients behind pointers, bounded
      channels and the event loop as steps ([step], [run]).

    The bot (src/pkg/bot):
    - CorpusSync.v: corpus_sync.go: the synchronisation of a local corpus with
      the master, uploads, downloads and presigned files.
    - CleanupManager.v: cleanup_manager.go over a tree of files, with its ticker.
    - JobOutcome.v: job_status_classifier.go.
    - BotWork.v: the work cycle of agent.go with the jobs of client.go, the cache
      of api.go and the books of executor_fuzzer.go.  Jobs are pointers that the
      goroutines share; a handler is a step; the clock is a sequence of readings;
      the master ([MasterLink]) and the fuzzers ([Fuzzing]) are classes.

    The middleware of the API (src/pkg/api/v1/middleware), with the requests and
    error responses of Http.v:
    - HttpAuth.v: auth.go, over a class for JSON and HMAC ([TokenLib]).
    - HttpCors.v: cors.go.  HttpValidation.v: validation.go, with the JSON
      decoder as an argument.
    - RateLimit.v: ratelimit.go, over classes for the token buckets ([Rate]) and
      for Redis ([Redis]).
    - HttpStack.v: stack.go, recovery.go and the chain of the handlers.

    ** How parts interact

    The queue, the priority scheduler and the recovery manager are proved
    against the repository interface, and run on its instance; so are the bot
    registry and the campaign services against theirs.  The master state uses
    the retry loop of Retry.v around transactions of a key-value database; the
    time-out manager runs operations of the master state inside a retry loop of
    its own; the recovery manager, the services and the poller hold the time-out
    manager, and through it the state, and compose the operations of both.
    Recovery also drives the campaign storage.  Crashes of the master carry
    base64 input, decoded by Base64.v.  The corpus services run the statements
    of CorpusStore.v through the retry loop of StorageRetry.v, and keep contents
    behind the class of FileStorage.v.

    ** Conventions

    A Go [int], [int64], [uint64] is a [Z] with its wrap-around written out; a
    [time.Time] is a number of nanoseconds, [time.Now()] an argument or, in the
    master, the next value of a clock in the state; a nil pointer or nil map is
    [None]; an error is a value of [goerror]; a run-time panic is the [Panic]
    outcome of [res].  Map iteration, which Go randomises, takes the order as an
    argument constrained only to be a permutation; random jitter is an argument.
    Cached objects are reached through one pointer each, so a write to a field
    is a write to the cache at that key, and takes effect at once.  A section
    under a mutex is one step.  Strings are sequences of bytes, and the case
    mapping and trimming of Go's strings package is the one of ASCII.  Binary64
    numbers are the computable ones of the Standard Library.  SHA-256, UUIDs,
    the target program, remote replies and SQL text are parameters; where a
    theorem needs something of them it is a named hypothesis or a class of laws
    with an instance.

    ** What the theorems show

    - The master: a successful assignment or completion leaves caches and
      database in agreement; with a transient database failure it does not,
      because caches are written before the commit; one bot can be given two
      jobs by concurrent requests; orphan detection is exact; deadlines are
      enforced except for jobs whose bot left the cache; a crash can be read
      back with its input, unless a retry lost it.
    - Recovery of the master: on a healthy database exactly the orphaned jobs go
      back to the pool, exactly the stale jobs are deleted, a failed bot gives
      its job back; but a maintenance round strands the jobs of the bots it
      resets.
    - Services: an idle bot that asks gets a fitting job and its report ends it;
      pages of a listing cover it; creation, cancellation and registration do
      what they say and nothing else; where heartbeats are lost, missing things
      are reported wrongly and deadlines are not renewed.
    - The queue: every reachable priority queue is a heap with an exact set of
      IDs and sorts its jobs; jobs handed to workers are locked with completed
      dependencies; retries are bounded; worker IDs are never lost or shared;
      selection can loop for ever on jobs that wait.  Job recovery releases,
      restarts or fails exactly the right jobs, unless the repository enforces
      the transition table.
    - Retry: the loop always ends within its budget with the right result; the
      breaker's state is a function of its failures.
    - Entities: every reachable job, crash, agent and corpus collection is well
      formed; signatures identify traces up to their top functions and
      libraries; minimised inputs still crash and are no longer than before.
    - Campaigns: quotas and status tables are kept; checks complete exactly what
      is finished; queries filter, order and page exactly.
    - The poller: a report of a finished job ends the job; a bot that missed
      five polls is never polled again; its backoff doubles only until the
      first success; a bot that reports no job loses the reference to its job.
    - The websocket hub: every run keeps it well formed, and its only panic is a
      message to a topic with a closed subscriber, which a slow client leaves
      behind for good.
    - The event stream: a run of the manager keeps it well formed or panics in
      one of three ways, of which one is a close that hits a send; a broadcast
      reaches exactly who it should; the Go client reads back what was written, if
      its lines are clean; but early subscriptions are lost, and the history
      replays the wrong events.
    - The storage: a retried call ends within its attempts; migrations resume
      after any failure; the keys of the tables stay unique; objects are stored
      atomically, inside their bucket; both file storages keep their interface.
      But a missing row is never recognised, nothing is ever marked as
      synchronised, and no file leaves the quarantine.
    - Corpus and crash services: contents load as they were stored; a file is
      added exactly when its contents are new; a crash joins its group.  But no
      group is ever created, nothing is ever shared between campaigns, a bot
      gets the same files again and again, and a job never gets a corpus.
    - The bot: uploads are neither lost nor doubled, downloads of presigned files
      are atomic, trimming removes the oldest files and no more than needed, and
      the statistics of a cleanup are true.  But a file with a short name ends the
      bot, and a new policy ends the schedule of its cleanups.
    - The work of a bot: completing a job is exact; a job that was never
      acknowledged is given up in the end.  But jobs arrive without time-out and
      lease, so a running job is stopped by the next cycle, unless an older
      completion or a recovery comes first; a job that is being prepared is given
      up; the end of a job is reported for whatever job is current; and a stop
      with a job never ends.
    - Reproductions: every accepted request is accounted for, and the scores of a
      platform count exactly its results.  But a tick on a full channel loses the most urgent request, a
      request gets one attempt, and the trend depends on the order of a map.
    - The middleware: behind the chain, no application state changes without a
      signed token; tokens are read back; every key has a rate of its own, and
      the cleaning of the limiters is invisible; strict mode accepts exactly the
      documents within its limits.  But a limit per API key refuses nothing, a
      body in chunks is not checked, and arrays hide any depth.

    ** Fuel and bounds

    The retry loop takes [MaxRetries + 1] units, one per attempt, and
    [execute_spec] shows that they suffice; so does the one of the storage
    ([with_retry_spec]).  The selection loop of the priority
    scheduler has no bound in the code: with fuel one more than the number of
    held jobs it returns when no job has to wait ([ps_selection_sound]), and for
    no fuel when all do ([ps_selection_livelock]).  The removal of all matches
    of a regular expression takes one unit per character, since a match removes
    at least one ([remove_matches_fuel]).  The loops of the minimisers take one
    unit per halving, doubling or position of the input, and their soundness
    theorems show that they return.  The exchange sorts take one unit per slot.
    All other loops are structural.

    ** What is not modelled

    Contexts and their deadlines (but for the one a heartbeat looks at), logging,
    goroutine start-up and tickers (a ticker is the repetition of its action);
    the text of SQL statements other than those of CorpusStore.v and the
    connection pool, whose own retries of a transaction only add attempts to the
    ones modelled; HTTP and websocket transport, the routes and the handlers behind
    the middleware, the listing of directories and log files; process control of
    fuzzers and the transfers of the bot; third-party queues; configuration, commands and the web front end.  The
    sorted and time-range listings of the state, the trends of the campaign
    statistics and the job statistics are SQL text or formatted dates. *)

From Stdlib Require Import ZArith Lia Ascii String.
From Corelib Require Export SpecFloat.
From stdpp Require Export base gmap strings list option pretty sorting.
Open Scope string_scope.
Open Scope list_scope.
Open Scope Z_scope.

Declare Scope go_scope.
Delimit Scope go_scope with go.

(** ** Functional record update

    [r <| f := v |>] is [r] with field [f] replaced by [v]: the Go assignment
    [r.f = v] on a struct value.  A record gives its eta-expansion as an [Eta]
    instance; the setter of a projection is read off it. *)

Class Eta (R : Type) := eta_expand : R → R.
Class Setter {R T : Type} (proj : R → T) := set_field : (T → T) → R → R.
Arguments set_field {R T} proj {_} _ _ /.

Ltac derive_setter R proj :=
  let e := constr:(_ : Eta R) in
  let h := eval hnf in e in
  exact (fun f (r : R) => ltac:(
    let b := eval cbv beta in (h r) in
    match eval pattern (proj r) in b with
    | ?F _ => let t := eval cbv beta in (F (f (proj r))) in exact t
    end)).

#[export] Hint Extern 1 (@Setter ?R _ ?proj) => derive_setter R proj : typeclass_instances.

Notation "r <| f := v |>" := (set_field f (fun _ => v) r)
  (at level 1, f at level 200, v at level 200, left associativity,
   format "r <| f  :=  v |>") : go_scope.
Open Scope go_scope.

(** ** Machine integers *)

(** [int64] and [int] (64-bit targets) wrap around in two's complement;
    [uint64] and [uint32] wrap modulo their width. *)
Definition wrap64 (z : Z) : Z := (z + 2 ^ 63) mod 2 ^ 64 - 2 ^ 63.
Definition wrapu64 (z : Z) : Z := z mod 2 ^ 64.
Definition wrapu32 (z : Z) : Z := z mod 2 ^ 32.
Definition minInt64 : Z := - 2 ^ 63.
Definition maxInt64 : Z := 2 ^ 63 - 1.
Definition in_int64 (z : Z) : Prop := minInt64 ≤ z ≤ maxInt64.

Lemma wrap64_range z : in_int64 (wrap64 z).
Proof.
  unfold in_int64, wrap64, minInt64, maxInt64.
  pose proof (Z.mod_pos_bound (z + 2 ^ 63) (2 ^ 64)). lia.
Qed.

Lemma wrap64_id z : in_int64 z → wrap64 z = z.
Proof.
  unfold in_int64, wrap64, minInt64, maxInt64. intros H.
  rewrite Z.mod_small; lia.
Qed.

Lemma wrapu64_range z : 0 ≤ wrapu64 z < 2 ^ 64.
Proof. apply Z.mod_pos_bound. lia. Qed.

Lemma wrapu64_id z : 0 ≤ z < 2 ^ 64 → wrapu64 z = z.
Proof. apply Z.mod_small. Qed.

Lemma wrap64_add a b : wrap64 (wrap64 a + b) = wrap64 (a + b).
Proof.
  unfold wrap64. f_equal. replace ((a + 2 ^ 63) mod 2 ^ 64 - 2 ^ 63 + b + 2 ^ 63) with ((a + 2 ^ 63) mod 2 ^ 64 + b) by lia.
  rewrite Zplus_mod_idemp_l. f_equal. lia.
Qed.
Lemma wrapu64_add a b : wrapu64 (wrapu64 a + b) = wrapu64 (a + b).
Proof. unfold wrapu64. by rewrite Zplus_mod_idemp_l. Qed.

(** ** Time

    [time.Time] is a number of nanoseconds since the Unix epoch and
    [time.Duration] an [int64] number of nanoseconds.  [Time.Sub] saturates at
    the bounds of [int64], as the Go library does. *)
Definition Time := Z.
Definition Duration := Z.

Definition Nanosecond : Duration := 1.
Definition Millisecond : Duration := 1000000.
Definition Second : Duration := 1000000000.
Definition Minute : Duration := 60 * Second.
Definition Hour : Duration := 60 * Minute.

(** The zero [time.Time{}]: January 1, year 1, 00:00:00 UTC. *)
Definition zero_time : Time := - 62135596800 * Second.

Definition time_sub (t u : Time) : Duration := Z.max minInt64 (Z.min maxInt64 (t - u)).
Definition time_add (t : Time) (d : Duration) : Time := t + d.
Definition time_before (t u : Time) : bool := t <? u.
Definition time_after (t u : Time) : bool := u <? t.

Lemma time_sub_range t u : in_int64 (time_sub t u).
Proof. unfold in_int64, time_sub, minInt64, maxInt64. lia. Qed.

Lemma time_sub_exact t u : in_int64 (t - u) → time_sub t u = t - u.
Proof. unfold in_int64, time_sub. lia. Qed.

Lemma time_sub_nonneg t u : u ≤ t → 0 ≤ time_sub t u.
Proof. unfold time_sub, minInt64, maxInt64. lia. Qed.

(** ** Errors, panics and results *)

(** A Go [error] value, as far as the program can observe it: its message,
    the interfaces of the standard library it implements, the typed
    [PandaFuzzError] wrapper of pkg/common/types.go, and the structured
    [errors.Error] of pkg/errors/errors.go, without or with a cause (its details,
    stack and time stamp are not part of the model). *)
Inductive goerror :=
  | ErrNew (msg : string)                             (* errors.New, fmt.Errorf *)
  | ErrWrap (prefix : string) (err : goerror)         (* fmt.Errorf("prefix: %w", err) *)
  | ErrNet (msg : string) (temporary timeout : bool)  (* an implementation of net.Error *)
  | ErrTemp (msg : string) (temporary : bool)         (* Temporary() but not net.Error *)
  | ErrErrno (errno : Z) (msg : string)               (* syscall.Errno *)
  | ErrSqlite (code extended : Z) (msg : string)      (* sqlite3.Error: its code, extended code and text *)
  | ErrPanda (etype op : string) (err : goerror)      (* *common.PandaFuzzError *)
  | ErrApp (etype op msg : string)                    (* *errors.Error, by New *)
  | ErrAppWrap (etype op msg : string) (err : goerror).  (* *errors.Error, by Wrap *)

Fixpoint Error (e : goerror) : string :=
  match e with
  | ErrNew m => m
  | ErrWrap p e' => p +:+ ": " +:+ Error e'
  | ErrNet m _ _ | ErrTemp m _ | ErrErrno _ m | ErrSqlite _ _ m => m
  | ErrPanda _ _ e' => Error e'
  | ErrApp t op m => t +:+ " error in " +:+ op +:+ ": " +:+ m
  | ErrAppWrap t op m e' => t +:+ " error in " +:+ op +:+ ": " +:+ m +:+ " (caused by: " +:+ Error e' +:+ ")"
  end.

(** The outcome of a call: a value, a returned error, or a run-time panic
    (index out of range, failed type assertion, nil dereference). *)
Inductive res (A : Type) :=
  | Ok (a : A)
  | Err (e : goerror)
  | Panic (why : string).
Arguments Ok {A} a.
Arguments Err {A} e.
Arguments Panic {A} why.

Definition res_bind {A B} (m : res A) (k : A → res B) : res B :=
  match m with Ok a => k a | Err e => Err e | Panic w => Panic w end.

Notation "'let!' x ':=' m 'in' k" := (res_bind m (fun x => k))
  (at level 10, x pattern, m at level 100, k at level 200,
   format "'[v' 'let!'  x  ':='  m  'in' '/' k ']'") : go_scope.

Definition is_ok {A} (m : res A) : bool := if m is Ok _ then true else false.

Lemma res_bind_ok {A B} (m : res A) (k : A → res B) b :
  res_bind m k = Ok b ↔ ∃ a, m = Ok a ∧ k a = Ok b.
Proof. destruct m; simpl; naive_solver. Qed.

(** *** Calls that change a state and return a result

    [io S A] is a call on a state [S]: it gives its result and the new state,
    which a failed call has changed as well.  [let*] runs the next call when
    this one succeeded; [attempt] hands the error to the caller as a value, as
    the assignment [a, err := f()] does. *)
Definition io (S A : Type) : Type := S → res A * S.
Definition io_ret {S A} (a : A) : io S A := λ s, (Ok a, s).
Definition io_err {S A} (e : goerror) : io S A := λ s, (Err e, s).
Definition io_bind {S A B} (m : io S A) (k : A → io S B) : io S B := λ s,
  match m s with (Ok a, s') => k a s' | (Err e, s') => (Err e, s') | (Panic w, s') => (Panic w, s') end.
Definition attempt {S A} (m : io S A) : io S (A + goerror) := λ s,
  match m s with (Ok a, s') => (Ok (inl a), s') | (Err e, s') => (Ok (inr e), s') | (Panic w, s') => (Panic w, s') end.
Definition io_get {S A} (f : S → A) : io S A := λ s, (Ok (f s), s).
Definition io_set {S} (f : S → S) : io S unit := λ s, (Ok tt, f s).

Notation "'let*' x ':=' m 'in' k" := (io_bind m (fun x => k))
  (at level 10, x pattern, m at level 100, k at level 200,
   format "'[v' 'let*'  x  ':='  m  'in' '/' k ']'") : go_scope.

(** An error of an earlier call gets a prefix: [fmt.Errorf("p: %w", err)]. *)
Definition or_wrap {S A} (prefix : string) (m : io S A) : io S A := λ s,
  match m s with (Err e, s') => (Err (ErrWrap prefix e), s') | r => r end.
(** A call whose error is only logged. *)
Definition ignore {S A} (m : io S A) : io S unit := λ s,
  match m s with (Panic w, s') => (Panic w, s') | (_, s') => (Ok tt, s') end.

(** *** Weakest preconditions

    [wp m Q s]: the call [m] made in [s] ends with a result and a state in [Q]. *)
Definition wp {S A} (m : io S A) (Q : res A → S → Prop) (s : S) : Prop := Q (m s).1 (m s).2.
Lemma wp_elim {S A} (m : io S A) (Q : res A → S → Prop) s r s' : wp m Q s → m s = (r, s') → Q r s'.
Proof. unfold wp. intros H E. by rewrite E in H. Qed.
Lemma wp_mono {S A} (m : io S A) (Q Q' : res A → S → Prop) s : wp m Q s → (∀ r s', Q r s' → Q' r s') → wp m Q' s.
Proof. unfold wp. auto. Qed.
Lemma wp_ret {S A} (a : A) (Q : res A → S → Prop) s : Q (Ok a) s → wp (io_ret a) Q s.
Proof. done. Qed.
Lemma wp_err {S A} e (Q : res A → S → Prop) s : Q (Err e) s → wp (io_err e) Q s.
Proof. done. Qed.
Lemma wp_bind {S A B} (m : io S A) (k : A → io S B) (Q : res B → S → Prop) s :
  wp m (λ r s', match r with Ok a => wp (k a) Q s' | Err e => Q (Err e) s' | Panic w => Q (Panic w) s' end) s →
  wp (io_bind m k) Q s.
Proof. unfold wp, io_bind. by destruct (m s) as [[] ?]. Qed.
Lemma wp_attempt {S A} (m : io S A) (Q : res (A + goerror) → S → Prop) s :
  wp m (λ r s', Q (match r with Ok a => Ok (inl a) | Err e => Ok (inr e) | Panic w => Panic w end) s') s → wp (attempt m) Q s.
Proof. unfold wp, attempt. by destruct (m s) as [[] ?]. Qed.
Lemma wp_ignore {S A} (m : io S A) (Q : res unit → S → Prop) s :
  wp m (λ r s', Q (match r with Panic w => Panic w | _ => Ok tt end) s') s → wp (ignore m) Q s.
Proof. unfold wp, ignore. by destruct (m s) as [[] ?]. Qed.
Lemma wp_or_wrap {S A} prefix (m : io S A) (Q : res A → S → Prop) s :
  wp m (λ r s', Q (match r with Err e => Err (ErrWrap prefix e) | r => r end) s') s → wp (or_wrap prefix m) Q s.
Proof. unfold wp, or_wrap. by destruct (m s) as [[] ?]. Qed.

(** What every call of a sequence preserves, the sequence preserves. *)
Definition io_keeps {S A} (P : S → Prop) (m : io S A) : Prop := ∀ s, P s → P (m s).2.
Lemma keeps_ret {S A} (P : S → Prop) (a : A) : io_keeps P (io_ret a).
Proof. by intros s. Qed.
Lemma keeps_err {S A} (P : S → Prop) e : io_keeps P (io_err (A := A) e).
Proof. by intros s. Qed.
Lemma keeps_get {S A} (P : S → Prop) (f : S → A) : io_keeps P (io_get f).
Proof. by intros s. Qed.
Lemma keeps_bind {S A B} (P : S → Prop) (m : io S A) (k : A → io S B) :
  io_keeps P m → (∀ a, io_keeps P (k a)) → io_keeps P (io_bind m k).
Proof.
  intros Hm Hk s Hs. specialize (Hm s Hs). unfold io_bind. destruct (m s) as [[a|e|w] s']; simpl in *; [|done..].
  by apply Hk.
Qed.
Lemma keeps_attempt {S A} (P : S → Prop) (m : io S A) : io_keeps P m → io_keeps P (attempt m).
Proof. intros Hm s Hs. specialize (Hm s Hs). unfold attempt. by destruct (m s) as [[] ?]. Qed.
Lemma keeps_ignore {S A} (P : S → Prop) (m : io S A) : io_keeps P m → io_keeps P (ignore m).
Proof. intros Hm s Hs. specialize (Hm s Hs). unfold ignore. by destruct (m s) as [[] ?]. Qed.
Lemma keeps_or_wrap {S A} (P : S → Prop) prefix (m : io S A) : io_keeps P m → io_keeps P (or_wrap prefix m).
Proof. intros Hm s Hs. specialize (Hm s Hs). unfold or_wrap. by destruct (m s) as [[] ?]. Qed.
Create HintDb io.
#[export] Hint Resolve keeps_ret keeps_err keeps_get keeps_bind keeps_attempt keeps_ignore keeps_or_wrap : io.

(** ** The dynamic values stored in [map[string]any] *)

#[warnings="-register-all"]
Inductive goany :=
  | ANil | AString (s : string) | AInt (z : Z) | ABool (b : bool) | AFloat (f : spec_float)
  | AStruct (fields : list string) (values : list goany)      (* a struct, by its JSON fields *)
  | AList (values : list goany).                              (* a slice *)

(** ** Binary64 floating point: the standard library's computable IEEE-754
    specification at precision 53, exponent bound 1024. *)
Definition float64 := spec_float.
Definition f64_prec : Z := 53.
Definition f64_emax : Z := 1024.
Definition f64_of_Z (z : Z) : float64 := binary_normalize f64_prec f64_emax z 0 false.
Definition f64_zero : float64 := S754_zero false.
Definition f64_add : float64 → float64 → float64 := SFadd f64_prec f64_emax.
Definition f64_mul : float64 → float64 → float64 := SFmul f64_prec f64_emax.
Definition f64_div : float64 → float64 → float64 := SFdiv f64_prec f64_emax.
Definition f64_lt : float64 → float64 → bool := SFltb.
Definition f64_le : float64 → float64 → bool := SFleb.
Definition f64_gt (x y : float64) : bool := SFltb y x.
Definition f64_ge (x y : float64) : bool := SFleb y x.
(** A decimal literal [n/d] rounded to nearest. *)
Definition f64_lit (n d : Z) : float64 := f64_div (f64_of_Z n) (f64_of_Z d).
(** Conversion to an integer type: truncation towards zero. *)
Definition f64_trunc (f : float64) : Z :=
  match f with
  | S754_finite s m e =>
      let a := if 0 <=? e then Z.pos m * 2 ^ e else Z.pos m / 2 ^ (- e) in
      if s then - a else a
  | _ => 0
  end.

(** [int64(f)]: out-of-range values and NaN give the minimum integer (the
    amd64 behaviour; the language leaves it to the implementation). *)
Definition f64_to_int64 (f : float64) : Z :=
  match f with
  | S754_finite _ _ _ | S754_zero _ =>
      let z := f64_trunc f in
      if (minInt64 <=? z) && (z <=? maxInt64) then z else minInt64
  | _ => minInt64
  end.

(** ** JSON values, by their constructors *)

#[warnings="-register-all"]
Inductive json :=
  | JNull | JBool (b : bool) | JInt (z : Z) | JFloat (f : float64) | JString (s : string)
  | JTime (t : Z)                                            (* a time.Time *)
  | JArray (l : list json) | JObject (fields : list (string * json)).

(** ** Strings *)

Definition ascii_lower (c : ascii) : ascii :=
  let n := N_of_ascii c in
  if (65 <=? n)%N && (n <=? 90)%N then ascii_of_N (n + 32) else c.

(** [strings.ToLower], on the bytes of ASCII text. *)
Fixpoint ToLower (s : string) : string :=
  match s with
  | EmptyString => EmptyString
  | String c s' => String (ascii_lower c) (ToLower s')
  end.

(** [strings.HasPrefix], [strings.Contains] and [strings.TrimPrefix]. *)
Definition HasPrefix (s p : string) : bool := String.prefix p s.

Fixpoint Contains (s sub : string) : bool :=
  HasPrefix s sub ||
  match s with
  | EmptyString => false
  | String _ s' => Contains s' sub
  end.

Definition TrimPrefix (s p : string) : string :=
  if HasPrefix s p then String.substring (String.length p) (String.length s - String.length p) s
  else s.

Definition ascii_space (c : ascii) : bool :=
  let n := N_of_ascii c in ((9 <=? n)%N && (n <=? 13)%N) || (n =? 32)%N.

Fixpoint trim_left (s : string) : string :=
  match s with
  | String c s' => if ascii_space c then trim_left s' else s
  | EmptyString => EmptyString
  end.

Fixpoint rev_string (s acc : string) : string :=
  match s with
  | EmptyString => acc
  | String c s' => rev_string s' (String c acc)
  end.

(** [strings.TrimSpace], on ASCII text. *)
Definition TrimSpace (s : string) : string :=
  rev_string (trim_left (rev_string (trim_left s) "")) "".

Definition contains_any (s : string) (subs : list string) : bool := existsb (Contains s) subs.

Lemma contains_any_true s subs :
  contains_any s subs = true ↔ ∃ p, p ∈ subs ∧ Contains s p = true.
Proof.
  unfold contains_any. rewrite existsb_exists.
  split; intros (p & Hp & Hc); exists p; (split; [|done]); by apply list_elem_of_In.
Qed.

Lemma Contains_prefix p s : Contains (p +:+ s) p = true.
Proof.
  assert (HasPrefix (p +:+ s) p = true) as H.
  { unfold HasPrefix. induction p as [|c p IH]; [by destruct s|]. simpl.
    destruct (ascii_dec c c); [done|congruence]. }
  destruct (p +:+ s); simpl in *; rewrite H; done.
Qed.

Lemma HasPrefix_cons a b s p : HasPrefix (String a s) (String b p) = Ascii.eqb a b && HasPrefix s p.
Proof.
  unfold HasPrefix. simpl. destruct (ascii_dec b a) as [->|Hn]; [by rewrite Ascii.eqb_refl|].
  destruct (Ascii.eqb_spec a b) as [->|]; done.
Qed.

Lemma HasPrefix_nil s : HasPrefix s "" = true.
Proof. by destruct s. Qed.

(** ** Slices used as sets of strings *)

Definition slice_has (x : string) (l : list string) : bool := existsb (String.eqb x) l.

(** [append(l[:i], l[i+1:]...)] at the first [i] with [l[i] == x]. *)
Fixpoint remove_first (x : string) (l : list string) : list string :=
  match l with
  | [] => []
  | y :: l' => if String.eqb y x then l' else y :: remove_first x l'
  end.

Lemma slice_has_true x l : slice_has x l = true ↔ x ∈ l.
Proof.
  unfold slice_has. rewrite existsb_exists. setoid_rewrite String.eqb_eq.
  split; [intros (y & Hy & ->); by apply list_elem_of_In|].
  intros H. exists x. split; [by apply list_elem_of_In|done].
Qed.

Lemma slice_has_false x l : slice_has x l = false ↔ x ∉ l.
Proof. rewrite <- slice_has_true. destruct (slice_has x l); naive_solver. Qed.

Lemma elem_of_remove_first x y l : y ∈ remove_first x l → y ∈ l.
Proof.
  induction l as [|z l IH]; simpl; [done|].
  destruct (String.eqb_spec z x); set_solver.
Qed.

Lemma elem_of_remove_first_ne x y l : y ≠ x → y ∈ l → y ∈ remove_first x l.
Proof.
  intros Hne. induction l as [|z l IH]; simpl; [done|].
  destruct (String.eqb_spec z x); set_solver.
Qed.

Lemma NoDup_remove_first x l : NoDup l → NoDup (remove_first x l) ∧ x ∉ remove_first x l.
Proof.
  induction l as [|z l IH]; simpl; [set_solver|].
  intros [Hz Hl]%NoDup_cons. destruct (String.eqb_spec z x) as [->|Hne]; [done|].
  destruct (IH Hl) as [H1 H2]. split; [|set_solver].
  apply NoDup_cons. split; [|done]. intros H3. by apply Hz, (elem_of_remove_first x).
Qed.

Lemma NoDup_snoc {A} (l : list A) x : NoDup l → x ∉ l → NoDup (l ++ [x]).
Proof.
  intros Hl Hx. apply NoDup_app. split_and!; [done| |apply NoDup_singleton].
  intros y Hy ->%list_elem_of_singleton. done.
Qed.

(** The slice expression [l[lo:hi]], for bounds within the length. *)
Definition slice {A} (l : list A) (lo hi : Z) : res (list A) :=
  if (0 <=? lo) && (lo <=? hi) && (hi <=? Z.of_nat (length l))
  then Ok (take (Z.to_nat (hi - lo)) (drop (Z.to_nat lo) l))
  else Panic "slice bounds out of range".

Lemma slice_ok {A} (l : list A) lo hi :
  0 ≤ lo ≤ hi → hi ≤ Z.of_nat (length l) →
  slice l lo hi = Ok (take (Z.to_nat (hi - lo)) (drop (Z.to_nat lo) l)).
Proof.
  intros H1 H2. unfold slice.
  rewrite (proj2 (Z.leb_le 0 lo)), (proj2 (Z.leb_le lo hi)), (proj2 (Z.leb_le hi _)) by lia. done.
Qed.

(** The substring [s[lo:hi]]. *)
Definition substr (s : string) (lo hi : Z) : res string :=
  if (0 <=? lo) && (lo <=? hi) && (hi <=? Z.of_nat (String.length s))
  then Ok (String.substring (Z.to_nat lo) (Z.to_nat (hi - lo)) s)
  else Panic "slice bounds out of range".

(** The values of a map that sit under their own key. *)
Definition keyed_values {A} (key : A → string) (m : gmap string A) : list A :=
  snd <$> List.filter (λ kv, String.eqb (key kv.2) kv.1) (map_to_list m).

Lemma keyed_values_spec {A} (key : A → string) (m : gmap string A) :
  NoDup (key <$> keyed_values key m) ∧ ∀ a, a ∈ keyed_values key m ↔ m !! key a = Some a.
Proof.
  unfold keyed_values. split.
  - assert (∀ l : list (string * A), NoDup (fst <$> l) →
      NoDup (key <$> (snd <$> List.filter (λ kv, String.eqb (key kv.2) kv.1) l))) as Hl.
    { induction l as [|[k a] l IH]; simpl; [constructor|]. intros [Hk Hl]%NoDup_cons.
      destruct (String.eqb_spec (key a) k) as [<-|]; simpl; [|by apply IH]. apply NoDup_cons. split; [|by apply IH].
      intros (b & Hb & ([k' c] & -> & Hin)%list_elem_of_fmap)%list_elem_of_fmap. apply Hk.
      apply list_elem_of_In, filter_In in Hin as [Hin He%String.eqb_eq]. simpl in *.
      apply list_elem_of_fmap. exists (k', c). split; [simpl; congruence|by apply list_elem_of_In]. }
    apply Hl, NoDup_fst_map_to_list.
  - intros a. rewrite list_elem_of_fmap. split.
    + intros ([k b] & -> & Hin). apply list_elem_of_In, filter_In in Hin as [Hin He%String.eqb_eq].
      apply list_elem_of_In, elem_of_map_to_list in Hin. by simpl in *; subst.
    + intros Ha. exists (key a, a). split; [done|]. apply list_elem_of_In, filter_In. simpl.
      rewrite String.eqb_refl. split; [|done]. by apply list_elem_of_In, elem_of_map_to_list.
Qed.

Lemma elem_of_filter_bool {A} (p : A → bool) x l : x ∈ List.filter p l ↔ x ∈ l ∧ p x = true.
Proof. rewrite !list_elem_of_In. apply filter_In. Qed.

Lemma length_filter_perm {A} (p : A → bool) l1 l2 :
  l1 ≡ₚ l2 → length (List.filter p l1) = length (List.filter p l2).
Proof.
  intros Hp. apply Permutation_length.
  induction Hp as [|x l l' _ IH|x y l|l1 l2 l3 _ IH1 _ IH2]; simpl; [done| | |by etrans].
  - destruct (p x); [by constructor|done].
  - destruct (p x), (p y); try done. apply Permutation_swap.
Qed.

Lemma NoDup_fmap_filter {A B} (f : A → B) (p : A → bool) l :
  NoDup (f <$> l) → NoDup (f <$> List.filter p l).
Proof.
  induction l as [|x l IH]; simpl; [done|]. intros [Hx Hl]%NoDup_cons.
  destruct (p x); [|by apply IH]. apply NoDup_cons. split; [|by apply IH].
  intros (y & E & [H _]%elem_of_filter_bool)%list_elem_of_fmap. apply Hx.
  rewrite E. by apply list_elem_of_fmap_2.
Qed.

(** Overwriting a slot trades the old element for the new one. *)
Lemma insert_Permutation {A} (l : list A) i x y :
  l !! i = Some x → x :: <[i := y]> l ≡ₚ y :: l.
Proof.
  revert i. induction l as [|z l IH]; intros [|i] H; simplify_eq/=; [by rewrite Permutation_swap|].
  rewrite (Permutation_swap z x), (IH i H). apply Permutation_swap.
Qed.

(** ** Automation *)

Create HintDb go discriminated.
#[export] Hint Resolve wrap64_range wrapu64_range time_sub_range time_sub_nonneg : go.
#[export] Hint Resolve NoDup_snoc : go.
Create Rewrite HintDb go_rw.
#[export] Hint Rewrite slice_has_true slice_has_false : go_rw.

(** Case analysis on the string comparisons and conditionals of a goal. *)
Ltac str_case :=
  match goal with
  | |- context [String.eqb ?a ?b] => destruct (String.eqb_spec a b); subst
  | H : context [String.eqb ?a ?b] |- _ => destruct (String.eqb_spec a b); subst
  end.
Ltac go_case :=
  match goal with
  | |- context [if ?b then _ else _] => destruct b eqn:?
  | H : context [if ?b then _ else _] |- _ => destruct b eqn:?
  end.
Ltac go_simpl := repeat (simpl in *; simplify_eq; try done).
Ltac go_str := repeat (first [str_case | progress go_simpl]); try done.
Ltac go_cases := repeat (first [go_case | progress go_simpl]); try done.

(** ** Exchange sorts

    The loops [for i { for j > i { if swap(c[i], c[j]) exchange } }]: the inner
    loop carries the element in slot [i] along the rest of the slice. *)
Section exchange.
Context {A : Type}.
Variable swap : A → A → bool.

Fixpoint exchange_pass (x : A) (rest : list A) : A * list A :=
  match rest with
  | [] => (x, [])
  | y :: rest =>
      if swap x y then let '(z, rest') := exchange_pass y rest in (z, x :: rest')
      else let '(z, rest') := exchange_pass x rest in (z, y :: rest')
  end.

(** One unit of fuel per slot. *)
Fixpoint exchange_loop (fuel : nat) (l : list A) : list A :=
  match fuel, l with
  | S fuel, x :: rest => let '(z, rest') := exchange_pass x rest in z :: exchange_loop fuel rest'
  | _, _ => l
  end.
Definition exchange_sort (l : list A) : list A := exchange_loop (length l) l.
End exchange.

Section exchange_sorts.
Context {A : Type}.
Variable swap : A → A → bool.
Hypothesis swap_asym : ∀ a b, swap a b = true → swap b a = false.
Hypothesis swap_trans : ∀ a b c, swap a b = false → swap b c = false → swap a c = false.

Lemma exchange_pass_perm x rest : let '(z, rest') := exchange_pass swap x rest in z :: rest' ≡ₚ x :: rest.
Proof.
  revert x. induction rest as [|y rest IH]; intros x; simpl; [done|]. destruct (swap x y).
  - specialize (IH y). destruct (exchange_pass swap y rest) as [z rest']. by rewrite Permutation_swap, IH.
  - specialize (IH x). destruct (exchange_pass swap x rest) as [z rest'].
    by rewrite Permutation_swap, IH, Permutation_swap.
Qed.

Lemma exchange_pass_first x rest : let '(z, rest') := exchange_pass swap x rest in
  swap z x = false ∧ ∀ y, y ∈ rest' → swap z y = false.
Proof.
  assert (∀ a, swap a a = false) as Hirr.
  { intros a. destruct (swap a a) eqn:E; [|done]. pose proof (swap_asym a a E). congruence. }
  revert x. induction rest as [|y rest IH]; intros x; simpl; [split; [apply Hirr|by intros ? ?%not_elem_of_nil]|].
  destruct (swap x y) eqn:E.
  - specialize (IH y). destruct (exchange_pass swap y rest) as [z rest']. destruct IH as [H1 H2].
    assert (swap z x = false) as Hx by (eapply swap_trans; [exact H1|by apply swap_asym]).
    split; [done|]. intros w [->|Hw]%elem_of_cons; [done|by apply H2].
  - specialize (IH x). destruct (exchange_pass swap x rest) as [z rest']. destruct IH as [H1 H2].
    split; [done|]. intros w [->|Hw]%elem_of_cons; [by eapply swap_trans|by apply H2].
Qed.

Lemma exchange_sort_sorted l :
  exchange_sort swap l ≡ₚ l ∧ StronglySorted (λ a b, swap a b = false) (exchange_sort swap l).
Proof.
  unfold exchange_sort. assert (∀ n l, length l = n → exchange_loop swap n l ≡ₚ l ∧
    StronglySorted (λ a b, swap a b = false) (exchange_loop swap n l)) as H; [|by apply H].
  clear l. induction n as [|n IH]; intros l Hl; [by apply nil_length_inv in Hl as ->; split; [|constructor]|].
  destruct l as [|x rest]; [done|]. simpl. pose proof (exchange_pass_perm x rest) as Hp. pose proof (exchange_pass_first x rest) as Hf.
  destruct (exchange_pass swap x rest) as [z rest']. pose proof (Permutation_length Hp) as Hlen. simpl in Hl, Hlen.
  destruct (IH rest') as [H1 H2]; [lia|]. split; [by rewrite H1|]. constructor; [done|].
  apply Forall_forall. intros y Hy. apply Hf. by rewrite <- H1.
Qed.
End exchange_sorts.

Lemma exchange_sort_key {A} (f : A → Z) l :
  (exchange_sort (λ a b, f b <? f a) l ≡ₚ l ∧ StronglySorted (λ a b, f a ≤ f b) (exchange_sort (λ a b, f b <? f a) l)) ∧
  (exchange_sort (λ a b, f a <? f b) l ≡ₚ l ∧ StronglySorted (λ a b, f b ≤ f a) (exchange_sort (λ a b, f a <? f b) l)).
Proof.
  split.
  - destruct (exchange_sort_sorted (λ a b, f b <? f a)) with (l := l) as [H1 H2]; [intros a b; rewrite Z.ltb_lt, Z.ltb_ge; lia|intros a b c; rewrite !Z.ltb_ge; lia|].
    split; [done|]. clear -H2. induction H2 as [|a k Hk IH Ha]; constructor; [done|].
    eapply Forall_impl; [exact Ha|]. intros b Hb. apply Z.ltb_ge in Hb. lia.
  - destruct (exchange_sort_sorted (λ a b, f a <? f b)) with (l := l) as [H1 H2]; [intros a b; rewrite Z.ltb_lt, Z.ltb_ge; lia|intros a b c; rewrite !Z.ltb_ge; lia|].
    split; [done|]. clear -H2. induction H2 as [|a k Hk IH Ha]; constructor; [done|].
    eapply Forall_impl; [exact Ha|]. intros b Hb. apply Z.ltb_ge in Hb. lia.
Qed.
