(* ===== verification/JobStatus.v ===== *)
(** * Job status (pkg/domain/job/types/status.go)

    [JobStatus] is a Go string type with eight named values; any other string
    is a representable but invalid status, so the model keeps the string.  The
    file models the predicates, the transition table, the JSON/text round trip
    and the validated transition events. *)

From S2P Require Import Prelude.

Abbreviation JobStatus := string (only parsing).

Definition StatusPending : JobStatus := "pending".
Definition StatusQueued : JobStatus := "queued".
Definition StatusStarting : JobStatus := "starting".
Definition StatusRunning : JobStatus := "running".
Definition StatusCompleted : JobStatus := "completed".
Definition StatusFailed : JobStatus := "failed".
Definition StatusCancelled : JobStatus := "cancelled".
Definition StatusPaused : JobStatus := "paused".

(** [status_is s l]: the Go [switch s { case l...: true default: false }]. *)
Definition status_is (s : JobStatus) (l : list JobStatus) : bool := slice_has s l.

Definition valid_statuses : list JobStatus :=
  [StatusPending; StatusQueued; StatusStarting; StatusRunning; StatusCompleted;
   StatusFailed; StatusCancelled; StatusPaused].

Definition IsValid (s : JobStatus) : bool := status_is s valid_statuses.

Definition IsTerminal (s : JobStatus) : bool :=
  status_is s [StatusCompleted; StatusFailed; StatusCancelled].

(** The literal [transitions] map of [CanTransitionTo]. *)
Definition transitions : gmap JobStatus (list JobStatus) :=
  list_to_map
    [(StatusPending, [StatusQueued; StatusStarting; StatusCancelled]);
     (StatusQueued, [StatusStarting; StatusRunning; StatusCancelled]);
     (StatusStarting, [StatusRunning; StatusFailed; StatusCancelled]);
     (StatusRunning, [StatusCompleted; StatusFailed; StatusCancelled; StatusPaused]);
     (StatusPaused, [StatusRunning; StatusCancelled]);
     (StatusCompleted, []); (StatusFailed, []); (StatusCancelled, [])].

Definition CanTransitionTo (s target : JobStatus) : bool :=
  match transitions !! s with
  | None => false
  | Some allowed => slice_has target allowed
  end.

(** [json.Marshal]/[json.Unmarshal] of the underlying string are the standard
    library's; what the methods add is the validity check on the way in.  The
    JSON text is represented by the string it decodes to, [None] for text that
    is not a JSON string. *)
Definition MarshalJSON (s : JobStatus) : option string := Some s.

Definition UnmarshalJSON (data : option string) : res JobStatus :=
  match data with
  | None => Err (ErrNew "json: cannot unmarshal into Go value of type string")
  | Some str =>
      if negb (IsValid str) then Err (ErrNew ("invalid job status: " +:+ str)) else Ok str
  end.

Definition ParseJobStatus (s : string) : res JobStatus :=
  if negb (IsValid s) then Err (ErrNew ("invalid job status: " +:+ s)) else Ok s.

Record JobStatusTransition := mkTransition {
  From : JobStatus; To : JobStatus; Timestamp : Z; Reason : string }.

Definition NewJobStatusTransition (now : Time) (from to : JobStatus) (reason : string)
    : res JobStatusTransition :=
  if negb (CanTransitionTo from to)
  then Err (ErrNew ("invalid transition from " +:+ from +:+ " to " +:+ to))
  else Ok (mkTransition from to (now / Second) reason).

Definition ValidateTransition (t : JobStatusTransition) : res unit :=
  if String.eqb (From t) "" || String.eqb (To t) ""
  then Err (ErrNew "transition must have both from and to states")
  else if negb (IsValid (From t)) then Err (ErrNew ("invalid from status: " +:+ From t))
  else if negb (IsValid (To t)) then Err (ErrNew ("invalid to status: " +:+ To t))
  else if negb (CanTransitionTo (From t) (To t))
  then Err (ErrNew ("invalid transition from " +:+ From t +:+ " to " +:+ To t))
  else if Timestamp t <=? 0 then Err (ErrNew "transition must have a valid timestamp")
  else Ok tt.

(** ** Facts *)

Lemma IsValid_elem s : IsValid s = true ↔ s ∈ valid_statuses.
Proof. apply slice_has_true. Qed.

(** A property of statuses holds of every valid one when it holds of the
    eight constants: the case analysis is by computation. *)
Lemma valid_status_ind (P : JobStatus → Prop) :
  Forall P valid_statuses → ∀ s, IsValid s = true → P s.
Proof. intros H s Hs%IsValid_elem. by apply (proj1 (Forall_forall _ _) H). Qed.

Lemma valid_status_ind2 (P : JobStatus → JobStatus → Prop) :
  Forall (λ s, Forall (P s) valid_statuses) valid_statuses →
  ∀ s t, IsValid s = true → IsValid t = true → P s t.
Proof.
  intros H s t Hs. revert s Hs t. apply (valid_status_ind (λ s, ∀ t, _ → _)).
  eapply Forall_impl; [exact H|]. intros s Hs. by apply valid_status_ind.
Qed.

Lemma transitions_dom s l : transitions !! s = Some l → IsValid s = true.
Proof.
  intros H%elem_of_list_to_map_2.
  repeat (apply elem_of_cons in H as [H|H]; [simplify_eq; done|]). by apply elem_of_nil in H.
Qed.

Lemma CanTransitionTo_valid s t :
  CanTransitionTo s t = true → IsValid s = true ∧ IsValid t = true.
Proof.
  unfold CanTransitionTo. destruct (transitions !! s) as [l|] eqn:E; [|done].
  pose proof (transitions_dom _ _ E) as Hs. intros Ht%slice_has_true. split; [done|].
  apply elem_of_list_to_map_2 in E.
  repeat (apply elem_of_cons in E as [E|E];
    [simplify_eq; repeat (apply elem_of_cons in Ht as [->|Ht]; [done|]); by apply elem_of_nil in Ht|]).
  by apply elem_of_nil in E.
Qed.

(** The reachability order of the table: a rank that every transition
    increases, except for the pause/resume cycle. *)
Definition status_rank (s : JobStatus) : nat :=
  if status_is s [StatusPending] then 0
  else if status_is s [StatusQueued] then 1
  else if status_is s [StatusStarting] then 2
  else if status_is s [StatusRunning; StatusPaused] then 3
  else 4.

Lemma CanTransitionTo_rank s t :
  CanTransitionTo s t = true → (status_rank s < status_rank t)%nat ∨
    (s = StatusRunning ∧ t = StatusPaused) ∨ (s = StatusPaused ∧ t = StatusRunning).
Proof.
  intros H. destruct (CanTransitionTo_valid _ _ H) as [Hs Ht]. revert s t Hs Ht H.
  apply (valid_status_ind2 (λ s t, CanTransitionTo s t = true → _)).
  repeat apply Forall_cons_2 || apply Forall_nil_2;
    first [discriminate 1 | intros _; by auto | intros _; left; vm_compute; lia].
Qed.

(** The terminal predicate and the transition table agree: among the valid
    statuses, a status is terminal exactly when the table allows no move out of
    it, and every other valid status can be cancelled. *)
Theorem terminal_iff_stuck s :
  IsValid s = true →
  (IsTerminal s = true ↔ ∀ t, CanTransitionTo s t = false) ∧
  (IsTerminal s = false → CanTransitionTo s StatusCancelled = true).
Proof.
  revert s. apply (valid_status_ind (λ s, _ ∧ _)).
  repeat apply Forall_cons_2 || apply Forall_nil_2;
    (split; [split; [intros H t; first [discriminate H | reflexivity]|
                     intros H; first [reflexivity | discriminate (H StatusCancelled)]]
            | intros H; first [reflexivity | discriminate H]]).
Qed.

Lemma terminal_iff_stuck_witness :
  (∀ t, CanTransitionTo StatusFailed t = false) ∧ CanTransitionTo StatusQueued StatusCancelled = true.
Proof.
  split.
  - apply (proj1 (proj1 (terminal_iff_stuck StatusFailed eq_refl))). reflexivity.
  - apply (proj2 (terminal_iff_stuck StatusQueued eq_refl)). reflexivity.
Defined.

(** A status survives the text and JSON round trips exactly when it is
    valid; an invalid string is rejected with its text in the message. *)
Theorem status_roundtrip s :
  (IsValid s = true → ParseJobStatus s = Ok s ∧ UnmarshalJSON (MarshalJSON s) = Ok s) ∧
  (IsValid s = false →
     ParseJobStatus s = Err (ErrNew ("invalid job status: " +:+ s)) ∧
     UnmarshalJSON (MarshalJSON s) = Err (ErrNew ("invalid job status: " +:+ s))).
Proof. unfold ParseJobStatus, MarshalJSON, UnmarshalJSON. by split; intros ->. Qed.

(** A transition event created after the epoch always passes its own
    validation, and creation fails exactly on the moves the table forbids. *)
Theorem transition_created_valid now from to reason :
  Second ≤ now →
  (∀ t, NewJobStatusTransition now from to reason = Ok t →
        ValidateTransition t = Ok tt ∧ From t = from ∧ To t = to) ∧
  (is_ok (NewJobStatusTransition now from to reason) = CanTransitionTo from to).
Proof.
  intros Hnow. unfold NewJobStatusTransition.
  destruct (CanTransitionTo from to) eqn:E; simpl; [|done].
  split; [|done]. intros t [= <-]. unfold ValidateTransition; simpl.
  destruct (CanTransitionTo_valid _ _ E) as [Hf Ht]. rewrite Hf, Ht, E; simpl.
  assert (from ≠ "" ∧ to ≠ "") as [Hf' Ht'] by (split; intros ->; done).
  apply String.eqb_neq in Hf', Ht'. rewrite Hf', Ht'; simpl.
  assert (1 ≤ now / Second).
  { apply (Z.div_le_mono Second now Second) in Hnow; [|done]. done. }
  destruct (Z.leb_spec (now / Second) 0); [lia|]. done.
Qed.

Lemma transition_created_valid_witness :
  ∃ t, NewJobStatusTransition (5 * Second) StatusQueued StatusRunning "go" = Ok t ∧
       ValidateTransition t = Ok tt.
Proof.
  eexists. split; [reflexivity|].
  apply (proj1 (transition_created_valid (5 * Second) StatusQueued StatusRunning "go" ltac:(done)) _ eq_refl).
Defined.
