(* ===== verification/Job.v ===== *)
(** * The job entity (pkg/domain/job/types/job.go)

    A [Job] is the record of the Go struct; a method with a pointer receiver is
    a function that returns the updated record, and [time.Now()] is an explicit
    [now] argument (one per call where a method reads the clock twice).  A nil
    map is [None].  Methods that return an error do so before they write. *)

From S2P Require Import Prelude JobStatus.

Abbreviation JobPriority := Z (only parsing).
Definition PriorityLow : JobPriority := 0.
Definition PriorityNormal : JobPriority := 1.
Definition PriorityHigh : JobPriority := 2.
Definition PriorityCritical : JobPriority := 3.

Definition priority_string (p : JobPriority) : string :=
  if p =? PriorityLow then "low"
  else if p =? PriorityNormal then "normal"
  else if p =? PriorityHigh then "high"
  else if p =? PriorityCritical then "critical"
  else "unknown".

Record JobProgress := mkJobProgress {
  TotalExecs : Z; ExecsPerSecond : Z; CorpusSize : Z; Coverage : float64;
  LastUpdated : Time; EstimatedTimeLeft : option Duration }.

Record CoverageStats := mkCoverageStats {
  LineCoverage : float64; FunctionCoverage : float64; BranchCoverage : float64;
  CollectedAt : Time; ReportPath : string }.

Record Job := mkJob {
  ID : string;
  Name : string;
  Description : string;
  Status : JobStatus;
  FuzzerType : string;
  FuzzerConfig : option (gmap string goany);
  TargetBinary : string;
  TargetArgs : list string;
  Environment : option (gmap string string);
  CreatedAt : Time;
  StartedAt : option Time;
  CompletedAt : option Time;
  UpdatedAt : Time;
  Priority : JobPriority;
  MaxDuration : Duration;
  CorpusPath : string;
  OutputPath : string;
  CrashCount : Z;
  ExecutionTime : Duration;
  Metadata : option (gmap string string);
  Tags : list string;
  ErrorMessage : string;
  Progress : option JobProgress;
  ScheduledAt : option Time;
  RetryCount : Z;
  MaxRetries : Z;
  RetryDelay : Duration;
  Dependencies : list string;
  LockedBy : string;
  LockedAt : option Time;
  LockExpiresAt : option Time;
  LeaseToken : option string;
  LeaseExpiresAt : option Time;
  LastHeartbeat : option Time;
  QueuedAt : option Time;
  DequeueCount : Z;
  EnableCoverage : bool;
  CoverageFormat : string;
  CoverageReportID : string;
  JobCoverageStats : option CoverageStats }.

#[export] Instance job_eta : Eta Job := fun j =>
  mkJob (ID j) (Name j) (Description j) (Status j) (FuzzerType j) (FuzzerConfig j)
    (TargetBinary j) (TargetArgs j) (Environment j) (CreatedAt j) (StartedAt j)
    (CompletedAt j) (UpdatedAt j) (Priority j) (MaxDuration j) (CorpusPath j)
    (OutputPath j) (CrashCount j) (ExecutionTime j) (Metadata j) (Tags j)
    (ErrorMessage j) (Progress j) (ScheduledAt j) (RetryCount j) (MaxRetries j)
    (RetryDelay j) (Dependencies j) (LockedBy j) (LockedAt j) (LockExpiresAt j)
    (LeaseToken j) (LeaseExpiresAt j) (LastHeartbeat j) (QueuedAt j) (DequeueCount j)
    (EnableCoverage j) (CoverageFormat j) (CoverageReportID j) (JobCoverageStats j).

(** The zero value of the struct, [Job{}]. *)
Definition zero_job : Job :=
  mkJob "" "" "" "" "" None "" [] None zero_time None None zero_time 0 0 "" "" 0 0 None []
    "" None None 0 0 0 [] "" None None None None None None 0 false "" "" None.

(** ** Construction and validation *)

Definition generateJobID (name : string) (timestamp : Time) : string :=
  "job_" +:+ name +:+ "_" +:+ pretty timestamp.

Definition NewJob (now : Time) (name fuzzerType targetBinary corpusPath outputPath : string)
    : res Job :=
  if String.eqb name "" then Err (ErrNew "job name cannot be empty")
  else if String.eqb fuzzerType "" then Err (ErrNew "fuzzer type cannot be empty")
  else if String.eqb targetBinary "" then Err (ErrNew "target binary cannot be empty")
  else if String.eqb corpusPath "" then Err (ErrNew "corpus path cannot be empty")
  else if String.eqb outputPath "" then Err (ErrNew "output path cannot be empty")
  else Ok {| ID := generateJobID name now; Name := name; Description := "";
             Status := StatusPending; FuzzerType := fuzzerType; FuzzerConfig := Some ∅;
             TargetBinary := targetBinary; TargetArgs := []; Environment := Some ∅;
             CreatedAt := now; StartedAt := None; CompletedAt := None; UpdatedAt := now;
             Priority := PriorityNormal; MaxDuration := 0; CorpusPath := corpusPath;
             OutputPath := outputPath; CrashCount := 0; ExecutionTime := 0;
             Metadata := Some ∅; Tags := []; ErrorMessage := ""; Progress := None;
             ScheduledAt := None; RetryCount := 0; MaxRetries := 0; RetryDelay := 0;
             Dependencies := []; LockedBy := ""; LockedAt := None; LockExpiresAt := None;
             LeaseToken := None; LeaseExpiresAt := None; LastHeartbeat := None;
             QueuedAt := None; DequeueCount := 0; EnableCoverage := false;
             CoverageFormat := ""; CoverageReportID := ""; JobCoverageStats := None |}.

Definition isValidCoverageFormat (format : string) : bool :=
  slice_has format ["json"; "html"; "lcov"; "cobertura"].

Definition Validate (j : Job) : res unit :=
  if String.eqb (ID j) "" then Err (ErrNew "job ID cannot be empty")
  else if String.eqb (Name j) "" then Err (ErrNew "job name cannot be empty")
  else if String.eqb (FuzzerType j) "" then Err (ErrNew "fuzzer type cannot be empty")
  else if String.eqb (TargetBinary j) "" then Err (ErrNew "target binary cannot be empty")
  else if String.eqb (CorpusPath j) "" then Err (ErrNew "corpus path cannot be empty")
  else if String.eqb (OutputPath j) "" then Err (ErrNew "output path cannot be empty")
  else if negb (IsValid (Status j)) then Err (ErrNew ("invalid job status: " +:+ Status j))
  else if (Priority j <? PriorityLow) || (PriorityCritical <? Priority j)
  then Err (ErrNew ("invalid job priority: " +:+ pretty (Priority j)))
  else if EnableCoverage j && negb (String.eqb (CoverageFormat j) "")
          && negb (isValidCoverageFormat (CoverageFormat j))
  then Err (ErrNew ("invalid coverage format: " +:+ CoverageFormat j
                    +:+ " (must be one of: json, html, lcov, cobertura)"))
  else Ok tt.

(** ** Life cycle *)

Definition Start (now : Time) (j : Job) : res Job :=
  if negb (String.eqb (Status j) StatusPending) && negb (String.eqb (Status j) StatusQueued)
  then Err (ErrNew ("cannot start job in status: " +:+ Status j))
  else Ok (j <| Status := StatusRunning |> <| StartedAt := Some now |> <| UpdatedAt := now |>).

(** [if j.StartedAt != nil { j.ExecutionTime = now.Sub( *j.StartedAt) }] *)
Definition record_execution_time (now : Time) (j : Job) : Job :=
  match StartedAt j with
  | Some s => j <| ExecutionTime := time_sub now s |>
  | None => j
  end.

Definition Complete (now : Time) (j : Job) : res Job :=
  if negb (String.eqb (Status j) StatusRunning)
  then Err (ErrNew ("cannot complete job in status: " +:+ Status j))
  else Ok (record_execution_time now
             (j <| Status := StatusCompleted |> <| CompletedAt := Some now |> <| UpdatedAt := now |>)).

Definition Fail (now : Time) (errorMessage : string) (j : Job) : res Job :=
  if String.eqb (Status j) StatusCompleted || String.eqb (Status j) StatusFailed
  then Err (ErrNew ("cannot fail job in status: " +:+ Status j))
  else Ok (record_execution_time now
             (j <| Status := StatusFailed |> <| CompletedAt := Some now |>
                <| UpdatedAt := now |> <| ErrorMessage := errorMessage |>)).

Definition Cancel (now : Time) (j : Job) : res Job :=
  if String.eqb (Status j) StatusCompleted || String.eqb (Status j) StatusFailed
  then Err (ErrNew ("cannot cancel job in status: " +:+ Status j))
  else Ok (record_execution_time now
             (j <| Status := StatusCancelled |> <| CompletedAt := Some now |> <| UpdatedAt := now |>)).

Definition Queue (now : Time) (j : Job) : res Job :=
  if negb (String.eqb (Status j) StatusPending)
  then Err (ErrNew ("cannot queue job in status: " +:+ Status j))
  else Ok (j <| Status := StatusQueued |> <| QueuedAt := Some now |> <| UpdatedAt := now |>
             <| DequeueCount := wrap64 (DequeueCount j + 1) |>).

Definition UpdateProgress (now : Time) (progress : option JobProgress) (j : Job) : res Job :=
  if negb (String.eqb (Status j) StatusRunning)
  then Err (ErrNew ("cannot update progress for job in status: " +:+ Status j))
  else Ok (j <| Progress := progress |> <| UpdatedAt := now |>).

Definition IncrementCrashCount (now : Time) (j : Job) : Job :=
  j <| CrashCount := wrapu64 (CrashCount j + 1) |> <| UpdatedAt := now |>.

(** ** Retry bookkeeping *)

Definition CanRetry (j : Job) : bool :=
  String.eqb (Status j) StatusFailed && (RetryCount j <? MaxRetries j).

(** [time.Duration(1 << uint(n))]: a shift of an int64 one; the count is
    converted to [uint], so a negative [n] shifts everything out. *)
Definition shl_one (n : Z) : Duration :=
  let k := wrapu64 n in if 64 <=? k then 0 else wrap64 (2 ^ k).

Definition IncrementRetries (now now' : Time) (j : Job) : Job :=
  let j := j <| RetryCount := wrap64 (RetryCount j + 1) |> <| UpdatedAt := now |> in
  if 0 <? RetryDelay j then
    let backoffDelay := wrap64 (RetryDelay j * shl_one (wrap64 (RetryCount j - 1))) in
    j <| ScheduledAt := Some (time_add now' backoffDelay) |>
  else j.

(** ** Locking *)

Definition Lock (now : Time) (workerID : string) (lockDuration : Duration) (j : Job) : res Job :=
  if negb (String.eqb (Status j) StatusQueued)
  then Err (ErrNew ("cannot lock job in status: " +:+ Status j))
  else Ok (j <| LockedBy := workerID |> <| LockedAt := Some now |>
             <| LockExpiresAt := Some (time_add now lockDuration) |> <| UpdatedAt := now |>).

Definition Unlock (now : Time) (j : Job) : Job :=
  j <| LockedBy := "" |> <| LockedAt := None |> <| LockExpiresAt := None |> <| UpdatedAt := now |>.

Definition IsLocked (now : Time) (j : Job) : bool :=
  match LockExpiresAt j with
  | Some e => negb (String.eqb (LockedBy j) "") && time_after e now
  | None => false
  end.

(** ** Maps, tags and dependencies *)

(** [m[k] = v] with the [m == nil] guard of the setters. *)
Definition map_set {V} (k : string) (v : V) (m : option (gmap string V)) : option (gmap string V) :=
  Some (<[k := v]> (default ∅ m)).
(** [v, ok := m[k]]; reading a nil map finds nothing. *)
Definition map_get {V} (k : string) (m : option (gmap string V)) : option V := default ∅ m !! k.

Definition SetFuzzerConfig (now : Time) (key : string) (value : goany) (j : Job) : Job :=
  j <| FuzzerConfig := map_set key value (FuzzerConfig j) |> <| UpdatedAt := now |>.
Definition GetFuzzerConfig (key : string) (j : Job) : option goany := map_get key (FuzzerConfig j).
Definition SetEnvironment (now : Time) (key value : string) (j : Job) : Job :=
  j <| Environment := map_set key value (Environment j) |> <| UpdatedAt := now |>.
Definition SetMetadata (now : Time) (key value : string) (j : Job) : Job :=
  j <| Metadata := map_set key value (Metadata j) |> <| UpdatedAt := now |>.
Definition GetMetadata (key : string) (j : Job) : option string := map_get key (Metadata j).

Definition AddTag (now : Time) (tag : string) (j : Job) : Job :=
  if slice_has tag (Tags j) then j
  else j <| Tags := Tags j ++ [tag] |> <| UpdatedAt := now |>.

Definition RemoveTag (now : Time) (tag : string) (j : Job) : Job :=
  if slice_has tag (Tags j)
  then j <| Tags := remove_first tag (Tags j) |> <| UpdatedAt := now |>
  else j.

Definition AddDependency (now : Time) (jobID : string) (j : Job) : res Job :=
  if String.eqb jobID (ID j) then Err (ErrNew "job cannot depend on itself")
  else if slice_has jobID (Dependencies j)
  then Err (ErrNew ("dependency " +:+ jobID +:+ " already exists"))
  else Ok (j <| Dependencies := Dependencies j ++ [jobID] |> <| UpdatedAt := now |>).

Definition RemoveDependency (now : Time) (jobID : string) (j : Job) : Job :=
  if slice_has jobID (Dependencies j)
  then j <| Dependencies := remove_first jobID (Dependencies j) |> <| UpdatedAt := now |>
  else j.

Definition HasDependencies (j : Job) : bool := negb (Nat.eqb (length (Dependencies j)) 0).

(** ** Queries *)

Definition IsRunning (j : Job) : bool := String.eqb (Status j) StatusRunning.

Definition IsFinished (j : Job) : bool :=
  String.eqb (Status j) StatusCompleted || String.eqb (Status j) StatusFailed
  || String.eqb (Status j) StatusCancelled.

Definition JobDuration (now : Time) (j : Job) : Duration :=
  match StartedAt j with
  | None => 0
  | Some s => match CompletedAt j with
              | Some c => time_sub c s
              | None => time_sub now s
              end
  end.

Definition IsExpired (now : Time) (j : Job) : bool :=
  if (MaxDuration j =? 0) || negb (IsRunning j) then false
  else MaxDuration j <? JobDuration now j.

Definition IsScheduled (now : Time) (j : Job) : bool :=
  match ScheduledAt j with None => false | Some s => time_after s now end.

Definition IsReadyToRun (now : Time) (j : Job) : bool :=
  if negb (String.eqb (Status j) StatusPending) && negb (String.eqb (Status j) StatusQueued)
  then false
  else match ScheduledAt j with Some s => negb (time_after s now) | None => true end.

Definition JobCanTransitionTo (j : Job) (status : JobStatus) : bool := CanTransitionTo (Status j) status.

Definition UpdateCoverageStats (now : Time) (stats : option CoverageStats) (j : Job) : res Job :=
  if negb (EnableCoverage j)
  then Err (ErrNew "cannot update coverage stats when coverage is disabled")
  else match stats with
       | None => Err (ErrNew "coverage stats cannot be nil")
       | Some s => Ok (j <| JobCoverageStats := Some s |> <| UpdatedAt := now |>)
       end.

(** ** The method calls as a transition system

    [job_step j j']: some exported method of [Job], called with a clock that
    has not gone back since the job was last updated, turned [j] into [j']. *)

Inductive job_step (j : Job) : Job → Prop :=
  | step_start now j' : UpdatedAt j ≤ now → Start now j = Ok j' → job_step j j'
  | step_complete now j' : UpdatedAt j ≤ now → Complete now j = Ok j' → job_step j j'
  | step_fail now msg j' : UpdatedAt j ≤ now → Fail now msg j = Ok j' → job_step j j'
  | step_cancel now j' : UpdatedAt j ≤ now → Cancel now j = Ok j' → job_step j j'
  | step_queue now j' : UpdatedAt j ≤ now → Queue now j = Ok j' → job_step j j'
  | step_progress now p j' : UpdatedAt j ≤ now → UpdateProgress now p j = Ok j' → job_step j j'
  | step_crash now : UpdatedAt j ≤ now → job_step j (IncrementCrashCount now j)
  | step_retry now now' : UpdatedAt j ≤ now → job_step j (IncrementRetries now now' j)
  | step_lock now w d j' : UpdatedAt j ≤ now → Lock now w d j = Ok j' → job_step j j'
  | step_unlock now : UpdatedAt j ≤ now → job_step j (Unlock now j)
  | step_config now k v : UpdatedAt j ≤ now → job_step j (SetFuzzerConfig now k v j)
  | step_env now k v : UpdatedAt j ≤ now → job_step j (SetEnvironment now k v j)
  | step_metadata now k v : UpdatedAt j ≤ now → job_step j (SetMetadata now k v j)
  | step_add_tag now t : UpdatedAt j ≤ now → job_step j (AddTag now t j)
  | step_remove_tag now t : UpdatedAt j ≤ now → job_step j (RemoveTag now t j)
  | step_add_dep now d j' : UpdatedAt j ≤ now → AddDependency now d j = Ok j' → job_step j j'
  | step_remove_dep now d : UpdatedAt j ≤ now → job_step j (RemoveDependency now d j)
  | step_coverage now s j' : UpdatedAt j ≤ now → UpdateCoverageStats now s j = Ok j' → job_step j j'.

(** The part of a job the life cycle is about: the fields every method but the
    life-cycle ones leaves alone. *)
Definition core (j : Job) : JobStatus * option Time * option Time * Duration * option Time :=
  (Status j, StartedAt j, CompletedAt j, ExecutionTime j, QueuedAt j).
(** The fields [Validate] reads besides the status; no method writes them. *)
Definition identity (j : Job) :=
  (ID j, Name j, FuzzerType j, TargetBinary j, CorpusPath j, OutputPath j,
   (Priority j, EnableCoverage j, CoverageFormat j, CreatedAt j)).

(** The status moves of the methods, with the timestamps they set. *)
Inductive core_step (now : Time) (j j' : Job) : Prop :=
  | core_same : core j' = core j → core_step now j j'
  | core_start : Status j = StatusPending ∨ Status j = StatusQueued →
      core j' = (StatusRunning, Some now, CompletedAt j, ExecutionTime j, QueuedAt j) →
      core_step now j j'
  | core_queue : Status j = StatusPending →
      core j' = (StatusQueued, StartedAt j, CompletedAt j, ExecutionTime j, Some now) →
      core_step now j j'
  | core_finish s : Status j ≠ StatusCompleted → Status j ≠ StatusFailed →
      IsTerminal s = true → (s = StatusCompleted → Status j = StatusRunning) →
      core j' = (s, StartedAt j, Some now,
                 match StartedAt j with Some t => time_sub now t | None => ExecutionTime j end,
                 QueuedAt j) →
      core_step now j j'.

Lemma record_execution_time_core now j :
  core (record_execution_time now j) =
  (Status j, StartedAt j, CompletedAt j,
   match StartedAt j with Some t => time_sub now t | None => ExecutionTime j end, QueuedAt j).
Proof. unfold record_execution_time, core. destruct (StartedAt j) eqn:E; simpl; by rewrite ?E. Qed.

Lemma record_execution_time_frame now j :
  identity (record_execution_time now j) = identity j ∧
  UpdatedAt (record_execution_time now j) = UpdatedAt j ∧
  Tags (record_execution_time now j) = Tags j ∧
  Dependencies (record_execution_time now j) = Dependencies j ∧
  CrashCount (record_execution_time now j) = CrashCount j.
Proof. unfold record_execution_time. by destruct (StartedAt j). Qed.

(** What a step does to the slices and counters. *)
Record step_frame (now : Time) (j j' : Job) : Prop := {
  sf_identity : identity j' = identity j;
  sf_updated : UpdatedAt j' = now ∨ j' = j;
  sf_tags : NoDup (Tags j) → NoDup (Tags j');
  sf_deps : NoDup (Dependencies j) ∧ ID j ∉ Dependencies j →
            NoDup (Dependencies j') ∧ ID j' ∉ Dependencies j';
  sf_crashes : 0 ≤ CrashCount j < 2 ^ 64 → 0 ≤ CrashCount j' < 2 ^ 64 }.

Ltac frame_fields :=
  repeat match goal with
  | |- context [record_execution_time ?n ?x] =>
      let H := fresh in
      pose proof (record_execution_time_frame n x) as H;
      generalize dependent (record_execution_time n x); intros ? H
  end.
Ltac solve_frame :=
  frame_fields; unfold identity in *; simpl in *; destruct_and?; simplify_eq;
  split; unfold identity; simpl; intros; destruct_and?;
  first [by auto | by (left; congruence) | by (split; congruence) | congruence | idtac].

Lemma finish_core_step now j x s :
  core x = (s, StartedAt j, Some now, ExecutionTime j, QueuedAt j) →
  Status j ≠ StatusCompleted → Status j ≠ StatusFailed →
  IsTerminal s = true → (s = StatusCompleted → Status j = StatusRunning) →
  core_step now j (record_execution_time now x).
Proof.
  intros Hx H1 H2 H3 H4. eapply core_finish; eauto. rewrite record_execution_time_core.
  unfold core in Hx. by injection Hx as -> -> -> -> ->.
Qed.

Lemma job_step_frame j j' :
  job_step j j' → ∃ now, UpdatedAt j ≤ now ∧ core_step now j j' ∧ step_frame now j j'.
Proof.
  intros H; destruct H as
    [now j' Hn E|now j' Hn E|now m j' Hn E|now j' Hn E|now j' Hn E|now p j' Hn E|now Hn|now n' Hn
    |now w d j' Hn E|now Hn|now k v Hn|now k v Hn|now k v Hn|now t Hn|now t Hn|now d j' Hn E|now d Hn
    |now s j' Hn E]; exists now; (split; [done|]).
  - unfold Start in E. go_str; (split; [eapply core_start; simpl; eauto|solve_frame]).
  - unfold Complete in E. destruct (String.eqb_spec (Status j) StatusRunning) as [Hr|]; go_simpl.
    split; [|solve_frame]. by apply finish_core_step with (s := StatusCompleted); try rewrite Hr.
  - unfold Fail in E. go_str. split; [|solve_frame].
    apply finish_core_step with (s := StatusFailed); done.
  - unfold Cancel in E. go_str. split; [|solve_frame].
    apply finish_core_step with (s := StatusCancelled); done.
  - unfold Queue in E. go_str. split; [by eapply core_queue|solve_frame].
  - unfold UpdateProgress in E. go_str. split; [by apply core_same|solve_frame].
  - split; [by apply core_same|solve_frame]. apply wrapu64_range.
  - unfold IncrementRetries. simpl. destruct (0 <? _); (split; [by apply core_same|solve_frame]).
  - unfold Lock in E. go_str. split; [by apply core_same|solve_frame].
  - split; [by apply core_same|solve_frame].
  - split; [by apply core_same|solve_frame].
  - split; [by apply core_same|solve_frame].
  - split; [by apply core_same|solve_frame].
  - unfold AddTag. destruct (slice_has t (Tags j)) eqn:E; (split; [by apply core_same|solve_frame]).
    apply slice_has_false in E. by apply NoDup_snoc.
  - unfold RemoveTag. destruct (slice_has t (Tags j)) eqn:E; (split; [by apply core_same|solve_frame]).
    by apply NoDup_remove_first.
  - unfold AddDependency in E. destruct (String.eqb_spec d (ID j)); [done|].
    destruct (slice_has d (Dependencies j)) eqn:E'; [done|]. simplify_eq.
    split; [by apply core_same|solve_frame].
    apply slice_has_false in E'. split; [by apply NoDup_snoc|set_solver].
  - unfold RemoveDependency. destruct (slice_has d (Dependencies j)) eqn:E;
      (split; [by apply core_same|solve_frame]).
    split; [by apply NoDup_remove_first|]. intros Hin%elem_of_remove_first. done.
  - unfold UpdateCoverageStats in E. destruct (EnableCoverage j) eqn:?, s; simplify_eq/=.
    split; [by apply core_same|solve_frame].
Qed.

(** ** The invariant of jobs that only the methods have touched *)

Record job_wf (j : Job) : Prop := {
  wf_valid : Validate j = Ok tt;
  wf_created : CreatedAt j ≤ UpdatedAt j;
  wf_started : ∀ s, StartedAt j = Some s → s ≤ UpdatedAt j;
  wf_completed : IsTerminal (Status j) = true ↔ is_Some (CompletedAt j);
  wf_running : Status j = StatusRunning ∨ Status j = StatusCompleted → is_Some (StartedAt j);
  wf_queued : Status j = StatusQueued → is_Some (QueuedAt j);
  wf_exec : ∀ s c, StartedAt j = Some s → CompletedAt j = Some c →
            s ≤ c ∧ ExecutionTime j = time_sub c s;
  wf_exec_nonneg : 0 ≤ ExecutionTime j;
  wf_tags : NoDup (Tags j);
  wf_deps : NoDup (Dependencies j) ∧ ID j ∉ Dependencies j;
  wf_crashes : 0 ≤ CrashCount j < 2 ^ 64 }.

Lemma Validate_frame j j' :
  identity j' = identity j → IsValid (Status j') = IsValid (Status j) →
  Status j' = Status j ∨ IsValid (Status j) = true →
  Validate j = Ok tt → Validate j' = Ok tt.
Proof.
  unfold identity, Validate. intros [= -> -> -> -> -> -> -> -> -> ?] Hv Hs Hj.
  rewrite Hv. go_cases.
Qed.

Lemma Validate_status j : Validate j = Ok tt → IsValid (Status j) = true.
Proof. unfold Validate. intros H. destruct (IsValid (Status j)); [done|]. go_cases. Qed.

Lemma terminal_cases s :
  IsTerminal s = true ↔ s = StatusCompleted ∨ s = StatusFailed ∨ s = StatusCancelled.
Proof. unfold IsTerminal, status_is. rewrite slice_has_true. set_solver. Qed.

Lemma core_step_valid now j j' :
  core_step now j j' → IsValid (Status j) = true → IsValid (Status j') = true.
Proof.
  unfold core. intros [E|? E|? E|s ? ? Ht ? E] Hv; injection E as Es _ _ _ _; rewrite Es; try done.
  by destruct (proj1 (terminal_cases s) Ht) as [->|[->| ->]].
Qed.

Lemma core_step_wf now j j' :
  job_wf j → UpdatedAt j ≤ now → UpdatedAt j' = now ∨ j' = j → core_step now j j' →
  CreatedAt j' = CreatedAt j →
  (CreatedAt j' ≤ UpdatedAt j') ∧
  (∀ s, StartedAt j' = Some s → s ≤ UpdatedAt j') ∧
  (IsTerminal (Status j') = true ↔ is_Some (CompletedAt j')) ∧
  (Status j' = StatusRunning ∨ Status j' = StatusCompleted → is_Some (StartedAt j')) ∧
  (Status j' = StatusQueued → is_Some (QueuedAt j')) ∧
  (∀ s c, StartedAt j' = Some s → CompletedAt j' = Some c →
            s ≤ c ∧ ExecutionTime j' = time_sub c s) ∧
  0 ≤ ExecutionTime j'.
Proof.
  intros [Hv Hcr Hst Hc Hr Hq He He0 _ _ _] Hn Hu Hstep Hcreated.
  destruct Hu as [Hu| ->]; [|done]. rewrite Hu, Hcreated.
  unfold core in Hstep. destruct Hstep as [E|Hs E|Hs E|s Hs1 Hs2 Ht Hs3 E];
    injection E as Es Est Ec Eex Eq; rewrite Es, Est, Ec, Eex, Eq.
  - split_and!; eauto with lia. intros s Hs. apply Hst in Hs. lia.
  - assert (CompletedAt j = None) as Hnone.
    { apply eq_None_not_Some. rewrite <- Hc. destruct Hs as [-> | ->]; done. }
    rewrite Hnone. split_and!; eauto with lia; try done.
    intros s [= <-]. lia.
  - assert (CompletedAt j = None) as Hnone by (apply eq_None_not_Some; rewrite <- Hc, Hs; done).
    rewrite Hnone. split_and!; eauto with lia; try done.
    + intros s Hs'. apply Hst in Hs'. lia.
    + intros [?|?]; done.
  - split_and!; eauto with lia.
    + intros s' Hs'. apply Hst in Hs'. lia.
    + split; [eauto|done].
    + intros [-> | ->]; [done|]. apply Hr. auto.
    + intros ->. done.
    + intros s' c Hs' [= <-]. rewrite Hs'. apply Hst in Hs'. split; [lia|done].
    + destruct (StartedAt j) as [t|] eqn:E2; [|done]. apply time_sub_nonneg. specialize (Hst _ eq_refl). lia.
Qed.

Lemma job_step_wf j j' : job_wf j → job_step j j' → job_wf j'.
Proof.
  intros Hj (now & Hn & Hcore & [Hid Hu Ht Hd Hcr])%job_step_frame.
  assert (CreatedAt j' = CreatedAt j) as Hc' by (unfold identity in Hid; congruence).
  destruct (core_step_wf now j j') as (?&?&?&?&?&?&?); try done.
  pose proof (Validate_status _ (wf_valid _ Hj)) as Hs.
  split; try done.
  - eapply Validate_frame; [done| |by right|by apply wf_valid].
    rewrite Hs. by eapply core_step_valid.
  - apply Ht, Hj.
  - apply Hd, Hj.
  - apply Hcr, Hj.
Qed.

Lemma NewJob_wf now n f t c o j : NewJob now n f t c o = Ok j → job_wf j.
Proof.
  unfold NewJob. intros H. go_cases.
  split; simpl; try done; try lia; try (by constructor); try (by intros [?|?]).
  - unfold Validate, generateJobID; simpl.
    repeat match goal with H : ?b = false |- context [?b] => rewrite H end. done.
  - split; [by constructor|set_solver].
Qed.

(** C40: every job obtained from [NewJob] by any sequence of method calls is
    well formed: it passes [Validate], it has a completion time exactly when its
    status is terminal, a running or completed job has a start time, its
    execution time is the (non-negative) difference of the two, its tags and
    dependencies have no duplicates and it never depends on itself. *)
Theorem reachable_job_wf now n f t c o j0 j :
  NewJob now n f t c o = Ok j0 → rtc job_step j0 j → job_wf j.
Proof.
  intros H0 Hr. apply NewJob_wf in H0. induction Hr; [done|]. eauto using job_step_wf.
Qed.

Definition demo_job : Job :=
  match NewJob 10 "fuzz" "afl++" "/bin/t" "/c" "/o" with Ok j => j | _ => zero_job end.

Lemma reachable_job_wf_witness :
  ∃ j, rtc job_step demo_job j ∧ Status j = StatusCompleted ∧ job_wf j.
Proof.
  assert (∃ j, rtc job_step demo_job j ∧ Status j = StatusCompleted) as (j & Hr & Hs).
  { eexists. split.
    - eapply rtc_l; [eapply (step_queue _ 11); [done|reflexivity]|].
      eapply rtc_l; [eapply (step_start _ 12); [done|reflexivity]|].
      eapply rtc_l; [eapply (step_complete _ 20); [done|reflexivity]|].
      apply rtc_refl.
    - reflexivity. }
  exists j. split_and!; [done..|].
  apply (reachable_job_wf 10 "fuzz" "afl++" "/bin/t" "/c" "/o" demo_job j); [reflexivity|done].
Defined.

Lemma core_step_finished now j j' :
  core_step now j j' → IsFinished j = true → IsFinished j' = true ∧
  (Status j' = Status j ∨ Status j = StatusCancelled).
Proof.
  unfold core, IsFinished. intros [E|[Hs|Hs] E|Hs E|s H1 H2 Ht _ E] Hf;
    injection E as Es _ _ _ _; rewrite Es; try (rewrite Hs in Hf; done).
  - rewrite Hf. by auto.
  - apply terminal_cases in Ht. split; [by destruct Ht as [->|[->| ->]]|]. right.
    go_str.
Qed.

(** A finished job stays finished whatever methods are called on it, and
    its outcome is final: only a cancelled job can still change status. *)
Theorem finished_absorbing j j' :
  rtc job_step j j' → IsFinished j = true →
  IsFinished j' = true ∧
  (Status j = StatusCompleted ∨ Status j = StatusFailed → Status j' = Status j).
Proof.
  induction 1 as [j|j1 j2 j3 Hs _ IH]; [done|]. intros Hf.
  apply job_step_frame in Hs as (now & _ & Hc & _).
  apply core_step_finished in Hc as [Hf2 Hc]; [|done]. destruct (IH Hf2) as [Hf3 Hk].
  split; [done|]. intros Ho. destruct Hc as [Hc|Hc]; [|rewrite Hc in Ho; by destruct Ho].
  rewrite <- Hc. apply Hk. by rewrite Hc.
Qed.

Lemma finished_absorbing_witness :
  ∃ j, Fail 30 "boom" demo_job = Ok j ∧
       Status (IncrementCrashCount 31 j) = StatusFailed.
Proof.
  eexists. split; [reflexivity|].
  refine (proj2 (finished_absorbing _ _ (rtc_once _ _ (step_crash _ 31 _)) _) _); [done|reflexivity|by right].
Defined.

(** The life-cycle methods against the transition table.  A successful
    [Queue] or [Complete] is a move the table allows, and so is a [Start] of a
    queued job; but [Start] also accepts a pending job, and [Fail] and [Cancel]
    accept a job that is already cancelled, moves the table forbids. *)
Theorem lifecycle_vs_table now msg j :
  (is_ok (Queue now j) = true → CanTransitionTo (Status j) StatusQueued = true) ∧
  (is_ok (Complete now j) = true → CanTransitionTo (Status j) StatusCompleted = true) ∧
  (is_ok (Start now j) = true →
     CanTransitionTo (Status j) StatusRunning = true ∨ Status j = StatusPending) ∧
  (Status j = StatusPending →
     is_ok (Start now j) = true ∧ CanTransitionTo (Status j) StatusRunning = false) ∧
  (Status j = StatusCancelled →
     is_ok (Fail now msg j) = true ∧ CanTransitionTo (Status j) StatusFailed = false ∧
     is_ok (Cancel now j) = true ∧ CanTransitionTo (Status j) StatusCancelled = false).
Proof.
  unfold Queue, Complete, Start, Fail, Cancel.
  split_and!; try (intros ->; done); intros H; go_str;
    repeat match goal with E : Status j = _ |- _ => rewrite E; clear E end; auto.
Qed.

Lemma shl_one_exact n : 0 ≤ n < 63 → shl_one n = 2 ^ n.
Proof.
  intros Hn. unfold shl_one. rewrite wrapu64_id by lia.
  destruct (Z.leb_spec 64 n); [lia|]. apply wrap64_id.
  assert (2 ^ n ≤ 2 ^ 62) by (apply Z.pow_le_mono_r; lia).
  assert (0 < 2 ^ n) by lia. unfold in_int64, minInt64, maxInt64. lia.
Qed.

Lemma shl_one_over n : 64 ≤ n < 2 ^ 64 → shl_one n = 0.
Proof.
  intros Hn. unfold shl_one. rewrite wrapu64_id by lia. by destruct (Z.leb_spec 64 n); [|lia].
Qed.

(** The retry schedule.  The [n]-th retry is scheduled [RetryDelay * 2^n]
    after the clock reading as long as the product fits in an int64; from the
    65th retry on, the shift count reaches the width of the type and the delay
    collapses to zero. *)
Theorem retry_backoff now now' j :
  0 < RetryDelay j → 0 ≤ RetryCount j < maxInt64 →
  RetryCount (IncrementRetries now now' j) = RetryCount j + 1 ∧
  (RetryCount j < 63 → RetryDelay j * 2 ^ RetryCount j ≤ maxInt64 →
     ScheduledAt (IncrementRetries now now' j) = Some (now' + RetryDelay j * 2 ^ RetryCount j)) ∧
  (64 ≤ RetryCount j → ScheduledAt (IncrementRetries now now' j) = Some now').
Proof.
  intros Hd Hn. unfold IncrementRetries; simpl.
  assert (wrap64 (RetryCount j + 1) = RetryCount j + 1) as Hw.
  { apply wrap64_id. unfold in_int64, minInt64, maxInt64 in *. lia. }
  assert (wrap64 (wrap64 (RetryCount j + 1) - 1) = RetryCount j) as Hw'.
  { rewrite Hw, Z.add_simpl_r. apply wrap64_id. unfold in_int64, minInt64, maxInt64 in *. lia. }
  destruct (Z.ltb_spec 0 (RetryDelay j)); [|lia]. simpl. rewrite Hw'. split_and!; [done| |].
  - intros H63 Hb. rewrite shl_one_exact by lia. rewrite wrap64_id; [done|].
    unfold in_int64, minInt64. nia.
  - intros H64. rewrite shl_one_over by (unfold maxInt64 in *; lia).
    rewrite Z.mul_0_r. unfold time_add. by rewrite wrap64_id, Z.add_0_r.
Qed.

Lemma retry_backoff_witness :
  ScheduledAt (IncrementRetries 50 60 (demo_job <| RetryDelay := 7 |> <| RetryCount := 3 |>)) =
  Some (60 + 7 * 2 ^ 3).
Proof.
  refine (proj1 (proj2 (retry_backoff 50 60 (demo_job <| RetryDelay := 7 |> <| RetryCount := 3 |>) _ _)) _ _);
    vm_compute; done.
Defined.
