(* ===== verification/GoHeap.v ===== *)
(** * The binary heap of Go's container/heap

    The scheduler's priority queue is built on the standard library's
    [container/heap] applied to a slice whose [Swap] also records each item's
    position.  The heap functions [Push], [Pop], [Remove], [Fix] and the sift
    loops are modelled on lists for any ordering [less] and any position field
    writer [put], and are proved correct for every strict weak ordering. *)

From S2P Require Import Prelude.
Local Open Scope nat_scope.

(** The parent index [(j - 1) / 2]; Go's division truncates, so the parent of
    the root is the root. *)
Definition parent (k : nat) : nat := (k - 1) / 2.
Arguments parent : simpl never.

Section heap.
Context {A : Type} (less : A → A → bool) (put : nat → A → A).

(** [Swap(i, j)]: [h[i], h[j] = h[j], h[i]; h[i].index = i; h[j].index = j].
    An index out of range panics. *)
Definition Swap (h : list A) (i j : nat) : option (list A) :=
  match h !! i, h !! j with
  | Some x, Some y => Some (<[j := put j x]> (<[i := put i y]> h))
  | _, _ => None
  end.

Definition Less (h : list A) (i j : nat) : bool :=
  match h !! i, h !! j with
  | Some x, Some y => less x y
  | _, _ => false
  end.

(** The total part of [Swap], used on indices the loops keep in range. *)
Definition swap (h : list A) (i j : nat) : list A := default h (Swap h i j).

(** [up(h, j)] *)
Fixpoint up_loop (fuel : nat) (h : list A) (j : nat) : list A :=
  match fuel with
  | 0 => h
  | S fuel =>
      let i := parent j in
      if (i =? j) || negb (Less h j i) then h else up_loop fuel (swap h i j) i
  end.
Definition up (h : list A) (j : nat) : list A := up_loop (S j) h j.

(** One iteration of [down]: the child to swap with, if any. *)
Definition down_child (h : list A) (i n : nat) : option nat :=
  let j1 := 2 * i + 1 in
  if n <=? j1 then None
  else
    let j2 := j1 + 1 in
    let j := if (j2 <? n) && Less h j2 j1 then j2 else j1 in
    if negb (Less h j i) then None else Some j.

Fixpoint down_loop (fuel : nat) (h : list A) (i n : nat) : list A * nat :=
  match fuel with
  | 0 => (h, i)
  | S fuel =>
      match down_child h i n with
      | None => (h, i)
      | Some j => down_loop fuel (swap h i j) j n
      end
  end.
(** [down(h, i0, n)] returns whether the element moved. *)
Definition down (h : list A) (i0 n : nat) : list A * bool :=
  let '(h', i) := down_loop (n - i0) h i0 n in (h', i0 <? i).

Definition heap_push (h : list A) (x : A) : list A :=
  up (h ++ [put (length h) x]) (length h).

(** The slice's own [Pop]: drop and return the last element. *)
Definition slice_pop (h : list A) : option (A * list A) :=
  match last h with
  | Some x => Some (x, take (length h - 1) h)
  | None => None
  end.

Definition heap_pop (h : list A) : option (A * list A) :=
  let n := length h - 1 in
  match Swap h 0 n with
  | None => None
  | Some h1 => slice_pop (fst (down h1 0 n))
  end.

Definition heap_remove (h : list A) (i : nat) : option (A * list A) :=
  let n := length h - 1 in
  if n =? i then slice_pop h
  else match Swap h i n with
       | None => None
       | Some h1 =>
           let '(h2, moved) := down h1 i n in
           slice_pop (if moved then h2 else up h2 i)
       end.

Definition heap_fix (h : list A) (i : nat) : list A :=
  let '(h', moved) := down h i (length h) in if moved then h' else up h' i.

Fixpoint init_loop (k : nat) (h : list A) (n : nat) : list A :=
  match k with
  | 0 => h
  | S k => init_loop k (fst (down h k n)) n
  end.
Definition heap_init (h : list A) : list A := init_loop (length h / 2) h (length h).
End heap.

Lemma parent_lt k : 0 < k → parent k < k.
Proof. intros. unfold parent. apply Nat.Div0.div_lt_upper_bound. lia. Qed.

Lemma parent_child c i : 0 < c → (parent c = i ↔ c = 2 * i + 1 ∨ c = 2 * i + 2).
Proof.
  intros Hc. unfold parent. pose proof (Nat.div_mod_eq (c - 1) 2).
  pose proof (Nat.mod_upper_bound (c - 1) 2). lia.
Qed.

(** ** Correctness for a strict weak ordering

    [less] is asymmetric and its complement is transitive, so [le x y] ("[y]
    need not come before [x]") is a total preorder. *)
Class StrictWeak {B : Type} (lt : B → B → bool) : Prop := {
  sw_asym x y : lt x y = true → lt y x = false;
  sw_negtrans x y z : lt x y = false → lt y z = false → lt x z = false }.

Section plain.
Context {B : Type} (lt : B → B → bool) `{!StrictWeak lt}.

Definition le (x y : B) : Prop := lt y x = false.

Lemma le_refl x : le x x.
Proof. unfold le. destruct (lt x x) eqn:E; [|done]. by rewrite <- E; apply sw_asym in E. Qed.
Lemma le_trans x y z : le x y → le y z → le x z.
Proof. unfold le. intros H1 H2. by apply (sw_negtrans z y x). Qed.
Lemma lt_le x y : lt x y = true → le x y.
Proof. apply sw_asym. Qed.

Abbreviation idput := (fun (_ : nat) (x : B) => x).
Abbreviation pswap := (@swap B idput).

Lemma lookup_swap (h : list B) i j k :
  i < length h → j < length h →
  pswap h i j !! k = if decide (k = j) then h !! i else if decide (k = i) then h !! j else h !! k.
Proof.
  intros Hi Hj. unfold swap, Swap.
  destruct (lookup_lt_is_Some_2 h i Hi) as [x Hx], (lookup_lt_is_Some_2 h j Hj) as [y Hy].
  rewrite Hx, Hy. simpl. destruct (decide (k = j)) as [->|Hkj].
  { rewrite list_lookup_insert_eq; [done|]. by rewrite length_insert. }
  rewrite list_lookup_insert_ne by done.
  destruct (decide (k = i)) as [->|Hki]; [by apply list_lookup_insert_eq|].
  by rewrite list_lookup_insert_ne.
Qed.

Lemma length_swap (h : list B) i j : length (pswap h i j) = length h.
Proof. unfold swap, Swap. destruct (h !! i), (h !! j); simpl; by rewrite ?length_insert. Qed.

Lemma swap_Permutation (h : list B) i j : pswap h i j ≡ₚ h.
Proof.
  unfold swap, Swap. destruct (h !! i) as [x|] eqn:Hx, (h !! j) as [y|] eqn:Hy; simpl; try done.
  destruct (decide (i = j)) as [->|Hne].
  { simplify_eq. by rewrite !list_insert_id by (by rewrite ?list_insert_id). }
  apply (Permutation_cons_inv (a := y)).
  rewrite (insert_Permutation _ j y) by (by rewrite list_lookup_insert_ne).
  by apply insert_Permutation.
Qed.

(** Heap order below [n], with its two one-position relaxations. *)
Definition ordered_at (h : list B) (k : nat) : Prop :=
  ∀ x y, h !! k = Some x → h !! parent k = Some y → le y x.
Definition heap_upto (h : list B) (n : nat) : Prop := ∀ k, 0 < k < n → ordered_at h k.
Definition bridge (h : list B) (i n : nat) : Prop :=
  0 < i → ∀ c x y, 0 < c < n → parent c = i → h !! c = Some x → h !! parent i = Some y → le y x.
Definition up_inv (h : list B) (j n : nat) : Prop :=
  (∀ k, 0 < k < n → k ≠ j → ordered_at h k) ∧ bridge h j n.
Definition down_inv (h : list B) (i n : nat) : Prop :=
  (∀ k, 0 < k < n → k ≠ i → parent k ≠ i → ordered_at h k) ∧ bridge h i n.

Lemma Less_true (h : list B) i j :
  Less lt h i j = true ↔ ∃ x y, h !! i = Some x ∧ h !! j = Some y ∧ lt x y = true.
Proof. unfold Less. destruct (h !! i), (h !! j); naive_solver. Qed.

Lemma Less_false (h : list B) i j x y :
  Less lt h i j = false → h !! i = Some x → h !! j = Some y → le y x.
Proof. unfold Less. intros H Hi Hj. by rewrite Hi, Hj in H. Qed.

Lemma up_step (h : list B) j n :
  0 < j < n → n ≤ length h → up_inv h j n → Less lt h j (parent j) = true →
  up_inv (pswap h (parent j) j) (parent j) n.
Proof.
  intros Hj Hn [Hord Hbr] (a & b & Ha & Hb & Hlt)%Less_true.
  pose proof (parent_lt j ltac:(lia)) as Hp. set (p := parent j) in *.
  assert (∀ k, pswap h p j !! k =
    if decide (k = j) then h !! p else if decide (k = p) then h !! j else h !! k) as Hl.
  { intros k. apply lookup_swap; lia. }
  apply lt_le in Hlt. split.
  - intros k Hk Hkp x y. pose proof (parent_lt k ltac:(lia)). rewrite !Hl.
    destruct (decide (k = p)); [done|]. destruct (decide (k = j)) as [->|Hkj].
    { fold p. destruct (decide (p = j)); [lia|]. rewrite decide_True by done. naive_solver. }
    destruct (decide (parent k = j)) as [Hpj|Hpj].
    { intros Hx Hy. eapply (Hbr ltac:(lia) k); try done; lia. }
    destruct (decide (parent k = p)) as [Hpp|Hpp]; [|by apply Hord; [lia|]].
    rewrite Ha. intros Hx [= <-]. apply (le_trans _ b); [done|].
    eapply (Hord k); try done. by rewrite Hpp.
  - intros Hp0 c x y Hc Hcp. pose proof (parent_lt p Hp0). rewrite !Hl.
    rewrite (decide_False (P := parent p = j)) by lia.
    rewrite (decide_False (P := parent p = p)) by lia.
    assert (∀ y, h !! parent p = Some y → le y b) as Hpb.
    { intros y' Hy'. eapply (Hord p); try done; lia. }
    destruct (decide (c = j)) as [->|Hcj]; [intros; simplify_eq; by apply Hpb|].
    destruct (decide (c = p)) as [->|]; [lia|]. intros Hx Hy.
    apply (le_trans _ b); [by apply Hpb|]. eapply (Hord c); try done. by rewrite Hcp.
Qed.

Lemma up_loop_frame fuel (h : list B) j :
  length (up_loop lt idput fuel h j) = length h ∧ up_loop lt idput fuel h j ≡ₚ h ∧
  ∀ k, j < k → j < length h → up_loop lt idput fuel h j !! k = h !! k.
Proof.
  revert h j. induction fuel as [|fuel IH]; intros h j; simpl; [by split_and!|].
  destruct ((parent j =? j) || negb (Less lt h j (parent j))) eqn:E; [by split_and!|].
  apply orb_false_iff in E as [E%Nat.eqb_neq _].
  assert (0 < j) as Hj by (destruct j; [done|lia]). pose proof (parent_lt j Hj).
  destruct (IH (pswap h (parent j) j) (parent j)) as (IH1 & IH2 & IH3).
  rewrite length_swap in IH1, IH3. split_and!; [done|by rewrite IH2, swap_Permutation|].
  intros k Hk Hl. rewrite IH3, lookup_swap by lia. by rewrite !decide_False by lia.
Qed.

Lemma up_loop_heap fuel (h : list B) j n :
  j < fuel → j < n → n ≤ length h → up_inv h j n → heap_upto (up_loop lt idput fuel h j) n.
Proof.
  revert h j. induction fuel as [|fuel IH]; intros h j Hf Hj Hn Hinv; [lia|]. simpl.
  destruct (Nat.eqb_spec (parent j) j) as [Hroot|Hroot]; simpl.
  { destruct j as [|j]; [|pose proof (parent_lt (S j)); lia]. intros k Hk. apply Hinv; lia. }
  assert (0 < j) as Hj0 by (destruct j; [done|lia]).
  destruct (Less lt h j (parent j)) eqn:E; simpl.
  - apply IH; rewrite ?length_swap; try lia; [pose proof (parent_lt j); lia..|].
    by apply up_step.
  - intros k Hk. destruct (decide (k = j)) as [->|]; [|by apply Hinv].
    intros x y. by apply Less_false.
Qed.

(** *** Sifting down *)

Lemma down_child_Some (h : list B) i n j :
  n ≤ length h → down_child lt h i n = Some j →
  i < j < n ∧ parent j = i ∧ Less lt h j i = true ∧
  ∀ c x y, 0 < c < n → parent c = i → h !! c = Some x → h !! j = Some y → le y x.
Proof.
  intros Hn. unfold down_child. replace (2 * i + 1 + 1) with (2 * i + 2) by lia.
  destruct (Nat.leb_spec n (2 * i + 1)); [done|].
  destruct ((2 * i + 2 <? n) && Less lt h (2 * i + 2) (2 * i + 1)) eqn:E;
    destruct (Less lt h _ i) eqn:EL; cbn [negb]; intros Hs; try done.
  - assert (j = 2 * i + 2) as -> by congruence. apply andb_true_iff in E as [E1%Nat.ltb_lt E2].
    split_and!; [lia|lia|apply parent_child; lia|done|].
    intros c x y Hc Hp%parent_child Hx Hy; [|lia]. destruct Hp as [-> | ->]; simplify_eq; [|apply le_refl].
    apply Less_true in E2 as (?&?&?&?&?). simplify_eq. by apply lt_le.
  - assert (j = 2 * i + 1) as -> by congruence. split_and!; [lia|lia|apply parent_child; lia|done|].
    intros c x y Hc Hp%parent_child Hx Hy; [|lia]. destruct Hp as [-> | ->]; simplify_eq; [apply le_refl|].
    apply andb_false_iff in E as [E%Nat.ltb_ge|E]; [lia|]. by eapply Less_false.
Qed.

Lemma down_child_None (h : list B) i n c x y :
  n ≤ length h → down_child lt h i n = None → 0 < c < n → parent c = i →
  h !! c = Some x → h !! i = Some y → le y x.
Proof.
  intros Hn. unfold down_child. replace (2 * i + 1 + 1) with (2 * i + 2) by lia.
  intros H Hc Hp%parent_child Hx Hy; [|lia]. revert H.
  destruct (Nat.leb_spec n (2 * i + 1)); [lia|].
  destruct ((2 * i + 2 <? n) && Less lt h (2 * i + 2) (2 * i + 1)) eqn:E;
    destruct (Less lt h _ i) eqn:EL; cbn [negb]; try done; intros _.
  - apply andb_true_iff in E as [E1%Nat.ltb_lt (a & b & Ha & Hb & Hab%lt_le)%Less_true].
    destruct Hp as [-> | ->]; simplify_eq; [|by eapply Less_false].
    apply (le_trans _ a); [by eapply Less_false|done].
  - apply andb_false_iff in E as [E%Nat.ltb_ge|E];
      destruct Hp as [-> | ->]; try lia; try by eapply Less_false.
    destruct (lookup_lt_is_Some_2 h (2 * i + 1)) as [z Hz]; [lia|].
    apply (le_trans _ z); [exact (Less_false _ _ _ _ _ EL Hz Hy)|exact (Less_false _ _ _ _ _ E Hx Hz)].
Qed.

Lemma down_step (h : list B) i j n :
  n ≤ length h → down_inv h i n → down_child lt h i n = Some j →
  down_inv (pswap h i j) j n ∧ ordered_at (pswap h i j) j.
Proof.
  intros Hn [Hord Hbr] (Hij & Hpj & (a & b & Ha & Hb & Hab%lt_le)%Less_true & Hmin)%down_child_Some; [|done].
  assert (∀ k, pswap h i j !! k =
    if decide (k = j) then h !! i else if decide (k = i) then h !! j else h !! k) as Hl.
  { intros k. apply lookup_swap; lia. }
  split; [split|].
  - intros k Hk Hkj Hpk x y. pose proof (parent_lt k ltac:(lia)). rewrite !Hl.
    rewrite (decide_False (P := k = j)), (decide_False (P := parent k = j)) by done.
    destruct (decide (k = i)) as [->|Hki].
    { rewrite decide_False by lia. intros Hx Hy. eapply (Hbr ltac:(lia) j); try done. lia. }
    destruct (decide (parent k = i)) as [Hpi|Hpi]; [|by apply Hord; [lia..|]].
    intros Hx Hy. eapply (Hmin k); done.
  - intros _ c x y Hc Hcj. pose proof (parent_lt c ltac:(lia)). rewrite !Hl, Hpj.
    rewrite (decide_False (P := c = j)), (decide_False (P := c = i)) by lia.
    rewrite (decide_False (P := i = j)), (decide_True (P := i = i)) by lia.
    intros Hx Hy. eapply (Hord c); try done; try lia. by rewrite Hcj.
  - intros x y. rewrite !Hl, Hpj. rewrite (decide_True (P := j = j)) by done.
    rewrite (decide_False (P := i = j)), (decide_True (P := i = i)) by lia. naive_solver.
Qed.

Lemma down_loop_frame fuel (h : list B) i n :
  n ≤ length h →
  let '(h', i') := down_loop lt idput fuel h i n in
  length h' = length h ∧ h' ≡ₚ h ∧ i ≤ i' ∧ (i' = i → h' = h) ∧ ∀ k, n ≤ k → h' !! k = h !! k.
Proof.
  intros Hn. revert h i Hn. induction fuel as [|fuel IH]; intros h i Hn; simpl; [by split_and!|].
  destruct (down_child lt h i n) as [j|] eqn:E; [|by split_and!].
  apply down_child_Some in E as (Hij & _); [|done].
  specialize (IH (pswap h i j) j). rewrite length_swap in IH. specialize (IH Hn).
  destruct (down_loop lt idput fuel (pswap h i j) j n) as [h' i'].
  destruct IH as (IH1 & IH2 & IH3 & _ & IH5).
  split_and!; [done|by rewrite IH2, swap_Permutation|lia|lia|].
  intros k Hk. rewrite IH5, lookup_swap by lia. by rewrite !decide_False by lia.
Qed.

Lemma down_loop_heap fuel (h : list B) i n :
  n - i ≤ fuel → n ≤ length h → down_inv h i n → (0 < i < n → ordered_at h i) →
  heap_upto (down_loop lt idput fuel h i n).1 n.
Proof.
  revert h i. induction fuel as [|fuel IH]; intros h i Hf Hn Hinv Hi; simpl.
  { intros k Hk. pose proof (parent_lt k). destruct (decide (k = i)) as [->|]; [by apply Hi|].
    apply Hinv; lia. }
  destruct (down_child lt h i n) as [j|] eqn:E.
  - destruct (down_step _ _ _ _ Hn Hinv E) as [H1 H2].
    apply down_child_Some in E as (Hij & _); [|done].
    apply IH; rewrite ?length_swap; [lia|done..].
  - intros k Hk. destruct (decide (k = i)) as [->|]; [by apply Hi|].
    destruct (decide (parent k = i)) as [Hp|]; [|by apply Hinv].
    intros x y Hx Hy. eapply (down_child_None h i n k); try done. by rewrite <- Hp.
Qed.

(** [down] restores the heap when it moves the element, and otherwise leaves at
    most the element's relation to its parent broken, which [up] then repairs. *)
Lemma down_spec (h : list B) i n :
  i < n → n ≤ length h → down_inv h i n →
  let '(h', moved) := down lt idput h i n in
  length h' = length h ∧ h' ≡ₚ h ∧ (∀ k, n ≤ k → h' !! k = h !! k) ∧
  (if moved then heap_upto h' n else h' = h ∧ up_inv h' i n).
Proof.
  intros Hi Hn Hinv. unfold down. pose proof (down_loop_frame (n - i) h i n Hn) as Hf.
  destruct (n - i) as [|fuel] eqn:En; [lia|]. simpl in *.
  destruct (down_child lt h i n) as [j|] eqn:E.
  - pose proof (down_step _ _ _ _ Hn Hinv E) as [H1 H2].
    apply down_child_Some in E as (Hij & _); [|done].
    pose proof (down_loop_heap fuel (pswap h i j) j n) as Hh.
    pose proof (down_loop_frame fuel (pswap h i j) j n) as Hf'. rewrite length_swap in *.
    destruct (down_loop lt idput fuel (pswap h i j) j n) as [h' i'].
    destruct Hf as (?&?&?&?&?), Hf' as (?&?&?&?&?); [done|].
    split_and!; try done. destruct (Nat.ltb_spec i i'); [|lia]. apply Hh; try done. lia.
  - destruct Hf as (?&?&?&?&?). split_and!; try done.
    rewrite Nat.ltb_irrefl. split; [done|]. destruct Hinv as [Hord Hbr]. split; [|done].
    intros k Hk Hki. destruct (decide (parent k = i)) as [Hp|]; [|by apply Hord].
    intros x y Hx Hy. eapply (down_child_None h i n k); try done. by rewrite <- Hp.
Qed.

Lemma fix_spec (h : list B) i n :
  i < n → n ≤ length h → down_inv h i n →
  let '(h1, moved) := down lt idput h i n in
  let h' := if moved then h1 else up lt idput h1 i in
  length h' = length h ∧ h' ≡ₚ h ∧ (∀ k, n ≤ k → h' !! k = h !! k) ∧ heap_upto h' n.
Proof.
  intros Hi Hn Hinv. pose proof (down_spec h i n Hi Hn Hinv) as H.
  destruct (down lt idput h i n) as [h1 [|]]; [done|].
  destruct H as (?&?&?& -> & Hup). unfold up.
  destruct (up_loop_frame (S i) h i) as (?&?&Hfr).
  split_and!; try done; [|apply up_loop_heap; lia || done].
  intros k Hk. apply Hfr; lia.
Qed.

(** The root of a heap precedes every element. *)
Lemma heap_root (h : list B) x k y :
  heap_upto h (length h) → h !! 0 = Some x → h !! k = Some y → le x y.
Proof.
  intros Hh Hx. revert y. induction k as [k IH] using lt_wf_ind; intros y Hy.
  destruct k as [|k]; [simplify_eq; apply le_refl|].
  pose proof (lookup_lt_Some _ _ _ Hy) as Hlen.
  pose proof (parent_lt (S k) ltac:(lia)) as Hp.
  destruct (lookup_lt_is_Some_2 h (parent (S k))) as [z Hz]; [lia|].
  apply (le_trans _ z); [by eapply IH|]. eapply (Hh (S k)); try done. lia.
Qed.

Definition is_heap (h : list B) : Prop := heap_upto h (length h).

Lemma is_heap_nil : is_heap [].
Proof. intros k Hk. simpl in Hk. lia. Qed.

Lemma heap_upto_take (h : list B) n : n ≤ length h → heap_upto h n → is_heap (take n h).
Proof.
  intros Hn Hh k Hk x y. rewrite length_take in Hk. pose proof (parent_lt k).
  rewrite !lookup_take_lt by lia. apply Hh. lia.
Qed.

Lemma slice_pop_spec (h : list B) x n :
  length h = S n → h !! n = Some x → slice_pop h = Some (x, take n h) ∧ x :: take n h ≡ₚ h.
Proof.
  intros Hl Hx. unfold slice_pop. rewrite last_lookup, Hl. simpl. rewrite Hx.
  rewrite Nat.sub_0_r. split; [done|].
  rewrite <- (take_drop n h) at 2. rewrite (drop_S h x n Hx), (drop_ge h (S n)) by lia.
  by rewrite <- Permutation_cons_append.
Qed.

Lemma heap_push_spec (h : list B) x :
  is_heap h → is_heap (heap_push lt idput h x) ∧ heap_push lt idput h x ≡ₚ x :: h.
Proof.
  intros Hh. unfold heap_push, up, is_heap.
  destruct (up_loop_frame (S (length h)) (h ++ [x]) (length h)) as (Hl & Hp & _).
  rewrite Hl. split; [|rewrite Hp; by rewrite <- Permutation_cons_append].
  assert (length (h ++ [x]) = S (length h)) as -> by (rewrite length_app; simpl; lia).
  apply up_loop_heap; [lia..|rewrite length_app; simpl; lia|]. split.
  - intros k Hk Hne y z. pose proof (parent_lt k). rewrite !lookup_app_l by lia. apply Hh. lia.
  - intros _ c y z Hc Hpc. pose proof (parent_lt c). lia.
Qed.

Lemma heap_remove_spec (h : list B) i :
  is_heap h → i < length h →
  ∃ x h', heap_remove lt idput h i = Some (x, h') ∧ h !! i = Some x ∧ x :: h' ≡ₚ h ∧ is_heap h'.
Proof.
  intros Hh Hi. destruct (lookup_lt_is_Some_2 h i Hi) as [x Hx].
  destruct (length h) as [|n] eqn:Hn; [lia|]. unfold heap_remove. rewrite Hn.
  replace (S n - 1) with n by lia. destruct (Nat.eqb_spec n i) as [->|Hne].
  { destruct (slice_pop_spec h x i Hn Hx) as [-> Hp]. do 2 eexists. split_and!; try done.
    apply heap_upto_take; [lia|]. intros k Hk. apply Hh. lia. }
  assert (Swap idput h i n = Some (pswap h i n)) as ->.
  { unfold swap, Swap. rewrite Hx. destruct (lookup_lt_is_Some_2 h n) as [y ->]; [lia|done]. }
  assert (∀ k, pswap h i n !! k =
    if decide (k = n) then h !! i else if decide (k = i) then h !! n else h !! k) as Hl.
  { intros k. apply lookup_swap; lia. }
  assert (down_inv (pswap h i n) i n) as Hinv.
  { split.
    - intros k Hk Hki Hpk y z. pose proof (parent_lt k). rewrite !Hl, !decide_False by lia.
      apply Hh. lia.
    - intros Hi0 c y z Hc Hpc. pose proof (parent_lt i Hi0). pose proof (parent_lt c).
      rewrite !Hl, !decide_False by lia. intros Hy Hz. apply (le_trans _ x).
      + eapply (Hh i); try done. lia.
      + eapply (Hh c); try done; [lia|]. by rewrite Hpc. }
  pose proof (fix_spec (pswap h i n) i n ltac:(lia)) as Hfix. rewrite length_swap in Hfix.
  specialize (Hfix ltac:(lia) Hinv). destruct (down lt idput (pswap h i n) i n) as [h1 moved].
  destruct Hfix as (Hf1 & Hf2 & Hf3 & Hf4).
  set (h2 := if moved then h1 else up lt idput h1 i) in *. clearbody h2. rewrite Hn in Hf1.
  assert (h2 !! n = Some x) as Hlast by (rewrite Hf3, Hl, decide_True by done; done).
  destruct (slice_pop_spec h2 x n Hf1 Hlast) as [-> Hp]. do 2 eexists. split_and!; try done.
  - by rewrite Hp, Hf2, swap_Permutation.
  - apply heap_upto_take; [lia|done].
Qed.

Lemma heap_remove_panics (h : list B) i : length h ≤ i → heap_remove lt idput h i = None.
Proof.
  intros Hi. unfold heap_remove. destruct (Nat.eqb_spec (length h - 1) i) as [E|E].
  - unfold slice_pop. destruct h; [done|]. simpl in *. lia.
  - unfold Swap. by rewrite (lookup_ge_None_2 h i).
Qed.

(** [heap.Pop] returns the root, which precedes every element. *)
Lemma heap_pop_spec (h : list B) :
  is_heap h → h ≠ [] →
  ∃ x h', heap_pop lt idput h = Some (x, h') ∧ h !! 0 = Some x ∧ x :: h' ≡ₚ h ∧ is_heap h' ∧
          (∀ y, y ∈ h → le x y).
Proof.
  intros Hh Hne. destruct (length h) as [|n] eqn:Hn; [by destruct h|].
  destruct (lookup_lt_is_Some_2 h 0) as [x Hx]; [lia|].
  unfold heap_pop. rewrite Hn. replace (S n - 1) with n by lia.
  assert (Swap idput h 0 n = Some (pswap h 0 n)) as ->.
  { unfold swap, Swap. rewrite Hx. destruct (lookup_lt_is_Some_2 h n) as [y ->]; [lia|done]. }
  assert (∀ k, pswap h 0 n !! k =
    if decide (k = n) then h !! 0 else if decide (k = 0) then h !! n else h !! k) as Hl.
  { intros k. apply lookup_swap; lia. }
  unfold down. replace (n - 0) with n by lia.
  pose proof (down_loop_frame n (pswap h 0 n) 0 n) as Hfr.
  pose proof (down_loop_heap n (pswap h 0 n) 0 n) as Hhp. rewrite length_swap in *.
  destruct (down_loop lt idput n (pswap h 0 n) 0 n) as [h2 i'].
  destruct Hfr as (Hf1 & Hf2 & _ & _ & Hf3); [lia|]. rewrite Hn in Hf1.
  assert (h2 !! n = Some x) as Hlast by (rewrite Hf3, Hl, decide_True by done; done).
  destruct (slice_pop_spec h2 x n Hf1 Hlast) as [Hsp Hp]. simpl in *. rewrite Hsp.
  do 2 eexists. split_and!; try done.
  - by rewrite Hp, Hf2, swap_Permutation.
  - apply heap_upto_take; [lia|]. apply Hhp; try lia. split; [|by intros ?%Nat.lt_irrefl].
    intros k Hk Hk0 Hpk y z. pose proof (parent_lt k). rewrite !Hl, !decide_False by lia.
    apply Hh. lia.
  - intros y [k Hk]%list_elem_of_lookup. by eapply heap_root.
Qed.

(** [heap.Fix] after one element was overwritten in place. *)
Lemma heap_fix_spec (h : list B) i y :
  is_heap h → i < length h →
  is_heap (heap_fix lt idput (<[i := y]> h) i) ∧ heap_fix lt idput (<[i := y]> h) i ≡ₚ <[i := y]> h.
Proof.
  intros Hh Hi. destruct (lookup_lt_is_Some_2 h i Hi) as [x Hx].
  assert (down_inv (<[i := y]> h) i (length h)) as Hinv.
  { split.
    - intros k Hk Hki Hp a b. rewrite !list_lookup_insert_ne by done. by apply Hh.
    - intros Hi0 c a b Hc Hpc. pose proof (parent_lt i Hi0). pose proof (parent_lt c).
      rewrite !list_lookup_insert_ne by lia. intros Ha Hb. apply (le_trans _ x).
      + eapply (Hh i); try done.
      + eapply (Hh c); try done. by rewrite Hpc. }
  unfold heap_fix, is_heap. rewrite length_insert.
  pose proof (fix_spec (<[i := y]> h) i (length h) Hi) as Hf. rewrite length_insert in Hf.
  specialize (Hf ltac:(lia) Hinv). destruct (down lt idput _ i _) as [h1 moved].
  destruct Hf as (Hf1 & Hf2 & _ & Hf4). by rewrite Hf1.
Qed.
End plain.

(** ** Items that carry their position

    The program's items are ordered by part of their contents ([val]) and have a
    position field that [put] writes and [val] does not read.  On items that
    satisfy [P] the program's comparison is [lt] on the contents; erasing the
    positions turns each heap operation into the plain one. *)
Section transfer.
Context {A B : Type} (val : A → B) (lt : B → B → bool) (less : A → A → bool).
Context (put : nat → A → A) (pos : A → nat) (P : A → Prop).
Hypothesis val_put : ∀ i x, val (put i x) = val x.
Hypothesis pos_put : ∀ i x, pos (put i x) = i.
Hypothesis P_put : ∀ i x, P x → P (put i x).
Hypothesis less_val : ∀ x y, P x → P y → less x y = lt (val x) (val y).

Abbreviation vals := (fmap (M := list) val).
Abbreviation idput := (fun (_ : nat) (x : B) => x).

Lemma Swap_val (h : list A) i j :
  vals <$> Swap put h i j = Swap idput (val <$> h) i j.
Proof.
  unfold Swap. rewrite !list_lookup_fmap. destruct (h !! i), (h !! j); simpl; try done.
  by rewrite !list_fmap_insert, !val_put.
Qed.

Lemma Swap_P (h h' : list A) i j : Forall P h → Swap put h i j = Some h' → Forall P h'.
Proof.
  unfold Swap. intros Hh Hs. destruct (h !! i) as [x|] eqn:Hx, (h !! j) as [y|] eqn:Hy; simplify_eq.
  apply Forall_insert; [apply Forall_insert; [done|]|]; apply P_put; by eapply Forall_lookup_1.
Qed.

Lemma swap_P (h : list A) i j : Forall P h → Forall P (swap put h i j).
Proof. unfold swap. intros Hh. destruct (Swap put h i j) eqn:E; [|done]. by eapply Swap_P. Qed.

Lemma swap_val (h : list A) i j : val <$> swap put h i j = swap idput (val <$> h) i j.
Proof. unfold swap. rewrite <- Swap_val. by destruct (Swap put h i j). Qed.

Lemma Less_val (h : list A) i j : Forall P h → Less less h i j = Less lt (val <$> h) i j.
Proof.
  intros Hh. unfold Less. rewrite !list_lookup_fmap.
  destruct (h !! i) eqn:Hi, (h !! j) eqn:Hj; simpl; try done.
  apply less_val; by eapply Forall_lookup_1.
Qed.

Lemma up_loop_val fuel (h : list A) j :
  Forall P h →
  val <$> up_loop less put fuel h j = up_loop lt idput fuel (val <$> h) j ∧
  Forall P (up_loop less put fuel h j).
Proof.
  revert h j. induction fuel as [|fuel IH]; intros h j Hh; simpl; [done|].
  rewrite Less_val by done. destruct (_ || _); [done|].
  destruct (IH (swap put h (parent j) j) (parent j)) as [-> ?]; [by apply swap_P|].
  by rewrite swap_val.
Qed.

Lemma down_child_val (h : list A) i n :
  Forall P h → down_child less h i n = down_child lt (val <$> h) i n.
Proof. intros Hh. unfold down_child. rewrite !Less_val by done. by destruct (_ && _); rewrite ?Less_val. Qed.

Lemma down_loop_val fuel (h : list A) i n :
  Forall P h →
  prod_map vals id (down_loop less put fuel h i n) = down_loop lt idput fuel (val <$> h) i n ∧
  Forall P (down_loop less put fuel h i n).1.
Proof.
  revert h i. induction fuel as [|fuel IH]; intros h i Hh; simpl; [done|].
  rewrite down_child_val by done. destruct (down_child lt (val <$> h) i n) as [j|]; [|done].
  destruct (IH (swap put h i j) j) as [-> ?]; [by apply swap_P|]. by rewrite swap_val.
Qed.

Lemma down_val (h : list A) i n :
  Forall P h →
  prod_map vals id (down less put h i n) = down lt idput (val <$> h) i n ∧
  Forall P (down less put h i n).1.
Proof.
  intros Hh. unfold down. destruct (down_loop_val (n - i) h i n Hh) as [<- ?].
  by destruct (down_loop less put (n - i) h i n).
Qed.

Lemma slice_pop_val (h : list A) :
  prod_map val vals <$> slice_pop h = slice_pop (val <$> h).
Proof.
  unfold slice_pop. rewrite fmap_last, length_fmap. destruct (last h); simpl; [|done].
  by rewrite fmap_take.
Qed.

Lemma slice_pop_P (h : list A) x h' : Forall P h → slice_pop h = Some (x, h') → P x ∧ Forall P h'.
Proof.
  unfold slice_pop. intros Hh H. destruct (last h) eqn:E; simplify_eq.
  rewrite last_lookup in E. split; [by eapply Forall_lookup_1|by apply Forall_take].
Qed.

Lemma heap_push_val (h : list A) x :
  Forall P h → P x →
  val <$> heap_push less put h x = heap_push lt idput (val <$> h) (val x) ∧
  Forall P (heap_push less put h x).
Proof.
  intros Hh Hx. unfold heap_push, up.
  destruct (up_loop_val (S (length h)) (h ++ [put (length h) x]) (length h)) as [-> ?].
  { apply Forall_app; split; [done|]. by apply Forall_singleton, P_put. }
  split; [|done]. rewrite fmap_app, length_fmap. cbn [fmap list_fmap]. by rewrite val_put.
Qed.

Lemma heap_pop_val (h : list A) :
  Forall P h →
  prod_map val vals <$> heap_pop less put h = heap_pop lt idput (val <$> h) ∧
  ∀ x h', heap_pop less put h = Some (x, h') → P x ∧ Forall P h'.
Proof.
  intros Hh. unfold heap_pop. rewrite length_fmap, <- Swap_val.
  destruct (Swap put h 0 _) as [h1|] eqn:E; [|done].
  cbn [fmap option_fmap option_map].
  destruct (down_val h1 0 (length h - 1)) as [<- HP]; [by eapply Swap_P|].
  rewrite slice_pop_val. split; [by destruct (down less put h1 0 _)|].
  intros x h'. by apply slice_pop_P.
Qed.

Lemma heap_remove_val (h : list A) i :
  Forall P h →
  prod_map val vals <$> heap_remove less put h i = heap_remove lt idput (val <$> h) i ∧
  ∀ x h', heap_remove less put h i = Some (x, h') → P x ∧ Forall P h'.
Proof.
  intros Hh. unfold heap_remove. rewrite length_fmap.
  destruct (_ =? i); [split; [apply slice_pop_val|intros x h'; by apply slice_pop_P]|].
  rewrite <- Swap_val. destruct (Swap put h i _) as [h1|] eqn:E; [|done].
  cbn [fmap option_fmap option_map].
  destruct (down_val h1 i (length h - 1)) as [<- HP]; [by eapply Swap_P|].
  destruct (down less put h1 i _) as [h2 [|]]; cbn [prod_map fst snd id] in *; rewrite slice_pop_val.
  { split; [done|]. intros x h'. by apply slice_pop_P. }
  unfold up. destruct (up_loop_val (S i) h2 i HP) as [-> ?]. split; [done|].
  intros x h'. by apply slice_pop_P.
Qed.

Lemma heap_fix_val (h : list A) i :
  Forall P h →
  val <$> heap_fix less put h i = heap_fix lt idput (val <$> h) i ∧
  Forall P (heap_fix less put h i).
Proof.
  intros Hh. unfold heap_fix. rewrite length_fmap. destruct (down_val h i (length h) Hh) as [<- HP].
  destruct (down less put h i (length h)) as [h1 [|]]; cbn [prod_map fst snd id] in *; [done|].
  by apply up_loop_val.
Qed.

(** The position fields are right in every slot of a heap the operations
    built. *)
Definition positioned (h : list A) : Prop := ∀ i x, h !! i = Some x → pos x = i.

Lemma positioned_swap (h : list A) i j : positioned h → positioned (swap put h i j).
Proof.
  unfold swap, Swap. intros Hp. destruct (h !! i) as [x|] eqn:Hx, (h !! j) as [y|] eqn:Hy; try done.
  simpl. intros k z. destruct (decide (k = j)) as [->|].
  { rewrite list_lookup_insert_eq by (rewrite length_insert; by eapply lookup_lt_Some).
    intros [= <-]. apply pos_put. }
  rewrite list_lookup_insert_ne by done. destruct (decide (k = i)) as [->|].
  { rewrite list_lookup_insert_eq by (by eapply lookup_lt_Some). intros [= <-]. apply pos_put. }
  rewrite list_lookup_insert_ne by done. apply Hp.
Qed.

Lemma positioned_up_loop fuel (h : list A) j :
  positioned h → positioned (up_loop less put fuel h j).
Proof.
  revert h j. induction fuel as [|fuel IH]; intros h j Hp; simpl; [done|].
  destruct (_ || _); [done|]. by apply IH, positioned_swap.
Qed.

Lemma positioned_push (h : list A) x : positioned h → positioned (heap_push less put h x).
Proof.
  intros Hp. apply positioned_up_loop. intros i y [Hi|[Hi Hy]]%lookup_app_Some; [by apply Hp|].
  apply list_lookup_singleton_Some in Hy as [Hi' <-]. rewrite pos_put. lia.
Qed.

Lemma positioned_down (h : list A) i n : positioned h → positioned (down less put h i n).1.
Proof.
  unfold down. intros Hp. enough (∀ fuel i, positioned (down_loop less put fuel h i n).1) as H.
  { specialize (H (n - i) i). by destruct (down_loop less put (n - i) h i n). }
  clear i. intros fuel i. revert h i Hp. induction fuel as [|fuel IH]; intros h i Hp; simpl; [done|].
  destruct (down_child less h i n); [|done]. by apply IH, positioned_swap.
Qed.

Lemma positioned_take (h : list A) n : positioned h → positioned (take n h).
Proof. intros Hp i x [Hx _]%lookup_take_Some. by apply Hp. Qed.

Lemma positioned_slice_pop (h h' : list A) x :
  positioned h → slice_pop h = Some (x, h') → positioned h'.
Proof.
  unfold slice_pop. intros Hp H. destruct (last h); simplify_eq. by apply positioned_take.
Qed.

Lemma positioned_Swap (h h' : list A) i j : positioned h → Swap put h i j = Some h' → positioned h'.
Proof.
  intros Hp E. apply (positioned_swap h i j) in Hp. unfold swap in Hp. by rewrite E in Hp.
Qed.

Lemma positioned_pop (h h' : list A) x :
  positioned h → heap_pop less put h = Some (x, h') → positioned h'.
Proof.
  unfold heap_pop. intros Hp. destruct (Swap put h 0 _) as [h1|] eqn:E; [|done].
  apply positioned_slice_pop, positioned_down. by eapply positioned_Swap.
Qed.

Lemma positioned_down_up (h : list A) i n :
  positioned h →
  positioned (let '(h1, moved) := down less put h i n in if moved then h1 else up less put h1 i).
Proof.
  intros Hp%(positioned_down h i n). destruct (down less put h i n) as [h1 [|]]; [done|].
  by apply positioned_up_loop.
Qed.

Lemma positioned_remove (h h' : list A) i x :
  positioned h → heap_remove less put h i = Some (x, h') → positioned h'.
Proof.
  unfold heap_remove. intros Hp. destruct (_ =? i); [by apply positioned_slice_pop|].
  destruct (Swap put h i _) as [h1|] eqn:E; [|done].
  apply positioned_Swap in E; [|done]. apply (positioned_down_up h1 i (length h - 1)) in E.
  destruct (down less put h1 i _) as [h2 moved]. by apply positioned_slice_pop.
Qed.

Lemma positioned_fix (h : list A) i : positioned h → positioned (heap_fix less put h i).
Proof. apply positioned_down_up. Qed.
End transfer.
