(* ===== verification/PriorityQueue.v ===== *)
(** * The in-memory priority queue (pkg/domain/job/scheduler/priority_queue.go)

    The queue is a slice of items kept in heap order together with a map from
    job IDs to slice indices.  Jobs are held by value: the queue's own
    operations are the only ones modelled as writing to a job while it is
    queued.  A run-time panic (an index out of range) is the [Panic] outcome. *)

From S2P Require Import Prelude JobStatus Job GoHeap.

Record jobItem := mkItem { job : Job; priority : JobPriority; item_index : Z }.

#[export] Instance jobItem_eta : Eta jobItem := fun x => mkItem (job x) (priority x) (item_index x).

Record priorityQueue := mkPQ { items : list jobItem; index : gmap string nat }.

#[export] Instance priorityQueue_eta : Eta priorityQueue := fun q => mkPQ (items q) (index q).

Definition itemID (x : jobItem) : string := ID (job x).

(** [jobHeap.Less]: higher priority first, then the earlier queueing time when
    both have one, else the earlier creation time. *)
Definition jobLess (a b : jobItem) : bool :=
  if negb (priority a =? priority b) then priority b <? priority a
  else match QueuedAt (job a), QueuedAt (job b) with
       | Some s, Some t => time_before s t
       | _, _ => time_before (CreatedAt (job a)) (CreatedAt (job b))
       end.

(** The [index] bookkeeping of [jobHeap.Swap] and [jobHeap.Push]. *)
Definition set_item_index (i : nat) (x : jobItem) : jobItem := x <| item_index := Z.of_nat i |>.

Definition NewPriorityQueue : priorityQueue :=
  mkPQ (heap_init jobLess set_item_index []) ∅.

(** [rebuildIndex]: [for i, item := range *pq.items { index[item.job.ID] = i }]. *)
Fixpoint index_from (i : nat) (l : list jobItem) (m : gmap string nat) : gmap string nat :=
  match l with
  | [] => m
  | x :: l' => index_from (S i) l' (<[itemID x := i]> m)
  end.
Definition rebuildIndex (q : priorityQueue) : priorityQueue :=
  q <| index := index_from 0 (items q) ∅ |>.

(** [item.index] of the item just pushed, read back through its pointer. *)
Definition pushed_index (jobID : string) (l : list jobItem) : nat :=
  match find (fun x => String.eqb (itemID x) jobID) l with
  | Some x => Z.to_nat (item_index x)
  | None => 0%nat
  end.

Definition Push (q : priorityQueue) (oj : option Job) : res priorityQueue :=
  match oj with
  | None => Err (ErrNew "job cannot be nil")
  | Some j =>
      match index q !! ID j with
      | Some _ => Err (ErrNew ("job " +:+ ID j +:+ " already in queue"))
      | None =>
          let items' := heap_push jobLess set_item_index (items q) (mkItem j (Priority j) (-1)) in
          Ok (mkPQ items' (<[ID j := pushed_index (ID j) items']> (index q)))
      end
  end.

Definition Size (q : priorityQueue) : nat := length (items q).

Definition Pop (q : priorityQueue) : res (Job * priorityQueue) :=
  if Nat.eqb (Size q) 0 then Err (ErrNew "queue is empty")
  else match heap_pop jobLess set_item_index (items q) with
       | None => Panic "index out of range"
       | Some (x, items') => Ok (job x, mkPQ items' (delete (itemID x) (index q)))
       end.

Definition Peek (q : priorityQueue) : res Job :=
  match items q with
  | [] => Err (ErrNew "queue is empty")
  | x :: _ => Ok (job x)
  end.

Definition Remove (q : priorityQueue) (jobID : string) : res priorityQueue :=
  match index q !! jobID with
  | None => Err (ErrNew ("job " +:+ jobID +:+ " not found in queue"))
  | Some idx =>
      match heap_remove jobLess set_item_index (items q) idx with
      | None => Panic "index out of range"
      | Some (_, items') => Ok (rebuildIndex (mkPQ items' (delete jobID (index q))))
      end
  end.

(** [item.priority = priority; item.job.Priority = priority] *)
Definition set_item_priority (p : JobPriority) (x : jobItem) : jobItem :=
  x <| priority := p |> <| job := (job x) <| Priority := p |> |>.

Definition Update (q : priorityQueue) (jobID : string) (p : JobPriority) : res priorityQueue :=
  match index q !! jobID with
  | None => Err (ErrNew ("job " +:+ jobID +:+ " not found in queue"))
  | Some idx =>
      match items q !! idx with
      | None => Panic "index out of range"
      | Some x =>
          let l := <[idx := set_item_priority p x]> (items q) in
          Ok (rebuildIndex (mkPQ (heap_fix jobLess set_item_index l idx) (index q)))
      end
  end.

Definition Clear (q : priorityQueue) : priorityQueue :=
  mkPQ (heap_init jobLess set_item_index []) ∅.

Definition Contains (q : priorityQueue) (jobID : string) : bool :=
  match index q !! jobID with Some _ => true | None => false end.

Definition Jobs (q : priorityQueue) : list Job := job <$> items q.

Arguments Push : simpl never.
Arguments Pop : simpl never.
Arguments Remove : simpl never.
Arguments Update : simpl never.

(** ** The ordering

    Once every queued job carries its queueing time the comparison is a strict
    weak ordering of (job, priority) pairs. *)

Definition qtime (j : Job) : Time := default (CreatedAt j) (QueuedAt j).
Definition entry (x : jobItem) : Job * JobPriority := (job x, priority x).
Definition entryLt (a b : Job * JobPriority) : bool :=
  if negb (a.2 =? b.2) then b.2 <? a.2 else qtime a.1 <? qtime b.1.

#[export] Instance entryLt_strict : StrictWeak entryLt.
Proof.
  split; unfold entryLt.
  - intros [j p] [j' p']; simpl.
    destruct (Z.eqb_spec p p'), (Z.eqb_spec p' p); simpl; rewrite ?Z.ltb_lt, ?Z.ltb_ge; lia.
  - intros [j p] [j' p'] [j'' p'']; simpl.
    destruct (Z.eqb_spec p p'), (Z.eqb_spec p' p''), (Z.eqb_spec p p''); simpl;
      rewrite ?Z.ltb_ge; lia.
Qed.

Definition stamped (x : jobItem) : Prop := is_Some (QueuedAt (job x)).

Lemma jobLess_entry x y : stamped x → stamped y → jobLess x y = entryLt (entry x) (entry y).
Proof.
  intros [s Hs] [t Ht]. unfold jobLess, entryLt, qtime, entry; simpl. by rewrite Hs, Ht.
Qed.

Lemma entry_put i x : entry (set_item_index i x) = entry x.
Proof. done. Qed.
Lemma stamped_put i x : stamped x → stamped (set_item_index i x).
Proof. done. Qed.
Definition item_pos (x : jobItem) : nat := Z.to_nat (item_index x).
Lemma item_pos_put i x : item_pos (set_item_index i x) = i.
Proof. unfold item_pos, set_item_index; simpl. lia. Qed.

(** ** The invariant *)

Definition ids (q : priorityQueue) : list string := itemID <$> items q.

Record pq_wf (q : priorityQueue) : Prop := {
  pq_stamped : Forall stamped (items q);
  pq_heap : is_heap entryLt (entry <$> items q);
  pq_positions : positioned item_pos (items q);
  pq_priorities : Forall (λ x, priority x = Priority (job x)) (items q);
  pq_nodup : NoDup (ids q);
  pq_index : dom (index q) = list_to_set (ids q) }.

(** The map agrees with the slice: what [rebuildIndex] establishes. *)
Definition index_exact (q : priorityQueue) : Prop :=
  ∀ i x, items q !! i = Some x → index q !! itemID x = Some i.

Lemma ids_Jobs q : ids q = ID <$> Jobs q.
Proof. unfold ids, Jobs. by rewrite <- list_fmap_compose. Qed.

Lemma ids_entries (l : list jobItem) : itemID <$> l = (λ e, ID e.1) <$> (entry <$> l).
Proof. by rewrite <- list_fmap_compose. Qed.
Lemma Jobs_entries (l : list jobItem) : job <$> l = fst <$> (entry <$> l).
Proof. by rewrite <- list_fmap_compose. Qed.

Lemma priorities_entries (l : list jobItem) :
  Forall (λ x, priority x = Priority (job x)) l ↔ Forall (λ e, e.2 = Priority e.1) (entry <$> l).
Proof. by rewrite Forall_fmap. Qed.

Lemma lookup_index_from i l m id :
  index_from i l m !! id = match index_from i l ∅ !! id with Some k => Some k | None => m !! id end.
Proof.
  revert i m. induction l as [|x l IH]; intros i m; simpl; [by rewrite lookup_empty|].
  rewrite IH. rewrite (IH (S i) (<[itemID x:=i]> ∅)).
  destruct (index_from (S i) l ∅ !! id); [done|].
  destruct (decide (itemID x = id)) as [->|]; [by rewrite !lookup_insert_eq|].
  by rewrite !lookup_insert_ne, lookup_empty.
Qed.

Lemma index_from_exact i l :
  NoDup (itemID <$> l) →
  (∀ k x, l !! k = Some x → index_from i l ∅ !! itemID x = Some (i + k)%nat) ∧
  dom (index_from i l ∅) = list_to_set (itemID <$> l) ∧
  (∀ id k, index_from i l ∅ !! id = Some k → ∃ x, l !! (k - i)%nat = Some x ∧ itemID x = id ∧ (i ≤ k)%nat).
Proof.
  revert i. induction l as [|x l IH]; intros i; simpl; [set_solver|].
  intros [Hx Hl]%NoDup_cons. destruct (IH (S i) Hl) as (IH1 & IH2 & IH3).
  assert (index_from (S i) l ∅ !! itemID x = None) as Hnone.
  { apply not_elem_of_dom. rewrite IH2. by rewrite elem_of_list_to_set. }
  assert (∀ id, index_from (S i) l (<[itemID x := i]> ∅) !! id =
    if decide (id = itemID x) then Some i else index_from (S i) l ∅ !! id) as Heq.
  { intros id. rewrite lookup_index_from. destruct (decide (id = itemID x)) as [->|Hne].
    - by rewrite Hnone, lookup_insert_eq.
    - destruct (index_from (S i) l ∅ !! id); [done|]. by rewrite lookup_insert_ne, lookup_empty. }
  split_and!.
  - intros [|k] y Hy; simplify_eq/=; rewrite Heq.
    + rewrite decide_True by done. f_equal. lia.
    + rewrite decide_False; [rewrite (IH1 k y Hy); f_equal; lia|].
      intros E. apply Hx. rewrite <- E. apply list_elem_of_fmap_2. by eapply list_elem_of_lookup_2.
  - apply set_eq. intros id. rewrite elem_of_dom, Heq.
    assert (id ∈ (list_to_set (itemID <$> l) : gset string) ↔ is_Some (index_from (S i) l ∅ !! id)) as Hd
      by (rewrite <- IH2; apply elem_of_dom).
    cbn [list_to_set fmap list_fmap]. rewrite elem_of_union, elem_of_singleton, Hd.
    destruct (decide (id = itemID x)); naive_solver.
  - intros id k. rewrite Heq. destruct (decide (id = itemID x)) as [->|].
    + intros [= <-]. exists x. rewrite Nat.sub_diag. split_and!; [done..|lia].
    + intros (y & Hy & ? & ?)%IH3. exists y. replace (k - i)%nat with (S (k - S i)) by lia.
      split_and!; [done..|lia].
Qed.

Lemma rebuildIndex_exact q :
  NoDup (ids q) → index_exact (rebuildIndex q) ∧ dom (index (rebuildIndex q)) = list_to_set (ids q).
Proof.
  intros Hn. destruct (index_from_exact 0 (items q) Hn) as (H1 & H2 & _). split; [|done].
  intros i x Hx. by apply H1.
Qed.

Lemma index_exact_lookup q id i :
  pq_wf q → index_exact q → index q !! id = Some i →
  ∃ x, items q !! i = Some x ∧ itemID x = id.
Proof.
  intros Hwf He Hi. assert (id ∈ dom (index q)) as Hd by (by apply elem_of_dom_2 in Hi).
  rewrite (pq_index _ Hwf), elem_of_list_to_set in Hd. unfold ids in Hd.
  apply list_elem_of_fmap in Hd as (x & -> & [k Hk]%list_elem_of_lookup).
  pose proof (He _ _ Hk). simplify_eq. eauto.
Qed.

Lemma pq_wf_empty : pq_wf NewPriorityQueue ∧ index_exact NewPriorityQueue.
Proof.
  split; [|by intros i x].
  split; simpl; try done; try apply is_heap_nil; try apply NoDup_nil_2.
Qed.

Lemma rebuild_wf l m :
  Forall stamped l → is_heap entryLt (entry <$> l) → positioned item_pos l →
  Forall (λ x, priority x = Priority (job x)) l → NoDup (itemID <$> l) →
  pq_wf (rebuildIndex (mkPQ l m)) ∧ index_exact (rebuildIndex (mkPQ l m)).
Proof.
  intros H1 H2 H3 H4 H5. destruct (rebuildIndex_exact (mkPQ l m) H5) as [H6 H7].
  split; [|done]. by split.
Qed.

Section push.
Context (q : priorityQueue) (j : Job).
Hypothesis Hwf : pq_wf q.
Hypothesis Hst : is_Some (QueuedAt j).
Hypothesis Hfresh : ID j ∉ ids q.

Let x0 : jobItem := mkItem j (Priority j) (-1).
Let items' := heap_push jobLess set_item_index (items q) x0.

Lemma push_entries :
  is_heap entryLt (entry <$> items') ∧
  entry <$> items' ≡ₚ (j, Priority j) :: (entry <$> items q) ∧ Forall stamped items'.
Proof.
  destruct (heap_push_val entry entryLt jobLess set_item_index stamped entry_put stamped_put
    jobLess_entry (items q) x0 (pq_stamped _ Hwf) Hst) as [Hv HP].
  destruct (heap_push_spec entryLt (entry <$> items q) (entry x0) (pq_heap _ Hwf)) as [H1 H2].
  rewrite <- Hv in H1, H2. done.
Qed.

Lemma push_index : ∃ x, items' !! pushed_index (ID j) items' = Some x ∧ itemID x = ID j.
Proof.
  destruct push_entries as (_ & Hp & _).
  assert (ID j ∈ (itemID <$> items')) as Hin.
  { rewrite ids_entries, Hp. left. }
  apply list_elem_of_fmap in Hin as (y & Hy & Hin).
  unfold pushed_index. destruct (find _ items') as [z|] eqn:E.
  - apply find_some in E as [[i Hz]%list_elem_of_In%list_elem_of_lookup Hid%String.eqb_eq].
    assert (positioned item_pos items') as Hpos.
    { apply (positioned_push jobLess set_item_index item_pos item_pos_put), Hwf. }
    pose proof (Hpos _ _ Hz) as Hi. unfold item_pos in Hi. rewrite Hi. eauto.
  - apply list_elem_of_In, (find_none _ _ E), String.eqb_neq in Hin. congruence.
Qed.

Lemma push_wf :
  let q' := mkPQ items' (<[ID j := pushed_index (ID j) items']> (index q)) in
  Push q (Some j) = Ok q' ∧ pq_wf q' ∧ Jobs q' ≡ₚ j :: Jobs q.
Proof.
  destruct push_entries as (H1 & H2 & H3).
  assert (index q !! ID j = None) as Hnone.
  { apply not_elem_of_dom. by rewrite (pq_index _ Hwf), elem_of_list_to_set. }
  assert (itemID <$> items' ≡ₚ ID j :: ids q) as Hids.
  { unfold ids. rewrite !ids_entries, H2. done. }
  split_and!.
  - unfold Push. by rewrite Hnone.
  - split; simpl; try done.
    + apply (positioned_push jobLess set_item_index item_pos item_pos_put), Hwf.
    + apply priorities_entries. rewrite H2. constructor; [done|]. apply priorities_entries, Hwf.
    + unfold ids; simpl. rewrite Hids. apply NoDup_cons. split; [done|apply Hwf].
    + rewrite dom_insert_L, (pq_index _ Hwf). apply set_eq. intros id.
      unfold ids at 2; simpl. rewrite elem_of_list_to_set, Hids. set_solver.
  - unfold Jobs; simpl. rewrite !Jobs_entries, H2. done.
Qed.
End push.

Lemma Push_present q j : pq_wf q → ID j ∈ ids q →
  Push q (Some j) = Err (ErrNew ("job " +:+ ID j +:+ " already in queue")).
Proof.
  intros Hwf Hin. unfold Push.
  assert (ID j ∈ dom (index q)) as [i Hi]%elem_of_dom
    by (by rewrite (pq_index _ Hwf), elem_of_list_to_set).
  by rewrite Hi.
Qed.

(** The job order the queue promises: [before_eq a b] when [a] may be served
    before [b]. *)
Definition before_eq (a b : Job) : Prop :=
  Priority b < Priority a ∨ (Priority a = Priority b ∧ qtime a ≤ qtime b).

Lemma le_before_eq x y :
  priority x = Priority (job x) → priority y = Priority (job y) →
  le entryLt (entry x) (entry y) ↔ before_eq (job x) (job y).
Proof.
  unfold le, entryLt, before_eq, entry; simpl. intros -> ->.
  destruct (Z.eqb_spec (Priority (job y)) (Priority (job x))); simpl; rewrite Z.ltb_ge; lia.
Qed.

Lemma Pop_wf q :
  pq_wf q → items q ≠ [] →
  ∃ j q', Pop q = Ok (j, q') ∧ pq_wf q' ∧ j :: Jobs q' ≡ₚ Jobs q ∧
          (∀ k, k ∈ Jobs q → before_eq j k).
Proof.
  intros Hwf Hne. unfold Pop, Size. destruct (items q) as [|y0 l0] eqn:E0; [done|].
  rewrite <- E0. clear Hne.
  destruct (heap_pop_val entry entryLt jobLess set_item_index stamped entry_put stamped_put
    jobLess_entry (items q) (pq_stamped _ Hwf)) as [Hv HP].
  destruct (heap_pop_spec entryLt (entry <$> items q) (pq_heap _ Hwf)) as (e & h' & He & H0 & Hperm & Hh & Hmin).
  { by rewrite E0. }
  rewrite He in Hv. destruct (heap_pop jobLess set_item_index (items q)) as [[x l']|] eqn:Ep; [|done].
  simpl in Hv. injection Hv as <- <-. destruct (HP _ _ eq_refl) as [Hx Hl'].
  assert (itemID x :: (itemID <$> l') ≡ₚ ids q) as Hids.
  { unfold ids. rewrite !ids_entries, <- Hperm. done. }
  assert (Forall (λ x, priority x = Priority (job x)) (x :: l')) as Hpr.
  { apply priorities_entries. simpl. rewrite Hperm. apply priorities_entries, Hwf. }
  apply Forall_cons in Hpr as [Hpx Hpl].
  assert (NoDup (itemID x :: (itemID <$> l'))) as Hnd by (rewrite Hids; apply Hwf).
  apply NoDup_cons in Hnd as [Hnotin Hnd].
  exists (job x), (mkPQ l' (delete (itemID x) (index q))). rewrite E0; simpl. split_and!; [done| | |].
  - split; simpl; try done.
    + eapply (positioned_pop jobLess set_item_index item_pos item_pos_put); [apply Hwf|done].
    + rewrite dom_delete_L, (pq_index _ Hwf). apply set_eq. intros id.
      unfold ids at 2; simpl. rewrite elem_of_difference, !elem_of_list_to_set, <- Hids. set_solver.
  - unfold Jobs; simpl. rewrite !Jobs_entries, <- Hperm. done.
  - intros k (y & -> & Hy)%list_elem_of_fmap. apply le_before_eq; [done| |].
    + by apply (proj1 (Forall_forall _ _) (pq_priorities _ Hwf)).
    + apply Hmin. by apply list_elem_of_fmap_2.
Qed.

Lemma Pop_empty q : items q = [] → Pop q = Err (ErrNew "queue is empty").
Proof. intros H. unfold Pop, Size. by rewrite H. Qed.

(** *** Removal and priority update, when the index map is exact *)

Lemma Remove_wf q id i x :
  pq_wf q → index q !! id = Some i → items q !! i = Some x →
  ∃ q', Remove q id = Ok q' ∧ pq_wf q' ∧ index_exact q' ∧ job x :: Jobs q' ≡ₚ Jobs q.
Proof.
  intros Hwf Hi Hx. unfold Remove. rewrite Hi.
  destruct (heap_remove_val entry entryLt jobLess set_item_index stamped entry_put stamped_put
    jobLess_entry (items q) i (pq_stamped _ Hwf)) as [Hv HP].
  destruct (heap_remove_spec entryLt (entry <$> items q) i (pq_heap _ Hwf)) as (e & h' & He & H0 & Hperm & Hh).
  { rewrite length_fmap. by eapply lookup_lt_Some. }
  rewrite He in Hv. rewrite list_lookup_fmap, Hx in H0. simpl in H0. injection H0 as <-.
  destruct (heap_remove jobLess set_item_index (items q) i) as [[y l']|] eqn:Ep; [|done].
  simpl in Hv. injection Hv as Hj Hp <-. destruct (HP _ _ eq_refl) as [Hy Hl'].
  assert (itemID x :: (itemID <$> l') ≡ₚ ids q) as Hids.
  { unfold ids. rewrite !ids_entries, <- Hperm. done. }
  assert (Forall (λ x, priority x = Priority (job x)) (x :: l')) as Hpr.
  { apply priorities_entries. simpl. rewrite Hperm. apply priorities_entries, Hwf. }
  apply Forall_cons in Hpr as [_ Hpl].
  assert (NoDup (itemID x :: (itemID <$> l'))) as Hnd by (rewrite Hids; apply Hwf).
  apply NoDup_cons in Hnd as [_ Hnd].
  destruct (rebuild_wf l' (delete id (index q))) as [Hw Hex]; try done.
  { eapply (positioned_remove jobLess set_item_index item_pos item_pos_put); [apply Hwf|done]. }
  eexists. split_and!; [done..|]. unfold Jobs; simpl. rewrite !Jobs_entries, <- Hperm. done.
Qed.

Lemma Remove_panics q id i :
  index q !! id = Some i → items q !! i = None → Forall stamped (items q) →
  Remove q id = Panic "index out of range".
Proof.
  intros Hi Hx%lookup_ge_None Hst. unfold Remove. rewrite Hi.
  destruct (heap_remove_val entry entryLt jobLess set_item_index stamped entry_put stamped_put
    jobLess_entry (items q) i Hst) as [Hv _].
  rewrite heap_remove_panics in Hv by (by rewrite length_fmap).
  by destruct (heap_remove jobLess set_item_index (items q) i).
Qed.

Lemma Update_wf q id p i x :
  pq_wf q → index q !! id = Some i → items q !! i = Some x →
  ∃ q', Update q id p = Ok q' ∧ pq_wf q' ∧ index_exact q' ∧
        job x :: Jobs q' ≡ₚ (job x) <| Priority := p |> :: Jobs q.
Proof.
  intros Hwf Hi Hx. unfold Update. rewrite Hi, Hx.
  set (y := set_item_priority p x). set (l := <[i := y]> (items q)).
  assert (stamped x) as Hsx by (by eapply Forall_lookup_1; [apply Hwf|]).
  assert (Forall stamped l) as Hsl by (by apply Forall_insert; [apply Hwf|]).
  destruct (heap_fix_val entry entryLt jobLess set_item_index stamped entry_put stamped_put
    jobLess_entry l i Hsl) as [Hv HP].
  assert (i < length (items q))%nat as Hlt by (by eapply lookup_lt_Some).
  destruct (heap_fix_spec entryLt (entry <$> items q) i (entry y) (pq_heap _ Hwf)) as [Hh Hperm].
  { by rewrite length_fmap. }
  unfold l in Hv at 2. rewrite list_fmap_insert in Hv. rewrite <- Hv in Hh, Hperm.
  assert (entry x :: (entry <$> heap_fix jobLess set_item_index l i) ≡ₚ entry y :: (entry <$> items q)) as Hp2.
  { rewrite Hperm. apply insert_Permutation. by rewrite list_lookup_fmap, Hx. }
  assert (itemID <$> heap_fix jobLess set_item_index l i ≡ₚ ids q) as Hids.
  { apply (Permutation_cons_inv (a := itemID x)). unfold ids.
    rewrite !ids_entries. exact (fmap_Permutation (λ e, ID e.1) _ _ Hp2). }
  destruct (rebuild_wf (heap_fix jobLess set_item_index l i) (index q)) as [Hw Hex]; try done.
  - apply (positioned_fix jobLess set_item_index item_pos item_pos_put).
    intros k z. unfold l. destruct (decide (k = i)) as [->|].
    + rewrite list_lookup_insert_eq by done. intros [= <-].
      change (item_pos y) with (item_pos x). by apply (pq_positions _ Hwf).
    + rewrite list_lookup_insert_ne by done. apply (pq_positions _ Hwf).
  - apply priorities_entries. rewrite Hperm, <- list_fmap_insert. apply priorities_entries.
    apply Forall_insert; [apply Hwf|done].
  - rewrite Hids. apply Hwf.
  - eexists. split_and!; [done..|]. unfold Jobs; simpl.
    rewrite !Jobs_entries. exact (fmap_Permutation fst _ _ Hp2).
Qed.

(** ** Properties *)

Inductive pq_step (q : priorityQueue) : priorityQueue → Prop :=
  | pq_push j q' : is_Some (QueuedAt j) → Push q (Some j) = Ok q' → pq_step q q'
  | pq_pop j q' : Pop q = Ok (j, q') → pq_step q q'
  | pq_remove id q' : Remove q id = Ok q' → pq_step q q'
  | pq_update id p q' : Update q id p = Ok q' → pq_step q q'
  | pq_clear : pq_step q (Clear q).

Lemma pq_step_wf q q' : pq_wf q → pq_step q q' → pq_wf q'.
Proof.
  intros Hwf [j q1 Hs Hp|j q1 Hp|id q1 Hr|id p q1 Hu|].
  - destruct (decide (ID j ∈ ids q)) as [Hin|Hin]; [by rewrite Push_present in Hp|].
    destruct (push_wf q j Hwf Hs Hin) as (E & Hw & _). rewrite E in Hp. by simplify_eq.
  - destruct (items q) eqn:E; [by rewrite Pop_empty in Hp|].
    destruct (Pop_wf q Hwf) as (j1 & q2 & Hp2 & Hw & _); [by rewrite E|].
    rewrite Hp2 in Hp. by simplify_eq.
  - destruct (index q !! id) as [i|] eqn:Hi; [|by unfold Remove in Hr; rewrite Hi in Hr].
    destruct (items q !! i) as [x|] eqn:Hx; [|by rewrite (Remove_panics q id i) in Hr by (done || apply Hwf)].
    destruct (Remove_wf q id i x Hwf Hi Hx) as (q2 & E & Hw & _). rewrite E in Hr. by simplify_eq.
  - destruct (index q !! id) as [i|] eqn:Hi; [|by unfold Update in Hu; rewrite Hi in Hu].
    destruct (items q !! i) as [x|] eqn:Hx; [|by unfold Update in Hu; rewrite Hi, Hx in Hu].
    destruct (Update_wf q id p i x Hwf Hi Hx) as (q2 & E & Hw & _). rewrite E in Hu. by simplify_eq.
  - apply pq_wf_empty.
Qed.

(** C6: every queue reached from the empty one by pushes of queued jobs, pops,
    removals, priority updates and clears is in heap order, holds each job ID
    at most once, has right position fields, and its index map lists exactly
    the queued IDs, so that [Contains] tells the truth. *)
Theorem pq_reachable_wf q :
  rtc pq_step NewPriorityQueue q →
  pq_wf q ∧ ∀ id, Contains q id = true ↔ ∃ j, j ∈ Jobs q ∧ ID j = id.
Proof.
  intros Hr. assert (pq_wf q) as Hwf.
  { pose proof (proj1 pq_wf_empty) as H0. induction Hr; [done|]. eauto using pq_step_wf. }
  split; [done|]. intros id.
  assert (Contains q id = true ↔ id ∈ dom (index q)) as ->.
  { unfold Contains. rewrite elem_of_dom. destruct (index q !! id); naive_solver. }
  rewrite (pq_index _ Hwf), elem_of_list_to_set. unfold ids, Jobs.
  rewrite list_elem_of_fmap. setoid_rewrite list_elem_of_fmap. unfold itemID. naive_solver.
Qed.

Definition queued_job (id : string) (p : JobPriority) (t : Time) : Job :=
  demo_job <| ID := id |> <| Priority := p |> <| QueuedAt := Some t |>.

Lemma pq_reachable_wf_witness :
  ∃ q, Push NewPriorityQueue (Some (queued_job "a" 1 5)) = Ok q ∧ pq_wf q ∧ Contains q "a" = true.
Proof.
  eexists. split; [reflexivity|]. split; [|reflexivity].
  apply pq_reachable_wf. eapply rtc_once, pq_push; [|reflexivity]. by eexists.
Defined.

(** On a well-formed non-empty queue, [Pop] succeeds and returns a job of
    highest priority, the earliest queued among those; the other jobs stay. *)
Theorem pop_highest_first q :
  pq_wf q → Size q ≠ 0%nat →
  ∃ j q', Pop q = Ok (j, q') ∧ pq_wf q' ∧ j :: Jobs q' ≡ₚ Jobs q ∧ Peek q = Ok j ∧
          (∀ k, k ∈ Jobs q → Priority k ≤ Priority j ∧
                             (Priority k = Priority j → qtime j ≤ qtime k)).
Proof.
  intros Hwf Hs. assert (items q ≠ []) as Hne by (unfold Size in Hs; by destruct (items q)).
  destruct (Pop_wf q Hwf Hne) as (j & q' & Hp & Hw & Hj & Hb). exists j, q'. split_and!; try done.
  - destruct (heap_pop_val entry entryLt jobLess set_item_index stamped entry_put stamped_put
      jobLess_entry (items q) (pq_stamped _ Hwf)) as [Hv _].
    destruct (heap_pop_spec entryLt (entry <$> items q) (pq_heap _ Hwf)) as (e & h' & He & H0 & _).
    { by destruct (items q). }
    unfold Pop in Hp. unfold Peek. destruct (Nat.eqb (Size q) 0); [done|].
    destruct (heap_pop jobLess set_item_index (items q)) as [[x l']|]; [|done]. simplify_eq.
    rewrite He in Hv. destruct (items q) as [|y l]; [done|]. simpl in H0, Hv. simplify_eq. by f_equal.
  - intros k Hk. destruct (Hb k Hk) as [?|[? ?]]; lia.
Qed.

Lemma pop_highest_first_witness :
  ∃ q j q', Push NewPriorityQueue (Some (queued_job "a" 1 5)) = Ok q ∧ Pop q = Ok (j, q') ∧ ID j = "a".
Proof.
  eexists. destruct (pop_highest_first _ (proj1 (proj2 (push_wf NewPriorityQueue (queued_job "a" 1 5)
    (proj1 pq_wf_empty) (ex_intro _ 5 eq_refl) (not_elem_of_nil _))))) as (j & q' & Hp & _ & Hj & Hk & _).
  - vm_compute. done.
  - exists j, q'. split_and!; [reflexivity|exact Hp|]. vm_compute in Hk. by simplify_eq.
Defined.

(** Pushing jobs one by one, and popping until the queue is empty. *)
Fixpoint push_all (q : priorityQueue) (js : list Job) : res priorityQueue :=
  match js with
  | [] => Ok q
  | j :: js' => let! q' := Push q (Some j) in push_all q' js'
  end.
Fixpoint drain (fuel : nat) (q : priorityQueue) : res (list Job) :=
  match fuel with
  | O => Ok []
  | S fuel' => let! (j, q') := Pop q in let! js := drain fuel' q' in Ok (j :: js)
  end.

Lemma push_all_wf q js :
  pq_wf q → NoDup ((ID <$> js) ++ ids q) → Forall (λ j, is_Some (QueuedAt j)) js →
  ∃ q', push_all q js = Ok q' ∧ pq_wf q' ∧ Jobs q' ≡ₚ js ++ Jobs q.
Proof.
  revert q. induction js as [|j js IH]; intros q Hwf Hn Hs; simpl; [by eexists|].
  simpl in Hn. apply NoDup_cons in Hn as [Hj Hn]. apply Forall_cons in Hs as [Hs1 Hs].
  rewrite elem_of_app in Hj.
  destruct (push_wf q j Hwf Hs1) as (E & Hw & Hp); [naive_solver|]. rewrite E; simpl.
  set (q1 := mkPQ _ _) in *.
  assert (ids q1 ≡ₚ ID j :: ids q) as Hid.
  { unfold ids, itemID. rewrite !(list_fmap_compose job ID). apply (fmap_Permutation ID) in Hp. exact Hp. }
  destruct (IH q1 Hw) as (q' & E' & Hw' & Hp'); [|done|].
  { rewrite Hid, <- Permutation_middle. apply NoDup_cons. split; [by rewrite elem_of_app|done]. }
  exists q'. split_and!; try done. rewrite Hp', Hp, <- Permutation_middle. done.
Qed.

Lemma drain_sorted n q :
  pq_wf q → Size q = n →
  ∃ js, drain n q = Ok js ∧ js ≡ₚ Jobs q ∧ StronglySorted before_eq js.
Proof.
  revert q. induction n as [|n IH]; intros q Hwf Hs; simpl.
  { exists []. unfold Size, Jobs in *. destruct (items q); [|done]. split_and!; [done..|constructor]. }
  destruct (Pop_wf q Hwf) as (j & q' & Hp & Hw & Hj & Hb).
  { unfold Size in Hs. by destruct (items q). }
  rewrite Hp; simpl. destruct (IH q' Hw) as (js & Hd & Hperm & Hsort).
  { apply Permutation_length in Hj. unfold Jobs, Size in *. simpl in Hj. rewrite !length_fmap in Hj. lia. }
  rewrite Hd; simpl. exists (j :: js). split_and!; [done|by rewrite Hperm|].
  constructor; [done|]. apply Forall_forall. intros k Hk. apply Hb. rewrite <- Hj. right. by rewrite <- Hperm.
Qed.

(** C5: the queue refines sorting: pushing jobs with distinct IDs in any order
    and popping until it is empty returns exactly those jobs, by decreasing
    priority and, within a priority, by increasing queueing time. *)
Theorem priority_queue_sorts js :
  NoDup (ID <$> js) → Forall (λ j, is_Some (QueuedAt j)) js →
  ∃ q out, push_all NewPriorityQueue js = Ok q ∧ drain (length js) q = Ok out ∧
           out ≡ₚ js ∧ StronglySorted before_eq out.
Proof.
  intros Hn Hs. destruct (push_all_wf NewPriorityQueue js) as (q & E & Hw & Hp); try done.
  { apply pq_wf_empty. } { by rewrite app_nil_r. }
  rewrite app_nil_r in Hp. destruct (drain_sorted (length js) q Hw) as (out & Hd & Hperm & Hsort).
  { apply Permutation_length in Hp. unfold Jobs, Size in *. by rewrite length_fmap in Hp. }
  exists q, out. split_and!; try done. by rewrite Hperm.
Qed.

Lemma priority_queue_sorts_witness :
  ∃ q out, push_all NewPriorityQueue [queued_job "a" 0 5; queued_job "b" 3 9; queued_job "c" 3 7] = Ok q ∧
           drain 3 q = Ok out ∧ StronglySorted before_eq out.
Proof.
  destruct (priority_queue_sorts [queued_job "a" 0 5; queued_job "b" 3 9; queued_job "c" 3 7])
    as (q & out & H1 & H2 & _ & H3).
  - apply (bool_decide_unpack _). vm_compute. done.
  - repeat constructor; by eexists.
  - exists q, out. done.
Defined.

(** Right after the index was rebuilt, [Remove] removes the job it was
    asked to remove and no other, and [Update] changes the priority of that job
    only; both keep the index exact.  An unknown ID is reported as an error. *)
Theorem remove_update_exact q id p :
  pq_wf q → index_exact q →
  (id ∉ ids q → Remove q id = Err (ErrNew ("job " +:+ id +:+ " not found in queue")) ∧
                Update q id p = Err (ErrNew ("job " +:+ id +:+ " not found in queue"))) ∧
  (id ∈ ids q → ∃ j q1 q2, ID j = id ∧
     Remove q id = Ok q1 ∧ pq_wf q1 ∧ index_exact q1 ∧ j :: Jobs q1 ≡ₚ Jobs q ∧ Contains q1 id = false ∧
     Update q id p = Ok q2 ∧ pq_wf q2 ∧ index_exact q2 ∧ j :: Jobs q2 ≡ₚ j <| Priority := p |> :: Jobs q).
Proof.
  intros Hwf Hex.
  assert (id ∈ ids q ↔ is_Some (index q !! id)) as Hin.
  { by rewrite <- elem_of_dom, (pq_index _ Hwf), elem_of_list_to_set. }
  split.
  - intros Hni. unfold Remove, Update. destruct (index q !! id) eqn:E; [|done].
    exfalso. apply Hni, Hin. by eexists.
  - intros [i Hi]%Hin. destruct (index_exact_lookup q id i Hwf Hex Hi) as (x & Hx & Hid).
    destruct (Remove_wf q id i x Hwf Hi Hx) as (q1 & E1 & Hw1 & He1 & Hp1).
    destruct (Update_wf q id p i x Hwf Hi Hx) as (q2 & E2 & Hw2 & He2 & Hp2).
    exists (job x), q1, q2. split_and!; try done.
    unfold Contains. destruct (index q1 !! id) as [k|] eqn:Ek; [exfalso|done].
    destruct (index_exact_lookup q1 id k Hw1 He1 Ek) as (y & Hy & Hidy).
    assert (NoDup (ID <$> (job x :: Jobs q1))) as Hnd.
    { rewrite Hp1. unfold Jobs. rewrite <- list_fmap_compose. apply Hwf. }
    apply NoDup_cons in Hnd as [Hnd _]. apply Hnd. fold (itemID x). rewrite Hid, <- Hidy.
    change (ID (job y) ∈ ID <$> (job <$> items q1)).
    do 2 apply list_elem_of_fmap_2. by eapply list_elem_of_lookup_2.
Qed.

Lemma remove_update_exact_witness :
  ∃ q, Push NewPriorityQueue (Some (queued_job "a" 1 5)) = Ok q ∧ is_ok (Remove q "a") = true.
Proof.
  assert (∃ q, Push NewPriorityQueue (Some (queued_job "a" 1 5)) = Ok q ∧ pq_wf q ∧ index_exact q ∧ "a" ∈ ids q)
    as (q & Hq & Hw & He & Hin).
  { eexists. split_and!; [reflexivity| | |left].
    - apply (push_wf NewPriorityQueue (queued_job "a" 1 5) (proj1 pq_wf_empty) (ex_intro _ 5 eq_refl)).
      apply not_elem_of_nil.
    - intros [|i] x Hx; vm_compute in Hx; simplify_eq; reflexivity. }
  exists q. split; [done|].
  destruct (proj2 (remove_update_exact q "a" 3 Hw He) Hin) as (? & ? & ? & _ & -> & _). reflexivity.
Defined.

(** C37: [Push] and [Pop] do not refresh the index entries of the jobs they
    move.  After pushing a low-priority job and then a high-priority one,
    removing the first by its ID removes the second instead; and after three
    pushes and a pop, removing the last job panics with an index out of range. *)
Theorem remove_uses_stale_index :
  (let low := queued_job "low" 0 5 in let high := queued_job "high" 3 6 in
   ∃ q q', push_all NewPriorityQueue [low; high] = Ok q ∧
           Remove q "low" = Ok q' ∧ Jobs q' = [low]) ∧
  (∃ q j q', push_all NewPriorityQueue [queued_job "a" 3 1; queued_job "b" 2 2; queued_job "c" 1 3] = Ok q ∧
             Pop q = Ok (j, q') ∧ ID j = "a" ∧ Contains q' "c" = true ∧
             Remove q' "c" = Panic "index out of range").
Proof.
  split.
  - do 2 eexists. split_and!; reflexivity.
  - do 3 eexists. split_and!; reflexivity.
Qed.
