(* ===== verification/Retry.v ===== *)
(** * Retry manager and circuit breaker (pkg/retry/policy.go, pkg/retry/manager.go)

    An operation is a state transformer that returns an optional error; the
    sleeps between attempts are returned as a log instead of being slept, and
    the random draws used for jitter are an argument. *)

From S2P Require Import Prelude.

Record Policy := mkPolicy {
  MaxRetries : Z; InitialDelay : Duration; MaxDelay : Duration; Multiplier : float64;
  Jitter : bool; RetryableErrors : list string }.

Definition DefaultPolicy : Policy :=
  mkPolicy 3 (1 * Second) (10 * Second) (f64_of_Z 2) true [].
Definition DatabasePolicy : Policy :=
  mkPolicy 5 (100 * Millisecond) (5 * Second) (f64_lit 3 2) true
    ["database is locked"; "timeout"; "temporary failure"; "disk i/o error"].
Definition NetworkPolicy : Policy :=
  mkPolicy 3 (2 * Second) (30 * Second) (f64_of_Z 2) true
    ["connection refused"; "timeout"; "network unreachable"; "no route to host"; "temporary failure"].
Definition UpdatePolicy : Policy :=
  mkPolicy 20 (5 * Second) (60 * Second) (f64_lit 3 2) true [].

(** [&PolicyError{Field, Message}] and its [Error] text. *)
Definition PolicyError (field message : string) : goerror :=
  ErrNew ("retry policy error: " +:+ field +:+ " " +:+ message).

Definition ValidatePolicy (p : Policy) : res unit :=
  if MaxRetries p <? 0 then Err (PolicyError "MaxRetries" "cannot be negative")
  else if InitialDelay p <? 0 then Err (PolicyError "InitialDelay" "cannot be negative")
  else if MaxDelay p <? 0 then Err (PolicyError "MaxDelay" "cannot be negative")
  else if f64_lt (Multiplier p) (f64_of_Z 1) then Err (PolicyError "Multiplier" "must be at least 1.0")
  else if (0 <? MaxDelay p) && (MaxDelay p <? InitialDelay p)
  then Err (PolicyError "InitialDelay" "cannot be greater than MaxDelay")
  else Ok tt.

(** ** Error classification *)

(** The [net.Error] view of an error: [(Temporary(), Timeout())].  A
    [syscall.Errno] implements the interface too. *)
Definition EINTR : Z := 4.
Definition EAGAIN : Z := 11.
Definition ENFILE : Z := 23.
Definition EMFILE : Z := 24.
Definition ECONNRESET : Z := 104.
Definition ETIMEDOUT : Z := 110.
Definition ECONNREFUSED : Z := 111.

Definition errno_timeout (n : Z) : bool := (n =? EAGAIN) || (n =? ETIMEDOUT).
Definition errno_temporary (n : Z) : bool :=
  (n =? EINTR) || (n =? EMFILE) || (n =? ENFILE) || errno_timeout n.

Definition as_net_error (e : goerror) : option (bool * bool) :=
  match e with
  | ErrNet _ temp tmo => Some (temp, tmo)
  | ErrErrno n _ => Some (errno_temporary n, errno_timeout n)
  | _ => None
  end.
Definition as_temporary (e : goerror) : option bool :=
  match e with
  | ErrNet _ temp _ => Some temp
  | ErrTemp _ temp => Some temp
  | ErrErrno n _ => Some (errno_temporary n)
  | _ => None
  end.

Definition networkErrors : list string :=
  ["connection refused"; "connection reset"; "network unreachable"; "no route to host";
   "host unreachable"; "connection timed out"; "temporary failure"; "name resolution failed";
   "dns lookup failed"].
Definition timeoutErrors : list string :=
  ["timeout"; "timed out"; "deadline exceeded"; "context deadline exceeded"; "i/o timeout"].
Definition temporaryErrors : list string :=
  ["temporary failure"; "service unavailable"; "try again"; "resource temporarily unavailable";
   "operation would block"].
Definition databaseErrors : list string :=
  ["database is locked"; "database disk image is malformed"; "disk i/o error";
   "file is not a database"; "unable to open database file"; "sql: database is closed";
   "connection pool exhausted"; "too many connections"].

Definition IsNetworkError (err : option goerror) : bool :=
  match err with
  | None => false
  | Some e =>
      match as_net_error e with
      | Some (temp, tmo) => temp || tmo
      | None => contains_any (ToLower (Error e)) networkErrors
      end
  end.

Definition IsTimeoutError (err : option goerror) : bool :=
  match err with
  | None => false
  | Some e =>
      match as_net_error e with
      | Some (_, true) => true
      | _ => contains_any (ToLower (Error e)) timeoutErrors
      end
  end.

Definition IsTemporaryError (err : option goerror) : bool :=
  match err with
  | None => false
  | Some e =>
      match as_temporary e with
      | Some true => true
      | _ =>
          match e with
          | ErrErrno n _ => if (n =? ECONNRESET) || (n =? ECONNREFUSED) || (n =? EAGAIN) then true
                            else contains_any (ToLower (Error e)) temporaryErrors
          | _ => contains_any (ToLower (Error e)) temporaryErrors
          end
      end
  end.

Definition IsDatabaseError (err : option goerror) : bool :=
  match err with
  | None => false
  | Some e => contains_any (ToLower (Error e)) databaseErrors
  end.

Definition isRetryableError (p : Policy) (e : goerror) : bool :=
  if negb (Nat.eqb (length (RetryableErrors p)) 0)
  then contains_any (Error e) (RetryableErrors p)
  else IsNetworkError (Some e) || IsTimeoutError (Some e) || IsTemporaryError (Some e)
       || IsDatabaseError (Some e).

(** ** Exponential backoff *)

Definition calculateDelay (p : Policy) (random : float64) (baseDelay : Duration) : Duration :=
  if negb (Jitter p) then baseDelay
  else wrap64 (baseDelay + f64_to_int64 (f64_mul (f64_mul random (f64_of_Z baseDelay)) (f64_lit 1 10))).

Definition nextDelay (p : Policy) (delay : Duration) : Duration :=
  let d := f64_to_int64 (f64_mul (f64_of_Z delay) (Multiplier p)) in
  if MaxDelay p <? d then MaxDelay p else d.

Section execute.
Context {S : Type} (operation : S → option goerror * S).

(** The loop [for attempt := 0; attempt <= MaxRetries; attempt++]; [n] bounds
    the iterations left and is [MaxRetries + 1 - attempt]. *)
Fixpoint execute_loop (p : Policy) (random : Z → float64) (n : nat) (attempt : Z)
    (delay : Duration) (lastErr : option goerror) (st : S) (sleeps : list Duration)
    : res unit * S * list Duration :=
  let failed := ErrWrap ("operation failed after " +:+ pretty (MaxRetries p + 1) +:+ " attempts")
                        (default (ErrNew "%!w(<nil>)") lastErr) in
  match n with
  | O => (Err failed, st, sleeps)
  | Datatypes.S n' =>
      match operation st with
      | (None, st') => (Ok tt, st', sleeps)
      | (Some err, st') =>
          if negb (isRetryableError p err) then (Err (ErrWrap "non-retryable error" err), st', sleeps)
          else if attempt =? MaxRetries p
          then (Err (ErrWrap ("operation failed after " +:+ pretty (MaxRetries p + 1) +:+ " attempts") err),
                st', sleeps)
          else execute_loop p random n' (attempt + 1) (nextDelay p delay) (Some err) st'
                 (sleeps ++ [calculateDelay p (random attempt) delay])
      end
  end.

Definition Execute (p : Policy) (random : Z → float64) (st : S) : res unit * S * list Duration :=
  execute_loop p random (Z.to_nat (MaxRetries p + 1)) 0 (InitialDelay p) None st [].

(** The outcome of the [k]-th call, and the state it is made in. *)
Fixpoint state_at (k : nat) (st : S) : S :=
  match k with O => st | Datatypes.S k' => (operation (state_at k' st)).2 end.
Definition outcome (k : nat) (st : S) : option goerror := (operation (state_at k st)).1.

Lemma state_at_S k st : state_at (Datatypes.S k) st = state_at k (operation st).2.
Proof. induction k as [|k IH]; [done|]. simpl in *. by rewrite IH. Qed.

Lemma outcome_S k st : outcome (Datatypes.S k) st = outcome k (operation st).2.
Proof. unfold outcome. by rewrite state_at_S. Qed.

(** The specification: the first call that either succeeds or fails with an
    error that is not retryable decides; otherwise the last permitted one. *)
Definition retried (p : Policy) (st : S) (k : nat) : Prop :=
  ∀ i, (i < k)%nat → ∃ e, outcome i st = Some e ∧ isRetryableError p e = true.

Lemma retried_S p st k :
  retried p st (Datatypes.S k) ↔
  (∃ e, outcome 0 st = Some e ∧ isRetryableError p e = true) ∧ retried p (operation st).2 k.
Proof.
  unfold retried. split.
  - intros H. split; [apply (H 0%nat); lia|]. intros i Hi. rewrite <- outcome_S. apply H. lia.
  - intros [H0 H] [|i] Hi; [done|]. rewrite outcome_S. apply H. lia.
Qed.

(** How the run ended, when its last call was the [k]-th: with success, with a
    fatal error, or with the attempts exhausted ([left] more were permitted). *)
Definition ended (p : Policy) (st : S) (k : nat) (left : Z) (r : res unit) : Prop :=
  (r = Ok tt ∧ outcome k st = None) ∨
  (∃ e, r = Err (ErrWrap "non-retryable error" e) ∧
        outcome k st = Some e ∧ isRetryableError p e = false) ∨
  (∃ e, r = Err (ErrWrap ("operation failed after " +:+ pretty (MaxRetries p + 1) +:+ " attempts") e) ∧
        outcome k st = Some e ∧ isRetryableError p e = true ∧ left = 0).

Lemma ended_S p st k left r :
  ended p (operation st).2 k left r → ended p st (Datatypes.S k) left r.
Proof. unfold ended. by rewrite outcome_S. Qed.

Lemma nextDelay_cap p d : nextDelay p d ≤ MaxDelay p.
Proof. unfold nextDelay. destruct (Z.ltb_spec (MaxDelay p) (f64_to_int64 (f64_mul (f64_of_Z d) (Multiplier p)))); lia. Qed.

Lemma execute_loop_spec p random n attempt delay last st sleeps :
  Z.of_nat n = MaxRetries p + 1 - attempt → attempt ≤ MaxRetries p →
  ∃ k r s, execute_loop p random n attempt delay last st sleeps =
             (r, state_at (Datatypes.S k) st, sleeps ++ s) ∧
           length s = k ∧ Z.of_nat k + attempt ≤ MaxRetries p ∧ retried p st k ∧
           ended p st k (MaxRetries p - attempt - Z.of_nat k) r ∧
           (Jitter p = false → Forall (λ d, d ≤ Z.max delay (MaxDelay p)) s).
Proof.
  revert attempt delay last st sleeps.
  induction n as [|n IH]; intros attempt delay last st sleeps Hn Ha; [lia|]. cbn [execute_loop].
  destruct (operation st) as [[err|] st'] eqn:Eop.
  2:{ exists 0%nat, (Ok tt), []. simpl. rewrite app_nil_r, Eop. split_and!; try done; try lia.
      - intros i Hi; lia.
      - left. unfold outcome. simpl. by rewrite Eop. }
  destruct (isRetryableError p err) eqn:Er; cbn [negb].
  2:{ eexists 0%nat, _, []. simpl. rewrite app_nil_r, Eop. split_and!; try done; try lia.
      - intros i Hi; lia.
      - right; left. exists err. unfold outcome. simpl. by rewrite Eop. }
  destruct (Z.eqb_spec attempt (MaxRetries p)) as [->|Hne].
  { eexists 0%nat, _, []. simpl. rewrite app_nil_r, Eop. split_and!; try done; try lia.
    - intros i Hi; lia.
    - right; right. exists err. unfold outcome. simpl. rewrite Eop. split_and!; [done..|lia]. }
  destruct (IH (attempt + 1) (nextDelay p delay) (Some err) st'
    (sleeps ++ [calculateDelay p (random attempt) delay])) as (k & r & s & E & Hl & Hk & Hr & He & Hs); [lia..|].
  assert ((operation st).2 = st') as Est by (by rewrite Eop).
  exists (Datatypes.S k), r, (calculateDelay p (random attempt) delay :: s).
  rewrite E, (state_at_S (Datatypes.S k) st), Est, <- app_assoc. split_and!; simpl; try done; try lia.
  - apply retried_S. rewrite Est. split; [|done]. exists err. unfold outcome. simpl. by rewrite Eop.
  - apply ended_S. rewrite Est.
    match goal with |- ended _ _ _ ?z _ =>
      replace z with (MaxRetries p - (attempt + 1) - Z.of_nat k) by lia end. done.
  - intros Hj. constructor; [unfold calculateDelay; rewrite Hj; simpl; lia|].
    specialize (Hs Hj). eapply Forall_impl; [exact Hs|]. simpl. intros d Hd.
    pose proof (nextDelay_cap p delay). lia.
Qed.

(** *** The first calls of a run, for the clients *)

Lemma Execute_once p random st st' :
  0 ≤ MaxRetries p → operation st = (None, st') → Execute p random st = (Ok tt, st', []).
Proof.
  intros Hm E. unfold Execute. destruct (Z.to_nat (MaxRetries p + 1)) eqn:En; [lia|]. simpl. by rewrite E.
Qed.

Lemma Execute_fatal p random st st' e :
  0 ≤ MaxRetries p → operation st = (Some e, st') → isRetryableError p e = false →
  Execute p random st = (Err (ErrWrap "non-retryable error" e), st', []).
Proof.
  intros Hm E Hr. unfold Execute. destruct (Z.to_nat (MaxRetries p + 1)) eqn:En; [lia|]. simpl. by rewrite E, Hr.
Qed.

(** One transient failure, then success or a fatal error. *)
Lemma Execute_twice p random st st1 st2 e o :
  1 ≤ MaxRetries p → operation st = (Some e, st1) → isRetryableError p e = true →
  operation st1 = (o, st2) → (∀ e2, o = Some e2 → isRetryableError p e2 = false) →
  (Execute p random st).1 =
    (match o with None => Ok tt | Some e2 => Err (ErrWrap "non-retryable error" e2) end, st2).
Proof.
  intros Hm E1 Hr E2 Hf. unfold Execute. destruct (Z.to_nat (MaxRetries p + 1)) as [|[|n]] eqn:En; [lia..|].
  cbn [execute_loop]. rewrite E1, Hr. cbn [negb]. destruct (Z.eqb_spec 0 (MaxRetries p)); [lia|].
  rewrite E2. destruct o as [e2|]; [|done]. by rewrite (Hf e2 eq_refl).
Qed.

(** Whatever every call preserves holds at the end, and a successful run ends
    with a successful call made in a state reached by failed ones. *)
Lemma execute_loop_inv (P : S → Prop) p random n attempt delay last st sleeps :
  (∀ s, P s → P (operation s).2) → P st →
  let '(r, st', _) := execute_loop p random n attempt delay last st sleeps in
  P st' ∧ (r = Ok tt → ∃ s, P s ∧ operation s = (None, st')).
Proof.
  intros Hop. revert attempt delay last st sleeps.
  induction n as [|n IH]; intros attempt delay last st sleeps HP; cbn [execute_loop]; [done|].
  pose proof (Hop st HP) as HP'. destruct (operation st) as [[e|] st'] eqn:E; simpl in HP'.
  - destruct (negb _); [done|]. destruct (_ =? _); [done|]. by apply IH.
  - split; [done|]. intros _. by exists st.
Qed.

(** Every error comes out wrapped. *)
Definition execute_prefix (prefix : string) : Prop :=
  prefix = "non-retryable error" ∨ ∃ n : Z, prefix = "operation failed after " +:+ pretty n +:+ " attempts".
Lemma execute_loop_error p random n attempt delay last st sleeps e :
  (execute_loop p random n attempt delay last st sleeps).1.1 = Err e → ∃ prefix e0, e = ErrWrap prefix e0 ∧ execute_prefix prefix.
Proof.
  revert attempt delay last st sleeps. induction n as [|n IH]; intros attempt delay last st sleeps; simpl.
  { intros [= <-]. eexists _, _. split; [done|]. right. by eexists. }
  destruct (operation st) as [[err|] st']; [|done]. destruct (negb _).
  { intros [= <-]. eexists _, _. split; [done|]. by left. }
  destruct (attempt =? MaxRetries p); [|apply IH]. intros [= <-]. eexists _, _. split; [done|]. right. by eexists.
Qed.
Lemma Execute_error p random st e :
  (Execute p random st).1.1 = Err e → ∃ prefix e0, e = ErrWrap prefix e0 ∧ execute_prefix prefix.
Proof. apply execute_loop_error. Qed.
Lemma execute_loop_no_panic p random n attempt delay last st sleeps w :
  (execute_loop p random n attempt delay last st sleeps).1.1 ≠ Panic w.
Proof.
  revert attempt delay last st sleeps. induction n as [|n IH]; intros attempt delay last st sleeps; simpl; [done|].
  destruct (operation st) as [[err|] st']; [|done]. destruct (negb _); [done|]. destruct (_ =? _); [done|apply IH].
Qed.

Lemma Execute_inv (P : S → Prop) p random st :
  (∀ s, P s → P (operation s).2) → P st →
  P (Execute p random st).1.2 ∧
  ((Execute p random st).1.1 = Ok tt → ∃ s, P s ∧ operation s = (None, (Execute p random st).1.2)).
Proof.
  intros Hop HP. unfold Execute.
  pose proof (execute_loop_inv P p random (Z.to_nat (MaxRetries p + 1)) 0 (InitialDelay p) None st [] Hop HP) as H.
  by destruct (execute_loop _ _ _ _ _ _ _ _) as [[r st'] s].
Qed.

(** C8: the retry loop.  With a non-negative retry limit, [Execute] always
    returns: it makes [k + 1] calls for some [k] up to the limit, sleeping
    between consecutive ones; every call before the last failed with a
    retryable error; and the result is success, the wrapped fatal error of the
    last call, or the exhaustion error after exactly [MaxRetries + 1] calls.
    Without jitter no sleep exceeds the larger of the two configured delays. *)
Theorem execute_spec p random st :
  0 ≤ MaxRetries p →
  ∃ k r s, Execute p random st = (r, state_at (Datatypes.S k) st, s) ∧
           length s = k ∧ Z.of_nat k ≤ MaxRetries p ∧ retried p st k ∧
           ended p st k (MaxRetries p - Z.of_nat k) r ∧
           (Jitter p = false → Forall (λ d, d ≤ Z.max (InitialDelay p) (MaxDelay p)) s).
Proof.
  intros H. unfold Execute.
  destruct (execute_loop_spec p random (Z.to_nat (MaxRetries p + 1)) 0 (InitialDelay p) None st [])
    as (k & r & s & E & Hl & Hk & Hr & He & Hs); [lia..|].
  exists k, r, s. rewrite E. split_and!; try done; [lia|]. by replace (MaxRetries p - Z.of_nat k) with
    (MaxRetries p - 0 - Z.of_nat k) by lia.
Qed.

(** With a negative limit the operation is reported as failed without having
    been tried. *)
Lemma execute_negative_limit p random st :
  MaxRetries p < 0 →
  ∃ e, Execute p random st = (Err e, st, []).
Proof.
  intros H. unfold Execute. replace (Z.to_nat (MaxRetries p + 1)) with 0%nat by lia. simpl. eauto.
Qed.
End execute.

(** A run of an operation that fails twice with a locked database and then
    succeeds. *)
Definition flaky (n : nat) : option goerror * nat :=
  (if Nat.ltb n 2 then Some (ErrNew "database is locked") else None, Datatypes.S n).

Lemma execute_spec_witness :
  ∃ s, Execute flaky (mkPolicy 5 100 1000 (f64_of_Z 2) false []) (λ _, f64_zero) 0%nat = (Ok tt, 3%nat, s) ∧
       Forall (λ d, d ≤ 1000) s.
Proof.
  destruct (execute_spec flaky (mkPolicy 5 100 1000 (f64_of_Z 2) false []) (λ _, f64_zero) 0%nat)
    as (k & r & s & E & _ & _ & _ & _ & Hs); [done|].
  exists s. vm_compute in E. split; [|exact (Hs eq_refl)]. vm_compute. congruence.
Defined.

(** The four predefined policies are valid. *)
Lemma default_policies_valid :
  Forall (λ p, ValidatePolicy p = Ok tt) [DefaultPolicy; DatabasePolicy; NetworkPolicy; UpdatePolicy].
Proof. repeat constructor. Qed.

(** ** Circuit breaker *)

Inductive CircuitState := CircuitClosed | CircuitOpen | CircuitHalfOpen.
#[export] Instance CircuitState_eq_dec : EqDecision CircuitState.
Proof. solve_decision. Defined.

Definition circuit_string (cs : CircuitState) : string :=
  match cs with CircuitClosed => "closed" | CircuitOpen => "open" | CircuitHalfOpen => "half-open" end.

Record CircuitBreaker := mkCB {
  maxFailures : Z; resetTimeout : Duration; cb_state : CircuitState; failures : Z; lastFailTime : Time }.

#[export] Instance CircuitBreaker_eta : Eta CircuitBreaker := fun c =>
  mkCB (maxFailures c) (resetTimeout c) (cb_state c) (failures c) (lastFailTime c).

Definition NewCircuitBreaker (maxF : Z) (resetT : Duration) : CircuitBreaker :=
  mkCB maxF resetT CircuitClosed 0 zero_time.

(** [canExecute]: the clock is read again after the lock upgrade ([now']). *)
Definition canExecute (now now' : Time) (c : CircuitBreaker) : bool * CircuitBreaker :=
  match cb_state c with
  | CircuitClosed => (true, c)
  | CircuitOpen =>
      if resetTimeout c <=? time_sub now (lastFailTime c) then
        let c' := if resetTimeout c <=? time_sub now' (lastFailTime c)
                  then c <| cb_state := CircuitHalfOpen |> else c in
        (bool_decide (cb_state c' = CircuitHalfOpen), c')
      else (false, c)
  | CircuitHalfOpen => (true, c)
  end.

Definition recordResult (now : Time) (err : option goerror) (c : CircuitBreaker) : CircuitBreaker :=
  match err with
  | Some _ =>
      let c := c <| failures := failures c + 1 |> <| lastFailTime := now |> in
      if maxFailures c <=? failures c then c <| cb_state := CircuitOpen |> else c
  | None => c <| failures := 0 |> <| cb_state := CircuitClosed |>
  end.

Section breaker.
Context {S : Type}.

(** [CircuitBreaker.Execute]: [now1], [now2] are the readings of [canExecute],
    [now3] the one of [recordResult]. *)
Definition cb_execute (now1 now2 now3 : Time) (operation : S → option goerror * S)
    (c : CircuitBreaker) (st : S) : option goerror * CircuitBreaker * S :=
  let '(ok, c) := canExecute now1 now2 c in
  if negb ok then (Some (ErrNew "circuit breaker is open"), c, st)
  else let '(err, st') := operation st in (err, recordResult now3 err c, st').

(** [ResilientClient.Execute]: the whole retry loop is one operation of the
    breaker. *)
Definition retry_operation (p : Policy) (random : Z → float64) (operation : S → option goerror * S)
    (st : S) : option goerror * S :=
  let '(r, st', _) := Execute operation p random st in
  (match r with Ok _ => None | Err e => Some e | Panic w => Some (ErrNew w) end, st').

Definition resilient_execute (now1 now2 now3 : Time) (p : Policy) (random : Z → float64)
    (operation : S → option goerror * S) (c : CircuitBreaker) (st : S)
    : option goerror * CircuitBreaker * S :=
  cb_execute now1 now2 now3 (retry_operation p random operation) c st.
End breaker.

(** The breaker's invariant: it is open or half-open only after at least
    [maxFailures] consecutive failures, and closed only below that. *)
Definition cb_wf (c : CircuitBreaker) : Prop :=
  0 ≤ failures c ∧
  match cb_state c with
  | CircuitClosed => failures c < maxFailures c
  | CircuitOpen | CircuitHalfOpen => maxFailures c ≤ failures c
  end.

Lemma canExecute_wf now now' c : cb_wf c → cb_wf (canExecute now now' c).2.
Proof.
  unfold canExecute, cb_wf. destruct (cb_state c) eqn:E; intros H; simpl; rewrite ?E; try done.
  destruct (_ <=? _); simpl; rewrite ?E; try done. by destruct (_ <=? _); simpl; rewrite ?E.
Qed.

Lemma canExecute_maxFailures now now' c : maxFailures (canExecute now now' c).2 = maxFailures c.
Proof. unfold canExecute. destruct (cb_state c); try done. by repeat destruct (_ <=? _). Qed.

Lemma recordResult_wf now err c :
  0 < maxFailures c → cb_wf c → cb_wf (recordResult now err c).
Proof.
  unfold recordResult, cb_wf. intros Hm [H0 H]. destruct err; simpl; [|lia].
  destruct (Z.leb_spec (maxFailures c) (failures c + 1)); simpl; [lia|].
  destruct (cb_state c); lia.
Qed.

Inductive cb_step {S : Type} : CircuitBreaker * S → CircuitBreaker * S → Prop :=
  | cb_exec now1 now2 now3 op c st err c' st' :
      cb_execute now1 now2 now3 op c st = (err, c', st') → cb_step (c, st) (c', st').

(** The circuit breaker's state always reflects its failure count: however
    it has been used, it is closed exactly while fewer than [maxFailures]
    consecutive failures have been recorded. *)
Theorem breaker_reachable_wf {S : Type} maxF resetT (st st' : S) c :
  0 < maxF → rtc cb_step (NewCircuitBreaker maxF resetT, st) (c, st') →
  cb_wf c ∧ maxFailures c = maxF ∧ (cb_state c = CircuitClosed ↔ failures c < maxF).
Proof.
  intros Hm Hr.
  assert (cb_wf c ∧ maxFailures c = maxF) as [Hw Hmx].
  { change c with ((c, st').1). remember (c, st') as y eqn:Ey. clear Ey.
    assert (cb_wf (NewCircuitBreaker maxF resetT, st).1 ∧
            maxFailures (NewCircuitBreaker maxF resetT, st).1 = maxF) as H0.
    { simpl. split; [|done]. unfold cb_wf. simpl. lia. }
    induction Hr as [|x y z Hs _ IH]; [done|]. apply IH. clear IH. destruct H0 as [H0 H1].
    destruct Hs as [n1 n2 n3 op c0 s0 err c1 s1 E]. simpl in *. unfold cb_execute in E.
    pose proof (canExecute_wf n1 n2 c0 H0) as Hw. pose proof (canExecute_maxFailures n1 n2 c0) as Hmf.
    destruct (canExecute n1 n2 c0) as [[|] c2]; simpl in *; simplify_eq; [|done].
    destruct (op s0) as [e s2]. injection E as <- <- <-. split; [apply recordResult_wf; [lia|done]|].
    unfold recordResult. destruct e; [|done]. by simpl; destruct (_ <=? _). }
  split_and!; try done. unfold cb_wf in Hw. destruct (cb_state c); split; try done; try lia.
Qed.

Lemma breaker_reachable_wf_witness :
  ∃ c, cb_execute 1 1 1 (λ n : nat, (Some (ErrNew "x"), n)) (NewCircuitBreaker 1 5) 0%nat
         = (Some (ErrNew "x"), c, 0%nat) ∧ ¬ (failures c < 1).
Proof.
  eexists. split; [reflexivity|].
  assert (0 < 1) as H1 by lia.
  pose proof (breaker_reachable_wf 1 5 0%nat 0%nat _ H1
    (rtc_once _ _ (cb_exec 1 1 1 (λ n : nat, (Some (ErrNew "x"), n)) (NewCircuitBreaker 1 5) 0%nat _ _ _ eq_refl)))
    as (_ & _ & H). rewrite <- H. discriminate.
Defined.

(** An open breaker fails fast: until [resetTimeout] has passed since the
    last failure, [Execute] returns an error without running the operation or
    touching any state, also when the operation is a whole retry loop; once it
    has passed the operation runs, and a success closes the breaker while a
    failure reopens it for another [resetTimeout]. *)
Theorem open_breaker_fails_fast {S : Type} n1 n2 n3 p random op c (st : S) :
  cb_wf c → cb_state c = CircuitOpen →
  (time_sub n1 (lastFailTime c) < resetTimeout c →
     resilient_execute n1 n2 n3 p random op c st = (Some (ErrNew "circuit breaker is open"), c, st)) ∧
  (resetTimeout c ≤ time_sub n1 (lastFailTime c) → n1 ≤ n2 →
     let '(err, c', st') := resilient_execute n1 n2 n3 p random op c st in
     st' = (retry_operation p random op st).2 ∧ err = (retry_operation p random op st).1 ∧
     match err with
     | None => cb_state c' = CircuitClosed ∧ failures c' = 0
     | Some _ => cb_state c' = CircuitOpen ∧ lastFailTime c' = n3
     end).
Proof.
  intros [_ Hw] Ho. rewrite Ho in Hw. unfold resilient_execute, cb_execute, canExecute. rewrite Ho. split.
  - intros Hlt. destruct (Z.leb_spec (resetTimeout c) (time_sub n1 (lastFailTime c))); [lia|]. done.
  - intros Hge Hn. destruct (Z.leb_spec (resetTimeout c) (time_sub n1 (lastFailTime c))); [|lia].
    assert (resetTimeout c ≤ time_sub n2 (lastFailTime c)) by (unfold time_sub in *; lia).
    destruct (Z.leb_spec (resetTimeout c) (time_sub n2 (lastFailTime c))); [|lia]. simpl.
    destruct (retry_operation p random op st) as [[e|] st'] eqn:E; simpl; [|done].
    destruct (Z.leb_spec (maxFailures c) (failures c + 1)); [|lia]. done.
Qed.

Lemma open_breaker_fails_fast_witness :
  let c := mkCB 2 100 CircuitOpen 2 1000 in
  resilient_execute 1050 1050 1050 DefaultPolicy (λ _, f64_zero) flaky c 0%nat =
    (Some (ErrNew "circuit breaker is open"), c, 0%nat).
Proof.
  apply (open_breaker_fails_fast 1050 1050 1050 DefaultPolicy (λ _, f64_zero) flaky
    (mkCB 2 100 CircuitOpen 2 1000) 0%nat); [done|reflexivity|reflexivity].
Defined.
