(* ===== verification/JobRepo.v ===== *)
(** * The job repository interface (pkg/domain/job/repository/interface.go)

    The scheduler and the recovery manager are written against the Go interface
    [JobRepository], whose implementation is supplied by the caller.  Here it is
    a type class over the repository's state [R]; a write returns the outcome
    and the new state, a read is a function of the state.  [RepoLaws] states
    what the interface documents, and [MemRepo] is a map-backed implementation
    that satisfies it, used to run the components on concrete data. *)

From S2P Require Import Prelude JobStatus Job.

(** The results of the interface: a read gives a value or an error, a write a
    possibly nil error together with the new state. *)
Class JobRepository (R : Type) := {
  Create : R → Job → option goerror * R;
  Get : R → string → Job + goerror;
  RepoUpdate : R → Job → option goerror * R;
  List : R → list Job + goerror;                      (* List(ctx, JobFilter{}) *)
  ListByStatus : R → JobStatus → list Job + goerror;
  ListPending : R → nat → list Job + goerror;
  ListScheduled : R → Time → list Job + goerror;
  CountByStatus : R → gmap string Z + goerror;
  UpdateStatus : R → string → JobStatus → JobStatus → option goerror * R;
  RepoIncrementRetries : R → string → option goerror * R;
  LockForProcessing : Time → R → string → string → Duration → (option Job + goerror) * R;
  UnlockJob : R → string → string → option goerror * R;
  GetStaleJobs : Time → R → Duration → list Job + goerror }.

(** [same_except r r' id]: reads of other jobs are unaffected. *)
Definition same_except {R} `{JobRepository R} (r r' : R) (id : string) : Prop :=
  ∀ k, k ≠ id → Get r' k = Get r k.

(** The job with its lock fields overwritten. *)
Definition with_lock (w : string) (at_ expires : option Time) (upd : Time) (j : Job) : Job :=
  j <| LockedBy := w |> <| LockedAt := at_ |> <| LockExpiresAt := expires |> <| UpdatedAt := upd |>.

Class RepoLaws (R : Type) `{JobRepository R} : Prop := {
  create_spec r j r' : Create r j = (None, r') → Get r' (ID j) = inl j ∧ same_except r r' (ID j);
  create_fail r j e r' : Create r j = (Some e, r') → r' = r;
  update_spec r j r' : RepoUpdate r j = (None, r') → Get r' (ID j) = inl j ∧ same_except r r' (ID j);
  update_fail r j e r' : RepoUpdate r j = (Some e, r') → r' = r;
  get_id r id j : Get r id = inl j → ID j = id;
  status_list_spec r s l : ListByStatus r s = inl l →
    NoDup (ID <$> l) ∧ ∀ j, j ∈ l ↔ Get r (ID j) = inl j ∧ Status j = s;
  list_spec r l : List r = inl l → NoDup (ID <$> l) ∧ ∀ j, j ∈ l ↔ Get r (ID j) = inl j;
  pending_spec r n l : ListPending r n = inl l → ∀ j, j ∈ l → Get r (ID j) = inl j;
  scheduled_spec r t l : ListScheduled r t = inl l → ∀ j, j ∈ l → Get r (ID j) = inl j;
  stale_spec now r d l : GetStaleJobs now r d = inl l → NoDup (ID <$> l) ∧ ∀ j, j ∈ l → Get r (ID j) = inl j;
  update_status_spec r id from to r' : UpdateStatus r id from to = (None, r') →
    ∃ j upd, Get r id = inl j ∧ Status j = from ∧
             Get r' id = inl (j <| Status := to |> <| UpdatedAt := upd |>) ∧ same_except r r' id;
  update_status_fail r id from to e r' : UpdateStatus r id from to = (Some e, r') → r' = r;
  retries_spec r id r' : RepoIncrementRetries r id = (None, r') →
    ∃ j upd, Get r id = inl j ∧
             Get r' id = inl (j <| RetryCount := RetryCount j + 1 |> <| UpdatedAt := upd |>) ∧
             same_except r r' id;
  retries_fail r id e r' : RepoIncrementRetries r id = (Some e, r') → r' = r;
  lock_spec now r id w d j r' : LockForProcessing now r id w d = (inl (Some j), r') →
    ∃ j0 s t upd, Get r id = inl j0 ∧ j = with_lock w s t upd j0 ∧ Get r' id = inl j ∧ same_except r r' id;
  lock_none now r id w d o r' : LockForProcessing now r id w d = (o, r') →
    (∀ j, o ≠ inl (Some j)) → r' = r;
  unlock_spec r id w r' : UnlockJob r id w = (None, r') →
    ∃ j upd, Get r id = inl j ∧ Get r' id = inl (with_lock "" None None upd j) ∧ same_except r r' id;
  unlock_fail r id w e r' : UnlockJob r id w = (Some e, r') → r' = r }.

(** ** A map-backed implementation *)

Abbreviation MemRepo := (gmap string Job).

Definition mem_jobs (r : MemRepo) : list Job := snd <$> map_to_list r.
Definition mem_get (r : MemRepo) (id : string) : Job + goerror :=
  match r !! id with
  | Some j => if String.eqb (ID j) id then inl j else inr (ErrNew "job not found")
  | None => inr (ErrNew "job not found")
  end.
Definition mem_put (r : MemRepo) (j : Job) : MemRepo := <[ID j := j]> r.
(** Rewrite the stored job, when there is one and [f] accepts it. *)
Definition mem_modify (r : MemRepo) (id : string) (f : Job → Job + goerror) : (Job + goerror) * MemRepo :=
  match mem_get r id with
  | inl j => match f j with
             | inl j' => (inl j', <[id := j']> r)
             | inr e => (inr e, r)
             end
  | inr e => (inr e, r)
  end.
Definition as_unit {A B} (x : (A + goerror) * B) : option goerror * B :=
  (match x.1 with inl _ => None | inr e => Some e end, x.2).

(** Jobs whose map key is their ID, the only ones reads return. *)
Definition mem_live (r : MemRepo) : list Job := keyed_values ID r.

#[export] Instance MemRepo_repository : JobRepository MemRepo := {|
  Create r j := match r !! ID j with
                | Some _ => (Some (ErrNew "job already exists"), r)
                | None => (None, mem_put r j)
                end;
  Get := mem_get;
  RepoUpdate r j := match r !! ID j with
                    | Some _ => (None, mem_put r j)
                    | None => (Some (ErrNew "job not found"), r)
                    end;
  List r := inl (mem_live r);
  ListByStatus r s := inl (List.filter (λ j, String.eqb (Status j) s) (mem_live r));
  ListPending r n := inl (take n (List.filter (λ j, String.eqb (Status j) StatusQueued) (mem_live r)));
  ListScheduled r t := inl (List.filter (λ j, match ScheduledAt j with Some s => s <=? t | None => false end)
                             (mem_live r));
  CountByStatus r := inl (foldr (λ j m, <[Status j := default 0 (m !! Status j) + 1]> m) ∅ (mem_live r));
  UpdateStatus r id from to :=
    as_unit (mem_modify r id (λ j, if String.eqb (Status j) from then inl (j <| Status := to |>)
                                   else inr (ErrNew "status mismatch")));
  RepoIncrementRetries r id :=
    as_unit (mem_modify r id (λ j, inl (j <| RetryCount := RetryCount j + 1 |>)));
  LockForProcessing now r id w d :=
    let '(x, r') := mem_modify r id (λ j, if IsLocked now j then inr (ErrNew "locked")
                                          else inl (with_lock w (Some now) (Some (time_add now d)) now j)) in
    (match x with inl j => inl (Some j) | inr e => inr e end, r');
  UnlockJob r id w :=
    as_unit (mem_modify r id (λ j, if String.eqb (LockedBy j) w
                                   then inl (with_lock "" None None (UpdatedAt j) j)
                                   else inr (ErrNew "not the lock holder")));
  GetStaleJobs now r d :=
    inl (List.filter (λ j, match LockedAt j with Some t => d <? time_sub now t | None => false end) (mem_live r)) |}.

Lemma mem_get_id r id j : mem_get r id = inl j → r !! id = Some j ∧ ID j = id.
Proof. unfold mem_get. destruct (r !! id) as [k|]; [|done]. destruct (String.eqb_spec (ID k) id); naive_solver. Qed.

Lemma mem_get_insert r id j : ID j = id → mem_get (<[id := j]> r) id = inl j ∧
  ∀ k, k ≠ id → mem_get (<[id := j]> r) k = mem_get r k.
Proof.
  intros <-. unfold mem_get. rewrite lookup_insert_eq, String.eqb_refl. split; [done|].
  intros k Hk. by rewrite lookup_insert_ne.
Qed.

Lemma mem_live_spec r : NoDup (ID <$> mem_live r) ∧ ∀ j, j ∈ mem_live r ↔ mem_get r (ID j) = inl j.
Proof.
  destruct (keyed_values_spec ID r) as [Hn Hin]. split; [done|]. intros j. unfold mem_live. rewrite Hin. unfold mem_get.
  destruct (r !! ID j) as [k|]; [|by split]. destruct (String.eqb_spec (ID k) (ID j)); naive_solver.
Qed.

Lemma mem_modify_ok r id f j' r' :
  (∀ j k, f j = inl k → ID k = ID j) →
  mem_modify r id f = (inl j', r') →
  ∃ j, mem_get r id = inl j ∧ f j = inl j' ∧ mem_get r' id = inl j' ∧ same_except r r' id.
Proof.
  intros Hf. unfold mem_modify. destruct (mem_get r id) as [j|e] eqn:E; try done.
  destruct (f j) as [k|e] eqn:Ef; intros [= <- <-]. exists j. split_and!; try done.
  - apply mem_get_insert. rewrite (Hf j k Ef). by apply mem_get_id in E as [_ ->].
  - intros i Hi. simpl. apply mem_get_insert; [|done]. rewrite (Hf j k Ef). by apply mem_get_id in E as [_ ->].
Qed.

Lemma mem_modify_fail r id f x r' :
  mem_modify r id f = (x, r') → (∀ j, x ≠ inl j) → r' = r.
Proof.
  unfold mem_modify. destruct (mem_get r id) as [j|e]; [|naive_solver].
  destruct (f j) as [k|e]; naive_solver.
Qed.

Lemma as_unit_ok {A B} (x : (A + goerror) * B) b : as_unit x = (None, b) → ∃ a, x = (inl a, b).
Proof. destruct x as [[a|e] b']; unfold as_unit; simpl; naive_solver. Qed.
Lemma as_unit_err {A B} (x : (A + goerror) * B) e b : as_unit x = (Some e, b) → x = (inr e, b).
Proof. destruct x as [[a|e'] b']; unfold as_unit; simpl; naive_solver. Qed.

#[export] Instance MemRepo_laws : RepoLaws MemRepo.
Proof.
  split.
  - intros r j r'; simpl. destruct (r !! ID j); [done|]. intros [= <-]. by apply mem_get_insert.
  - intros r j e r'; simpl. destruct (r !! ID j); naive_solver.
  - intros r j r'; simpl. destruct (r !! ID j); [|done]. intros [= <-]. by apply mem_get_insert.
  - intros r j e r'; simpl. destruct (r !! ID j); naive_solver.
  - intros r id j H. by apply mem_get_id in H as [_ ?].
  - intros r s l [= <-]. destruct (mem_live_spec r) as [Hn Hin]. split; [by apply NoDup_fmap_filter|].
    intros j. rewrite list_elem_of_In, filter_In, <- list_elem_of_In, Hin, String.eqb_eq. done.
  - intros r l [= <-]. apply mem_live_spec.
  - intros r n l [= <-] j Hj. apply mem_live_spec.
    apply elem_of_take in Hj as (i & Hj & _). apply list_elem_of_lookup_2, list_elem_of_In, filter_In in Hj as [Hj _].
    by apply list_elem_of_In.
  - intros r t l [= <-] j Hj. apply mem_live_spec. apply list_elem_of_In, filter_In in Hj as [Hj _].
    by apply list_elem_of_In.
  - intros now r d l [= <-]. destruct (mem_live_spec r) as [Hn Hin]. split; [by apply NoDup_fmap_filter|].
    intros j Hj. apply Hin. apply list_elem_of_In, filter_In in Hj as [Hj _]. by apply list_elem_of_In.
  - intros r id from to r' [k E]%as_unit_ok. apply mem_modify_ok in E as (j & Hg & Hf & Hg' & Hs).
    2:{ intros j k'. destruct (String.eqb _ _); [|done]. by intros [= <-]. }
    destruct (String.eqb_spec (Status j) from); [|done]. injection Hf as <-.
    exists j, (UpdatedAt j). done.
  - intros r id from to e r' E%as_unit_err. by eapply mem_modify_fail.
  - intros r id r' [k E]%as_unit_ok. apply mem_modify_ok in E as (j & Hg & Hf & Hg' & Hs).
    2:{ by intros j k' [= <-]. }
    injection Hf as <-. exists j, (UpdatedAt j). done.
  - intros r id e r' E%as_unit_err. by eapply mem_modify_fail.
  - intros now r id w d j r'. simpl. destruct (mem_modify r id _) as [[k|e] r1] eqn:E; try done.
    intros [= <- <-]. apply mem_modify_ok in E as (j0 & Hg & Hf & Hg' & Hs).
    2:{ intros j k'. destruct (IsLocked _ _); [done|]. by intros [= <-]. }
    destruct (IsLocked now j0); [done|]. injection Hf as <-. eexists _, _, _, _. done.
  - intros now r id w d o r'. simpl. destruct (mem_modify r id _) as [x r1] eqn:E.
    intros [= <- <-] Hn. eapply mem_modify_fail; [exact E|]. intros j ->. by apply (Hn j).
  - intros r id w r' [k E]%as_unit_ok. apply mem_modify_ok in E as (j & Hg & Hf & Hg' & Hs).
    2:{ intros j k'. destruct (String.eqb _ _); [|done]. by intros [= <-]. }
    destruct (String.eqb _ _); [|done]. injection Hf as <-. exists j, (UpdatedAt j). done.
  - intros r id w e r' E%as_unit_err. by eapply mem_modify_fail.
Qed.
