(* ===== verification/Scheduler.v ===== *)
(** * The job queue (pkg/domain/job/scheduler/queue.go)

    The queue owns its configuration, the pool of free worker IDs, the running
    flag and six atomic counters; the jobs live in the repository.  Each
    operation maps a queue to a queue.  [clk k] is the [k]-th reading of the
    clock inside one call, and [proc] is one call of the job processor, which
    gets the job by pointer and so returns the job as it left it. *)

From S2P Require Import Prelude JobStatus Job JobRepo.

Record Config := mkConfig {
  Workers : Z; CfgMaxRetries : Z; CfgRetryDelay : Duration; LockDuration : Duration;
  StaleLockTimeout : Duration; PollInterval : Duration; EnablePriority : bool }.

#[export] Instance Config_eta : Eta Config := fun c =>
  mkConfig (Workers c) (CfgMaxRetries c) (CfgRetryDelay c) (LockDuration c)
    (StaleLockTimeout c) (PollInterval c) (EnablePriority c).

Definition DefaultConfig : Config :=
  {| Workers := 4; CfgMaxRetries := 3; CfgRetryDelay := 30 * Second; LockDuration := 5 * Minute;
     StaleLockTimeout := 10 * Minute; PollInterval := 1 * Second; EnablePriority := true |}.

Record counters := mkCounters {
  enqueuedCount : Z; processedCount : Z; failedCount : Z; retryCount : Z;
  totalWaitTime : Z; totalExecTime : Z }.

#[export] Instance counters_eta : Eta counters := fun c =>
  mkCounters (enqueuedCount c) (processedCount c) (failedCount c) (retryCount c)
    (totalWaitTime c) (totalExecTime c).

Record queue (R : Type) := mkQueue {
  config : Config; repo : R; running : bool; workerIDs : list string; stats : counters }.
Arguments mkQueue {R} _ _ _ _ _.
Arguments config {R} _.
Arguments repo {R} _.
Arguments running {R} _.
Arguments workerIDs {R} _.
Arguments stats {R} _.

#[export] Instance queue_eta R : Eta (queue R) := fun q =>
  mkQueue (config q) (repo q) (running q) (workerIDs q) (stats q).

Record QueueStats := mkQueueStats {
  TotalJobs : Z; JobsByStatus : gmap string Z; EnqueuedCount : Z; ProcessedCount : Z;
  FailedCount : Z; StatRetryCount : Z; AverageWaitTime : Duration; AverageExecTime : Duration;
  WorkersActive : Z; WorkersTotal : Z; QueueDepth : Z }.

#[export] Instance QueueStats_eta : Eta QueueStats := fun s =>
  mkQueueStats (TotalJobs s) (JobsByStatus s) (EnqueuedCount s) (ProcessedCount s) (FailedCount s)
    (StatRetryCount s) (AverageWaitTime s) (AverageExecTime s) (WorkersActive s) (WorkersTotal s)
    (QueueDepth s).

(** [for i := 0; i < config.Workers; i++ { workerIDs <- "worker-i" }] *)
Definition worker_ids (n : Z) : list string :=
  (λ i, "worker-" +:+ pretty (Z.of_nat i)) <$> seq 0 (Z.to_nat n).

Definition NewQueue {R} (c : Config) (r : R) : queue R :=
  mkQueue c r false (worker_ids (Workers c)) (mkCounters 0 0 0 0 0 0).

(** The running flag of [Start]; the goroutines it launches are the steps of
    the worker system below. *)
Definition StartQueue {R} (q : queue R) : res (queue R) :=
  if running q then Err (ErrNew "queue already running") else Ok (q <| running := true |>).

(** [Stop]: the flag is cleared in any case; [drained] tells whether the
    workers finished within the 30 seconds it waits for them. *)
Definition StopQueue {R} (drained : bool) (q : queue R) : option goerror * queue R :=
  if negb (running q) then (Some (ErrNew "queue not running"), q)
  else (if drained then None else Some (ErrNew "queue stop timeout"), q <| running := false |>).

Definition ErrNoJobsAvailable : goerror := ErrNew "no jobs available".

(** Atomic counter updates. *)
Definition add_count {R} (f : counters → counters) (q : queue R) : queue R := q <| stats := f (stats q) |>.
Definition inc_enqueued (c : counters) : counters := c <| enqueuedCount := wrap64 (enqueuedCount c + 1) |>.
Definition inc_processed (c : counters) : counters := c <| processedCount := wrap64 (processedCount c + 1) |>.
Definition inc_failed (c : counters) : counters := c <| failedCount := wrap64 (failedCount c + 1) |>.
Definition inc_retry (c : counters) : counters := c <| retryCount := wrap64 (retryCount c + 1) |>.
Definition add_wait (d : Duration) (c : counters) : counters :=
  c <| totalWaitTime := wrap64 (totalWaitTime c + d) |>.
Definition add_exec (d : Duration) (c : counters) : counters :=
  c <| totalExecTime := wrap64 (totalExecTime c + d) |>.

Section queue_ops.
Context {R : Type} `{JobRepository R}.

(** [if job.MaxRetries == 0 { ... }; if job.RetryDelay == 0 { ... }] *)
Definition set_defaults (c : Config) (j : Job) : Job :=
  let j := if MaxRetries j =? 0 then j <| MaxRetries := CfgMaxRetries c |> else j in
  if RetryDelay j =? 0 then j <| RetryDelay := CfgRetryDelay c |> else j.

(** Returns the error, the caller's job as the call left it, and the queue. *)
Definition Enqueue (now : Time) (q : queue R) (job : Job) : option goerror * Job * queue R :=
  if negb (running q) then (Some (ErrNew "queue not running"), job, q)
  else match Validate job with
       | Ok _ =>
           let job := set_defaults (config q) job in
           match Queue now job with
           | Ok job =>
               match Create (repo q) job with
               | (None, r) => (None, job, add_count inc_enqueued (q <| repo := r |>))
               | (Some e, r) => (Some (ErrWrap "failed to persist job" e), job, q <| repo := r |>)
               end
           | Err e => (Some (ErrWrap "failed to queue job" e), job, q)
           | Panic w => (Some (ErrNew w), job, q)
           end
       | Err e => (Some (ErrWrap "invalid job" e), job, q)
       | Panic w => (Some (ErrNew w), job, q)
       end.

Definition EnqueueWithDelay (now now' : Time) (q : queue R) (job : Job) (delay : Duration)
    : option goerror * Job * queue R :=
  Enqueue now' q (job <| ScheduledAt := Some (time_add now delay) |>).

Definition CancelJob (now : Time) (q : queue R) (jobID : string) : option goerror * queue R :=
  match Get (repo q) jobID with
  | inr e => (Some (ErrWrap "failed to get job" e), q)
  | inl job =>
      if IsFinished job then (Some (ErrNew ("cannot cancel finished job: " +:+ Status job)), q)
      else match Cancel now job with
           | Ok job =>
               match RepoUpdate (repo q) job with
               | (None, r) => (None, q <| repo := r |>)
               | (Some e, r) => (Some (ErrWrap "failed to update job" e), q <| repo := r |>)
               end
           | Err e => (Some (ErrWrap "failed to cancel job" e), q)
           | Panic w => (Some (ErrNew w), q)
           end
  end.

(** [for _, count := range counts { stats.TotalJobs += count }] *)
Definition sum_counts (counts : gmap string Z) : Z :=
  foldr (λ c acc, wrap64 (acc + c)) 0 (snd <$> map_to_list counts).

Definition GetStats (q : queue R) : QueueStats :=
  let s := stats q in
  let average total := if 0 <? processedCount s then Z.quot total (processedCount s) else 0 in
  let st := {| TotalJobs := 0; JobsByStatus := ∅; EnqueuedCount := enqueuedCount s;
               ProcessedCount := processedCount s; FailedCount := failedCount s;
               StatRetryCount := retryCount s; AverageWaitTime := average (totalWaitTime s);
               AverageExecTime := average (totalExecTime s);
               WorkersActive := Workers (config q) - Z.of_nat (length (workerIDs q));
               WorkersTotal := Workers (config q); QueueDepth := 0 |} in
  match CountByStatus (repo q) with
  | inl counts => st <| JobsByStatus := counts |> <| TotalJobs := sum_counts counts |>
                     <| QueueDepth := default 0 (counts !! StatusQueued) |>
  | inr _ => st
  end.

Fixpoint checkDependencies_loop (r : R) (deps : list string) : bool + goerror :=
  match deps with
  | [] => inl true
  | depID :: deps' =>
      match Get r depID with
      | inr e => inr (ErrWrap ("failed to get dependency " +:+ depID) e)
      | inl dep => if negb (String.eqb (Status dep) StatusCompleted) then inl false
                   else checkDependencies_loop r deps'
      end
  end.
Definition checkDependencies (r : R) (job : Job) : bool + goerror :=
  checkDependencies_loop r (Dependencies job).

(** The dependency guard of [getNextJob]: an error or a missing dependency
    skips the job. *)
Definition deps_ready (r : R) (job : Job) : bool :=
  if HasDependencies job then
    match checkDependencies r job with inl ready => ready | inr _ => false end
  else true.

Fixpoint try_lock_first (now : Time) (r : R) (workerID : string) (d : Duration) (jobs : list Job)
    : (Job + goerror) * R :=
  match jobs with
  | [] => (inr ErrNoJobsAvailable, r)
  | job :: jobs' =>
      if deps_ready r job then
        match LockForProcessing now r (ID job) workerID d with
        | (inl (Some locked), r') => (inl locked, r')
        | (_, r') => try_lock_first now r' workerID d jobs'
        end
      else try_lock_first now r workerID d jobs'
  end.

Definition getNextJob (now : Time) (q : queue R) (workerID : string) : (Job + goerror) * queue R :=
  match ListPending (repo q) 10 with
  | inr e => (inr (ErrWrap "failed to list pending jobs" e), q)
  | inl [] => (inr ErrNoJobsAvailable, q)
  | inl jobs =>
      let '(o, r) := try_lock_first now (repo q) workerID (LockDuration (config q)) jobs in
      (o, q <| repo := r |>)
  end.

Definition handleJobError (clk : nat → Time) (q : queue R) (job : Job) (err : goerror) : queue R :=
  let q := add_count inc_failed q in
  match Fail (clk 0%nat) (Error err) job with
  | Ok job =>
      let '(job, q) :=
        if CanRetry job
        then ((IncrementRetries (clk 1%nat) (clk 2%nat) job) <| Status := StatusQueued |>, add_count inc_retry q)
        else (job, q) in
      q <| repo := (RepoUpdate (repo q) job).2 |>
  | _ => q
  end.

(** The clock after [k] readings. *)
Definition clk_from (clk : nat → Time) (k : nat) : nat → Time := λ i, clk (k + i)%nat.

Definition record_wait (now : Time) (q : queue R) (job : Job) : queue R :=
  match QueuedAt job with
  | Some t => add_count (add_wait (time_sub now t)) q
  | None => q
  end.

Definition executeJob (clk : nat → Time) (proc : Job → option goerror * Job)
    (q : queue R) (job : Job) (workerID : string) : queue R :=
  let q := record_wait (clk 0%nat) q job in
  match Start (clk 1%nat) job with
  | Ok job =>
      match RepoUpdate (repo q) job with
      | (Some _, r) => q <| repo := r |>
      | (None, r) =>
          let q := q <| repo := r |> in
          let '(err, job) := proc job in
          let q := add_count (add_exec (time_sub (clk 3%nat) (clk 2%nat))) q in
          let unlock q := q <| repo := (UnlockJob (repo q) (ID job) workerID).2 |> in
          match err with
          | Some e => unlock (handleJobError (clk_from clk 4) q job e)
          | None =>
              match Complete (clk 4%nat) job with
              | Ok job =>
                  match RepoUpdate (repo q) job with
                  | (Some _, r) => q <| repo := r |>
                  | (None, r) => unlock (add_count inc_processed (q <| repo := r |>))
                  end
              | _ => q
              end
          end
      end
  | Err e => handleJobError (clk_from clk 2) q job e
  | Panic _ => q
  end.

Definition processNextJob (clk : nat → Time) (proc : Job → option goerror * Job)
    (q : queue R) (workerID : string) : queue R :=
  match getNextJob (clk 0%nat) q workerID with
  | (inr _, q) => q                     (* sleeps for the poll interval *)
  | (inl job, q) => executeJob (clk_from clk 1) proc q job workerID
  end.

(** [for _, job := range jobs { if err := job.Queue() ... repo.Update ... }] *)
Fixpoint queue_scheduled (clk : nat → Time) (r : R) (jobs : list Job) : R :=
  match jobs with
  | [] => r
  | job :: jobs' =>
      let r' := match Queue (clk 0%nat) job with
                | Ok job => (RepoUpdate r job).2
                | _ => r
                end in
      queue_scheduled (clk_from clk 1) r' jobs'
  end.
Definition processScheduledJobs (clk : nat → Time) (q : queue R) : queue R :=
  match ListScheduled (repo q) (clk 0%nat) with
  | inr _ => q
  | inl jobs => q <| repo := queue_scheduled (clk_from clk 1) (repo q) jobs |>
  end.

(** [job.Unlock(); job.Status = types.StatusQueued] *)
Definition return_to_queue (now : Time) (job : Job) : Job := (Unlock now job) <| Status := StatusQueued |>.

Fixpoint release_stale (clk : nat → Time) (r : R) (jobs : list Job) : R :=
  match jobs with
  | [] => r
  | job :: jobs' =>
      release_stale (clk_from clk 1) (RepoUpdate r (return_to_queue (clk 0%nat) job)).2 jobs'
  end.
Definition cleanStaleLocks (clk : nat → Time) (q : queue R) : queue R :=
  match GetStaleJobs (clk 0%nat) (repo q) (StaleLockTimeout (config q)) with
  | inr _ => q
  | inl jobs => q <| repo := release_stale (clk_from clk 1) (repo q) jobs |>
  end.
End queue_ops.

(** ** Laws of a repository that does not fail

    [RepoLaws] allows any call to return an error.  The liveness theorems need
    a storage that accepts an update of a stored job, an unlock by the holder
    of the lock and a lock on a queued job that nobody holds. *)
Class RepoReliable (R : Type) `{JobRepository R} : Prop := {
  update_total r j j0 : Get r (ID j) = inl j0 → ∃ r', RepoUpdate r j = (None, r');
  unlock_total r id w j : Get r id = inl j → LockedBy j = w → ∃ r', UnlockJob r id w = (None, r');
  lock_total now r id w d j : Get r id = inl j → Status j = StatusQueued → LockedBy j = "" →
    ∃ j' r', LockForProcessing now r id w d = (inl (Some j'), r') }.

#[export] Instance MemRepo_reliable : RepoReliable MemRepo.
Proof.
  split.
  - intros r j j0 [Hl _]%mem_get_id. exists (mem_put r j). simpl. by rewrite Hl.
  - intros r id w j Hg Hw. simpl in *. unfold mem_modify. rewrite Hg, Hw, String.eqb_refl. by eexists.
  - intros now r id w d j Hg _ Hl. simpl in *. unfold mem_modify. rewrite Hg. unfold IsLocked. rewrite Hl.
    destruct (LockExpiresAt j); simpl; by eexists _, _.
Qed.

#[local] Arguments IncrementRetries : simpl never.
#[local] Arguments Start : simpl never.
#[local] Arguments Complete : simpl never.
#[local] Arguments Fail : simpl never.

Section queue_laws.
Context {R : Type} `{RepoLaws R}.
Implicit Types (q : queue R) (r : R) (j : Job).

Lemma same_except_refl r id : same_except r r id.
Proof. by intros k _. Qed.
Lemma same_except_trans r1 r2 r3 id : same_except r1 r2 id → same_except r2 r3 id → same_except r1 r3 id.
Proof. intros H1 H2 k Hk. by rewrite H2, H1. Qed.

Lemma update_frame r j o r' : RepoUpdate r j = (o, r') → same_except r r' (ID j).
Proof. destruct o; intros E; [by apply update_fail in E as ->|]. by apply update_spec in E as [_ E]. Qed.
Lemma unlock_frame r id w o r' : UnlockJob r id w = (o, r') → same_except r r' id.
Proof. destruct o; intros E; [by apply unlock_fail in E as ->|]. by apply unlock_spec in E as (? & ? & _ & _ & E). Qed.

Lemma set_defaults_frame c j :
  Status (set_defaults c j) = Status j ∧ ID (set_defaults c j) = ID j ∧
  identity (set_defaults c j) = identity j ∧ ScheduledAt (set_defaults c j) = ScheduledAt j.
Proof. unfold set_defaults, identity. destruct (MaxRetries j =? 0); simpl; by destruct (RetryDelay j =? 0). Qed.

Lemma set_defaults_values c j :
  MaxRetries (set_defaults c j) = (if MaxRetries j =? 0 then CfgMaxRetries c else MaxRetries j) ∧
  RetryDelay (set_defaults c j) = (if RetryDelay j =? 0 then CfgRetryDelay c else RetryDelay j).
Proof.
  unfold set_defaults. destruct (MaxRetries j =? 0) eqn:E1; simpl;
    destruct (RetryDelay j =? 0) eqn:E2; simpl; by rewrite ?E1, ?E2.
Qed.

Lemma Queue_ok now j j' : Queue now j = Ok j' →
  Status j = StatusPending ∧ Status j' = StatusQueued ∧ QueuedAt j' = Some now ∧ ID j' = ID j ∧
  MaxRetries j' = MaxRetries j ∧ RetryDelay j' = RetryDelay j ∧ ScheduledAt j' = ScheduledAt j.
Proof. unfold Queue. destruct (String.eqb_spec (Status j) StatusPending); simpl; [by intros [= <-]|done]. Qed.

(** C35: [Enqueue] accepts exactly a valid pending job on a running queue whose
    repository takes it.  On success the stored job is queued now, with the
    configured retry limit and delay where the job had none, no other job is
    touched and the counter advances by one; on any error the repository and
    the counters are as before. *)
Theorem enqueue_spec now q j e j' q' :
  Enqueue now q j = (e, j', q') →
  match e with
  | Some _ => q' = q
  | None =>
      running q = true ∧ Validate j = Ok tt ∧ Status j = StatusPending ∧
      Get (repo q') (ID j) = inl j' ∧ same_except (repo q) (repo q') (ID j) ∧
      Status j' = StatusQueued ∧ QueuedAt j' = Some now ∧
      MaxRetries j' = (if MaxRetries j =? 0 then CfgMaxRetries (config q) else MaxRetries j) ∧
      RetryDelay j' = (if RetryDelay j =? 0 then CfgRetryDelay (config q) else RetryDelay j) ∧
      stats q' = inc_enqueued (stats q)
  end.
Proof.
  unfold Enqueue. destruct (running q) eqn:Hr; simpl; [|by intros [= <- _ <-]].
  destruct (Validate j) as [[]|er|w] eqn:Hv; [|by intros [= <- _ <-]..].
  destruct (Queue now _) as [j1|er|w] eqn:Hq; [|by intros [= <- _ <-]..].
  apply Queue_ok in Hq as (Hs & Hs1 & Ht & Hid & Hm & Hd & _).
  destruct (set_defaults_frame (config q) j) as (Hs0 & Hi0 & _).
  destruct (set_defaults_values (config q) j) as (Hm0 & Hd0).
  destruct (Create (repo q) j1) as [[er|] r1] eqn:Hc; intros [= <- <- <-].
  - apply create_fail in Hc as ->. by destruct q.
  - apply create_spec in Hc as [Hg Hse]. simpl. rewrite Hid, Hi0 in *.
    split_and!; congruence || done.
Qed.

(** ** Choosing a job *)

Lemma checkDependencies_true r deps :
  checkDependencies_loop r deps = inl true →
  ∀ d, d ∈ deps → ∃ dj, Get r d = inl dj ∧ Status dj = StatusCompleted.
Proof.
  induction deps as [|d deps IH]; simpl; [set_solver|].
  destruct (Get r d) as [dj|e] eqn:E; [|done].
  destruct (String.eqb_spec (Status dj) StatusCompleted); simpl; [|done].
  intros Hl d' [->|Hd]%elem_of_cons; [by eexists|]. by apply (IH Hl).
Qed.

Lemma deps_ready_true r j : deps_ready r j = true →
  ∀ d, d ∈ Dependencies j → ∃ dj, Get r d = inl dj ∧ Status dj = StatusCompleted.
Proof.
  unfold deps_ready, HasDependencies, checkDependencies. destruct (Dependencies j) as [|d l] eqn:E; [set_solver|].
  simpl (negb _). cbv beta iota. intros Hc. apply checkDependencies_true.
  by destruct (checkDependencies_loop r (d :: l)) as [b|]; [subst b|].
Qed.

(** A job the scan passes over. *)
Definition unavailable now r w d j : Prop :=
  deps_ready r j = false ∨ ∀ jl, (LockForProcessing now r (ID j) w d).1 ≠ inl (Some jl).

Lemma try_lock_first_spec now r w d l o r' :
  try_lock_first now r w d l = (o, r') →
  match o with
  | inl jl => ∃ j, j ∈ l ∧ deps_ready r j = true ∧
                   LockForProcessing now r (ID j) w d = (inl (Some jl), r')
  | inr e => r' = r ∧ e = ErrNoJobsAvailable ∧ ∀ j, j ∈ l → unavailable now r w d j
  end.
Proof.
  revert r. induction l as [|j l IH]; intros r; simpl.
  { intros [= <- <-]. split_and!; try done. set_solver. }
  destruct (deps_ready r j) eqn:Er.
  - destruct (LockForProcessing now r (ID j) w d) as [[[jl|]|e] r1] eqn:El.
    { intros [= <- <-]. exists j. split_and!; try done. set_solver. }
    all: assert (r1 = r) as -> by (eapply lock_none; [done|]; by intros ?); intros Ht; apply IH in Ht; destruct o.
    all: try (destruct Ht as (k & ? & ?); exists k; split; [set_solver|done]).
    all: destruct Ht as (-> & -> & Ht); split_and!; try done.
    all: intros k [->|Hk]%elem_of_cons; [right; rewrite El; by intros|by apply Ht].
  - intros Ht. apply IH in Ht. destruct o.
    + destruct Ht as (k & ? & ?); exists k; split; [set_solver|done].
    + destruct Ht as (-> & -> & Ht); split_and!; try done.
      intros k [->|Hk]%elem_of_cons; [by left|by apply Ht].
Qed.

(** C9: the job [getNextJob] hands to a worker is stored, is locked by that
    worker and by nothing else changed, and all its dependencies are stored and
    completed; no other job is touched.  It reports that no job is available
    only when each pending job it listed, and it lists ten at most, has an open
    dependency or could not be locked, and then it changes nothing. *)
Theorem get_next_job_safe now q w o q' :
  getNextJob now q w = (o, q') →
  match o with
  | inl j => ∃ j0 s t upd, Get (repo q) (ID j) = inl j0 ∧ j = with_lock w s t upd j0 ∧
               Get (repo q') (ID j) = inl j ∧ same_except (repo q) (repo q') (ID j) ∧
               ∀ d, d ∈ Dependencies j → ∃ dj, Get (repo q) d = inl dj ∧ Status dj = StatusCompleted
  | inr e => q' = q ∧ (e = ErrNoJobsAvailable → ∀ l j, ListPending (repo q) 10 = inl l → j ∈ l →
               unavailable now (repo q) w (LockDuration (config q)) j)
  end.
Proof.
  unfold getNextJob. destruct (ListPending (repo q) 10) as [l|e] eqn:El; [|by intros [= <- <-]].
  destruct l as [|j1 l]; [intros [= <- <-]; split; [done|]; intros _ l' j [= <-]; set_solver|].
  remember (j1 :: l) as l0. destruct (try_lock_first _ _ _ _ l0) as [o1 r1] eqn:Et. intros [= <- <-].
  apply try_lock_first_spec in Et. destruct o1 as [j|e].
  - destruct Et as (k & Hk & Hr & Hl). apply lock_spec in Hl as (j0 & s & t & upd & Hg & -> & Hg' & Hse).
    pose proof (get_id _ _ _ Hg) as Hid. rewrite (pending_spec _ _ _ El k Hk) in Hg. injection Hg as ->.
    exists j0, s, t, upd. simpl. split_and!; try done.
    + by apply (pending_spec _ _ _ El).
    + by apply deps_ready_true.
  - destruct Et as (-> & _ & Hu). split; [by destruct q|]. intros _ l' j [= <-]. apply Hu.
Qed.

(** ** Executing a job *)

(** The processor leaves the scheduling fields of the job alone. *)
Definition proc_frame (j j' : Job) : Prop :=
  ID j' = ID j ∧ Status j' = Status j ∧ RetryCount j' = RetryCount j ∧ MaxRetries j' = MaxRetries j ∧
  LockedBy j' = LockedBy j.

(** What one failed or successful execution makes of a job. *)
Definition outcome (err : option goerror) (j j' : Job) : Prop :=
  MaxRetries j' = MaxRetries j ∧
  match err with
  | None => Status j' = StatusCompleted ∧ RetryCount j' = RetryCount j
  | Some e => ErrorMessage j' = Error e ∧
              if RetryCount j <? MaxRetries j
              then Status j' = StatusQueued ∧ RetryCount j' = RetryCount j + 1
              else Status j' = StatusFailed ∧ RetryCount j' = RetryCount j
  end.

Lemma record_execution_time_keeps now j :
  let j' := record_execution_time now j in
  ID j' = ID j ∧ Status j' = Status j ∧ RetryCount j' = RetryCount j ∧ MaxRetries j' = MaxRetries j ∧
  LockedBy j' = LockedBy j ∧ ErrorMessage j' = ErrorMessage j ∧ RetryDelay j' = RetryDelay j.
Proof. unfold record_execution_time. by destruct (StartedAt j). Qed.

Lemma IncrementRetries_keeps n1 n2 j :
  let j' := IncrementRetries n1 n2 j in
  ID j' = ID j ∧ RetryCount j' = wrap64 (RetryCount j + 1) ∧ MaxRetries j' = MaxRetries j ∧
  LockedBy j' = LockedBy j ∧ ErrorMessage j' = ErrorMessage j.
Proof. unfold IncrementRetries. simpl. by destruct (0 <? RetryDelay j). Qed.

Lemma Fail_ok now m j j' : Fail now m j = Ok j' →
  ID j' = ID j ∧ Status j' = StatusFailed ∧ RetryCount j' = RetryCount j ∧ MaxRetries j' = MaxRetries j ∧
  LockedBy j' = LockedBy j ∧ ErrorMessage j' = m.
Proof.
  unfold Fail. destruct (_ || _); [done|]. intros [= <-].
  match goal with |- context [record_execution_time now ?x] =>
    destruct (record_execution_time_keeps now x) as (-> & -> & -> & -> & -> & -> & _) end. done.
Qed.

Lemma Complete_ok now j j' : Complete now j = Ok j' →
  ID j' = ID j ∧ Status j' = StatusCompleted ∧ RetryCount j' = RetryCount j ∧
  MaxRetries j' = MaxRetries j ∧ LockedBy j' = LockedBy j.
Proof.
  unfold Complete. destruct (negb _); [done|]. intros [= <-].
  match goal with |- context [record_execution_time now ?x] =>
    destruct (record_execution_time_keeps now x) as (-> & -> & -> & -> & -> & _) end. done.
Qed.

Context `{!RepoReliable R}.

Lemma stored_update r j j0 :
  Get r (ID j) = inl j0 → ∃ r', RepoUpdate r j = (None, r') ∧ Get r' (ID j) = inl j ∧ same_except r r' (ID j).
Proof. intros [r' E]%update_total. exists r'. split; [done|]. by apply update_spec. Qed.

Lemma stored_unlock r id w j :
  Get r id = inl j → LockedBy j = w →
  ∃ r' upd, UnlockJob r id w = (None, r') ∧ Get r' id = inl (with_lock "" None None upd j) ∧ same_except r r' id.
Proof.
  intros Hg Hw. destruct (unlock_total r id w j Hg Hw) as [r' E].
  destruct (unlock_spec _ _ _ _ E) as (j1 & upd & Hg1 & Hg' & Hs). exists r', upd.
  rewrite Hg in Hg1. by injection Hg1 as <-.
Qed.

Lemma handleJobError_spec clk q j j0 e :
  Get (repo q) (ID j) = inl j0 → Status j = StatusRunning → in_int64 (MaxRetries j) →
  in_int64 (RetryCount j) →
  ∃ j', Get (repo (handleJobError clk q j e)) (ID j) = inl j' ∧ ID j' = ID j ∧ LockedBy j' = LockedBy j ∧
        outcome (Some e) j j' ∧ same_except (repo q) (repo (handleJobError clk q j e)) (ID j) ∧
        failedCount (stats (handleJobError clk q j e)) = wrap64 (failedCount (stats q) + 1) ∧
        processedCount (stats (handleJobError clk q j e)) = processedCount (stats q).
Proof.
  intros Hg Hst Hm64 Hr64. unfold handleJobError.
  destruct (Fail (clk 0%nat) (Error e) j) as [j1|er|w] eqn:Hf.
  2,3: exfalso; revert Hf; unfold Fail; rewrite Hst; done.
  apply Fail_ok in Hf as (Hid & Hs1 & Hrc & Hmr & Hlb & Hem). unfold outcome, CanRetry.
  rewrite Hs1, Hrc, Hmr. simpl (String.eqb _ _ && _).
  destruct (RetryCount j <? MaxRetries j) eqn:Hc; simpl.
  - destruct (IncrementRetries_keeps (clk 1%nat) (clk 2%nat) j1) as (Ki & Kr & Km & Kl & Ke).
    match goal with |- context [RepoUpdate (repo q) ?x] => set (j2 := x) end.
    assert (ID j2 = ID j) as Hi2 by (unfold j2; simpl; congruence).
    destruct (stored_update (repo q) j2 j0) as (r' & E & Hg' & Hse); [by rewrite Hi2|].
    rewrite Hi2 in *. rewrite E; simpl. exists j2. rewrite wrap64_id in Kr.
    2:{ rewrite Hrc. unfold in_int64, minInt64, maxInt64 in *. lia. }
    unfold j2; simpl. split_and!; congruence || done.
  - destruct (stored_update (repo q) j1 j0) as (r' & E & Hg' & Hse); [by rewrite Hid|].
    rewrite Hid in *. rewrite E; simpl. exists j1. split_and!; congruence || done.
Qed.

Lemma Start_ok now j : Status j = StatusQueued →
  ∃ j', Start now j = Ok j' ∧ proc_frame (j <| Status := StatusRunning |>) j'.
Proof. intros Hs. unfold Start. rewrite Hs. simpl. eexists. split; [done|]. by unfold proc_frame; simpl. Qed.

Lemma record_wait_frame now q j :
  repo (record_wait now q j) = repo q ∧ config (record_wait now q j) = config q ∧
  processedCount (stats (record_wait now q j)) = processedCount (stats q) ∧
  failedCount (stats (record_wait now q j)) = failedCount (stats q).
Proof. unfold record_wait. by destruct (QueuedAt j). Qed.

(** The job a worker executes: stored, queued and locked by the worker, with
    its counters in the range of their type. *)
Definition locked_queued q j w : Prop :=
  Get (repo q) (ID j) = inl j ∧ Status j = StatusQueued ∧ LockedBy j = w ∧
  in_int64 (RetryCount j) ∧ in_int64 (MaxRetries j).

Lemma executeJob_outcome clk proc q j w :
  locked_queued q j w → (∀ k, proc_frame k (proc k).2) →
  ∃ err j', let q' := executeJob clk proc q j w in
    (∃ k, Start (clk 1%nat) j = Ok k ∧ err = (proc k).1) ∧
    Get (repo q') (ID j) = inl j' ∧ ID j' = ID j ∧ LockedBy j' = "" ∧ outcome err j j' ∧
    same_except (repo q) (repo q') (ID j) ∧
    processedCount (stats q') = (if err is None then wrap64 (processedCount (stats q) + 1)
                                 else processedCount (stats q)) ∧
    failedCount (stats q') = (if err is None then failedCount (stats q)
                              else wrap64 (failedCount (stats q) + 1)).
Proof.
  intros (Hg & Hs & Hl & Hr64 & Hm64) Hp. unfold executeJob.
  destruct (record_wait_frame (clk 0%nat) q j) as (Hrepo & _ & Hpc & Hfc).
  destruct (Start_ok (clk 1%nat) j Hs) as (j1 & -> & Hi1 & Hs1 & Hr1 & Hm1 & Hl1). simpl in *.
  destruct (stored_update (repo q) j1 j) as (r1 & E1 & Hg1 & Hse1); [by rewrite Hi1|].
  rewrite Hrepo, E1. destruct (proc j1) as [err j2] eqn:Ep. specialize (Hp j1). rewrite Ep in Hp.
  destruct Hp as (Hi2 & Hs2 & Hr2 & Hm2 & Hl2); simpl in *. exists err.
  set (q1 := add_count _ _). assert (Get (repo q1) (ID j2) = inl j1) as Hgq by (simpl; congruence).
  rewrite <- Hi1, <- Hi2 in *. destruct err as [e|].
  - destruct (handleJobError_spec (clk_from clk 4) q1 j2 j1 e Hgq) as (j3 & Hg3 & Hi3 & Hl3 & Ho & Hse3 & Hf & Hpr);
      [congruence..|].
    destruct (stored_unlock _ _ w _ Hg3) as (r4 & upd & E4 & Hg4 & Hse4); [congruence|].
    rewrite E4. exists (with_lock "" None None upd j3). split_and!; simpl.
    + by exists j1; rewrite Ep.
    + done. + congruence. + done.
    + revert Ho. unfold outcome. simpl. rewrite Hr2, Hm2, Hr1, Hm1. done.
    + eauto using same_except_trans.
    + rewrite Hpr. simpl. done.
    + rewrite Hf. simpl. by rewrite Hfc.
  - destruct (Complete (clk 4%nat) j2) as [j3|er|p] eqn:Hc.
    2,3: exfalso; revert Hc; unfold Complete; rewrite Hs2, Hs1; done.
    apply Complete_ok in Hc as (Hi3 & Hs3 & Hr3 & Hm3 & Hl3).
    destruct (stored_update r1 j3 j1) as (r3 & E3 & Hg3 & Hse3); [by rewrite Hi3|].
    rewrite Hi3 in *. rewrite E3; simpl.
    destruct (stored_unlock _ _ w _ Hg3) as (r4 & upd & E4 & Hg4 & Hse4); [congruence|].
    rewrite E4. exists (with_lock "" None None upd j3). split_and!; simpl.
    + by exists j1; rewrite Ep.
    + done. + congruence. + done.
    + unfold outcome. simpl. split_and!; congruence.
    + eauto using same_except_trans.
    + by rewrite Hpc.
    + done.
Qed.

(** ** Retries are bounded *)

(** One attempt at a job: lock it for the worker and execute it. *)
Definition attempt (run : (nat → Time) * (Job → option goerror * Job) * string) (id : string) q : queue R :=
  let '(clk, proc, w) := run in
  match LockForProcessing (clk 0%nat) (repo q) id w (LockDuration (config q)) with
  | (inl (Some j), r) => executeJob (clk_from clk 1) proc (q <| repo := r |>) j w
  | (_, r) => q <| repo := r |>
  end.

(** A processor that always fails and keeps to its side of the interface. *)
Definition failing (run : (nat → Time) * (Job → option goerror * Job) * string) : Prop :=
  ∀ k, (run.1.2 k).1 ≠ None ∧ proc_frame k (run.1.2 k).2.

(** A stored job nobody holds, with its retry state. *)
Definition idle_job q (id : string) (s : JobStatus) (n m : Z) : Prop :=
  ∃ j, Get (repo q) id = inl j ∧ Status j = s ∧ LockedBy j = "" ∧ RetryCount j = n ∧ MaxRetries j = m.

Lemma attempt_failing run id q n m :
  failing run → in_int64 n → in_int64 m → idle_job q id StatusQueued n m →
  idle_job (attempt run id q) id (if n <? m then StatusQueued else StatusFailed) (if n <? m then n + 1 else n) m.
Proof.
  destruct run as [[clk proc] w]. intros Hf Hn Hm (j & Hg & Hs & Hl & Hrc & Hmr). unfold attempt.
  destruct (lock_total (clk 0%nat) _ _ w (LockDuration (config q)) _ Hg Hs Hl) as (j1 & r1 & El). rewrite El.
  destruct (lock_spec _ _ _ _ _ _ _ El) as (j0 & s & t & upd & Hg0 & -> & Hg1 & _).
  rewrite Hg in Hg0. injection Hg0 as <-. pose proof (get_id _ _ _ Hg) as Hid.
  set (j1 := with_lock w s t upd j) in *. set (q1 := q <| repo := r1 |>).
  destruct (executeJob_outcome (clk_from clk 1) proc q1 j1 w) as (err & j2 & (k & _ & Ek) & Hg2 & _ & Hl2 & Ho & _).
  { unfold locked_queued. subst j1; simpl. rewrite Hrc, Hmr. split_and!; try done. by rewrite Hid. }
  { intros k. apply Hf. }
  destruct (Hf k) as [Hne _]. simpl in Hne. destruct err as [e|]; [|congruence].
  unfold outcome in Ho. subst j1; simpl in *. rewrite Hrc, Hmr in Ho. destruct Ho as (Hm2 & _ & Ho).
  exists j2. rewrite Hid in Hg2. destruct (n <? m); destruct Ho; done.
Qed.

(** C7: retries are bounded.  A queued job whose every execution fails is
    queued again after each of its first [MaxRetries] executions, with the
    retry counter one higher each time, and is failed for good by the next
    one: [MaxRetries + 1] executions in all. *)
Theorem retries_bounded runs id q m :
  0 ≤ m < maxInt64 → Forall failing runs → idle_job q id StatusQueued 0 m →
  Z.of_nat (length runs) ≤ m + 1 →
  idle_job (foldl (λ q run, attempt run id q) q runs) id
    (if Z.of_nat (length runs) =? m + 1 then StatusFailed else StatusQueued)
    (Z.min (Z.of_nat (length runs)) m) m.
Proof.
  intros Hm Hf Hq. induction runs as [|run runs IH] using rev_ind; intros Hlen.
  - replace (Z.of_nat (length [])) with 0 by done. destruct (Z.eqb_spec 0 (m + 1)); [lia|].
    by replace (Z.min 0 m) with 0 by lia.
  - rewrite length_app in *. simpl in *. apply Forall_app in Hf as [Hf Hr%Forall_inv].
    rewrite foldl_app. simpl. specialize (IH Hf ltac:(lia)).
    destruct (Z.eqb_spec (Z.of_nat (length runs)) (m + 1)); [lia|].
    apply (attempt_failing run id _ _ _ Hr) in IH; [|unfold in_int64, minInt64, maxInt64 in *; lia..].
    replace (Z.min (Z.of_nat (length runs + 1)) m) with
      (if Z.min (Z.of_nat (length runs)) m <? m then Z.min (Z.of_nat (length runs)) m + 1
       else Z.min (Z.of_nat (length runs)) m) by (destruct (Z.ltb_spec (Z.min (Z.of_nat (length runs)) m) m); lia).
    destruct (Z.ltb_spec (Z.min (Z.of_nat (length runs)) m) m);
      destruct (Z.eqb_spec (Z.of_nat (length runs + 1)) (m + 1)); try lia; done.
Qed.
End queue_laws.

(** ** Scheduled jobs, cancellation and stale locks *)

Section maintenance.
Context {R : Type} `{RepoLaws R}.
Implicit Types (q : queue R) (r : R) (j : Job).

(** Cancelling.  [Cancel] succeeds only on a stored job that is not
    finished; the stored job is then cancelled with the call's time as its
    completion time and nothing else in the repository moves.  On an error
    nothing changes at all. *)
Theorem cancel_spec now q id e q' :
  CancelJob now q id = (e, q') →
  match e with
  | Some _ => q' = q
  | None => ∃ j j', Get (repo q) id = inl j ∧ IsFinished j = false ∧ Get (repo q') id = inl j' ∧
              Status j' = StatusCancelled ∧ CompletedAt j' = Some now ∧ LockedBy j' = LockedBy j ∧
              same_except (repo q) (repo q') id ∧ stats q' = stats q
  end.
Proof.
  unfold CancelJob. destruct (Get (repo q) id) as [j|er] eqn:Eg; [|by intros [= <- <-]].
  destruct (IsFinished j) eqn:Ef; [by intros [= <- <-]|].
  destruct (Cancel now j) as [j1|er|w] eqn:Ec; [|by intros [= <- <-]..].
  assert (ID j1 = id ∧ Status j1 = StatusCancelled ∧ CompletedAt j1 = Some now ∧ LockedBy j1 = LockedBy j)
    as (Hi & Hs & Hc & Hl).
  { rewrite <- (get_id _ _ _ Eg). revert Ec. unfold Cancel, record_execution_time.
    destruct (_ || _); [done|]. simpl. by destruct (StartedAt j); intros [= <-]. }
  destruct (RepoUpdate (repo q) j1) as [[er|] r1] eqn:Eu; intros [= <- <-].
  - apply update_fail in Eu as ->. by destruct q.
  - apply update_spec in Eu as [Hg Hse]. rewrite Hi in *. by exists j, j1.
Qed.

Lemma queue_scheduled_keeps clk r l k :
  (∀ j, j ∈ l → ID j = k → Status j ≠ StatusPending) → Get (queue_scheduled clk r l) k = Get r k.
Proof.
  revert clk r. induction l as [|j l IH]; intros clk r Hl; simpl; [done|].
  rewrite IH by (intros; apply Hl; [by right|done]).
  destruct (Queue (clk 0%nat) j) as [j'|er|w] eqn:Eq; [|done..].
  apply Queue_ok in Eq as (Hs & _ & _ & Hi & _).
  destruct (RepoUpdate r j') as [o r'] eqn:Eu. simpl. apply (update_frame _ _ _ _ Eu).
  rewrite Hi. intros Hk. apply (Hl j); [by left|done..].
Qed.

Lemma processScheduledJobs_keeps clk q k j :
  Get (repo q) k = inl j → Status j ≠ StatusPending → Get (repo (processScheduledJobs clk q)) k = inl j.
Proof.
  intros Hg Hs. unfold processScheduledJobs. destruct (ListScheduled _ _) as [l|e] eqn:El; [|done]. simpl.
  rewrite queue_scheduled_keeps; [done|]. intros j1 Hj1 <-.
  rewrite (scheduled_spec _ _ _ El _ Hj1) in Hg. by injection Hg as ->.
Qed.

(** A delayed job is not held back by the queue.  [EnqueueWithDelay]
    stores it in status queued at once, with its due time recorded; the
    scheduled-job poller, which is to move due jobs to the queue, can only move
    pending jobs and so never touches it, however late it runs. *)
Theorem delayed_job_queued_at_once now now' q j d j' q' :
  EnqueueWithDelay now now' q j d = (None, j', q') →
  Get (repo q') (ID j) = inl j' ∧ Status j' = StatusQueued ∧ ScheduledAt j' = Some (now + d) ∧
  ∀ clks, Get (repo (foldl (λ q clk, processScheduledJobs clk q) q' clks)) (ID j) = inl j'.
Proof.
  unfold EnqueueWithDelay. change (ID j) with (ID (j <| ScheduledAt := Some (time_add now d) |>)).
  assert (ScheduledAt (j <| ScheduledAt := Some (time_add now d) |>) = Some (now + d)) as Hk by done.
  revert Hk. generalize (j <| ScheduledAt := Some (time_add now d) |>). intros k Hk. unfold Enqueue.
  destruct (running q); simpl; [|done]. destruct (Validate _) as [[]| |]; [|done..].
  destruct (set_defaults_frame (config q) k) as (_ & Hi0 & _ & Hsch).
  destruct (Queue now' _) as [j1| |] eqn:Eq; [|done..].
  apply Queue_ok in Eq as (_ & Hs & _ & Hi & _ & _ & Ht).
  destruct (Create (repo q) j1) as [[er|] r1] eqn:Ec; [done|]. intros [= <- <-].
  apply create_spec in Ec as [Hg _]. rewrite Hi, Hi0 in Hg. split_and!; try done; [congruence|].
  intros clks. set (q1 := add_count _ _). assert (Get (repo q1) (ID k) = inl j1) as Hg1 by done.
  clearbody q1. revert q1 Hg1. induction clks as [|clk clks IH]; intros q1 Hg1; simpl; [done|].
  apply IH, processScheduledJobs_keeps; [done|]. by rewrite Hs.
Qed.

Context `{!RepoReliable R}.

Lemma release_stale_spec clk r l :
  NoDup (ID <$> l) → (∀ j, j ∈ l → Get r (ID j) = inl j) →
  (∀ j, j ∈ l → ∃ t, Get (release_stale clk r l) (ID j) = inl (return_to_queue t j)) ∧
  (∀ k, k ∉ ID <$> l → Get (release_stale clk r l) k = Get r k).
Proof.
  revert clk r. induction l as [|j l IH]; intros clk r Hn Hg; [split; [set_solver|done]|].
  rewrite fmap_cons in *. apply NoDup_cons in Hn as [Hj Hn]. simpl.
  destruct (update_total r (return_to_queue (clk 0%nat) j) j) as [r1 E1]; [apply (Hg j); by left|].
  rewrite E1. simpl. apply update_spec in E1 as [Hg1 Hse]. change (ID (return_to_queue _ j)) with (ID j) in *.
  assert (∀ i, i ∈ l → ID i ≠ ID j) as Hne.
  { intros i Hi E. apply Hj. rewrite <- E. by apply list_elem_of_fmap_2. }
  destruct (IH (clk_from clk 1) r1 Hn) as [H1 H2].
  { intros i Hi. rewrite Hse by auto. apply Hg. by right. }
  split.
  - intros i [->|Hi]%elem_of_cons; [|by apply H1]. exists (clk 0%nat). by rewrite H2.
  - intros k [Hk1 Hk2]%not_elem_of_cons. rewrite H2 by done. by apply Hse.
Qed.

(** The stale-lock cleaner, on a repository that accepts its updates,
    frees every job the repository reports as stale and puts it back in the
    queue, whatever its status was: a cancelled job whose lock was never
    released becomes queued again.  Other jobs are untouched. *)
Theorem stale_locks_requeued clk q l :
  GetStaleJobs (clk 0%nat) (repo q) (StaleLockTimeout (config q)) = inl l →
  (∀ j, j ∈ l → ∃ j', Get (repo q) (ID j) = inl j ∧ Get (repo (cleanStaleLocks clk q)) (ID j) = inl j' ∧
        Status j' = StatusQueued ∧ LockedBy j' = "" ∧ LockExpiresAt j' = None) ∧
  (∀ k, k ∉ ID <$> l → Get (repo (cleanStaleLocks clk q)) k = Get (repo q) k).
Proof.
  intros El. unfold cleanStaleLocks. rewrite El. simpl. destruct (stale_spec _ _ _ _ El) as [Hn Hg].
  destruct (release_stale_spec (clk_from clk 1) (repo q) l Hn Hg) as [H1 H2]. split; [|done].
  intros j Hj. destruct (H1 j Hj) as [t Ht]. exists (return_to_queue t j). by auto.
Qed.
End maintenance.

(** ** The worker pool

    [Workers] goroutines share the channel of worker IDs: each takes an ID,
    processes one job under it and puts the ID back.  [busy] are the IDs in
    hand.  The steps of different workers, and the calls of clients and of the
    maintenance goroutines, come in any order. *)

Section pool.
Context {R : Type} `{JobRepository R}.
Implicit Types (q : queue R).

Inductive pool_step : queue R * list string → queue R * list string → Prop :=
  | pool_take q w ws busy : workerIDs q = w :: ws →
      pool_step (q, busy) (q <| workerIDs := ws |>, w :: busy)
  | pool_process q w busy clk proc : w ∈ busy → pool_step (q, busy) (processNextJob clk proc q w, busy)
  | pool_put q w busy : w ∈ busy →
      pool_step (q, busy) (q <| workerIDs := workerIDs q ++ [w] |>, remove_first w busy)
  | pool_enqueue q busy now j : pool_step (q, busy) ((Enqueue now q j).2, busy)
  | pool_cancel q busy now id : pool_step (q, busy) ((CancelJob now q id).2, busy)
  | pool_poll q busy clk : pool_step (q, busy) (processScheduledJobs clk q, busy)
  | pool_clean q busy clk : pool_step (q, busy) (cleanStaleLocks clk q, busy).

(** The operations leave the pool and the configuration alone. *)
Definition pool_of q := (workerIDs q, config q).

Lemma handleJobError_pool clk q j e : pool_of (handleJobError clk q j e) = pool_of q.
Proof. unfold handleJobError. destruct (Fail _ _ _); [|done..]. by destruct (CanRetry _). Qed.

Lemma executeJob_pool clk proc q j w : pool_of (executeJob clk proc q j w) = pool_of q.
Proof.
  unfold executeJob. assert (pool_of (record_wait (clk 0%nat) q j) = pool_of q) as <-.
  { unfold record_wait. by destruct (QueuedAt j). }
  destruct (Start _ _); [|by apply handleJobError_pool|done].
  destruct (RepoUpdate _ _) as [[e|] r]; [done|]. destruct (proc a) as [[e|] j'].
  - change (pool_of (?q <| repo := ?r |>)) with (pool_of q). by rewrite handleJobError_pool.
  - destruct (Complete _ _); [|done..]. by destruct (RepoUpdate _ _) as [[e|] r'].
Qed.

Lemma pool_frame q :
  (∀ clk proc w, pool_of (processNextJob clk proc q w) = pool_of q) ∧
  (∀ now j, pool_of (Enqueue now q j).2 = pool_of q) ∧
  (∀ now id, pool_of (CancelJob now q id).2 = pool_of q) ∧
  (∀ clk, pool_of (processScheduledJobs clk q) = pool_of q) ∧
  (∀ clk, pool_of (cleanStaleLocks clk q) = pool_of q).
Proof.
  split_and!; intros.
  - unfold processNextJob, getNextJob. destruct (ListPending _ _) as [[|j l]|e]; [done| |done].
    destruct (try_lock_first _ _ _ _ _) as [[j1|e] r]; [|done]. by rewrite executeJob_pool.
  - unfold Enqueue. destruct (negb _); [done|]. destruct (Validate _); [|done..].
    destruct (Queue _ _); [|done..]. by destruct (Create _ _) as [[e|] r].
  - unfold CancelJob. destruct (Get _ _); [|done]. destruct (IsFinished _); [done|].
    destruct (Cancel _ _); [|done..]. by destruct (RepoUpdate _ _) as [[e|] r].
  - unfold processScheduledJobs. by destruct (ListScheduled _ _).
  - unfold cleanStaleLocks. by destruct (GetStaleJobs _ _ _).
Qed.

Definition pool_inv (c : Config) (x : queue R * list string) : Prop :=
  config x.1 = c ∧ workerIDs x.1 ++ x.2 ≡ₚ worker_ids (Workers c).

Lemma remove_first_Permutation w (l : list string) : w ∈ l → w :: remove_first w l ≡ₚ l.
Proof.
  induction l as [|x l IH]; [set_solver|]. simpl. destruct (String.eqb_spec x w) as [->|Hne]; [done|].
  intros [->|Hw]%elem_of_cons; [done|]. by rewrite Permutation_swap, (IH Hw).
Qed.

Lemma pool_step_inv c x y : pool_step x y → pool_inv c x → pool_inv c y.
Proof.
  intros Hs [Hc Hp]. pose proof (pool_frame x.1) as (F1 & F2 & F3 & F4 & F5). unfold pool_of in *.
  destruct Hs as [q w ws busy E|q w busy clk proc _|q w busy Hw|q busy now j|q busy now i|q busy clk|q busy clk];
    unfold pool_inv; simpl in *.
  - split; [done|]. rewrite E in Hp. by rewrite <- Hp, <- Permutation_middle.
  - specialize (F1 clk proc w). by injection F1 as -> ->.
  - split; [done|]. rewrite <- app_assoc. simpl. by rewrite remove_first_Permutation.
  - specialize (F2 now j). by injection F2 as -> ->.
  - specialize (F3 now i). by injection F3 as -> ->.
  - specialize (F4 clk). by injection F4 as -> ->.
  - specialize (F5 clk). by injection F5 as -> ->.
Qed.

Lemma worker_ids_NoDup n : NoDup (worker_ids n).
Proof.
  unfold worker_ids. apply NoDup_fmap_2_strong; [|apply NoDup_ListNoDup, seq_NoDup].
  intros i k _ _ E. assert (pretty (Z.of_nat i) = pretty (Z.of_nat k)) as E'%(inj pretty); [|lia].
  by injection E.
Qed.

(** No worker ID is ever lost or shared.  However the steps of the workers,
    the clients and the maintenance tasks interleave, the free IDs and the IDs
    in use are together exactly the initial pool without repetition, so two
    busy workers never process under the same ID, at most [Workers] are busy,
    and the reported number of active workers is the true one. *)
Theorem worker_pool_conserved c r0 q busy :
  0 ≤ Workers c → rtc pool_step (NewQueue c r0, []) (q, busy) →
  NoDup busy ∧ (∀ w, w ∈ busy → w ∉ workerIDs q) ∧ Z.of_nat (length busy) ≤ Workers c ∧
  WorkersActive (GetStats q) = Z.of_nat (length busy).
Proof.
  intros Hw Hr. assert (pool_inv c (q, busy)) as [Hc Hp].
  { assert (pool_inv c (NewQueue c r0, [])) as H0 by (split; simpl; [done|by rewrite app_nil_r]).
    revert H0. generalize dependent (q, busy). intros y Hr. induction Hr; [done|].
    intros Hi. by apply IHHr, (pool_step_inv c x). }
  simpl in *. pose proof (worker_ids_NoDup (Workers c)) as Hn. rewrite <- Hp in Hn.
  apply NoDup_app in Hn as (_ & Hd & Hn). apply Permutation_length in Hp.
  rewrite length_app in Hp. unfold worker_ids in Hp. rewrite length_fmap, length_seq in Hp.
  split_and!; [done|set_solver|lia|].
  unfold GetStats. destruct (CountByStatus (repo q)); simpl; rewrite Hc; lia.
Qed.
End pool.

(** ** A concrete queue *)

Definition demo_config : Config := DefaultConfig <| StaleLockTimeout := 100 |> <| LockDuration := 50 |>.
Definition demo_queue : queue MemRepo := (NewQueue demo_config ∅) <| running := true |>.
(** The queue after enqueueing [demo_job] at time 20. *)
Definition demo_enqueued : queue MemRepo := (Enqueue 20 demo_queue demo_job).2.
Definition demo_clk : nat → Time := λ k, 30 + Z.of_nat k.
Definition demo_failing (k : Job) : option goerror * Job := (Some (ErrNew "boom"), k).

Lemma enqueue_spec_witness :
  let x := Enqueue 20 demo_queue demo_job in
  x.1.1 = None ∧ Get (repo x.2) (ID demo_job) = inl x.1.2 ∧ MaxRetries x.1.2 = 3.
Proof.
  cbv zeta. assert ((Enqueue 20 demo_queue demo_job).1.1 = None) as He by (vm_compute; reflexivity).
  destruct (Enqueue 20 demo_queue demo_job) as [[e j'] q'] eqn:E. simpl in *. subst e.
  apply enqueue_spec in E as (_ & _ & _ & Hg & _ & _ & _ & Hm & _). split_and!; [done|exact Hg|].
  rewrite Hm. vm_compute. reflexivity.
Defined.

Lemma get_next_job_safe_witness :
  let x := getNextJob 30 demo_enqueued "worker-0" in
  ∃ j, x.1 = inl j ∧ LockedBy j = "worker-0" ∧ Get (repo x.2) (ID j) = inl j.
Proof.
  cbv zeta. assert (is_Some (match (getNextJob 30 demo_enqueued "worker-0").1 with inl j => Some j | _ => None end))
    as [j Hj] by (vm_compute; by eexists).
  destruct (getNextJob 30 demo_enqueued "worker-0") as [[j1|e] q'] eqn:E; simpl in *; [|discriminate Hj].
  exists j1. apply get_next_job_safe in E as (j0 & s & t & upd & _ & -> & Hg & _). by split_and!.
Defined.

Lemma retries_bounded_witness :
  let q := demo_enqueued in let id := ID demo_job in
  idle_job q id StatusQueued 0 3 ∧
  idle_job (foldl (λ q run, attempt run id q) q (replicate 4 (demo_clk, demo_failing, "worker-1"))) id
    StatusFailed 3 3.
Proof.
  cbv zeta. assert (idle_job demo_enqueued (ID demo_job) StatusQueued 0 3) as Hi.
  { unfold idle_job. eexists. split; [vm_compute; reflexivity|]. by split_and!. }
  split; [exact Hi|].
  apply (retries_bounded (replicate 4 (demo_clk, demo_failing, "worker-1")) (ID demo_job) demo_enqueued 3);
    [unfold maxInt64; lia| |exact Hi|simpl; lia].
  apply Forall_replicate. intros k. split; [done|]. by unfold proc_frame.
Defined.

Lemma cancel_spec_witness :
  let x := CancelJob 40 demo_enqueued (ID demo_job) in
  x.1 = None ∧ ∃ j', Get (repo x.2) (ID demo_job) = inl j' ∧ Status j' = StatusCancelled.
Proof.
  cbv zeta. assert ((CancelJob 40 demo_enqueued (ID demo_job)).1 = None) as He by (vm_compute; reflexivity).
  destruct (CancelJob 40 demo_enqueued (ID demo_job)) as [e q'] eqn:E. simpl in *. subst e. split; [done|].
  apply cancel_spec in E as (j & j' & _ & _ & Hg & Hs & _). by exists j'.
Defined.

Lemma delayed_job_queued_at_once_witness :
  let x := EnqueueWithDelay 20 21 demo_queue demo_job Hour in
  x.1.1 = None ∧ ScheduledAt x.1.2 = Some (20 + Hour) ∧
  Get (repo (processScheduledJobs (λ _, 30 + Hour) x.2)) (ID demo_job) = inl x.1.2.
Proof.
  cbv zeta. assert ((EnqueueWithDelay 20 21 demo_queue demo_job Hour).1.1 = None) as He by (vm_compute; reflexivity).
  destruct (EnqueueWithDelay 20 21 demo_queue demo_job Hour) as [[e j'] q'] eqn:E. simpl in *. subst e.
  apply delayed_job_queued_at_once in E as (_ & _ & Hs & Hp). split_and!; [done..|].
  apply (Hp [(λ _, 30 + Hour)]).
Defined.

(** A job locked at 30, cancelled at 40 while its worker is gone, and swept at 200. *)
Definition demo_cancelled : queue MemRepo :=
  (CancelJob 40 ((getNextJob 30 demo_enqueued "worker-0").2) (ID demo_job)).2.

Lemma stale_locks_requeued_witness :
  ∃ j j', GetStaleJobs 200 (repo demo_cancelled) 100 = inl [j] ∧ Status j = StatusCancelled ∧
          Get (repo (cleanStaleLocks (λ _, 200) demo_cancelled)) (ID j) = inl j' ∧ Status j' = StatusQueued.
Proof.
  destruct (GetStaleJobs 200 (repo demo_cancelled) 100) as [l|e] eqn:E; [|vm_compute in E; discriminate E].
  pose proof E as E0. vm_compute in E0. injection E0 as El.
  destruct (stale_locks_requeued (λ _, 200) demo_cancelled l E) as [Hl _]. subst l.
  eexists. destruct (Hl _ (list_elem_of_here _ _)) as (j' & _ & Hg & Hs & _).
  exists j'. split_and!; [reflexivity|reflexivity|exact Hg|exact Hs].
Defined.

Lemma worker_pool_conserved_witness :
  let q := demo_queue <| running := false |> in
  rtc pool_step (q, []) (q <| workerIDs := ["worker-1"; "worker-2"; "worker-3"] |>, ["worker-0"]) ∧
  WorkersActive (GetStats (q <| workerIDs := ["worker-1"; "worker-2"; "worker-3"] |>)) = 1.
Proof.
  cbv zeta. assert (rtc pool_step (demo_queue <| running := false |>, [])
    ((demo_queue <| running := false |>) <| workerIDs := ["worker-1"; "worker-2"; "worker-3"] |>, ["worker-0"])) as Hr.
  { apply rtc_once. apply (pool_take (demo_queue <| running := false |>)). vm_compute. reflexivity. }
  split; [exact Hr|]. apply (worker_pool_conserved demo_config ∅ _ ["worker-0"]); [vm_compute; discriminate|exact Hr].
Defined.
