(* ===== verification/PriorityScheduler.v ===== *)
(** * The priority scheduler (pkg/domain/job/scheduler/priority_queue.go)

    [PriorityScheduler] embeds the repository-backed queue and keeps an
    in-memory priority queue next to it.  Its selection loop has no bound, so it
    runs on fuel: [None] means that it was still looping when the fuel ran out.
    [ps.mu] is held for a whole call, so each operation is one step. *)

From S2P Require Import Prelude JobStatus Job JobRepo PriorityQueue Scheduler.

Record PriorityScheduler (R : Type) := mkPS { base : queue R; pqueue : priorityQueue }.
Arguments mkPS {R} _ _.
Arguments base {R} _.
Arguments pqueue {R} _.

#[export] Instance PriorityScheduler_eta R : Eta (PriorityScheduler R) := fun ps => mkPS (base ps) (pqueue ps).

Definition NewPriorityScheduler {R} (c : Config) (r : R) : PriorityScheduler R :=
  mkPS (NewQueue (c <| EnablePriority := true |>) r) NewPriorityQueue.

(** [Push] where the caller only logs, or drops, the error. *)
Definition push_or_log (pq : priorityQueue) (j : Job) : priorityQueue :=
  match Push pq (Some j) with Ok pq' => pq' | _ => pq end.

Section priority_scheduler.
Context {R : Type} `{JobRepository R}.

(** One turn of the loop, after [Pop] returned [job]. *)
Inductive turn := Again (pq : priorityQueue) (r : R) | Return (j : Job) (pq : priorityQueue) (r : R).

(** The attempt to lock: a job that could not be locked goes back. *)
Definition lock_turn (now : Time) (r : R) (workerID : string) (d : Duration) (cur : Job)
    (pq : priorityQueue) : turn :=
  match LockForProcessing now r (ID cur) workerID d with
  | (inr _, r') => Again (push_or_log pq cur) r'
  | (inl (Some locked), r') => Return locked pq r'
  | (inl None, r') => Again pq r'
  end.

Definition consider (now : Time) (r : R) (workerID : string) (d : Duration)
    (job : Job) (pq : priorityQueue) : turn :=
  match Get r (ID job) with
  | inr _ => Again pq r
  | inl cur =>
      if negb (String.eqb (Status cur) StatusQueued) then Again pq r
      else
        if HasDependencies cur then
          match checkDependencies r cur with
          | inr _ => Again pq r
          | inl false => Again (push_or_log pq cur) r
          | inl true => lock_turn now r workerID d cur pq
          end
        else lock_turn now r workerID d cur pq
  end.

Inductive search := Found (j : Job) (pq : priorityQueue) (r : R) | Drained (pq : priorityQueue) (r : R)
                  | Crashed (why : string).

Fixpoint pop_loop (fuel : nat) (now : Time) (r : R) (workerID : string) (d : Duration)
    (pq : priorityQueue) : option search :=
  match fuel with
  | O => None
  | S fuel' =>
      if Nat.eqb (Size pq) 0 then Some (Drained pq r)
      else match Pop pq with
           | Err _ => pop_loop fuel' now r workerID d pq
           | Panic w => Some (Crashed w)
           | Ok (job, pq) =>
               match consider now r workerID d job pq with
               | Again pq r => pop_loop fuel' now r workerID d pq
               | Return j pq r => Some (Found j pq r)
               end
           end
  end.

Definition ps_getNextJob (fuel : nat) (now : Time) (ps : PriorityScheduler R) (workerID : string)
    : option (res (Job + goerror) * PriorityScheduler R) :=
  match pop_loop fuel now (repo (base ps)) workerID (LockDuration (config (base ps))) (pqueue ps) with
  | None => None
  | Some (Found j pq r) => Some (Ok (inl j), mkPS ((base ps) <| repo := r |>) pq)
  | Some (Crashed w) => Some (Panic w, ps)
  | Some (Drained pq r) =>
      let '(o, q) := getNextJob now ((base ps) <| repo := r |>) workerID in
      Some (Ok o, mkPS q pq)
  end.

Definition ps_Enqueue (now now' : Time) (ps : PriorityScheduler R) (job : Job)
    : option goerror * Job * PriorityScheduler R :=
  match Enqueue now (base ps) job with
  | (Some e, job, q) => (Some e, job, mkPS q (pqueue ps))
  | (None, job, q) =>
      (None, job, mkPS q (if negb (IsScheduled now' job) then push_or_log (pqueue ps) job else pqueue ps))
  end.

(** [for _, job := range jobs { if !job.IsScheduled() && !job.IsLocked() {...} }] *)
Fixpoint push_ready (now : Time) (pq : priorityQueue) (jobs : list Job) : priorityQueue :=
  match jobs with
  | [] => pq
  | job :: jobs' =>
      push_ready now
        (if negb (IsScheduled now job) && negb (IsLocked now job) then push_or_log pq job else pq) jobs'
  end.

Definition ps_processScheduledJobs (clk : nat → Time) (now : Time) (ps : PriorityScheduler R)
    : PriorityScheduler R :=
  let q := processScheduledJobs clk (base ps) in
  match ListByStatus (repo q) StatusQueued with
  | inr _ => mkPS q (pqueue ps)
  | inl jobs => mkPS q (push_ready now (Clear (pqueue ps)) jobs)
  end.

Definition ps_GetStats (ps : PriorityScheduler R) : QueueStats :=
  (GetStats (base ps)) <| QueueDepth := Z.of_nat (Size (pqueue ps)) |>.

(** [Cancel]: the error of [Remove] is dropped, a panic is not. *)
Definition ps_Cancel (now : Time) (ps : PriorityScheduler R) (jobID : string)
    : res (option goerror * PriorityScheduler R) :=
  let cancel pq := let '(e, q) := CancelJob now (base ps) jobID in Ok (e, mkPS q pq) in
  if PriorityQueue.Contains (pqueue ps) jobID then
    match Remove (pqueue ps) jobID with
    | Ok pq => cancel pq
    | Err _ => cancel (pqueue ps)
    | Panic w => Panic w
    end
  else cancel (pqueue ps).

End priority_scheduler.
Arguments turn : clear implicits.
Arguments search : clear implicits.

Section selection.
Context {R : Type} `{RepoLaws R}.
Implicit Types (r : R) (pq : priorityQueue) (j : Job).

(** A popped job that the loop disposes of for good: it is gone, no longer
    queued, its dependencies cannot be read, or it can be locked without error. *)
Definition disposable now r w d j : Prop :=
  ∀ cur, Get r (ID j) = inl cur → Status cur = StatusQueued →
    checkDependencies r cur ≠ inl false ∧ ∀ e, (LockForProcessing now r (ID cur) w d).1 ≠ inr e.

(** What the loop returns: a queued job of the repository, locked for the
    worker, with every dependency completed. *)
Definition good_pick r r' w j : Prop :=
  ∃ j0 s t upd, Get r (ID j) = inl j0 ∧ Status j0 = StatusQueued ∧ j = with_lock w s t upd j0 ∧
    Get r' (ID j) = inl j ∧ same_except r r' (ID j) ∧
    ∀ d, d ∈ Dependencies j → ∃ dj, Get r d = inl dj ∧ Status dj = StatusCompleted.

Lemma lock_case now r w d cur pq :
  Get r (ID cur) = inl cur → Status cur = StatusQueued →
  (∀ d, d ∈ Dependencies cur → ∃ dj, Get r d = inl dj ∧ Status dj = StatusCompleted) →
  match lock_turn now r w d cur pq with
  | Return j pq' r' => pq' = pq ∧ good_pick r r' w j
  | Again pq' r' => r' = r ∧ ((∀ e, (LockForProcessing now r (ID cur) w d).1 ≠ inr e) → pq' = pq) ∧
                    (pq' = pq ∨ pq' = push_or_log pq cur)
  end.
Proof.
  intros Hg Hs Hd. unfold lock_turn. destruct (LockForProcessing now r (ID cur) w d) as [[[jl|]|e] r1] eqn:El; simpl.
  - split; [done|]. apply lock_spec in El as (j0 & s & t & upd & Hg0 & -> & Hg1 & Hse).
    rewrite Hg in Hg0. injection Hg0 as <-. by exists cur, s, t, upd.
  - split_and!; [eapply lock_none; [exact El|by intros ?]|done|by left].
  - split_and!; [eapply lock_none; [exact El|by intros ?]|intros He; by destruct (He e)|by right].
Qed.

Lemma consider_spec now r w d job pq :
  match consider now r w d job pq with
  | Return j pq' r' => pq' = pq ∧ good_pick r r' w j
  | Again pq' r' => r' = r ∧ (disposable now r w d job → pq' = pq) ∧
                    (pq' = pq ∨ ∃ cur, Get r (ID job) = inl cur ∧ pq' = push_or_log pq cur)
  end.
Proof.
  unfold consider, disposable. destruct (Get r (ID job)) as [cur|e] eqn:Eg; [|by split_and!; auto].
  destruct (String.eqb_spec (Status cur) StatusQueued) as [Hs|Hs]; simpl; [|by split_and!; auto].
  pose proof (get_id _ _ _ Eg) as Hid. rewrite <- Hid in Eg.
  unfold HasDependencies, checkDependencies. destruct (Dependencies cur) as [|d0 ds] eqn:Ed; cbn [length Nat.eqb negb].
  2: destruct (checkDependencies_loop r (d0 :: ds)) as [[|]|e] eqn:Ec.
  - pose proof (lock_case now r w d cur pq Eg Hs) as Hl. rewrite Ed in Hl. specialize (Hl ltac:(set_solver)).
    destruct (lock_turn _ _ _ _ _ _); [|done].
    destruct Hl as (-> & Hl & Hp). split_and!; [done| |destruct Hp; eauto].
    intros Hdis. apply Hl. by apply (Hdis cur).
  - pose proof (lock_case now r w d cur pq Eg Hs) as Hl. rewrite Ed in Hl.
    specialize (Hl (checkDependencies_true _ _ Ec)).
    destruct (lock_turn _ _ _ _ _ _); [|done].
    destruct Hl as (-> & Hl & Hp). split_and!; [done| |destruct Hp; eauto].
    intros Hdis. apply Hl. by apply (Hdis cur).
  - split_and!; [done| |right; eauto]. intros Hdis. exfalso. destruct (Hdis cur) as [Hne _]; try done.
    by rewrite Ed in Hne.
  - by split_and!; auto.
Qed.

Lemma pop_loop_safe fuel now r w d pq j pq' r' :
  pop_loop fuel now r w d pq = Some (Found j pq' r') → good_pick r r' w j.
Proof.
  revert pq. induction fuel as [|fuel IH]; intros pq; simpl; [done|].
  destruct (Nat.eqb (Size pq) 0); [done|]. destruct (Pop pq) as [[job pq1]|e|why]; [|by apply IH|done].
  pose proof (consider_spec now r w d job pq1) as Hc.
  destruct (consider now r w d job pq1) as [pq2 r2|j2 pq2 r2].
  - destruct Hc as (-> & _). apply IH.
  - intros [= -> -> ->]. apply Hc.
Qed.

Lemma Pop_Size pq : pq_wf pq → Size pq ≠ 0%nat →
  ∃ j pq', Pop pq = Ok (j, pq') ∧ pq_wf pq' ∧ j :: Jobs pq' ≡ₚ Jobs pq ∧ Size pq = S (Size pq').
Proof.
  intros Hw Hs. destruct (Pop_wf pq Hw) as (j & pq' & Hp & Hw' & Hj & _).
  { unfold Size in Hs. by destruct (items pq). }
  exists j, pq'. split_and!; try done. apply Permutation_length in Hj. unfold Jobs, Size in *.
  simpl in Hj. by rewrite !length_fmap in Hj.
Qed.

Lemma pop_loop_terminates now r w d pq :
  pq_wf pq → (∀ j, j ∈ Jobs pq → disposable now r w d j) →
  ∃ s, pop_loop (S (Size pq)) now r w d pq = Some s ∧ ∀ why, s ≠ Crashed why.
Proof.
  remember (Size pq) as n eqn:Hn. revert pq Hn.
  induction n as [|n IH]; intros pq Hn Hw Hd; simpl.
  { rewrite <- Hn. simpl. by eexists. }
  rewrite <- Hn. cbn [Nat.eqb].
  destruct (Pop_Size pq Hw) as (j & pq1 & -> & Hw1 & Hj & Hs); [by rewrite <- Hn|].
  pose proof (consider_spec now r w d j pq1) as Hc.
  destruct (consider now r w d j pq1) as [pq2 r2|j2 pq2 r2]; [|by eexists].
  destruct Hc as (-> & Hp & _). rewrite Hp by (apply Hd; rewrite <- Hj; by left).
  apply IH; [congruence|done|]. intros k Hk. apply Hd. rewrite <- Hj. by right.
Qed.

(** Selection from the priority queue.  Whatever it holds, a job found
    there and returned is stored in status queued, locked for the worker, and
    has all its dependencies completed.  When every job it holds can be
    disposed of (none waits for a dependency or meets a locking error), the
    call returns within one turn per held job and never crashes. *)
Theorem ps_selection_sound now (ps : PriorityScheduler R) w :
  pq_wf (pqueue ps) →
  (∀ fuel j pq' r', pop_loop fuel now (repo (base ps)) w (LockDuration (config (base ps))) (pqueue ps)
                      = Some (Found j pq' r') → good_pick (repo (base ps)) r' w j) ∧
  ((∀ j, j ∈ Jobs (pqueue ps) →
        disposable now (repo (base ps)) w (LockDuration (config (base ps))) j) →
   ∃ o ps', ps_getNextJob (S (Size (pqueue ps))) now ps w = Some (Ok o, ps')).
Proof.
  intros Hw. split; [intros fuel j pq' r'; apply pop_loop_safe|]. intros Hd. unfold ps_getNextJob.
  destruct (pop_loop_terminates now _ w _ _ Hw Hd) as (s & -> & Hs).
  destruct s as [j pq r|pq r|why]; [by eexists _, _| |by destruct (Hs why)].
  destruct (getNextJob _ _ _) as [o q]. by eexists _, _.
Qed.

(** A held job that has to wait: stored, queued, with an open dependency. *)
Definition blocked r j : Prop :=
  ∃ cur, Get r (ID j) = inl cur ∧ Status cur = StatusQueued ∧ is_Some (QueuedAt cur) ∧
         checkDependencies r cur = inl false.

Lemma consider_blocked now r w d j pq : blocked r j →
  ∃ cur, Get r (ID j) = inl cur ∧ is_Some (QueuedAt cur) ∧ ID cur = ID j ∧
         consider now r w d j pq = Again (push_or_log pq cur) r.
Proof.
  intros (cur & Hg & Hs & Hq & Hc). exists cur. split_and!; [done..|by eapply get_id|].
  unfold consider. rewrite Hg, Hs. simpl. unfold HasDependencies.
  destruct (Dependencies cur) eqn:Ed; [unfold checkDependencies in Hc; by rewrite Ed in Hc|].
  simpl. by rewrite Hc.
Qed.

(** Selection never returns while it only holds jobs that wait for a
    dependency.  A job whose dependency is not completed is pushed back into
    the queue the loop runs on, so with at least one held job and all of them
    blocked, no number of turns is enough and the repository-backed fallback is
    never reached, with the scheduler's mutex held all along. *)
Theorem ps_selection_livelock fuel now (ps : PriorityScheduler R) w :
  pq_wf (pqueue ps) → Size (pqueue ps) ≠ 0%nat →
  (∀ j, j ∈ Jobs (pqueue ps) → blocked (repo (base ps)) j) →
  ps_getNextJob fuel now ps w = None.
Proof.
  intros Hw Hs Hb. unfold ps_getNextJob.
  assert (pop_loop fuel now (repo (base ps)) w (LockDuration (config (base ps))) (pqueue ps) = None) as ->; [|done].
  revert Hw Hs Hb. generalize (pqueue ps). induction fuel as [|fuel IH]; intros pq Hw Hs Hb; simpl; [done|].
  destruct (Nat.eqb_spec (Size pq) 0); [done|].
  destruct (Pop_Size pq Hw Hs) as (j & pq1 & -> & Hw1 & Hj & _).
  assert (j ∈ Jobs pq) as Hin by (rewrite <- Hj; by left).
  destruct (consider_blocked now _ w (LockDuration (config (base ps))) j pq1 (Hb j Hin)) as (cur & Hg & Hq & Hi & ->).
  assert (ID cur ∉ ids pq1) as Hni.
  { pose proof (pq_nodup _ Hw) as Hn. rewrite ids_Jobs, <- Hj in Hn. rewrite Hi, ids_Jobs.
    by apply NoDup_cons in Hn as [? _]. }
  destruct (push_wf pq1 cur Hw1 Hq Hni) as (E & Hw2 & Hp2). unfold push_or_log. rewrite E. apply IH; [done| |].
  - apply Permutation_length in Hp2. unfold Jobs in Hp2. simpl in Hp2. rewrite !length_fmap in Hp2.
    unfold Size. simpl. lia.
  - intros k Hk. rewrite Hp2 in Hk. apply elem_of_cons in Hk as [->|Hk]; [|apply Hb; rewrite <- Hj; by right].
    destruct (Hb j Hin) as (cur' & Hg' & Hst & Hq' & Hc). rewrite Hg in Hg'. injection Hg' as <-.
    exists cur. by rewrite Hi.
Qed.

Lemma push_ready_wf now pq l :
  pq_wf pq → NoDup ((ID <$> l) ++ ids pq) → Forall (λ j, is_Some (QueuedAt j)) l →
  pq_wf (push_ready now pq l) ∧
  Jobs (push_ready now pq l) ≡ₚ List.filter (λ j, negb (IsScheduled now j) && negb (IsLocked now j)) l ++ Jobs pq.
Proof.
  revert pq. induction l as [|j l IH]; intros pq Hw Hn Hs; simpl; [done|].
  simpl in Hn. apply NoDup_cons in Hn as [Hj Hn]. apply Forall_cons in Hs as [Hq Hs].
  destruct (negb (IsScheduled now j) && negb (IsLocked now j)); [|by apply IH].
  destruct (push_wf pq j Hw Hq) as (E & Hw2 & Hp2); [set_solver|]. unfold push_or_log. rewrite E.
  destruct (IH _ Hw2) as [H1 H2]; [|done|].
  - rewrite ids_Jobs, Hp2, fmap_cons, <- ids_Jobs, <- Permutation_middle. by apply NoDup_cons.
  - split; [done|]. rewrite H2, Hp2. simpl. by rewrite Permutation_middle.
Qed.

(** Synchronisation rebuilds the priority queue from the repository.
    After [processScheduledJobs] it is well formed and holds exactly the stored
    jobs in status queued that are neither scheduled for later nor locked, when
    every queued job carries its queueing time. *)
Theorem ps_sync_exact clk now (ps : PriorityScheduler R) l :
  ListByStatus (repo (processScheduledJobs clk (base ps))) StatusQueued = inl l →
  Forall (λ j, is_Some (QueuedAt j)) l →
  let ps' := ps_processScheduledJobs clk now ps in
  pq_wf (pqueue ps') ∧
  ∀ j, j ∈ Jobs (pqueue ps') ↔
       Get (repo (base ps')) (ID j) = inl j ∧ Status j = StatusQueued ∧
       IsScheduled now j = false ∧ IsLocked now j = false.
Proof.
  intros El Hq. cbv zeta. unfold ps_processScheduledJobs. rewrite El. simpl.
  destruct (status_list_spec _ _ _ El) as [Hn Hl].
  destruct (push_ready_wf now (Clear (pqueue ps)) l) as [Hw Hp]; try done.
  { apply pq_wf_empty. } { by rewrite app_nil_r. }
  split; [done|]. intros j. rewrite Hp. change (Jobs (Clear _)) with (@nil Job). rewrite app_nil_r.
  rewrite list_elem_of_In, filter_In, <- list_elem_of_In, Hl.
  destruct (IsScheduled now j), (IsLocked now j); naive_solver.
Qed.
End selection.

(** ** Concrete schedulers *)

Definition demo_ready : Job := (queued_job "a" 1 5) <| Status := StatusQueued |>.
Definition demo_waiting : Job := demo_ready <| Dependencies := ["b"] |>.
Definition demo_open_dep : Job := (queued_job "b" 0 4) <| Status := StatusRunning |>.
Definition demo_scheduler (jobs : list Job) (j : Job) : PriorityScheduler MemRepo :=
  mkPS (demo_queue <| repo := foldr (λ k r, <[ID k := k]> r) ∅ jobs |>) (push_or_log NewPriorityQueue j).

Lemma demo_scheduler_wf jobs j : is_Some (QueuedAt j) →
  pq_wf (pqueue (demo_scheduler jobs j)) ∧ Jobs (pqueue (demo_scheduler jobs j)) ≡ₚ [j].
Proof.
  intros Hq. destruct (push_wf NewPriorityQueue j (proj1 pq_wf_empty) Hq (not_elem_of_nil _)) as (E & Hw & Hp).
  unfold demo_scheduler, push_or_log; simpl. by rewrite E.
Qed.

Lemma ps_selection_sound_witness :
  ∃ o ps', ps_getNextJob 2 40 (demo_scheduler [demo_ready] demo_ready) "worker-0" = Some (Ok o, ps').
Proof.
  destruct (demo_scheduler_wf [demo_ready] demo_ready (ex_intro _ 5 eq_refl)) as [Hw Hp].
  apply (ps_selection_sound 40 (demo_scheduler [demo_ready] demo_ready) "worker-0" Hw).
  intros j Hj. rewrite Hp in Hj. apply list_elem_of_singleton in Hj as ->.
  intros cur Hg Hs. vm_compute in Hg. injection Hg as <-. split; [by vm_compute|]. by intros e; vm_compute.
Defined.

Lemma ps_selection_livelock_witness :
  ps_getNextJob 1000 40 (demo_scheduler [demo_waiting; demo_open_dep] demo_waiting) "worker-0" = None.
Proof.
  destruct (demo_scheduler_wf [demo_waiting; demo_open_dep] demo_waiting (ex_intro _ 5 eq_refl)) as [Hw Hp].
  apply ps_selection_livelock; [exact Hw|vm_compute; discriminate|].
  intros j Hj. rewrite Hp in Hj. apply list_elem_of_singleton in Hj as ->.
  exists demo_waiting. split_and!; [vm_compute; reflexivity|reflexivity|by exists 5|vm_compute; reflexivity].
Defined.

Lemma ps_sync_exact_witness :
  let ps := demo_scheduler [demo_ready; demo_open_dep] demo_waiting in
  let ps' := ps_processScheduledJobs (λ _, 40) 40 ps in
  pq_wf (pqueue ps') ∧ demo_ready ∈ Jobs (pqueue ps').
Proof.
  cbv zeta. set (ps := demo_scheduler _ _).
  assert (ListByStatus (repo (processScheduledJobs (λ _, 40) (base ps))) StatusQueued = inl [demo_ready]) as El
    by (vm_compute; reflexivity).
  destruct (ps_sync_exact (λ _, 40) 40 ps [demo_ready] El) as [Hw Hj].
  { constructor; [by exists 5|constructor]. }
  split; [exact Hw|]. apply Hj. split_and!; vm_compute; reflexivity.
Defined.
