(* ===== verification/JobRecovery.v ===== *)
(** * The job recovery manager (pkg/domain/job/scheduler/job_recovery.go)

    A periodic pass over the repository that releases stuck jobs, restarts
    timed-out jobs and frees jobs whose lock has expired.  Each of the three
    operations lists jobs and then treats them one by one; [sweep] is that loop
    with its counter, and takes one clock reading per job. *)

From S2P Require Import Prelude JobStatus Job JobRepo Scheduler.

Record RecoveryStats := mkRecoveryStats {
  StuckJobsRecovered : Z; TimedOutJobsRecovered : Z; OrphanedJobsRecovered : Z;
  LastCheckTime : Time; TotalChecks : Z }.
#[export] Instance RecoveryStats_eta : Eta RecoveryStats := fun s =>
  mkRecoveryStats (StuckJobsRecovered s) (TimedOutJobsRecovered s) (OrphanedJobsRecovered s)
    (LastCheckTime s) (TotalChecks s).

Record JobRecoveryManager (R : Type) := mkJRM {
  jrm_repo : R; stuckJobThreshold : Duration; checkInterval : Duration; jrm_stats : RecoveryStats }.
Arguments mkJRM {R} _ _ _ _.
Arguments jrm_repo {R} _.
Arguments stuckJobThreshold {R} _.
Arguments checkInterval {R} _.
Arguments jrm_stats {R} _.
#[export] Instance JobRecoveryManager_eta R : Eta (JobRecoveryManager R) := fun m =>
  mkJRM (jrm_repo m) (stuckJobThreshold m) (checkInterval m) (jrm_stats m).

Definition NewJobRecoveryManager {R} (r : R) : JobRecoveryManager R :=
  mkJRM r (30 * Minute) (1 * Minute) (mkRecoveryStats 0 0 0 zero_time 0).

Definition SetStuckJobThreshold {R} (d : Duration) (m : JobRecoveryManager R) : JobRecoveryManager R :=
  m <| stuckJobThreshold := d |>.
Definition SetCheckInterval {R} (d : Duration) (m : JobRecoveryManager R) : JobRecoveryManager R :=
  m <| checkInterval := d |>.

Definition ValidateJobAssignment (now : Time) (job : Job) : bool :=
  match LockExpiresAt job with Some e => negb (time_after now e) | None => true end.

Definition hasRecentProgress (now : Time) (job : Job) : bool :=
  time_sub now (UpdatedAt job) <? 10 * Minute.

Section recovery_ops.
Context {R : Type} `{JobRepository R}.

(** [for _, job := range jobs { ... continue ... count++ }]: [f] treats one job
    and tells whether the loop counts it. *)
Fixpoint sweep (f : Time → R → Job → R * bool) (clk : nat → Time) (r : R) (jobs : list Job) : R * Z :=
  match jobs with
  | [] => (r, 0)
  | job :: jobs' =>
      let '(r, done) := f (clk 0%nat) r job in
      let '(r, n) := sweep f (clk_from clk 1) r jobs' in
      (r, if done : bool then n + 1 else n)
  end.

(** The body shared by the release of stuck and of orphaned jobs. *)
Definition release_job (from : JobStatus) (r : R) (job : Job) : R * bool :=
  match UnlockJob r (ID job) (LockedBy job) with
  | (Some _, r) => (r, false)
  | (None, r) =>
      match UpdateStatus r (ID job) from StatusPending with
      | (Some _, r) => (r, false)
      | (None, r) => (r, true)
      end
  end.

Definition release_stuck (threshold : Duration) (now : Time) (t : Time) (r : R) (job : Job) : R * bool :=
  match StartedAt job with
  | Some s =>
      if (threshold <? time_sub now s) && negb (hasRecentProgress t job)
      then release_job StatusRunning r job
      else (r, false)
  | None => (r, false)
  end.

Definition ReleaseStuckJobs (now : Time) (clk : nat → Time) (m : JobRecoveryManager R)
    : option goerror * JobRecoveryManager R :=
  match ListByStatus (jrm_repo m) StatusRunning with
  | inr e => (Some (ErrWrap "failed to list running jobs" e), m)
  | inl jobs =>
      let '(r, n) := sweep (release_stuck (stuckJobThreshold m) now) clk (jrm_repo m) jobs in
      let m := m <| jrm_repo := r |> in
      (None, if 0 <? n
             then m <| jrm_stats := (jrm_stats m) <| StuckJobsRecovered :=
                                      wrap64 (StuckJobsRecovered (jrm_stats m) + n) |> |>
             else m)
  end.

Definition timed_out (now : Time) (job : Job) : bool :=
  match StartedAt job with
  | Some s => (0 <? MaxDuration job) && time_after now (time_add s (MaxDuration job))
              && (String.eqb (Status job) StatusRunning || String.eqb (Status job) StatusQueued)
  | None => false
  end.

Definition reassign_job (now : Time) (_ : Time) (r : R) (job : Job) : R * bool :=
  if timed_out now job then
    match (if negb (String.eqb (LockedBy job) "") then UnlockJob r (ID job) (LockedBy job) else (None, r)) with
    | (Some _, r) => (r, false)
    | (None, r) =>
        match UpdateStatus r (ID job) (Status job) StatusFailed with
        | (Some _, r) => (r, false)
        | (None, r) =>
            let r := (RepoIncrementRetries r (ID job)).2 in
            if RetryCount job <? MaxRetries job then
              match UpdateStatus r (ID job) StatusFailed StatusPending with
              | (Some _, r) => (r, false)
              | (None, r) => (r, true)
              end
            else (r, true)
        end
    end
  else (r, false).

Definition ReassignTimedOutJobs (now : Time) (m : JobRecoveryManager R)
    : option goerror * JobRecoveryManager R :=
  match List (jrm_repo m) with
  | inr e => (Some (ErrWrap "failed to list jobs" e), m)
  | inl jobs =>
      let '(r, n) := sweep (reassign_job now) (λ _, now) (jrm_repo m) jobs in
      let m := m <| jrm_repo := r |> in
      (None, if 0 <? n
             then m <| jrm_stats := (jrm_stats m) <| TimedOutJobsRecovered :=
                                      wrap64 (TimedOutJobsRecovered (jrm_stats m) + n) |> |>
             else m)
  end.

Definition recover_orphan (t : Time) (r : R) (job : Job) : R * bool :=
  if negb (String.eqb (LockedBy job) "") && negb (ValidateJobAssignment t job)
  then release_job (Status job) r job
  else (r, false).

Definition RecoverOrphanedJobs (clk : nat → Time) (m : JobRecoveryManager R)
    : option goerror * JobRecoveryManager R :=
  match ListByStatus (jrm_repo m) StatusRunning with
  | inr e => (Some (ErrWrap "failed to list running jobs" e), m)
  | inl runningJobs =>
      match ListByStatus (jrm_repo m) StatusQueued with
      | inr e => (Some (ErrWrap "failed to list queued jobs" e), m)
      | inl queuedJobs =>
          let '(r, n) := sweep recover_orphan clk (jrm_repo m) (runningJobs ++ queuedJobs) in
          let m := m <| jrm_repo := r |> in
          (None, if 0 <? n
                 then m <| jrm_stats := (jrm_stats m) <| OrphanedJobsRecovered :=
                                          wrap64 (OrphanedJobsRecovered (jrm_stats m) + n) |> |>
                 else m)
      end
  end.

(** One pass: the three operations in order, their errors only logged. *)
Definition recoverJobs (now : Time) (now1 : Time) (clk1 : nat → Time) (now2 : Time) (clk3 : nat → Time)
    (m : JobRecoveryManager R) : JobRecoveryManager R :=
  let m := m <| jrm_stats := (jrm_stats m) <| LastCheckTime := now |>
                               <| TotalChecks := wrap64 (TotalChecks (jrm_stats m) + 1) |> |> in
  let m := (ReleaseStuckJobs now1 clk1 m).2 in
  let m := (ReassignTimedOutJobs now2 m).2 in
  (RecoverOrphanedJobs clk3 m).2.

End recovery_ops.

(** ** Laws *)

(** A repository whose status updates and retry counts do not fail. *)
Class RepoLenient (R : Type) `{JobRepository R} : Prop := {
  status_total r id from to j : Get r id = inl j → Status j = from → ∃ r', UpdateStatus r id from to = (None, r');
  retries_total r id j : Get r id = inl j → ∃ r', RepoIncrementRetries r id = (None, r') }.
(** A repository whose status updates validate the move against the
    transition table. *)
Class RepoValidating (R : Type) `{JobRepository R} : Prop :=
  status_validated r id from to r' : UpdateStatus r id from to = (None, r') → CanTransitionTo from to = true.

#[export] Instance MemRepo_lenient : RepoLenient MemRepo.
Proof.
  split.
  - intros r id from to j Hg Hs. simpl in *. unfold mem_modify. rewrite Hg, Hs, String.eqb_refl. by eexists.
  - intros r id j Hg. simpl in *. unfold mem_modify. rewrite Hg. by eexists.
Qed.

Section recovery_laws.
Context {R : Type} `{RepoLaws R}.
Implicit Types (r : R) (j : Job).

Lemma update_status_frame r id from to o r' : UpdateStatus r id from to = (o, r') → same_except r r' id.
Proof.
  destruct o; intros E; [by apply update_status_fail in E as ->|].
  by apply update_status_spec in E as (? & ? & _ & _ & _ & E).
Qed.
Lemma retries_frame r id o r' : RepoIncrementRetries r id = (o, r') → same_except r r' id.
Proof.
  destruct o; intros E; [by apply retries_fail in E as ->|]. by apply retries_spec in E as (? & ? & _ & _ & E).
Qed.

Lemma release_job_frame from r j : same_except r (release_job from r j).1 (ID j).
Proof.
  unfold release_job. destruct (UnlockJob _ _ _) as [[e|] r1] eqn:E1; [by apply unlock_frame in E1|].
  destruct (UpdateStatus _ _ _ _) as [[e|] r2] eqn:E2; simpl;
    (eapply same_except_trans; [by eapply unlock_frame|by eapply update_status_frame]).
Qed.

Lemma reassign_job_frame now t r j : same_except r (reassign_job now t r j).1 (ID j).
Proof.
  unfold reassign_job. destruct (timed_out now j); [|done].
  assert (∃ o r1, (if negb (String.eqb (LockedBy j) "") then UnlockJob r (ID j) (LockedBy j) else (None, r))
                    = (o, r1) ∧ same_except r r1 (ID j)) as (o & r1 & -> & H1).
  { destruct (negb _); [|by eexists _, _]. destruct (UnlockJob _ _ _) as [o r1] eqn:E.
    exists o, r1. split; [done|]. by eapply unlock_frame. }
  destruct o; [done|].
  destruct (UpdateStatus r1 _ _ _) as [[e|] r2] eqn:E2; apply update_status_frame in E2;
    [by eapply same_except_trans|].
  destruct (RepoIncrementRetries r2 (ID j)) as [o3 r3] eqn:E3. apply retries_frame in E3. simpl.
  destruct (_ <? _); [|by eauto using same_except_trans].
  destruct (UpdateStatus r3 _ _ _) as [[e|] r4] eqn:E4; apply update_status_frame in E4; simpl;
    eauto using same_except_trans.
Qed.

(** A sweep over jobs with distinct IDs does to each what its body does to it. *)
Lemma sweep_spec (f : Time → R → Job → R * bool) (Reading : Time → Prop) (Post : Job → R → Prop) clk r l :
  (∀ k, Reading (clk k)) →
  (∀ t r j, same_except r (f t r j).1 (ID j)) →
  (∀ t r j, Reading t → Get r (ID j) = inl j → ∀ r', Get r' (ID j) = Get (f t r j).1 (ID j) → Post j r') →
  NoDup (ID <$> l) → (∀ j, j ∈ l → Get r (ID j) = inl j) →
  (∀ j, j ∈ l → Post j (sweep f clk r l).1) ∧
  (∀ k, k ∉ ID <$> l → Get (sweep f clk r l).1 k = Get r k).
Proof.
  intros Hc Hf HP. revert clk r Hc.
  induction l as [|j l IH]; intros clk r Hc Hn Hg; [split; [set_solver|done]|].
  rewrite fmap_cons in *. apply NoDup_cons in Hn as [Hj Hn]. simpl.
  pose proof (Hf (clk 0%nat) r j) as Hfj. pose proof (HP (clk 0%nat) r j (Hc _)) as HPj.
  destruct (f (clk 0%nat) r j) as [r1 b] eqn:E. simpl in *.
  specialize (IH (clk_from clk 1) r1 (λ k, Hc _) Hn).
  destruct (sweep f (clk_from clk 1) r1 l) as [r2 n] eqn:E2. simpl in *.
  destruct IH as [H1 H2].
  { intros i Hi. rewrite Hfj; [apply Hg; by right|]. intros Ei. apply Hj. rewrite <- Ei.
    by apply list_elem_of_fmap_2. }
  split.
  - intros i [->|Hi]%elem_of_cons; [|by apply H1]. apply HPj; [apply Hg; by left|]. by apply H2.
  - intros k [Hk1 Hk2]%not_elem_of_cons. rewrite H2 by done. by apply Hfj.
Qed.

Lemma release_job_ok `{!RepoReliable R, !RepoLenient R} from r j :
  Get r (ID j) = inl j → Status j = from →
  ∃ j', Get (release_job from r j).1 (ID j) = inl j' ∧ Status j' = StatusPending ∧ LockedBy j' = "" ∧
        LockExpiresAt j' = None ∧ RetryCount j' = RetryCount j ∧ (release_job from r j).2 = true.
Proof.
  intros Hg Hs. unfold release_job.
  destruct (stored_unlock r (ID j) (LockedBy j) j Hg eq_refl) as (r1 & upd & -> & Hg1 & _).
  destruct (status_total r1 (ID j) from StatusPending _ Hg1) as [r2 E2]; [done|]. rewrite E2. simpl.
  apply update_status_spec in E2 as (j1 & u & Hg1' & _ & Hg2 & _).
  rewrite Hg1 in Hg1'. injection Hg1' as <-. eexists. split; [exact Hg2|]. done.
Qed.

(** Releasing stuck jobs, on a repository that accepts the updates.  Every
    running job is released (pending, unlocked) or left exactly as it was, and
    it is released exactly if it started more than the threshold ago and was
    not updated in the 10 minutes before the check; jobs in other statuses are
    not touched. *)
Theorem release_stuck_exact `{!RepoReliable R, !RepoLenient R} now clk (m : JobRecoveryManager R) l :
  ListByStatus (jrm_repo m) StatusRunning = inl l →
  let m' := (ReleaseStuckJobs now clk m).2 in
  (∀ j, j ∈ l → ∃ i,
     if match StartedAt j with Some s => stuckJobThreshold m <? time_sub now s | None => false end
        && (10 * Minute <=? time_sub (clk i) (UpdatedAt j))
     then ∃ j', Get (jrm_repo m') (ID j) = inl j' ∧ Status j' = StatusPending ∧ LockedBy j' = ""
     else Get (jrm_repo m') (ID j) = inl j) ∧
  (∀ k j, Get (jrm_repo m) k = inl j → Status j ≠ StatusRunning → Get (jrm_repo m') k = inl j).
Proof.
  intros El. cbv zeta. unfold ReleaseStuckJobs. rewrite El. destruct (status_list_spec _ _ _ El) as [Hn Hl].
  pose proof (sweep_spec (release_stuck (stuckJobThreshold m) now) (λ t, ∃ i, t = clk i) (λ j r', Status j = StatusRunning → ∃ i,
     if match StartedAt j with Some s => stuckJobThreshold m <? time_sub now s | None => false end
        && (10 * Minute <=? time_sub (clk i) (UpdatedAt j))
     then ∃ j', Get r' (ID j) = inl j' ∧ Status j' = StatusPending ∧ LockedBy j' = ""
     else Get r' (ID j) = inl j) clk (jrm_repo m) l) as Hsw.
  destruct (sweep _ clk (jrm_repo m) l) as [r' n]. simpl in Hsw.
  assert (jrm_repo (None : option goerror, if 0 <? n then _ else _).2 = r') as -> by (by destruct (0 <? n)).
  destruct Hsw as [H1 H2]; [by eexists| | |done|intros j Hj; by apply Hl|split].
  - intros t r j. unfold release_stuck. destruct (StartedAt j); [|done]. destruct (_ && _); [|done].
    apply release_job_frame.
  - intros t r j [i ->] Hg r1 Hr1 Hs. exists i. revert Hr1. unfold release_stuck, hasRecentProgress.
    destruct (StartedAt j) as [s|]; [|by intros ->].
    destruct (_ <? time_sub now s); simpl; [|by intros ->].
    destruct (Z.leb_spec (10 * Minute) (time_sub (clk i) (UpdatedAt j))),
      (Z.ltb_spec (time_sub (clk i) (UpdatedAt j)) (10 * Minute));
      try lia; simpl; [|by intros ->].
    destruct (release_job_ok StatusRunning r j Hg Hs) as (j' & Hg' & Hst & Hlk & _). intros ->. by exists j'.
  - intros j Hj. apply H1; [done|]. by apply Hl.
  - intros k j Hg Hs. rewrite <- Hg. apply H2. intros Hk. apply list_elem_of_fmap in Hk as (i & -> & Hi).
    apply Hl in Hi as [Hi Hsi]. congruence.
Qed.

Lemma reassign_job_ok `{!RepoReliable R, !RepoLenient R} now t r j :
  Get r (ID j) = inl j → timed_out now j = true →
  ∃ j', Get (reassign_job now t r j).1 (ID j) = inl j' ∧ LockedBy j' = "" ∧
        RetryCount j' = RetryCount j + 1 ∧ StartedAt j' = StartedAt j ∧
        Status j' = (if RetryCount j <? MaxRetries j then StatusPending else StatusFailed).
Proof.
  intros Hg Ht. unfold reassign_job. rewrite Ht.
  assert (∃ r1 j1, (if negb (String.eqb (LockedBy j) "") then UnlockJob r (ID j) (LockedBy j) else (None, r))
    = (None, r1) ∧ Get r1 (ID j) = inl j1 ∧ LockedBy j1 = "" ∧ Status j1 = Status j ∧
    RetryCount j1 = RetryCount j ∧ StartedAt j1 = StartedAt j) as (r1 & j1 & -> & Hg1 & Hl1 & Hs1 & Hrc1 & Hst1).
  { destruct (String.eqb_spec (LockedBy j) ""); simpl; [by exists r, j|].
    destruct (stored_unlock r (ID j) (LockedBy j) j Hg eq_refl) as (r1 & upd & E & Hg1 & _).
    by exists r1, (with_lock "" None None upd j). }
  destruct (status_total r1 (ID j) (Status j) StatusFailed _ Hg1 Hs1) as [r2 E2]. rewrite E2.
  apply update_status_spec in E2 as (j1' & u2 & Hg1' & _ & Hg2 & _). rewrite Hg1 in Hg1'. injection Hg1' as <-.
  destruct (retries_total r2 (ID j) _ Hg2) as [r3 E3]. rewrite E3. simpl.
  apply retries_spec in E3 as (j2' & u3 & Hg2' & Hg3 & _). rewrite Hg2 in Hg2'. injection Hg2' as <-. simpl in Hg3.
  destruct (RetryCount j <? MaxRetries j) eqn:Hc; simpl.
  - destruct (status_total r3 (ID j) StatusFailed StatusPending _ Hg3) as [r4 E4]; [done|]. rewrite E4.
    apply update_status_spec in E4 as (j3' & u4 & Hg3' & _ & Hg4 & _). rewrite Hg3 in Hg3'. injection Hg3' as <-.
    simpl in *. eexists. split; [exact Hg4|]. simpl. rewrite Hrc1. by split_and!.
  - eexists. split; [exact Hg3|]. simpl. rewrite Hrc1. by split_and!.
Qed.

(** Reassigning timed-out jobs, on a repository that accepts the updates.
    A running or queued job whose start time plus maximal duration has passed
    is unlocked and charged one retry; it becomes pending when it had a retry
    left before the charge and failed otherwise.  Its start time is kept.  All
    other jobs are exactly as they were. *)
Theorem reassign_timed_out_exact `{!RepoReliable R, !RepoLenient R} now (m : JobRecoveryManager R) l :
  List (jrm_repo m) = inl l →
  let m' := (ReassignTimedOutJobs now m).2 in
  ∀ k j, Get (jrm_repo m) k = inl j →
    if timed_out now j
    then ∃ j', Get (jrm_repo m') k = inl j' ∧ LockedBy j' = "" ∧ RetryCount j' = RetryCount j + 1 ∧
               StartedAt j' = StartedAt j ∧
               Status j' = (if RetryCount j <? MaxRetries j then StatusPending else StatusFailed)
    else Get (jrm_repo m') k = inl j.
Proof.
  intros El. cbv zeta. unfold ReassignTimedOutJobs. rewrite El. destruct (list_spec _ _ El) as [Hn Hl].
  pose proof (sweep_spec (reassign_job now) (λ _, True) (λ j r',
    if timed_out now j
    then ∃ j', Get r' (ID j) = inl j' ∧ LockedBy j' = "" ∧ RetryCount j' = RetryCount j + 1 ∧
               StartedAt j' = StartedAt j ∧
               Status j' = (if RetryCount j <? MaxRetries j then StatusPending else StatusFailed)
    else Get r' (ID j) = inl j) (λ _, now) (jrm_repo m) l) as Hsw.
  destruct (sweep _ (λ _, now) (jrm_repo m) l) as [r' n]. simpl in Hsw.
  assert (jrm_repo (None : option goerror, if 0 <? n then _ else _).2 = r') as -> by (by destruct (0 <? n)).
  destruct Hsw as [H1 _]; [done| | |done|intros j Hj; by apply Hl|].
  - intros t r j. apply reassign_job_frame.
  - intros t r j _ Hg r1. destruct (timed_out now j) eqn:Ht.
    + intros ->. by apply reassign_job_ok.
    + intros ->. unfold reassign_job. by rewrite Ht.
  - intros k j Hg. pose proof (get_id _ _ _ Hg) as <-. by apply H1, Hl.
Qed.

End recovery_laws.

Section validating.
Context {R : Type} `{RepoValidating R}.
Implicit Types (r : R) (j : Job).

Lemma nothing_becomes_pending from : CanTransitionTo from StatusPending = false.
Proof.
  destruct (CanTransitionTo from StatusPending) eqn:E; [|done].
  destruct (CanTransitionTo_valid _ _ E) as [Hf _]. revert E. revert from Hf.
  apply (valid_status_ind (λ s, CanTransitionTo s StatusPending = true → true = false)).
  repeat apply Forall_cons_2 || apply Forall_nil_2; intros H'; discriminate H'.
Qed.

Lemma UpdateStatus_pending r id from : (UpdateStatus r id from StatusPending).1 ≠ None.
Proof.
  destruct (UpdateStatus r id from StatusPending) as [[e|] r'] eqn:E; simpl; [done|].
  apply status_validated in E. by rewrite nothing_becomes_pending in E.
Qed.

Lemma release_job_validated from r j : (release_job from r j).2 = false.
Proof.
  unfold release_job. destruct (UnlockJob r (ID j) (LockedBy j)) as [[e|] r1]; [done|].
  pose proof (UpdateStatus_pending r1 (ID j) from). by destruct (UpdateStatus r1 _ _ _) as [[e|] r2].
Qed.

Lemma sweep_none (f : Time → R → Job → R * bool) clk r l :
  (∀ t r j, (f t r j).2 = false) → (sweep f clk r l).2 = 0.
Proof.
  intros Hf. revert clk r. induction l as [|j l IH]; intros clk r; simpl; [done|].
  pose proof (Hf (clk 0%nat) r j) as Hj. destruct (f _ _ _) as [r1 b]. simpl in Hj. subst b.
  specialize (IH (clk_from clk 1) r1). by destruct (sweep f (clk_from clk 1) r1 l).
Qed.

(** Recovery and the transition table do not fit together.  The table has
    no move to pending, the status recovery returns jobs to; so on a repository
    that validates status updates against the table, releasing stuck jobs and
    recovering orphaned jobs never recover a single job, and a timed-out job
    that still has retries is never restarted. *)
Theorem recovery_needs_forbidden_moves now clk t (m : JobRecoveryManager R) :
  jrm_stats (ReleaseStuckJobs now clk m).2 = jrm_stats m ∧
  jrm_stats (RecoverOrphanedJobs clk m).2 = jrm_stats m ∧
  ∀ r j, RetryCount j < MaxRetries j → (reassign_job now t r j).2 = false.
Proof.
  split_and!.
  - unfold ReleaseStuckJobs. destruct (ListByStatus _ _) as [l|e]; [|done].
    pose proof (sweep_none (release_stuck (stuckJobThreshold m) now) clk (jrm_repo m) l) as Hn.
    destruct (sweep _ _ _ _) as [r n]. simpl in Hn. rewrite Hn; [done|]. intros t' r' j.
    unfold release_stuck. destruct (StartedAt j); [|done]. destruct (_ && _); [|done].
    apply release_job_validated.
  - unfold RecoverOrphanedJobs. destruct (ListByStatus _ StatusRunning) as [l1|e]; [|done].
    destruct (ListByStatus _ _) as [l2|e]; [|done].
    pose proof (sweep_none recover_orphan clk (jrm_repo m) (l1 ++ l2)) as Hn.
    destruct (sweep _ _ _ _) as [r n]. simpl in Hn. rewrite Hn; [done|]. intros t' r' j.
    unfold recover_orphan. destruct (_ && _); [|done]. apply release_job_validated.
  - intros r j Hc%Z.ltb_lt. unfold reassign_job. rewrite Hc. destruct (timed_out now j); [|done].
    destruct (if negb _ then _ else _) as [[e|] r1]; [done|].
    destruct (UpdateStatus r1 _ _ _) as [[e|] r2]; [done|].
    match goal with |- context [UpdateStatus ?x ?i StatusFailed _] =>
      pose proof (UpdateStatus_pending x i StatusFailed) as Hu; by destruct (UpdateStatus x i _ _) as [[e|] r3] end.
Qed.
End validating.

(** ** Concrete passes *)

(** The map-backed repository with validated status updates. *)
Definition validating_repository : JobRepository MemRepo := {|
  Create := Create; Get := Get; RepoUpdate := RepoUpdate; List := List; ListByStatus := ListByStatus;
  ListPending := ListPending; ListScheduled := ListScheduled; CountByStatus := CountByStatus;
  UpdateStatus r id from to :=
    if CanTransitionTo from to then UpdateStatus r id from to
    else (Some (ErrNew "invalid status transition"), r);
  RepoIncrementRetries := RepoIncrementRetries; LockForProcessing := LockForProcessing;
  UnlockJob := UnlockJob; GetStaleJobs := GetStaleJobs |}.

Lemma validating_repository_validates : @RepoValidating MemRepo validating_repository.
Proof. intros r id from to r'. simpl. by destruct (CanTransitionTo from to). Qed.

(** A job running since 10 that was never updated, with one retry. *)
Definition demo_stuck : Job :=
  demo_job <| Status := StatusRunning |> <| StartedAt := Some 10 |> <| MaxDuration := Minute |>
           <| MaxRetries := 1 |> <| LockedBy := "worker-0" |>.
Definition demo_manager : JobRecoveryManager MemRepo := NewJobRecoveryManager {[ ID demo_stuck := demo_stuck ]}.

Lemma release_stuck_exact_witness :
  let m' := (ReleaseStuckJobs (2 * Hour) (λ _, 2 * Hour) demo_manager).2 in
  ∃ j', Get (jrm_repo m') (ID demo_stuck) = inl j' ∧ Status j' = StatusPending ∧ LockedBy j' = "".
Proof.
  cbv zeta. destruct (release_stuck_exact (2 * Hour) (λ _, 2 * Hour) demo_manager [demo_stuck]) as [Hl _];
    [vm_compute; reflexivity|].
  destruct (Hl demo_stuck (list_elem_of_here _ _)) as [i Hi].
  match type of Hi with if ?b then _ else _ =>
    assert (b = true) as Hb by (vm_compute; reflexivity); rewrite Hb in Hi end.
  exact Hi.
Defined.

Lemma reassign_timed_out_exact_witness :
  let m' := (ReassignTimedOutJobs Hour demo_manager).2 in
  ∃ j', Get (jrm_repo m') (ID demo_stuck) = inl j' ∧ Status j' = StatusPending ∧ RetryCount j' = 1.
Proof.
  cbv zeta. assert (timed_out Hour demo_stuck = true) as Ht by (vm_compute; reflexivity).
  assert (List (jrm_repo demo_manager) = inl [demo_stuck]) as El by (vm_compute; reflexivity).
  assert (Get (jrm_repo demo_manager) (ID demo_stuck) = inl demo_stuck) as Hg by (vm_compute; reflexivity).
  pose proof (reassign_timed_out_exact Hour demo_manager [demo_stuck] El (ID demo_stuck) demo_stuck Hg) as Hm.
  rewrite Ht in Hm. destruct Hm as (j' & Hg' & _ & Hrc & _ & Hs). exists j'. split_and!; [exact Hg'|exact Hs|exact Hrc].
Defined.

Lemma recovery_needs_forbidden_moves_witness :
  jrm_stats (@ReleaseStuckJobs MemRepo validating_repository (2 * Hour) (λ _, 2 * Hour) demo_manager).2
  = jrm_stats demo_manager.
Proof.
  destruct (@recovery_needs_forbidden_moves MemRepo validating_repository validating_repository_validates
              (2 * Hour) (λ _, 2 * Hour) 0 demo_manager) as [Hs _]. exact Hs.
Defined.
