(* ===== verification/MasterTypes.v ===== *)
(** * Shared types of the master (pkg/common/types.go)

    Bots, jobs and assignments as the master persists them, and the typed
    errors it returns.  Pointers to values that are only replaced as a whole
    are options. *)

From S2P Require Import Prelude.

Abbreviation BotStatus := string (only parsing).
Definition BotStatusRegistering : BotStatus := "registering".
Definition BotStatusIdle : BotStatus := "idle".
Definition BotStatusBusy : BotStatus := "busy".
Definition BotStatusTimedOut : BotStatus := "timed_out".
Definition BotStatusFailed : BotStatus := "failed".

Record Bot := mkBot {
  BotID : string; BotName : string; Hostname : string; BotState : BotStatus; LastSeen : Time;
  RegisteredAt : Time; CurrentJob : option string; Capabilities : list string;
  BotTimeoutAt : Time; IsOnline : bool; FailureCount : Z; APIEndpoint : string }.
#[export] Instance Bot_eta : Eta Bot := fun b =>
  mkBot (BotID b) (BotName b) (Hostname b) (BotState b) (LastSeen b) (RegisteredAt b) (CurrentJob b)
    (Capabilities b) (BotTimeoutAt b) (IsOnline b) (FailureCount b) (APIEndpoint b).

Abbreviation MJobStatus := string (only parsing).
Definition JobStatusPending : MJobStatus := "pending".
Definition JobStatusAssigned : MJobStatus := "assigned".
Definition JobStatusStarting : MJobStatus := "starting".
Definition JobStatusRunning : MJobStatus := "running".
Definition JobStatusCompleted : MJobStatus := "completed".
Definition JobStatusFailed : MJobStatus := "failed".
Definition JobStatusTimedOut : MJobStatus := "timed_out".
Definition JobStatusCancelled : MJobStatus := "cancelled".

Record JobConfig := mkJobConfig {
  CfgDuration : Duration; MemoryLimit : Z; CfgTimeout : Duration; Dictionary : string;
  SeedCorpus : list string; OutputDir : string }.

(** The master's [Job]; the [map[string]interface{}] metadata keeps the nil map
    apart from the empty one. *)
Record MJob := mkMJob {
  JobID : string; JobName : string; Target : string; Fuzzer : string; JobType : string;
  JobState : MJobStatus; AssignedBot : option string; JobCreatedAt : Time;
  StartedAt : option Time; CompletedAt : option Time; JobTimeoutAt : Time; WorkDir : string;
  JobCfg : JobConfig; Progress : Z; CampaignID : option string; CollectionID : option string;
  UseCampaignCorpus : bool; JobMetadata : option (gmap string goany); JobPriority : Z;
  EnableCoverage : bool; CoverageFormat : string; RecoveryTimeout : option Time;
  LeaseToken : option string; LeaseExpiresAt : option Time; LastHeartbeat : option Time }.
#[export] Instance MJob_eta : Eta MJob := fun j =>
  mkMJob (JobID j) (JobName j) (Target j) (Fuzzer j) (JobType j) (JobState j) (AssignedBot j)
    (JobCreatedAt j) (StartedAt j) (CompletedAt j) (JobTimeoutAt j) (WorkDir j) (JobCfg j) (Progress j)
    (CampaignID j) (CollectionID j) (UseCampaignCorpus j) (JobMetadata j) (JobPriority j)
    (EnableCoverage j) (CoverageFormat j) (RecoveryTimeout j) (LeaseToken j) (LeaseExpiresAt j)
    (LastHeartbeat j).

Record JobAssignment := mkJobAssignment {
  AsgJobID : string; AsgBotID : string; AsgTimestamp : Time; AsgStatus : string }.

(** ** Typed errors *)

Definition NewValidationError (op : string) (err : goerror) : goerror := ErrPanda "validation" op err.
Definition NewDatabaseError (op : string) (err : goerror) : goerror := ErrPanda "database" op err.
Definition NewSystemError (op : string) (err : goerror) : goerror := ErrPanda "system" op err.

Definition ErrKeyNotFound : goerror := ErrNew "key not found".

(** The comparison with [ErrKeyNotFound] itself is subsumed by the test on the
    message, which contains "not found". *)
Definition IsNotFoundError (err : goerror) : bool :=
  match err with
  | ErrPanda etype _ _ => String.eqb etype "not_found"
  | _ => contains_any (Error err) ["not found"; "no such"; "does not exist"]
  end.
