(* ===== verification/CrashTypes.v ===== *)
(** * Results as bots, services and the master exchange them (pkg/common/crash.go,
    CoverageResult of types.go and CorpusUpdate of corpus.go) *)

From S2P Require Import Prelude.
From Stdlib Require Import Strings.Byte.

Abbreviation bytes := (list Byte.byte) (only parsing).
#[export] Instance byte_eq_decision : EqDecision Byte.byte := Byte.byte_eq_dec.
Definition len (b : bytes) : Z := Z.of_nat (length b).

Record CrashResult := mkCrash {
  CrashID : string; CrashJobID : string; CrashBotID : string; CrashCampaignID : string; Hash : string;
  FilePath : string; CrashKind : string; Signal : Z; ExitCode : Z; CrashTimestamp : Time; CrashSize : Z;
  IsUnique : bool; Input : bytes; InputBase64 : string; Output : string; StackText : string;
  Reproducible : bool; Minimized : bool; CrashMetadata : option (gmap string goany) }.
#[export] Instance CrashResult_eta : Eta CrashResult := fun c =>
  mkCrash (CrashID c) (CrashJobID c) (CrashBotID c) (CrashCampaignID c) (Hash c) (FilePath c) (CrashKind c)
    (Signal c) (ExitCode c) (CrashTimestamp c) (CrashSize c) (IsUnique c) (Input c) (InputBase64 c) (Output c)
    (StackText c) (Reproducible c) (Minimized c) (CrashMetadata c).

Record CoverageResult := mkCoverageResult {
  CovID : string; CovJobID : string; CovBotID : string; Edges : Z; NewEdges : Z; CovTimestamp : Time; ExecCount : Z }.
#[export] Instance CoverageResult_eta : Eta CoverageResult := fun c =>
  mkCoverageResult (CovID c) (CovJobID c) (CovBotID c) (Edges c) (NewEdges c) (CovTimestamp c) (ExecCount c).

Record CorpusUpdate := mkCorpusUpdate {
  CorpusUpdateID : string; CorpusJobID : string; CorpusBotID : string; Files : list string;
  CorpusTimestamp : Time; CorpusTotalSize : Z }.
#[export] Instance CorpusUpdate_eta : Eta CorpusUpdate := fun c =>
  mkCorpusUpdate (CorpusUpdateID c) (CorpusJobID c) (CorpusBotID c) (Files c) (CorpusTimestamp c) (CorpusTotalSize c).
