(* ===== verification/MasterState.v ===== *)
(** * The master's persistent state (pkg/master/state_core.go, state_bot.go,
    state_job.go and the bot, job and orphan parts of state.go)

    The state is the in-memory caches plus the key-value database behind them.
    A cached entity is reached through one pointer, so writing to its fields is
    updating the map at its key, and takes effect at once, also inside a
    transaction that later rolls back.  The database keeps what committed
    transactions stored; [faults] scripts its failures, one entry per call
    ([None]: the call works; no entry left: it works).  [clock] and [ticks] give
    the successive readings of [time.Now()].  A section that holds [ps.mu] is
    one step. *)

From S2P Require Import Prelude Retry MasterTypes CrashTypes.

Inductive entity :=
  | EBot (b : Bot) | EJob (j : MJob) | EAssignment (a : JobAssignment) | EAny (v : goany)
  | ECrash (c : CrashResult) | EBytes (b : bytes) | ECoverage (c : CoverageResult) | ECorpus (c : CorpusUpdate).

Record StateStats := mkStateStats {
  BotsRegistered : Z; JobsCreated : Z; CrashesRecorded : Z; CoverageReports : Z; CorpusUpdates : Z;
  TransactionCount : Z }.
#[export] Instance StateStats_eta : Eta StateStats := fun s =>
  mkStateStats (BotsRegistered s) (JobsCreated s) (CrashesRecorded s) (CoverageReports s)
    (CorpusUpdates s) (TransactionCount s).

Record PersistentState := mkState {
  data : gmap string entity; faults : list (option goerror);
  bots : gmap string Bot; jobs : gmap string MJob; metadata : gmap string goany;
  retryPolicy : Policy; stats : StateStats; maxCacheSize : Z; cacheAccessTime : gmap string Time;
  clock : nat → Time; ticks : nat }.
#[export] Instance PersistentState_eta : Eta PersistentState := fun s =>
  mkState (data s) (faults s) (bots s) (jobs s) (metadata s) (retryPolicy s) (stats s)
    (maxCacheSize s) (cacheAccessTime s) (clock s) (ticks s).

(** [policy] is [config.Retry.Database] and [limit] is [config.Limits.MaxCacheSize]. *)
Definition NewPersistentState (d : gmap string entity) (fs : list (option goerror)) (policy : Policy)
    (limit : Z) (clk : nat → Time) : PersistentState :=
  mkState d fs ∅ ∅ ∅ (if MaxRetries policy =? 0 then DatabasePolicy else policy)
    (mkStateStats 0 0 0 0 0 0) (if 0 <? limit then limit else 1000) ∅ clk 0.

(** ** The database and the clock *)

Definition time_now (ps : PersistentState) : Time * PersistentState :=
  (clock ps (ticks ps), ps <| ticks := S (ticks ps) |>).

(** One call to the database: the next scripted outcome. *)
Definition db_call (ps : PersistentState) : option goerror * PersistentState :=
  match faults ps with
  | [] => (None, ps)
  | f :: fs => (f, ps <| faults := fs |>)
  end.

Definition Store (key : string) (v : entity) (ps : PersistentState) : option goerror * PersistentState :=
  match db_call ps with
  | (Some e, ps) => (Some e, ps)
  | (None, ps) => (None, ps <| data := <[key := v]> (data ps) |>)
  end.

Definition Delete (key : string) (ps : PersistentState) : option goerror * PersistentState :=
  match db_call ps with
  | (Some e, ps) => (Some e, ps)
  | (None, ps) => (None, ps <| data := delete key (data ps) |>)
  end.

Definition db_Get (key : string) (ps : PersistentState) : (entity + goerror) * PersistentState :=
  match db_call ps with
  | (Some e, ps) => (inr e, ps)
  | (None, ps) => (match data ps !! key with Some v => inl v | None => inr ErrKeyNotFound end, ps)
  end.

(** [db.Transaction]: the writes of [fn] to the database are kept only if it
    returns nil and the commit works; its writes to the caches always stay.
    [S] carries the variables [fn] captures.  This is one attempt: the retries of
    the pool around it (StorageRetry.v) are left out; they repeat the whole of it
    for a locked database and wrap the last error. *)
Definition Transaction {S : Type} (fn : PersistentState * S → option goerror * (PersistentState * S))
    (x : PersistentState * S) : option goerror * (PersistentState * S) :=
  let '(ps, s) := x in
  match db_call ps with
  | (Some e, ps) => (Some (NewDatabaseError "begin_transaction" e), (ps, s))
  | (None, ps) =>
      match fn (ps, s) with
      | (Some e, (ps', s')) => (Some e, (ps' <| data := data ps |>, s'))
      | (None, (ps', s')) =>
          match db_call ps' with
          | (Some e, ps') => (Some (NewDatabaseError "commit_transaction" e), (ps' <| data := data ps |>, s'))
          | (None, ps') => (None, (ps', s'))
          end
      end
  end.

Arguments Transaction {S} fn x : simpl never.

(** A sequence of stores, each failure wrapped under its operation name. *)
Fixpoint store_all (writes : list (string * string * entity)) (ps : PersistentState)
    : option goerror * PersistentState :=
  match writes with
  | [] => (None, ps)
  | (key, op, v) :: writes' =>
      match Store key v ps with
      | (Some e, ps) => (Some (NewDatabaseError op e), ps)
      | (None, ps) => store_all writes' ps
      end
  end.

Definition count_transaction (ps : PersistentState) : PersistentState :=
  ps <| stats := (stats ps) <| TransactionCount := wrap64 (TransactionCount (stats ps) + 1) |> |>.

(** A transaction whose closure captures nothing. *)
Definition transaction (fn : PersistentState → option goerror * PersistentState) (ps : PersistentState)
    : option goerror * PersistentState :=
  let '(e, (ps', _)) := Transaction (λ x : PersistentState * unit, let '(e, ps) := fn x.1 in (e, (ps, tt))) (ps, tt) in
  (e, ps').

Arguments transaction fn ps : simpl never.

Section state_ops.
(** The jitter of the retry manager; the order in which the [k]-th scan visits
    the job and bot maps; the extra operations of an SQLite database, when the
    database is one. *)
Variable random : Z → float64.
Variable job_order : nat → list (string * MJob) → list (string * MJob).
Variable bot_order : nat → list (string * Bot) → list (string * Bot).
Variable sqlite_GetJob : option (gmap string entity → string → MJob + goerror).

Definition with_retry (op : PersistentState → option goerror * PersistentState) (ps : PersistentState)
    : res unit * PersistentState :=
  (Execute op (retryPolicy ps) random ps).1.

(** ** Bots *)

Definition SaveBotWithRetry (bot : Bot) : PersistentState → res unit * PersistentState :=
  with_retry (λ ps,
    transaction (λ ps, match store_all [("bot:" +:+ BotID bot, "save_bot", EBot bot)] ps with
                       | (None, ps) => (None, count_transaction ps)
                       | r => r
                       end)
      (ps <| bots := <[BotID bot := bot]> (bots ps) |>)).

(** [evictOldestBotFromCache] and [evictOldestJobFromCache]: the scan keeps the
    least access time before its start, and stops at an entry without one. *)
Fixpoint find_oldest {A} (prefix : string) (access : gmap string Time) (entries : list (string * A))
    (oldestKey : string) (oldestTime : Time) : string :=
  match entries with
  | [] => oldestKey
  | (id, _) :: entries' =>
      match access !! (prefix +:+ id) with
      | Some t => if time_before t oldestTime then find_oldest prefix access entries' id t
                  else find_oldest prefix access entries' oldestKey oldestTime
      | None => id
      end
  end.

Definition evictOldestBotFromCache (ps : PersistentState) : PersistentState :=
  let '(now, ps) := time_now ps in
  let key := find_oldest "bot:" (cacheAccessTime ps) (bot_order (ticks ps) (map_to_list (bots ps))) "" now in
  if String.eqb key "" then ps
  else ps <| bots := delete key (bots ps) |> <| cacheAccessTime := delete ("bot:" +:+ key) (cacheAccessTime ps) |>.

Definition evictOldestJobFromCache (ps : PersistentState) : PersistentState :=
  let '(now, ps) := time_now ps in
  let key := find_oldest "job:" (cacheAccessTime ps) (job_order (ticks ps) (map_to_list (jobs ps))) "" now in
  if String.eqb key "" then ps
  else ps <| jobs := delete key (jobs ps) |> <| cacheAccessTime := delete ("job:" +:+ key) (cacheAccessTime ps) |>.

Definition touch (key : string) (ps : PersistentState) : PersistentState :=
  let '(now, ps) := time_now ps in ps <| cacheAccessTime := <[key := now]> (cacheAccessTime ps) |>.

(** [db.Get] under the retry manager: what the loop leaves in the captured
    variable, or its error. *)
Definition load_with_retry (key : string) (ps : PersistentState) : (entity + goerror) * PersistentState :=
  let '(r, (ps, v), _) :=
    Execute (λ x : PersistentState * option entity,
               match db_Get key x.1 with
               | (inl v, ps) => (None, (ps, Some v))
               | (inr e, ps) => (Some e, (ps, x.2))
               end) (retryPolicy ps) random (ps, None) in
  (match r, v with
   | Ok _, Some v => inl v
   | Ok _, None => inr (ErrNew "no value")               (* not reached *)
   | Err e, _ => inr e
   | Panic w, _ => inr (ErrNew w)
   end, ps).

(** An entry of another type does not unmarshal; the keys of each kind have
    their own prefix, so this does not arise. *)
Definition decode_error : goerror := ErrNew "json: cannot unmarshal value".

Definition GetBot (botID : string) (ps : PersistentState) : (Bot + goerror) * PersistentState :=
  match bots ps !! botID with
  | Some bot => (inl bot, touch ("bot:" +:+ botID) ps)
  | None =>
      match load_with_retry ("bot:" +:+ botID) ps with
      | (inr err, ps) =>
          (inr (if IsNotFoundError err then NewValidationError "get_bot" (ErrNew ("bot not found: " +:+ botID))
                else NewDatabaseError "get_bot" err), ps)
      | (inl (EBot bot), ps) =>
          let ps := if maxCacheSize ps <=? Z.of_nat (size (bots ps)) then evictOldestBotFromCache ps else ps in
          (inl bot, touch ("bot:" +:+ botID) (ps <| bots := <[botID := bot]> (bots ps) |>))
      | (inl _, ps) => (inr (NewDatabaseError "get_bot" decode_error), ps)
      end
  end.

Definition DeleteBot (botID : string) : PersistentState → res unit * PersistentState :=
  with_retry (λ ps,
    transaction (λ ps, match Delete ("bot:" +:+ botID) ps with
                       | (Some e, ps) => (Some (NewDatabaseError "delete_bot" e), ps)
                       | (None, ps) => (None, count_transaction ps)
                       end)
      (ps <| bots := delete botID (bots ps) |>
          <| cacheAccessTime := delete ("bot:" +:+ botID) (cacheAccessTime ps) |>)).

Definition ListBots (ps : PersistentState) : list Bot := snd <$> bot_order (ticks ps) (map_to_list (bots ps)).

Definition bot_timed_out (now : Time) (bot : Bot) : bool :=
  time_after now (BotTimeoutAt bot) && negb (String.eqb (BotState bot) BotStatusTimedOut).
Definition FindTimedOutBots (ps : PersistentState) : list string * PersistentState :=
  let '(now, ps) := time_now ps in
  (BotID <$> List.filter (bot_timed_out now) (ListBots ps), ps).

Definition ResetBot (botID : string) : PersistentState → res unit * PersistentState :=
  with_retry (transaction (λ ps,
    match bots ps !! botID with
    | None => (Some (NewValidationError "reset_bot" (ErrNew ("bot not found: " +:+ botID))), ps)
    | Some bot =>
        let bot := bot <| BotState := BotStatusTimedOut |> <| CurrentJob := None |>
                       <| FailureCount := wrap64 (FailureCount bot + 1) |> in
        let ps := ps <| bots := <[botID := bot]> (bots ps) |> in
        match store_all [("bot:" +:+ botID, "reset_bot", EBot bot)] ps with
        | (None, ps) => (None, count_transaction ps)
        | r => r
        end
    end)).

Definition UpdateBotInCache (botID : string) (status : BotStatus) (currentJob : option string)
    (lastSeen timeoutAt : Time) (ps : PersistentState) : PersistentState :=
  match bots ps !! botID with
  | Some bot =>
      ps <| bots := <[botID := bot <| BotState := status |> <| CurrentJob := currentJob |> <| LastSeen := lastSeen |>
                                   <| BotTimeoutAt := timeoutAt |> <| IsOnline := true |>]> (bots ps) |>
  | None => ps
  end.

Definition UpdateBotInCacheForJob (botID : string) (jobID : option string) (status : BotStatus)
    (ps : PersistentState) : PersistentState :=
  match bots ps !! botID with
  | Some bot =>
      let '(now, ps) := time_now ps in
      ps <| bots := <[botID := bot <| BotState := status |> <| CurrentJob := jobID |> <| LastSeen := now |>]> (bots ps) |>
  | None => ps
  end.

(** ** Jobs *)

Definition SaveJobWithRetry (job : MJob) : PersistentState → res unit * PersistentState :=
  with_retry (λ ps,
    transaction (λ ps, match store_all [("job:" +:+ JobID job, "save_job", EJob job)] ps with
                       | (None, ps) => (None, count_transaction ps)
                       | r => r
                       end)
      (ps <| jobs := <[JobID job := job]> (jobs ps) |>)).

Definition get_job_error (jobID : string) (err : goerror) : goerror :=
  if IsNotFoundError err then NewValidationError "get_job" (ErrNew ("job not found: " +:+ jobID))
  else NewDatabaseError "get_job" err.

Definition GetJob (jobID : string) (ps : PersistentState) : (MJob + goerror) * PersistentState :=
  match jobs ps !! jobID with
  | Some job => (inl job, touch ("job:" +:+ jobID) ps)
  | None =>
      match sqlite_GetJob with
      | Some get =>
          match get (data ps) jobID with
          | inr err => (inr (get_job_error jobID err), ps)
          | inl job => (inl job, touch ("job:" +:+ jobID) (ps <| jobs := <[jobID := job]> (jobs ps) |>))
          end
      | None =>
          match load_with_retry ("job:" +:+ jobID) ps with
          | (inr err, ps) => (inr (get_job_error jobID err), ps)
          | (inl (EJob job), ps) =>
              let ps := if maxCacheSize ps <=? Z.of_nat (size (jobs ps)) then evictOldestJobFromCache ps else ps in
              (inl job, touch ("job:" +:+ jobID) (ps <| jobs := <[jobID := job]> (jobs ps) |>))
          | (inl _, ps) => (inr (NewDatabaseError "get_job" decode_error), ps)
          end
      end
  end.

Definition DeleteJob (jobID : string) : PersistentState → res unit * PersistentState :=
  with_retry (λ ps,
    transaction (λ ps, match Delete ("job:" +:+ jobID) ps with
                       | (Some e, ps) => (Some (NewDatabaseError "delete_job" e), ps)
                       | (None, ps) => (None, count_transaction ps)
                       end)
      (ps <| jobs := delete jobID (jobs ps) |>
          <| cacheAccessTime := delete ("job:" +:+ jobID) (cacheAccessTime ps) |>)).

(** The listing of a database that is not SQLite. *)
Definition ListJobs (ps : PersistentState) : list MJob := snd <$> job_order (ticks ps) (map_to_list (jobs ps)).
Definition GetCampaignJobs (campaignID : string) (ps : PersistentState) : list MJob :=
  List.filter (λ j, match CampaignID j with Some c => String.eqb c campaignID | None => false end) (ListJobs ps).
Definition GetJobsInTimeRange (startTime endTime : Time) (ps : PersistentState) : list MJob :=
  List.filter (λ j, time_after (JobCreatedAt j) startTime && time_before (JobCreatedAt j) endTime) (ListJobs ps).

(** *** Assignment *)

(** [switch] over the known spellings after [strings.ToLower(strings.TrimSpace(s))]. *)
Definition normalizeCapability (capability : string) : string :=
  let c := ToLower (TrimSpace capability) in
  if String.eqb c "aflplusplus" || String.eqb c "afl++" then "afl++"
  else if String.eqb c "libfuzzer" then "libfuzzer"
  else if String.eqb c "honggfuzz" then "honggfuzz"
  else c.
Definition normalizeFuzzer (fuzzer : string) : string :=
  let f := ToLower (TrimSpace fuzzer) in
  if String.eqb f "aflplusplus" || String.eqb f "afl++" then "afl++"
  else if String.eqb f "libfuzzer" then "libfuzzer"
  else if String.eqb f "honggfuzz" then "honggfuzz"
  else f.

Definition job_available (caps : list string) (now : Time) (job : MJob) : bool :=
  String.eqb (JobState job) JobStatusPending && time_before now (JobTimeoutAt job)
  && slice_has (normalizeFuzzer (Fuzzer job)) caps.

(** The job is returned with the key that leads to it. *)
Definition findAvailableJobTx (botID : string) (ps : PersistentState)
    : (option (string * MJob) + goerror) * PersistentState :=
  match bots ps !! botID with
  | None => (inr (ErrNew ("bot not found: " +:+ botID)), ps)
  | Some bot =>
      let caps := normalizeCapability <$> Capabilities bot in
      let '(now, ps) := time_now ps in
      (inl (find (λ kj, job_available caps now kj.2) (job_order (ticks ps) (map_to_list (jobs ps)))), ps)
  end.

Definition assign_job (botID : string) (now : Time) (job : MJob) : MJob :=
  job <| JobState := JobStatusAssigned |> <| AssignedBot := Some botID |> <| StartedAt := Some now |>.
Definition assign_bot (jobID : string) (now : Time) (bot : Bot) : Bot :=
  bot <| BotState := BotStatusBusy |> <| CurrentJob := Some jobID |> <| LastSeen := now |>.

(** The transaction of an assignment, for the copy of the bot made before it.
    The chosen job is written in the cache, the bot is not. *)
Definition assign_tx (botID : string) (bot : Bot) (x : PersistentState * option MJob)
    : option goerror * (PersistentState * option MJob) :=
  let '(ps, assigned) := x in
  match findAvailableJobTx botID ps with
  | (inr e, ps) => (Some e, (ps, assigned))
  | (inl None, ps) =>
      (Some (NewValidationError "job_assignment" (ErrNew "no jobs available for bot capabilities")), (ps, assigned))
  | (inl (Some (key, job)), ps) =>
      if negb (String.eqb (BotState bot) BotStatusIdle)
      then (Some (NewValidationError "job_assignment" (ErrNew ("bot not available: " +:+ BotState bot))), (ps, assigned))
      else
        let '(now, ps) := time_now ps in
        let job := assign_job botID now job in
        let ps := ps <| jobs := <[key := job]> (jobs ps) |> in
        let bot := assign_bot (JobID job) now bot in
        match store_all [("job:" +:+ JobID job, "save_job_assignment", EJob job);
                         ("bot:" +:+ botID, "save_bot_assignment", EBot bot);
                         ("assignment:" +:+ JobID job, "save_assignment",
                           EAssignment (mkJobAssignment (JobID job) botID now "assigned"))] ps with
        | (Some e, ps) => (Some e, (ps, assigned))
        | (None, ps) => (None, (ps, Some job))
        end
  end.

(** One attempt: the bot is copied, then the transaction runs. *)
Definition assign_attempt (botID : string) (x : PersistentState * option MJob)
    : option goerror * (PersistentState * option MJob) :=
  match bots x.1 !! botID with
  | None => (Some (NewValidationError "job_assignment" (ErrNew ("bot not found: " +:+ botID))), x)
  | Some bot => Transaction (assign_tx botID bot) x
  end.

(** The cache update after a successful run. *)
Definition assign_finish (botID : string) (job : MJob) (ps : PersistentState) : PersistentState :=
  let ps := ps <| jobs := <[JobID job := job]> (jobs ps) |> in
  let ps := match bots ps !! botID with
            | Some bot => let '(now, ps) := time_now ps in
                          ps <| bots := <[botID := assign_bot (JobID job) now bot]> (bots ps) |>
            | None => ps
            end in
  count_transaction ps.

Definition AtomicJobAssignmentWithRetry (botID : string) (ps : PersistentState)
    : option MJob * res unit * PersistentState :=
  let '(r, (ps, assigned)) := (Execute (assign_attempt botID) (retryPolicy ps) random (ps, None)).1 in
  match r, assigned with
  | Ok _, Some job => (assigned, r, assign_finish botID job ps)
  | _, _ => (assigned, r, ps)
  end.

(** *** Completion *)

Definition complete_job (success : bool) (now : Time) (job : MJob) : MJob :=
  job <| JobState := if success then JobStatusCompleted else JobStatusFailed |>
      <| CompletedAt := Some now |> <| AssignedBot := None |>.
Definition release_bot (now : Time) (bot : Bot) : Bot :=
  bot <| BotState := BotStatusIdle |> <| CurrentJob := None |> <| LastSeen := now |>.

Definition complete_tx (jobID botID : string) (success : bool) (ps : PersistentState)
    : option goerror * PersistentState :=
  match jobs ps !! jobID with
  | None => (Some (NewValidationError "complete_job" (ErrNew ("job not found: " +:+ jobID))), ps)
  | Some job =>
      match bots ps !! botID with
      | None => (Some (NewValidationError "complete_job" (ErrNew ("bot not found: " +:+ botID))), ps)
      | Some bot =>
          if negb (match AssignedBot job with Some b => String.eqb b botID | None => false end)
          then (Some (NewValidationError "complete_job" (ErrNew "job not assigned to bot")), ps)
          else
            let '(now, ps) := time_now ps in
            let job := complete_job success now job in
            let bot := release_bot now bot in
            let ps := ps <| jobs := <[jobID := job]> (jobs ps) |> <| bots := <[botID := bot]> (bots ps) |> in
            match store_all [("job:" +:+ jobID, "save_job_completion", EJob job);
                             ("bot:" +:+ botID, "save_bot_completion", EBot bot);
                             ("assignment:" +:+ jobID, "save_assignment_completion",
                               EAssignment (mkJobAssignment jobID botID now "completed"))] ps with
            | (None, ps) => (None, count_transaction ps)
            | r => r
            end
      end
  end.

Definition CompleteJobWithRetry (jobID botID : string) (success : bool)
    : PersistentState → res unit * PersistentState :=
  with_retry (transaction (complete_tx jobID botID success)).

(** [stamp] is [now.Format(time.RFC3339)]. *)
Definition UpdateJobStatusToTimedOut (stamp : Time → string) (jobID : string)
    : PersistentState → res unit * PersistentState :=
  with_retry (transaction (λ ps,
    match jobs ps !! jobID with
    | None => (Some (NewValidationError "update_job_timeout" (ErrNew ("job not found: " +:+ jobID))), ps)
    | Some job =>
        if negb (String.eqb (JobState job) JobStatusPending) then (None, ps)
        else
          let '(now, ps) := time_now ps in
          let md := <["timed_out_at" := AString (stamp now)]>
                      (<["failure_reason" := AString "timeout"]> (default ∅ (JobMetadata job))) in
          let job := job <| JobState := JobStatusFailed |> <| CompletedAt := Some now |> <| JobMetadata := Some md |> in
          let ps := ps <| jobs := <[jobID := job]> (jobs ps) |> in
          match store_all [("job:" +:+ jobID, "save_job_timeout", EJob job)] ps with
          | (None, ps) => (None, count_transaction ps)
          | r => r
          end
    end)).

Definition UpdateJobInCache (job : MJob) (ps : PersistentState) : PersistentState :=
  ps <| jobs := <[JobID job := job]> (jobs ps) |>.

Definition UpdateJobStatusInCache (jobID : string) (status : MJobStatus) (completedAt : option Time)
    (ps : PersistentState) : PersistentState :=
  match jobs ps !! jobID with
  | Some job =>
      let job := job <| JobState := status |> <| CompletedAt := completedAt |> in
      let job := if completedAt is Some _ then job <| AssignedBot := None |> else job in
      ps <| jobs := <[jobID := job]> (jobs ps) |>
  | None => ps
  end.

(** *** Orphans *)

Definition gracePeriod : Duration := 10 * Second.

Definition job_orphaned (now : Time) (bs : gmap string Bot) (job : MJob) : bool :=
  if negb (String.eqb (JobState job) JobStatusAssigned) && negb (String.eqb (JobState job) JobStatusStarting)
     && negb (String.eqb (JobState job) JobStatusRunning) then false
  else match AssignedBot job with
       | None => true
       | Some b =>
           match bs !! b with
           | None => true
           | Some bot =>
               if String.eqb (BotState bot) BotStatusFailed || String.eqb (BotState bot) BotStatusTimedOut
                  || negb (IsOnline bot) then true
               else if match LeaseExpiresAt job with
                       | Some e => time_after (time_add now (- gracePeriod)) e
                       | None => false
                       end then true
               else if time_after now (time_add (JobTimeoutAt job) gracePeriod) then
                 match CurrentJob bot with
                 | None => true
                 | Some c => negb (String.eqb c (JobID job))
                 end
               else false
           end
       end.

Definition FindOrphanedJobs (ps : PersistentState) : list MJob * PersistentState :=
  let '(now, ps) := time_now ps in
  (List.filter (job_orphaned now (bots ps)) (ListJobs ps), ps).

(** ** Metadata and statistics *)

Definition SetMetadata (key : string) (value : goany) : PersistentState → res unit * PersistentState :=
  with_retry (λ ps,
    transaction (λ ps, match store_all [("metadata:" +:+ key, "set_metadata", EAny value)] ps with
                       | (None, ps) => (None, count_transaction ps)
                       | r => r
                       end)
      (ps <| metadata := <[key := value]> (metadata ps) |>)).

Definition GetMetadata (key : string) (ps : PersistentState) : (goany + goerror) * PersistentState :=
  match metadata ps !! key with
  | Some v => (inl v, ps)
  | None =>
      match load_with_retry ("metadata:" +:+ key) ps with
      | (inr err, ps) =>
          (inr (if IsNotFoundError err then NewValidationError "get_metadata" (ErrNew ("metadata not found: " +:+ key))
                else NewDatabaseError "get_metadata" err), ps)
      | (inl (EAny v), ps) => (inl v, ps <| metadata := <[key := v]> (metadata ps) |>)
      | (inl _, ps) => (inr (NewDatabaseError "get_metadata" decode_error), ps)
      end
  end.

Definition GetStatsTyped (ps : PersistentState) : StateStats :=
  (stats ps) <| BotsRegistered := Z.of_nat (size (bots ps)) |> <| JobsCreated := Z.of_nat (size (jobs ps)) |>.

(** [GetBotCompletedJobs] without an SQL database: a count over the cache. *)
Definition GetBotCompletedJobs (botID : string) (ps : PersistentState) : nat :=
  length (List.filter (λ j, match AssignedBot j with Some b => String.eqb b botID | None => false end
                            && (String.eqb (JobState j) JobStatusCompleted || String.eqb (JobState j) JobStatusFailed))
            (ListJobs ps)).

(** [cleanupCacheAccessTimes]: drop the access times of evicted entries. *)
Definition stale_access (ps : PersistentState) (key : string) : bool :=
  if HasPrefix key "bot:" then negb (bool_decide (is_Some (bots ps !! TrimPrefix key "bot:")))
  else if HasPrefix key "job:" then negb (bool_decide (is_Some (jobs ps !! TrimPrefix key "job:")))
  else false.
Definition cleanupCacheAccessTimes (ps : PersistentState) : PersistentState :=
  ps <| cacheAccessTime := filter (λ kt, stale_access ps kt.1 = false) (cacheAccessTime ps) |>.

End state_ops.

(** ** The database layer *)

(** [ps'] is [ps] but for the database and its fault script. *)
Definition db_only (ps ps' : PersistentState) : Prop :=
  ps' = ps <| data := data ps' |> <| faults := faults ps' |>.

Lemma db_only_refl ps : db_only ps ps.
Proof. by destruct ps. Qed.
Lemma db_only_trans a b c : db_only a b → db_only b c → db_only a c.
Proof. unfold db_only. intros Hab Hbc. rewrite Hbc, Hab. done. Qed.
Lemma db_only_caches a b : db_only a b →
  bots b = bots a ∧ jobs b = jobs a ∧ metadata b = metadata a ∧ retryPolicy b = retryPolicy a ∧
  stats b = stats a ∧ maxCacheSize b = maxCacheSize a ∧ cacheAccessTime b = cacheAccessTime a ∧
  clock b = clock a ∧ ticks b = ticks a.
Proof. unfold db_only. by intros ->. Qed.

Lemma db_call_frame ps o ps' : db_call ps = (o, ps') → db_only ps ps' ∧ data ps' = data ps.
Proof. unfold db_call. destruct ps as [d fs]; simpl. destruct fs as [|f fs]; by intros [= <- <-]. Qed.
Lemma db_call_healthy ps : faults ps = [] → db_call ps = (None, ps).
Proof. unfold db_call. by intros ->. Qed.

(** What a list of writes makes of the database. *)
Definition apply_writes (writes : list (string * string * entity)) (d : gmap string entity) : gmap string entity :=
  foldl (λ d w, <[w.1.1 := w.2]> d) d writes.

Lemma store_all_spec writes ps o ps' : store_all writes ps = (o, ps') →
  db_only ps ps' ∧ (o = None → data ps' = apply_writes writes (data ps)) ∧
  ∀ e, o = Some e → ∃ op e0, e = NewDatabaseError op e0.
Proof.
  revert ps. induction writes as [|[[key op] v] writes IH]; intros ps; simpl.
  { intros [= <- <-]. split; [apply db_only_refl|done]. }
  unfold Store. destruct (db_call ps) as [[e|] ps1] eqn:E; apply db_call_frame in E as [Hf Hd].
  - intros [= <- <-]. split_and!; [done..|]. intros e' [= <-]. eauto.
  - intros Hs. apply IH in Hs as (Hf2 & Hd2 & He). split_and!; [|simpl in *; by rewrite <- Hd|done].
    eapply db_only_trans; [|exact Hf2]. unfold db_only in *. rewrite Hf. done.
Qed.

Lemma store_all_healthy writes ps : faults ps = [] →
  store_all writes ps = (None, ps <| data := apply_writes writes (data ps) |>).
Proof.
  revert ps. induction writes as [|[[key op] v] writes IH]; intros ps Hf; simpl; [by destruct ps|].
  unfold Store. rewrite db_call_healthy by done. rewrite IH by done. done.
Qed.

(** A failed transaction leaves the database as it was. *)
Lemma Transaction_failed {S} fn ps (s : S) e ps' s' :
  Transaction fn (ps, s) = (Some e, (ps', s')) → data ps' = data ps.
Proof.
  unfold Transaction. destruct (db_call ps) as [[e1|] ps1] eqn:E1; apply db_call_frame in E1 as [_ Hd1].
  { by intros [= <- <- <-]. }
  destruct (fn (ps1, s)) as [[e2|] [ps2 s2]]; [by intros [= <- <- <-]|].
  destruct (db_call ps2) as [[e3|] ps3]; [by intros [= <- <- <-]|done].
Qed.

(** The state after a transaction: what the closure left, with the database
    rolled back on failure. *)
Lemma Transaction_inv {S} fn ps (s : S) o x :
  Transaction fn (ps, s) = (o, x) →
  (∃ e ps1, o = Some e ∧ x = (ps1, s) ∧ db_only ps ps1) ∨
  ∃ ps1 o2 ps2 s2, db_only ps ps1 ∧ data ps1 = data ps ∧ fn (ps1, s) = (o2, (ps2, s2)) ∧ x.2 = s2 ∧
    db_only ps2 x.1 ∧ (o = None → o2 = None ∧ data x.1 = data ps2) ∧ (∀ e, o2 = Some e → o = Some e) ∧
    (o2 = None → o ≠ None → ∃ e0, o = Some (NewDatabaseError "commit_transaction" e0)).
Proof.
  unfold Transaction. destruct (db_call ps) as [[e1|] ps1] eqn:E1; apply db_call_frame in E1 as [Hf1 Hd1].
  { intros [= <- <-]. left. eauto. }
  destruct (fn (ps1, s)) as [[e2|] [ps2 s2]] eqn:E2.
  { intros [= <- <-]. right. exists ps1, (Some e2), ps2, s2. split_and!; try done. }
  destruct (db_call ps2) as [[e3|] ps3] eqn:E3; apply db_call_frame in E3 as [Hf3 Hd3]; intros [= <- <-];
    right; exists ps1, None, ps2, s2; split_and!; try done.
  - unfold db_only in *. simpl. by rewrite Hf3.
  - intros _ _. by eexists.
Qed.

Lemma Transaction_healthy {S} fn ps (s : S) ps2 s2 :
  faults ps = [] → fn (ps, s) = (None, (ps2, s2)) → faults ps2 = [] →
  Transaction fn (ps, s) = (None, (ps2, s2)).
Proof. intros H1 H2 H3. unfold Transaction. rewrite db_call_healthy, H2, db_call_healthy by done. done. Qed.

Lemma transaction_healthy fn ps ps2 :
  faults ps = [] → fn ps = (None, ps2) → faults ps2 = [] → transaction fn ps = (None, ps2).
Proof.
  intros H1 H2 H3. unfold transaction. erewrite Transaction_healthy; [done|done| |done]. simpl. by rewrite H2.
Qed.
