(* ===== verification/MasterJobs.v ===== *)
(** * Properties of job assignment and completion by the master

    The theorems about the operations of MasterState.v that move jobs between
    the pool, the bots and their final states, with and without database
    failures. *)

From S2P Require Import Prelude Retry MasterTypes MasterState.

(** Every cached job sits under its own ID. *)
Definition jobs_keyed (m : gmap string MJob) : Prop := ∀ k j, m !! k = Some j → JobID j = k.

Lemma jobs_keyed_insert m k j : jobs_keyed m → JobID j = k → jobs_keyed (<[k := j]> m).
Proof.
  intros Hm Hj i x. destruct (decide (k = i)) as [->|]; [rewrite lookup_insert_eq; by intros [= <-]|].
  rewrite lookup_insert_ne by done. apply Hm.
Qed.

(** The database keys of the three kinds of entities differ. *)
Lemma keys_differ a b :
  "job:" +:+ a ≠ "bot:" +:+ b ∧ "job:" +:+ a ≠ "assignment:" +:+ b ∧ "bot:" +:+ a ≠ "assignment:" +:+ b.
Proof. by split_and!. Qed.

(** The three records an assignment or a completion writes together. *)
Definition records_of (job : MJob) (bot : Bot) (key bkey : string) (a : JobAssignment) (d : gmap string entity) : Prop :=
  d !! ("job:" +:+ key) = Some (EJob job) ∧ d !! ("bot:" +:+ bkey) = Some (EBot bot) ∧
  d !! ("assignment:" +:+ key) = Some (EAssignment a).

Lemma apply_three job bot key bkey a o1 o2 o3 d :
  records_of job bot key bkey a
    (apply_writes [("job:" +:+ key, o1, EJob job); ("bot:" +:+ bkey, o2, EBot bot);
                   ("assignment:" +:+ key, o3, EAssignment a)] d).
Proof.
  destruct (keys_differ key bkey) as (H1 & H2 & H3). destruct (keys_differ key key) as (_ & H4 & _).
  destruct (keys_differ bkey key) as (_ & _ & H5).
  unfold records_of, apply_writes; cbn [foldl fst snd]. split_and!.
  - rewrite lookup_insert_ne by done. rewrite lookup_insert_ne by done. apply lookup_insert_eq.
  - rewrite lookup_insert_ne by done. apply lookup_insert_eq.
  - apply lookup_insert_eq.
Qed.

(** What [findAvailableJobTx] guarantees of the job it picks, and when it picks one. *)
Definition matches_bot (bot : Bot) (now : Time) (job : MJob) : Prop :=
  JobState job = JobStatusPending ∧ now < JobTimeoutAt job ∧
  ∃ c, c ∈ Capabilities bot ∧ normalizeCapability c = normalizeFuzzer (Fuzzer job).

Lemma job_available_matches bot now job :
  job_available (normalizeCapability <$> Capabilities bot) now job = true ↔ matches_bot bot now job.
Proof.
  unfold job_available, matches_bot, time_before. rewrite !andb_true_iff, String.eqb_eq, Z.ltb_lt, slice_has_true.
  rewrite list_elem_of_fmap. naive_solver.
Qed.

(** Why a job counts as orphaned. *)
Inductive orphan_reason (now : Time) (bs : gmap string Bot) (job : MJob) : Prop :=
  | no_bot : AssignedBot job = None → orphan_reason now bs job
  | unknown_bot b : AssignedBot job = Some b → bs !! b = None → orphan_reason now bs job
  | unhealthy_bot b bot : AssignedBot job = Some b → bs !! b = Some bot →
      BotState bot = BotStatusFailed ∨ BotState bot = BotStatusTimedOut ∨ IsOnline bot = false →
      orphan_reason now bs job
  | lease_expired e : LeaseExpiresAt job = Some e → e + gracePeriod < now → orphan_reason now bs job
  | abandoned b bot : AssignedBot job = Some b → bs !! b = Some bot → CurrentJob bot ≠ Some (JobID job) →
      JobTimeoutAt job + gracePeriod < now → orphan_reason now bs job.

Definition in_progress (job : MJob) : Prop :=
  JobState job = JobStatusAssigned ∨ JobState job = JobStatusStarting ∨ JobState job = JobStatusRunning.

Lemma in_progress_spec job :
  negb (String.eqb (JobState job) JobStatusAssigned) && negb (String.eqb (JobState job) JobStatusStarting)
  && negb (String.eqb (JobState job) JobStatusRunning) = false ↔ in_progress job.
Proof.
  unfold in_progress. rewrite !andb_false_iff, !negb_false_iff, !String.eqb_eq. tauto.
Qed.

Lemma unhealthy_spec bot :
  String.eqb (BotState bot) BotStatusFailed || String.eqb (BotState bot) BotStatusTimedOut
  || negb (IsOnline bot) = true ↔
  BotState bot = BotStatusFailed ∨ BotState bot = BotStatusTimedOut ∨ IsOnline bot = false.
Proof. rewrite !orb_true_iff, negb_true_iff, !String.eqb_eq. tauto. Qed.

Lemma lease_spec now job :
  match LeaseExpiresAt job with Some e => time_after (time_add now (- gracePeriod)) e | None => false end = true ↔
  ∃ e, LeaseExpiresAt job = Some e ∧ e + gracePeriod < now.
Proof.
  unfold time_after, time_add. destruct (LeaseExpiresAt job) as [e|]; [|naive_solver].
  rewrite Z.ltb_lt. split; [intros; exists e; split; [done|lia]|intros (e' & [= <-] & ?); lia].
Qed.

Lemma not_working_spec bot job :
  match CurrentJob bot with None => true | Some c => negb (String.eqb c (JobID job)) end = true ↔
  CurrentJob bot ≠ Some (JobID job).
Proof.
  destruct (CurrentJob bot) as [c|]; [|naive_solver]. rewrite negb_true_iff, String.eqb_neq. naive_solver.
Qed.

Lemma job_orphaned_spec now bs job :
  job_orphaned now bs job = true ↔ in_progress job ∧ orphan_reason now bs job.
Proof.
  unfold job_orphaned. rewrite <- in_progress_spec. destruct (_ && _ && _); [split; [done|by intros [? _]]|].
  transitivity (orphan_reason now bs job); [|tauto].
  destruct (AssignedBot job) as [b|] eqn:Ea; [|split; [intros _; by apply no_bot|done]].
  destruct (bs !! b) as [bot|] eqn:Eb; [|split; [intros _; by eapply unknown_bot|done]].
  destruct (_ || _ || _) eqn:Eh.
  { apply unhealthy_spec in Eh. split; [intros _; by eapply unhealthy_bot|done]. }
  destruct (match LeaseExpiresAt job with Some _ => _ | None => _ end) eqn:El.
  { apply lease_spec in El as (e & He & Hlt). split; [intros _; by eapply lease_expired|done]. }
  assert (∀ e, LeaseExpiresAt job = Some e → ¬ e + gracePeriod < now) as Hl.
  { intros e He Hlt. assert (∃ e, LeaseExpiresAt job = Some e ∧ e + gracePeriod < now) as H%lease_spec by eauto.
    congruence. }
  assert (¬ (BotState bot = BotStatusFailed ∨ BotState bot = BotStatusTimedOut ∨ IsOnline bot = false)) as Hh.
  { intros H%unhealthy_spec. congruence. }
  unfold time_after, time_add. destruct (Z.ltb_spec (JobTimeoutAt job + gracePeriod) now) as [Ht|Ht].
  - rewrite not_working_spec. split; [intros Hc; by eapply abandoned|]. intros Hr. destruct Hr; simplify_eq; [by destruct Hh|by destruct (Hl e)|done].
  - split; [done|]. intros Hr. exfalso. destruct Hr; simplify_eq; [by apply Hh|by eapply Hl|lia].
Qed.

Section assignment.
Variable random : Z → float64.
Variable job_order : nat → list (string * MJob) → list (string * MJob).
Hypothesis job_order_perm : ∀ k l, job_order k l ≡ₚ l.
Implicit Types (ps : PersistentState).

Abbreviation try_assign := (assign_attempt job_order).
Abbreviation run_assign := (assign_tx job_order).
Abbreviation assign := (AtomicJobAssignmentWithRetry random job_order).

Lemma find_job ps bot botID o ps' :
  bots ps !! botID = Some bot → findAvailableJobTx job_order botID ps = (o, ps') →
  ps' = ps <| ticks := S (ticks ps) |> ∧
  match o with
  | inl (Some (k, j)) => jobs ps !! k = Some j ∧ matches_bot bot (clock ps (ticks ps)) j
  | inl None => ∀ k j, jobs ps !! k = Some j → ¬ matches_bot bot (clock ps (ticks ps)) j
  | inr _ => False
  end.
Proof.
  intros Hb. unfold findAvailableJobTx. rewrite Hb. unfold time_now. intros [= <- <-]. split; [done|].
  set (caps := normalizeCapability <$> Capabilities bot). set (now := clock ps (ticks ps)).
  cbn [jobs ticks set_field]. set (l := job_order _ _).
  assert (∀ kj, In kj l ↔ jobs ps !! kj.1 = Some kj.2) as Hl.
  { intros [k j]. rewrite <- list_elem_of_In. unfold l. rewrite job_order_perm. apply elem_of_map_to_list. }
  destruct (find _ l) as [[k j]|] eqn:Ef.
  - apply find_some in Ef as [Hin Ha]. by split; [apply (Hl (k, j))|apply job_available_matches].
  - intros k j Hj Hm%job_available_matches. apply (Hl (k, j)) in Hj. apply (find_none _ _ Ef) in Hj.
    unfold caps in Hj. simpl in Hj. congruence.
Qed.

(** The effect of one attempt on the caches, whether it fails or not: at most
    one pending job is now marked as assigned. *)
Lemma assign_tx_spec botID bot ps a o ps' a' :
  bots ps !! botID = Some bot → run_assign botID bot (ps, a) = (o, (ps', a')) →
  bots ps' = bots ps ∧ (o ≠ None → a' = a) ∧
  (jobs ps' = jobs ps ∧ o ≠ None ∧ (∀ e op e0, o = Some e → e ≠ NewDatabaseError op e0) ∨
   ∃ k job t now, jobs ps !! k = Some job ∧ matches_bot bot t job ∧ BotState bot = BotStatusIdle ∧
     jobs ps' = <[k := assign_job botID now job]> (jobs ps) ∧
     (o = None → a' = Some (assign_job botID now job) ∧
        records_of (assign_job botID now job) (assign_bot (JobID job) now bot) (JobID job) botID
          (mkJobAssignment (JobID job) botID now "assigned") (data ps')) ∧
     (∀ e, o = Some e → ∃ op e0, e = NewDatabaseError op e0)).
Proof.
  intros Hb. unfold assign_tx. destruct (findAvailableJobTx job_order botID ps) as [f ps1] eqn:Ef.
  destruct (find_job _ _ _ _ _ Hb Ef) as [-> Hf]. destruct f as [[[k job]|]|e]; [| |done].
  2:{ intros [= <- <- <-]. split_and!; [done..|]. left. split_and!; [done..|]. by intros e op e0 [= <-]. }
  destruct Hf as [Hk Hm]. destruct (String.eqb_spec (BotState bot) BotStatusIdle) as [Hi|Hi]; cbn [negb].
  2:{ intros [= <- <- <-]. split_and!; [done..|]. left. split_and!; [done..|]. by intros e op e0 [= <-]. }
  unfold time_now. set (now := clock _ _). set (job' := assign_job botID now job).
  change (JobID job') with (JobID job). cbv zeta.
  match goal with |- context [store_all ?w ?p] => destruct (store_all w p) as [[e|] ps2] eqn:Es end;
    apply store_all_spec in Es as (Hd & Hdata & He); apply db_only_caches in Hd as (Hb2 & Hj2 & _);
    intros [= <- <- <-]; (split; [done|]); (split; [done|]); right; exists k, job, (clock ps (ticks ps)), now.
  - split_and!; [done..|exact Hj2|done|]. intros e' [= <-]. by apply He.
  - split_and!; [done..|exact Hj2| |done]. intros _. split; [done|]. rewrite Hdata by done. apply apply_three.
Qed.

(** The state of the caches between attempts: the bots as at the start, and
    every job as at the start or marked as assigned by a failed attempt. *)
Definition between ps0 ps : Prop :=
  bots ps = bots ps0 ∧ jobs_keyed (jobs ps) ∧
  ∀ k j, jobs ps !! k = Some j → jobs ps0 !! k = Some j ∨ JobState j = JobStatusAssigned.

Lemma assign_attempt_between botID ps0 x :
  between ps0 x.1 → between ps0 (try_assign botID x).2.1.
Proof.
  destruct x as [ps a]. intros (Hb & Hk & Hj). unfold assign_attempt. simpl.
  destruct (bots ps !! botID) as [bot|] eqn:Eb; [|done].
  match goal with |- context [Transaction ?f ?y] => destruct (Transaction f y) as [o [ps' a']] eqn:Et end. simpl.
  apply Transaction_inv in Et as [(e & ps1 & _ & [= <- <-] & Hd)|(ps1 & o2 & ps2 & s2 & Hd1 & _ & Ef & _ & Hd2 & _)].
  { apply db_only_caches in Hd as (Hb1 & Hj1 & _). unfold between. by rewrite Hb1, Hj1. }
  apply db_only_caches in Hd1 as (Hb1 & Hj1 & _). apply db_only_caches in Hd2 as (Hb2 & Hj2 & _).
  apply assign_tx_spec in Ef as (Hb3 & _ & Hj3); [|by rewrite Hb1].
  simpl in *. unfold between. rewrite Hb2, Hj2, Hb3, Hb1. split; [done|].
  destruct Hj3 as [(-> & _)|(k & job & t & now & Hkj & _ & _ & -> & _)]; rewrite Hj1 in *; [done|].
  split; [apply jobs_keyed_insert; [done|]; exact (Hk k job Hkj)|].
  intros i j. destruct (decide (k = i)) as [->|]; [|by rewrite lookup_insert_ne by done; apply Hj].
  rewrite lookup_insert_eq. intros [= <-]. by right.
Qed.

(** C1: a successful assignment.  Whatever database failures the retries went
    through, when [AtomicJobAssignmentWithRetry] reports success it hands out a
    job that was pending, not timed out and matched by a capability of the bot,
    which was idle; the job is assigned to the bot and the bot busy with the
    job, in the caches as well as in the database, with the assignment record. *)
Theorem assignment_consistent botID ps o ps' :
  jobs_keyed (jobs ps) → assign botID ps = (o, Ok tt, ps') →
  ∃ bot old t now now', bots ps !! botID = Some bot ∧ BotState bot = BotStatusIdle ∧
    jobs ps !! JobID old = Some old ∧ matches_bot bot t old ∧
    o = Some (assign_job botID now old) ∧ jobs ps' !! JobID old = Some (assign_job botID now old) ∧
    bots ps' !! botID = Some (assign_bot (JobID old) now' bot) ∧
    records_of (assign_job botID now old) (assign_bot (JobID old) now bot) (JobID old) botID
      (mkJobAssignment (JobID old) botID now "assigned") (data ps').
Proof.
  intros Hkey. unfold AtomicJobAssignmentWithRetry.
  destruct (Execute_inv (try_assign botID) (λ x, between ps x.1) (retryPolicy ps) random (ps, None))
    as [_ Hok]; [intros x; apply assign_attempt_between|by split_and!; [done|done|left]|].
  destruct (Execute _ _ _ _) as [[r [ps1 a]] s]. simpl in *.
  destruct r as [[]|e|w]; [|destruct a; by intros [= ]..].
  destruct (Hok eq_refl) as ([ps0 a0] & (Hb0 & Hk0 & Hj0) & Hat). clear Hok. simpl in *.
  unfold assign_attempt in Hat. simpl in Hat.
  destruct (bots ps0 !! botID) as [bot|] eqn:Eb; [|done].
  apply Transaction_inv in Hat as [(e & p & ? & _)|(p1 & o2 & p2 & s2 & Hd1 & _ & Ef & Hs & Hd2 & Hnone & _)]; [done|].
  destruct (Hnone eq_refl) as [-> Hdata]. apply db_only_caches in Hd1 as (Hb1 & Hj1 & _).
  apply db_only_caches in Hd2 as (Hb2 & Hj2 & _). simpl in *. subst s2.
  apply assign_tx_spec in Ef as (Hb3 & _ & [(_ & ? & _)|(k & job & t & now & Hk & Hm & Hi & Hj & Hrec & _)]);
    [done| |by rewrite Hb1].
  destruct (Hrec eq_refl) as [-> Hr]. rewrite Hj1 in *. pose proof (Hk0 _ _ Hk) as <-.
  unfold assign_finish, time_now. cbn [jobs bots set_field]. rewrite Hb2, Hb3, Hb1, Eb.
  intros [= <- <-]. exists bot, job, t, now. eexists. rewrite <- Hb0. simpl. split_and!; try done.
  - destruct (Hj0 _ _ Hk) as [?|Ha]; [done|]. destruct Hm as (Hp & _). by rewrite Ha in Hp.
  - by rewrite lookup_insert_eq.
  - by rewrite lookup_insert_eq.
  - by rewrite Hdata.
Qed.

(** Begin works, then the first write fails. *)
Definition first_store_fails ps (e : goerror) : Prop := faults ps = [None; Some e].

Lemma assign_attempt_fault botID ps a key job bot e :
  jobs ps = {[key := job]} → bots ps !! botID = Some bot → BotState bot = BotStatusIdle →
  matches_bot bot (clock ps (ticks ps)) job → first_store_fails ps e →
  ∃ ps1 now, try_assign botID (ps, a) = (Some (NewDatabaseError "save_job_assignment" e), (ps1, a)) ∧
    data ps1 = data ps ∧ bots ps1 = bots ps ∧ jobs ps1 = {[key := assign_job botID now job]} ∧
    faults ps1 = [] ∧ retryPolicy ps1 = retryPolicy ps.
Proof.
  intros Hj Hb Hi Hm Hf. unfold assign_attempt. simpl. rewrite Hb.
  unfold Transaction, db_call. rewrite Hf. cbn [faults set_field]. unfold assign_tx.
  match goal with |- context [findAvailableJobTx _ _ ?p] => set (ps0 := p) end.
  destruct (findAvailableJobTx job_order botID ps0) as [f ps1] eqn:Ef.
  destruct (find_job ps0 bot botID _ _ Hb Ef) as [-> Hr]. destruct f as [[[k j]|]|?]; [| |done].
  2:{ exfalso. apply (Hr key job); [|done]. simpl. by rewrite Hj, lookup_singleton_eq. }
  destruct Hr as [Hk _]. simpl in Hk. rewrite Hj in Hk. apply lookup_singleton_Some in Hk as [-> ->].
  rewrite Hi. cbn [negb]. unfold time_now, store_all, Store, db_call. simpl.
  eexists _, _. split; [done|]. simpl. split_and!; try done. by rewrite Hj, insert_singleton_eq.
Qed.

Lemma assign_attempt_none botID ps a bot :
  bots ps !! botID = Some bot → faults ps = [] →
  (∀ k j, jobs ps !! k = Some j → JobState j ≠ JobStatusPending) →
  ∃ ps1, try_assign botID (ps, a) =
    (Some (NewValidationError "job_assignment" (ErrNew "no jobs available for bot capabilities")), (ps1, a)) ∧
    data ps1 = data ps ∧ bots ps1 = bots ps ∧ jobs ps1 = jobs ps.
Proof.
  intros Hb Hf Hj. unfold assign_attempt. simpl. rewrite Hb.
  unfold Transaction. rewrite db_call_healthy by done. unfold assign_tx.
  destruct (findAvailableJobTx job_order botID ps) as [f ps1] eqn:Ef.
  destruct (find_job ps bot botID _ _ Hb Ef) as [-> Hr]. destruct f as [[[k j]|]|?]; [| |done].
  { destruct Hr as [Hk (Hp & _)]. by destruct (Hj k j Hk). }
  eexists. split; [done|]. done.
Qed.

(** A transient database error strands a job.  With one pending job that
    fits an idle bot, when the first write of the assignment fails with an error
    the policy retries, the retry finds no job any more and the call ends with
    "no jobs available": the cached job was already marked as assigned to the
    bot and is not restored.  The database still has it as before, the bot
    is still idle without a job, and no one works on the job. *)
Theorem transient_fault_strands_job botID ps key job bot e :
  jobs ps = {[key := job]} → bots ps !! botID = Some bot → BotState bot = BotStatusIdle →
  matches_bot bot (clock ps (ticks ps)) job → retryPolicy ps = DatabasePolicy → first_store_fails ps e →
  isRetryableError DatabasePolicy (NewDatabaseError "save_job_assignment" e) = true →
  let '(o, r, ps') := assign botID ps in
  o = None ∧
  r = Err (ErrWrap "non-retryable error"
        (NewValidationError "job_assignment" (ErrNew "no jobs available for bot capabilities"))) ∧
  data ps' = data ps ∧ bots ps' !! botID = Some bot ∧
  ∃ now, jobs ps' = {[key := assign_job botID now job]}.
Proof.
  intros Hj Hb Hi Hm Hp Hf Hr. unfold AtomicJobAssignmentWithRetry. rewrite Hp.
  destruct (assign_attempt_fault botID ps None key job bot e Hj Hb Hi Hm Hf)
    as (ps1 & now & E1 & Hd1 & Hb1 & Hj1 & Hf1 & _).
  destruct (assign_attempt_none botID ps1 None bot) as (ps2 & E2 & Hd2 & Hb2 & Hj2); [by rewrite Hb1|done| |].
  { rewrite Hj1. by intros k j [<- <-]%lookup_singleton_Some. }
  erewrite (Execute_twice (try_assign botID) DatabasePolicy random (ps, None) (ps1, None) (ps2, None) _ _ _ E1 Hr E2).
  2:{ intros e2 [= <-]. vm_compute. reflexivity. }
  split_and!; [done..|congruence|congruence|]. exists now. congruence.
  Unshelve. vm_compute. discriminate.
Qed.

(** On a healthy database a transaction succeeds when some job fits the bot. *)
Lemma assign_tx_healthy botID bot ps a k0 job0 :
  faults ps = [] → bots ps !! botID = Some bot → BotState bot = BotStatusIdle →
  jobs ps !! k0 = Some job0 → matches_bot bot (clock ps (ticks ps)) job0 →
  ∃ k job now ps', Transaction (run_assign botID bot) (ps, a) = (None, (ps', Some (assign_job botID now job))) ∧
    jobs ps !! k = Some job ∧ matches_bot bot (clock ps (ticks ps)) job ∧
    jobs ps' = <[k := assign_job botID now job]> (jobs ps) ∧ bots ps' = bots ps ∧
    faults ps' = [] ∧ clock ps' = clock ps ∧ retryPolicy ps' = retryPolicy ps.
Proof.
  intros Hf Hb Hi Hk0 Hm0.
  destruct (findAvailableJobTx job_order botID ps) as [f ps1] eqn:Ef.
  destruct (find_job ps bot botID _ _ Hb Ef) as [-> Hr]. destruct f as [[[k job]|]|?]; [| |done].
  2:{ by destruct (Hr k0 job0 Hk0). }
  destruct Hr as [Hk Hm]. eexists k, job, _, _. split.
  { apply Transaction_healthy; [done| |].
    - unfold assign_tx. rewrite Ef, Hi. cbn [negb]. unfold time_now.
      rewrite store_all_healthy by done. reflexivity.
    - done. }
  by split_and!.
Qed.

(** C4: one bot can be given two jobs.  The bot is copied before the
    transaction, and the transaction checks only the copy; so when two requests
    of the same idle bot both copy it first, both transactions succeed on a
    healthy database, one after the other, and two different jobs end up
    assigned to the bot. *)
Theorem concurrent_requests_double_assign botID ps k1 job1 k2 job2 bot :
  jobs ps = <[k1 := job1]> {[k2 := job2]} → k1 ≠ k2 → bots ps !! botID = Some bot → BotState bot = BotStatusIdle →
  faults ps = [] → (∀ n, matches_bot bot (clock ps n) job1 ∧ matches_bot bot (clock ps n) job2) →
  ∃ a1 ps1 a2 ps2,
    Transaction (run_assign botID bot) (ps, None) = (None, (ps1, Some a1)) ∧
    Transaction (run_assign botID bot) (ps1, None) = (None, (ps2, Some a2)) ∧
    ∀ k, k = k1 ∨ k = k2 → ∃ j, jobs ps2 !! k = Some j ∧
      JobState j = JobStatusAssigned ∧ AssignedBot j = Some botID.
Proof.
  clear random.
  intros Hj Hne Hb Hi Hf Hm.
  destruct (assign_tx_healthy botID bot ps None k1 job1) as (k & job & now & ps1 & E1 & Hk & Hmk & Hj1 & Hb1 & Hf1 & Hc1 & _);
    try done; [by rewrite Hj, lookup_insert_eq|apply Hm|].
  assert (∃ k' job', k' ≠ k ∧ (k = k1 ∧ k' = k2 ∨ k = k2 ∧ k' = k1) ∧ jobs ps !! k' = Some job' ∧
            ∀ n, matches_bot bot (clock ps n) job') as (k' & job' & Hk' & Hcase & Hl' & Hm').
  { rewrite Hj in Hk. apply lookup_insert_Some in Hk as [[<- <-]|[Hn Hk]].
    - exists k2, job2. split_and!; [done|by left| |intros n; apply Hm].
      by rewrite Hj, lookup_insert_ne, lookup_singleton_eq.
    - apply lookup_singleton_Some in Hk as [<- <-]. exists k1, job1.
      split_and!; [done|by right|by rewrite Hj, lookup_insert_eq|intros n; apply Hm]. }
  assert (jobs ps1 !! k' = Some job') as Hl1 by (by rewrite Hj1, lookup_insert_ne).
  destruct (assign_tx_healthy botID bot ps1 None k' job') as (i & jobi & now2 & ps2 & E2 & Hi2 & (Hp2 & _) & Hj2 & _);
    try done; [by rewrite Hb1|by rewrite Hc1|].
  exists (assign_job botID now job), ps1, (assign_job botID now2 jobi), ps2. split_and!; [done..|].
  assert (i = k') as ->.
  { rewrite Hj1 in Hi2. apply lookup_insert_Some in Hi2 as [[_ <-]|[Hn Hi2]]; [done|].
    rewrite Hj in Hi2. apply lookup_insert_Some in Hi2 as [[<- _]|[_ [<- _]%lookup_singleton_Some]];
      naive_solver. }
  assert (∀ x, x = k ∨ x = k' → ∃ j, jobs ps2 !! x = Some j ∧ JobState j = JobStatusAssigned ∧
                                     AssignedBot j = Some botID) as Hgoal.
  { intros x [-> | ->]; rewrite Hj2.
    - rewrite lookup_insert_ne, Hj1, lookup_insert_eq by done. by eexists.
    - rewrite lookup_insert_eq. by eexists. }
  intros x Hx. apply Hgoal. naive_solver.
Qed.

(** *** Completion *)

Abbreviation complete := (CompleteJobWithRetry random).

(** C2: completing a job on a healthy database.  A cached job assigned to a
    cached bot ends completed or failed as reported, without a bot and with a
    completion time, the bot becomes idle, and the database agrees with the
    caches on both and has the assignment closed; a bot the job is not
    assigned to cannot complete it, and then nothing changes. *)
Theorem completion_consistent jobID botID success ps job bot :
  faults ps = [] → 0 ≤ Retry.MaxRetries (retryPolicy ps) →
  jobs ps !! jobID = Some job → bots ps !! botID = Some bot → 
  let '(r, ps') := complete jobID botID success ps in
  (AssignedBot job = Some botID → ∃ now,
     r = Ok tt ∧ jobs ps' !! jobID = Some (complete_job success now job) ∧
     bots ps' !! botID = Some (release_bot now bot) ∧
     records_of (complete_job success now job) (release_bot now bot) jobID botID
       (mkJobAssignment jobID botID now "completed") (data ps')) ∧
  (AssignedBot job ≠ Some botID → jobs ps' = jobs ps ∧ bots ps' = bots ps ∧ data ps' = data ps ∧ r ≠ Ok tt).
Proof.
  intros Hf Hm Hj Hb. unfold CompleteJobWithRetry, with_retry.
  destruct (decide (AssignedBot job = Some botID)) as [Ha|Ha].
  - erewrite Execute_once; [|done|apply transaction_healthy; [done| |]].
    2:{ unfold complete_tx. rewrite Hj, Hb, Ha, String.eqb_refl. cbn [negb]. unfold time_now.
        rewrite store_all_healthy by done. reflexivity. }
    2:{ done. }
    simpl. split; [|done]. intros _. eexists. rewrite !lookup_insert_eq. split_and!; try done.
    apply (apply_three _ _ _ _ _ "" "" "").
  - assert (negb (match AssignedBot job with Some b => String.eqb b botID | None => false end) = true) as Hn.
    { destruct (AssignedBot job) as [b|]; [|done]. destruct (String.eqb_spec b botID); [congruence|done]. }
    set (P s := faults s = [] ∧ jobs s = jobs ps ∧ bots s = bots ps ∧ data s = data ps).
    assert (∀ s, P s → ∃ e, transaction (complete_tx jobID botID success) s = (Some e, s)) as Hop.
    { intros s (H1 & H2 & H3 & H4). unfold transaction, Transaction. rewrite db_call_healthy by done.
      unfold complete_tx. simpl. rewrite H2, H3, Hj, Hb, Hn. eexists. by destruct s. }
    destruct (Execute_inv (transaction (complete_tx jobID botID success)) P (retryPolicy ps) random ps) as [HP Hok];
      [intros s Hs; by destruct (Hop s Hs) as [e ->]|done|].
    destruct (Execute _ _ _ _) as [[r s] sl]. simpl in *. destruct HP as (_ & H2 & H3 & H4).
    split; [done|]. intros _. split_and!; try done. intros ->. destruct (Hok eq_refl) as (s' & Hs' & E). by destruct (Hop s' Hs') as [e He]; rewrite He in E.
Qed.

(** C3: a transient database error makes a completion impossible.  When the
    first write of [CompleteJobWithRetry] fails with an error the policy
    retries, the retry meets the caches as the failed attempt left them: the
    job no longer has its bot, so the call ends with "job not assigned to bot".
    The cache shows the job finished and the bot idle, while the database keeps
    the job assigned and is never written. *)
Theorem transient_fault_blocks_completion jobID botID success ps job bot e :
  jobs ps !! jobID = Some job → bots ps !! botID = Some bot → AssignedBot job = Some botID →
  retryPolicy ps = DatabasePolicy → first_store_fails ps e →
  isRetryableError DatabasePolicy (NewDatabaseError "save_job_completion" e) = true →
  let '(r, ps') := complete jobID botID success ps in
  r = Err (ErrWrap "non-retryable error" (NewValidationError "complete_job" (ErrNew "job not assigned to bot"))) ∧
  data ps' = data ps ∧
  ∃ now, jobs ps' !! jobID = Some (complete_job success now job) ∧ bots ps' !! botID = Some (release_bot now bot).
Proof.
  intros Hj Hb Ha Hp Hf Hr. unfold CompleteJobWithRetry, with_retry. rewrite Hp.
  assert (∃ ps1 now, transaction (complete_tx jobID botID success) ps =
            (Some (NewDatabaseError "save_job_completion" e), ps1) ∧ data ps1 = data ps ∧ faults ps1 = [] ∧
            jobs ps1 !! jobID = Some (complete_job success now job) ∧ bots ps1 !! botID = Some (release_bot now bot))
    as (ps1 & now & E1 & Hd1 & Hf1 & Hj1 & Hb1).
  { unfold transaction, Transaction, db_call. rewrite Hf. cbn [faults set_field]. unfold complete_tx. simpl.
    rewrite Hj, Hb, Ha, String.eqb_refl. simpl. eexists _, _. split; [done|]. simpl. by rewrite !lookup_insert_eq. }
  assert (transaction (complete_tx jobID botID success) ps1 =
            (Some (NewValidationError "complete_job" (ErrNew "job not assigned to bot")), ps1)) as E2.
  { unfold transaction, Transaction. rewrite db_call_healthy by done. unfold complete_tx. simpl.
    rewrite Hj1, Hb1. simpl. by destruct ps1. }
  erewrite (Execute_twice _ DatabasePolicy random ps ps1 ps1 _ _ _ E1 Hr E2).
  2:{ intros e2 [= <-]. vm_compute. reflexivity. }
  split_and!; [done..|]. by exists now.
  Unshelve. vm_compute. discriminate.
Qed.

(** ** Finished jobs have no bot *)

(** Only a job in progress has a bot. *)
Definition bots_on_active (m : gmap string MJob) : Prop :=
  ∀ k j, m !! k = Some j → AssignedBot j ≠ None →
    JobState j = JobStatusAssigned ∨ JobState j = JobStatusStarting ∨ JobState j = JobStatusRunning.

Lemma bots_on_active_insert m k j :
  bots_on_active m →
  (AssignedBot j ≠ None →
   JobState j = JobStatusAssigned ∨ JobState j = JobStatusStarting ∨ JobState j = JobStatusRunning) →
  bots_on_active (<[k := j]> m).
Proof.
  intros Hm Hj i x. destruct (decide (k = i)) as [->|]; [rewrite lookup_insert_eq; by intros [= <-]|].
  rewrite lookup_insert_ne by done. apply Hm.
Qed.

Lemma store_all_jobs w ps : jobs (store_all w ps).2 = jobs ps.
Proof. destruct (store_all w ps) as [o ps'] eqn:E. by apply store_all_spec in E as [(_ & ? & _)%db_only_caches _]. Qed.

(** A transaction treats the job cache as its closure does, or leaves it alone. *)
Lemma transaction_jobs fn ps (P : gmap string MJob → Prop) :
  P (jobs ps) → (∀ ps1, P (jobs ps1) → P (jobs (fn ps1).2)) → P (jobs (transaction fn ps).2).
Proof.
  intros HP Hfn. unfold transaction.
  match goal with |- context [Transaction ?f ?y] => destruct (Transaction f y) as [o [ps' []]] eqn:Et end. simpl.
  apply Transaction_inv in Et as [(e & ps1 & _ & [= <-] & Hd)|(ps1 & o2 & ps2 & s2 & Hd1 & _ & Ef & _ & Hd2 & _)].
  - by apply db_only_caches in Hd as (_ & -> & _).
  - apply db_only_caches in Hd1 as (_ & Hj1 & _). apply db_only_caches in Hd2 as (_ & Hj2 & _). simpl in *.
    rewrite Hj2. specialize (Hfn ps1). rewrite Hj1 in Hfn. specialize (Hfn HP).
    destruct (fn ps1) as [e p]. by injection Ef as _ <- _.
Qed.

Lemma complete_tx_active jobID botID success ps :
  bots_on_active (jobs ps) → bots_on_active (jobs (complete_tx jobID botID success ps).2).
Proof.
  intros Ha. unfold complete_tx. destruct (jobs ps !! jobID) as [job|]; [|done].
  destruct (bots ps !! botID) as [bot|]; [|done]. destruct (negb _); [done|]. unfold time_now.
  match goal with |- context [store_all ?w ?p] => pose proof (store_all_jobs w p) as Hs;
    destruct (store_all w p) as [[e|] p'] end; simpl in *; rewrite Hs;
    by apply bots_on_active_insert.
Qed.

Lemma with_retry_jobs op ps (P : gmap string MJob → Prop) :
  P (jobs ps) → (∀ ps1, P (jobs ps1) → P (jobs (op ps1).2)) → P (jobs (with_retry random op ps).2).
Proof.
  intros HP Hop. unfold with_retry.
  destruct (Execute_inv op (λ s, P (jobs s)) (retryPolicy ps) random ps Hop HP) as [H _]. exact H.
Qed.

Lemma assign_active botID ps :
  bots_on_active (jobs ps) → bots_on_active (jobs (assign botID ps).2).
Proof.
  intros Ha. unfold AtomicJobAssignmentWithRetry.
  set (Q (x : PersistentState * option MJob) := bots_on_active (jobs x.1) ∧
    ∀ j, x.2 = Some j → JobState j = JobStatusAssigned).
  assert (∀ x, Q x → Q (try_assign botID x).2) as Hop.
  { intros [ps1 a1] [H1 H2]. unfold assign_attempt. simpl in *.
    destruct (bots ps1 !! botID) as [bot|] eqn:Eb; [|done].
    match goal with |- context [Transaction ?f ?y] => destruct (Transaction f y) as [o [ps' a']] eqn:Et end.
    apply Transaction_inv in Et as [(e & p & _ & [= <- <-] & Hd)|(p1 & o2 & p2 & s2 & Hd1 & _ & Ef & Hs & Hd2 & _)].
    { apply db_only_caches in Hd as (_ & Hj & _). by split; simpl; rewrite ?Hj. }
    apply db_only_caches in Hd1 as (Hb1 & Hj1 & _). apply db_only_caches in Hd2 as (_ & Hj2 & _). simpl in *. subst s2.
    apply assign_tx_spec in Ef as (_ & Hn & Hcase); [|by rewrite Hb1]. rewrite Hj1 in Hcase.
    unfold Q; simpl. rewrite Hj2.
    destruct Hcase as [(-> & Ho & _)|(k & job & t & now & Hk & _ & _ & -> & Hok & _)].
    - split; [done|]. by rewrite (Hn Ho).
    - split; [apply bots_on_active_insert; [done|]; intros _; by left|].
      destruct o2; [by rewrite Hn|]. destruct (Hok eq_refl) as [-> _]. by intros j [= <-]. }
  destruct (Execute_inv (try_assign botID) Q (retryPolicy ps) random (ps, None) Hop) as [[H1 H2] _]; [by split|].
  destruct (Execute _ _ _ _) as [[r [ps1 a]] sl]. simpl in *.
  destruct r as [u|e|w]; [|by destruct a..]. destruct a as [j|]; [|done].
  unfold assign_finish, time_now. simpl.
  destruct (bots ps1 !! botID); simpl; (apply bots_on_active_insert; [done|]; intros _; left; by apply H2).
Qed.

(** Assignments, completions, pending time-outs and bot resets, in any order
    and with any database failures in between. *)
Inductive master_step ps : PersistentState → Prop :=
  | ms_assign botID : master_step ps (assign botID ps).2
  | ms_complete jobID botID success : master_step ps (complete jobID botID success ps).2
  | ms_timeout stamp jobID : master_step ps (UpdateJobStatusToTimedOut random stamp jobID ps).2
  | ms_reset botID : master_step ps (ResetBot random botID ps).2
  | ms_fault fs : master_step ps (ps <| faults := fs |>).

Lemma timeout_active stamp jobID ps :
  bots_on_active (jobs ps) → bots_on_active (jobs (UpdateJobStatusToTimedOut random stamp jobID ps).2).
Proof.
  intros Ha. unfold UpdateJobStatusToTimedOut. apply with_retry_jobs; [done|]. intros ps1 H1.
  apply transaction_jobs; [done|]. intros ps2 H2. destruct (jobs ps2 !! jobID) as [job|] eqn:Ej; [|done].
  destruct (String.eqb_spec (JobState job) JobStatusPending) as [Hp|]; cbn [negb]; [|done]. unfold time_now.
  assert (AssignedBot job = None) as Hn.
  { destruct (AssignedBot job) eqn:E; [|done]. exfalso. destruct (H2 _ _ Ej) as [H|[H|H]]; [by rewrite E|..];
      by rewrite Hp in H. }
  match goal with |- context [store_all ?w ?p] => pose proof (store_all_jobs w p) as Hs;
    destruct (store_all w p) as [[e|] p'] end; simpl in *; rewrite Hs;
    (apply bots_on_active_insert; [done|]; simpl; by rewrite Hn).
Qed.

Lemma reset_jobs botID ps : jobs (ResetBot random botID ps).2 = jobs ps.
Proof.
  unfold ResetBot. refine (with_retry_jobs _ ps (λ m, m = jobs ps) eq_refl _). intros ps1 H1.
  apply transaction_jobs; [done|]. intros ps2 H2. destruct (bots ps2 !! botID) as [bot|]; [|done].
  match goal with |- context [store_all ?w ?p] => pose proof (store_all_jobs w p) as Hs;
    destruct (store_all w p) as [[e|] p'] end; simpl in *; by rewrite Hs.
Qed.

(** No bot ever gets credit for a job.  From caches in which only jobs in
    progress have a bot, every reachable state has this property too, because
    completing a job clears its bot; [GetBotCompletedJobs] counts finished jobs
    that still name the bot, so it always answers zero. *)
Theorem completed_jobs_never_counted ps ps' botID :
  bots_on_active (jobs ps) → rtc master_step ps ps' →
  bots_on_active (jobs ps') ∧ GetBotCompletedJobs job_order botID ps' = 0%nat.
Proof.
  intros Ha Hr. assert (bots_on_active (jobs ps')) as Ha'.
  { induction Hr as [|p1 p2 p3 Hs _ IH]; [done|]. apply IH. destruct Hs.
    - by apply assign_active.
    - unfold CompleteJobWithRetry. apply with_retry_jobs; [done|]. intros p Hp. apply transaction_jobs; [done|]. intros q Hq. by apply complete_tx_active.
    - by apply timeout_active.
    - by rewrite reset_jobs.
    - done. }
  split; [done|]. unfold GetBotCompletedJobs.
  destruct (List.filter _ _) as [|j l] eqn:Ef; [done|]. exfalso.
  assert (In j (j :: l)) as Hin by by left. rewrite <- Ef in Hin. apply filter_In in Hin as [Hin Hj].
  unfold ListJobs in Hin. apply list_elem_of_In, list_elem_of_fmap in Hin as ([k j'] & -> & Hin).
  rewrite job_order_perm in Hin. apply elem_of_map_to_list in Hin. simpl in *.
  apply andb_true_iff in Hj as [Hb Hs]. destruct (AssignedBot j') eqn:Eb; [|done].
  destruct (Ha' _ _ Hin) as [H|[H|H]]; [by rewrite Eb|..]; by rewrite H in Hs.
Qed.

(** ** Orphaned jobs *)

(** Orphan detection is exact.  [FindOrphanedJobs] returns the cached jobs
    in progress that have no bot, an unknown, failed, timed-out or offline bot,
    a lease that ran out more than the grace period ago, or, past their
    time-out and the grace period, a bot that is not working on them; a job in
    progress on a healthy bot that names it, with its lease in time, is never
    taken from the bot however late it is. *)
Theorem orphans_exact ps :
  let now := clock ps (ticks ps) in
  (∀ j, j ∈ (FindOrphanedJobs job_order ps).1 ↔
     (∃ k, jobs ps !! k = Some j) ∧ in_progress j ∧ orphan_reason now (bots ps) j) ∧
  ∀ j b bot, AssignedBot j = Some b → bots ps !! b = Some bot → CurrentJob bot = Some (JobID j) →
    BotState bot = BotStatusBusy → IsOnline bot = true →
    match LeaseExpiresAt j with Some e => now ≤ e + gracePeriod | None => True end →
    j ∉ (FindOrphanedJobs job_order ps).1.
Proof.
  cbv zeta. assert (∀ j, j ∈ (FindOrphanedJobs job_order ps).1 ↔
     (∃ k, jobs ps !! k = Some j) ∧ in_progress j ∧ orphan_reason (clock ps (ticks ps)) (bots ps) j) as Hex.
  { intros j. unfold FindOrphanedJobs, time_now. simpl. rewrite list_elem_of_In, filter_In, <- list_elem_of_In.
    rewrite job_orphaned_spec. unfold ListJobs. simpl. rewrite list_elem_of_fmap. setoid_rewrite job_order_perm.
    split.
    - intros [([k j'] & -> & Hin%elem_of_map_to_list) Hr]. eauto.
    - intros [[k Hk] Hr]. split; [|done]. exists (k, j). split; [done|]. by apply elem_of_map_to_list. }
  split; [done|]. intros j b bot Ha Hb Hc Hs Ho Hl Hin. apply Hex in Hin as (_ & _ & Hr).
  destruct Hr as [|b'|b' bot' ? ? Hbad|e He Hlt|b' bot']; simplify_eq.
  - destruct Hbad as [Hbad|[Hbad|Hbad]]; (rewrite ?Hs, ?Ho in Hbad; done).
  - rewrite He in Hl. lia.
Qed.

(** ** The caches *)

(** The scan of the eviction finds a least recently used entry when every entry
    was last used before the scan, and gives an entry without access time at once. *)
Lemma find_oldest_spec {A} prefix access (l : list (string * A)) k0 t0 :
  (∀ kv, kv ∈ l → ∀ t, access !! (prefix +:+ kv.1) = Some t → t < t0) → l ≠ [] →
  ∃ kv, kv ∈ l ∧ find_oldest prefix access l k0 t0 = kv.1.
Proof.
  assert (∀ (l : list (string * A)) k0 t0, (find_oldest prefix access l k0 t0 = k0 ∨ ∃ kv, kv ∈ l ∧ find_oldest prefix access l k0 t0 = kv.1)) as Hany.
  { clear l k0 t0. induction l as [|[id v] l IH]; intros k0 t0; simpl; [by left|].
    destruct (access !! _) as [t|]; [|right; exists (id, v); split; [left|done]].
    destruct (time_before t t0).
    - destruct (IH id t) as [->|(kv & Hin & ->)]; right; [exists (id, v)|exists kv]; (split; [by constructor|done]).
    - destruct (IH k0 t0) as [->|(kv & Hin & ->)]; [by left|right; exists kv; split; [by constructor|done]]. }
  intros Ht Hne. destruct l as [|[id v] l]; [done|]. simpl.
  destruct (access !! (prefix +:+ id)) as [t|] eqn:E; [|exists (id, v); split; [left|done]].
  assert (t < t0) as Hlt by (apply (Ht (id, v)); [left|done]). unfold time_before. apply Z.ltb_lt in Hlt as ->.
  destruct (Hany l id t) as [->|(kv & Hin & ->)]; [exists (id, v)|exists kv]; (split; [by constructor|done]).
Qed.

Section caches.
Variable bot_order : nat → list (string * Bot) → list (string * Bot).
Hypothesis bot_order_perm : ∀ k l, bot_order k l ≡ₚ l.

Lemma load_healthy key ps v :
  faults ps = [] → 0 ≤ Retry.MaxRetries (retryPolicy ps) → data ps !! key = Some v →
  load_with_retry random key ps = (inl v, ps).
Proof.
  intros Hf Hm Hv. unfold load_with_retry.
  rewrite (Execute_once _ (retryPolicy ps) random (ps, None) (ps, Some v)); [done|done|].
  unfold db_Get. simpl. rewrite db_call_healthy by done. by rewrite Hv.
Qed.

(** Eviction makes room: it drops one entry. *)
Lemma evict_bot_size ps :
  bots ps ≠ ∅ → bots ps !! "" = None →
  (∀ k b t, bots ps !! k = Some b → cacheAccessTime ps !! ("bot:" +:+ k) = Some t → t < clock ps (ticks ps)) →
  let ps' := evictOldestBotFromCache bot_order ps in
  (∃ k, is_Some (bots ps !! k) ∧ bots ps' = delete k (bots ps)) ∧ data ps' = data ps ∧ faults ps' = faults ps.
Proof.
  intros Hne Hempty Ht. unfold evictOldestBotFromCache, time_now. simpl.
  set (l := bot_order _ _).
  assert (∀ k b, (k, b) ∈ l ↔ bots ps !! k = Some b) as Hl.
  { intros k b. unfold l. rewrite bot_order_perm. apply elem_of_map_to_list. }
  destruct (find_oldest_spec "bot:" (cacheAccessTime ps) l "" (clock ps (ticks ps))) as ([k b] & Hin & ->).
  - intros [k b] Hin t. apply Hl in Hin. by apply (Ht k b).
  - intros Hnil. apply Hne. apply map_eq. intros k. rewrite lookup_empty. destruct (bots ps !! k) eqn:E; [|done].
    apply Hl in E. rewrite Hnil in E. by apply elem_of_nil in E.
  - apply Hl in Hin. simpl. destruct (String.eqb_spec k "") as [->|]; [congruence|]. simpl. split; [|done]. by exists k.
Qed.

(** The bot cache against the job cache.  A miss on a healthy database
    loads the stored bot, caches it, and never lets the cache grow beyond the
    larger of its limit and its present size, because an entry is evicted
    first; when the database is SQLite, a miss on a job caches the job without
    ever evicting, so that the job cache grows past any limit. *)
Theorem cache_growth (get : gmap string entity → string → MJob + goerror) botID bot jobID job ps :
  faults ps = [] → 0 ≤ Retry.MaxRetries (retryPolicy ps) → 1 ≤ maxCacheSize ps →
  bots ps !! botID = None → data ps !! ("bot:" +:+ botID) = Some (EBot bot) → bots ps !! "" = None →
  (∀ k b t, bots ps !! k = Some b → cacheAccessTime ps !! ("bot:" +:+ k) = Some t → t < clock ps (ticks ps)) →
  jobs ps !! jobID = None → get (data ps) jobID = inl job →
  (let '(r, ps') := GetBot random bot_order botID ps in
   r = inl bot ∧ bots ps' !! botID = Some bot ∧ data ps' = data ps ∧
   Z.of_nat (size (bots ps')) ≤ Z.max (maxCacheSize ps) (Z.of_nat (size (bots ps)))) ∧
  (let '(r, ps') := GetJob random job_order (Some get) jobID ps in
   r = inl job ∧ jobs ps' = <[jobID := job]> (jobs ps) ∧ size (jobs ps') = S (size (jobs ps))).
Proof.
  intros Hf Hm Hmax Hb Hd Hempty Ht Hj Hg. split.
  - unfold GetBot. rewrite Hb, (load_healthy _ _ _ Hf Hm Hd).
    destruct (Z.leb_spec (maxCacheSize ps) (Z.of_nat (size (bots ps)))) as [Hfull|Hroom].
    + destruct (evict_bot_size ps) as ([k [[b Hk] Hdel]] & Hdata & _); [|done|done|].
      { intros E. rewrite E, map_size_empty in Hfull. simpl in Hfull. lia. }
      unfold touch, time_now. simpl. rewrite Hdel, Hdata. split_and!; try done; [apply lookup_insert_eq|].
      rewrite map_size_insert_None.
      * rewrite map_size_delete_Some by (by eexists).
        assert (size (bots ps) ≠ 0%nat) by (apply (map_size_ne_0_lookup_2 _ k); by eexists). lia.
      * rewrite lookup_delete_ne by congruence. done.
    + unfold touch, time_now. simpl. split_and!; try done; [apply lookup_insert_eq|].
      rewrite map_size_insert_None by done. lia.
  - unfold GetJob. rewrite Hj, Hg. unfold touch, time_now. simpl. split_and!; try done.
    by rewrite map_size_insert_None.
Qed.
End caches.
End assignment.

(** ** Concrete states *)

Definition no_jitter : Z → float64 := λ _, f64_zero.
Definition in_order {A} : nat → list (string * A) → list (string * A) := λ _ l, l.

Definition demo_bot : Bot :=
  mkBot "b1" "bot" "host" BotStatusIdle 0 0 None ["AFLPlusPlus"] Hour true 0 "".
Definition demo_mjob (id : string) : MJob :=
  mkMJob id "fuzz" "/bin/t" "afl++" "fuzzing" JobStatusPending None 0 None None Hour "w"
    (mkJobConfig 0 0 0 "" [] "") 0 None None false None 0 false "" None None None None.
Definition demo_state (js : gmap string MJob) : PersistentState :=
  (NewPersistentState ∅ [] DatabasePolicy 0 (λ _, 100)) <| bots := {[ "b1" := demo_bot ]} |> <| jobs := js |>.

Lemma one_job i (x : MJob) k j : ({[ i := x ]} : gmap string MJob) !! k = Some j → k = i ∧ j = x.
Proof. by intros [-> ->]%lookup_singleton_Some. Qed.

Lemma demo_matches id n : matches_bot demo_bot (clock (demo_state ∅) n) (demo_mjob id).
Proof. split_and!; [done|vm_compute; done|]. exists "AFLPlusPlus". split; [left|vm_compute; done]. Qed.

Lemma assignment_consistent_witness :
  let ps := demo_state {[ "j1" := demo_mjob "j1" ]} in
  ∃ o ps', AtomicJobAssignmentWithRetry no_jitter in_order "b1" ps = (o, Ok tt, ps') ∧
    ∃ now, o = Some (assign_job "b1" now (demo_mjob "j1")).
Proof.
  cbv zeta. set (ps := demo_state _).
  assert ((AtomicJobAssignmentWithRetry no_jitter in_order "b1" ps).1.2 = Ok tt) as Hr by (vm_compute; reflexivity).
  destruct (AtomicJobAssignmentWithRetry no_jitter in_order "b1" ps) as [[o r] ps'] eqn:E. simpl in Hr. subst r.
  exists o, ps'. split; [reflexivity|].
  destruct (assignment_consistent no_jitter in_order (λ _ _, reflexivity _) "b1" ps o ps')
    as (bot & old & t & now & now' & _ & _ & Hj & _ & Ho & _).
  - intros k j Hk. apply one_job in Hk as [-> ->]. reflexivity.
  - exact E.
  - exists now. apply one_job in Hj as [_ ->]. exact Ho.
Defined.

(** "database is locked" is an error the database policy retries. *)
Definition locked : goerror := ErrNew "database is locked".

Lemma transient_fault_strands_job_witness :
  let ps := (demo_state {[ "j1" := demo_mjob "j1" ]}) <| faults := [None; Some locked] |> in
  let '(o, r, ps') := AtomicJobAssignmentWithRetry no_jitter in_order "b1" ps in
  o = None ∧ is_ok r = false ∧ bots ps' !! "b1" = Some demo_bot ∧
  ∃ now, jobs ps' = {[ "j1" := assign_job "b1" now (demo_mjob "j1") ]}.
Proof.
  cbv zeta. set (ps := set_field faults _ _).
  pose proof (transient_fault_strands_job no_jitter in_order (λ _ _, reflexivity _) "b1" ps "j1" (demo_mjob "j1") demo_bot
    locked eq_refl eq_refl eq_refl (demo_matches "j1" 0) eq_refl eq_refl ltac:(vm_compute; reflexivity)) as H.
  destruct (AtomicJobAssignmentWithRetry no_jitter in_order "b1" ps) as [[o r] ps'].
  destruct H as (Ho & Hr & _ & Hb & Hj). split_and!; [exact Ho|by rewrite Hr|exact Hb|exact Hj].
Defined.

Lemma concurrent_requests_double_assign_witness :
  let ps := demo_state (<[ "j1" := demo_mjob "j1" ]> {[ "j2" := demo_mjob "j2" ]}) in
  ∃ a1 ps1 a2 ps2,
    Transaction (assign_tx in_order "b1" demo_bot) (ps, None) = (None, (ps1, Some a1)) ∧
    Transaction (assign_tx in_order "b1" demo_bot) (ps1, None) = (None, (ps2, Some a2)).
Proof.
  cbv zeta. set (ps := demo_state _).
  destruct (concurrent_requests_double_assign in_order (λ _ _, reflexivity _) "b1" ps "j1" (demo_mjob "j1") "j2"
    (demo_mjob "j2") demo_bot) as (a1 & ps1 & a2 & ps2 & H1 & H2 & _);
    [reflexivity|discriminate|reflexivity|reflexivity|reflexivity|intros n; split; apply demo_matches|].
  exists a1, ps1, a2, ps2. split; [exact H1|exact H2].
Defined.

(** The job and the bot of an assignment in progress. *)
Definition demo_busy : PersistentState :=
  (demo_state {[ "j1" := assign_job "b1" 50 (demo_mjob "j1") ]}) <| bots := {[ "b1" := assign_bot "j1" 50 demo_bot ]} |>.

Lemma completion_consistent_witness :
  let '(r, ps') := CompleteJobWithRetry no_jitter "j1" "b1" true demo_busy in
  r = Ok tt ∧ ∃ now, jobs ps' !! "j1" = Some (complete_job true now (assign_job "b1" 50 (demo_mjob "j1"))).
Proof.
  pose proof (completion_consistent no_jitter "j1" "b1" true demo_busy (assign_job "b1" 50 (demo_mjob "j1"))
    (assign_bot "j1" 50 demo_bot) eq_refl ltac:(vm_compute; discriminate) eq_refl eq_refl) as H.
  destruct (CompleteJobWithRetry no_jitter "j1" "b1" true demo_busy) as [r ps'].
  destruct H as [H _]. destruct (H eq_refl) as (now & Hr & Hj & _). split; [exact Hr|]. exists now. exact Hj.
Defined.

Lemma transient_fault_blocks_completion_witness :
  let '(r, ps') := CompleteJobWithRetry no_jitter "j1" "b1" true (demo_busy <| faults := [None; Some locked] |>) in
  is_ok r = false ∧ ∃ now, bots ps' !! "b1" = Some (release_bot now (assign_bot "j1" 50 demo_bot)).
Proof.
  set (ps := set_field faults _ demo_busy).
  pose proof (transient_fault_blocks_completion no_jitter "j1" "b1" true ps (assign_job "b1" 50 (demo_mjob "j1"))
    (assign_bot "j1" 50 demo_bot) locked eq_refl eq_refl eq_refl eq_refl eq_refl ltac:(vm_compute; reflexivity)) as H.
  destruct (CompleteJobWithRetry no_jitter "j1" "b1" true ps) as [r ps'].
  destruct H as (Hr & _ & now & _ & Hb). split; [by rewrite Hr|]. exists now. exact Hb.
Defined.

Lemma completed_jobs_never_counted_witness :
  GetBotCompletedJobs in_order "b1" (CompleteJobWithRetry no_jitter "j1" "b1" true demo_busy).2 = 0%nat.
Proof.
  apply (completed_jobs_never_counted no_jitter in_order (λ _ _, reflexivity _) demo_busy).
  - intros k j Hk. apply (one_job "j1") in Hk as [-> ->]. intros _. left. reflexivity.
  - apply rtc_once. apply ms_complete.
Defined.

Lemma orphans_exact_witness :
  assign_job "b2" 50 (demo_mjob "j1") ∈
  (FindOrphanedJobs in_order (demo_state {[ "j1" := assign_job "b2" 50 (demo_mjob "j1") ]})).1.
Proof.
  apply (orphans_exact in_order (λ _ _, reflexivity _)). split_and!.
  - exists "j1". reflexivity.
  - left. reflexivity.
  - eapply unknown_bot; reflexivity.
Defined.

Lemma cache_growth_witness :
  let ps := (demo_state ∅) <| data := {[ "bot:b2" := EBot demo_bot ]} |> <| maxCacheSize := 1 |> in
  (GetBot no_jitter in_order "b2" ps).1 = inl demo_bot ∧ size (bots (GetBot no_jitter in_order "b2" ps).2) = 1%nat.
Proof.
  cbv zeta. set (ps := set_field maxCacheSize _ _).
  destruct (cache_growth no_jitter in_order in_order (λ _ _, reflexivity _) (λ _ _, inl (demo_mjob "j1"))
    "b2" demo_bot "j1" (demo_mjob "j1") ps) as [H _];
    [reflexivity|vm_compute; discriminate|vm_compute; discriminate|reflexivity|reflexivity|reflexivity| |reflexivity
    |reflexivity|].
  - intros k b t _ Ht. change ((∅ : gmap string Time) !! ("bot:" +:+ k) = Some t) in Ht.
    rewrite lookup_empty in Ht. discriminate Ht.
  - destruct (GetBot no_jitter in_order "b2" ps) as [r ps'] eqn:E.
    destruct H as (Hr & _ & _ & _). split; [exact Hr|].
    replace ps' with (GetBot no_jitter in_order "b2" ps).2 by (by rewrite E). vm_compute. reflexivity.
Defined.
