(* ===== verification/TimeoutManager.v ===== *)
(** * Time-out tracking and enforcement (pkg/master/timeouts.go)

    The manager keeps two maps of deadlines next to the persistent state and,
    on every check, handles the entities whose deadline has passed.  A handler
    is one retried operation over the manager and the state together. *)

From S2P Require Import Prelude Retry MasterTypes MasterState MasterJobs.

Record TimeoutStats := mkTimeoutStats {
  BotsTimedOut : Z; JobsTimedOut : Z; TimeoutChecks : Z; LastCheck : Time;
  AverageCheckDuration : Duration; ActiveBotTimeouts : Z; ActiveJobTimeouts : Z }.
#[export] Instance TimeoutStats_eta : Eta TimeoutStats := fun s =>
  mkTimeoutStats (BotsTimedOut s) (JobsTimedOut s) (TimeoutChecks s) (LastCheck s)
    (AverageCheckDuration s) (ActiveBotTimeouts s) (ActiveJobTimeouts s).

(** [tm_policy] is [config.Retry.BotOperation]; the two durations are
    [config.Timeouts.BotHeartbeat] and [config.Timeouts.JobExecution]. *)
Record TimeoutManager := mkTM {
  state : PersistentState; botTimeouts : gmap string Time; jobTimeouts : gmap string Time;
  tm_policy : Policy; BotHeartbeat : Duration; JobExecution : Duration; tm_stats : TimeoutStats }.
#[export] Instance TimeoutManager_eta : Eta TimeoutManager := fun m =>
  mkTM (state m) (botTimeouts m) (jobTimeouts m) (tm_policy m) (BotHeartbeat m) (JobExecution m) (tm_stats m).

Definition NewTimeoutManager (ps : PersistentState) (policy : Policy) (heartbeat execution : Duration)
    : TimeoutManager :=
  mkTM ps ∅ ∅ (if MaxRetries policy =? 0 then DefaultPolicy else policy) heartbeat execution
    (mkTimeoutStats 0 0 0 zero_time 0 0 0).

Record TimeoutEvent := mkTimeoutEvent {
  EvType : string; EntityID : string; EvTimestamp : Time; EvDuration : Duration; Reason : string }.
Definition event_value (e : TimeoutEvent) : goany :=
  AStruct ["type"; "entity_id"; "timestamp"; "duration"; "reason"]
    [AString (EvType e); AString (EntityID e); AInt (EvTimestamp e); AInt (EvDuration e); AString (Reason e)].

Definition tm_now (m : TimeoutManager) : Time * TimeoutManager :=
  let '(t, ps) := time_now (state m) in (t, m <| state := ps |>).

(** ** Deadlines *)

Definition SetBotTimeout (botID : string) (timeout : Duration) (m : TimeoutManager) : TimeoutManager :=
  let '(now, m) := tm_now m in m <| botTimeouts := <[botID := time_add now timeout]> (botTimeouts m) |>.
Definition SetJobTimeout (jobID : string) (timeout : Duration) (m : TimeoutManager) : TimeoutManager :=
  let '(now, m) := tm_now m in m <| jobTimeouts := <[jobID := time_add now timeout]> (jobTimeouts m) |>.
Definition ExtendBotTimeout (botID : string) (extension : Duration) (m : TimeoutManager) : TimeoutManager :=
  match botTimeouts m !! botID with
  | Some t => m <| botTimeouts := <[botID := time_add t extension]> (botTimeouts m) |>
  | None => m
  end.
Definition ExtendJobTimeout (jobID : string) (extension : Duration) (m : TimeoutManager) : TimeoutManager :=
  match jobTimeouts m !! jobID with
  | Some t => m <| jobTimeouts := <[jobID := time_add t extension]> (jobTimeouts m) |>
  | None => m
  end.
Definition RemoveBotTimeout (botID : string) (m : TimeoutManager) : TimeoutManager :=
  m <| botTimeouts := delete botID (botTimeouts m) |>.
Definition RemoveJobTimeout (jobID : string) (m : TimeoutManager) : TimeoutManager :=
  m <| jobTimeouts := delete jobID (jobTimeouts m) |>.
Definition GetBotTimeout (botID : string) (m : TimeoutManager) : option Time := botTimeouts m !! botID.
Definition GetJobTimeout (jobID : string) (m : TimeoutManager) : option Time := jobTimeouts m !! jobID.
Definition GetActiveTimeouts (m : TimeoutManager) : Z * Z :=
  (Z.of_nat (size (botTimeouts m)), Z.of_nat (size (jobTimeouts m))).
Definition IsExpiredBot (botID : string) (m : TimeoutManager) : bool :=
  match botTimeouts m !! botID with Some t => time_after (tm_now m).1 t | None => false end.
Definition IsExpiredJob (jobID : string) (m : TimeoutManager) : bool :=
  match jobTimeouts m !! jobID with Some t => time_after (tm_now m).1 t | None => false end.
Definition UpdateBotHeartbeat (botID : string) (m : TimeoutManager) : TimeoutManager :=
  SetBotTimeout botID (BotHeartbeat m) m.
Definition UpdateJobTimeout (jobID : string) (m : TimeoutManager) : TimeoutManager :=
  SetJobTimeout jobID (JobExecution m) m.
Definition tm_GetStatsTyped (m : TimeoutManager) : TimeoutStats :=
  (tm_stats m) <| ActiveBotTimeouts := Z.of_nat (size (botTimeouts m)) |>
               <| ActiveJobTimeouts := Z.of_nat (size (jobTimeouts m)) |>.

Definition tm_HealthCheck (m : TimeoutManager) : option goerror :=
  if LastCheck (tm_stats m) =? zero_time then None
  else if 2 * Minute <? time_sub (tm_now m).1 (LastCheck (tm_stats m))
  then Some (NewSystemError "timeout_manager_health" (ErrNew "no recent timeout checks"))
  else None.

Section handlers.
Variable random : Z → float64.
Variable job_order : nat → list (string * MJob) → list (string * MJob).
Variable bot_order : nat → list (string * Bot) → list (string * Bot).
Variable time_order : nat → list (string * Time) → list (string * Time).
Variable sqlite_GetJob : option (gmap string entity → string → MJob + goerror).
Variable stamp : Time → string.

(** Run an operation of the persistent state inside the manager. *)
Definition on_state {A} (f : PersistentState → A * PersistentState) (m : TimeoutManager) : A * TimeoutManager :=
  let '(a, ps) := f (state m) in (a, m <| state := ps |>).

Definition res_error (r : res unit) : option goerror :=
  match r with Ok _ => None | Err e => Some e | Panic w => Some (ErrNew w) end.

Definition initializeTimeouts (m : TimeoutManager) : TimeoutManager :=
  let bt := foldl (λ t b, <[BotID b := BotTimeoutAt b]> t) (botTimeouts m) (ListBots bot_order (state m)) in
  let jt := foldl (λ t j, <[JobID j := JobTimeoutAt j]> t) (jobTimeouts m) (ListJobs job_order (state m)) in
  m <| botTimeouts := bt |> <| jobTimeouts := jt |>.

(** [Start]: an initial load, then the ticker. *)
Definition StartTimeouts (m : TimeoutManager) : TimeoutManager :=
  let m := initializeTimeouts m in
  let '(now, m) := tm_now m in
  m <| tm_stats := (tm_stats m) <| LastCheck := now |> |>.

Definition expired_ids (timeouts : gmap string Time) (m : TimeoutManager) : list string * TimeoutManager :=
  let '(now, m) := tm_now m in
  (fst <$> List.filter (λ kt, time_after now kt.2) (time_order (ticks (state m)) (map_to_list timeouts)), m).
Definition checkBotTimeouts (m : TimeoutManager) : list string * TimeoutManager := expired_ids (botTimeouts m) m.
Definition checkJobTimeouts (m : TimeoutManager) : list string * TimeoutManager := expired_ids (jobTimeouts m) m.

Definition logTimeoutEvent (e : TimeoutEvent) (m : TimeoutManager) : option goerror * TimeoutManager :=
  let key := "timeout_event_" +:+ EntityID e +:+ "_" +:+ pretty (EvTimestamp e / Second) in
  let '(r, m) := on_state (SetMetadata random key (event_value e)) m in (res_error r, m).

Definition bot_timeout_op (botID : string) (m : TimeoutManager) : option goerror * TimeoutManager :=
  match on_state (GetBot random bot_order botID) m with
  | (inr e, m) => (Some e, m)
  | (inl bot, m) =>
      let '(t1, m) := tm_now m in
      let '(t2, m) := tm_now m in
      let event := mkTimeoutEvent "bot" botID t1 (time_sub t2 (LastSeen bot)) "Heartbeat timeout" in
      let '(r, m) := on_state (ResetBot random botID) m in
      match res_error r with
      | Some e => (Some e, m)
      | None =>
          let m := m <| botTimeouts := delete botID (botTimeouts m) |>
                     <| tm_stats := (tm_stats m) <| BotsTimedOut := wrap64 (BotsTimedOut (tm_stats m) + 1) |> |> in
          logTimeoutEvent event m
      end
  end.

(** The wrapping of the handlers' errors. *)
Definition handle (op : TimeoutManager → option goerror * TimeoutManager) (name : string)
    (m : TimeoutManager) : option goerror * TimeoutManager :=
  let '(r, m) := (Execute op (tm_policy m) random m).1 in
  (match res_error r with Some e => Some (NewSystemError name e) | None => None end, m).

Definition handleBotTimeout (botID : string) : TimeoutManager → option goerror * TimeoutManager :=
  handle (bot_timeout_op botID) "handle_bot_timeout".

(** What is done to a job past its deadline, by its state. *)
Definition expire_job (job : MJob) (jobID : string) (m : TimeoutManager) : option goerror * TimeoutManager :=
  match AssignedBot job with
  | Some b => let '(r, m) := on_state (CompleteJobWithRetry random jobID b false) m in (res_error r, m)
  | None =>
      if String.eqb (JobState job) JobStatusPending
      then let '(r, m) := on_state (UpdateJobStatusToTimedOut random stamp jobID) m in (res_error r, m)
      else (None, m)
  end.

Definition job_timeout_op (jobID : string) (m : TimeoutManager) : option goerror * TimeoutManager :=
  match on_state (GetJob random job_order sqlite_GetJob jobID) m with
  | (inr e, m) => (Some e, m)
  | (inl job, m) =>
      let '(t1, m) := tm_now m in
      let '(t2, m) := tm_now m in
      let event := mkTimeoutEvent "job" jobID t1 (time_sub t2 (JobCreatedAt job)) "Execution timeout" in
      match expire_job job jobID m with
      | (Some e, m) => (Some e, m)
      | (None, m) =>
          let m := m <| jobTimeouts := delete jobID (jobTimeouts m) |>
                     <| tm_stats := (tm_stats m) <| JobsTimedOut := wrap64 (JobsTimedOut (tm_stats m) + 1) |> |> in
          logTimeoutEvent event m
      end
  end.

Definition handleJobTimeout (jobID : string) : TimeoutManager → option goerror * TimeoutManager :=
  handle (job_timeout_op jobID) "handle_job_timeout".

(** One check: the expired bots first, then the expired jobs; errors are logged. *)
Definition performTimeoutCheck (m : TimeoutManager) : TimeoutManager :=
  let '(start, m) := tm_now m in
  let '(expired_bots, m) := checkBotTimeouts m in
  let m := foldl (λ m id, (handleBotTimeout id m).2) m expired_bots in
  let '(expired_jobs, m) := checkJobTimeouts m in
  let m := foldl (λ m id, (handleJobTimeout id m).2) m expired_jobs in
  let '(stop, m) := tm_now m in
  let '(last, m) := tm_now m in
  let s := tm_stats m in
  m <| tm_stats := s <| TimeoutChecks := wrap64 (TimeoutChecks s + 1) |> <| LastCheck := last |>
         <| AverageCheckDuration := Z.quot (wrap64 (AverageCheckDuration s + time_sub stop start)) 2 |>
         <| ActiveBotTimeouts := Z.of_nat (size (botTimeouts m)) |>
         <| ActiveJobTimeouts := Z.of_nat (size (jobTimeouts m)) |> |>.

Definition ForceTimeoutTyped (entityType entityID : string) (m : TimeoutManager) : option goerror * TimeoutManager :=
  if String.eqb entityType "bot" then handleBotTimeout entityID m
  else if String.eqb entityType "job" then handleJobTimeout entityID m
  else (Some (NewValidationError "force_timeout" (ErrNew ("invalid timeout type: " +:+ entityType))), m).

Definition ForceTimeout (entityType entityID : string) (m : TimeoutManager) : option goerror * TimeoutManager :=
  if String.eqb entityType "bot" || String.eqb entityType "job" then ForceTimeoutTyped entityType entityID m
  else (Some (NewValidationError "force_timeout" (ErrNew ("invalid timeout type: " +:+ entityType))), m).

(** ** A job whose bot is gone *)

(** The job names a bot that is not cached. *)
Definition bot_gone (jobID : string) (job : MJob) (ts : gmap string Time) (m : TimeoutManager) : Prop :=
  jobs (state m) !! jobID = Some job ∧ jobTimeouts m = ts ∧
  ∃ b, AssignedBot job = Some b ∧ bots (state m) !! b = None.

Lemma complete_without_bot jobID b success job ps :
  jobs ps !! jobID = Some job → bots ps !! b = None →
  let '(r, ps') := CompleteJobWithRetry random jobID b success ps in
  r ≠ Ok tt ∧ jobs ps' = jobs ps ∧ bots ps' = bots ps.
Proof.
  intros Hj Hb. unfold CompleteJobWithRetry, with_retry.
  set (P s := jobs s = jobs ps ∧ bots s = bots ps).
  assert (∀ s, P s → ∃ e s', transaction (complete_tx jobID b success) s = (Some e, s') ∧ P s') as Hop.
  { intros s [H1 H2]. unfold transaction.
    match goal with |- context [Transaction ?f ?y] => destruct (Transaction f y) as [o [s' []]] eqn:Et end.
    apply Transaction_inv in Et as [(e & s1 & -> & [= <-] & Hd)|(s1 & o2 & s2 & [] & Hd1 & _ & Ef & _ & Hd2 & _ & Ho & _)].
    - apply db_only_caches in Hd as (Hb1 & Hj1 & _). exists e, s'. split; [done|]. unfold P. by rewrite Hb1, Hj1.
    - apply db_only_caches in Hd1 as (Hb1 & Hj1 & _). apply db_only_caches in Hd2 as (Hb2 & Hj2 & _). simpl in *.
      unfold complete_tx in Ef. rewrite Hj1, H1, Hj, Hb1, H2, Hb in Ef. injection Ef as <- <-.
      rewrite (Ho _ eq_refl). eexists _, s'. split; [done|]. unfold P. by rewrite Hb2, Hj2, Hb1, Hj1. }
  destruct (Execute_inv (transaction (complete_tx jobID b success)) P (retryPolicy ps) random ps) as [HP Hok].
  { intros s Hs. by destruct (Hop s Hs) as (e & s' & -> & Hs'). }
  { done. }
  destruct (Execute _ _ _ _) as [[r s] sl]. simpl in *. destruct HP as [H1 H2]. split; [|done].
  intros ->. destruct (Hok eq_refl) as (s0 & H0 & E). destruct (Hop s0 H0) as (e & s1 & E1 & _). congruence.
Qed.

Lemma job_timeout_op_gone jobID job ts m :
  bot_gone jobID job ts m →
  ∃ e m', job_timeout_op jobID m = (Some e, m') ∧ bot_gone jobID job ts m'.
Proof.
  intros (Hj & Ht & b & Ha & Hb). unfold job_timeout_op, on_state, GetJob. rewrite Hj.
  unfold touch, tm_now, time_now. simpl. unfold expire_job. rewrite Ha. unfold on_state. simpl.
  match goal with |- context [CompleteJobWithRetry random jobID b false ?p] =>
    pose proof (complete_without_bot jobID b false job p Hj Hb) as Hc;
    destruct (CompleteJobWithRetry random jobID b false p) as [r ps'] end.
  destruct Hc as (Hr & Hj' & Hb'). simpl in *.
  destruct r as [[]|e|w]; [done| |]; (eexists _, _; split; [reflexivity|]);
    (split_and!; simpl; [by rewrite Hj'|done|exists b; by rewrite Hb']).
Qed.

(** A job whose bot has left the cache cannot time out.  Completing it as
    failed requires the bot, so handling its time-out always fails, whatever
    the database and the retry policy do, and leaves the job assigned and its
    deadline in place: every later check meets it again, for ever. *)
Theorem lost_bot_blocks_timeout jobID job m n :
  bot_gone jobID job (jobTimeouts m) m →
  let m' := Nat.iter n (λ m, (handleJobTimeout jobID m).2) m in
  jobs (state m') !! jobID = Some job ∧ jobTimeouts m' = jobTimeouts m ∧
  ∃ e, (handleJobTimeout jobID m').1 = Some e.
Proof.
  intros Hg. cbv zeta.
  assert (∀ m1, bot_gone jobID job (jobTimeouts m) m1 →
    bot_gone jobID job (jobTimeouts m) (handleJobTimeout jobID m1).2 ∧
    ∃ e, (handleJobTimeout jobID m1).1 = Some e) as Hstep.
  { intros m1 H1. unfold handleJobTimeout, handle.
    destruct (Execute_inv (job_timeout_op jobID) (bot_gone jobID job (jobTimeouts m)) (tm_policy m1) random m1) as [HP Hok].
    { intros s Hs. by destruct (job_timeout_op_gone _ _ _ _ Hs) as (e & s' & -> & Hs'). }
    { done. }
    destruct (Execute _ _ _ _) as [[r s] sl]. simpl in *. split; [done|].
    destruct r as [[]|e|w]; simpl; [|by eexists..].
    destruct (Hok eq_refl) as (s0 & H0 & E). destruct (job_timeout_op_gone _ _ _ _ H0) as (e & s1 & E1 & _). congruence. }
  assert (bot_gone jobID job (jobTimeouts m) (Nat.iter n (λ m, (handleJobTimeout jobID m).2) m)) as Hn.
  { induction n as [|n IH]; [done|]. simpl. by apply Hstep. }
  destruct (Hstep _ Hn) as [_ He]. destruct Hn as (Hj & Ht & _). by split_and!.
Qed.

(** ** Handling on a healthy database *)

Lemma with_retry_healthy op ps ps' :
  0 ≤ MaxRetries (retryPolicy ps) → op ps = (None, ps') → with_retry random op ps = (Ok tt, ps').
Proof. intros Hm E. unfold with_retry. by rewrite (Execute_once _ _ random _ _ Hm E). Qed.

(** The two operations of the state on a healthy database. *)
Definition timed_out_bot (bot : Bot) : Bot :=
  bot <| BotState := BotStatusTimedOut |> <| CurrentJob := None |> <| FailureCount := wrap64 (FailureCount bot + 1) |>.

Lemma ResetBot_healthy botID bot ps :
  faults ps = [] → 0 ≤ MaxRetries (retryPolicy ps) → bots ps !! botID = Some bot →
  ∃ ps', ResetBot random botID ps = (Ok tt, ps') ∧ bots ps' = <[botID := timed_out_bot bot]> (bots ps) ∧
    jobs ps' = jobs ps ∧ data ps' = <["bot:" +:+ botID := EBot (timed_out_bot bot)]> (data ps) ∧
    faults ps' = [] ∧ retryPolicy ps' = retryPolicy ps.
Proof.
  intros Hf Hm Hb. eexists. split.
  { apply with_retry_healthy; [done|]. apply transaction_healthy; [done| |].
    - cbv beta. rewrite Hb. cbv beta iota zeta. rewrite store_all_healthy by done. reflexivity.
    - done. }
  by split_and!.
Qed.

Lemma CompleteJob_healthy jobID b success job bot ps :
  faults ps = [] → 0 ≤ MaxRetries (retryPolicy ps) → jobs ps !! jobID = Some job → bots ps !! b = Some bot →
  AssignedBot job = Some b →
  ∃ ps' now, CompleteJobWithRetry random jobID b success ps = (Ok tt, ps') ∧
    jobs ps' = <[jobID := complete_job success now job]> (jobs ps) ∧ bots ps' = <[b := release_bot now bot]> (bots ps) ∧
    faults ps' = [] ∧ retryPolicy ps' = retryPolicy ps.
Proof.
  intros Hf Hm Hj Hb Ha. eexists _, _. split.
  { apply with_retry_healthy; [done|]. apply transaction_healthy; [done| |].
    - unfold complete_tx. rewrite Hj, Hb, Ha, String.eqb_refl. cbn [negb]. unfold time_now.
      rewrite store_all_healthy by done. reflexivity.
    - done. }
  by split_and!.
Qed.

Lemma TimedOut_healthy jobID job ps :
  faults ps = [] → 0 ≤ MaxRetries (retryPolicy ps) → jobs ps !! jobID = Some job → JobState job = JobStatusPending →
  ∃ ps' now job', UpdateJobStatusToTimedOut random stamp jobID ps = (Ok tt, ps') ∧
    jobs ps' !! jobID = Some job' ∧ JobState job' = JobStatusFailed ∧ CompletedAt job' = Some now ∧
    bots ps' = bots ps ∧ faults ps' = [] ∧ retryPolicy ps' = retryPolicy ps.
Proof.
  intros Hf Hm Hj Hp. eexists _, _, _. split.
  { apply with_retry_healthy; [done|]. apply transaction_healthy; [done| |].
    - cbv beta. rewrite Hj. cbv beta iota. rewrite Hp. cbn [negb String.eqb]. rewrite ?String.eqb_refl. unfold time_now.
      cbv beta iota zeta.
      rewrite store_all_healthy by done. reflexivity.
    - done. }
  simpl. rewrite lookup_insert_eq. by split_and!.
Qed.

(** What a successful handler adds to the caches it changed: only metadata. *)
Lemma logTimeoutEvent_healthy e m :
  faults (state m) = [] → 0 ≤ MaxRetries (retryPolicy (state m)) →
  ∃ m', logTimeoutEvent e m = (None, m') ∧ jobs (state m') = jobs (state m) ∧ bots (state m') = bots (state m) ∧
    botTimeouts m' = botTimeouts m ∧ jobTimeouts m' = jobTimeouts m ∧ tm_stats m' = tm_stats m ∧
    ∀ k, (∀ x, k ≠ "metadata:" +:+ x) → data (state m') !! k = data (state m) !! k.
Proof.
  intros Hf Hm. unfold logTimeoutEvent, on_state, SetMetadata.
  set (key := "timeout_event_" +:+ _).
  assert (∃ ps', SetMetadata random key (event_value e) (state m) = (Ok tt, ps') ∧
    jobs ps' = jobs (state m) ∧ bots ps' = bots (state m) ∧
    data ps' = <["metadata:" +:+ key := EAny (event_value e)]> (data (state m))) as (ps' & E & Hj & Hb & Hd).
  { eexists. split.
    - apply with_retry_healthy; [done|]. apply transaction_healthy; [done| |].
      + cbv beta. rewrite store_all_healthy by done. reflexivity.
      + done.
    - done. }
  unfold SetMetadata in E. rewrite E. simpl. eexists. split; [done|]. simpl. split_and!; try done.
  intros k Hk. rewrite Hd, lookup_insert_ne; [done|]. intros Ek. by destruct (Hk _ (eq_sym Ek)).
Qed.

Lemma handle_once op name m m' :
  0 ≤ MaxRetries (tm_policy m) → op m = (None, m') → handle op name m = (None, m').
Proof. intros Hm E. unfold handle. by rewrite (Execute_once _ _ random _ _ Hm E). Qed.

(** A healthy manager: no database failures scripted, retry limits sensible. *)
Definition healthy (m : TimeoutManager) : Prop :=
  faults (state m) = [] ∧ 0 ≤ MaxRetries (retryPolicy (state m)) ∧ 0 ≤ MaxRetries (tm_policy m).

(** Handling the time-out of a cached bot on a healthy database succeeds:
    the bot is marked as timed out without a job and with one more failure, in
    the cache and in the database, its deadline is dropped and the time-out
    counted.  No job is touched: a job of the bot stays assigned to it until
    orphan recovery. *)
Theorem bot_timeout_handled botID bot m :
  healthy m → bots (state m) !! botID = Some bot →
  let '(e, m') := handleBotTimeout botID m in
  let bot' := timed_out_bot bot in
  e = None ∧ bots (state m') = <[botID := bot']> (bots (state m)) ∧ jobs (state m') = jobs (state m) ∧
  data (state m') !! ("bot:" +:+ botID) = Some (EBot bot') ∧
  botTimeouts m' = delete botID (botTimeouts m) ∧ jobTimeouts m' = jobTimeouts m ∧
  BotsTimedOut (tm_stats m') = wrap64 (BotsTimedOut (tm_stats m) + 1).
Proof.
  intros (Hf & Hr & Hp) Hb. unfold handleBotTimeout.
  set (bot' := timed_out_bot bot).
  assert (∃ m', bot_timeout_op botID m = (None, m') ∧
    bots (state m') = <[botID := bot']> (bots (state m)) ∧ jobs (state m') = jobs (state m) ∧
    data (state m') !! ("bot:" +:+ botID) = Some (EBot bot') ∧
    botTimeouts m' = delete botID (botTimeouts m) ∧ jobTimeouts m' = jobTimeouts m ∧
    BotsTimedOut (tm_stats m') = wrap64 (BotsTimedOut (tm_stats m) + 1)) as (m' & E & Hall).
  { unfold bot_timeout_op, on_state, GetBot. rewrite Hb. unfold touch, tm_now, time_now. simpl.
    match goal with |- context [ResetBot random botID ?p] =>
      destruct (ResetBot_healthy botID bot p) as (ps1 & -> & Hb1 & Hj1 & Hd1 & Hf1 & Hr1); [done..|] end.
    cbn [res_error].
    match goal with |- context [logTimeoutEvent ?ev ?x] =>
      destruct (logTimeoutEvent_healthy ev x) as (m' & -> & Hj & Hbs & Hbt & Hjt & Hst & Hd); [done|simpl; by rewrite Hr1|] end.
    exists m'. split; [done|]. rewrite Hj, Hbs, Hbt, Hjt, Hst. simpl. rewrite Hb1, Hj1. split_and!; try done.
    rewrite Hd by done. simpl. by rewrite Hd1, lookup_insert_eq. }
  rewrite (handle_once _ _ _ _ Hp E). by split.
Qed.

(** What becomes of a job past its deadline. *)
Definition expired_outcome (ps ps' : PersistentState) (jobID : string) (job : MJob) : Prop :=
  ∃ now job', jobs ps' !! jobID = Some job' ∧
    match AssignedBot job with
    | Some b => job' = complete_job false now job ∧
                ∀ bot, bots ps !! b = Some bot → bots ps' !! b = Some (release_bot now bot)
    | None => bots ps' = bots ps ∧
              if String.eqb (JobState job) JobStatusPending
              then JobState job' = JobStatusFailed ∧ CompletedAt job' = Some now
              else job' = job
    end.

Lemma expire_job_healthy jobID job m :
  healthy m → jobs (state m) !! jobID = Some job →
  (∀ b, AssignedBot job = Some b → is_Some (bots (state m) !! b)) →
  ∃ m', expire_job job jobID m = (None, m') ∧ expired_outcome (state m) (state m') jobID job ∧
    jobTimeouts m' = jobTimeouts m ∧ tm_stats m' = tm_stats m ∧ faults (state m') = [] ∧
    retryPolicy (state m') = retryPolicy (state m).
Proof.
  intros (Hf & Hr & _) Hj Hb. unfold expire_job, expired_outcome.
  destruct (AssignedBot job) as [b|] eqn:Ea.
  - destruct (Hb b eq_refl) as [bot Hbot]. unfold on_state.
    destruct (CompleteJob_healthy jobID b false job bot (state m)) as (ps' & now & -> & Hj' & Hb' & Hf' & Hr'); try done.
    eexists. split; [done|]. simpl. rewrite Hj', Hb', !lookup_insert_eq. split_and!; try done.
    exists now, (complete_job false now job). split; [done|]. split; [done|]. intros bot0. rewrite Hbot. by intros [= <-].
  - destruct (String.eqb_spec (JobState job) JobStatusPending) as [Hp|Hp].
    + unfold on_state.
      destruct (TimedOut_healthy jobID job (state m)) as (ps' & now & job' & -> & Hj' & Hs' & Hc' & Hb' & Hf' & Hr');
        try done.
      eexists. split; [done|]. simpl. split_and!; try done. by exists now, job'.
    + eexists. split; [done|]. split_and!; try done. by exists 0, job.
Qed.

(** Handling the deadline of a cached job on a healthy database succeeds
    when its bot, if it has one, is cached too.  An assigned job fails and its
    bot becomes idle, a pending job fails, and any other job is left alone; but
    in all cases the deadline is dropped and one more timed-out job is counted,
    also for a job that had completed long before. *)
Theorem job_timeout_handled jobID job m :
  healthy m → jobs (state m) !! jobID = Some job →
  (∀ b, AssignedBot job = Some b → is_Some (bots (state m) !! b)) →
  let '(e, m') := handleJobTimeout jobID m in
  e = None ∧ expired_outcome (state m) (state m') jobID job ∧
  jobTimeouts m' = delete jobID (jobTimeouts m) ∧
  JobsTimedOut (tm_stats m') = wrap64 (JobsTimedOut (tm_stats m) + 1).
Proof.
  intros Hh Hj Hb. unfold handleJobTimeout.
  assert (∃ m', job_timeout_op jobID m = (None, m') ∧ expired_outcome (state m) (state m') jobID job ∧
    jobTimeouts m' = delete jobID (jobTimeouts m) ∧
    JobsTimedOut (tm_stats m') = wrap64 (JobsTimedOut (tm_stats m) + 1)) as (m' & E & Hall).
  { unfold job_timeout_op, on_state, GetJob. rewrite Hj. unfold touch, tm_now, time_now. simpl.
    match goal with |- context [expire_job job jobID ?x] =>
      destruct (expire_job_healthy jobID job x) as (m1 & -> & Ho & Hjt & Hst & Hf1 & Hr1); [done|done|done|] end.
    simpl in *. match goal with |- context [logTimeoutEvent ?ev ?x] =>
      destruct (logTimeoutEvent_healthy ev x) as (m' & -> & Hj2 & Hb2 & _ & Hjt2 & Hst2 & _);
        [done|simpl; rewrite Hr1; apply Hh|] end.
    exists m'. split; [done|]. rewrite Hjt2, Hst2. simpl. rewrite Hjt, Hst. split_and!; try done.
    unfold expired_outcome in *. by rewrite Hj2, Hb2. }
  destruct Hh as (_ & _ & Hp). rewrite (handle_once _ _ _ _ Hp E). by split.
Qed.
End handlers.

(** ** Concrete managers *)

Definition demo_tm (ps : PersistentState) : TimeoutManager :=
  (NewTimeoutManager ps DefaultPolicy Minute Hour) <| jobTimeouts := {[ "j1" := 10 ]} |>.
(** The job [j1] runs on the bot [b1]; and the same with the bot gone. *)
Definition demo_assigned : MJob := assign_job "b1" 50 (demo_mjob "j1").
Definition demo_lost : PersistentState := demo_busy <| bots := ∅ |>.

Lemma demo_healthy ps : faults ps = [] → retryPolicy ps = DatabasePolicy → healthy (demo_tm ps).
Proof. intros Hf Hp. unfold healthy. simpl. rewrite Hp. split_and!; [exact Hf|by vm_compute|by vm_compute]. Qed.

Lemma bot_timeout_handled_witness :
  let '(e, m') := handleBotTimeout no_jitter in_order "b1" (demo_tm demo_busy) in
  e = None ∧ BotsTimedOut (tm_stats m') = 1.
Proof.
  pose proof (bot_timeout_handled no_jitter in_order "b1" (assign_bot "j1" 50 demo_bot) (demo_tm demo_busy)
    (demo_healthy demo_busy eq_refl eq_refl) eq_refl) as H.
  destruct (handleBotTimeout no_jitter in_order "b1" (demo_tm demo_busy)) as [e m'].
  destruct H as (He & _ & _ & _ & _ & _ & Hn). split; [exact He|exact Hn].
Defined.

Lemma job_timeout_handled_witness :
  let '(e, m') := handleJobTimeout no_jitter in_order None (λ _, "") "j1" (demo_tm demo_busy) in
  e = None ∧ ∃ now, jobs (state m') !! "j1" = Some (complete_job false now demo_assigned).
Proof.
  pose proof (job_timeout_handled no_jitter in_order None (λ _, "") "j1" demo_assigned (demo_tm demo_busy)
    (demo_healthy demo_busy eq_refl eq_refl) eq_refl) as H.
  destruct (handleJobTimeout no_jitter in_order None (λ _, "") "j1" (demo_tm demo_busy)) as [e m'].
  destruct H as (He & (now & job' & Hj & -> & _) & _).
  - intros b [= <-]. exists (assign_bot "j1" 50 demo_bot). reflexivity.
  - split; [exact He|]. exists now. exact Hj.
Defined.

Lemma lost_bot_blocks_timeout_witness :
  let m := demo_tm demo_lost in
  ∃ e, (handleJobTimeout no_jitter in_order None (λ _, "") "j1"
          (Nat.iter 3 (λ m, (handleJobTimeout no_jitter in_order None (λ _, "") "j1" m).2) m)).1 = Some e.
Proof.
  apply (lost_bot_blocks_timeout no_jitter in_order None (λ _, "") "j1" demo_assigned (demo_tm demo_lost) 3).
  split_and!; [reflexivity|reflexivity|]. exists "b1". split; reflexivity.
Defined.
