(* ===== verification/Healthy.v ===== *)
(** * Operations of the persistent state on a healthy database

    The state after a save or a deletion when no call to the database fails, as
    an explicit update of the state before it; the components on top of the
    persistent state rewrite with these. *)

From S2P Require Import Prelude Retry MasterTypes MasterState MasterJobs TimeoutManager.

(** A fold of insertions under distinct keys. *)
Lemma foldl_insert {A B} (key : A → string) (value : A → B) l (m : gmap string B) :
  NoDup (key <$> l) →
  (∀ x, x ∈ l → foldl (λ m x, <[key x := value x]> m) m l !! key x = Some (value x)) ∧
  (∀ i, i ∉ key <$> l → foldl (λ m x, <[key x := value x]> m) m l !! i = m !! i).
Proof.
  revert m. induction l as [|y l IH]; intros m; cbn [fmap list_fmap foldl].
  { intros _. split; [by intros x ?%not_elem_of_nil|done]. }
  intros [Hy Hl]%NoDup_cons. destruct (IH (<[key y := value y]> m) Hl) as [H1 H2]. split.
  - intros x [->|Hx]%elem_of_cons; [|by apply H1]. rewrite H2 by done. apply lookup_insert_eq.
  - intros i [Hi Hil]%not_elem_of_cons. rewrite H2 by done. by apply lookup_insert_ne.
Qed.

Definition job_saved (job : MJob) (ps : PersistentState) : PersistentState :=
  count_transaction (ps <| jobs := <[JobID job := job]> (jobs ps) |>
                        <| data := <["job:" +:+ JobID job := EJob job]> (data ps) |>).
Definition bot_saved (bot : Bot) (ps : PersistentState) : PersistentState :=
  count_transaction (ps <| bots := <[BotID bot := bot]> (bots ps) |>
                        <| data := <["bot:" +:+ BotID bot := EBot bot]> (data ps) |>).
Definition job_deleted (jobID : string) (ps : PersistentState) : PersistentState :=
  count_transaction (ps <| jobs := delete jobID (jobs ps) |>
                        <| cacheAccessTime := delete ("job:" +:+ jobID) (cacheAccessTime ps) |>
                        <| data := delete ("job:" +:+ jobID) (data ps) |>).

Section state_healthy.
Variable random : Z → float64.
Implicit Types (ps : PersistentState).

Definition db_healthy ps : Prop := faults ps = [] ∧ 0 ≤ MaxRetries (retryPolicy ps).

Lemma SaveJob_healthy job ps : db_healthy ps → SaveJobWithRetry random job ps = (Ok tt, job_saved job ps).
Proof.
  intros [Hf Hm]. apply with_retry_healthy; [done|]. apply transaction_healthy; [done| |done].
  rewrite store_all_healthy by done. reflexivity.
Qed.

Lemma SaveBot_healthy bot ps : db_healthy ps → SaveBotWithRetry random bot ps = (Ok tt, bot_saved bot ps).
Proof.
  intros [Hf Hm]. apply with_retry_healthy; [done|]. apply transaction_healthy; [done| |done].
  rewrite store_all_healthy by done. reflexivity.
Qed.

Lemma DeleteJob_healthy jobID ps : db_healthy ps → DeleteJob random jobID ps = (Ok tt, job_deleted jobID ps).
Proof.
  intros [Hf Hm]. apply with_retry_healthy; [done|]. apply transaction_healthy; [done| |done].
  unfold Delete. rewrite db_call_healthy by done. reflexivity.
Qed.

End state_healthy.

(** ** Listings and reads of the caches *)

Section listings.
Variable job_order : nat → list (string * MJob) → list (string * MJob).
Variable bot_order : nat → list (string * Bot) → list (string * Bot).
Hypothesis job_order_perm : ∀ k l, job_order k l ≡ₚ l.
Hypothesis bot_order_perm : ∀ k l, bot_order k l ≡ₚ l.

Lemma bots_listed b ps : b ∈ ListBots bot_order ps ↔ ∃ k, bots ps !! k = Some b.
Proof.
  clear job_order_perm. unfold ListBots. rewrite list_elem_of_fmap. setoid_rewrite bot_order_perm. split.
  - intros ([k b'] & -> & Hb%elem_of_map_to_list). by exists k.
  - intros [k Hk]. exists (k, b). by rewrite elem_of_map_to_list.
Qed.
Lemma jobs_listed j ps : j ∈ ListJobs job_order ps ↔ ∃ k, jobs ps !! k = Some j.
Proof.
  clear bot_order_perm. unfold ListJobs. rewrite list_elem_of_fmap. setoid_rewrite job_order_perm. split.
  - intros ([k b'] & -> & Hb%elem_of_map_to_list). by exists k.
  - intros [k Hk]. exists (k, j). by rewrite elem_of_map_to_list.
Qed.

End listings.

Lemma time_now_frame ps : (time_now ps).2 = ps <| ticks := S (ticks ps) |>.
Proof. done. Qed.

(** A key that is not in the database is never read, whatever the faults. *)
Lemma load_missing random key ps : data ps !! key = None →
  ∃ e ps', load_with_retry random key ps = (inr e, ps') ∧ bots ps' = bots ps ∧ jobs ps' = jobs ps ∧ data ps' = data ps.
Proof.
  intros Hk. unfold load_with_retry.
  set (op := λ x : PersistentState * option entity, _).
  set (P := λ x : PersistentState * option entity, bots x.1 = bots ps ∧ jobs x.1 = jobs ps ∧ data x.1 = data ps ∧ x.2 = None).
  destruct (Execute_inv op P (retryPolicy ps) random (ps, None)) as [(Hb & Hj & Hd & Hn) _]; [|by split_and!|].
  { intros [s v] (Hb & Hj & Hd & Hn). subst op. simpl in *. unfold db_Get.
    destruct (db_call s) as [[e|] s'] eqn:E; apply db_call_frame in E as [Hf Hd']; apply db_only_caches in Hf as (Hb' & Hj' & _);
      unfold P; simpl; [by rewrite Hb', Hj', Hd', Hb, Hj|].
    rewrite Hd', Hd, Hk. simpl. by rewrite Hb', Hj', Hd', Hb, Hj. }
  destruct (Execute op _ _ _) as [[r [ps' v]] s]. simpl in *. subst v.
  destruct r; eexists _, ps'; by split_and!.
Qed.
