(* ===== verification/AppErrors.v ===== *)
(** * Structured errors (pkg/errors/errors.go)

    The services return these errors: a type, an operation, a message and
    perhaps the error that caused them.  The type tests look through the
    wrappers of other packages, but stop at the first structured error. *)

From S2P Require Import Prelude.

(** As in the program, the package is the name space: [errors.New]. *)
Module errors.

Abbreviation ErrorType := string (only parsing).
Definition ErrorTypeSystem : ErrorType := "system".
Definition ErrorTypeDatabase : ErrorType := "database".
Definition ErrorTypeStorage : ErrorType := "storage".
Definition ErrorTypeValidation : ErrorType := "validation".
Definition ErrorTypeNotFound : ErrorType := "not_found".
Definition ErrorTypeConflict : ErrorType := "conflict".
Definition ErrorTypeCapability : ErrorType := "capability".
Definition ErrorTypeMethodNotFound : ErrorType := "method_not_found".

Definition New (errorType : ErrorType) (operation message : string) : goerror := ErrApp errorType operation message.
Definition Wrap (errorType : ErrorType) (operation message : string) (cause : goerror) : goerror :=
  ErrAppWrap errorType operation message cause.
Definition NewValidationError (operation message : string) : goerror := New ErrorTypeValidation operation message.
Definition NewNotFoundError (operation resource : string) : goerror :=
  New ErrorTypeNotFound operation (resource +:+ " not found").
Definition NewConflictError (operation message : string) : goerror := New ErrorTypeConflict operation message.

Fixpoint isErrorType (err : goerror) (errorType : ErrorType) : bool :=
  match err with
  | ErrApp t _ _ | ErrAppWrap t _ _ _ => String.eqb t errorType
  | ErrWrap _ e | ErrPanda _ _ e => isErrorType e errorType
  | _ => false
  end.
Definition IsValidationError (err : goerror) : bool := isErrorType err ErrorTypeValidation.
Definition IsNotFoundError (err : goerror) : bool := isErrorType err ErrorTypeNotFound.
Definition IsConflictError (err : goerror) : bool := isErrorType err ErrorTypeConflict.
Definition IsMethodNotFound (err : goerror) : bool := isErrorType err ErrorTypeMethodNotFound.

Fixpoint GetErrorType (err : goerror) : option ErrorType :=
  match err with
  | ErrApp t _ _ | ErrAppWrap t _ _ _ => Some t
  | ErrWrap _ e | ErrPanda _ _ e => GetErrorType e
  | _ => None
  end.

Lemma isErrorType_spec err t : isErrorType err t = true ↔ GetErrorType err = Some t.
Proof.
  induction err; simpl; try done; rewrite String.eqb_eq; naive_solver.
Qed.

End errors.
