(* ===== verification/Minimizer.v ===== *)
(** * Crash minimisation (pkg/service/crash_minimizer.go)

    The two minimisers shrink a crashing input by running the target on smaller
    candidates.  The target is a process: [run k input] is what its [k]-th
    execution does, so a flaky crash is one whose outcome depends on [k], and
    the number of executions so far is threaded through the loops. *)

From S2P Require Import Prelude MasterTypes CrashTypes.
From stdpp Require Import list_numbers.
From Stdlib Require Import Strings.Byte.
Open Scope Z_scope.

Definition MinimizationStrategyDeltaDebug : string := "delta_debug".
Definition MinimizationStrategyCoverageGuided : string := "coverage_guided".

(** The directory, binary and arguments are those of the process and are not
    repeated here. *)
Record MinimizationConfig := mkMinConfig {
  MaxIterations : Z; MaxTime : Duration; MinChunkSize : Z; ExpectedSignal : Z; ExpectedExitCode : Z }.

(** [MinimizationResult] of pkg/common/crash.go with the input kept by
    [MinimizationResultWithData]. *)
Record MinimizationResult := mkMinResult {
  MR_CrashID : string; MR_JobID : string; MR_BotID : string; Strategy : string;
  OriginalSize : Z; MinimizedSize : Z; ReductionPercent : float64; Iterations : Z;
  ExecutionTime : Duration; Success : bool; MinimizedPath : string; MinimizedHash : string;
  StillReproduces : bool; MR_Timestamp : Time; MinimizedInput : bytes }.
#[export] Instance MinimizationResult_eta : Eta MinimizationResult := fun r =>
  mkMinResult (MR_CrashID r) (MR_JobID r) (MR_BotID r) (Strategy r) (OriginalSize r) (MinimizedSize r)
    (ReductionPercent r) (Iterations r) (ExecutionTime r) (Success r) (MinimizedPath r) (MinimizedHash r)
    (StillReproduces r) (MR_Timestamp r) (MinimizedInput r).

(** What [cmd.Run] leads to; an exit code of [-1] is a process ended by a signal. *)
Inductive RunOutcome := WriteFailed | OpenFailed | StartFailed | Exited (code : Z).

Definition bytes_cut (current : bytes) (start stop : Z) : res bytes :=
  let! a := slice current 0 start in
  let! b := slice current stop (len current) in
  Ok (a ++ b).
Definition bytes_keep (current : bytes) (start stop : Z) : res bytes := slice current start stop.

Section minimizers.
Variable run : nat → bytes → RunOutcome.
Variable sha256hex : bytes → string.
(** Whether the context is done, and the clock, at the start of each iteration. *)
Variable cancelled : nat → bool.
Variable now : nat → Time.

Definition testCrash (cfg : MinimizationConfig) (k : nat) (input : bytes) : bool :=
  match run k input with
  | WriteFailed | OpenFailed | StartFailed => false
  | Exited code =>
      if code =? 0 then false
      else if 0 <? ExpectedSignal cfg then negb (code =? 0)
      else code =? ExpectedExitCode cfg
  end.

Definition new_result (strategy : string) (input : bytes) : MinimizationResult :=
  mkMinResult "" "" "" strategy (len input) (len input) f64_zero 0 0 false "" "" false zero_time [].

(** The time limit of both minimisers is measured from [result.Timestamp]. *)
Definition out_of_time (cfg : MinimizationConfig) (r : MinimizationResult) (it : nat) : bool :=
  MaxTime cfg <? time_sub (now it) (MR_Timestamp r).

(** The final statistics. *)
Definition finish (cfg : MinimizationConfig) (r : MinimizationResult) (current : bytes) (it k : nat)
    : MinimizationResult :=
  let r := r <| Iterations := Z.of_nat it |> <| MinimizedInput := current |> <| MinimizedSize := len current |> in
  r <| ReductionPercent := f64_mul (f64_div (f64_of_Z (OriginalSize r - MinimizedSize r)) (f64_of_Z (OriginalSize r)))
                             (f64_of_Z 100) |>
    <| Success := MinimizedSize r <? OriginalSize r |>
    <| StillReproduces := testCrash cfg k current |>
    <| MinimizedHash := sha256hex current |>.

(** ** Delta debugging *)

(** [for i := 0; i < n && !foundReduction; i++]: the first candidate that
    crashes, where chunk [i] is cut out or kept alone. *)
Fixpoint try_chunks (cut : bytes → Z → Z → res bytes) (cfg : MinimizationConfig) (current : bytes)
    (n chunkSize : Z) (indices : list Z) (k : nat) : res (option bytes * nat) :=
  match indices with
  | [] => Ok (None, k)
  | i :: indices =>
      let start := i * chunkSize in
      let stop := if i =? n - 1 then len current else start + chunkSize in
      let! test := cut current start stop in
      if testCrash cfg k test then Ok (Some test, S k)
      else try_chunks cut cfg current n chunkSize indices (S k)
  end.

Definition dd_round (cfg : MinimizationConfig) (current : bytes) (n chunkSize : Z) (k : nat)
    : res (option bytes * nat) :=
  let! r := try_chunks bytes_cut cfg current n chunkSize (seqZ 0 n) k in
  match r with
  | (Some test, k) => Ok (Some test, k)
  | (None, k) => try_chunks bytes_keep cfg current n chunkSize (seqZ 0 n) k
  end.

Inductive dd_exit := Finished (current : bytes) | CtxDone.

(** The main loop; [todo] iterations remain of [MaxIterations]. *)
Fixpoint dd_loop (cfg : MinimizationConfig) (r : MinimizationResult) (todo it : nat) (n : Z)
    (current : bytes) (k : nat) : res (dd_exit * nat * nat) :=
  match todo with
  | O => Ok (Finished current, it, k)
  | S todo =>
      if len current <? n then Ok (Finished current, it, k)
      else if cancelled it then Ok (CtxDone, it, k)
      else if out_of_time cfg r it then Ok (Finished current, it, k)
      else
        let chunkSize := Z.quot (len current) n in
        let small := chunkSize <? MinChunkSize cfg in
        let n := if small then Z.quot (len current) (MinChunkSize cfg) else n in
        if small && (n <=? 1) then Ok (Finished current, it, k)
        else
          let! x := dd_round cfg current n chunkSize k in
          match x with
          | (Some test, k) => dd_loop cfg r todo (S it) 2 test k
          | (None, k) => dd_loop cfg r todo (S it) (n * 2) current k
          end
  end.

(** [DeltaDebugMinimizer.Minimize]; the number of executions is returned too. *)
Definition dd_Minimize (input : bytes) (cfg : MinimizationConfig)
    : res (MinimizationResult * option goerror * nat) :=
  let r := new_result MinimizationStrategyDeltaDebug input in
  let! x := dd_loop cfg r (Z.to_nat (MaxIterations cfg)) 0 2 input 0 in
  match x with
  | (CtxDone, it, k) => Ok (r <| Iterations := Z.of_nat it |>, Some (ErrNew "context canceled"), k)
  | (Finished current, it, k) => Ok (finish cfg r current it k, None, S k)
  end.

(** ** Coverage-guided minimisation

    [getCoverage] returns a constant and no coverage is compared, so
    [testCrashWithCoverage] is the test above on a file of its own. *)

(** One pass of [for i := 0; i < len(current); i++]: [kept] is [current[:i]] and
    [rest] is [current[i:]]; after a removal [i--] leaves [i] in place. *)
Fixpoint remove_bytes (cfg : MinimizationConfig) (kept rest : bytes) (improved : bool) (k : nat)
    : bytes * bool * nat :=
  match rest with
  | [] => (kept, improved, k)
  | b :: rest =>
      if testCrash cfg k (kept ++ rest) then remove_bytes cfg kept rest true (S k)
      else remove_bytes cfg (kept ++ [b]) rest improved (S k)
  end.

(** [for improved && iterations < config.MaxIterations]. *)
Fixpoint byte_loop (cfg : MinimizationConfig) (r : MinimizationResult) (todo it : nat) (improved : bool)
    (current : bytes) (k : nat) : dd_exit * nat * nat :=
  match todo with
  | O => (Finished current, it, k)
  | S todo =>
      if negb improved then (Finished current, it, k)
      else if cancelled it then (CtxDone, it, k)
      else if out_of_time cfg r it then (Finished current, it, k)
      else
        let '(current, improved, k) := remove_bytes cfg [] current false k in
        byte_loop cfg r todo (S it) improved current k
  end.

(** One pass over the blocks; after a removal [i -= blockSize] is clamped at 0
    and then [i += blockSize].  The loop spends a unit of [fuel] per candidate;
    to run out of it is the outcome [Panic]. *)
Fixpoint remove_blocks (cfg : MinimizationConfig) (blockSize : Z) (fuel : nat) (i : Z) (current : bytes)
    (improved : bool) (k : nat) : res (bytes * bool * nat) :=
  match fuel with
  | O => Panic "out of fuel"
  | S fuel =>
      if i <=? len current - blockSize then
        let! test := bytes_cut current i (i + blockSize) in
        if testCrash cfg k test
        then remove_blocks cfg blockSize fuel (Z.max 0 (i - blockSize) + blockSize) test true (S k)
        else remove_blocks cfg blockSize fuel (i + blockSize) current improved (S k)
      else Ok (current, improved, k)
  end.

(** [for improved]: passes until one removes nothing. *)
Fixpoint block_loop (cfg : MinimizationConfig) (blockSize : Z) (fuel : nat) (current : bytes) (k : nat)
    : res (bytes * nat) :=
  match fuel with
  | O => Panic "out of fuel"
  | S fuel =>
      let! x := remove_blocks cfg blockSize (S (length current)) 0 current false k in
      let '(current, improved, k) := x in
      if improved then block_loop cfg blockSize fuel current k else Ok (current, k)
  end.

Definition blockSizes : list Z := [256; 128; 64; 32; 16; 8; 4; 2].

Fixpoint block_sizes_loop (cfg : MinimizationConfig) (sizes : list Z) (current : bytes) (k : nat)
    : res (bytes * nat) :=
  match sizes with
  | [] => Ok (current, k)
  | blockSize :: sizes =>
      if Z.quot (len current) 2 <? blockSize then block_sizes_loop cfg sizes current k
      else
        let! x := block_loop cfg blockSize (S (length current)) current k in
        let '(current, k) := x in block_sizes_loop cfg sizes current k
  end.
Definition tryBlockRemoval (cfg : MinimizationConfig) : bytes → nat → res (bytes * nat) :=
  block_sizes_loop cfg blockSizes.

(** A pass that overwrites every byte but the [skip]ped ones with [target]
    where the target still crashes. *)
Fixpoint overwrite (cfg : MinimizationConfig) (skip : byte → bool) (target : byte) (indices : list nat)
    (current : bytes) (k : nat) : bytes * nat :=
  match indices with
  | [] => (current, k)
  | i :: indices =>
      match current !! i with
      | Some old =>
          if skip old then overwrite cfg skip target indices current k
          else
            let current' := <[i := target]> current in
            overwrite cfg skip target indices (if testCrash cfg k current' then current' else current) (S k)
      | None => (current, k)
      end
  end.

Definition tryPatternSimplification (cfg : MinimizationConfig) (current : bytes) (k : nat) : bytes * nat :=
  let '(current, k) := overwrite cfg (Byte.eqb x00) x00 (seq 0 (length current)) current k in
  overwrite cfg (λ b, Byte.eqb x41 b || Byte.eqb x00 b) x41 (seq 0 (length current)) current k.

(** [CoverageGuidedMinimizer.Minimize]. *)
Definition cov_Minimize (input : bytes) (cfg : MinimizationConfig)
    : res (MinimizationResult * option goerror * nat) :=
  let r := new_result MinimizationStrategyCoverageGuided input in
  match byte_loop cfg r (Z.to_nat (MaxIterations cfg)) 0 true input 0 with
  | (CtxDone, it, k) => Ok (r <| Iterations := Z.of_nat it |>, Some (ErrNew "context canceled"), k)
  | (Finished current, it, k) =>
      let! x := tryBlockRemoval cfg current k in
      let '(current, k) := x in
      let '(current, k) := tryPatternSimplification cfg current k in
      Ok (finish cfg r current it k, None, S k)
  end.

(** ** The service *)

(** The configuration of every minimisation. *)
Definition service_config (crash : CrashResult) : MinimizationConfig :=
  mkMinConfig 1000 (30 * Minute) 1 (Signal crash) (ExitCode crash).

(** [MinimizeCrash]: the arguments after the strategy are what storage, file
    storage, file system and clock answer; the last one is the outcome of saving
    the minimised input under a path. *)
Definition MinimizeCrash (join : list string → string) (crashID strategy : string)
    (crash : CrashResult + goerror) (job : MJob + goerror) (input : bytes + goerror)
    (mkdir : option goerror) (startTime endTime stamp : Time) (save : string → bytes → option goerror)
    : res MinimizationResult :=
  match crash with
  | inr e => Err (ErrWrap "failed to get crash" e)
  | inl crash =>
  match job with
  | inr e => Err (ErrWrap "failed to get job" e)
  | inl job =>
  match input with
  | inr e => Err (ErrWrap "failed to read crash input" e)
  | inl input =>
      let minimize :=
        if String.eqb strategy MinimizationStrategyDeltaDebug then Some dd_Minimize
        else if String.eqb strategy MinimizationStrategyCoverageGuided then Some cov_Minimize
        else None in
      match minimize, mkdir with
      | None, _ => Err (ErrNew ("unknown minimization strategy: " +:+ strategy))
      | Some _, Some e => Err (ErrWrap "failed to create work directory" e)
      | Some minimize, None =>
          let workDir := join [WorkDir job; "minimization"; crashID; strategy] in
          let! x := minimize input (service_config crash) in
          match x with
          | (_, Some e, _) => Err (ErrWrap "minimization failed" e)
          | (r, None, _) =>
              let r := r <| MR_CrashID := crashID |> <| MR_JobID := CrashJobID crash |> <| MR_BotID := CrashBotID crash |>
                         <| ExecutionTime := time_sub endTime startTime |> <| MR_Timestamp := stamp |> in
              if Success r && (0 <? len (MinimizedInput r)) then
                let! short := substr (MinimizedHash r) 0 8 in
                let minPath := join [workDir; "minimized_" +:+ short] in
                Ok (if save minPath (MinimizedInput r) is Some _ then r else r <| MinimizedPath := minPath |>)
              else Ok r
          end
      end
  end end end.

End minimizers.

(** [GetBestMinimization]: the smallest reproducing result. *)
Definition better (best : option MinimizationResult) (r : MinimizationResult) : option MinimizationResult :=
  if negb (Success r) || negb (StillReproduces r) then best
  else match best with
       | Some b => if MinimizedSize r <? MinimizedSize b then Some r else best
       | None => Some r
       end.
Definition GetBestMinimization (crashID : string) (results : list MinimizationResult + goerror)
    : res MinimizationResult :=
  match results with
  | inr e => Err e                                   (* from ListMinimizationResults *)
  | inl [] => Err (ErrNew ("no minimization results found for crash " +:+ crashID))
  | inl rs => match foldl better None rs with
              | Some r => Ok r
              | None => Err (ErrNew ("no successful minimization found for crash " +:+ crashID))
              end
  end.

(** ** Soundness of both minimisers *)

Section soundness.
Variable run : nat → bytes → RunOutcome.
Variable sha256hex : bytes → string.
Variable cancelled : nat → bool.
Variable now : nat → Time.
Implicit Types (cfg : MinimizationConfig) (current c : bytes).

(** Some execution of the target crashed on [c] as expected. *)
Definition crashed cfg c : Prop := ∃ k, testCrash run cfg k c = true.

(** The target behaves the same in every execution. *)
Definition deterministic : Prop := ∀ i j c, run i c = run j c.

Lemma deterministic_test cfg i j c : deterministic → testCrash run cfg i c = testCrash run cfg j c.
Proof. intros H. unfold testCrash. by rewrite (H i j). Qed.

Lemma chunk_bounds current n size i :
  0 < n → 0 ≤ size → n * size ≤ len current → 0 ≤ i < n →
  let start := i * size in let stop := if i =? n - 1 then len current else start + size in
  0 ≤ start ≤ stop ∧ stop ≤ len current.
Proof. intros. destruct (Z.eqb_spec i (n - 1)); subst; nia. Qed.

Lemma bytes_cut_ok current start stop : 0 ≤ start ≤ stop → stop ≤ len current →
  bytes_cut current start stop = Ok (take (Z.to_nat start) current ++ drop (Z.to_nat stop) current) ∧
  len (take (Z.to_nat start) current ++ drop (Z.to_nat stop) current) = len current - (stop - start).
Proof.
  unfold len. intros H1 H2. unfold bytes_cut. rewrite slice_ok by lia. simpl.
  unfold len. rewrite slice_ok by lia. simpl. split.
  - rewrite Z.sub_0_r, drop_0. do 2 f_equal. rewrite take_ge; [done|]. rewrite length_drop. lia.
  - rewrite length_app, length_take, length_drop. lia.
Qed.

Lemma bytes_keep_ok current start stop : 0 ≤ start ≤ stop → stop ≤ len current →
  ∃ t, bytes_keep current start stop = Ok t ∧ len t = stop - start.
Proof.
  unfold len. intros H1 H2. unfold bytes_keep. rewrite slice_ok by lia. eexists. split; [done|].
  rewrite length_take, length_drop. lia.
Qed.

(** The chunk loop tries candidates in order: it returns one that crashed, or
    every candidate was run and did not. *)
Lemma try_chunks_spec cut cfg current n size indices k :
  (∀ i, i ∈ indices → ∃ t, cut current (i * size) (if i =? n - 1 then len current else i * size + size) = Ok t ∧
                          len t < len current) →
  ∃ o k', try_chunks run cut cfg current n size indices k = Ok (o, k') ∧
    (∀ t, o = Some t → crashed cfg t ∧ len t < len current) ∧
    (o = None → ∀ i, i ∈ indices → ∃ t k0,
       cut current (i * size) (if i =? n - 1 then len current else i * size + size) = Ok t ∧
       testCrash run cfg k0 t = false).
Proof.
  revert k. induction indices as [|i indices IH]; intros k H; simpl.
  { eexists _, _. split_and!; [done|done|]. intros _ i Hi. set_solver. }
  destruct (H i) as (t & Ht & Hl); [set_solver|]. rewrite Ht. simpl.
  destruct (testCrash run cfg k t) eqn:E.
  { eexists _, _. split_and!; [done| |done]. intros t' [= <-]. split; [by exists k|done]. }
  destruct (IH (S k)) as (o & k' & -> & Ho & Hn); [set_solver|].
  eexists _, _. split_and!; [done|done|]. intros Hnone j Hj.
  apply elem_of_cons in Hj as [->|Hj]; [by exists t, k|by apply Hn].
Qed.

Lemma dd_round_spec cfg current n size k :
  2 ≤ n → 1 ≤ size → n * size ≤ len current →
  ∃ o k', dd_round run cfg current n size k = Ok (o, k') ∧
    (∀ t, o = Some t → crashed cfg t ∧ len t < len current) ∧
    (o = None → ∀ i, 0 ≤ i < n → ∃ t k0,
       bytes_cut current (i * size) (if i =? n - 1 then len current else i * size + size) = Ok t ∧
       testCrash run cfg k0 t = false).
Proof.
  intros Hn Hs Hl. unfold dd_round.
  destruct (try_chunks_spec bytes_cut cfg current n size (seqZ 0 n) k) as (o & k' & -> & Ho & Hnone).
  { intros i Hi%elem_of_seqZ. destruct (chunk_bounds current n size i) as [Hb1 Hb2]; [lia..|].
    destruct (bytes_cut_ok _ _ _ Hb1 Hb2) as [-> Ht]. eexists. split; [done|]. rewrite Ht.
    destruct (Z.eqb_spec i (n - 1)); [subst|]; nia. }
  simpl. destruct o as [t|].
  { eexists _, _. split_and!; [done|done|done]. }
  destruct (try_chunks_spec bytes_keep cfg current n size (seqZ 0 n) k') as (o & k2 & -> & Ho2 & _).
  { intros i Hi%elem_of_seqZ. destruct (chunk_bounds current n size i) as [Hb1 Hb2]; [lia..|].
    destruct (bytes_keep_ok _ _ _ Hb1 Hb2) as (t & -> & Ht). eexists. split; [done|]. rewrite Ht.
    destruct (Z.eqb_spec i (n - 1)); [subst|]; nia. }
  eexists _, _. split_and!; [done|done|]. intros _ i Hi. apply Hnone; [done|]. apply elem_of_seqZ. lia.
Qed.

(** The number of chunks stays within the input, also after it is derived
    again from the minimum chunk size. *)
Lemma chunk_sizes current n m :
  2 ≤ n → n ≤ len current →
  let size := Z.quot (len current) n in
  1 ≤ size ∧ n * size ≤ len current ∧
  (size < m → Z.quot (len current) m * size ≤ len current).
Proof.
  intros Hn Hl size. unfold size. rewrite Z.quot_div_nonneg by lia.
  assert (1 ≤ len current / n) by (apply Z.div_le_lower_bound; lia).
  pose proof (Z.mul_div_le (len current) n ltac:(lia)). split_and!; [done|done|].
  intros Hm. rewrite Z.quot_div_nonneg by lia.
  pose proof (Z.mul_div_le (len current) m ltac:(lia)).
  assert (0 ≤ len current / m) by (apply Z.div_pos; lia). nia.
Qed.

(** What one shrinking loop guarantees of the input it stops with. *)
Definition shrunk cfg input c : Prop := c = input ∨ (crashed cfg c ∧ len c < len input).

Lemma shrunk_trans cfg a b c : shrunk cfg a b → shrunk cfg b c → shrunk cfg a c.
Proof. unfold shrunk. intros [->|[? ?]] [->|[? ?]]; auto. right. split; [done|lia]. Qed.

Lemma dd_loop_spec cfg r todo it n current k :
  2 ≤ n →
  ∃ e it' k', dd_loop run cancelled now cfg r todo it n current k = Ok (e, it', k') ∧
    (it' ≤ it + todo)%nat ∧ ∀ c, e = Finished c → shrunk cfg current c.
Proof.
  revert it n current k. induction todo as [|todo IH]; intros it n current k Hn; simpl.
  { eexists _, _, _. split_and!; [done|lia|]. intros c [= <-]. by left. }
  destruct (Z.ltb_spec (len current) n) as [?|Hl].
  { eexists _, _, _. split_and!; [done|lia|]. intros c [= <-]. by left. }
  destruct (cancelled it); [eexists _, _, _; split_and!; [done|lia|done]|].
  destruct (out_of_time now cfg r it).
  { eexists _, _, _. split_and!; [done|lia|]. intros c [= <-]. by left. }
  destruct (chunk_sizes current n (MinChunkSize cfg) Hn Hl) as (H1 & H2 & H3).
  set (size := Z.quot (len current) n) in *.
  assert (∀ m, 2 ≤ m → m * size ≤ len current → ∃ e it' k',
    (let! x := dd_round run cfg current m size k in
     match x with
     | (Some test, k) => dd_loop run cancelled now cfg r todo (S it) 2 test k
     | (None, k) => dd_loop run cancelled now cfg r todo (S it) (m * 2) current k
     end) = Ok (e, it', k') ∧ (it' ≤ it + S todo)%nat ∧ ∀ c, e = Finished c → shrunk cfg current c) as Hgo.
  { intros m Hm Hml. destruct (dd_round_spec cfg current m size k Hm H1 Hml) as (o & k1 & -> & Ho & _). simpl.
    destruct o as [t|].
    - destruct (IH (S it) 2 t k1) as (e & it' & k' & -> & Hit & Hc); [lia|]. eexists _, _, _. split_and!; [done|lia|].
      intros c Hf. eapply shrunk_trans; [|by apply Hc]. right. by apply Ho.
    - destruct (IH (S it) (m * 2) current k1) as (e & it' & k' & -> & Hit & Hc); [lia|].
      eexists _, _, _. split_and!; [done|lia|done]. }
  destruct (Z.ltb_spec size (MinChunkSize cfg)) as [Hs|Hs]; cbn [andb]; [|by apply Hgo].
  destruct (Z.leb_spec (Z.quot (len current) (MinChunkSize cfg)) 1).
  - eexists _, _, _. split_and!; [done|lia|]. intros c [= <-]. by left.
  - apply Hgo; [lia|by apply H3].
Qed.

(** A step that may also rewrite bytes in place. *)
Definition reduced cfg input c : Prop := (c = input ∨ crashed cfg c) ∧ len c ≤ len input.

Lemma shrunk_reduced cfg input c : shrunk cfg input c → reduced cfg input c.
Proof. intros [->|[? ?]]; split; [by left|lia|by right|lia]. Qed.

Lemma reduced_trans cfg a b c : reduced cfg a b → reduced cfg b c → reduced cfg a c.
Proof. intros [[->|?] ?] [[->|?] ?]; split; auto; lia. Qed.

Lemma reduced_reproduces cfg input c k :
  deterministic → crashed cfg input → reduced cfg input c → testCrash run cfg k c = true.
Proof.
  intros Hd Hi [[->|Hc] _]; [destruct Hi as [j Hj]|destruct Hc as [j Hj]];
    by rewrite (deterministic_test cfg k j).
Qed.

(** What a finished minimisation promises of its result. *)
Definition sound_result cfg input (r : MinimizationResult) : Prop :=
  reduced cfg input (MinimizedInput r) ∧
  OriginalSize r = len input ∧ MinimizedSize r = len (MinimizedInput r) ∧
  Iterations r ≤ Z.max 0 (MaxIterations cfg) ∧
  (Success r = true ↔ len (MinimizedInput r) < len input) ∧
  MinimizedHash r = sha256hex (MinimizedInput r) ∧
  (deterministic → crashed cfg input → StillReproduces r = true).

Lemma finish_sound cfg strategy input c it k :
  reduced cfg input c → (it ≤ Z.to_nat (MaxIterations cfg))%nat →
  sound_result cfg input (finish run sha256hex cfg (new_result strategy input) c it k).
Proof.
  intros Hs Hit. unfold sound_result. simpl. split_and!; [done|done|done|lia|apply Z.ltb_lt|done|].
  intros. by eapply reduced_reproduces.
Qed.

(** C11: delta debugging always returns, without a slice out of bounds, whatever
    the target does and however the minimum chunk size is set.  Unless the
    context was cancelled, the result is the input itself or a strictly shorter
    input that was seen to crash as expected; the sizes, the hash and the success
    flag agree with it, the iterations respect their limit, and a target that
    behaves deterministically still crashes on the result if it did on the input. *)
Theorem delta_debug_sound cfg input :
  ∃ r e k, dd_Minimize run sha256hex cancelled now input cfg = Ok (r, e, k) ∧
    (e = None → sound_result cfg input r ∧ shrunk cfg input (MinimizedInput r)).
Proof.
  unfold dd_Minimize.
  destruct (dd_loop_spec cfg (new_result MinimizationStrategyDeltaDebug input)
              (Z.to_nat (MaxIterations cfg)) 0 2 input 0) as (e & it & k & -> & Hit & Hc); [lia|].
  simpl. destruct e as [c|]; [|by eexists _, _, _].
  eexists _, _, _. split; [done|]. intros _. split; [|by apply Hc].
  apply finish_sound; [by apply shrunk_reduced, Hc|lia].
Qed.

(** ** Minimality *)

(** Cutting any of the first [g - 1] bytes, or all the others, does not crash. *)
Definition head_minimal cfg current (g : Z) : Prop :=
  (∀ i, 0 ≤ i < g - 1 → ¬ crashed cfg (take (Z.to_nat i) current ++ drop (S (Z.to_nat i)) current)) ∧
  ¬ crashed cfg (take (Z.to_nat (g - 1)) current).

Lemma not_crashed cfg c k : deterministic → testCrash run cfg k c = false → ¬ crashed cfg c.
Proof. intros Hd Hk [j Hj]. rewrite (deterministic_test cfg j k) in Hj by done. congruence. Qed.

(** A round over chunks of one byte that finds nothing. *)
Definition round_failed cfg current (g : Z) : Prop :=
  ∀ i, 0 ≤ i < g → ∃ t k0,
    bytes_cut current (i * Z.quot (len current) g)
      (if i =? g - 1 then len current else i * Z.quot (len current) g + Z.quot (len current) g) = Ok t ∧
    testCrash run cfg k0 t = false.

Lemma round_failed_minimal cfg current g :
  deterministic → 2 ≤ g ≤ len current → len current < 2 * g → round_failed cfg current g →
  head_minimal cfg current g.
Proof.
  intros Hd Hg Hlt Hr.
  assert (Z.quot (len current) g = 1) as Hq.
  { rewrite Z.quot_div_nonneg by lia. symmetry. apply (Z.div_unique_pos _ _ _ (len current - g)); lia. }
  unfold round_failed in Hr. rewrite Hq in Hr. split.
  - intros i Hi. destruct (Hr i) as (t & k0 & Ht & Hk); [lia|]. rewrite (proj2 (Z.eqb_neq i (g - 1))) in Ht by lia.
    destruct (bytes_cut_ok current (i * 1) (i * 1 + 1)) as [E _]; [lia..|]. rewrite E in Ht. injection Ht as <-.
    replace (Z.to_nat (i * 1)) with (Z.to_nat i) in Hk by lia.
    replace (Z.to_nat (i * 1 + 1)) with (S (Z.to_nat i)) in Hk by lia.
    by eapply not_crashed.
  - destruct (Hr (g - 1)) as (t & k0 & Ht & Hk); [lia|]. rewrite Z.eqb_refl in Ht.
    destruct (bytes_cut_ok current ((g - 1) * 1) (len current)) as [E _]; [lia..|]. rewrite E in Ht. injection Ht as <-.
    rewrite (drop_ge current) in Hk by (unfold len; lia). rewrite app_nil_r in Hk.
    replace (Z.to_nat ((g - 1) * 1)) with (Z.to_nat (g - 1)) in Hk by lia. by eapply not_crashed.
Qed.

Lemma dd_loop_minimal cfg r todo it p current k c it' k' :
  MinChunkSize cfg ≤ 1 → (∀ i, out_of_time now cfg r i = false) → 1 ≤ p →
  (2 ≤ p → 2 ^ (p - 1) ≤ len current ∧ round_failed cfg current (2 ^ (p - 1))) →
  dd_loop run cancelled now cfg r todo it (2 ^ p) current k = Ok (Finished c, it', k') →
  (it' < it + todo)%nat → 2 ≤ len c →
  ∃ q, 1 ≤ q ∧ 2 ^ q ≤ len c < 2 * 2 ^ q ∧ round_failed cfg c (2 ^ q).
Proof.
  intros Hm Ht. revert it p current k. induction todo as [|todo IH]; intros it p current k Hp Hinv; simpl.
  { intros [= <- <- <-]. lia. }
  assert (2 ≤ 2 ^ p) as Hp2 by (change 2 with (2 ^ 1) at 1; apply Z.pow_le_mono_r; lia).
  destruct (Z.ltb_spec (len current) (2 ^ p)) as [Hlt|Hge].
  { intros [= <- <- <-] _ Hc. destruct (decide (p = 1)) as [->|]; [simpl in *; lia|].
    exists (p - 1). rewrite <- Z.pow_succ_r by lia. replace (Z.succ (p - 1)) with p by lia.
    destruct Hinv as [H1 H2]; [lia|]. split_and!; [lia|lia|lia|done]. }
  destruct (cancelled it); [done|]. rewrite Ht.
  destruct (chunk_sizes current (2 ^ p) (MinChunkSize cfg) Hp2 Hge) as (H1 & H2 & _).
  rewrite (proj2 (Z.ltb_ge (Z.quot (len current) (2 ^ p)) (MinChunkSize cfg))) by lia. cbn [andb].
  destruct (dd_round_spec cfg current _ _ k Hp2 H1 H2) as (o & k1 & -> & _ & Hnone). simpl. destruct o as [t|].
  - intros E Hit. eapply (IH (S it) 1 t); [lia|lia|exact E|lia].
  - replace (2 ^ p * 2) with (2 ^ (p + 1)) by (rewrite Z.pow_add_r; lia). intros E Hit.
    eapply (IH (S it) (p + 1) current); [lia| |exact E|lia].
    intros _. replace (p + 1 - 1) with p by lia. split; [done|]. exact (Hnone eq_refl).
Qed.

Lemma no_time_limit cfg r it : MaxTime cfg = maxInt64 → out_of_time now cfg r it = false.
Proof.
  intros H. unfold out_of_time. rewrite H. apply Z.ltb_ge. pose proof (time_sub_range (now it) (MR_Timestamp r)).
  unfold in_int64 in *. lia.
Qed.

(** Without a time limit, a delta debugging run of a deterministic target
    that stops before its iteration limit ends in an input of which no byte
    among the first [g - 1] can be dropped, nor all the others together, where
    [g] is the greatest power of two within its length.  (Of the last bytes it
    says no more: see [delta_debug_not_1_minimal].) *)
Theorem delta_debug_minimal cfg input r k :
  deterministic → MaxTime cfg = maxInt64 → MinChunkSize cfg ≤ 1 →
  dd_Minimize run sha256hex cancelled now input cfg = Ok (r, None, k) →
  Iterations r < MaxIterations cfg → 2 ≤ len (MinimizedInput r) →
  ∃ q, 1 ≤ q ∧ 2 ^ q ≤ len (MinimizedInput r) < 2 * 2 ^ q ∧ head_minimal cfg (MinimizedInput r) (2 ^ q).
Proof.
  intros Hd Ht Hm. unfold dd_Minimize.
  destruct (dd_loop run cancelled now cfg _ _ 0 2 input 0) as [[[[c|] it] k1]|e|w] eqn:E; simpl; try done.
  intros [= <- <-]. simpl. intros Hit Hc.
  eapply (dd_loop_minimal _ _ _ _ 1) in E as (q & Hq & Hb & Hr); [|done|intros; by apply no_time_limit|lia|lia|lia|done].
  exists q. split_and!; [done|lia|lia|].
  assert (2 ≤ 2 ^ q) by (change 2 with (2 ^ 1) at 1; apply Z.pow_le_mono_r; lia).
  apply round_failed_minimal; [done|lia|lia|done].
Qed.

(** ** Coverage-guided minimisation *)

Lemma remove_bytes_spec cfg kept rest improved k :
  let '(c, _, _) := remove_bytes run cfg kept rest improved k in shrunk cfg (kept ++ rest) c.
Proof.
  revert kept improved k. induction rest as [|b rest IH]; intros kept improved k; simpl.
  { left. by rewrite app_nil_r. }
  destruct (testCrash run cfg k (kept ++ rest)) eqn:E.
  - specialize (IH kept true (S k)). destruct (remove_bytes _ _ _ _ _ _) as [[c i] k'].
    eapply shrunk_trans; [|exact IH]. right. split; [by exists k|]. unfold len. rewrite !length_app. simpl. lia.
  - specialize (IH (kept ++ [b]) improved (S k)). destruct (remove_bytes _ _ _ _ _ _) as [[c i] k'].
    by rewrite <- app_assoc in IH.
Qed.

Lemma byte_loop_spec cfg r todo it improved current k :
  let '(e, it', _) := byte_loop run cancelled now cfg r todo it improved current k in
  (it' ≤ it + todo)%nat ∧ ∀ c, e = Finished c → shrunk cfg current c.
Proof.
  revert it improved current k. induction todo as [|todo IH]; intros it improved current k; simpl.
  { split; [lia|]. intros c [= <-]. by left. }
  destruct improved; simpl; [|split; [lia|]; intros c [= <-]; by left].
  destruct (cancelled it); [split; [lia|done]|].
  destruct (out_of_time now cfg r it); [split; [lia|]; intros c [= <-]; by left|].
  pose proof (remove_bytes_spec cfg [] current false k) as Hr.
  destruct (remove_bytes run cfg [] current false k) as [[c1 i1] k1].
  specialize (IH (S it) i1 c1 k1). destruct (byte_loop _ _ _ _ _ _ _ _ _ _) as [[e it'] k'].
  destruct IH as [Hit Hc]. split; [lia|]. intros c He. eapply shrunk_trans; [exact Hr|by apply Hc].
Qed.

(** A pass over the blocks ends within one unit of fuel per byte, and removes
    something exactly if it says so. *)
Lemma remove_blocks_spec cfg size fuel i current improved k :
  1 ≤ size → 0 ≤ i → (0 < fuel)%nat → len current - i < Z.of_nat fuel →
  ∃ c b k', remove_blocks run cfg size fuel i current improved k = Ok (c, b, k') ∧ shrunk cfg current c ∧
    (b = true → improved = true ∨ len c < len current).
Proof.
  intros Hs. revert i current improved k. induction fuel as [|fuel IH]; intros i current improved k Hi Hi' Hf.
  { lia. }
  simpl. destruct (Z.leb_spec i (len current - size)) as [Hle|Hgt].
  - destruct (bytes_cut_ok current i (i + size)) as [-> Ht]; [lia..|]. cbn [res_bind].
    set (t := take _ _ ++ drop _ _) in *. destruct (testCrash run cfg k t) eqn:E.
    + destruct (IH (Z.max 0 (i - size) + size) t true (S k)) as (c & b & k' & -> & Hc & Hb); [lia|lia|lia|].
      eexists _, _, _. split_and!; [done| |].
      * eapply shrunk_trans; [|exact Hc]. right. split; [by exists k|lia].
      * intros Hb'. right. destruct Hc as [->|[_ ?]]; lia.
    + destruct (IH (i + size) current improved (S k)) as (c & b & k' & -> & Hc & Hb); [lia|lia|lia|].
      by eexists _, _, _.
  - eexists _, _, _. split_and!; [done|by left|]. intros ->. by left.
Qed.

Lemma block_loop_spec cfg size fuel current k :
  1 ≤ size → len current < Z.of_nat fuel →
  ∃ c k', block_loop run cfg size fuel current k = Ok (c, k') ∧ shrunk cfg current c.
Proof.
  intros Hs. revert current k. induction fuel as [|fuel IH]; intros current k Hf.
  { unfold len in Hf. lia. }
  cbn [block_loop].
  destruct (remove_blocks_spec cfg size (S (length current)) 0 current false k) as (c & b & k1 & -> & Hc & Hb);
    [done|lia|lia|unfold len; lia|].
  cbn [res_bind]. destruct b; [|by eexists _, _].
  destruct Hb as [?|Hb]; [done|done|].
  destruct (IH c k1) as (c' & k' & -> & Hc'); [lia|]. eexists _, _. split; [done|]. by eapply shrunk_trans.
Qed.

Lemma block_sizes_spec cfg sizes current k :
  Forall (λ z, 1 ≤ z) sizes →
  ∃ c k', block_sizes_loop run cfg sizes current k = Ok (c, k') ∧ shrunk cfg current c.
Proof.
  intros H. revert current k. induction H as [|z sizes Hz _ IH]; intros current k; cbn [block_sizes_loop].
  { eexists _, _. split; [done|by left]. }
  destruct (_ <? z); [apply IH|].
  destruct (block_loop_spec cfg z (S (length current)) current k) as (c & k1 & -> & Hc); [done|unfold len; lia|].
  cbn [res_bind]. destruct (IH c k1) as (c' & k' & -> & Hc'). eexists _, _. split; [done|]. by eapply shrunk_trans.
Qed.

Lemma overwrite_spec cfg skip target indices current k :
  reduced cfg current (overwrite run cfg skip target indices current k).1.
Proof.
  revert current k. induction indices as [|i indices IH]; intros current k; simpl; [by apply shrunk_reduced; left|].
  destruct (current !! i) as [old|]; [|by apply shrunk_reduced; left].
  destruct (skip old); [apply IH|].
  destruct (testCrash run cfg k (<[i:=target]> current)) eqn:E; [|apply IH].
  eapply reduced_trans; [|apply IH]. split; [right; by exists k|]. unfold len. by rewrite length_insert.
Qed.

(** C12: coverage-guided minimisation always returns, without a slice out of
    bounds: the block passes end although an index may stand still.  Unless the
    context was cancelled, the result is the input or was seen to crash, is no
    longer than the input, and is reported accurately. *)
Theorem coverage_guided_sound cfg input :
  ∃ r e k, cov_Minimize run sha256hex cancelled now input cfg = Ok (r, e, k) ∧
    (e = None → sound_result cfg input r).
Proof.
  unfold cov_Minimize.
  pose proof (byte_loop_spec cfg (new_result MinimizationStrategyCoverageGuided input)
                (Z.to_nat (MaxIterations cfg)) 0 true input 0) as Hb.
  destruct (byte_loop _ _ _ _ _ _ _ _ _ _) as [[e it] k]. destruct Hb as [Hit Hc].
  destruct e as [c|]; [|by eexists _, _, _]. unfold tryBlockRemoval.
  destruct (block_sizes_spec cfg blockSizes c k) as (c1 & k1 & -> & Hc1); [by repeat constructor|]. cbn [res_bind].
  unfold tryPatternSimplification.
  pose proof (overwrite_spec cfg (Byte.eqb x00) x00 (seq 0 (length c1)) c1 k1) as H1.
  destruct (overwrite _ _ _ _ _ c1 k1) as [c2 k2]. simpl in H1.
  pose proof (overwrite_spec cfg (λ b, Byte.eqb x41 b || Byte.eqb x00 b) x41 (seq 0 (length c2)) c2 k2) as H2.
  destruct (overwrite _ _ _ _ _ c2 k2) as [c3 k3]. simpl in H2.
  eexists _, _, _. split; [done|]. intros _. apply finish_sound; [|lia].
  eapply reduced_trans; [apply shrunk_reduced, Hc; done|].
  eapply reduced_trans; [by apply shrunk_reduced|]. by eapply reduced_trans.
Qed.

End soundness.

(** ** The time limit of the service *)

Section time_limit.
Variable run : nat → bytes → RunOutcome.
Variable sha256hex : bytes → string.
Variable cancelled : nat → bool.
Variable now : nat → Time.
Variable join : list string → string.

(** The clock reads a date more than 292 years after the zero time, which is
    where [time.Since] saturates. *)
Definition modern (t : Time) : Prop := zero_time + maxInt64 ≤ t.

Lemma service_out_of_time crash strategy input it :
  modern (now it) → out_of_time now (service_config crash) (new_result strategy input) it = true.
Proof.
  intros H. unfold out_of_time, modern in *. simpl. apply Z.ltb_lt. unfold time_sub.
  unfold minInt64, maxInt64, Minute, Second in *. lia.
Qed.

Lemma service_dd_loop crash input :
  modern (now 0%nat) →
  let r := new_result MinimizationStrategyDeltaDebug input in
  dd_loop run cancelled now (service_config crash) r 1000 0 2 input 0 =
    Ok (if (2 <=? len input) && cancelled 0%nat then CtxDone else Finished input, 0%nat, 0%nat).
Proof.
  intros H r. change 1000%nat with (S 999). generalize 999%nat as todo; intros todo. cbn [dd_loop].
  rewrite Z.ltb_antisym. destruct (2 <=? len input); simpl; [|done].
  destruct (cancelled 0%nat); [done|]. unfold r. by rewrite service_out_of_time.
Qed.

Lemma service_byte_loop crash input :
  modern (now 0%nat) →
  let r := new_result MinimizationStrategyCoverageGuided input in
  byte_loop run cancelled now (service_config crash) r 1000 0 true input 0 =
    (if cancelled 0%nat then CtxDone else Finished input, 0%nat, 0%nat).
Proof.
  intros H r. change 1000%nat with (S 999). generalize 999%nat as todo; intros todo. cbn [byte_loop negb].
  destruct (cancelled 0%nat); [done|]. unfold r. by rewrite service_out_of_time.
Qed.

(** The service never runs an iteration of either strategy.  The time
    limit is measured from the result's time stamp, which is only set afterwards,
    so it is exceeded at once: with delta debugging, a call that succeeds returns
    the crash input unchanged as an unsuccessful minimisation and saves nothing;
    with the coverage-guided strategy no single byte is ever tried. *)
Theorem service_never_iterates crashID strategy crash job input mkdir t0 t1 t2 save r :
  modern (now 0%nat) →
  MinimizeCrash run sha256hex cancelled now join crashID strategy (inl crash) (inl job) (inl input)
    mkdir t0 t1 t2 save = Ok r →
  Iterations r = 0 ∧
  (strategy = MinimizationStrategyDeltaDebug →
   MinimizedInput r = input ∧ Success r = false ∧ MinimizedPath r = "" ∧ MinimizedSize r = OriginalSize r).
Proof.
  intros Hnow. unfold MinimizeCrash. destruct (String.eqb_spec strategy MinimizationStrategyDeltaDebug) as [->|Hs].
  - destruct mkdir; [done|]. unfold dd_Minimize.
    change (Z.to_nat (MaxIterations (service_config crash))) with 1000%nat.
    rewrite service_dd_loop by done. destruct (_ && _); simpl; [done|].
    rewrite Z.ltb_irrefl. simpl. intros [= <-]. by split.
  - destruct (String.eqb strategy MinimizationStrategyCoverageGuided); [|by destruct mkdir].
    destruct mkdir; [done|]. unfold cov_Minimize.
    change (Z.to_nat (MaxIterations (service_config crash))) with 1000%nat.
    rewrite service_byte_loop by done. destruct (cancelled 0%nat); cbn [res_bind]; [done|].
    destruct (tryBlockRemoval _ _ _ _) as [[c k]|e|w]; cbn [res_bind]; [|done..].
    destruct (tryPatternSimplification _ _ _ _) as [c' k']. cbn [res_bind].
    destruct (_ && _); [|by intros [= <-]].
    destruct (substr _ _ _) as [short|e|w]; simpl; [|done..].
    intros [= <-]. by destruct (save _ _).
Qed.

End time_limit.

(** ** Concrete runs *)

Module Concrete.
(** A target that crashes exactly on inputs with both an A and a C. *)
Definition has (b : byte) (input : bytes) : bool := existsb (Byte.eqb b) input.
Definition run_AC (k : nat) (input : bytes) : RunOutcome :=
  Exited (if has x41 input && has x43 input then 134 else 0).
Definition cfg : MinimizationConfig := mkMinConfig 1000 maxInt64 1 6 134.
Definition ABC : bytes := [x41; x42; x43].
Definition clock (_ : nat) : Time := 1700000000 * Second.
Definition no_cancel (_ : nat) : bool := false.
Definition hash (_ : bytes) : string := "0123456789abcdef".
Definition crash : CrashResult :=
  mkCrash "c1" "j1" "b1" "" "h" "crash-1" "assertion" 6 134 0 3 true [] "" "" "" true false None.
Definition the_job : MJob :=
  mkMJob "j1" "job" "target" "afl++" "fuzzing" JobStatusCompleted None 0 None None 0 "/work"
    (mkJobConfig 0 0 0 "" [] "") 0 None None false None 0 false "" None None None None.
Definition result : MinimizationResult :=
  match dd_Minimize run_AC hash no_cancel clock ABC cfg with Ok (r, _, _) => r | _ => new_result "" [] end.
End Concrete.

(** Delta debugging does not reach a 1-minimal input: from three bytes it goes
    from two chunks to four, which is more than the length, so that the last two
    bytes are never tried separately. *)
Lemma delta_debug_not_1_minimal :
  let run := Concrete.run_AC in
  (∃ r k, dd_Minimize run Concrete.hash Concrete.no_cancel Concrete.clock Concrete.ABC Concrete.cfg = Ok (r, None, k) ∧
          MinimizedInput r = Concrete.ABC) ∧
  testCrash run Concrete.cfg 0 [x41; x43] = true.
Proof. split; [|reflexivity]. eexists _, _. split; vm_compute; reflexivity. Qed.

Lemma delta_debug_minimal_witness :
  MinimizedInput Concrete.result = Concrete.ABC ∧
  ∃ q, 1 ≤ q ∧ 2 ^ q ≤ len (MinimizedInput Concrete.result) < 2 * 2 ^ q ∧
       head_minimal Concrete.run_AC Concrete.cfg (MinimizedInput Concrete.result) (2 ^ q).
Proof.
  split; [vm_compute; reflexivity|].
  refine (delta_debug_minimal Concrete.run_AC Concrete.hash Concrete.no_cancel Concrete.clock Concrete.cfg
            Concrete.ABC _ 5 _ _ _ _ _ _).
  - done.
  - reflexivity.
  - vm_compute. discriminate.
  - vm_compute. reflexivity.
  - vm_compute. reflexivity.
  - vm_compute. discriminate.
Defined.

Lemma service_never_iterates_witness :
  ∃ r, MinimizeCrash Concrete.run_AC Concrete.hash Concrete.no_cancel Concrete.clock (String.concat "/") "c1"
         MinimizationStrategyDeltaDebug (inl Concrete.crash) (inl Concrete.the_job)
         (inl (x42 :: x42 :: Concrete.ABC)) None 0 1 2 (λ _ _, None) = Ok r ∧
       Iterations r = 0 ∧ MinimizedInput r = x42 :: x42 :: Concrete.ABC.
Proof.
  eexists. split; [vm_compute; reflexivity|].
  edestruct (service_never_iterates Concrete.run_AC Concrete.hash Concrete.no_cancel Concrete.clock
    (String.concat "/") "c1" MinimizationStrategyDeltaDebug Concrete.crash Concrete.the_job
    (x42 :: x42 :: Concrete.ABC) None 0 1 2 (λ _ _, None)) as [H1 H2].
  - unfold modern, Concrete.clock. vm_compute. discriminate.
  - vm_compute. reflexivity.
  - split; [exact H1|]. apply H2. reflexivity.
Defined.
