(* ===== verification/BotAgent.v ===== *)
(** * Bot agents (pkg/domain/bot/types/status.go, agent.go, events.go)

    The agent entity with its status, capabilities and metadata, and the events
    published about it.  Statuses are strings, as in Go; a method that reads the
    clock takes the reading as an argument. *)

From S2P Require Import Prelude.

Abbreviation Status := string (only parsing).
Definition StatusIdle : Status := "idle".
Definition StatusWorking : Status := "working".
Definition StatusOffline : Status := "offline".
Definition StatusMaintenance : Status := "maintenance".
Definition StatusError : Status := "error".

Definition AllStatuses : list Status := [StatusIdle; StatusWorking; StatusOffline; StatusMaintenance; StatusError].

Definition status_Validate (s : Status) : option goerror :=
  if slice_has s [StatusIdle; StatusWorking; StatusOffline; StatusMaintenance; StatusError]
  then None else Some (ErrNew ("invalid bot status: " +:+ s)).
Definition IsOperational (s : Status) : bool := String.eqb s StatusIdle || String.eqb s StatusWorking.
Definition CanWork (s : Status) : bool := String.eqb s StatusIdle.

Definition priorities : gmap string Z :=
  list_to_map [(StatusIdle, 1); (StatusWorking, 2); (StatusMaintenance, 3); (StatusOffline, 4); (StatusError, 5)].
Definition status_Priority (s : Status) : Z := default 0 (priorities !! s).

Definition ParseStatus (s : string) : res Status :=
  match status_Validate s with Some e => Err e | None => Ok s end.
Definition MustParseStatus (s : string) : res Status :=
  match ParseStatus s with Err e => Panic (Error e) | r => r end.

Definition validTransitions : gmap string (list Status) :=
  list_to_map
    [(StatusIdle, [StatusWorking; StatusOffline; StatusMaintenance; StatusError]);
     (StatusWorking, [StatusIdle; StatusOffline; StatusError]);
     (StatusOffline, [StatusIdle; StatusMaintenance]);
     (StatusMaintenance, [StatusIdle; StatusOffline]);
     (StatusError, [StatusIdle; StatusOffline; StatusMaintenance])].
Definition IsValidTransition (from to : Status) : bool :=
  match validTransitions !! from with
  | None => false
  | Some allowed => slice_has to allowed
  end.

(** ** Agents *)

Abbreviation Capability := string (only parsing).
Definition CapabilityFuzzing : Capability := "fuzzing".
Definition CapabilityAnalysis : Capability := "analysis".
Definition CapabilityReporting : Capability := "reporting".
Definition CapabilityCoordination : Capability := "coordination".

Record Agent := mkAgent {
  AgentID : string; AgentName : string; AStatus : Status; ACapabilities : list Capability;
  AHeartbeat : Time; ACreatedAt : Time; AUpdatedAt : Time; AMetadata : option (gmap string goany) }.
#[export] Instance Agent_eta : Eta Agent := fun a =>
  mkAgent (AgentID a) (AgentName a) (AStatus a) (ACapabilities a) (AHeartbeat a) (ACreatedAt a) (AUpdatedAt a)
    (AMetadata a).

Definition NewAgent (now : Time) (id name : string) (capabilities : list Capability) : res Agent :=
  if String.eqb id "" then Err (ErrNew "agent ID cannot be empty")
  else if String.eqb name "" then Err (ErrNew "agent name cannot be empty")
  else match capabilities with
       | [] => Err (ErrNew "agent must have at least one capability")
       | _ => Ok (mkAgent id name StatusIdle capabilities now now now (Some ∅))
       end.

Definition agent_UpdateStatus (now : Time) (newStatus : Status) (a : Agent) : res Agent :=
  match status_Validate newStatus with
  | Some e => Err e
  | None => Ok (a <| AStatus := newStatus |> <| AUpdatedAt := now |>)
  end.
Definition agent_UpdateHeartbeat (now : Time) (a : Agent) : Agent :=
  a <| AHeartbeat := now |> <| AUpdatedAt := now |>.
Definition IsOnline (now : Time) (a : Agent) : bool :=
  negb (String.eqb (AStatus a) StatusOffline) && (time_sub now (AHeartbeat a) <? 5 * Minute).
Definition IsAvailable (now : Time) (a : Agent) : bool :=
  String.eqb (AStatus a) StatusIdle && IsOnline now a.
Definition HasCapability (cap : Capability) (a : Agent) : bool := slice_has cap (ACapabilities a).
Definition AddCapability (now : Time) (cap : Capability) (a : Agent) : Agent :=
  if HasCapability cap a then a
  else a <| ACapabilities := ACapabilities a ++ [cap] |> <| AUpdatedAt := now |>.
Definition RemoveCapability (now : Time) (cap : Capability) (a : Agent) : Agent :=
  a <| ACapabilities := List.filter (λ c, negb (String.eqb c cap)) (ACapabilities a) |> <| AUpdatedAt := now |>.
Definition SetMetadata (now : Time) (key : string) (value : goany) (a : Agent) : Agent :=
  a <| AMetadata := Some (<[key := value]> (default ∅ (AMetadata a))) |> <| AUpdatedAt := now |>.
Definition GetMetadata (key : string) (a : Agent) : option goany :=
  match AMetadata a with None => None | Some m => m !! key end.
Definition agent_Validate (a : Agent) : option goerror :=
  if String.eqb (AgentID a) "" then Some (ErrNew "agent ID cannot be empty")
  else if String.eqb (AgentName a) "" then Some (ErrNew "agent name cannot be empty")
  else match ACapabilities a with
       | [] => Some (ErrNew "agent must have at least one capability")
       | _ => status_Validate (AStatus a)
       end.

(** ** Events, with the bot they are about and the time of creation *)

Inductive BotEvent :=
  | BotRegistered (bot : string) (at_ : Time) (agent : Agent)
  | BotDeregistered (bot : string) (at_ : Time)
  | BotStatusChanged (bot : string) (at_ : Time) (old new : Status) (reason : string)
  | BotHeartbeatEvent (bot : string) (at_ : Time)
  | BotWorkAssigned (bot : string) (at_ : Time) (job type : string) (metadata : option (gmap string goany))
  | BotWorkCompleted (bot : string) (at_ : Time) (job : string) (duration : Duration)
      (results : option (gmap string goany))
  | BotWorkFailed (bot : string) (at_ : Time) (job error reason : string)
  | BotHealthCheckFailed (bot : string) (at_ : Time) (error : string) (lastSeen : Time) (downtime : Duration)
      (attempts : Z) (willRetry : bool) (nextRetry : option Time).

Definition NewBotHealthCheckFailedEvent (now : Time) (bot err : string) (lastSeen : Time) (attempts : Z)
    (willRetry : bool) (nextRetry : option Time) : BotEvent :=
  BotHealthCheckFailed bot now err lastSeen (time_sub now lastSeen) attempts willRetry nextRetry.

(** ** Lemmas *)

Lemma status_Validate_ok s : status_Validate s = None ↔ s ∈ AllStatuses.
Proof.
  unfold status_Validate. fold AllStatuses. rewrite <- slice_has_true. by destruct (slice_has s AllStatuses).
Qed.

Lemma agent_Validate_ok a :
  agent_Validate a = None ↔
  AgentID a ≠ "" ∧ AgentName a ≠ "" ∧ ACapabilities a ≠ [] ∧ AStatus a ∈ AllStatuses.
Proof.
  unfold agent_Validate. rewrite <- status_Validate_ok.
  destruct (String.eqb_spec (AgentID a) ""); [naive_solver|].
  destruct (String.eqb_spec (AgentName a) ""); [naive_solver|].
  destruct (ACapabilities a); naive_solver.
Qed.

Lemma NewAgent_ok now id name caps a :
  NewAgent now id name caps = Ok a ↔
  id ≠ "" ∧ name ≠ "" ∧ caps ≠ [] ∧ a = mkAgent id name StatusIdle caps now now now (Some ∅).
Proof.
  unfold NewAgent. destruct (String.eqb_spec id ""); [naive_solver|].
  destruct (String.eqb_spec name ""); [naive_solver|]. destruct caps; naive_solver.
Qed.

Lemma GetMetadata_set now k v a k' :
  GetMetadata k' (SetMetadata now k v a) = if String.eqb k k' then Some v else GetMetadata k' a.
Proof.
  unfold GetMetadata, SetMetadata. simpl. destruct (String.eqb_spec k k') as [->|]; [apply lookup_insert_eq|].
  rewrite lookup_insert_ne by done. by destruct (AMetadata a).
Qed.
#[export] Hint Rewrite GetMetadata_set : go_rw.

(** The table has an entry for every status and leads to valid statuses only,
    never to the status itself. *)
Lemma transition_table from to :
  IsValidTransition from to = true → from ∈ AllStatuses ∧ to ∈ AllStatuses ∧ from ≠ to.
Proof.
  unfold IsValidTransition. destruct (validTransitions !! from) as [l|] eqn:E; [|done].
  intros Ht%slice_has_true. apply elem_of_list_to_map_2 in E.
  assert (∀ x, x ∈ AllStatuses ↔ slice_has x AllStatuses = true) as Hs by (intros; symmetry; apply slice_has_true).
  rewrite !Hs. repeat (apply elem_of_cons in E as [[= -> ->]|E];
    [repeat (apply elem_of_cons in Ht as [->|Ht]; [done|]); by apply not_elem_of_nil in Ht|]).
  by apply not_elem_of_nil in E.
Qed.
