(* ===== verification/BotRegistry.v ===== *)
(** * The bot registry (pkg/domain/bot/registry/service.go, health.go)

    The service is written against the interface [AgentRepository]
    (pkg/domain/bot/repository/interface.go): a type class over the state [R] of
    the repository, with laws for what the interface documents and a map-backed
    implementation.  A repository hands out copies.  One call of the service, or
    one pass of the health checker, is one step; the readings of the clock
    within a step are one argument.  Published events are kept in order; the
    service ignores the publisher's errors. *)

From S2P Require Import Prelude BotAgent.

Class AgentRepository (R : Type) := {
  ACreate : R → Agent → option goerror * R;
  AUpdate : R → Agent → option goerror * R;
  ADelete : R → string → option goerror * R;
  FindByID : R → string → Agent + goerror;
  FindByCapability : R → Capability → list Agent + goerror;
  FindOnline : Time → R → list Agent + goerror;
  FindAvailable : Time → R → list Agent + goerror;
  FindStale : Time → R → Duration → list Agent + goerror;
  RepoHeartbeat : Time → R → string → option goerror * R;            (* UpdateHeartbeat *)
  RepoStatus : Time → R → string → Status → option goerror * R;      (* UpdateStatus *)
  CountByStatus : R → Status → Z + goerror;
  CountByCapability : R → Capability → Z + goerror }.

(** Reads of other agents are unaffected. *)
Definition same_but {R} `{AgentRepository R} (r r' : R) (id : string) : Prop :=
  ∀ k, k ≠ id → FindByID r' k = FindByID r k.

(** A listing of the stored agents that satisfy [P]. *)
Definition lists {R} `{AgentRepository R} (r : R) (P : Agent → Prop) (l : list Agent) : Prop :=
  NoDup (AgentID <$> l) ∧ ∀ a, a ∈ l ↔ FindByID r (AgentID a) = inl a ∧ P a.

Class AgentLaws (R : Type) `{AgentRepository R} : Prop := {
  find_id r id a : FindByID r id = inl a → AgentID a = id;
  acreate_ok r a r' : ACreate r a = (None, r') → FindByID r' (AgentID a) = inl a ∧ same_but r r' (AgentID a);
  acreate_fail r a e r' : ACreate r a = (Some e, r') → r' = r;
  aupdate_ok r a r' : AUpdate r a = (None, r') → FindByID r' (AgentID a) = inl a ∧ same_but r r' (AgentID a);
  aupdate_fail r a e r' : AUpdate r a = (Some e, r') → r' = r;
  adelete_ok r id r' : ADelete r id = (None, r') → (∃ e, FindByID r' id = inr e) ∧ same_but r r' id;
  adelete_fail r id e r' : ADelete r id = (Some e, r') → r' = r;
  heartbeat_ok now r id r' : RepoHeartbeat now r id = (None, r') →
    ∃ a, FindByID r id = inl a ∧ FindByID r' id = inl (agent_UpdateHeartbeat now a) ∧ same_but r r' id;
  heartbeat_fail now r id e r' : RepoHeartbeat now r id = (Some e, r') → r' = r;
  status_ok now r id s r' : RepoStatus now r id s = (None, r') →
    ∃ a upd, FindByID r id = inl a ∧ FindByID r' id = inl (a <| AStatus := s |> <| AUpdatedAt := upd |>) ∧
             same_but r r' id;
  status_fail now r id s e r' : RepoStatus now r id s = (Some e, r') → r' = r;
  stale_ok now r d l : FindStale now r d = inl l → lists r (λ a, d < time_sub now (AHeartbeat a)) l;
  online_ok now r l : FindOnline now r = inl l → lists r (λ a, IsOnline now a = true) l;
  available_ok now r l : FindAvailable now r = inl l → lists r (λ a, IsAvailable now a = true) l;
  capability_ok r c l : FindByCapability r c = inl l → lists r (λ a, HasCapability c a = true) l }.

(** ** State *)

Record HealthChecker := mkHC {
  hcStale : Duration; failureCounts : gmap string Z; lastCheckTime : gmap string Time }.
#[export] Instance HealthChecker_eta : Eta HealthChecker := fun h =>
  mkHC (hcStale h) (failureCounts h) (lastCheckTime h).
Definition NewHealthChecker (staleTimeout : Duration) : HealthChecker := mkHC staleTimeout ∅ ∅.

Record Service (R : Type) := mkService {
  repo : R; healthChecker : HealthChecker; staleTimeout : Duration; heartbeatTimeout : Duration;
  published : list BotEvent }.
Arguments mkService {R} _ _ _ _ _.
Arguments repo {R} _.
Arguments healthChecker {R} _.
Arguments staleTimeout {R} _.
Arguments heartbeatTimeout {R} _.
Arguments published {R} _.
#[export] Instance Service_eta {R} : Eta (Service R) := fun s =>
  mkService (repo s) (healthChecker s) (staleTimeout s) (heartbeatTimeout s) (published s).

(** The options set the two time-outs. *)
Definition NewService {R} (r : R) (stale heartbeat : option Duration) : Service R :=
  let st := default (5 * Minute) stale in
  mkService r (NewHealthChecker st) st (default (30 * Second) heartbeat) [].

Definition PublishEvent {R} (e : BotEvent) (s : Service R) : Service R := s <| published := published s ++ [e] |>.

Section service.
Context {R : Type} `{AgentRepository R}.
Implicit Types (s : Service R) (now : Time).
(** [now.Format(time.RFC3339)] and its inverse [time.Parse]. *)
Variable stamp : Time → string.
Variable parse : string → option Time.

(** ** Registration *)

Definition RegisterBot now (id name : string) (caps : list Capability) s : res Agent * Service R :=
  match FindByID (repo s) id with
  | inl _ => (Err (ErrNew ("bot with ID " +:+ id +:+ " already exists")), s)
  | inr _ =>
      match NewAgent now id name caps with
      | Panic w => (Panic w, s)
      | Err e => (Err (ErrWrap "failed to create agent" e), s)
      | Ok a =>
          match ACreate (repo s) a with
          | (Some e, r) => (Err (ErrWrap "failed to save agent" e), s <| repo := r |>)
          | (None, r) => (Ok a, PublishEvent (BotRegistered id now a) (s <| repo := r |>))
          end
      end
  end.

Definition DeregisterBot now (id : string) s : res unit * Service R :=
  match FindByID (repo s) id with
  | inr e => (Err (ErrWrap "bot not found" e), s)
  | inl a =>
      if String.eqb (AStatus a) StatusWorking
      then (Err (ErrNew "cannot deregister bot while it's working"), s)
      else match ADelete (repo s) id with
           | (Some e, r) => (Err (ErrWrap "failed to delete agent" e), s <| repo := r |>)
           | (None, r) => (Ok tt, PublishEvent (BotDeregistered id now) (s <| repo := r |>))
           end
  end.

(** The end of every update: save the agent and publish. *)
Definition save_agent (a : Agent) (e : BotEvent) s : res unit * Service R :=
  match AUpdate (repo s) a with
  | (Some err, r) => (Err (ErrWrap "failed to save agent" err), s <| repo := r |>)
  | (None, r) => (Ok tt, PublishEvent e (s <| repo := r |>))
  end.

Definition UpdateBotStatus now (id : string) (newStatus : Status) (reason : string) s : res unit * Service R :=
  match FindByID (repo s) id with
  | inr e => (Err (ErrWrap "bot not found" e), s)
  | inl a =>
      if negb (IsValidTransition (AStatus a) newStatus)
      then (Err (ErrNew ("invalid status transition from " +:+ AStatus a +:+ " to " +:+ newStatus)), s)
      else match agent_UpdateStatus now newStatus a with
           | Panic w => (Panic w, s)
           | Err e => (Err (ErrWrap "failed to update status" e), s)
           | Ok a' => save_agent a' (BotStatusChanged id now (AStatus a) newStatus reason) s
           end
  end.

Definition RecordHeartbeat now (id : string) s : res unit * Service R :=
  match RepoHeartbeat now (repo s) id with
  | (Some e, r) => (Err (ErrWrap "failed to update heartbeat" e), s <| repo := r |>)
  | (None, r) => (Ok tt, PublishEvent (BotHeartbeatEvent id now) (s <| repo := r |>))
  end.

(** ** Queries *)

Definition FindAvailableBots now s : list Agent + goerror := FindAvailable now (repo s).
Definition FindBotsByCapability now (cap : Capability) s : list Agent + goerror :=
  match FindByCapability (repo s) cap with
  | inr e => inr e
  | inl agents => inl (List.filter (IsAvailable now) agents)
  end.
Definition GetBot (id : string) s : Agent + goerror := FindByID (repo s) id.

Record BotStatistics := mkBotStatistics {
  TotalBots : Z; OnlineBots : Z; AvailableBots : Z; StatusCounts : gmap string Z; CapabilityCounts : gmap string Z }.

Fixpoint count_statuses s (statuses : list Status) (counts : gmap string Z) (total : Z)
    : (gmap string Z * Z) + goerror :=
  match statuses with
  | [] => inl (counts, total)
  | status :: statuses =>
      match CountByStatus (repo s) status with
      | inr e => inr (ErrWrap ("failed to count by status " +:+ status) e)
      | inl count => count_statuses s statuses (<[status := count]> counts) (total + count)
      end
  end.
Fixpoint count_capabilities s (caps : list Capability) (counts : gmap string Z) : gmap string Z + goerror :=
  match caps with
  | [] => inl counts
  | cap :: caps =>
      match CountByCapability (repo s) cap with
      | inr e => inr (ErrWrap ("failed to count by capability " +:+ cap) e)
      | inl count => count_capabilities s caps (<[cap := count]> counts)
      end
  end.
Definition GetBotStatistics now s : BotStatistics + goerror :=
  match count_statuses s AllStatuses ∅ 0 with
  | inr e => inr e
  | inl (statusCounts, total) =>
  match count_capabilities s [CapabilityFuzzing; CapabilityAnalysis; CapabilityReporting; CapabilityCoordination] ∅ with
  | inr e => inr e
  | inl capCounts =>
  match FindOnline now (repo s) with
  | inr e => inr (ErrWrap "failed to find online bots" e)
  | inl online =>
  match FindAvailable now (repo s) with
  | inr e => inr (ErrWrap "failed to find available bots" e)
  | inl available =>
      inl (mkBotStatistics total (Z.of_nat (length online)) (Z.of_nat (length available)) statusCounts capCounts)
  end end end end.

(** ** Work *)

Definition work_started now (jobID jobType : string) (a : Agent) : Agent :=
  SetMetadata now "job_start_time" (AString (stamp now))
    (SetMetadata now "current_job_type" (AString jobType)
      (SetMetadata now "current_job_id" (AString jobID) a)).
Definition work_completed now (jobID : string) (a : Agent) : Agent :=
  SetMetadata now "last_job_completed" (AString (stamp now))
    (SetMetadata now "last_job_id" (AString jobID)
      (SetMetadata now "job_start_time" ANil
        (SetMetadata now "current_job_type" ANil (SetMetadata now "current_job_id" ANil a)))).
Definition work_failed now (errorMsg : string) (a : Agent) : Agent :=
  SetMetadata now "last_error_time" (AString (stamp now)) (SetMetadata now "last_error" (AString errorMsg) a).

Definition AssignWork now (botID jobID jobType : string) (metadata : option (gmap string goany)) s
    : res unit * Service R :=
  match FindByID (repo s) botID with
  | inr e => (Err (ErrWrap "bot not found" e), s)
  | inl a =>
      if negb (IsAvailable now a) then (Err (ErrNew ("bot " +:+ botID +:+ " is not available for work")), s)
      else match agent_UpdateStatus now StatusWorking a with
           | Panic w => (Panic w, s)
           | Err e => (Err (ErrWrap "failed to update status" e), s)
           | Ok a => save_agent (work_started now jobID jobType a) (BotWorkAssigned botID now jobID jobType metadata) s
           end
  end.

(** The comparison [currentJobID != jobID] of an interface with a string. *)
Definition current_job_is (jobID : string) (a : Agent) : bool :=
  match GetMetadata "current_job_id" a with Some (AString j) => String.eqb j jobID | _ => false end.

Definition CompleteWork now (botID jobID : string) (results : option (gmap string goany)) s
    : res unit * Service R :=
  match FindByID (repo s) botID with
  | inr e => (Err (ErrWrap "bot not found" e), s)
  | inl a =>
      if negb (current_job_is jobID a) then (Err (ErrNew ("job ID mismatch for bot " +:+ botID)), s)
      else match GetMetadata "job_start_time" a with
           | Some (AString t) =>
               let duration := match parse t with Some t0 => time_sub now t0 | None => 0 end in
               match agent_UpdateStatus now StatusIdle a with
               | Panic w => (Panic w, s)
               | Err e => (Err (ErrWrap "failed to update status" e), s)
               | Ok a => save_agent (work_completed now jobID a) (BotWorkCompleted botID now jobID duration results) s
               end
           | _ => (Panic "interface conversion: interface {} is not string", s)
           end
  end.

Definition FailWork now (botID jobID errorMsg reason : string) s : res unit * Service R :=
  match FindByID (repo s) botID with
  | inr e => (Err (ErrWrap "bot not found" e), s)
  | inl a =>
      match agent_UpdateStatus now StatusError a with
      | Panic w => (Panic w, s)
      | Err e => (Err (ErrWrap "failed to update status" e), s)
      | Ok a => save_agent (work_failed now errorMsg a) (BotWorkFailed botID now jobID errorMsg reason) s
      end
  end.

(** ** Health checks *)

Definition set_hc (h : HealthChecker) s : Service R := s <| healthChecker := h |>.

Definition handleWorkingBotOffline now (bot : Agent) s : res (Service R) :=
  match GetMetadata "current_job_id" bot with
  | None | Some ANil => Ok s
  | Some (AString job) =>
      Ok (PublishEvent (BotWorkFailed (AgentID bot) now job "bot went offline during work execution"
                          "health check failure") s)
  | Some _ => Panic "interface conversion: interface {} is not string"
  end.

(** The errors of [repo.UpdateStatus] are ignored. *)
Definition repo_status now (id : string) (st : Status) s : Service R :=
  s <| repo := (RepoStatus now (repo s) id st).2 |>.

Definition handleStaleBot now (bot : Agent) s : res (Service R) :=
  let h := healthChecker s in
  let failureCount := wrap64 (default 0 (failureCounts h !! AgentID bot) + 1) in
  let s := set_hc (h <| failureCounts := <[AgentID bot := failureCount]> (failureCounts h) |>
                     <| lastCheckTime := <[AgentID bot := now]> (lastCheckTime h) |>) s in
  let willRetry := failureCount <? 3 in
  let nextRetry := if willRetry then Some (time_add now (wrap64 (failureCount * Minute))) else None in
  let s := PublishEvent (NewBotHealthCheckFailedEvent now (AgentID bot) "bot heartbeat timeout" (AHeartbeat bot)
                           failureCount willRetry nextRetry) s in
  if 3 <=? failureCount then
    let s := repo_status now (AgentID bot) StatusOffline s in
    if String.eqb (AStatus bot) StatusWorking then handleWorkingBotOffline now bot s else Ok s
  else if negb (String.eqb (AStatus bot) StatusMaintenance) then Ok (repo_status now (AgentID bot) StatusError s)
  else Ok s.

Definition cleanupRecoveredBots now s : Service R :=
  match FindOnline now (repo s) with
  | inr _ => s
  | inl online =>
      let h := healthChecker s in
      let recovered id := existsb (λ a, String.eqb (AgentID a) id) online in
      let keep (id : string) := recovered id = false ∨ failureCounts h !! id = None in
      let counts := filter (λ kv, keep kv.1) (failureCounts h) in
      let times := filter (λ kv, keep kv.1) (lastCheckTime h) in
      let cutoff := time_add now (- (24 * Hour)) in
      let old id := match times !! id with Some t => time_before t cutoff | None => false end in
      set_hc (h <| failureCounts := filter (λ kv, old kv.1 = false) counts |>
                <| lastCheckTime := filter (λ kv, old kv.1 = false) times |>) s
  end.

Fixpoint handle_stale now (stale : list Agent) s : res (Service R) :=
  match stale with
  | [] => Ok s
  | bot :: stale => let! s := handleStaleBot now bot s in handle_stale now stale s
  end.

Definition performHealthCheck now s : res (Service R) :=
  match FindStale now (repo s) (hcStale (healthChecker s)) with
  | inr _ => Ok s
  | inl stale => let! s := handle_stale now stale s in Ok (cleanupRecoveredBots now s)
  end.

Record HealthStatus := mkHealthStatus {
  HS_BotID : string; FailureCount : Z; LastCheckTime : Time; IsHealthy : bool }.
Definition GetHealthStatus (botID : string) (h : HealthChecker) : HealthStatus :=
  let n := default 0 (failureCounts h !! botID) in
  mkHealthStatus botID n (default zero_time (lastCheckTime h !! botID)) (n =? 0).
Definition GetAllHealthStatuses (h : HealthChecker) : gmap string HealthStatus :=
  map_imap (λ id n, Some (mkHealthStatus id n (default zero_time (lastCheckTime h !! id)) (n =? 0))) (failureCounts h).
Definition ResetBotHealth (botID : string) (h : HealthChecker) : HealthChecker :=
  h <| failureCounts := delete botID (failureCounts h) |> <| lastCheckTime := delete botID (lastCheckTime h) |>.

End service.

(** ** Well-formed registries *)

(** A bot that names a current job also records when it started. *)
Definition job_metadata_wf (a : Agent) : Prop :=
  match GetMetadata "current_job_id" a with
  | None | Some ANil => True
  | Some (AString _) => ∃ t, GetMetadata "job_start_time" a = Some (AString t)
  | Some _ => False
  end.
Definition agent_wf (a : Agent) : Prop := agent_Validate a = None ∧ job_metadata_wf a.

Lemma agent_wf_status a st upd : st ∈ AllStatuses → agent_wf a → agent_wf (a <| AStatus := st |> <| AUpdatedAt := upd |>).
Proof. unfold agent_wf. rewrite !agent_Validate_ok. naive_solver. Qed.
Lemma agent_wf_heartbeat now a : agent_wf a → agent_wf (agent_UpdateHeartbeat now a).
Proof. unfold agent_wf. rewrite !agent_Validate_ok. naive_solver. Qed.

Lemma agent_UpdateStatus_ok now st a : st ∈ AllStatuses →
  agent_UpdateStatus now st a = Ok (a <| AStatus := st |> <| AUpdatedAt := now |>).
Proof. intros H%status_Validate_ok. unfold agent_UpdateStatus. by rewrite H. Qed.

Lemma agent_wf_SetMetadata now k v a :
  k ≠ "current_job_id" → k ≠ "job_start_time" → agent_wf a → agent_wf (SetMetadata now k v a).
Proof.
  intros H1 H2 [Hv Hm]. split; [by apply agent_Validate_ok, agent_Validate_ok in Hv|].
  unfold job_metadata_wf. autorewrite with go_rw. go_str.
Qed.

Section registry_wf.
Context {R : Type} `{AgentLaws R}.
Implicit Types (s : Service R) (r : R).

Definition repo_wf r : Prop := ∀ id a, FindByID r id = inl a → agent_wf a.

Lemma repo_wf_change r r' id :
  repo_wf r → same_but r r' id → (∀ a, FindByID r' id = inl a → agent_wf a) → repo_wf r'.
Proof. intros Hr Hs Hid k a Ha. destruct (decide (k = id)) as [->|Hk]; [by apply Hid|]. rewrite Hs in Ha by done. by eapply Hr. Qed.

Lemma save_agent_wf a e s : repo_wf (repo s) → agent_wf a → repo_wf (repo (save_agent a e s).2).
Proof.
  intros Hr Ha. unfold save_agent. destruct (AUpdate (repo s) a) as [[err|] r] eqn:E; simpl.
  - by apply aupdate_fail in E as ->.
  - apply aupdate_ok in E as [Hf Hs]. eapply repo_wf_change; [done|done|]. rewrite Hf. by intros ? [= <-].
Qed.

Lemma repo_status_wf now id st s : st ∈ AllStatuses → repo_wf (repo s) → repo_wf (repo (repo_status now id st s)).
Proof.
  intros Hst Hr. unfold repo_status. simpl. destruct (RepoStatus now (repo s) id st) as [[e|] r] eqn:E; simpl.
  - by apply status_fail in E as ->.
  - apply status_ok in E as (a & upd & Ha & Hf & Hs). eapply repo_wf_change; [done|done|]. rewrite Hf. intros ? [= <-].
    apply agent_wf_status; [done|by eapply Hr].
Qed.

Lemma handleStaleBot_wf now bot s :
  repo_wf (repo s) → agent_wf bot → ∃ s', handleStaleBot now bot s = Ok s' ∧ repo_wf (repo s').
Proof.
  intros Hr [Hv Hm]. unfold handleStaleBot. set (n := wrap64 _). clearbody n.
  destruct (3 <=? n).
  - destruct (String.eqb (AStatus bot) StatusWorking).
    + unfold handleWorkingBotOffline, job_metadata_wf in *.
      destruct (GetMetadata "current_job_id" bot) as [[]|]; try done;
        (eexists; split; [done|]; by apply repo_status_wf; [set_solver|]).
    + eexists; split; [done|]. by apply repo_status_wf; [set_solver|].
  - destruct (negb _); (eexists; split; [done|]); [by apply repo_status_wf; [set_solver|]|done].
Qed.

Lemma handle_stale_wf now stale s :
  repo_wf (repo s) → Forall agent_wf stale → ∃ s', handle_stale now stale s = Ok s' ∧ repo_wf (repo s').
Proof.
  intros Hr Hs. revert s Hr. induction Hs as [|bot stale Hb _ IH]; intros s Hr; simpl; [by eexists|].
  destruct (handleStaleBot_wf now bot s Hr Hb) as (s' & -> & Hr'). simpl. by apply IH.
Qed.

Lemma cleanup_repo now s : repo (cleanupRecoveredBots now s) = repo s.
Proof. unfold cleanupRecoveredBots. by destruct (FindOnline now (repo s)). Qed.

Lemma health_check_wf now s :
  repo_wf (repo s) → ∃ s', performHealthCheck now s = Ok s' ∧ repo_wf (repo s').
Proof.
  intros Hr. unfold performHealthCheck. destruct (FindStale now (repo s) _) as [stale|e] eqn:E; [|by eexists].
  apply stale_ok in E as [_ Hin].
  destruct (handle_stale_wf now stale s Hr) as (s' & -> & Hr').
  { apply Forall_forall. intros a [Ha _]%Hin. by eapply Hr. }
  simpl. eexists. split; [done|]. by rewrite cleanup_repo.
Qed.

Variable stamp : Time → string.
Variable parse : string → option Time.

Lemma agent_wf_started now job type a : agent_wf a → agent_wf (work_started stamp now job type a).
Proof.
  intros [Hv Hm]. split; [by apply agent_Validate_ok, agent_Validate_ok in Hv|].
  unfold job_metadata_wf, work_started. autorewrite with go_rw. simpl. by eexists.
Qed.
Lemma agent_wf_completed now job a : agent_wf a → agent_wf (work_completed stamp now job a).
Proof.
  intros [Hv Hm]. split; [by apply agent_Validate_ok, agent_Validate_ok in Hv|].
  unfold job_metadata_wf, work_completed. by autorewrite with go_rw.
Qed.
Lemma agent_wf_failed now msg a : agent_wf a → agent_wf (work_failed stamp now msg a).
Proof. intros Ha. unfold work_failed. by do 2 (apply agent_wf_SetMetadata; [done|done|]). Qed.

(** One call of the service or one pass of the health checker. *)
Inductive registry_step : Service R → Service R → Prop :=
  | step_register now id name caps s : registry_step s (RegisterBot now id name caps s).2
  | step_deregister now id s : registry_step s (DeregisterBot now id s).2
  | step_status now id st reason s : registry_step s (UpdateBotStatus now id st reason s).2
  | step_heartbeat now id s : registry_step s (RecordHeartbeat now id s).2
  | step_assign now bot job type md s : registry_step s (AssignWork stamp now bot job type md s).2
  | step_complete now bot job results s : registry_step s (CompleteWork stamp parse now bot job results s).2
  | step_fail now bot job msg reason s : registry_step s (FailWork stamp now bot job msg reason s).2
  | step_health now s s' : performHealthCheck now s = Ok s' → registry_step s s'
  | step_reset bot s : registry_step s (set_hc (ResetBotHealth bot (healthChecker s)) s).

Lemma registry_step_wf s s' : registry_step s s' → repo_wf (repo s) → repo_wf (repo s').
Proof.
  intros Hstep Hr. destruct Hstep as [now id name caps s|now id s|now id st reason s|now id s|now bot job type md s
    |now bot job results s|now bot job msg reason s|now s s' E|bot s].
  - unfold RegisterBot. destruct (FindByID (repo s) id); [done|].
    destruct (NewAgent now id name caps) as [a|e|w] eqn:Ea; [|done..].
    apply NewAgent_ok in Ea as (Hi & Hn & Hc & ->).
    destruct (ACreate (repo s) _) as [[err|] r] eqn:E; simpl.
    + by apply acreate_fail in E as ->.
    + apply acreate_ok in E as [Hf Hs]. eapply repo_wf_change; [done|done|]. rewrite Hf. intros ? [= <-].
      split; [|done]. apply agent_Validate_ok. simpl. split_and!; [done..|set_solver].
  - unfold DeregisterBot. destruct (FindByID (repo s) id); [|done]. destruct (String.eqb _ _); [done|].
    destruct (ADelete (repo s) id) as [[err|] r] eqn:E; simpl.
    + by apply adelete_fail in E as ->.
    + apply adelete_ok in E as [[e Hf] Hs]. eapply repo_wf_change; [done|done|]. by rewrite Hf.
  - unfold UpdateBotStatus. destruct (FindByID (repo s) id) as [a|] eqn:Ea; [|done].
    destruct (IsValidTransition (AStatus a) st) eqn:Et; [simpl|done]. apply transition_table in Et as (_ & Hst & _).
    rewrite agent_UpdateStatus_ok by done. apply save_agent_wf; [done|]. apply agent_wf_status; [done|by eapply Hr].
  - unfold RecordHeartbeat. destruct (RepoHeartbeat now (repo s) id) as [[err|] r] eqn:E; simpl.
    + by apply heartbeat_fail in E as ->.
    + apply heartbeat_ok in E as (a & Ha & Hf & Hs). eapply repo_wf_change; [done|done|]. rewrite Hf. intros ? [= <-].
      apply agent_wf_heartbeat. by eapply Hr.
  - unfold AssignWork. destruct (FindByID (repo s) bot) as [a|] eqn:Ea; [|done].
    destruct (negb _); [done|]. rewrite agent_UpdateStatus_ok by set_solver.
    apply save_agent_wf; [done|]. apply agent_wf_started, agent_wf_status; [set_solver|by eapply Hr].
  - unfold CompleteWork. destruct (FindByID (repo s) bot) as [a|] eqn:Ea; [|done].
    destruct (negb _); [done|]. destruct (GetMetadata "job_start_time" a) as [[]|]; try done.
    rewrite agent_UpdateStatus_ok by set_solver.
    apply save_agent_wf; [done|]. apply agent_wf_completed, agent_wf_status; [set_solver|by eapply Hr].
  - unfold FailWork. destruct (FindByID (repo s) bot) as [a|] eqn:Ea; [|done].
    rewrite agent_UpdateStatus_ok by set_solver.
    apply save_agent_wf; [done|]. apply agent_wf_failed, agent_wf_status; [set_solver|by eapply Hr].
  - destruct (health_check_wf now s Hr) as (s2 & E2 & Hr2). rewrite E in E2. by injection E2 as <-.
  - done.
Qed.

(** C10: in every registry reached by calls and health checks from a well-formed
    one, over any repository that keeps the laws, every stored agent passes its
    own validation, is stored under its ID and names its current job together
    with a start time; so no type assertion fails: neither completing work nor a
    health check ever panics. *)
Theorem registry_reachable_wf s0 s :
  repo_wf (repo s0) → rtc registry_step s0 s →
  (∀ id a, FindByID (repo s) id = inl a → agent_Validate a = None ∧ AgentID a = id ∧ job_metadata_wf a) ∧
  (∀ now bot job results w, (CompleteWork stamp parse now bot job results s).1 ≠ Panic w) ∧
  (∀ now, ∃ s', performHealthCheck now s = Ok s').
Proof.
  intros Hinit Hs.
  assert (repo_wf (repo s)) as Hr.
  { revert Hinit. induction Hs as [|s1 s2 s3 H12 _ IH]; [done|]. intros Hr. by eapply IH, registry_step_wf. }
  split_and!.
  - intros id a Ha. destruct (Hr id a Ha). by apply find_id in Ha as Hid.
  - intros now bot job results w. unfold CompleteWork. destruct (FindByID (repo s) bot) as [a|] eqn:Ea; [|done].
    destruct (current_job_is job a) eqn:Ec; simpl; [|done]. destruct (Hr bot a Ea) as [_ Hm].
    unfold current_job_is, job_metadata_wf in *. destruct (GetMetadata "current_job_id" a) as [[]|]; try done.
    destruct Hm as [t ->]. unfold save_agent. simpl. by destruct (AUpdate _ _) as [[]].
  - intros now. destruct (health_check_wf now s Hr) as (s' & E & _). by exists s'.
Qed.

End registry_wf.

(** ** The life of a work assignment *)

Section work.
Context {R : Type} `{AgentLaws R}.
Variable stamp : Time → string.
Variable parse : string → option Time.
Implicit Types (s : Service R).

Lemma save_agent_ok id a e s s' : AgentID a = id → save_agent a e s = (Ok tt, s') →
  FindByID (repo s') id = inl a ∧ same_but (repo s) (repo s') id ∧ published s' = published s ++ [e].
Proof.
  intros <-.
  unfold save_agent. destruct (AUpdate (repo s) a) as [[err|] r] eqn:E; [done|]. intros [= <-].
  by apply aupdate_ok in E as [??].
Qed.

(** What [AssignWork] leaves of the bot it succeeds on. *)
Lemma assign_work_ok now bot job type md s s' :
  AssignWork stamp now bot job type md s = (Ok tt, s') →
  ∃ a, FindByID (repo s) bot = inl a ∧ IsAvailable now a = true ∧
    FindByID (repo s') bot =
      inl (work_started stamp now job type (a <| AStatus := StatusWorking |> <| AUpdatedAt := now |>)) ∧
    same_but (repo s) (repo s') bot ∧ published s' = published s ++ [BotWorkAssigned bot now job type md].
Proof.
  unfold AssignWork. destruct (FindByID (repo s) bot) as [a|] eqn:Ea; [|done].
  destruct (IsAvailable now a) eqn:Eav; cbn [negb]; [|done]. rewrite agent_UpdateStatus_ok by set_solver.
  intros Hsave. apply (save_agent_ok bot) in Hsave as (Hf & Hs & Hp); [|by apply find_id in Ea].
  by exists a.
Qed.

Lemma complete_work_ok now bot job results s s' :
  CompleteWork stamp parse now bot job results s = (Ok tt, s') →
  ∃ a, FindByID (repo s) bot = inl a ∧ current_job_is job a = true ∧
    FindByID (repo s') bot = inl (work_completed stamp now job (a <| AStatus := StatusIdle |> <| AUpdatedAt := now |>)) ∧
    same_but (repo s) (repo s') bot.
Proof.
  unfold CompleteWork. destruct (FindByID (repo s) bot) as [a|] eqn:Ea; [|done].
  destruct (current_job_is job a) eqn:Ec; cbn [negb]; [|done].
  destruct (GetMetadata "job_start_time" a) as [[]|]; try done. rewrite agent_UpdateStatus_ok by set_solver.
  intros Hsave. apply (save_agent_ok bot) in Hsave as (Hf & Hs & _); [|by apply find_id in Ea].
  by exists a.
Qed.

Lemma complete_mismatch now bot job results s a :
  FindByID (repo s) bot = inl a → current_job_is job a = false →
  CompleteWork stamp parse now bot job results s = (Err (ErrNew ("job ID mismatch for bot " +:+ bot)), s).
Proof. intros Ha Hc. unfold CompleteWork. by rewrite Ha, Hc. Qed.

(** Assigning work succeeds only on an idle online bot and marks it as
    working on that job; from then on only that job can be completed on it, once:
    another job ID is refused and changes nothing, completing it frees the bot,
    and completing it again is refused.  No other bot is touched. *)
Theorem work_cycle now bot job type md s s1 :
  AssignWork stamp now bot job type md s = (Ok tt, s1) →
  (∃ a, FindByID (repo s) bot = inl a ∧ AStatus a = StatusIdle ∧ IsOnline now a = true) ∧
  (∃ a1, FindByID (repo s1) bot = inl a1 ∧ AStatus a1 = StatusWorking ∧ current_job_is job a1 = true) ∧
  same_but (repo s) (repo s1) bot ∧
  (∀ now2 job2 results, job2 ≠ job →
     CompleteWork stamp parse now2 bot job2 results s1 =
       (Err (ErrNew ("job ID mismatch for bot " +:+ bot)), s1)) ∧
  (∀ now2 results s2, CompleteWork stamp parse now2 bot job results s1 = (Ok tt, s2) →
     (∃ a2, FindByID (repo s2) bot = inl a2 ∧ AStatus a2 = StatusIdle) ∧ same_but (repo s1) (repo s2) bot ∧
     ∀ now3 job3 results3, CompleteWork stamp parse now3 bot job3 results3 s2 =
       (Err (ErrNew ("job ID mismatch for bot " +:+ bot)), s2)).
Proof.
  intros (a & Ha & Hav & Hf & Hsame & _)%assign_work_ok.
  apply andb_true_iff in Hav as [Hidle%String.eqb_eq Hon].
  set (a1 := work_started _ _ _ _ _) in Hf.
  assert (∀ j, current_job_is j a1 = String.eqb job j) as Hcur.
  { intros j. unfold current_job_is, a1, work_started. by autorewrite with go_rw. }
  split_and!; [by eexists|eexists; split_and!; [exact Hf|done|by rewrite Hcur, String.eqb_refl]|done| |].
  - intros now2 job2 results Hne. eapply complete_mismatch; [exact Hf|]. rewrite Hcur. by apply String.eqb_neq.
  - intros now2 results s2 (a1' & Ha1 & _ & Hf2 & Hs2)%complete_work_ok. rewrite Hf in Ha1. injection Ha1 as <-.
    split_and!; [by eexists|done|]. intros now3 job3 results3. eapply complete_mismatch; [exact Hf2|].
    unfold current_job_is, work_completed. by autorewrite with go_rw.
Qed.

(** Failing work puts the bot in error, whatever its status and whatever
    job the call names, and leaves the current job in place: the job reported as
    failed can then still be completed, which makes the bot idle again. *)
Theorem failed_work_still_completes now bot job msg reason s s1 a t :
  FindByID (repo s) bot = inl a → current_job_is job a = true →
  GetMetadata "job_start_time" a = Some (AString t) →
  ∀ failed, FailWork stamp now bot failed msg reason s = (Ok tt, s1) →
  ∃ a1, FindByID (repo s1) bot = inl a1 ∧ AStatus a1 = StatusError ∧ current_job_is job a1 = true ∧
    (∀ now2 results, is_ok (CompleteWork stamp parse now2 bot job results s1).1 = true ∨
       ∃ e, (CompleteWork stamp parse now2 bot job results s1).1 = Err (ErrWrap "failed to save agent" e)) ∧
    ∀ now2 results s2, CompleteWork stamp parse now2 bot job results s1 = (Ok tt, s2) →
      ∃ a2, FindByID (repo s2) bot = inl a2 ∧ AStatus a2 = StatusIdle.
Proof.
  intros Ha Hc Ht failed. unfold FailWork. rewrite Ha, agent_UpdateStatus_ok by set_solver.
  intros Hsave. apply (save_agent_ok bot) in Hsave as (Hf & _); [|by apply find_id in Ha].
  set (a1 := work_failed _ _ _ _) in Hf.
  assert (current_job_is job a1 = true) as Hc1.
  { unfold current_job_is, a1, work_failed. autorewrite with go_rw. done. }
  assert (GetMetadata "job_start_time" a1 = Some (AString t)) as Ht1.
  { unfold a1, work_failed. by autorewrite with go_rw. }
  exists a1. split_and!; [done|done|done| |].
  - intros now2 results. unfold CompleteWork. rewrite Hf, Hc1, Ht1. cbn [negb].
    rewrite agent_UpdateStatus_ok by set_solver. unfold save_agent.
    destruct (AUpdate _ _) as [[e|] r]; [right; by exists e|by left].
  - intros now2 results s2 (a1' & Ha1 & _ & Hf2 & _)%complete_work_ok. rewrite Hf in Ha1. injection Ha1 as <-.
    by eexists.
Qed.

End work.

(** ** Health checks of silent bots *)

(** The calls the health checker makes do not fail. *)
Class ReliableAgents (R : Type) `{AgentRepository R} : Prop := {
  status_works now r id st a : FindByID r id = inl a → ∃ r', RepoStatus now r id st = (None, r');
  stale_works now r d : ∃ l, FindStale now r d = inl l;
  online_works now r : ∃ l, FindOnline now r = inl l }.

(** The agent after its [n]-th consecutive failed check. *)
Definition struck (n : Z) (a a' : Agent) : Prop :=
  AHeartbeat a' = AHeartbeat a ∧ AMetadata a' = AMetadata a ∧
  AStatus a' = if 3 <=? n then StatusOffline
               else if String.eqb (AStatus a) StatusMaintenance then StatusMaintenance else StatusError.

Lemma struck_not_working n a a' : struck n a a' → AStatus a' ≠ StatusWorking.
Proof. intros (_ & _ & ->). by repeat destruct (_ : bool). Qed.

Definition no_work_failed (evs : list BotEvent) : Prop :=
  ∀ b t j e r, BotWorkFailed b t j e r ∉ evs.

Section health.
Context {R : Type} `{AgentLaws R} `{!ReliableAgents R}.
Implicit Types (s : Service R).

Definition strikes s (id : string) : option Z := failureCounts (healthChecker s) !! id.
Definition next_strike s (id : string) : Z := wrap64 (default 0 (strikes s id) + 1).

(** What a check does to the bot [b]: its new state, its count, the events. *)
Definition struck_in now s s' (b : Agent) : Prop :=
  (∃ a', FindByID (repo s') (AgentID b) = inl a' ∧ struck (next_strike s (AgentID b)) b a') ∧
  strikes s' (AgentID b) = Some (next_strike s (AgentID b)) ∧
  lastCheckTime (healthChecker s') !! AgentID b = Some now.
Definition untouched s s' (id : string) : Prop :=
  FindByID (repo s') id = FindByID (repo s) id ∧ strikes s' id = strikes s id ∧
  lastCheckTime (healthChecker s') !! id = lastCheckTime (healthChecker s) !! id.

Lemma repo_status_ok now id st a s : FindByID (repo s) id = inl a →
  ∃ upd, FindByID (repo (repo_status now id st s)) id = inl (a <| AStatus := st |> <| AUpdatedAt := upd |>) ∧
         same_but (repo s) (repo (repo_status now id st s)) id.
Proof.
  intros Ha. destruct (status_works now (repo s) id st a Ha) as [r' E].
  apply status_ok in E as E2. destruct E2 as (a0 & upd & Ha0 & Hf & Hs).
  exists upd. unfold repo_status. rewrite E. simpl. rewrite Ha in Ha0. injection Ha0 as <-. done.
Qed.

Lemma handleStaleBot_spec now b s :
  FindByID (repo s) (AgentID b) = inl b → agent_wf b →
  ∃ s' evs, handleStaleBot now b s = Ok s' ∧ struck_in now s s' b ∧
    (∀ id, id ≠ AgentID b → untouched s s' id) ∧ hcStale (healthChecker s') = hcStale (healthChecker s) ∧
    published s' = published s ++ evs ∧
    (AStatus b ≠ StatusWorking ∨ next_strike s (AgentID b) < 3 → no_work_failed evs).
Proof.
  intros Hb [_ Hm]. unfold handleStaleBot. fold (strikes s (AgentID b)). fold (next_strike s (AgentID b)).
  set (n := next_strike s (AgentID b)). set (ev := NewBotHealthCheckFailedEvent _ _ _ _ _ _ _).
  match goal with |- context [PublishEvent ev ?x] => set (s1 := PublishEvent ev x) end.
  assert (FindByID (repo s1) (AgentID b) = inl b) as Hb1 by done.
  assert (no_work_failed [ev]) as Hev by (intros ????? Hin; by apply list_elem_of_singleton in Hin).
  assert (∀ s2, healthChecker s2 = healthChecker s1 → same_but (repo s1) (repo s2) (AgentID b) →
            strikes s2 (AgentID b) = Some n ∧ lastCheckTime (healthChecker s2) !! AgentID b = Some now ∧
            (∀ id, id ≠ AgentID b → untouched s s2 id) ∧
            hcStale (healthChecker s2) = hcStale (healthChecker s)) as Hs2.
  { intros s2 Hh Hs. unfold strikes, untouched, strikes. rewrite Hh. simpl.
    rewrite !lookup_insert_eq. split_and!; [done|done| |done].
    intros id Hid. split_and!; [by apply Hs|by rewrite lookup_insert_ne..]. }
  assert (∀ st, (st = if 3 <=? n then StatusOffline
                      else if String.eqb (AStatus b) StatusMaintenance then StatusMaintenance else StatusError) →
            struck_in now s (repo_status now (AgentID b) st s1) b ∧
            (∀ id, id ≠ AgentID b → untouched s (repo_status now (AgentID b) st s1) id) ∧
            hcStale (healthChecker (repo_status now (AgentID b) st s1)) = hcStale (healthChecker s)) as Hst.
  { intros st ->. destruct (repo_status_ok now (AgentID b) (if 3 <=? n then StatusOffline
                      else if String.eqb (AStatus b) StatusMaintenance then StatusMaintenance else StatusError)
                      b s1 Hb1) as (upd & Hf & Hs).
    destruct (Hs2 (repo_status now (AgentID b) _ s1) eq_refl Hs) as (H1 & H2 & H3 & H4). split_and!; [|done|done].
    split_and!; [eexists; split; [exact Hf|by split_and!]|done|done]. }
  destruct (Z.leb_spec 3 n) as [Hn|Hn].
  - destruct (Hst _ eq_refl) as (H1 & H2 & H3). set (s2 := repo_status _ _ _ _) in *.
    destruct (String.eqb_spec (AStatus b) StatusWorking) as [Hw|Hw].
    + unfold handleWorkingBotOffline, job_metadata_wf in *.
      destruct (GetMetadata "current_job_id" b) as [[]|]; try done.
      * exists s2, [ev]. split_and!; try done; by intros.
      * eexists _, [ev; _]. split_and!; [done|done|done|done|simpl; by rewrite <- app_assoc|].
        intros [?|?]; [done|lia].
      * exists s2, [ev]. split_and!; try done; by intros.
    + exists s2, [ev]. split_and!; try done; by intros.
  - destruct (String.eqb_spec (AStatus b) StatusMaintenance) as [Hmt|Hmt]; cbn [negb].
    + destruct (Hs2 s1 eq_refl) as (H1 & H2 & H3 & H4); [done|].
      exists s1, [ev]. split_and!; try done.
      split_and!; [|done|done]. exists b. split; [done|]. unfold struck. fold n.
      rewrite (proj2 (Z.leb_gt 3 n)) by done. by rewrite Hmt.
    + destruct (Hst _ eq_refl) as (H1 & H2 & H3). eexists _, [ev]. split_and!; try done; by intros.
Qed.

Lemma untouched_trans s s1 s2 id : untouched s s1 id → untouched s1 s2 id → untouched s s2 id.
Proof. intros (? & ? & ?) (? & ? & ?). split_and!; congruence. Qed.

Lemma handle_stale_spec now l s :
  NoDup (AgentID <$> l) → (∀ b, b ∈ l → FindByID (repo s) (AgentID b) = inl b ∧ agent_wf b) →
  ∃ s' evs, handle_stale now l s = Ok s' ∧ (∀ b, b ∈ l → struck_in now s s' b) ∧
    (∀ id, id ∉ AgentID <$> l → untouched s s' id) ∧ hcStale (healthChecker s') = hcStale (healthChecker s) ∧
    published s' = published s ++ evs ∧
    ((∀ b, b ∈ l → AStatus b = StatusWorking → strikes s (AgentID b) = None) → no_work_failed evs).
Proof.
  revert s. induction l as [|b l IH]; intros s Hnd Hin; simpl.
  { exists s, []. split_and!; try done; [set_solver|by rewrite app_nil_r|]. intros _ ????? Hx. by apply not_elem_of_nil in Hx. }
  apply NoDup_cons in Hnd as [Hb Hnd]. destruct (Hin b) as [Hf Hwf]; [set_solver|].
  destruct (handleStaleBot_spec now b s Hf Hwf) as (s1 & evs1 & -> & Hst & Hun & Hhc & Hp & Hev). simpl.
  assert (∀ c, c ∈ l → AgentID c ≠ AgentID b) as Hne.
  { intros c Hc E. apply Hb. rewrite <- E. by apply list_elem_of_fmap_2. }
  destruct (IH s1) as (s2 & evs2 & -> & Hst2 & Hun2 & Hhc2 & Hp2 & Hev2); [done| |].
  { intros c Hc. destruct (Hin c) as [Hfc Hwc]; [set_solver|]. destruct (Hun (AgentID c)) as [-> _]; [by apply Hne|done]. }
  exists s2, (evs1 ++ evs2). split_and!.
  - done.
  - intros c [->|Hc]%elem_of_cons.
    + destruct (Hun2 (AgentID b) Hb) as (E1 & E2 & E3). destruct Hst as ((a' & Ha' & Hs') & Hc1 & Ht1).
      split_and!; [exists a'; by rewrite E1|by rewrite E2|by rewrite E3].
    + destruct (Hst2 c Hc) as ((a' & Ha' & Hs') & Hc1 & Ht1). destruct (Hun (AgentID c)) as (_ & E & _); [by apply Hne|].
      unfold struck_in, next_strike in *. rewrite E in *. split_and!; [by exists a'|done|done].
  - intros id Hid. apply not_elem_of_cons in Hid as [Hid1 Hid2].
    eapply untouched_trans; [by apply Hun|by apply Hun2].
  - congruence.
  - rewrite Hp2, Hp. by rewrite app_assoc.
  - intros Hw ????? [Hx|Hx]%elem_of_app.
    + eapply Hev; [|exact Hx]. destruct (decide (AStatus b = StatusWorking)) as [E|]; [right|by left].
      unfold next_strike. rewrite Hw; [|set_solver|done]. vm_compute. done.
    + eapply Hev2; [|exact Hx]. intros c Hc Ec. destruct (Hun (AgentID c)) as (_ & -> & _); [by apply Hne|].
      apply Hw; [set_solver|done].
Qed.

Definition is_stale now s (a : Agent) : Prop := hcStale (healthChecker s) < time_sub now (AHeartbeat a).

Lemma cleanup_strikes now s id :
  (strikes s id = None → strikes (cleanupRecoveredBots now s) id = None) ∧
  (∀ a, FindByID (repo s) id = inl a → IsOnline now a = false → lastCheckTime (healthChecker s) !! id = Some now →
        strikes (cleanupRecoveredBots now s) id = strikes s id) ∧
  hcStale (healthChecker (cleanupRecoveredBots now s)) = hcStale (healthChecker s) ∧
  published (cleanupRecoveredBots now s) = published s.
Proof.
  unfold cleanupRecoveredBots, strikes. destruct (online_works now (repo s)) as [l El]. rewrite El. simpl.
  apply online_ok in El as [_ Hl]. split_and!; [| |done|done].
  - intros Hn. rewrite !map_lookup_filter. by rewrite Hn.
  - intros a Ha Hoff Hlc. rewrite !map_lookup_filter.
    destruct (failureCounts (healthChecker s) !! id) as [n|] eqn:Ec; simpl; [|done].
    assert (existsb (λ a0, String.eqb (AgentID a0) id) l = false) as Hx.
    { apply not_true_is_false. intros (b & Hb & E%String.eqb_eq)%existsb_exists.
      apply list_elem_of_In, Hl in Hb as [Hf Hon]. rewrite E in Hf. congruence. }
    rewrite option_guard_True by (by left). simpl. rewrite option_guard_True; [done|].
    rewrite (map_lookup_filter_Some_2 _ _ id now); [|done|by left].
    unfold time_before, time_add, Hour, Minute, Second. lia.
Qed.

(** One pass over the registry. *)
Lemma health_pass_spec now s s' :
  repo_wf (repo s) → performHealthCheck now s = Ok s' →
  hcStale (healthChecker s') = hcStale (healthChecker s) ∧
  (∀ id a, FindByID (repo s) id = inl a → is_stale now s a →
     (∃ a', FindByID (repo s') id = inl a' ∧ struck (next_strike s id) a a') ∧
     (5 * Minute ≤ time_sub now (AHeartbeat a) → strikes s' id = Some (next_strike s id))) ∧
  (∀ id, (∀ a, FindByID (repo s) id = inl a → ¬ is_stale now s a) →
     FindByID (repo s') id = FindByID (repo s) id ∧ (strikes s id = None → strikes s' id = None)) ∧
  ∃ evs, published s' = published s ++ evs ∧
    ((∀ id a, FindByID (repo s) id = inl a → AStatus a = StatusWorking → strikes s id = None) → no_work_failed evs).
Proof.
  intros Hwf. unfold performHealthCheck.
  destruct (stale_works now (repo s) (hcStale (healthChecker s))) as [l El]. rewrite El.
  apply stale_ok in El as [Hnd Hl].
  destruct (handle_stale_spec now l s Hnd) as (s1 & evs & -> & Hst & Hun & Hhc & Hp & Hev).
  { intros b [Hb _]%Hl. split; [done|]. by eapply Hwf. }
  simpl. intros [= <-].
  assert (∀ id, hcStale (healthChecker (cleanupRecoveredBots now s1)) = hcStale (healthChecker s1) ∧
                published (cleanupRecoveredBots now s1) = published s1) as Hcl by (intros id; apply (cleanup_strikes now s1 id)).
  destruct (Hcl "") as [-> ->]. rewrite !cleanup_repo. split_and!; [done| | |].
  - intros id a Ha Hs. apply find_id in Ha as Hid. subst id.
    destruct (Hst a) as ((a' & Ha' & Hs') & Hc & Ht); [by apply Hl|]. split; [by exists a'|].
    intros Hmin. destruct (cleanup_strikes now s1 (AgentID a)) as (_ & Hk & _).
    rewrite (Hk a' Ha'); [done| |done]. unfold IsOnline. destruct Hs' as (-> & _).
    rewrite (proj2 (Z.ltb_ge _ _)) by done. apply andb_false_r.
  - intros id Hns. destruct (Hun id) as (E1 & E2 & _).
    { intros Hin. apply list_elem_of_fmap in Hin as (b & -> & [Hb Hsb]%Hl). by apply (Hns b). }
    split; [done|]. intros Hn. apply (cleanup_strikes now s1 id). by rewrite E2.
  - exists evs. split; [done|]. intros Hw. apply Hev. intros b [Hb _]%Hl. by apply Hw.
Qed.

(** Monitoring alone: heartbeats and health checks. *)
Inductive monitor_step : Service R → Service R → Prop :=
  | monitor_heartbeat now id s : monitor_step s (RecordHeartbeat now id s).2
  | monitor_check now s s' : performHealthCheck now s = Ok s' → monitor_step s s'.

(** What a heartbeat changes. *)
Lemma heartbeat_spec now id s :
  let s' := (RecordHeartbeat now id s).2 in
  healthChecker s' = healthChecker s ∧
  (∀ k a', FindByID (repo s') k = inl a' →
     ∃ a, FindByID (repo s) k = inl a ∧ AStatus a' = AStatus a) ∧
  (∀ k a, FindByID (repo s) k = inl a → ∃ a', FindByID (repo s') k = inl a' ∧ AStatus a' = AStatus a) ∧
  ∃ evs, published s' = published s ++ evs ∧ no_work_failed evs.
Proof.
  unfold RecordHeartbeat. destruct (RepoHeartbeat now (repo s) id) as [[e|] r] eqn:E; simpl.
  - apply heartbeat_fail in E as ->. split_and!; [done|eauto|eauto|].
    exists []. split; [by rewrite app_nil_r|]. intros ????? Hx. by apply not_elem_of_nil in Hx.
  - apply heartbeat_ok in E as (a & Ha & Hf & Hs). split_and!; [done| | |].
    + intros k a' Hk. destruct (decide (k = id)) as [->|Hne]; [|rewrite Hs in Hk by done; eauto].
      rewrite Hf in Hk. injection Hk as <-. by exists a.
    + intros k a' Hk. destruct (decide (k = id)) as [->|Hne]; [|exists a'; by rewrite Hs].
      rewrite Ha in Hk. injection Hk as <-. by eexists.
    + eexists. split; [done|]. intros ????? Hx. by apply list_elem_of_singleton in Hx.
Qed.

Lemma monitor_step_registry stamp parse s s' : monitor_step s s' → registry_step stamp parse s s'.
Proof. intros []; econstructor; eauto. Qed.

(** No working bot has a strike against it. *)
Definition workers_unmarked s : Prop :=
  ∀ id a, FindByID (repo s) id = inl a → AStatus a = StatusWorking → strikes s id = None.

Lemma monitor_step_unmarked s s' :
  monitor_step s s' → repo_wf (repo s) → workers_unmarked s →
  workers_unmarked s' ∧ ∃ evs, published s' = published s ++ evs ∧ no_work_failed evs.
Proof.
  intros Hstep Hwf Hw. destruct Hstep as [now id s|now s s' E].
  - destruct (heartbeat_spec now id s) as (Hh & Hb & _ & Hp). split; [|done].
    intros k a' Hk Hst. unfold strikes. rewrite Hh. destruct (Hb k a' Hk) as (a & Ha & E).
    eapply Hw; [exact Ha|congruence].
  - apply health_pass_spec in E as (_ & Hs & Hns & evs & Hp & Hev); [|done]. split; [|exists evs; auto].
    intros id a' Hid Hst.
    assert ((∃ a, FindByID (repo s) id = inl a ∧ is_stale now s a) ∨
            ∀ a, FindByID (repo s) id = inl a → ¬ is_stale now s a) as [(a & Ha & Hsa)|Hno].
    { destruct (FindByID (repo s) id) as [a|e]; [|by right]. unfold is_stale.
      destruct (decide (hcStale (healthChecker s) < time_sub now (AHeartbeat a))); [left; by exists a|right; by intros ? [= <-]]. }
    + destruct (Hs id a Ha Hsa) as [(a2 & Ha2 & Hstr) _]. rewrite Hid in Ha2. injection Ha2 as <-.
      by apply struck_not_working in Hstr.
    + destruct (Hns id Hno) as [E1 E2]. rewrite E1 in Hid. apply E2. by eapply Hw.
Qed.

Lemma monitor_unmarked s s' :
  rtc monitor_step s s' → repo_wf (repo s) → workers_unmarked s →
  ∃ evs, published s' = published s ++ evs ∧ no_work_failed evs.
Proof.
  induction 1 as [s|s1 s2 s3 H12 _ IH]; intros Hwf Hw.
  { exists []. split; [by rewrite app_nil_r|]. intros ????? Hx. by apply not_elem_of_nil in Hx. }
  destruct (monitor_step_unmarked _ _ H12 Hwf Hw) as (Hw2 & evs & Hp & Hev).
  destruct IH as (evs2 & Hp2 & Hev2); [by eapply (registry_step_wf (λ _, "") (λ _, None)), Hwf; apply monitor_step_registry|done|].
  exists (evs ++ evs2). split; [by rewrite Hp2, Hp, app_assoc|].
  intros ????? [Hx|Hx]%elem_of_app; [by eapply Hev|by eapply Hev2].
Qed.

(** A silent bot is put in error by the first two checks and taken offline
    by the third.  If it was working, its job is lost without a trace: no event
    ever reports the work as failed, because the check that takes the bot
    offline looks for the status working, which the first check overwrote, and
    the bot keeps naming the job as its current one. *)
Theorem silent_worker_lost now1 now2 now3 id a s s1 s2 s3 :
  repo_wf (repo s) → FindByID (repo s) id = inl a → AStatus a = StatusWorking →
  failureCounts (healthChecker s) = ∅ →
  (∀ t, t ∈ [now1; now2; now3] → Z.max (hcStale (healthChecker s)) (5 * Minute) < time_sub t (AHeartbeat a)) →
  performHealthCheck now1 s = Ok s1 → performHealthCheck now2 s1 = Ok s2 → performHealthCheck now3 s2 = Ok s3 →
  (∃ a1, FindByID (repo s1) id = inl a1 ∧ AStatus a1 = StatusError) ∧
  (∃ a2, FindByID (repo s2) id = inl a2 ∧ AStatus a2 = StatusError) ∧
  (∃ a3, FindByID (repo s3) id = inl a3 ∧ AStatus a3 = StatusOffline ∧
         GetMetadata "current_job_id" a3 = GetMetadata "current_job_id" a) ∧
  ∃ evs, published s3 = published s ++ evs ∧ no_work_failed evs.
Proof.
  intros Hwf Ha Hw Hempty Hsil E1 E2 E3.
  assert (∀ t, t ∈ [now1; now2; now3] →
    hcStale (healthChecker s) < time_sub t (AHeartbeat a) ∧ 5 * Minute ≤ time_sub t (AHeartbeat a)) as Hsil'.
  { intros t Ht. specialize (Hsil t Ht). lia. }
  destruct (Hsil' now1) as [Ht1 Hm1]; [set_solver|]. destruct (Hsil' now2) as [Ht2 Hm2]; [set_solver|].
  destruct (Hsil' now3) as [Ht3 Hm3]; [set_solver|].
  assert (repo_wf (repo s1) ∧ repo_wf (repo s2)) as [Hwf1 Hwf2].
  { assert (∀ now x y, performHealthCheck now x = Ok y → repo_wf (repo x) → repo_wf (repo y)) as Hp.
    { intros now x y E Hx. destruct (health_check_wf now x Hx) as (y' & E' & Hy). rewrite E in E'. by injection E' as <-. }
    split; eauto. }
  destruct (health_pass_spec _ _ _ Hwf E1) as (Hh1 & Hp1 & _).
  destruct (Hp1 id a Ha Ht1) as [(a1 & Ha1 & Hb1 & Hmd1 & Hst1) Hc1]. specialize (Hc1 Hm1).
  assert (strikes s id = None) as Hn0 by (unfold strikes; by rewrite Hempty).
  unfold next_strike in Hc1, Hst1. rewrite Hn0 in Hc1, Hst1. rewrite Hw in Hst1.
  destruct (health_pass_spec _ _ _ Hwf1 E2) as (Hh2 & Hp2 & _).
  destruct (Hp2 id a1 Ha1) as [(a2 & Ha2 & Hb2 & Hmd2 & Hst2) Hc2]; [unfold is_stale; by rewrite Hh1, Hb1|].
  rewrite Hb1 in Hc2. specialize (Hc2 Hm2). unfold next_strike in Hc2, Hst2. rewrite Hc1 in Hc2, Hst2. rewrite Hst1 in Hst2.
  destruct (health_pass_spec _ _ _ Hwf2 E3) as (Hh3 & Hp3 & _).
  destruct (Hp3 id a2 Ha2) as [(a3 & Ha3 & Hb3 & Hmd3 & Hst3) _]; [unfold is_stale; by rewrite Hh2, Hh1, Hb2, Hb1|].
  unfold next_strike in Hst3. rewrite Hc2 in Hst3. rewrite Hst2 in Hst3.
  split_and!.
  - by exists a1.
  - by exists a2.
  - exists a3. split_and!; [done|done|]. unfold GetMetadata. by rewrite Hmd3, Hmd2, Hmd1.
  - eapply monitor_unmarked; [|done|].
    + eapply rtc_l; [by eapply monitor_check|]. eapply rtc_l; [by eapply monitor_check|].
      apply rtc_once. by eapply monitor_check.
    + intros k b Hb Hst. unfold strikes. by rewrite Hempty.
Qed.

(** A bot that a health check put in error never becomes available again by
    itself: heartbeats are recorded but leave the status alone, so whatever
    heartbeats and checks follow, the bot stays in error or offline. *)
Theorem error_is_sticky s s' id a :
  repo_wf (repo s) → rtc monitor_step s s' → FindByID (repo s) id = inl a →
  AStatus a ∈ [StatusError; StatusOffline] →
  ∃ a', FindByID (repo s') id = inl a' ∧ AStatus a' ∈ [StatusError; StatusOffline] ∧
        ∀ now, IsAvailable now a' = false.
Proof.
  intros Hwf Hs. revert a Hwf. induction Hs as [s|s1 s2 s3 H12 _ IH]; intros a Hwf Ha Hst.
  { exists a. split_and!; [done|done|]. intros now. unfold IsAvailable.
    apply elem_of_cons in Hst as [->|Hst]; [done|]. by apply list_elem_of_singleton in Hst as ->. }
  assert (∃ a2, FindByID (repo s2) id = inl a2 ∧ AStatus a2 ∈ [StatusError; StatusOffline]) as (a2 & Ha2 & Hst2).
  { destruct H12 as [now k s|now s s' E].
    - destruct (heartbeat_spec now k s) as (_ & _ & Hf & _). destruct (Hf id a Ha) as (a' & Ha' & E).
      exists a'. by rewrite E.
    - apply health_pass_spec in E as (_ & Hsp & Hns & _); [|done].
      destruct (decide (hcStale (healthChecker s) < time_sub now (AHeartbeat a))) as [Hl|Hl].
      + destruct (Hsp id a Ha Hl) as [(a' & Ha' & _ & _ & E) _]. exists a'. split; [done|]. rewrite E.
        destruct (3 <=? _); [set_solver|]. destruct (String.eqb_spec (AStatus a) StatusMaintenance) as [Hm|]; [|set_solver].
        rewrite Hm in Hst. exfalso. by repeat (apply elem_of_cons in Hst as [Hst|Hst]; [done|]); apply not_elem_of_nil in Hst.
      + exists a. destruct (Hns id) as [-> _]; [|done]. intros b Hb. rewrite Ha in Hb. by injection Hb as <-. }
  eapply IH; [|exact Ha2|exact Hst2]. by eapply (registry_step_wf (λ _, "") (λ _, None)), Hwf; apply monitor_step_registry.
Qed.

End health.

(** ** A map-backed repository *)

Abbreviation MemAgents := (gmap string Agent).

Definition mem_find (r : MemAgents) (id : string) : Agent + goerror :=
  match r !! id with
  | Some a => if String.eqb (AgentID a) id then inl a else inr (ErrNew "agent not found")
  | None => inr (ErrNew "agent not found")
  end.
Definition mem_change (r : MemAgents) (id : string) (f : Agent → Agent) : option goerror * MemAgents :=
  match mem_find r id with
  | inl a => (None, <[id := f a]> r)
  | inr e => (Some e, r)
  end.
Definition mem_select (r : MemAgents) (p : Agent → bool) : list Agent := List.filter p (keyed_values AgentID r).

#[export] Instance MemAgents_repository : AgentRepository MemAgents := {|
  ACreate r a := match r !! AgentID a with
                 | Some _ => (Some (ErrNew "agent already exists"), r)
                 | None => (None, <[AgentID a := a]> r)
                 end;
  AUpdate r a := match r !! AgentID a with
                 | Some _ => (None, <[AgentID a := a]> r)
                 | None => (Some (ErrNew "agent not found"), r)
                 end;
  ADelete r id := match r !! id with
                  | Some _ => (None, delete id r)
                  | None => (Some (ErrNew "agent not found"), r)
                  end;
  FindByID := mem_find;
  FindByCapability r c := inl (mem_select r (HasCapability c));
  FindOnline now r := inl (mem_select r (IsOnline now));
  FindAvailable now r := inl (mem_select r (IsAvailable now));
  FindStale now r d := inl (mem_select r (λ a, d <? time_sub now (AHeartbeat a)));
  RepoHeartbeat now r id := mem_change r id (agent_UpdateHeartbeat now);
  RepoStatus now r id st := mem_change r id (λ a, a <| AStatus := st |> <| AUpdatedAt := now |>);
  CountByStatus r st := inl (Z.of_nat (length (mem_select r (λ a, String.eqb (AStatus a) st))));
  CountByCapability r c := inl (Z.of_nat (length (mem_select r (HasCapability c)))) |}.

Lemma mem_find_insert r id a : AgentID a = id →
  mem_find (<[id := a]> r) id = inl a ∧ ∀ k, k ≠ id → mem_find (<[id := a]> r) k = mem_find r k.
Proof.
  intros <-. unfold mem_find. rewrite lookup_insert_eq, String.eqb_refl. split; [done|].
  intros k Hk. by rewrite lookup_insert_ne.
Qed.

Lemma mem_find_id r id a : mem_find r id = inl a → r !! id = Some a ∧ AgentID a = id.
Proof. unfold mem_find. destruct (r !! id) as [b|]; [|done]. destruct (String.eqb_spec (AgentID b) id); naive_solver. Qed.

Lemma mem_change_ok r id f r' : (∀ a, AgentID (f a) = AgentID a) → mem_change r id f = (None, r') →
  ∃ a, mem_find r id = inl a ∧ mem_find r' id = inl (f a) ∧ same_but r r' id.
Proof.
  intros Hf. unfold mem_change. destruct (mem_find r id) as [a|e] eqn:E; [|done]. intros [= <-].
  destruct (mem_find_insert r id (f a)) as [H1 H2]; [rewrite Hf; by apply mem_find_id in E as [_ ?]|].
  exists a. split_and!; [done|done|exact H2].
Qed.

Lemma mem_change_fail r id f e r' : mem_change r id f = (Some e, r') → r' = r.
Proof. unfold mem_change. destruct (mem_find r id); [done|by intros [= <- <-]]. Qed.

Lemma mem_select_lists r p : lists r (λ a, p a = true) (mem_select r p).
Proof.
  destruct (keyed_values_spec AgentID r) as [Hn Hin]. split; [by apply NoDup_fmap_filter|].
  intros a. unfold mem_select. rewrite elem_of_filter_bool, Hin. simpl. unfold mem_find.
  destruct (r !! AgentID a) as [b|]; [|naive_solver]. destruct (String.eqb_spec (AgentID b) (AgentID a)); naive_solver.
Qed.

#[export] Instance MemAgents_laws : AgentLaws MemAgents.
Proof.
  split; simpl.
  - intros r id a H. by apply mem_find_id in H as [_ ?].
  - intros r a r'. destruct (r !! AgentID a); [done|]. intros [= <-]. by apply mem_find_insert.
  - intros r a e r'. destruct (r !! AgentID a); naive_solver.
  - intros r a r'. destruct (r !! AgentID a); [|done]. intros [= <-]. by apply mem_find_insert.
  - intros r a e r'. destruct (r !! AgentID a); naive_solver.
  - intros r id r'. destruct (r !! id); [|done]. intros [= <-]. unfold mem_find, same_but. simpl. unfold mem_find.
    rewrite lookup_delete_eq. split; [by eexists|]. intros k Hk. by rewrite lookup_delete_ne.
  - intros r id e r'. destruct (r !! id); naive_solver.
  - intros now r id r' E. by apply mem_change_ok in E.
  - intros now r id e r' E. by apply mem_change_fail in E.
  - intros now r id st r' E. apply mem_change_ok in E as (a & ?); [|done]. by exists a, now.
  - intros now r id st e r' E. by apply mem_change_fail in E.
  - intros now r d l [= <-]. destruct (mem_select_lists r (λ a, d <? time_sub now (AHeartbeat a))) as [Hn Hin].
    split; [done|]. intros a. rewrite Hin. by rewrite Z.ltb_lt.
  - intros now r l [= <-]. apply mem_select_lists.
  - intros now r l [= <-]. apply mem_select_lists.
  - intros r c l [= <-]. apply mem_select_lists.
Qed.

#[export] Instance MemAgents_reliable : ReliableAgents MemAgents.
Proof.
  split; simpl; [|by eexists..]. intros now r id st a Ha. unfold mem_change. rewrite Ha. by eexists.
Qed.

(** ** Concrete registries *)

Module Registry.
Definition stamp (t : Time) : string := pretty t.
Definition parse (_ : string) : option Time := Some 0.
Definition empty : Service MemAgents := NewService ∅ None None.
Definition registered : Service MemAgents := (RegisterBot 0 "b1" "bot" [CapabilityFuzzing] empty).2.
Definition working : Service MemAgents := (AssignWork stamp 1 "b1" "j1" "fuzz" None registered).2.
Definition check (now : Time) (s : Service MemAgents) : Service MemAgents :=
  match performHealthCheck now s with Ok s' => s' | _ => s end.
Definition agent (s : Service MemAgents) : Agent :=
  match FindByID (repo s) "b1" with inl a => a | inr _ => mkAgent "" "" "" [] 0 0 0 None end.
Definition checked : Service MemAgents := check (6 * Minute) working.
End Registry.

Lemma empty_wf : repo_wf (repo Registry.empty).
Proof. intros id a. by vm_compute. Qed.

Lemma working_wf : repo_wf (repo Registry.working).
Proof.
  eapply (registry_step_wf Registry.stamp Registry.parse); [apply step_assign|].
  eapply (registry_step_wf Registry.stamp Registry.parse); [apply step_register|]. apply empty_wf.
Qed.

Lemma registry_reachable_wf_witness :
  (∀ now, ∃ s', performHealthCheck now Registry.working = Ok s') ∧ AStatus (Registry.agent Registry.working) = StatusWorking.
Proof.
  split; [|vm_compute; reflexivity].
  apply (registry_reachable_wf Registry.stamp Registry.parse Registry.empty).
  - apply empty_wf.
  - eapply rtc_l; [apply step_register|]. eapply rtc_l; [apply step_assign|]. apply rtc_refl.
Defined.

Lemma work_cycle_witness :
  CompleteWork Registry.stamp Registry.parse 2 "b1" "j2" None Registry.working =
    (Err (ErrNew "job ID mismatch for bot b1"), Registry.working).
Proof.
  destruct (work_cycle Registry.stamp Registry.parse 1 "b1" "j1" "fuzz" None Registry.registered Registry.working)
    as (_ & _ & _ & Hother & _); [vm_compute; reflexivity|]. by apply Hother.
Defined.

Lemma failed_work_still_completes_witness :
  ∃ s1 a1, FailWork Registry.stamp 2 "b1" "another job" "boom" "" Registry.working = (Ok tt, s1) ∧
    FindByID (repo s1) "b1" = inl a1 ∧ AStatus a1 = StatusError ∧ current_job_is "j1" a1 = true.
Proof.
  destruct (FailWork Registry.stamp 2 "b1" "another job" "boom" "" Registry.working) as [r s1] eqn:E.
  assert (r = Ok tt) as -> by (vm_compute in E; congruence).
  destruct (failed_work_still_completes Registry.stamp Registry.parse 2 "b1" "j1" "boom" "" Registry.working s1
              (Registry.agent Registry.working) (Registry.stamp 1)) with (failed := "another job")
    as (a1 & Ha & Hs & Hc & _); [vm_compute; reflexivity..|exact E|].
  exact (ex_intro _ s1 (ex_intro _ a1 (conj eq_refl (conj Ha (conj Hs Hc))))).
Defined.

Lemma silent_worker_lost_witness :
  let c1 := Registry.check (6 * Minute) Registry.working in
  let c2 := Registry.check (7 * Minute) c1 in let c3 := Registry.check (8 * Minute) c2 in
  (∃ a3, FindByID (repo c3) "b1" = inl a3 ∧ AStatus a3 = StatusOffline) ∧
  ∃ evs, published c3 = published Registry.working ++ evs ∧ no_work_failed evs.
Proof.
  intros c1 c2 c3.
  destruct (silent_worker_lost (6 * Minute) (7 * Minute) (8 * Minute) "b1" (Registry.agent Registry.working)
              Registry.working c1 c2 c3) as (_ & _ & (a3 & H1 & H2 & _) & H4).
  - apply working_wf.
  - vm_compute. reflexivity.
  - vm_compute. reflexivity.
  - reflexivity.
  - intros t Ht. repeat (apply elem_of_cons in Ht as [->|Ht]; [vm_compute; reflexivity|]). by apply not_elem_of_nil in Ht.
  - vm_compute. reflexivity.
  - vm_compute. reflexivity.
  - vm_compute. reflexivity.
  - exact (conj (ex_intro _ a3 (conj H1 H2)) H4).
Defined.

Lemma error_is_sticky_witness :
  ∃ a', FindByID (repo (RecordHeartbeat (6 * Minute + 1) "b1" Registry.checked).2) "b1" = inl a' ∧
        AHeartbeat a' = 6 * Minute + 1 ∧ IsAvailable (6 * Minute + 2) a' = false.
Proof.
  destruct (error_is_sticky Registry.checked (RecordHeartbeat (6 * Minute + 1) "b1" Registry.checked).2 "b1"
              (Registry.agent Registry.checked)) as (a' & Ha & _ & Hav).
  - eapply (registry_step_wf Registry.stamp Registry.parse); [|apply working_wf]. apply (step_health _ _ (6 * Minute)).
    vm_compute. reflexivity.
  - apply rtc_once, monitor_heartbeat.
  - vm_compute. reflexivity.
  - vm_compute. set_solver.
  - exists a'. split; [exact Ha|]. split; [|exact (Hav _)]. vm_compute in Ha. injection Ha as <-. reflexivity.
Defined.
