(* ===== verification/Regex.v ===== *)
(** * Regular expressions and string splitting

    The part of Go's regexp and strings packages the crash domain uses.  A match
    is the leftmost one, and among those the first in the order of a
    backtracking search (greedy repetitions, optional groups tried first); all
    repetitions in the program are of one character class.  Classes are sets of
    ASCII characters or their complements, so matching bytes and matching
    characters of UTF-8 text consume the same bytes. *)

From S2P Require Import Prelude.
From Stdlib Require Import Lia Ascii.

Inductive regex :=
  | One (p : ascii → bool)
  | Plus (p : ascii → bool)
  | Star (p : ascii → bool)
  | Opt (r : regex)
  | Seq (r1 r2 : regex)
  | Group (n : nat) (r : regex).

(** The groups captured so far, the latest first. *)
Definition captures := list (nat * string).
Definition group (cs : captures) (n : nat) : string :=
  match List.find (λ c, Nat.eqb c.1 n) cs with Some (_, s) => s | None => "" end.

Definition consumed (s rest : string) : string :=
  String.substring 0 (String.length s - String.length rest) s.

(** [rmatch r s cs k]: match [r] at the start of [s] and go on with [k], which
    gets the rest of the text and the captures. *)
Fixpoint rmatch {X} (r : regex) (s : string) (cs : captures) (k : string → captures → option X) : option X :=
  let star := fix star (p : ascii → bool) (s : string) : option X :=
    match s with
    | String c s' =>
        if p c then match star p s' with Some x => Some x | None => k s cs end else k s cs
    | EmptyString => k s cs
    end in
  match r with
  | One p => match s with String c s' => if p c then k s' cs else None | EmptyString => None end
  | Star p => star p s
  | Plus p => match s with String c s' => if p c then star p s' else None | EmptyString => None end
  | Opt r => match rmatch r s cs k with Some x => Some x | None => k s cs end
  | Seq r1 r2 => rmatch r1 s cs (λ s' cs', rmatch r2 s' cs' k)
  | Group n r => rmatch r s cs (λ s' cs', k s' ((n, consumed s s') :: cs'))
  end.

Definition match_here (r : regex) (s : string) : option (string * captures) :=
  rmatch r s [] (λ s' cs, Some (s', (0%nat, consumed s s') :: cs)).

(** [FindStringSubmatch]: the captures of the leftmost match. *)
Fixpoint find_submatch (r : regex) (s : string) : option captures :=
  match match_here r s with
  | Some (_, cs) => Some cs
  | None => match s with String _ s' => find_submatch r s' | EmptyString => None end
  end.

(** [FindString]: the leftmost match, or the empty string. *)
Definition find_string (r : regex) (s : string) : string :=
  match find_submatch r s with Some cs => group cs 0 | None => "" end.

(** [ReplaceAllString(s, "")] for an expression that matches no empty text. *)
Fixpoint remove_matches (r : regex) (fuel : nat) (s : string) : string :=
  match fuel, s with
  | S fuel, String c s' =>
      match match_here r s with
      | Some (rest, _) => remove_matches r fuel rest
      | None => String c (remove_matches r fuel s')
      end
  | _, _ => s
  end.
Definition remove_all (r : regex) (s : string) : string := remove_matches r (String.length s) s.

(** [FindAllStringSubmatch(s, -1)] for an expression that matches no empty
    text. *)
Fixpoint find_all (r : regex) (fuel : nat) (s : string) : list captures :=
  match fuel, s with
  | S fuel, String c s' =>
      match match_here r s with
      | Some (rest, cs) => cs :: find_all r fuel rest
      | None => find_all r fuel s'
      end
  | _, _ => []
  end.
Definition FindAll (r : regex) (s : string) : list captures := find_all r (String.length s) s.

Definition lit (c : ascii) : regex := One (Ascii.eqb c).
Fixpoint lits (s : string) (r : regex) : regex :=
  match s with EmptyString => r | String c s' => Seq (lit c) (lits s' r) end.

(** A concatenation, nested to the right. *)
Fixpoint seqs (r : regex) (l : list regex) : regex :=
  match l with [] => r | r' :: l => Seq r (seqs r' l) end.

Definition in_range (lo hi c : ascii) : bool :=
  (N_of_ascii lo <=? N_of_ascii c)%N && (N_of_ascii c <=? N_of_ascii hi)%N.
(** [\d], [\s] and [[0-9a-fA-F]]. *)
Definition digit : ascii → bool := in_range "0" "9".
Definition blank (c : ascii) : bool :=
  let n := N_of_ascii c in (n =? 9)%N || (n =? 10)%N || (n =? 12)%N || (n =? 13)%N || (n =? 32)%N.
Definition hexdigit (c : ascii) : bool := digit c || in_range "a" "f" c || in_range "A" "F" c.
Definition but (c d : ascii) : bool := negb (Ascii.eqb c d).

(** ** Splitting, suffixes, joining *)

(** [strings.Split] at a separator of one character. *)
Fixpoint split_go (sep : ascii) (s acc : string) : list string :=
  match s with
  | EmptyString => [rev_string acc ""]
  | String c s' => if Ascii.eqb c sep then rev_string acc "" :: split_go sep s' "" else split_go sep s' (String c acc)
  end.
Definition Split (s : string) (sep : ascii) : list string := split_go sep s "".

Definition TrimSuffix (s p : string) : string :=
  rev_string (TrimPrefix (rev_string s "") (rev_string p "")) "".

(** [strings.Join]. *)
Fixpoint Join (l : list string) (sep : string) : string :=
  match l with
  | [] => ""
  | [x] => x
  | x :: l' => x +:+ sep +:+ Join l' sep
  end.

(** ** The fuel of [remove_all] suffices *)

(** [rest] is a suffix that [r] can leave of [s]. *)
Definition shortens (r : regex) : Prop :=
  ∀ X s cs (k : string → captures → option X) x, rmatch r s cs k = Some x →
    ∃ s' cs', k s' cs' = Some x ∧ (String.length s' ≤ String.length s)%nat.

Lemma rmatch_shortens r : shortens r.
Proof.
  assert (∀ X p cs (k : string → captures → option X) s x,
    (fix star (p : ascii → bool) (s : string) : option X :=
       match s with
       | String c s' => if p c then match star p s' with Some x => Some x | None => k s cs end else k s cs
       | EmptyString => k s cs
       end) p s = Some x →
    ∃ s' cs', k s' cs' = Some x ∧ (String.length s' ≤ String.length s)%nat) as Hstar.
  { intros X p cs k s x. induction s as [|c s IH]; simpl; [intros H; by eexists _, _|].
    destruct (p c); [|intros H; by eexists _, _].
    match goal with |- match ?m with _ => _ end = _ → _ => destruct m end; [|intros H; by eexists _, _].
    intros [= ->]. destruct (IH eq_refl) as (s' & cs' & H1 & H2). exists s', cs'. split; [done|lia]. }
  induction r as [p|p|p|r IH|r1 IH1 r2 IH2|n r IH]; intros X s cs k x; simpl.
  - destruct s as [|c s]; [done|]. destruct (p c); [|done]. intros H. exists s, cs. simpl. split; [done|lia].
  - destruct s as [|c s]; [done|]. destruct (p c); [|done]. intros (s' & cs' & H & Hl)%Hstar.
    exists s', cs'. simpl. split; [done|lia].
  - apply Hstar.
  - destruct (rmatch r s cs k) eqn:E; [intros [= ->]; by eapply IH|]. intros H. by eexists _, _.
  - intros (s' & cs' & H & Hl)%IH1. apply IH2 in H as (s2 & cs2 & H & Hl2). exists s2, cs2. split; [done|lia].
  - intros (s' & cs' & H & Hl)%IH. by exists s', ((n, consumed s s') :: cs').
Qed.

(** The first thing the expression does is read a character. *)
Fixpoint eats (r : regex) : bool :=
  match r with
  | One _ | Plus _ => true
  | Star _ | Opt _ => false
  | Seq r1 _ => eats r1
  | Group _ r => eats r
  end.

Lemma rmatch_eats r : eats r = true → ∀ X s cs (k : string → captures → option X) x,
  rmatch r s cs k = Some x → ∃ s' cs', k s' cs' = Some x ∧ (String.length s' < String.length s)%nat.
Proof.
  induction r as [p|p|p|r IH|r1 IH1 r2 IH2|n r IH]; simpl; intros He X s cs k x; try done.
  - destruct s as [|c s]; [done|]. destruct (p c); [|done]. intros H. exists s, cs. simpl. split; [done|lia].
  - destruct s as [|c s]; [done|]. destruct (p c); [|done]. intros H.
    destruct (rmatch_shortens (Star p) X s cs k x H) as (s' & cs' & H1 & H2). exists s', cs'. simpl. split; [done|lia].
  - intros (s' & cs' & H & Hl)%(IH1 He). apply rmatch_shortens in H as (s2 & cs2 & H & Hl2).
    exists s2, cs2. split; [done|lia].
  - intros (s' & cs' & H & Hl)%(IH He). by exists s', ((n, consumed s s') :: cs').
Qed.

Lemma match_here_shortens r s rest cs : eats r = true →
  match_here r s = Some (rest, cs) → (String.length rest < String.length s)%nat.
Proof.
  intros He H. apply (rmatch_eats r He) in H as (s' & cs' & [= <- _] & Hl). done.
Qed.

Lemma remove_matches_fuel r s n m : eats r = true →
  (String.length s ≤ n)%nat → (String.length s ≤ m)%nat → remove_matches r n s = remove_matches r m s.
Proof.
  intros He. revert s m. induction n as [|n IH]; intros s m Hn Hm.
  { destruct s; [|simpl in *; lia]. by destruct m. }
  destruct m as [|m]; [destruct s; [done|simpl in *; lia]|].
  destruct s as [|c s]; [done|]. cbn [remove_matches].
  destruct (match_here r (String c s)) as [[rest cs]|] eqn:E.
  - pose proof (match_here_shortens _ _ _ _ He E) as Hl. simpl in *. apply IH; lia.
  - f_equal. simpl in *. apply IH; lia.
Qed.

(** [remove_all] goes on to the end of the text: at a match it drops it, and
    elsewhere keeps the character. *)
Lemma remove_all_step r c s : eats r = true →
  remove_all r (String c s) =
    match match_here r (String c s) with
    | Some (rest, _) => remove_all r rest
    | None => String c (remove_all r s)
    end.
Proof.
  intros He. unfold remove_all. cbn [String.length remove_matches].
  destruct (match_here r (String c s)) as [[rest cs]|] eqn:E; [|done].
  pose proof (match_here_shortens _ _ _ _ He E) as Hl. simpl in *. apply remove_matches_fuel; [done|lia..].
Qed.

(** The fuel of [FindAll] suffices as well. *)
Lemma find_all_fuel r s n m : eats r = true →
  (String.length s ≤ n)%nat → (String.length s ≤ m)%nat → find_all r n s = find_all r m s.
Proof.
  intros He. revert s m. induction n as [|n IH]; intros s m Hn Hm.
  { destruct s; [|simpl in *; lia]. by destruct m. }
  destruct m as [|m]; [destruct s; [done|simpl in *; lia]|].
  destruct s as [|c s]; [done|]. cbn [find_all].
  destruct (match_here r (String c s)) as [[rest cs]|] eqn:E; [|simpl in *; apply IH; lia].
  pose proof (match_here_shortens _ _ _ _ He E) as Hl. simpl in *. f_equal. apply IH; lia.
Qed.

Lemma FindAll_step r c s : eats r = true →
  FindAll r (String c s) =
    match match_here r (String c s) with
    | Some (rest, cs) => cs :: FindAll r rest
    | None => FindAll r s
    end.
Proof.
  intros He. unfold FindAll. cbn [String.length find_all].
  destruct (match_here r (String c s)) as [[rest cs]|] eqn:E; [|done].
  pose proof (match_here_shortens _ _ _ _ He E) as Hl. simpl in *. f_equal. apply find_all_fuel; [done|lia..].
Qed.

(** Whether there is a match does not depend on the captures, and is monotone
    in what follows. *)
Lemma rmatch_mono r : ∀ X Y s cs cs' (k : string → captures → option X) (k' : string → captures → option Y),
  (∀ s' c c', is_Some (k s' c) → is_Some (k' s' c')) → is_Some (rmatch r s cs k) → is_Some (rmatch r s cs' k').
Proof.
  assert (∀ X Y p cs cs' (k : string → captures → option X) (k' : string → captures → option Y) s,
    (∀ s' c c', is_Some (k s' c) → is_Some (k' s' c')) →
    is_Some (rmatch (Star p) s cs k) → is_Some (rmatch (Star p) s cs' k')) as Hstar.
  { intros X Y p cs cs' k k' s Hk. simpl. induction s as [|c s IH]; [apply Hk|].
    destruct (p c); [|apply Hk]. repeat match goal with |- context [match ?m with Some _ => _ | None => _ end] => destruct m eqn:? end.
    - done.
    - intros _. destruct IH as [? [=]]; eauto.
    - intros [x Hx]. eauto.
    - apply Hk. }
  induction r as [p|p|p|r IH|r1 IH1 r2 IH2|n r IH]; intros X Y s cs cs' k k' Hk.
  - simpl. destruct s as [|c s]; [done|]. destruct (p c); [apply Hk|done].
  - destruct s as [|c s]; simpl; [done|]. destruct (p c); [|done]. by apply (Hstar X Y p cs cs' k k' s).
  - by apply Hstar.
  - simpl. destruct (rmatch r s cs k) as [x|] eqn:E.
    + intros _. destruct (IH X Y s cs cs' k k' Hk) as [y ->]; [by rewrite E|done].
    + intros H. destruct (rmatch r s cs' k'); [done|by eapply Hk].
  - simpl. apply IH1. intros s' c c'. by apply IH2.
  - simpl. apply IH. intros s' c c'. apply Hk.
Qed.

(** ** Splitting what was joined *)

Fixpoint has_char (c : ascii) (s : string) : bool :=
  match s with EmptyString => false | String d s' => Ascii.eqb d c || has_char c s' end.

Lemma app_cons c s t : String c s +:+ t = String c (s +:+ t).
Proof. done. Qed.

Lemma app_empty_r s : s +:+ "" = s.
Proof. induction s as [|c s IH]; [done|]. by rewrite !app_cons, IH. Qed.

Lemma string_app_assoc (s t u : string) : (s +:+ t) +:+ u = s +:+ t +:+ u.
Proof. induction s as [|c s IH]; [done|]. by rewrite !app_cons, IH. Qed.

Lemma rev_string_app s acc : rev_string s acc = rev_string s "" +:+ acc.
Proof.
  revert acc. induction s as [|c s IH]; intros acc; [done|]. cbn [rev_string].
  rewrite (IH (String c acc)), (IH (String c "")). by rewrite string_app_assoc.
Qed.

Lemma rev_string_involutive s acc : rev_string (rev_string s acc) "" = rev_string acc "" +:+ s.
Proof.
  revert acc. induction s as [|c s IH]; intros acc; cbn [rev_string].
  - by rewrite app_empty_r.
  - rewrite IH. cbn [rev_string]. rewrite (rev_string_app acc (String c "")). by rewrite string_app_assoc.
Qed.

Lemma split_go_no_sep sep x s acc : has_char sep x = false →
  split_go sep (x +:+ s) acc = split_go sep s (rev_string x acc).
Proof.
  revert acc. induction x as [|c x IH]; intros acc; [done|]. rewrite app_cons. simpl.
  intros [Hc Hx]%orb_false_iff. rewrite Hc. by apply IH.
Qed.

Lemma split_go_end sep x acc : has_char sep x = false → split_go sep x acc = [rev_string (rev_string x acc) ""].
Proof. intros Hx. rewrite <- (app_empty_r x) at 1. by rewrite split_go_no_sep. Qed.

Lemma Split_Join sep l : l ≠ [] → (∀ x, x ∈ l → has_char sep x = false) → Split (Join l (String sep "")) sep = l.
Proof.
  unfold Split. induction l as [|x l IH]; [done|]. intros _ Hl.
  assert (has_char sep x = false) as Hx by (apply Hl; set_solver).
  destruct l as [|y l].
  - cbn [Join]. rewrite split_go_end, rev_string_involutive by done. done.
  - change (Join (x :: y :: l) (String sep "")) with (x +:+ String sep (Join (y :: l) (String sep ""))).
    rewrite split_go_no_sep by done. cbn [split_go]. rewrite Ascii.eqb_refl, rev_string_involutive. simpl (_ +:+ x).
    f_equal. apply IH; [done|]. intros z Hz. apply Hl. set_solver.
Qed.

Lemma Join_inj sep l1 l2 : (∀ x, x ∈ l1 ++ l2 → has_char sep x = false ∧ x ≠ "") →
  Join l1 (String sep "") = Join l2 (String sep "") → l1 = l2.
Proof.
  intros H E.
  assert (∀ l, l ⊆ l1 ++ l2 → Join l (String sep "") = "" → l = []) as Hempty.
  { intros [|x l] Hl; [done|]. intros Hj. exfalso. destruct (H x) as [_ Hx]; [apply Hl; set_solver|].
    destruct x; [done|]. destruct l; done. }
  destruct (decide (l1 = [])) as [->|H1]; [symmetry; apply Hempty; [set_solver|by rewrite <- E]|].
  destruct (decide (l2 = [])) as [->|H2]; [apply Hempty; [set_solver|by rewrite E]|].
  rewrite <- (Split_Join sep l1), <- (Split_Join sep l2), E; [done|done| |done|]; intros x Hx; apply H; set_solver.
Qed.

(** What follows a prefix. *)
Lemma TrimPrefix_app p x : TrimPrefix (p +:+ x) p = x.
Proof.
  unfold TrimPrefix. assert (HasPrefix (p +:+ x) p = true) as ->.
  { unfold HasPrefix. induction p as [|a p IH]; [by destruct x|]. rewrite app_cons. cbn [String.prefix]. by destruct (ascii_dec a a). }
  assert (String.length (p +:+ x) - String.length p = String.length x)%nat as ->.
  { induction p as [|a p IH]; [change (String.length x - 0 = String.length x)%nat; lia|]. rewrite app_cons. exact IH. }
  induction p as [|a p IH]; [|rewrite app_cons; exact IH]. change ("" +:+ x) with x. cbn [String.length].
  induction x as [|b x IHx]; [done|]. cbn [String.substring String.length]. by rewrite IHx.
Qed.
Lemma HasPrefix_split s p : HasPrefix s p = true → s = p +:+ TrimPrefix s p.
Proof.
  intros H. assert (∃ t, s = p +:+ t) as [t ->]; [|by rewrite TrimPrefix_app].
  revert s H. induction p as [|a p IH]; intros s H; [by exists s|]. destruct s as [|b s]; [done|].
  rewrite HasPrefix_cons in H. apply andb_true_iff in H as [->%Ascii.eqb_eq [t ->]%IH]. exists t. by rewrite app_cons.
Qed.
