(* ===== verification/CrashSignature.v ===== *)
(** * Crash signatures: src/pkg/domain/crash/types/signature.go

    A stack trace is parsed into frames by the three regular expressions of the
    file; a signature keeps the first five meaningful functions and hashes them
    with the library names.  The SHA-256 digest, in hexadecimal, is a parameter.
    Strings are sequences of bytes and case mapping is the one of ASCII. *)

From stdpp Require Import fin_sets gmap.
From Stdlib Require Import Lia Ascii.
From S2P Require Import Prelude Regex.
Open Scope Z_scope.

Record CrashSignature := mkSignature {
  SigHash : string; TopFrames : list string; FunctionNames : list string; LibraryNames : list string;
  SignatureType : string; Confidence : float64 }.

Record Frame := mkFrame {
  Address : string; Function : string; Library : string; SourceFile : string; LineNumber : Z; IsSymbolized : bool }.
#[export] Instance Frame_eta : Eta Frame := fun f =>
  mkFrame (Address f) (Function f) (Library f) (SourceFile f) (LineNumber f) (IsSymbolized f).

(** #\d+\s+(?:0x[0-9a-fA-F]+\s+)?(?:in\s+)?([^\s]+)(?:\s+at\s+([^:]+):(\d+))? *)
Definition genericFramePattern : regex :=
  seqs (lit "#") [Plus digit; Plus blank;
    Opt (lits "0x" (Seq (Plus hexdigit) (Plus blank)));
    Opt (lits "in" (Plus blank));
    Group 1 (Plus (λ c, negb (blank c)));
    Opt (seqs (Plus blank) [lits "at" (Plus blank); Group 2 (Plus (but ":")); lit ":"; Group 3 (Plus digit)])].

(** 0x[0-9a-fA-F]+ *)
Definition addressPattern : regex := lits "0x" (Plus hexdigit).
(** <[^>]+> *)
Definition templatePattern : regex := seqs (lit "<") [Plus (but ">"); lit ">"].
(** \([^)]*\) *)
Definition paramPattern : regex := seqs (lit "(") [Star (but ")"); lit ")"].

Definition cleanFunctionName (name : string) : string :=
  let name := remove_all templatePattern name in
  let name := remove_all paramPattern name in
  TrimSuffix (TrimPrefix name "_") "_".

Definition library_part (part : string) : bool :=
  Contains part ".so" || Contains part ".dll" || Contains part ".dylib".

Definition parseFrame (line : string) : option Frame :=
  match find_submatch genericFramePattern line with
  | None => None
  | Some matches =>
      let f := mkFrame "" "" "" "" 0 true in
      let f := if String.eqb (group matches 1) "" then f else
        let f := f <| Function := cleanFunctionName (group matches 1) |> in
        if Contains (Function f) "0x" || String.eqb (Function f) "???" then f <| IsSymbolized := false |> else f in
      let f := if String.eqb (group matches 2) "" then f else
        let f := f <| SourceFile := group matches 2 |> in
        match List.find library_part (Split (SourceFile f) "/") with
        | Some part => f <| Library := part |>
        | None => f
        end in
      let f := if String.eqb (group matches 3) "" then f else f <| LineNumber := 0 |> in
      let addr := find_string addressPattern line in
      Some (if String.eqb addr "" then f else f <| Address := addr |>)
  end.

Definition newline : ascii := ascii_of_N 10.

Definition parseStackTrace (stackTrace : string) : list Frame :=
  omap (λ line, let line := TrimSpace line in if String.eqb line "" then None else parseFrame line)
    (Split stackTrace newline).

Definition systemFunctions : list string :=
  ["malloc"; "free"; "calloc"; "realloc"; "memcpy"; "memset"; "memmove"; "__libc_start_main"; "_start";
   "raise"; "abort"; "__assert_fail"; "pthread_"; "dl_"; "__cxa_"].

Definition isSystemFunction (function : string) : bool :=
  existsb (HasPrefix (ToLower function)) systemFunctions.

(** The loop stops as soon as [n] frames are collected. *)
Fixpoint top_frames_from (frames : list Frame) (n : nat) (top : list string) : list string :=
  match frames with
  | [] => top
  | f :: frames =>
      if negb (IsSymbolized f) || String.eqb (Function f) "" then top_frames_from frames n top
      else if isSystemFunction (Function f) then top_frames_from frames n top
      else let top := top ++ [Function f] in
        if Nat.leb n (length top) then top else top_frames_from frames n top
  end.
Definition extractTopFrames (frames : list Frame) (n : nat) : list string := top_frames_from frames n [].

(** One pass with a set of the names seen: a name enters once, in order. *)
Fixpoint unique_names (keep : string → bool) (names : list string) (seen : list string) : list string :=
  match names with
  | [] => seen
  | x :: names => if keep x && negb (slice_has x seen) then unique_names keep names (seen ++ [x]) else unique_names keep names seen
  end.

Definition extractFunctionNames (frames : list Frame) : list string :=
  unique_names (λ x, negb (String.eqb x "") && negb (isSystemFunction x)) (Function <$> frames) [].

Definition extractLibraryNames (frames : list Frame) : list string :=
  unique_names (λ x, negb (String.eqb x "")) (Library <$> frames) [].

Definition count {A} (p : A → bool) (l : list A) : Z := Z.of_nat (length (List.filter p l)).
Definition ratio (a b : Z) : float64 := f64_div (f64_of_Z a) (f64_of_Z b).

Definition determineSignatureType (frames : list Frame) : string :=
  let symbolizationRatio := ratio (count IsSymbolized frames) (Z.of_nat (length frames)) in
  if f64_gt symbolizationRatio (f64_lit 8 10) then "fully_symbolized"
  else if f64_gt symbolizationRatio (f64_lit 3 10) then "partially_symbolized"
  else "address_based".

Definition calculateConfidence (frames : list Frame) : float64 :=
  if Nat.eqb (length frames) 0 then f64_zero
  else
    let n := Z.of_nat (length frames) in
    let symbolizationScore := ratio (count IsSymbolized frames) n in
    let sourceInfoScore := ratio (count (λ f, negb (String.eqb (SourceFile f) "")) frames) n in
    let uniquenessScore := ratio (Z.of_nat (length (extractFunctionNames frames))) n in
    let confidence := f64_add (f64_add (f64_mul symbolizationScore (f64_lit 5 10)) (f64_mul sourceInfoScore (f64_lit 3 10)))
                        (f64_mul uniquenessScore (f64_lit 2 10)) in
    if f64_gt confidence (f64_of_Z 1) then f64_of_Z 1 else confidence.

Section signature.
(** [hex.EncodeToString(sha256.Sum256(s))]. *)
Variable sha256_hex : string → string.

Definition generateSignatureHash (topFrames libraryNames : list string) : string :=
  sha256_hex (Join (topFrames ++ libraryNames) "|").

Definition NewCrashSignature (stackTrace : string) : res CrashSignature :=
  if String.eqb stackTrace "" then Err (ErrNew "stack trace cannot be empty")
  else
    let frames := parseStackTrace stackTrace in
    if Nat.eqb (length frames) 0 then Err (ErrNew "no valid frames found in stack trace")
    else
      let top := extractTopFrames frames 5 in
      let libs := extractLibraryNames frames in
      Ok (mkSignature (generateSignatureHash top libs) top (extractFunctionNames frames) libs
            (determineSignatureType frames) (calculateConfidence frames)).
End signature.

Definition Equals (s other : CrashSignature) : bool := String.eqb (SigHash s) (SigHash other).

(** The nested loops over the function names. *)
Definition commonFunctions (s other : CrashSignature) : Z :=
  count (λ f1, slice_has f1 (FunctionNames other)) (FunctionNames s).

Definition IsSimilar (s : CrashSignature) (other : option CrashSignature) (threshold : float64) : bool :=
  match other with
  | None => false
  | Some other =>
      if Equals s other then true
      else
        let common := commonFunctions s other in
        let totalFunctions := Z.of_nat (length (FunctionNames s)) + Z.of_nat (length (FunctionNames other)) - common in
        if totalFunctions =? 0 then false else f64_ge (ratio common totalFunctions) threshold
  end.

Definition signature_String (s : CrashSignature) : res string :=
  if Nat.ltb 0 (length (TopFrames s))
  then let! top := slice (TopFrames s) 0 (Z.min 3 (Z.of_nat (length (TopFrames s)))) in Ok (Join top " -> ")
  else let! h := substr (SigHash s) 0 16 in Ok (h +:+ "...").

(** ** What a signature keeps of a trace *)

(** The functions a signature looks at. *)
Definition meaningful (f : Frame) : bool :=
  IsSymbolized f && negb (String.eqb (Function f) "") && negb (isSystemFunction (Function f)).
Definition meaningful_names (frames : list Frame) : list string := Function <$> List.filter meaningful frames.

Lemma top_frames_from_spec frames n top : (length top < n)%nat →
  top_frames_from frames n top = top ++ take (n - length top) (meaningful_names frames).
Proof.
  unfold meaningful_names. revert top. induction frames as [|f frames IH]; intros top Hn.
  { simpl. by rewrite take_nil, app_nil_r. }
  cbn [top_frames_from List.filter]. unfold meaningful at 1.
  destruct (IsSymbolized f); cbn [negb orb andb]; [|by apply IH].
  destruct (String.eqb _ _); cbn [negb andb]; [by apply IH|].
  destruct (isSystemFunction _); cbn [negb]; [by apply IH|].
  cbn [fmap list_fmap]. destruct (n - length top)%nat as [|m] eqn:Em; [lia|]. cbn [take].
  destruct (Nat.leb_spec n (length (top ++ [Function f]))) as [Hl|Hl]; rewrite length_app in Hl; simpl in Hl.
  - assert (m = 0)%nat as -> by lia. done.
  - rewrite IH by (rewrite length_app; simpl; lia). rewrite <- app_assoc. simpl. do 3 f_equal. rewrite length_app. simpl. lia.
Qed.

Lemma extractTopFrames_spec frames : extractTopFrames frames 5 = take 5 (meaningful_names frames).
Proof. unfold extractTopFrames. by rewrite top_frames_from_spec by (simpl; lia). Qed.

Lemma unique_names_spec keep names seen : NoDup seen →
  NoDup (unique_names keep names seen) ∧
  ∀ x, x ∈ unique_names keep names seen ↔ x ∈ seen ∨ (x ∈ names ∧ keep x = true).
Proof.
  revert seen. induction names as [|y names IH]; intros seen Hs; simpl; [set_solver|].
  destruct (keep y) eqn:Hk; cbn [andb].
  - destruct (slice_has y seen) eqn:Hy; cbn [negb]; autorewrite with go_rw in Hy.
    + destruct (IH seen Hs) as [H1 H2]. split; [done|]. set_solver.
    + destruct (IH (seen ++ [y])) as [H1 H2]; [by apply NoDup_snoc|]. split; [done|]. set_solver.
  - destruct (IH seen Hs) as [H1 H2]. split; [done|]. intros x. rewrite H2, elem_of_cons. naive_solver congruence.
Qed.

Lemma function_names_spec frames :
  NoDup (extractFunctionNames frames) ∧
  ∀ x, x ∈ extractFunctionNames frames ↔ ∃ f, f ∈ frames ∧ Function f = x ∧ x ≠ "" ∧ isSystemFunction x = false.
Proof.
  destruct (unique_names_spec (λ x, negb (String.eqb x "") && negb (isSystemFunction x)) (Function <$> frames) [])
    as [H1 H2]; [constructor|]. split; [done|]. intros x. rewrite (H2 x), list_elem_of_fmap, andb_true_iff, !negb_true_iff, String.eqb_neq.
  set_solver.
Qed.

Lemma library_names_spec frames :
  NoDup (extractLibraryNames frames) ∧
  ∀ x, x ∈ extractLibraryNames frames ↔ ∃ f, f ∈ frames ∧ Library f = x ∧ x ≠ "".
Proof.
  destruct (unique_names_spec (λ x, negb (String.eqb x "")) (Library <$> frames) [])
    as [H1 H2]; [constructor|]. split; [done|]. intros x. rewrite (H2 x), list_elem_of_fmap, negb_true_iff, String.eqb_neq.
  set_solver.
Qed.

Lemma meaningful_names_spec frames x : x ∈ meaningful_names frames → x ≠ "".
Proof.
  unfold meaningful_names. intros (f & -> & [_ Hf]%elem_of_filter_bool)%list_elem_of_fmap. unfold meaningful in Hf.
  apply andb_true_iff in Hf as [[_ Hf]%andb_true_iff _]. apply negb_true_iff in Hf. by apply String.eqb_neq.
Qed.

(** What the hash is taken of. *)
Definition components (s : CrashSignature) : list string := TopFrames s ++ LibraryNames s.

Section signature_theorems.
Variable sha256_hex : string → string.

Lemma new_signature_ok t s : NewCrashSignature sha256_hex t = Ok s ↔
  let frames := parseStackTrace t in
  frames ≠ [] ∧
  s = mkSignature (sha256_hex (Join (components s) "|")) (take 5 (meaningful_names frames)) (extractFunctionNames frames)
        (extractLibraryNames frames) (determineSignatureType frames) (calculateConfidence frames).
Proof.
  unfold NewCrashSignature, generateSignatureHash, components. destruct (String.eqb_spec t "") as [->|Hne]; [by split; [|intros []]|].
  cbv zeta. rewrite extractTopFrames_spec. destruct (parseStackTrace t) as [|f frames] eqn:Ef; simpl length; cbn [Nat.eqb].
  { by split; [|intros []]. }
  split.
  - intros [= <-]. done.
  - intros [_ Hs]. f_equal. rewrite Hs at 1. rewrite Hs. done.
Qed.

Lemma signature_components t s : NewCrashSignature sha256_hex t = Ok s →
  (∀ x, x ∈ components s → x ≠ "") ∧ NoDup (FunctionNames s) ∧ SigHash s = sha256_hex (Join (components s) "|").
Proof.
  intros [Hf Hs]%new_signature_ok. split_and!.
  - intros x. rewrite Hs. unfold components. simpl. intros [Hx|Hx]%elem_of_app.
    + apply elem_of_take in Hx as (i & Hx & _). by eapply meaningful_names_spec, list_elem_of_lookup_2.
    + apply library_names_spec in Hx as (? & _ & _ & Hx). done.
  - rewrite Hs. apply function_names_spec.
  - rewrite Hs at 1. done.
Qed.
End signature_theorems.

(** ** Similarity is the Jaccard index of the function names *)

Definition names (s : CrashSignature) : gset string := list_to_set (FunctionNames s).

Lemma length_filter_intersection (l : list string) (p : string → bool) (Y : gset string) :
  NoDup l → (∀ x, p x = true ↔ x ∈ Y) → count p l = Z.of_nat (size ((list_to_set l : gset string) ∩ Y)).
Proof.
  intros Hl Hp. unfold count. f_equal.
  assert (NoDup (List.filter p l)) as Hf by by apply NoDup_ListNoDup, List.NoDup_filter, NoDup_ListNoDup.
  rewrite <- (size_list_to_set (C:=gset string) _ Hf). f_equal. apply leibniz_equiv. intros x.
  rewrite elem_of_list_to_set, elem_of_filter_bool, Hp. set_solver.
Qed.

Lemma commonFunctions_size s t : NoDup (FunctionNames s) → commonFunctions s t = Z.of_nat (size (names s ∩ names t)).
Proof.
  intros Hs. unfold commonFunctions. apply length_filter_intersection; [done|].
  intros x. rewrite slice_has_true. unfold names. by rewrite elem_of_list_to_set.
Qed.

Lemma total_functions_size s t : NoDup (FunctionNames s) → NoDup (FunctionNames t) →
  Z.of_nat (length (FunctionNames s)) + Z.of_nat (length (FunctionNames t)) - commonFunctions s t =
  Z.of_nat (size (names s ∪ names t)).
Proof.
  intros Hs Ht. rewrite commonFunctions_size by done.
  assert (length (FunctionNames s) = size (names s)) as -> by (symmetry; by apply size_list_to_set).
  assert (length (FunctionNames t) = size (names t)) as -> by (symmetry; by apply size_list_to_set).
  pose proof (size_union_alt (names s) (names t)).
  assert (size (names t) = size (names t ∖ names s) + size (names s ∩ names t))%nat; [|lia].
  rewrite <- size_union by set_solver. f_equal. apply leibniz_equiv. intros x. destruct (decide (x ∈ names s)); set_solver.
Qed.

Section signature_properties.
Variable sha256_hex : string → string.

(** A signature exists exactly for traces with at least one frame line, and
    construction never panics.  Its top frames are the first five functions
    that are symbolised, named and not of the system; its function and library
    names list each name of the trace once; its hash covers the top frames and
    the libraries and nothing else; and a printed signature never slices past
    the end of a full digest. *)
Theorem signature_of_trace t :
  match NewCrashSignature sha256_hex t with
  | Ok s =>
      parseStackTrace t ≠ [] ∧
      TopFrames s = take 5 (Function <$> List.filter meaningful (parseStackTrace t)) ∧
      NoDup (FunctionNames s) ∧
      (∀ x, x ∈ FunctionNames s ↔
         ∃ f, f ∈ parseStackTrace t ∧ Function f = x ∧ x ≠ "" ∧ isSystemFunction x = false) ∧
      NoDup (LibraryNames s) ∧
      (∀ x, x ∈ LibraryNames s ↔ ∃ f, f ∈ parseStackTrace t ∧ Library f = x ∧ x ≠ "") ∧
      SigHash s = sha256_hex (Join (TopFrames s ++ LibraryNames s) "|") ∧
      ((16 ≤ String.length (SigHash s))%nat → is_ok (signature_String s) = true)
  | Err _ => t = "" ∨ parseStackTrace t = []
  | Panic _ => False
  end.
Proof.
  destruct (NewCrashSignature sha256_hex t) as [s|e|w] eqn:E.
  - pose proof (signature_components _ _ _ E) as (_ & _ & Hh). apply new_signature_ok in E as [Hf Hs].
    pose proof (function_names_spec (parseStackTrace t)) as [H1 H2].
    pose proof (library_names_spec (parseStackTrace t)) as [H3 H4].
    split_and!; [done|by rewrite Hs..|exact Hh|].
    intros Hl. unfold signature_String. destruct (Nat.ltb_spec 0 (length (TopFrames s))).
    + rewrite slice_ok by lia. done.
    + unfold substr. rewrite (proj2 (Z.leb_le 16 _)) by lia. done.
  - unfold NewCrashSignature in E. destruct (String.eqb_spec t ""); [by left|]. right.
    by destruct (parseStackTrace t).
  - unfold NewCrashSignature in E. destruct (String.eqb t ""); [done|]. by destruct (parseStackTrace t).
Qed.

(** As long as no name contains the separator and the digest does not
    collide on the two, signatures are equal exactly when the traces agree on
    the top five meaningful functions followed by the libraries: neither the
    addresses nor anything deeper in the stack counts. *)
Theorem signature_equality_exact t1 t2 s1 s2 :
  NewCrashSignature sha256_hex t1 = Ok s1 → NewCrashSignature sha256_hex t2 = Ok s2 →
  (sha256_hex (Join (components s1) "|") = sha256_hex (Join (components s2) "|") →
     Join (components s1) "|" = Join (components s2) "|") →
  (∀ x, x ∈ components s1 ++ components s2 → has_char "|" x = false) →
  Equals s1 s2 = true ↔ TopFrames s1 ++ LibraryNames s1 = TopFrames s2 ++ LibraryNames s2.
Proof.
  intros (H1 & _ & E1)%signature_components (H2 & _ & E2)%signature_components Hinj Hbar.
  unfold Equals. rewrite String.eqb_eq, E1, E2. fold (components s1) (components s2). split; [|by intros ->].
  intros E%Hinj. apply (Join_inj "|"); [|exact E]. intros x Hx. split; [by apply Hbar|].
  apply elem_of_app in Hx as [Hx|Hx]; [by apply H1|by apply H2].
Qed.

(** Two signatures are similar when their hashes are equal or the Jaccard
    index of their sets of function names reaches the threshold; two signatures
    without function names never reach it, and similarity is symmetric. *)
Theorem similar_is_jaccard t1 t2 s1 s2 threshold :
  NewCrashSignature sha256_hex t1 = Ok s1 → NewCrashSignature sha256_hex t2 = Ok s2 →
  IsSimilar s1 (Some s2) threshold =
    (Equals s1 s2 ||
     negb (Nat.eqb (size (names s1 ∪ names s2)) 0) &&
     f64_ge (ratio (Z.of_nat (size (names s1 ∩ names s2))) (Z.of_nat (size (names s1 ∪ names s2)))) threshold) ∧
  IsSimilar s2 (Some s1) threshold = IsSimilar s1 (Some s2) threshold.
Proof.
  intros (_ & H1 & _)%signature_components (_ & H2 & _)%signature_components.
  assert (∀ s t, NoDup (FunctionNames s) → NoDup (FunctionNames t) → IsSimilar s (Some t) threshold =
    (Equals s t ||
     negb (Nat.eqb (size (names s ∪ names t)) 0) &&
     f64_ge (ratio (Z.of_nat (size (names s ∩ names t))) (Z.of_nat (size (names s ∪ names t)))) threshold)) as H.
  { intros s t Hs Ht. unfold IsSimilar. destruct (Equals s t); [done|]. cbv zeta.
    rewrite total_functions_size, commonFunctions_size by done.
    destruct (Nat.eqb_spec (size (names s ∪ names t)) 0) as [->|Hn]; [done|].
    rewrite (proj2 (Z.eqb_neq _ 0)) by lia. done. }
  split; [by apply H|]. rewrite !H by done.
  rewrite (comm_L (∪) (names s2)), (comm_L (∩) (names s2)). unfold Equals. by rewrite String.eqb_sym.
Qed.

End signature_properties.

(** ** Instances *)

Definition trace1 : string := "#0 0x4005d6 in parse at a.c:10" +:+ String newline "#1 0x400612 in main at a.c:30".
Definition trace2 : string := "#0 0x7f0001 in parse at b.c:1" +:+ String newline "#1 0x7f0002 in main".
Definition trace3 : string := "#0 0x1 in parse at c.c:1" +:+ String newline "#1 0x2 in other".
Definition signature (t : string) : CrashSignature :=
  match NewCrashSignature id t with Ok s => s | _ => mkSignature "" [] [] [] "" f64_zero end.

Lemma signature_equality_exact_witness :
  Equals (signature trace1) (signature trace2) = true ↔
  components (signature trace1) = components (signature trace2).
Proof.
  apply (signature_equality_exact id trace1 trace2); [vm_compute; reflexivity..|done|].
  intros x Hx. assert (x ∈ ["parse"; "main"; "parse"; "main"]) as Hin by exact Hx.
  set_unfold in Hin. destruct Hin as [->|[->|[->|[->|[]]]]]; reflexivity.
Defined.

Lemma similar_is_jaccard_witness :
  IsSimilar (signature trace1) (Some (signature trace3)) (f64_lit 1 3) = true ∧
  IsSimilar (signature trace3) (Some (signature trace1)) (f64_lit 1 3) = IsSimilar (signature trace1) (Some (signature trace3)) (f64_lit 1 3).
Proof.
  split; [vm_compute; reflexivity|].
  apply (similar_is_jaccard id trace1 trace3); vm_compute; reflexivity.
Defined.
