(* ===== verification/Crash.v ===== *)
(** * Crashes: src/pkg/domain/crash/types/crash.go

    A crash is created from an input and a stack trace, classified by words of
    the trace, and updated by its methods.  Clock readings are arguments, the
    SHA-256 digest is a parameter, inputs are byte strings. *)

From Stdlib Require Import Lia.
From S2P Require Import Prelude Regex CrashSignature.

Definition SeverityCritical : string := "critical".
Definition SeverityHigh : string := "high".
Definition SeverityMedium : string := "medium".
Definition SeverityLow : string := "low".
Definition SeverityUnknown : string := "unknown".

Definition CrashTypeSegmentationFault : string := "segmentation_fault".
Definition CrashTypeHeapOverflow : string := "heap_overflow".
Definition CrashTypeStackOverflow : string := "stack_overflow".
Definition CrashTypeAssertion : string := "assertion".
Definition CrashTypeTimeout : string := "timeout".
Definition CrashTypeMemoryLeak : string := "memory_leak".
Definition CrashTypeUnhandledException : string := "unhandled_exception".
Definition CrashTypeOther : string := "other".

Record TargetInfo := mkTarget { TargetName : string; TargetVersion : string; TargetCommand : string; TargetEnvironment : string }.

Record Crash := mkCrashEntity {
  ID : string; Signature : option CrashSignature; Input : string; InputHash : string; StackTrace : string;
  CrashSeverity : string; CrashType : string; DiscoveredAt : Time; LastSeenAt : Time; OccurrenceCount : Z;
  CorpusEntryID : string; Target : TargetInfo; Metadata : option (gmap string string); Reproducible : bool;
  Fixed : bool; FixedAt : option Time; Tags : list string }.
#[export] Instance Crash_eta : Eta Crash := fun c =>
  mkCrashEntity (ID c) (Signature c) (Input c) (InputHash c) (StackTrace c) (CrashSeverity c) (CrashType c)
    (DiscoveredAt c) (LastSeenAt c) (OccurrenceCount c) (CorpusEntryID c) (Target c) (Metadata c) (Reproducible c)
    (Fixed c) (FixedAt c) (Tags c).

Definition determineCrashType (stackTrace : string) : string :=
  let stackLower := ToLower stackTrace in
  if contains_any stackLower ["segmentation fault"; "sigsegv"] then CrashTypeSegmentationFault
  else if contains_any stackLower ["heap overflow"; "heap-buffer-overflow"] then CrashTypeHeapOverflow
  else if contains_any stackLower ["stack overflow"; "stack-buffer-overflow"] then CrashTypeStackOverflow
  else if contains_any stackLower ["assertion"; "assert"] then CrashTypeAssertion
  else if contains_any stackLower ["timeout"] then CrashTypeTimeout
  else if contains_any stackLower ["memory leak"; "leak"] then CrashTypeMemoryLeak
  else if contains_any stackLower ["exception"] then CrashTypeUnhandledException
  else CrashTypeOther.

Definition determineSeverity (crashType stackTrace : string) : string :=
  if contains_any (ToLower stackTrace) ["arbitrary code execution"; "remote code execution"] then SeverityCritical
  else if slice_has crashType [CrashTypeHeapOverflow; CrashTypeStackOverflow] then SeverityHigh
  else if slice_has crashType [CrashTypeSegmentationFault] then SeverityMedium
  else if slice_has crashType [CrashTypeAssertion; CrashTypeUnhandledException] then SeverityMedium
  else if slice_has crashType [CrashTypeTimeout] then SeverityLow
  else if slice_has crashType [CrashTypeMemoryLeak] then SeverityLow
  else SeverityUnknown.

Definition isValidSeverity (severity : string) : bool :=
  slice_has severity [SeverityCritical; SeverityHigh; SeverityMedium; SeverityLow; SeverityUnknown].

Definition isValidCrashType (crashType : string) : bool :=
  slice_has crashType [CrashTypeSegmentationFault; CrashTypeHeapOverflow; CrashTypeStackOverflow; CrashTypeAssertion;
    CrashTypeTimeout; CrashTypeMemoryLeak; CrashTypeUnhandledException; CrashTypeOther].

Section crash.
(** [hex.EncodeToString(sha256.Sum256(s))]. *)
Variable sha256_hex : string → string.

Definition generateCrashID (inputHash stackTrace : string) : res string :=
  substr (sha256_hex (inputHash +:+ stackTrace)) 0 16.

Definition NewCrash (now : Time) (input stackTrace : string) (targetInfo : TargetInfo) : res Crash :=
  if Nat.eqb (String.length input) 0 then Err (ErrNew "crash input cannot be empty")
  else if String.eqb stackTrace "" then Err (ErrNew "stack trace cannot be empty")
  else if String.eqb (TargetName targetInfo) "" then Err (ErrNew "target name cannot be empty")
  else
    let inputHash := sha256_hex input in
    let! id := generateCrashID inputHash stackTrace in
    let crash := mkCrashEntity id None input inputHash stackTrace SeverityUnknown (determineCrashType stackTrace)
                   now now 1 "" targetInfo (Some ∅) true false None [] in
    match NewCrashSignature sha256_hex stackTrace with
    | Err e => Err (ErrWrap "failed to create crash signature" e)
    | Panic w => Panic w
    | Ok signature =>
        let crash := crash <| Signature := Some signature |> in
        Ok (crash <| CrashSeverity := determineSeverity (CrashType crash) stackTrace |>)
    end.
End crash.

Definition RecordOccurrence (now : Time) (c : Crash) : Crash :=
  c <| OccurrenceCount := wrapu64 (OccurrenceCount c + 1) |> <| LastSeenAt := now |>.
Definition MarkAsFixed (now : Time) (c : Crash) : Crash := c <| Fixed := true |> <| FixedAt := Some now |>.
Definition MarkAsNotReproducible (c : Crash) : Crash := c <| Reproducible := false |>.
Definition UpdateSeverity (severity : string) (c : Crash) : res Crash :=
  if negb (isValidSeverity severity) then Err (ErrNew "invalid severity level") else Ok (c <| CrashSeverity := severity |>).
Definition AddTag (tag : string) (c : Crash) : Crash :=
  if slice_has tag (Tags c) then c else c <| Tags := Tags c ++ [tag] |>.
Definition RemoveTag (tag : string) (c : Crash) : Crash := c <| Tags := remove_first tag (Tags c) |>.
Definition SetMetadata (key value : string) (c : Crash) : Crash :=
  c <| Metadata := Some (<[key := value]> (default ∅ (Metadata c))) |>.
Definition GetMetadata (key : string) (c : Crash) : option string := m ← Metadata c; m !! key.
Definition Age (now : Time) (c : Crash) : Duration := time_sub now (DiscoveredAt c).
Definition IsRecent (now : Time) (duration : Duration) (c : Crash) : bool := time_sub now (LastSeenAt c) <=? duration.

Definition IsDuplicate (c : Crash) (other : option Crash) : bool :=
  match other with
  | None => false
  | Some other =>
      match Signature c, Signature other with
      | Some s, Some t => String.eqb (SigHash s) (SigHash t)
      | _, _ => String.eqb (InputHash c) (InputHash other)
      end
  end.

Definition crash_Validate (c : Crash) : option goerror :=
  if String.eqb (ID c) "" then Some (ErrNew "crash ID cannot be empty")
  else if Nat.eqb (String.length (Input c)) 0 then Some (ErrNew "crash input cannot be empty")
  else if String.eqb (StackTrace c) "" then Some (ErrNew "stack trace cannot be empty")
  else if negb (if Signature c is Some _ then true else false) then Some (ErrNew "crash signature cannot be nil")
  else if negb (isValidSeverity (CrashSeverity c)) then Some (ErrNew "invalid severity level")
  else if negb (isValidCrashType (CrashType c)) then Some (ErrNew "invalid crash type")
  else if String.eqb (TargetName (Target c)) "" then Some (ErrNew "target name cannot be empty")
  else None.

(** ** The life of a crash *)

(** One call of a method. *)
Inductive crash_step : Crash → Crash → Prop :=
  | step_occurrence now c : crash_step c (RecordOccurrence now c)
  | step_fixed now c : crash_step c (MarkAsFixed now c)
  | step_not_reproducible c : crash_step c (MarkAsNotReproducible c)
  | step_severity severity c c' : UpdateSeverity severity c = Ok c' → crash_step c c'
  | step_tag tag c : crash_step c (AddTag tag c)
  | step_untag tag c : crash_step c (RemoveTag tag c)
  | step_metadata key value c : crash_step c (SetMetadata key value c).

Section crash_theorems.
Variable sha256_hex : string → string.

(** What the methods keep: validity, the link between a crash and its trace and
    input, a fixing time exactly for fixed crashes, tags without duplicates. *)
Definition crash_wf (c : Crash) : Prop :=
  crash_Validate c = None ∧ InputHash c = sha256_hex (Input c) ∧
  (∃ s, Signature c = Some s ∧ NewCrashSignature sha256_hex (StackTrace c) = Ok s) ∧
  CrashType c = determineCrashType (StackTrace c) ∧
  0 ≤ OccurrenceCount c < 2 ^ 64 ∧ Fixed c = (if FixedAt c is Some _ then true else false) ∧ NoDup (Tags c).

(** The fields no method changes. *)
Definition same_origin (c c' : Crash) : Prop :=
  ID c' = ID c ∧ Signature c' = Signature c ∧ Input c' = Input c ∧ InputHash c' = InputHash c ∧
  StackTrace c' = StackTrace c ∧ CrashType c' = CrashType c ∧ DiscoveredAt c' = DiscoveredAt c ∧ Target c' = Target c.

Lemma same_origin_refl c : same_origin c c.
Proof. by split_and!. Qed.

Lemma same_origin_trans c1 c2 c3 : same_origin c1 c2 → same_origin c2 c3 → same_origin c1 c3.
Proof. unfold same_origin. intros (->&->&->&->&->&->&->&->) (->&->&->&->&->&->&->&->). by split_and!. Qed.

Lemma crash_type_valid t : isValidCrashType (determineCrashType t) = true.
Proof. unfold determineCrashType. by repeat destruct (contains_any _ _). Qed.

Lemma severity_valid ty t : isValidSeverity (determineSeverity ty t) = true.
Proof. unfold determineSeverity. destruct (contains_any _ _); [done|]. by repeat destruct (slice_has _ _). Qed.

Lemma crash_Validate_ok c : crash_Validate c = None ↔
  ID c ≠ "" ∧ Input c ≠ "" ∧ StackTrace c ≠ "" ∧ Signature c ≠ None ∧ isValidSeverity (CrashSeverity c) = true ∧
  isValidCrashType (CrashType c) = true ∧ TargetName (Target c) ≠ "".
Proof.
  unfold crash_Validate.
  destruct (String.eqb_spec (ID c) ""); [naive_solver|].
  destruct (Nat.eqb_spec (String.length (Input c)) 0) as [Hi|Hi]; [by assert (Input c = "") by (by destruct (Input c)); naive_solver|].
  assert (Input c ≠ "") by (intros E; by rewrite E in Hi).
  destruct (String.eqb_spec (StackTrace c) ""); [naive_solver|].
  destruct (Signature c); cbn [negb]; [|naive_solver].
  destruct (isValidSeverity _); cbn [negb]; [|naive_solver].
  destruct (isValidCrashType _); cbn [negb]; [|naive_solver].
  destruct (String.eqb_spec (TargetName (Target c)) ""); naive_solver.
Qed.

Lemma new_crash_ok now input trace target c : NewCrash sha256_hex now input trace target = Ok c →
  crash_wf c ∧ Input c = input ∧ StackTrace c = trace ∧ Target c = target ∧ OccurrenceCount c = 1 ∧
  CrashSeverity c = determineSeverity (determineCrashType trace) trace.
Proof.
  unfold NewCrash, generateCrashID, substr.
  destruct (Nat.eqb_spec (String.length input) 0) as [|Hi]; [done|].
  destruct (String.eqb_spec trace "") as [|Ht]; [done|].
  destruct (String.eqb_spec (TargetName target) "") as [|Htn]; [done|].
  set (h := sha256_hex (_ +:+ trace)). destruct (_ <=? Z.of_nat (String.length h)) eqn:El; [|done]. cbn [res_bind].
  destruct (NewCrashSignature sha256_hex trace) as [s| |] eqn:Es; intros [= <-]. simpl.
  split; [|done]. unfold crash_wf. rewrite crash_Validate_ok. simpl. split_and!; try done.
  - apply Z.leb_le in El. by destruct h.
  - by intros ->.
  - apply severity_valid.
  - apply crash_type_valid.
  - by exists s.
  - constructor.
Qed.

Lemma UpdateSeverity_ok severity c c' :
  UpdateSeverity severity c = Ok c' → c' = c <| CrashSeverity := severity |> ∧ isValidSeverity severity = true.
Proof. unfold UpdateSeverity. destruct (isValidSeverity severity); [|done]. by intros [= <-]. Qed.

Lemma AddTag_alt tag c :
  AddTag tag c = c <| Tags := if slice_has tag (Tags c) then Tags c else Tags c ++ [tag] |>.
Proof. unfold AddTag. destruct c. simpl. by destruct (slice_has _ _). Qed.

Lemma NoDup_add_tag tag l : NoDup l → NoDup (if slice_has tag l then l else l ++ [tag]).
Proof. destruct (slice_has tag l) eqn:E; [done|]. autorewrite with go_rw in E. intros. by apply NoDup_snoc. Qed.

Lemma crash_step_wf c c' : crash_step c c' → crash_wf c → crash_wf c' ∧ same_origin c c'.
Proof.
  assert (∀ d, same_origin c d → CrashSeverity d = CrashSeverity c ∨ isValidSeverity (CrashSeverity d) = true →
    0 ≤ OccurrenceCount d < 2 ^ 64 → Fixed d = (if FixedAt d is Some _ then true else false) → NoDup (Tags d) →
    crash_wf c → crash_wf d ∧ same_origin c d) as H.
  { intros d Ho Hs Hn Hf Ht (Hv & Hh & Hsig & Hty & _). split; [|done].
    destruct Ho as (E1&E2&E3&E4&E5&E6&E7&E8). unfold crash_wf. rewrite crash_Validate_ok in *.
    rewrite E1, E2, E3, E4, E5, E6, E8. naive_solver congruence. }
  intros Hstep Hwf. pose proof Hwf as (_ & _ & _ & _ & Hn & Hf & Ht).
  destruct Hstep as [now c|now c|c|severity c c' [-> Es]%UpdateSeverity_ok|tag c|tag c|key value c];
    rewrite ?AddTag_alt; apply H; try done; try (by left).
  - apply wrapu64_range.
  - by right.
  - by apply NoDup_add_tag.
  - by apply NoDup_remove_first.
Qed.

(** Every crash that a successful [NewCrash] and any method calls lead to
    passes its own validation, keeps the ID, the input, the trace, the signature
    and the type it was created with, has a fixing time exactly when fixed, and
    lists each tag once.  Creation succeeds exactly when input, target name and
    trace are given and the trace has a frame; with a full digest it never
    panics. *)
Theorem crash_reachable_wf now input trace target : (16 ≤ String.length (sha256_hex (sha256_hex input +:+ trace)))%nat →
  (∀ c c', NewCrash sha256_hex now input trace target = Ok c → rtc crash_step c c' →
     crash_wf c' ∧ same_origin c c' ∧ Input c' = input ∧ StackTrace c' = trace) ∧
  (is_ok (NewCrash sha256_hex now input trace target) = true ↔
     input ≠ "" ∧ TargetName target ≠ "" ∧ parseStackTrace trace ≠ []) ∧
  ∀ w, NewCrash sha256_hex now input trace target ≠ Panic w.
Proof.
  intros Hlen. split.
  { intros c c' (Hwf & <- & <- & _)%new_crash_ok Hsteps. revert Hwf. clear Hlen.
    induction Hsteps as [c|c1 c2 c3 H12 _ IH]; intros Hwf; [by split; [|split; [apply same_origin_refl|]]|].
    destruct (crash_step_wf _ _ H12 Hwf) as [Hwf2 Ho].
    destruct (IH Hwf2) as (Hwf3 & Ho3 & Hi & Ht). pose proof Ho as (_&_&Ei&_&Et&_).
    split_and!; [done|by eapply same_origin_trans| |]; congruence. }
  unfold NewCrash, generateCrashID, substr. set (h := sha256_hex (_ +:+ trace)) in *.
  rewrite (proj2 (Z.leb_le 16 (Z.of_nat (String.length h)))) by lia.
  destruct (Nat.eqb_spec (String.length input) 0) as [Hi|Hi]; [split; [|done]; split; [done|by destruct input as [|]; naive_solver]|].
  destruct (String.eqb_spec trace "") as [->|Ht]; [split; [|done]; split; [done|by intros (_&_&?)]|].
  destruct (String.eqb_spec (TargetName target) "") as [|Htn]; [split; [|done]; split; [done|naive_solver]|].
  cbn [res_bind andb Z.leb]. unfold NewCrashSignature. rewrite (proj2 (String.eqb_neq _ _) Ht).
  destruct (parseStackTrace trace) as [|f frames]; [split; [|done]; split; [done|by intros (_&_&?)]|].
  split; [|done]. split; [|done]. intros _. split_and!; [by intros ->|done|done].
Qed.

(** ** Duplicates *)

(** A trace in which no function is symbolised, named and not of the system,
    and no library is known: raw addresses, or frames of malloc and abort. *)
Definition nameless (trace : string) : Prop :=
  ∀ f, f ∈ parseStackTrace trace → meaningful f = false ∧ Library f = "".

Lemma nameless_components trace s :
  nameless trace → NewCrashSignature sha256_hex trace = Ok s → components s = [].
Proof.
  intros Hn [_ Hs]%new_signature_ok. rewrite Hs. unfold components. simpl.
  assert (meaningful_names (parseStackTrace trace) = []) as ->.
  { unfold meaningful_names. destruct (List.filter _ _) as [|f l] eqn:E; [done|].
    assert (f ∈ List.filter meaningful (parseStackTrace trace)) as [Hf Hm]%elem_of_filter_bool by (rewrite E; set_solver).
    destruct (Hn f Hf). congruence. }
  destruct (extractLibraryNames _) as [|x l] eqn:E; [done|]. exfalso.
  assert (x ∈ extractLibraryNames (parseStackTrace trace)) as (f & Hf & Hl & Hx)%library_names_spec by (rewrite E; set_solver).
  destruct (Hn f Hf). congruence.
Qed.

(** Deduplication looks at the signature alone: two reachable crashes are
    duplicates exactly when the hashes of their signatures agree, so the same
    input never makes two crashes duplicates by itself.  And it is wrong on
    traces without names: all crashes whose traces have no meaningful function
    and no library share the hash of the empty string, and are duplicates of
    each other whatever their inputs, addresses and targets. *)
Theorem nameless_crashes_collapse now1 now2 in1 in2 t1 t2 g1 g2 c1 c2 d1 d2 :
  NewCrash sha256_hex now1 in1 t1 g1 = Ok c1 → NewCrash sha256_hex now2 in2 t2 g2 = Ok c2 →
  rtc crash_step c1 d1 → rtc crash_step c2 d2 →
  (∃ s1 s2, NewCrashSignature sha256_hex t1 = Ok s1 ∧ NewCrashSignature sha256_hex t2 = Ok s2 ∧
     IsDuplicate d1 (Some d2) = String.eqb (SigHash s1) (SigHash s2)) ∧
  (nameless t1 → nameless t2 → IsDuplicate d1 (Some d2) = true).
Proof.
  intros (Hwf1 & _ & E1 & _)%new_crash_ok (Hwf2 & _ & E2 & _)%new_crash_ok Hs1 Hs2.
  assert (∀ c d, rtc crash_step c d → crash_wf c → Signature d = Signature c) as Hsig.
  { induction 1 as [c|c c' d H12 _ IH]; intros Hwf; [done|].
    destruct (crash_step_wf _ _ H12 Hwf) as [Hwf' (_ & Ho & _)]. rewrite (IH Hwf'). done. }
  pose proof Hwf1 as (_&_&(s1 & Hc1 & Hn1)&_). pose proof Hwf2 as (_&_&(s2 & Hc2 & Hn2)&_).
  rewrite E1 in Hn1. rewrite E2 in Hn2.
  assert (IsDuplicate d1 (Some d2) = String.eqb (SigHash s1) (SigHash s2)) as Hd.
  { unfold IsDuplicate. rewrite (Hsig c1 d1 Hs1), (Hsig c2 d2 Hs2), Hc1, Hc2; done. }
  split; [by exists s1, s2|]. intros Hl1 Hl2. rewrite Hd. apply String.eqb_eq.
  destruct (signature_components _ _ _ Hn1) as (_ & _ & ->). destruct (signature_components _ _ _ Hn2) as (_ & _ & ->).
  by rewrite (nameless_components t1 s1), (nameless_components t2 s2).
Qed.

End crash_theorems.

(** ** Instances *)

Definition digest (s : string) : string := s +:+ "0123456789abcdef".
Definition raw1 : string := "SIGSEGV at" +:+ String newline "#0 0x41414141" +:+ String newline "#1 0x42424242 in abort".
Definition raw2 : string := "#0 0xdeadbeef".
Definition app (name : string) : TargetInfo := mkTarget name "1" "run" "".
Definition crash1 : Crash := match NewCrash digest 1 "A" raw1 (app "x") with Ok c => c | _ => mkCrashEntity "" None "" "" "" "" "" 0 0 0 "" (app "") None false false None [] end.
Definition crash2 : Crash := match NewCrash digest 2 "B" raw2 (app "y") with Ok c => c | _ => crash1 end.

Lemma crash_reachable_wf_witness :
  crash_wf digest (MarkAsFixed 9 (AddTag "t" crash1)) ∧ is_ok (NewCrash digest 1 "A" raw1 (app "x")) = true.
Proof.
  destruct (crash_reachable_wf digest 1 "A" raw1 (app "x")) as (H & Hok & _); [vm_compute; lia|].
  split.
  - apply (H crash1); [vm_compute; reflexivity|].
    eapply rtc_l; [apply step_tag|]. apply rtc_once, step_fixed.
  - apply Hok. split; [done|]. split; [done|]. vm_compute. discriminate.
Defined.

Lemma nameless_crashes_collapse_witness :
  IsDuplicate crash1 (Some crash2) = true ∧ InputHash crash1 ≠ InputHash crash2 ∧ Target crash1 ≠ Target crash2.
Proof.
  split; [|split; vm_compute; discriminate].
  apply (nameless_crashes_collapse digest 1 2 "A" "B" raw1 raw2 (app "x") (app "y") crash1 crash2 crash1 crash2).
  - vm_compute. reflexivity.
  - vm_compute. reflexivity.
  - apply rtc_refl.
  - apply rtc_refl.
  - intros f Hf. apply list_elem_of_In in Hf. vm_compute in Hf. destruct Hf as [<-|[<-|[]]]; split; vm_compute; reflexivity.
  - intros f Hf. apply list_elem_of_In in Hf. vm_compute in Hf. destruct Hf as [<-|[]]; split; vm_compute; reflexivity.
Defined.
