(* ===== verification/Corpus.v ===== *)
(** * Corpus entries and collections: src/pkg/domain/corpus/types

    Entries (entry.go) carry their coverage and a score; a collection
    (collection.go) is a map from entry IDs to entries with an optional bound on
    its size.  A range over the map visits the entries in any order: [iter i j]
    is the order of the [j]-th range of the [i]-th call, and [clock i k] the
    [k]-th reading of the clock in that call.  Scores are binary64 numbers. *)

From stdpp Require Import fin_maps fin_sets gmap list_numbers.
From Stdlib Require Import Lia.
From S2P Require Import Prelude.
Open Scope Z_scope.

Record CoverageInfo := mkCoverage {
  TotalBlocks : Z; CoveredBlocks : Z; TotalEdges : Z; CoveredEdges : Z; CoverageScore : float64;
  NewCoverage : bool; CoverageGained : Z }.
#[export] Instance CoverageInfo_eta : Eta CoverageInfo := fun c =>
  mkCoverage (TotalBlocks c) (CoveredBlocks c) (TotalEdges c) (CoveredEdges c) (CoverageScore c) (NewCoverage c) (CoverageGained c).

Record MutationInfo := mkMutation { ParentID : string; MutationMethod : string; Generation : Z; MutatedAt : Time }.
#[export] Instance MutationInfo_eta : Eta MutationInfo := fun m =>
  mkMutation (ParentID m) (MutationMethod m) (Generation m) (MutatedAt m).

Record CorpusEntry := mkEntry {
  EntryID : string; EntryInput : string; EntryHash : string; EntrySize : Z; EntryCreatedAt : Time;
  LastExecutedAt : option Time; ExecutionCount : Z; EntryCoverage : CoverageInfo; EntryMutation : MutationInfo;
  EntryTags : list string; EntryMetadata : option (gmap string string) }.
#[export] Instance CorpusEntry_eta : Eta CorpusEntry := fun e =>
  mkEntry (EntryID e) (EntryInput e) (EntryHash e) (EntrySize e) (EntryCreatedAt e) (LastExecutedAt e) (ExecutionCount e)
    (EntryCoverage e) (EntryMutation e) (EntryTags e) (EntryMetadata e).

(** ** Entries *)

Definition NewCorpusEntry (sha256_hex : string → string) (now1 now2 : Time) (input : string) : res CorpusEntry :=
  if Nat.eqb (String.length input) 0 then Err (ErrNew "input cannot be empty")
  else
    let hashStr := sha256_hex input in
    let! id := substr hashStr 0 16 in
    Ok (mkEntry id input hashStr (Z.of_nat (String.length input)) now1 None 0
          (mkCoverage 0 0 0 0 f64_zero false 0) (mkMutation "" "" 0 now2) [] (Some ∅)).

Definition NewCorpusEntryWithParent (sha256_hex : string → string) (now1 now2 : Time)
    (input parentID mutationMethod : string) : res CorpusEntry :=
  let! entry := NewCorpusEntry sha256_hex now1 now2 input in
  Ok (entry <| EntryMutation := (EntryMutation entry) <| ParentID := parentID |> <| MutationMethod := mutationMethod |>
              <| Generation := 1 |> |>).

Definition calculateCoverageScore (c : CoverageInfo) : float64 :=
  if (TotalBlocks c =? 0) && (TotalEdges c =? 0) then f64_zero
  else
    let blockScore := f64_div (f64_of_Z (CoveredBlocks c)) (f64_of_Z (TotalBlocks c)) in
    let edgeScore := f64_div (f64_of_Z (CoveredEdges c)) (f64_of_Z (TotalEdges c)) in
    f64_add (f64_mul blockScore (f64_lit 3 10)) (f64_mul edgeScore (f64_lit 7 10)).

Definition UpdateCoverage (coverage : CoverageInfo) (e : CorpusEntry) : CorpusEntry :=
  e <| EntryCoverage := coverage <| CoverageScore := calculateCoverageScore coverage |> |>.
Definition ExecuteEntry (now : Time) (e : CorpusEntry) : CorpusEntry :=
  e <| LastExecutedAt := Some now |> <| ExecutionCount := wrapu64 (ExecutionCount e + 1) |>.
Definition entry_AddTag (tag : string) (e : CorpusEntry) : CorpusEntry :=
  if slice_has tag (EntryTags e) then e else e <| EntryTags := EntryTags e ++ [tag] |>.
Definition entry_RemoveTag (tag : string) (e : CorpusEntry) : CorpusEntry :=
  e <| EntryTags := remove_first tag (EntryTags e) |>.
Definition entry_SetMetadata (key value : string) (e : CorpusEntry) : CorpusEntry :=
  e <| EntryMetadata := Some (<[key := value]> (default ∅ (EntryMetadata e))) |>.
Definition IsInteresting (e : CorpusEntry) : bool :=
  NewCoverage (EntryCoverage e) || (0 <? CoverageGained (EntryCoverage e)).
Definition entry_Age (now : Time) (e : CorpusEntry) : Duration := time_sub now (EntryCreatedAt e).

Definition entry_Validate (e : CorpusEntry) : option goerror :=
  if String.eqb (EntryID e) "" then Some (ErrNew "corpus entry ID cannot be empty")
  else if Nat.eqb (String.length (EntryInput e)) 0 then Some (ErrNew "corpus entry input cannot be empty")
  else if String.eqb (EntryHash e) "" then Some (ErrNew "corpus entry hash cannot be empty")
  else if negb (EntrySize e =? Z.of_nat (String.length (EntryInput e)))
  then Some (ErrNew "corpus entry size does not match input length")
  else None.

Definition score (e : CorpusEntry) : float64 := CoverageScore (EntryCoverage e).

(** ** Collections *)

Abbreviation entry_map := (gmap string CorpusEntry).

Record CorpusCollection := mkCollection {
  entries : entry_map; collectionName : string; description : string; createdAt : Time; maxSize : Z }.
#[export] Instance CorpusCollection_eta : Eta CorpusCollection := fun c =>
  mkCollection (entries c) (collectionName c) (description c) (createdAt c) (maxSize c).

Record CollectionStats := mkCollectionStats {
  TotalEntries : Z; TotalSize : Z; TotalExecutions : Z; AverageCoverage : float64; UniqueEdges : Z;
  InterestingInputs : Z; LastUpdated : Time }.

Definition NewCorpusCollection (now : Time) (name : string) (maxSize : Z) : res CorpusCollection :=
  if String.eqb name "" then Err (ErrNew "collection name cannot be empty")
  else if maxSize <? 0 then Err (ErrNew "max size cannot be negative")
  else Ok (mkCollection ∅ name "" now maxSize).

Section collection.
Variable iter : nat → nat → entry_map → list CorpusEntry.
Variable clock : nat → nat → Time.
Implicit Types (c : CorpusCollection) (i k : nat).

(** The first loop: uninteresting entries with a score of at most the lowest
    so far; the first one is taken, and later ones when they are older. *)
Fixpoint least_loop i (l : list CorpusEntry) (least : option CorpusEntry) (lowest : float64) k : option CorpusEntry :=
  match l with
  | [] => least
  | e :: l =>
      if negb (IsInteresting e) && f64_le (score e) lowest then
        match least with
        | None => least_loop i l (Some e) (score e) k
        | Some b =>
            if entry_Age (clock i (S k)) b <? entry_Age (clock i k) e then least_loop i l (Some e) (score e) (S (S k))
            else least_loop i l least lowest (S (S k))
        end
      else least_loop i l least lowest k
  end.

(** The second loop: entries with a score below the lowest so far. *)
Fixpoint lowest_loop (l : list CorpusEntry) (least : option CorpusEntry) (lowest : float64) : option CorpusEntry :=
  match l with
  | [] => least
  | e :: l => if f64_lt (score e) lowest then lowest_loop l (Some e) (score e) else lowest_loop l least lowest
  end.

(** [j] and [S j] are the numbers of the two ranges in the call. *)
Definition findLeastInteresting i (j : nat) (k : nat) c : option CorpusEntry :=
  match least_loop i (iter i j (entries c)) None (f64_of_Z 1) k with
  | Some e => Some e
  | None => lowest_loop (iter i (S j) (entries c)) None (f64_of_Z 1)
  end.

Definition shouldReplaceEntry i (entry : CorpusEntry) c : bool :=
  if NewCoverage (EntryCoverage entry) then true
  else match findLeastInteresting i 0 0 c with
       | Some least => f64_gt (score entry) (score least)
       | None => false
       end.

(** The clock readings of the second search follow those of the first. *)
Definition removeLeastInteresting i c : CorpusCollection :=
  match findLeastInteresting i 2 (2 * size (entries c)) c with
  | Some e => c <| entries := delete (EntryID e) (entries c) |>
  | None => c
  end.

Definition Add i (entry : option CorpusEntry) c : option goerror * CorpusCollection :=
  match entry with
  | None => (Some (ErrNew "cannot add nil entry to collection"), c)
  | Some entry =>
      match entry_Validate entry with
      | Some err => (Some err, c)
      | None =>
          let full := (0 <? maxSize c) && (maxSize c <=? Z.of_nat (size (entries c))) in
          if full && negb (shouldReplaceEntry i entry c)
          then (Some (ErrNew "corpus collection is full and new entry is not interesting enough"), c)
          else
            let c := if full then removeLeastInteresting i c else c in
            (None, c <| entries := <[EntryID entry := entry]> (entries c) |>)
      end
  end.

Definition Get (id : string) c : option CorpusEntry := entries c !! id.
Definition GetByHash i (hash : string) c : option CorpusEntry :=
  List.find (λ e, String.eqb (EntryHash e) hash) (iter i 0 (entries c)).
Definition RemoveEntry (id : string) c : bool * CorpusCollection :=
  match entries c !! id with
  | Some _ => (true, c <| entries := delete id (entries c) |>)
  | None => (false, c)
  end.
Definition collection_Size c : Z := Z.of_nat (size (entries c)).
Definition IsEmpty c : bool := collection_Size c =? 0.
Definition GetAll i c : list CorpusEntry := iter i 0 (entries c).
Definition GetInteresting i c : list CorpusEntry := List.filter IsInteresting (iter i 0 (entries c)).
Definition GetByTag i (tag : string) c : list CorpusEntry :=
  List.filter (λ e, slice_has tag (EntryTags e)) (iter i 0 (entries c)).

(** [sorted] is what [sort.Slice] makes of the entries. *)
Definition GetTopCoverage (sorted : list CorpusEntry) (n : Z) : res (list CorpusEntry) :=
  slice sorted 0 (Z.min n (Z.of_nat (length sorted))).

(** [for i := 0; i < covered; i++ { edgeSet[i] = true }] *)
Definition mark_edges (covered : Z) (edgeSet : gset Z) : gset Z := edgeSet ∪ list_to_set (seqZ 0 covered).

Definition count_entry (st : CollectionStats * float64 * gset Z) (e : CorpusEntry) : CollectionStats * float64 * gset Z :=
  let '(s, totalCoverage, edgeSet) := st in
  (mkCollectionStats (TotalEntries s) (wrap64 (TotalSize s + EntrySize e)) (wrapu64 (TotalExecutions s + ExecutionCount e))
     (AverageCoverage s) (UniqueEdges s) (if IsInteresting e then wrap64 (InterestingInputs s + 1) else InterestingInputs s)
     (LastUpdated s),
   f64_add totalCoverage (score e), mark_edges (CoveredEdges (EntryCoverage e)) edgeSet).

Definition GetStats i c : CollectionStats :=
  let start := mkCollectionStats (collection_Size c) 0 0 f64_zero 0 0 (clock i 0) in
  let '(s, totalCoverage, edgeSet) := foldl count_entry (start, f64_zero, ∅) (iter i 0 (entries c)) in
  mkCollectionStats (TotalEntries s) (TotalSize s) (TotalExecutions s)
    (if 0 <? TotalEntries s then f64_div totalCoverage (f64_of_Z (TotalEntries s)) else f64_zero)
    (wrapu32 (Z.of_nat (size edgeSet))) (InterestingInputs s) (LastUpdated s).

(** Each [Add] of a merge is a call of its own. *)
Fixpoint merge_loop (i : nat) (l : list CorpusEntry) c : CorpusCollection :=
  match l with
  | [] => c
  | e :: l => merge_loop (S i) l (Add i (Some e) c).2
  end.
Definition Merge i (other : option CorpusCollection) c : option goerror * CorpusCollection :=
  match other with
  | None => (Some (ErrNew "cannot merge nil collection"), c)
  | Some other => (None, merge_loop (S i) (iter i 0 (entries other)) c)
  end.
Definition ClearEntries c : CorpusCollection := c <| entries := ∅ |>.
Definition SetDescription (desc : string) c : CorpusCollection := c <| description := desc |>.

End collection.

(** ** The least interesting entry *)

(** What the first and the second loop can pick. *)
Definition idle (e : CorpusEntry) : Prop := IsInteresting e = false ∧ f64_le (score e) (f64_of_Z 1) = true.
Definition evictable (e : CorpusEntry) : Prop := idle e ∨ f64_lt (score e) (f64_of_Z 1) = true.

(** Every entry is valid and sits under its own ID. *)
Definition collection_wf (c : CorpusCollection) : Prop :=
  ∀ id e, entries c !! id = Some e → EntryID e = id ∧ entry_Validate e = None.

Definition bounded (c : CorpusCollection) : Prop := 0 < maxSize c → collection_Size c ≤ maxSize c.
Definition is_full (c : CorpusCollection) : Prop := 0 < maxSize c ≤ collection_Size c.

Lemma forall_elem_cons {A} (P : A → Prop) x l : (∀ e, e ∈ x :: l → P e) ↔ P x ∧ ∀ e, e ∈ l → P e.
Proof. setoid_rewrite elem_of_cons. naive_solver. Qed.

Lemma lowest_loop_some l least lowest e :
  lowest_loop l least lowest = Some e → e ∈ l ∨ least = Some e.
Proof.
  revert least lowest. induction l as [|x l IH]; intros least lowest; simpl; [by right|].
  rewrite elem_of_cons. case_match; intros [?|E]%IH; try injection E as ->; tauto.
Qed.

Lemma lowest_loop_keeps l least lowest : is_Some least → is_Some (lowest_loop l least lowest).
Proof.
  revert least lowest. induction l as [|x l IH]; intros least lowest H; simpl; [done|]. case_match; by apply IH.
Qed.

Lemma lowest_loop_none l lowest :
  lowest_loop l None lowest = None ↔ ∀ e, e ∈ l → f64_lt (score e) lowest = false.
Proof.
  induction l as [|x l IH]; cbn [lowest_loop]; [split; [by intros _ ? ?%not_elem_of_nil|done]|].
  rewrite forall_elem_cons, <- IH. destruct (f64_lt (score x) lowest) eqn:E; [|tauto].
  destruct (lowest_loop_keeps l (Some x) (score x)) as [? ->]; [done|]. naive_solver.
Qed.

Section least.
Variable iter : nat → nat → entry_map → list CorpusEntry.
Variable clock : nat → nat → Time.
Hypothesis iter_perm : ∀ i j m, iter i j m ≡ₚ (map_to_list m).*2.
Implicit Types (c : CorpusCollection) (i k : nat).

Lemma elem_of_iter i j m e : e ∈ iter i j m ↔ ∃ id, m !! id = Some e.
Proof.
  rewrite (iter_perm i j m), list_elem_of_fmap. split.
  - intros ([id e'] & -> & H%elem_of_map_to_list). by exists id.
  - intros [id H]. exists (id, e). split; [done|]. by apply elem_of_map_to_list.
Qed.

Lemma least_loop_some i l least lowest k e :
  least_loop clock i l least lowest k = Some e → (e ∈ l ∧ IsInteresting e = false) ∨ least = Some e.
Proof.
  revert least lowest k. induction l as [|x l IH]; intros least lowest k; simpl; [by right|].
  rewrite elem_of_cons. destruct (IsInteresting x) eqn:Ex; cbn [negb andb]; [intros [[]|]%IH; tauto|].
  repeat case_match; intros [[]|E]%IH; try injection E as ->; tauto.
Qed.

Lemma least_loop_keeps i l least lowest k : is_Some least → is_Some (least_loop clock i l least lowest k).
Proof.
  revert least lowest k. induction l as [|x l IH]; intros least lowest k H; simpl; [done|].
  repeat case_match; by apply IH.
Qed.

Lemma least_loop_none i l lowest k : least_loop clock i l None lowest k = None ↔
  ∀ e, e ∈ l → IsInteresting e = false → f64_le (score e) lowest = false.
Proof.
  induction l as [|x l IH]; cbn [least_loop]; [split; [by intros _ ? ?%not_elem_of_nil|done]|].
  rewrite forall_elem_cons, <- IH. destruct (IsInteresting x) eqn:Ex; cbn [negb andb]; [naive_solver|].
  destruct (f64_le (score x) lowest) eqn:El; [|naive_solver].
  destruct (least_loop_keeps i l (Some x) (score x) k) as [? ->]; [done|]. naive_solver.
Qed.

(** The search finds an entry exactly when one can be evicted, and takes an
    interesting one only when no uninteresting one scores at most 1. *)
Lemma find_least_spec i j k c :
  match findLeastInteresting iter clock i j k c with
  | Some e => (∃ id, entries c !! id = Some e) ∧ (IsInteresting e = false ∨ ∀ id b, entries c !! id = Some b → ¬ idle b)
  | None => ∀ id e, entries c !! id = Some e → ¬ evictable e
  end.
Proof.
  unfold findLeastInteresting. destruct (least_loop _ _ _ _ _ _) as [e|] eqn:E.
  - apply least_loop_some in E as [[He Hi]|]; [|done]. split; [by eapply elem_of_iter|by left].
  - rewrite least_loop_none in E.
    assert (∀ id b, entries c !! id = Some b → ¬ idle b) as Hidle.
    { intros id b Hb [H1 H2]. rewrite (E b) in H2; [done| |done]. apply elem_of_iter. by exists id. }
    destruct (lowest_loop _ _ _) as [e|] eqn:El.
    + apply lowest_loop_some in El as [He|]; [|done]. split; [by eapply elem_of_iter|by right].
    + rewrite lowest_loop_none in El. intros id e He [H|H]; [by eapply Hidle|].
      rewrite (El e) in H; [done|]. apply elem_of_iter. by exists id.
Qed.

Lemma find_least_none i j k c : findLeastInteresting iter clock i j k c = None ↔
  ∀ id e, entries c !! id = Some e → ¬ evictable e.
Proof.
  split; intros H; [pose proof (find_least_spec i j k c) as Hf; by rewrite H in Hf|].
  unfold findLeastInteresting. rewrite (proj2 (least_loop_none _ _ _ _)).
  - apply lowest_loop_none. intros e [id He]%elem_of_iter. destruct (f64_lt _ _) eqn:E; [|done].
    exfalso. eapply H; [done|by right].
  - intros e [id He]%elem_of_iter Hi. destruct (f64_le _ _) eqn:E; [|done]. exfalso. eapply H; [done|by left].
Qed.

(** What an accepted [Add] does to the map. *)
Lemma add_ok i e c c' : collection_wf c → Add iter clock i (Some e) c = (None, c') →
  entry_Validate e = None ∧ maxSize c' = maxSize c ∧
  ((¬ is_full c ∧ entries c' = <[EntryID e := e]> (entries c)) ∨
   (is_full c ∧ ∃ v, entries c !! EntryID v = Some v ∧
      (IsInteresting v = false ∨ ∀ id b, entries c !! id = Some b → ¬ idle b) ∧
      (¬ ∀ id b, entries c !! id = Some b → ¬ evictable b) ∧
      entries c' = <[EntryID e := e]> (delete (EntryID v) (entries c))) ∨
   (is_full c ∧ NewCoverage (EntryCoverage e) = true ∧ (∀ id b, entries c !! id = Some b → ¬ evictable b) ∧
      entries c' = <[EntryID e := e]> (entries c))).
Proof.
  intros Hwf. unfold Add. destruct (entry_Validate e) eqn:Hv; [done|]. cbv zeta. unfold is_full, collection_Size.
  destruct ((0 <? maxSize c) && (maxSize c <=? Z.of_nat (size (entries c)))) eqn:Ef; cbn [andb].
  - apply andb_true_iff in Ef as [??]. assert (0 < maxSize c ≤ Z.of_nat (size (entries c))) as Hfull by lia.
    destruct (shouldReplaceEntry iter clock i e c) eqn:Es; cbn [negb]; [|done]. intros [= <-].
    split; [done|]. unfold removeLeastInteresting.
    destruct (findLeastInteresting _ _ _ 2 _ _) as [v|] eqn:Ev; (split; [done|]); right; [left|right].
    + pose proof (find_least_spec i 2 (2 * size (entries c)) c) as Hf. rewrite Ev in Hf. destruct Hf as [[id Hid] Hv2].
      split; [done|]. exists v. destruct (Hwf id v Hid) as [<- _]. split_and!; [done..| |done].
      rewrite <- (find_least_none i 2 (2 * size (entries c))), Ev. done.
    + rewrite find_least_none in Ev. split; [done|]. split; [|by split].
      unfold shouldReplaceEntry in Es. destruct (NewCoverage _); [done|].
      by rewrite (proj2 (find_least_none i 0 0 c)) in Es.
  - intros [= <-]. split; [done|]. split; [done|]. left. split; [|done]. intros [??].
    apply andb_false_iff in Ef as [?|?]; lia.
Qed.

(** ** Reachable collections *)

(** The methods of an entry. *)
Inductive entry_step : CorpusEntry → CorpusEntry → Prop :=
  | entry_coverage cov e : entry_step e (UpdateCoverage cov e)
  | entry_execute now e : entry_step e (ExecuteEntry now e)
  | entry_tag tag e : entry_step e (entry_AddTag tag e)
  | entry_untag tag e : entry_step e (entry_RemoveTag tag e)
  | entry_metadata key value e : entry_step e (entry_SetMetadata key value e).

(** The operations of a collection, and the methods of the entries it shares
    with its callers; [P] holds of every entry that comes in or changes. *)
Inductive collection_step (P : CorpusEntry → Prop) : CorpusCollection → CorpusCollection → Prop :=
  | step_add i e c : P e → collection_step P c (Add iter clock i (Some e) c).2
  | step_remove id c : collection_step P c (RemoveEntry id c).2
  | step_clear c : collection_step P c (ClearEntries c)
  | step_describe desc c : collection_step P c (SetDescription desc c)
  | step_merge i other c : (∀ id e, entries other !! id = Some e → P e) →
      collection_step P c (Merge iter clock i (Some other) c).2
  | step_entry id e e' c : entries c !! id = Some e → entry_step e e' → P e' →
      collection_step P c (c <| entries := <[id := e']> (entries c) |>).

Definition entries_are (P : CorpusEntry → Prop) (c : CorpusCollection) : Prop :=
  ∀ id e, entries c !! id = Some e → P e.

Lemma entry_step_same e e' : entry_step e e' → EntryID e' = EntryID e ∧ entry_Validate e' = entry_Validate e.
Proof.
  intros []; try done. unfold entry_AddTag. by destruct (slice_has _ _).
Qed.

Lemma add_preserves (P : CorpusEntry → Prop) i e c :
  collection_wf c → entries_are P c → P e →
  let c' := (Add iter clock i (Some e) c).2 in
  collection_wf c' ∧ entries_are P c' ∧ maxSize c' = maxSize c ∧ ((∀ x, P x → evictable x) → bounded c → bounded c').
Proof.
  intros Hwf HP He. cbv zeta. destruct (Add iter clock i (Some e) c) as [[err|] c'] eqn:E; simpl.
  { unfold Add in E. destruct (entry_Validate e); [by injection E as _ <-|]. cbv zeta in E.
    destruct (_ && negb _); [by injection E as _ <-|done]. }
  apply add_ok in E as (Hv & Hmax & Hc); [|done].
  assert (∀ m : entry_map, m ⊆ entries c → entries c' = <[EntryID e := e]> m → collection_wf c' ∧ entries_are P c') as Hins.
  { intros m Hm Em. split; intros id x; rewrite Em, lookup_insert_Some; intros [[<- <-]|[_ Hx]]; try done.
    - apply Hwf. by eapply lookup_weaken.
    - eapply (HP id). by eapply lookup_weaken. }
  assert (∀ m : entry_map, Z.of_nat (size (<[EntryID e := e]> m)) ≤ Z.of_nat (size m) + 1) as Hsize.
  { intros m. rewrite map_size_insert. destruct (m !! _); simpl; lia. }
  unfold bounded, is_full, collection_Size in *.
  destruct Hc as [[Hf Em]|[(Hf & v & Hvc & _ & _ & Em)|(Hf & _ & Hno & Em)]].
  - destruct (Hins (entries c)) as [??]; [done..|]. split_and!; [done..|]. intros _ Hb Hm.
    rewrite Em, Hmax in *. pose proof (Hsize (entries c)). lia.
  - destruct (Hins (delete (EntryID v) (entries c))) as [??]; [apply delete_subseteq|done|]. split_and!; [done..|].
    intros _ Hb Hm. rewrite Em, Hmax in *. pose proof (Hsize (delete (EntryID v) (entries c))) as Hs.
    rewrite map_size_delete, Hvc in Hs. simpl in Hs. lia.
  - destruct (Hins (entries c)) as [??]; [done..|]. split_and!; [done..|]. intros HPe _ Hm.
    exfalso. destruct (map_choose (entries c)) as (id & x & Hx); [|by eapply Hno, HPe, HP].
    intros Hempty. rewrite Hempty, map_size_empty in Hf. lia.
Qed.

Lemma merge_preserves (P : CorpusEntry → Prop) l : (∀ e, e ∈ l → P e) → ∀ i c,
  collection_wf c → entries_are P c →
  let c' := merge_loop iter clock i l c in
  collection_wf c' ∧ entries_are P c' ∧ maxSize c' = maxSize c ∧ ((∀ x, P x → evictable x) → bounded c → bounded c').
Proof.
  induction l as [|e l IH]; intros Hl i c Hwf HP; [done|]. apply forall_elem_cons in Hl as [He Hl]. cbn [merge_loop].
  destruct (add_preserves P i e c Hwf HP He) as (H1 & H2 & H3 & H4).
  destruct (IH Hl (S i) _ H1 H2) as (H5 & H6 & H7 & H8). split_and!; [done..|congruence|auto].
Qed.

Lemma collection_step_preserves (P : CorpusEntry → Prop) c c' : collection_step P c c' →
  collection_wf c → entries_are P c →
  collection_wf c' ∧ entries_are P c' ∧ maxSize c' = maxSize c ∧ ((∀ x, P x → evictable x) → bounded c → bounded c').
Proof.
  intros Hstep Hwf HP. destruct Hstep as [i e c He|id c|c|desc c|i other c Ho|id e e' c He Hee HPe].
  - by apply add_preserves.
  - unfold RemoveEntry. destruct (entries c !! id) as [x|] eqn:Ex; [|done]. simpl.
    assert (delete id (entries c) ⊆ entries c) as Hsub by apply delete_subseteq.
    split_and!; [intros k y Hy; eapply Hwf, lookup_weaken; done|intros k y Hy; eapply HP, lookup_weaken; done|done|].
    unfold bounded, collection_Size. simpl. intros _ Hb Hm. rewrite map_size_delete, Ex. simpl. specialize (Hb Hm). lia.
  - split_and!; [done..|]. intros _ _ Hm. unfold collection_Size. simpl in *. rewrite map_size_empty. lia.
  - done.
  - apply merge_preserves; [|done..]. intros e [id He]%elem_of_iter. by eapply Ho.
  - destruct (entry_step_same _ _ Hee) as [E1 E2]. destruct (Hwf id e He) as [Hid Hv].
    split_and!; simpl.
    + intros k y. simpl. rewrite lookup_insert_Some. intros [[<- <-]|[_ Hy]]; [split; congruence|by apply Hwf].
    + intros k y. simpl. rewrite lookup_insert_Some. intros [[<- <-]|[_ Hy]]; [done|by eapply HP].
    + done.
    + unfold bounded, collection_Size. simpl. intros _ Hb Hm. rewrite map_size_insert, He. simpl. by apply Hb.
Qed.

(** C13: in every collection reached from a new one, whatever order the map is
    visited in and whatever the clock shows, every entry is valid and stored
    under its own ID.  If every entry that comes in or changes scores below 1,
    or is uninteresting and scores at most 1, the collection never outgrows its
    maximum size; a merge adds entries one by one and respects it too. *)
Theorem collection_reachable (P : CorpusEntry → Prop) now name max c0 c :
  NewCorpusCollection now name max = Ok c0 → rtc (collection_step P) c0 c →
  collection_wf c ∧ maxSize c = max ∧
  ((∀ e, P e → evictable e) → 0 < max → collection_Size c ≤ max).
Proof.
  unfold NewCorpusCollection. destruct (String.eqb name ""); [done|]. destruct (max <? 0); [done|]. intros [= <-] Hsteps.
  assert (∀ c1 c2, rtc (collection_step P) c1 c2 → collection_wf c1 → entries_are P c1 →
    collection_wf c2 ∧ maxSize c2 = maxSize c1 ∧ ((∀ x, P x → evictable x) → bounded c1 → bounded c2)) as H.
  { induction 1 as [c1|c1 c2 c3 H12 _ IH]; [done|]. intros Hwf HP.
    destruct (collection_step_preserves P c1 c2 H12 Hwf HP) as (H1 & H2 & H3 & H4).
    destruct (IH H1 H2) as (H5 & H6 & H7). split_and!; [done|congruence|auto]. }
  destruct (H _ _ Hsteps) as (H1 & H2 & H3); [by intros ?? ?..|]. simpl in H2. split_and!; [done|done|].
  intros HP Hm. rewrite <- H2 in *. apply H3; [done| |done]. intros _. unfold collection_Size. simpl.
  rewrite map_size_empty. lia.
Qed.

(** What adding to a full collection does.  A refused entry changes
    nothing.  An accepted one evicts an entry, an interesting one only when no
    uninteresting entry scores at most 1; the size stays, but drops by one when
    the entry replaces a stored one of the same ID that is not the evicted one.
    If no entry can be evicted, an entry with new coverage still comes in and
    the collection grows past its maximum. *)
Theorem add_when_full i e c :
  collection_wf c → is_full c →
  match Add iter clock i (Some e) c with
  | (Some _, c') => c' = c
  | (None, c') =>
      entries c' !! EntryID e = Some e ∧
      ((∃ v, entries c !! EntryID v = Some v ∧
          (IsInteresting v = false ∨ ∀ id b, entries c !! id = Some b → ¬ idle b) ∧
          entries c' = <[EntryID e := e]> (delete (EntryID v) (entries c)) ∧
          collection_Size c' =
            if decide (EntryID e ≠ EntryID v ∧ is_Some (entries c !! EntryID e))
            then collection_Size c - 1 else collection_Size c) ∨
       (NewCoverage (EntryCoverage e) = true ∧ (∀ id b, entries c !! id = Some b → ¬ evictable b) ∧
        (entries c !! EntryID e = None → collection_Size c' = collection_Size c + 1 ∧ maxSize c' < collection_Size c')))
  end.
Proof.
  intros Hwf Hfull. destruct (Add iter clock i (Some e) c) as [[err|] c'] eqn:E.
  { unfold Add in E. destruct (entry_Validate e); [by injection E|]. cbv zeta in E. by destruct (_ && negb _); injection E. }
  apply add_ok in E as (_ & Hmax & [[? _]|[(_ & v & Hv & Hb & _ & Em)|(_ & Hn & Hno & Em)]]); [done| | |done].
  - split; [by rewrite Em, lookup_insert_eq|]. left. exists v. split_and!; [done..|].
    unfold collection_Size. rewrite Em, map_size_insert, map_size_delete, Hv. unfold is_full, collection_Size in Hfull.
    case_decide as Hd.
    + destruct Hd as [Hne Hin]. rewrite lookup_delete_ne by done. destruct (entries c !! EntryID e); [simpl; lia|by destruct Hin].
    + destruct (decide (EntryID e = EntryID v)) as [->|Hne]; [rewrite lookup_delete_eq; simpl; lia|].
      rewrite lookup_delete_ne by done. destruct (entries c !! EntryID e) eqn:Ee; [exfalso; apply Hd; by split|]. simpl. lia.
  - split; [by rewrite Em, lookup_insert_eq|]. right. split_and!; [done..|]. intros He. unfold is_full, collection_Size in *.
    rewrite Em, map_size_insert, He. simpl. lia.
Qed.

(** Coverage of edges alone, as tools that do not count blocks report it. *)
Definition edge_only (cov : CoverageInfo) : Prop := TotalBlocks cov = 0 ∧ CoveredBlocks cov = 0 ∧ TotalEdges cov ≠ 0.

Lemma edge_only_nan cov : edge_only cov → calculateCoverageScore cov = S754_nan.
Proof.
  intros (E1 & E2 & E3). unfold calculateCoverageScore. rewrite E1, E2, (proj2 (Z.eqb_neq _ _) E3). simpl.
  unfold f64_add, f64_mul. change (f64_div (f64_of_Z 0) (f64_of_Z 0)) with S754_nan. done.
Qed.

Lemma nan_not_evictable e : score e = S754_nan → ¬ evictable e.
Proof. intros E [[_ H]|H]; rewrite E in H; done. Qed.

(** Coverage of edges alone scores 0/0, which is no number and compares
    below nothing.  So entries with such coverage are never evicted: however
    small the maximum size, every entry with new coverage that is added stays,
    and the collection grows without bound. *)
Theorem edge_coverage_grows now name max c0 i es :
  NewCorpusCollection now name max = Ok c0 →
  NoDup (EntryID <$> es) →
  (∀ e, e ∈ es → entry_Validate e = None ∧
     ∃ e0 cov, e = UpdateCoverage cov e0 ∧ edge_only cov ∧ NewCoverage cov = true) →
  collection_Size (merge_loop iter clock i es c0) = Z.of_nat (length es) ∧
  ∀ e, e ∈ es → entries (merge_loop iter clock i es c0) !! EntryID e = Some e.
Proof.
  unfold NewCorpusCollection. destruct (String.eqb name ""); [done|]. destruct (max <? 0); [done|]. intros [= <-] Hnd Hes.
  assert (∀ l i c, collection_wf c → entries_are (λ e, score e = S754_nan) c → NoDup (EntryID <$> l) →
    (∀ e, e ∈ l → entries c !! EntryID e = None) → (∀ e, e ∈ l → e ∈ es) →
    collection_Size (merge_loop iter clock i l c) = collection_Size c + Z.of_nat (length l) ∧
    (∀ e, e ∈ l → entries (merge_loop iter clock i l c) !! EntryID e = Some e) ∧
    entries c ⊆ entries (merge_loop iter clock i l c)) as H.
  { induction l as [|e l IH]; intros j c Hwf Hnan Hl Hfresh Hin.
    { cbn [merge_loop]. split_and!; [simpl; lia|by intros ? ?%not_elem_of_nil|done]. }
    cbn [merge_loop]. apply forall_elem_cons in Hfresh as [He Hfresh]. apply forall_elem_cons in Hin as [Hee Hin].
    rewrite fmap_cons in Hl. apply NoDup_cons in Hl as [Hnew Hl].
    destruct (Hes e Hee) as (Hv & e0 & cov & E0 & Hedge & Hc).
    assert (score e = S754_nan) as Hs by (rewrite E0; by apply edge_only_nan).
    assert (NewCoverage (EntryCoverage e) = true) as Hn by by rewrite E0.
    destruct (add_preserves (λ e, score e = S754_nan) j e c Hwf Hnan Hs) as (Hwf' & Hnan' & _ & _).
    destruct (Add iter clock j (Some e) c) as [[err|] c'] eqn:Ea.
    { unfold Add, shouldReplaceEntry in Ea. rewrite Hv, Hn in Ea. cbn [negb] in Ea. by rewrite andb_false_r in Ea. }
    simpl in Hwf', Hnan' |- *.
    assert (entries c' = <[EntryID e := e]> (entries c)) as Em.
    { apply add_ok in Ea as (_ & _ & [[_ Em]|[(_ & v & _ & _ & Hev & _)|(_ & _ & _ & Em)]]); [done| |done|done].
      exfalso. apply Hev. intros id b Hb. by eapply nan_not_evictable, Hnan. }
    destruct (IH (S j) c' Hwf' Hnan' Hl) as (H1 & H2 & H3); [|done|].
    { intros x Hx. rewrite Em, lookup_insert_ne; [by apply Hfresh|]. intros Ex. apply Hnew. rewrite Ex. by apply list_elem_of_fmap_2. }
    assert (entries c ⊆ entries c') as Hsub by (rewrite Em; by apply insert_subseteq).
    split_and!.
    - rewrite H1. unfold collection_Size. rewrite Em, map_size_insert, He. cbn [length]. lia.
    - apply forall_elem_cons. split; [|done]. eapply lookup_weaken; [|exact H3]. by rewrite Em, lookup_insert_eq.
    - by etrans. }
  destruct (H es i (mkCollection ∅ name "" now max)) as (H1 & H2 & _); [by intros ?? ?|by intros ?? ?|done|done|done|].
  rewrite H1. unfold collection_Size. cbn [entries]. rewrite map_size_empty. done.
Qed.

End least.

(** ** The victim depends on the order of the map

    With two evictable entries, one older and the other scoring lower, the
    search returns the one that the range visits first, not the one of lowest
    coverage. *)
Lemma victim_depends_on_order clock (iter1 iter2 : nat → nat → entry_map → list CorpusEntry) i j k a b c :
  iter1 i j (entries c) = [a; b] → iter2 i j (entries c) = [b; a] →
  idle a → idle b → f64_le (score a) (score b) = false →
  (∀ t u, entry_Age (clock i u) b ≤ entry_Age (clock i t) a) →
  findLeastInteresting iter1 clock i j k c = Some a ∧ findLeastInteresting iter2 clock i j k c = Some b.
Proof.
  intros E1 E2 [Ha1 Ha2] [Hb1 Hb2] Hab Hage. unfold findLeastInteresting. rewrite E1, E2. cbn [least_loop].
  rewrite Ha1, Ha2, Hb1, Hb2, Hab. cbn [negb andb]. split; [|done].
  assert ((entry_Age (clock i (S k)) a <? entry_Age (clock i k) b) = false) as -> by (apply Z.ltb_ge; apply Hage).
  by destruct (f64_le (score b) (score a)).
Qed.

(** ** Statistics *)

Definition Zsum (f : CorpusEntry → Z) (l : list CorpusEntry) : Z := foldr (λ e acc, f e + acc) 0 l.
Definition Zmaximum (f : CorpusEntry → Z) (l : list CorpusEntry) : Z := foldr (λ e acc, Z.max (f e) acc) 0 l.

Lemma Zsum_perm f l1 l2 : l1 ≡ₚ l2 → Zsum f l1 = Zsum f l2.
Proof. unfold Zsum. induction 1; simpl; lia. Qed.
Lemma Zmaximum_perm f l1 l2 : l1 ≡ₚ l2 → Zmaximum f l1 = Zmaximum f l2.
Proof. unfold Zmaximum. induction 1; simpl; lia. Qed.


Lemma wrap64_idemp a : wrap64 (wrap64 a) = wrap64 a.
Proof. apply wrap64_id, wrap64_range. Qed.
Lemma wrapu64_idemp a : wrapu64 (wrapu64 a) = wrapu64 a.
Proof. apply wrapu64_id, wrapu64_range. Qed.

Definition edges_of (e : CorpusEntry) : Z := CoveredEdges (EntryCoverage e).

Lemma seqZ_union a b : 0 ≤ a → 0 ≤ b →
  (list_to_set (seqZ 0 a) ∪ list_to_set (seqZ 0 b) : gset Z) = list_to_set (seqZ 0 (Z.max a b)).
Proof.
  intros Ha Hb. apply leibniz_equiv. intros x. rewrite elem_of_union, !elem_of_list_to_set, !elem_of_seqZ. lia.
Qed.

Lemma foldl_count s t n l : 0 ≤ n → (∀ e, e ∈ l → 0 ≤ edges_of e) →
  TotalSize s = wrap64 (TotalSize s) → TotalExecutions s = wrapu64 (TotalExecutions s) →
  InterestingInputs s = wrap64 (InterestingInputs s) →
  let '(s', _, edgeSet) := foldl count_entry (s, t, list_to_set (seqZ 0 n)) l in
  TotalEntries s' = TotalEntries s ∧ TotalSize s' = wrap64 (TotalSize s + Zsum EntrySize l) ∧
  TotalExecutions s' = wrapu64 (TotalExecutions s + Zsum ExecutionCount l) ∧
  InterestingInputs s' = wrap64 (InterestingInputs s + Z.of_nat (length (List.filter IsInteresting l))) ∧
  edgeSet = list_to_set (seqZ 0 (Z.max n (Zmaximum edges_of l))).
Proof.
  revert s t n. induction l as [|e l IH]; intros s t n Hn Hl H1 H2 H3.
  { simpl. rewrite !Z.add_0_r, Z.max_l by done. done. }
  apply forall_elem_cons in Hl as [He Hl]. cbn [foldl]. unfold count_entry at 2. unfold mark_edges.
  fold (edges_of e). rewrite seqZ_union by done.
  specialize (IH (mkCollectionStats (TotalEntries s) (wrap64 (TotalSize s + EntrySize e))
    (wrapu64 (TotalExecutions s + ExecutionCount e)) (AverageCoverage s) (UniqueEdges s)
    (if IsInteresting e then wrap64 (InterestingInputs s + 1) else InterestingInputs s) (LastUpdated s))
    (f64_add t (score e)) (Z.max n (edges_of e))).
  destruct (foldl _ _ l) as [[s' t'] E]. destruct IH as (E1 & E2 & E3 & E4 & E5); simpl in *; [lia|done| | | |].
  - by rewrite wrap64_idemp.
  - by rewrite wrapu64_idemp.
  - destruct (IsInteresting e); [|done]. by rewrite wrap64_idemp.
  - rewrite E1, E2, E3, E4, E5, wrap64_add, wrapu64_add. split_and!; [done|f_equal; lia|f_equal; lia| |do 2 f_equal; lia].
    destruct (IsInteresting e); cbn [length]; [rewrite wrap64_add|]; f_equal; lia.
Qed.

Section stats.
Variable iter : nat → nat → entry_map → list CorpusEntry.
Variable clock : nat → nat → Time.
Hypothesis iter_perm : ∀ i j m, iter i j m ≡ₚ (map_to_list m).*2.

(** Whatever order the map is visited in, the statistics are the number of
    entries, the sums of their sizes and executions in machine arithmetic, the
    number of interesting ones, and the largest number of covered edges of one
    entry: the set of edge numbers that the loops build is the largest initial
    segment, not the union of distinct edges. *)
Theorem stats_exact i c :
  let all := (map_to_list (entries c)).*2 in
  (∀ e, e ∈ all → 0 ≤ edges_of e < 2 ^ 32) →
  let s := GetStats iter clock i c in
  TotalEntries s = Z.of_nat (size (entries c)) ∧
  TotalSize s = wrap64 (Zsum EntrySize all) ∧
  TotalExecutions s = wrapu64 (Zsum ExecutionCount all) ∧
  InterestingInputs s = wrap64 (Z.of_nat (length (List.filter IsInteresting all))) ∧
  UniqueEdges s = Zmaximum edges_of all.
Proof.
  intros all Hall s. pose proof (iter_perm i 0 (entries c)) as Hp. fold all in Hp.
  subst s. unfold GetStats.
  pose proof (foldl_count (mkCollectionStats (collection_Size c) 0 0 f64_zero 0 0 (clock i 0)) f64_zero 0 (iter i 0 (entries c))) as Hf.
  change (list_to_set (seqZ 0 0) : gset Z) with (∅ : gset Z) in Hf.
  destruct (foldl _ _ _) as [[s t] E].
  destruct Hf as (E1 & E2 & E3 & E4 & E5); [done|intros e He; rewrite Hp in He; by apply Hall|done..|]. simpl in *.
  rewrite E1, E2, E3, E4, E5, (Zsum_perm EntrySize _ _ Hp), (Zsum_perm ExecutionCount _ _ Hp), (Zmaximum_perm _ _ _ Hp).
  split_and!; [done..| |].
  - rewrite Z.add_0_l. do 2 f_equal. by apply length_filter_perm.
  - assert (0 ≤ Zmaximum edges_of all < 2 ^ 32) as Hm.
    { clear -Hall. induction all as [|x l IH]; [done|]. apply forall_elem_cons in Hall as [Hx Hl].
      specialize (IH Hl). simpl. lia. }
    rewrite Z.max_r by lia. rewrite size_list_to_set by apply NoDup_seqZ. rewrite length_seqZ, Z2Nat.id by lia.
    unfold wrapu32. by apply Z.mod_small.
Qed.

End stats.

(** ** Instances *)

Definition in_order (_ _ : nat) (m : entry_map) : list CorpusEntry := (map_to_list m).*2.
Definition still (_ _ : nat) : Time := 100.
Definition edges (covered : Z) (new : bool) : CoverageInfo := mkCoverage 0 0 10 covered f64_zero new 0.
Definition full_coverage (covered : Z) : CoverageInfo := mkCoverage 10 covered 10 covered f64_zero false 0.
Definition an_entry (id : string) (cov : CoverageInfo) : CorpusEntry :=
  UpdateCoverage cov (mkEntry id "x" id 1 0 None 0 (mkCoverage 0 0 0 0 f64_zero false 0) (mkMutation "" "" 0 0) [] None).
Definition small : CorpusCollection := mkCollection ∅ "small" "" 0 1.
Definition holding : CorpusCollection := (Add in_order still 0 (Some (an_entry "a" (full_coverage 5))) small).2.

Lemma collection_reachable_witness : collection_wf holding ∧ collection_Size holding ≤ 1.
Proof.
  destruct (collection_reachable in_order still (λ _ _ _, reflexivity _) (λ e, e = an_entry "a" (full_coverage 5))
    0 "small" 1 small holding) as (H1 & H2 & H3); [reflexivity|by apply rtc_once, step_add|].
  split; [exact H1|]. apply H3; [|done]. intros e ->. right. vm_compute. reflexivity.
Defined.

Lemma add_when_full_witness :
  is_full holding ∧ collection_Size (Add in_order still 1 (Some (an_entry "b" (edges 3 true))) holding).2 = 1.
Proof.
  assert (is_full holding) as Hf by (vm_compute; split; [done|intros ?; discriminate]).
  assert (collection_wf holding) as Hwf by apply collection_reachable_witness.
  split; [exact Hf|].
  pose proof (add_when_full in_order still (λ _ _ _, reflexivity _) 1 (an_entry "b" (edges 3 true)) holding Hwf Hf) as H.
  destruct (Add in_order still 1 (Some (an_entry "b" (edges 3 true))) holding) as [[err|] c'] eqn:E;
    [vm_compute in E; discriminate|].
  destruct H as (_ & [(v & Hv & _ & _ & Hs)|(_ & Hno & _)]).
  - simpl. rewrite Hs. rewrite decide_False; [reflexivity|]. intros [_ Hin]. vm_compute in Hin. by destruct Hin.
  - exfalso. apply (Hno "a" (an_entry "a" (full_coverage 5))); [vm_compute; reflexivity|]. right. vm_compute. reflexivity.
Defined.

Lemma edge_coverage_grows_witness :
  collection_Size (merge_loop in_order still 0 [an_entry "a" (edges 1 true); an_entry "b" (edges 2 true)] small) = 2.
Proof.
  apply (edge_coverage_grows in_order still (λ _ _ _, reflexivity _) 0 "small" 1 small); [reflexivity| |].
  - apply NoDup_ListNoDup. constructor; [|constructor; [|constructor]]; simpl; [|tauto]. intros [E|[]]. discriminate.
  - intros e He. apply list_elem_of_In in He. destruct He as [<-|[<-|[]]]; (split; [reflexivity|]).
    + eexists _, (edges 1 true). split; [reflexivity|]. by split_and!.
    + eexists _, (edges 2 true). split; [reflexivity|]. by split_and!.
Defined.

Lemma stats_exact_witness : UniqueEdges (GetStats in_order still 0 holding) = 5.
Proof.
  destruct (stats_exact in_order still (λ _ _ _, reflexivity _) 0 holding) as (_ & _ & _ & _ & H).
  - intros e He. apply list_elem_of_In in He. vm_compute in He. destruct He as [<-|[]]. vm_compute. split; [intros ?; discriminate|reflexivity].
  - rewrite H. vm_compute. reflexivity.
Defined.
