(* ===== verification/CampaignStore.v ===== *)
(** * Campaigns and their storage: src/pkg/common/types.go, src/pkg/storage/campaign_queries.go

    The campaign record, the columns [UpdateCampaign] knows, and the storage as
    the services see it: a class of operations that can fail, with the laws
    that tie their success to a view of campaigns, jobs and links. *)

From Stdlib Require Import Lia.
From S2P Require Import Prelude MasterTypes.

Abbreviation CampaignStatus := string (only parsing).
Definition CampaignStatusPending : CampaignStatus := "pending".
Definition CampaignStatusRunning : CampaignStatus := "running".
Definition CampaignStatusCompleted : CampaignStatus := "completed".
Definition CampaignStatusFailed : CampaignStatus := "failed".
Definition CampaignStatusPaused : CampaignStatus := "paused".
Definition CampaignStatusCancelled : CampaignStatus := "cancelled".

Record Campaign := mkCampaign {
  CampID : string; CampName : string; CampDescription : string; CampStatus : CampaignStatus; TargetBinary : string;
  BinaryHash : string; CampCreatedAt : Time; CampUpdatedAt : Time; CampCompletedAt : option Time; AutoRestart : bool;
  MaxDuration : Duration; MaxJobs : Z; JobTemplate : JobConfig; SharedCorpus : bool; CampTags : list string }.
#[export] Instance Campaign_eta : Eta Campaign := fun c =>
  mkCampaign (CampID c) (CampName c) (CampDescription c) (CampStatus c) (TargetBinary c) (BinaryHash c) (CampCreatedAt c)
    (CampUpdatedAt c) (CampCompletedAt c) (AutoRestart c) (MaxDuration c) (MaxJobs c) (JobTemplate c) (SharedCorpus c)
    (CampTags c).

(** The values found in an update map, by their dynamic type. *)
Inductive update_value :=
  | UString (s : string) | UBool (b : bool) | UInt (z : Z) | UDuration (d : Duration) | UStrings (l : list string)
  | UTime (t : Time) | UTimePtr (t : option Time) | UNil.

(** [int64(d.Seconds())], back in nanoseconds as [GetCampaign] reads it. *)
Definition whole_seconds (d : Duration) : Duration :=
  let seconds := f64_add (f64_of_Z (Z.quot d Second)) (f64_div (f64_of_Z (Z.rem d Second)) (f64_of_Z Second)) in
  wrap64 (f64_to_int64 seconds * Second).

(** One case of the switch of [UpdateCampaign].  A completion time is kept only
    when it comes as a non-nil pointer; any other value clears the column.
    Durations are stored in whole seconds. *)
Definition update_field (field : string) (value : update_value) (c : Campaign) : Campaign :=
  match value with
  | UString s =>
      if String.eqb field "name" then c <| CampName := s |>
      else if String.eqb field "description" then c <| CampDescription := s |>
      else if String.eqb field "status" then c <| CampStatus := s |>
      else if String.eqb field "target_binary" then c <| TargetBinary := s |>
      else if String.eqb field "binary_hash" then c <| BinaryHash := s |>
      else if String.eqb field "completed_at" then c <| CampCompletedAt := None |>
      else c
  | UBool b =>
      if String.eqb field "auto_restart" then c <| AutoRestart := b |>
      else if String.eqb field "shared_corpus" then c <| SharedCorpus := b |>
      else c
  | UInt z => if String.eqb field "max_jobs" then c <| MaxJobs := z |> else c
  | UDuration d => if String.eqb field "max_duration" then c <| MaxDuration := whole_seconds d |> else c
  | UStrings l => if String.eqb field "tags" then c <| CampTags := l |> else c
  | UTimePtr (Some t) => if String.eqb field "completed_at" then c <| CampCompletedAt := Some t |> else c
  | UTimePtr None | UTime _ | UNil => if String.eqb field "completed_at" then c <| CampCompletedAt := None |> else c
  end.

(** An update map, as the pairs of its keys and values. *)
Definition updates := list (string * update_value).
Definition apply_updates (u : updates) (c : Campaign) : Campaign := foldl (λ c fv, update_field fv.1 fv.2 c) c u.

(** ** The storage the services are given *)

(** What the storage holds: campaigns, jobs, and the jobs linked to each
    campaign, in the order of their links. *)
Record StoreView := mkView {
  v_campaigns : gmap string Campaign; v_jobs : gmap string MJob; v_links : list (string * string) }.

Definition linked_jobs (v : StoreView) (id : string) : list MJob :=
  omap (λ l, if String.eqb l.1 id then v_jobs v !! l.2 else None) (v_links v).

(** The operations of [common.Storage] and [common.JobService] the campaign
    services call.  A read that fails changes nothing. *)
Class CampaignStorage (S : Type) := {
  GetCampaign : S → string → Campaign + goerror;
  ListCampaigns : S → Z → Z → string → list Campaign + goerror;
  GetCampaignJobs : S → string → list MJob + goerror;
  CreateCampaign : S → Campaign → option goerror * S;
  UpdateCampaign : S → string → updates → option goerror * S;
  DeleteCampaign : S → string → option goerror * S;
  LinkJobToCampaign : S → string → string → option goerror * S;
  js_CreateJob : S → MJob → option goerror * S;
  js_UpdateJobStatus : S → string → MJobStatus → option goerror * S;
  view : S → StoreView }.

(** What [CreateCampaign] stores: there is no column for a completion time. *)
Definition inserted (c : Campaign) : Campaign :=
  c <| CampCompletedAt := None |> <| MaxDuration := whole_seconds (MaxDuration c) |>.

(** What an update leaves of a campaign: the fields given, and a new time of
    update set by the database. *)
Definition updated (u : updates) (c c' : Campaign) : Prop := ∃ t, c' = apply_updates u (c <| CampUpdatedAt := t |>).

Class CampaignStorageLaws (S : Type) `{CampaignStorage S} : Prop := {
  get_campaign s id c : GetCampaign s id = inl c → v_campaigns (view s) !! id = Some c;
  get_campaign_jobs s id l : GetCampaignJobs s id = inl l → l ≡ₚ linked_jobs (view s) id;
  list_campaigns s limit offset status l : ListCampaigns s limit offset status = inl l →
    ∀ c, c ∈ l → v_campaigns (view s) !! CampID c = Some c;
  create_ok s c s' : CreateCampaign s c = (None, s') →
    v_campaigns (view s) !! CampID c = None ∧
    view s' = mkView (<[CampID c := inserted c]> (v_campaigns (view s))) (v_jobs (view s)) (v_links (view s));
  create_fails s c s' e : CreateCampaign s c = (Some e, s') → view s' = view s;
  update_ok s id u s' : u ≠ [] → UpdateCampaign s id u = (None, s') →
    ∃ c c', v_campaigns (view s) !! id = Some c ∧ updated u c c' ∧
      view s' = mkView (<[id := c']> (v_campaigns (view s))) (v_jobs (view s)) (v_links (view s));
  update_nothing s id : UpdateCampaign s id [] = (None, s);
  update_fails s id u s' e : UpdateCampaign s id u = (Some e, s') → view s' = view s;
  delete_ok s id s' : DeleteCampaign s id = (None, s') →
    is_Some (v_campaigns (view s) !! id) ∧ v_campaigns (view s') = delete id (v_campaigns (view s)) ∧
    v_jobs (view s') = v_jobs (view s);
  delete_fails s id s' e : DeleteCampaign s id = (Some e, s') → view s' = view s;
  link_ok s cid jid s' : LinkJobToCampaign s cid jid = (None, s') →
    view s' = mkView (v_campaigns (view s)) (v_jobs (view s)) (v_links (view s) ++ [(cid, jid)]);
  link_fails s cid jid s' e : LinkJobToCampaign s cid jid = (Some e, s') → view s' = view s;
  create_job_ok s j s' : js_CreateJob s j = (None, s') →
    v_jobs (view s) !! JobID j = None ∧
    view s' = mkView (v_campaigns (view s)) (<[JobID j := j]> (v_jobs (view s))) (v_links (view s));
  create_job_fails s j s' e : js_CreateJob s j = (Some e, s') → view s' = view s;
  update_job_ok s id st s' : js_UpdateJobStatus s id st = (None, s') →
    ∃ j, v_jobs (view s) !! id = Some j ∧
      view s' = mkView (v_campaigns (view s)) (<[id := j <| JobState := st |>]> (v_jobs (view s))) (v_links (view s));
  update_job_fails s id st s' e : js_UpdateJobStatus s id st = (Some e, s') → view s' = view s }.

(** A storage in good health: every operation whose subject exists succeeds. *)
Class ReliableStorage (S : Type) `{CampaignStorage S} : Prop := {
  reliable_get s id c : v_campaigns (view s) !! id = Some c → GetCampaign s id = inl c;
  reliable_jobs s id : ∃ l, GetCampaignJobs s id = inl l;
  reliable_update s id u : is_Some (v_campaigns (view s) !! id) → (UpdateCampaign s id u).1 = None;
  reliable_link s cid jid : (LinkJobToCampaign s cid jid).1 = None;
  reliable_create_job s j : v_jobs (view s) !! JobID j = None → (js_CreateJob s j).1 = None }.

(** Every link leads to a job. *)
Definition links_ok (v : StoreView) : Prop := ∀ l, l ∈ v_links v → is_Some (v_jobs v !! l.2).

(** ** Facts about updates and links *)

Lemma apply_updates_app u1 u2 c : apply_updates (u1 ++ u2) c = apply_updates u2 (apply_updates u1 c).
Proof. apply foldl_app. Qed.

Ltac update_field_cases := unfold update_field; repeat case_match; try done.

Lemma update_field_status field value c :
  CampStatus (update_field field value c) =
    match value with UString s => if String.eqb field "status" then s else CampStatus c | _ => CampStatus c end.
Proof. update_field_cases; subst; by go_str. Qed.

Lemma update_field_id field value c : CampID (update_field field value c) = CampID c.
Proof. update_field_cases. Qed.

Lemma apply_updates_id u c : CampID (apply_updates u c) = CampID c.
Proof.
  unfold apply_updates. revert c. induction u as [|[f v] u IH]; intros c; simpl; [done|]. by rewrite IH, update_field_id.
Qed.

Lemma apply_updates_status u c : (∀ fv, fv ∈ u → fv.1 ≠ "status") → CampStatus (apply_updates u c) = CampStatus c.
Proof.
  unfold apply_updates. revert c. induction u as [|[f v] u IH]; intros c Hu; simpl; [done|].
  rewrite IH by (intros fv Hfv; apply Hu; by right). rewrite update_field_status.
  destruct v; try done. destruct (String.eqb_spec f "status") as [->|]; [|done].
  exfalso. by apply (Hu ("status", UString s)); [left|].
Qed.

Lemma linked_jobs_link v cid jid j : v_jobs v !! jid = Some j →
  linked_jobs (mkView (v_campaigns v) (v_jobs v) (v_links v ++ [(cid, jid)])) cid = linked_jobs v cid ++ [j].
Proof.
  intros Hj. unfold linked_jobs. simpl. rewrite omap_app. simpl. by rewrite String.eqb_refl, Hj.
Qed.

Lemma linked_jobs_insert v m id j cid : links_ok v → v_jobs v !! id = None →
  linked_jobs (mkView m (<[id := j]> (v_jobs v)) (v_links v)) cid = linked_jobs v cid.
Proof.
  intros Hl Hid. unfold linked_jobs. cbn [v_jobs v_links]. apply list_omap_ext, Forall_Forall2_diag, Forall_forall.
  intros l Hin. destruct (String.eqb l.1 cid); [|done]. rewrite lookup_insert_ne; [done|].
  intros E. destruct (Hl l Hin) as [x Hx]. by rewrite <- E, Hid in Hx.
Qed.

Lemma links_ok_insert v m id j : links_ok v → links_ok (mkView m (<[id := j]> (v_jobs v)) (v_links v)).
Proof. intros Hl l Hin. simpl. apply lookup_insert_is_Some'. right. by apply Hl. Qed.

Lemma links_ok_link v cid jid : links_ok v → is_Some (v_jobs v !! jid) →
  links_ok (mkView (v_campaigns v) (v_jobs v) (v_links v ++ [(cid, jid)])).
Proof. intros Hl Hj l [Hin|Hin%list_elem_of_singleton]%elem_of_app; simpl in *; [by apply Hl|by subst]. Qed.

(** ** A storage in memory *)

Definition ErrCampaignNotFound : goerror := ErrNew "campaign not found".

#[export] Instance memory_storage : CampaignStorage StoreView := {|
  GetCampaign s id := match v_campaigns s !! id with Some c => inl c | None => inr ErrCampaignNotFound end;
  ListCampaigns s limit offset status :=
    let l := List.filter (λ c, String.eqb status "" || String.eqb (CampStatus c) status) (keyed_values CampID (v_campaigns s)) in
    inl (if 0 <? limit then take (Z.to_nat limit) (drop (Z.to_nat offset) l) else l);
  GetCampaignJobs s id := inl (linked_jobs s id);
  CreateCampaign s c :=
    match v_campaigns s !! CampID c with
    | Some _ => (Some (ErrNew "UNIQUE constraint failed: campaigns.id"), s)
    | None => (None, mkView (<[CampID c := inserted c]> (v_campaigns s)) (v_jobs s) (v_links s))
    end;
  UpdateCampaign s id u :=
    match u, v_campaigns s !! id with
    | [], _ => (None, s)
    | _, Some c => (None, mkView (<[id := apply_updates u (c <| CampUpdatedAt := 0 |>)]> (v_campaigns s)) (v_jobs s) (v_links s))
    | _, None => (Some ErrCampaignNotFound, s)
    end;
  DeleteCampaign s id :=
    match v_campaigns s !! id with
    | Some _ => (None, mkView (delete id (v_campaigns s)) (v_jobs s) (v_links s))
    | None => (Some ErrCampaignNotFound, s)
    end;
  LinkJobToCampaign s cid jid := (None, mkView (v_campaigns s) (v_jobs s) (v_links s ++ [(cid, jid)]));
  js_CreateJob s j :=
    match v_jobs s !! JobID j with
    | Some _ => (Some (ErrNew "UNIQUE constraint failed: jobs.id"), s)
    | None => (None, mkView (v_campaigns s) (<[JobID j := j]> (v_jobs s)) (v_links s))
    end;
  js_UpdateJobStatus s id st :=
    match v_jobs s !! id with
    | Some j => (None, mkView (v_campaigns s) (<[id := j <| JobState := st |>]> (v_jobs s)) (v_links s))
    | None => (Some ErrKeyNotFound, s)
    end;
  view s := s |}.

#[export] Instance memory_laws : CampaignStorageLaws StoreView.
Proof.
  split; intros s; simpl.
  - intros id c. by case_match; intros [= <-].
  - by intros id l [= <-].
  - intros limit offset status l. intros [= <-] c Hc. apply (keyed_values_spec CampID (v_campaigns s)).
    assert (c ∈ List.filter (λ c, String.eqb status "" || String.eqb (CampStatus c) status) (keyed_values CampID (v_campaigns s))) as Hin.
    { destruct (0 <? limit); [|done]. by apply elem_of_take in Hc as (i & Hc & _); rewrite lookup_drop in Hc; eapply list_elem_of_lookup_2. }
    by apply elem_of_filter_bool in Hin as [? _].
  - intros c s'. by case_match; intros [= <-].
  - intros c s' e. by case_match; intros [= _ <-].
  - intros id u s' Hu. destruct u as [|x u]; [done|]. case_match; [|done]. intros [= <-].
    eexists _, _. split_and!; [done|by eexists|done].
  - done.
  - intros id u s' e. destruct u; [done|]. by case_match; intros [= _ <-].
  - intros id s'. case_match; intros [= <-]. done.
  - intros id s' e. by case_match; intros [= _ <-].
  - by intros cid jid s' [= <-].
  - done.
  - intros j s'. by case_match; intros [= <-].
  - intros j s' e. by case_match; intros [= _ <-].
  - intros id st s'. case_match; intros [= <-]. by eexists.
  - intros id st s' e. by case_match; intros [= _ <-].
Qed.

#[export] Instance memory_reliable : ReliableStorage StoreView.
Proof.
  split; intros s; simpl.
  - intros id c Hc. by rewrite Hc.
  - intros id. by eexists.
  - intros id u [c Hc]. rewrite Hc. by destruct u.
  - done.
  - intros j Hj. by rewrite Hj.
Qed.
