(* ===== verification/CampaignService.v ===== *)
(** * The campaign service: src/pkg/service/campaign_service.go

    Creation, listing, updates, deletion, restarts and the creation of jobs,
    over a storage given by its laws.  The job service may be absent ([jobs]
    false), as the service manager leaves it. *)

From Stdlib Require Import Lia.
From S2P Require Import Prelude MasterTypes CampaignStore.

Definition transitions : gmap string (list string) :=
  {[ CampaignStatusPending := [CampaignStatusRunning; CampaignStatusCancelled];
     CampaignStatusRunning := [CampaignStatusPaused; CampaignStatusCompleted; CampaignStatusFailed];
     CampaignStatusPaused := [CampaignStatusRunning; CampaignStatusCancelled];
     CampaignStatusCompleted := [CampaignStatusRunning];
     CampaignStatusFailed := [CampaignStatusRunning] ]}.

Definition validateStatusTransition (from to : CampaignStatus) : option goerror :=
  match transitions !! from with
  | None => Some (ErrNew ("invalid current status: " +:+ from))
  | Some allowed =>
      if slice_has to allowed then None
      else Some (ErrNew ("invalid status transition from " +:+ from +:+ " to " +:+ to))
  end.

Definition hasAnyTag (campaignTags filterTags : list string) : bool := existsb (λ t, slice_has t campaignTags) filterTags.

Record CampaignFilters := mkFilters {
  FilterStatus : string; FilterTags : list string; FilterBinaryHash : string; FilterLimit : Z; FilterOffset : Z }.

Record CampaignUpdates := mkUpdates {
  NewName : option string; NewDescription : option string; NewStatus : option CampaignStatus; NewAutoRestart : option bool;
  NewMaxDuration : option Duration; NewMaxJobs : option Z; NewSharedCorpus : option bool; NewTags : list string }.

Section service.
Context {S : Type} `{CampaignStorage S}.
(** [cs.jobService != nil]. *)
Variable jobs : bool.
(** The results of successive calls of [uuid.New]. *)
Variable uuid : nat → string.
Implicit Types (s : S).

Definition is_active (j : MJob) : bool :=
  String.eqb (JobState j) JobStatusPending || String.eqb (JobState j) JobStatusRunning.

(** The [i]-th new job; [existing] is the number of jobs the campaign had. *)
Definition new_job (now1 now2 : Time) (campaign : Campaign) (existing : nat) (i : nat) : MJob :=
  let n := pretty (Z.of_nat existing + Z.of_nat i + 1) in
  mkMJob ("job-" +:+ CampID campaign +:+ "-" +:+ n +:+ "-" +:+ uuid (2 * i)) (CampName campaign +:+ "-job-" +:+ n)
    (TargetBinary campaign) "afl++" "" JobStatusPending None now1 None None
    (time_add now2 (CfgDuration (JobTemplate campaign)))
    ("/tmp/pandafuzz/" +:+ CampID campaign +:+ "/" +:+ uuid (2 * i + 1))
    (JobTemplate campaign) 0 None None false None 0 false "" None None None None.

(** Create one job and link it; errors are logged and skipped. *)
Definition create_one (cid : string) (job : MJob) s : S :=
  match js_CreateJob s job with
  | (Some _, s') => s'
  | (None, s') => (LinkJobToCampaign s' cid (JobID job)).2
  end.

(** The loop creates [n] jobs, from number [i] on; [clock] gives the readings. *)
Fixpoint create_jobs (clock : nat → Time) (campaign : Campaign) (existing : nat) (n i : nat) s : S :=
  match n with
  | O => s
  | Datatypes.S n =>
      let job := new_job (clock (2 * i)%nat) (clock (2 * i + 1)%nat) campaign existing i in
      create_jobs clock campaign existing n (i + 1) (create_one (CampID campaign) job s)
  end.

Definition createJobsForCampaign (clock : nat → Time) (campaign : Campaign) s : option goerror * S :=
  match GetCampaignJobs s (CampID campaign) with
  | inr err => (Some (ErrWrap "failed to get existing jobs" err), s)
  | inl existingJobs =>
      let activeJobs := Z.of_nat (length (List.filter is_active existingJobs)) in
      let jobsToCreate := wrap64 (MaxJobs campaign - activeJobs) in
      if jobsToCreate <=? 0 then (None, s)
      else if negb jobs then (Some (ErrNew "job service not available for campaign restart"), s)
      else (None, create_jobs clock campaign (length existingJobs) (Z.to_nat jobsToCreate) 0 s)
  end.

Definition set_status (id : string) (status : CampaignStatus) s : option goerror * S :=
  UpdateCampaign s id [("status", UString status)].

(** Returns the campaign as well, whose fields the caller shares. *)
Definition Create (now : Time) (newID : string) (clock : nat → Time) (campaign : Campaign) s :
    option goerror * Campaign * S :=
  if String.eqb (CampName campaign) "" then (Some (ErrNew "campaign name is required"), campaign, s)
  else if String.eqb (TargetBinary campaign) "" then (Some (ErrNew "target binary is required"), campaign, s)
  else
    let campaign := if MaxJobs campaign <=? 0 then campaign <| MaxJobs := 10 |> else campaign in
    let campaign := if String.eqb (CampID campaign) "" then campaign <| CampID := "campaign-" +:+ newID |> else campaign in
    let campaign := campaign <| CampCreatedAt := now |> <| CampUpdatedAt := now |> in
    let campaign := if String.eqb (CampStatus campaign) "" then campaign <| CampStatus := CampaignStatusPending |> else campaign in
    match CreateCampaign s campaign with
    | (Some err, s') => (Some (ErrWrap "failed to create campaign" err), campaign, s')
    | (None, s1) =>
        if String.eqb (CampStatus campaign) CampaignStatusRunning then
          match createJobsForCampaign clock campaign s1 with
          | (Some err, s2) => (Some err, campaign, (set_status (CampID campaign) CampaignStatusFailed s2).2)
          | (None, s2) => (None, campaign, s2)
          end
        else (None, campaign, s1)
    end.

Definition GetCampaignByID (id : string) s : Campaign + goerror :=
  match GetCampaign s id with inl c => inl c | inr err => inr (ErrWrap "failed to get campaign" err) end.

Definition ListFiltered (filters : CampaignFilters) s : list Campaign + goerror :=
  let limit := if FilterLimit filters <=? 0 then 50 else FilterLimit filters in
  let limit := if 100 <? limit then 100 else limit in
  match ListCampaigns s limit (FilterOffset filters) (FilterStatus filters) with
  | inr err => inr (ErrWrap "failed to list campaigns" err)
  | inl campaigns =>
      let campaigns :=
        if Nat.ltb 0 (length (FilterTags filters))
        then List.filter (λ c, hasAnyTag (CampTags c) (FilterTags filters)) campaigns else campaigns in
      inl (if String.eqb (FilterBinaryHash filters) "" then campaigns
           else List.filter (λ c, String.eqb (BinaryHash c) (FilterBinaryHash filters)) campaigns)
  end.

Definition opt_update {A} (field : string) (f : A → update_value) (o : option A) : updates :=
  match o with Some x => [(field, f x)] | None => [] end.

(** The update map; a completion time goes with the status completed. *)
Definition update_map (now : Time) (u : CampaignUpdates) : updates :=
  opt_update "name" UString (NewName u) ++ opt_update "description" UString (NewDescription u) ++
  opt_update "status" UString (NewStatus u) ++
  (if decide (NewStatus u = Some CampaignStatusCompleted) then [("completed_at", UTimePtr (Some now))] else []) ++
  opt_update "auto_restart" UBool (NewAutoRestart u) ++ opt_update "max_duration" UDuration (NewMaxDuration u) ++
  opt_update "max_jobs" UInt (NewMaxJobs u) ++ opt_update "shared_corpus" UBool (NewSharedCorpus u) ++
  (if Nat.ltb 0 (length (NewTags u)) then [("tags", UStrings (NewTags u))] else []).

Definition Update (now : Time) (clock : nat → Time) (id : string) (u : CampaignUpdates) s : option goerror * S :=
  match GetCampaign s id with
  | inr err => (Some (ErrWrap "failed to get campaign" err), s)
  | inl campaign =>
      match (st ← NewStatus u; validateStatusTransition (CampStatus campaign) st) with
      | Some err => (Some err, s)
      | None =>
          match UpdateCampaign s id (update_map now u) with
          | (Some err, s') => (Some (ErrWrap "failed to update campaign" err), s')
          | (None, s') =>
              if decide (NewStatus u = Some CampaignStatusRunning)
              then (None, (createJobsForCampaign clock (campaign <| CampStatus := CampaignStatusRunning |>) s').2)
              else (None, s')
          end
      end
  end.

Fixpoint cancel_jobs (l : list MJob) s : S :=
  match l with
  | [] => s
  | j :: l =>
      if String.eqb (JobState j) JobStatusRunning || String.eqb (JobState j) JobStatusPending
      then cancel_jobs l (js_UpdateJobStatus s (JobID j) JobStatusCancelled).2
      else cancel_jobs l s
  end.

Definition Delete (id : string) s : option goerror * S :=
  match GetCampaign s id with
  | inr err => (Some (ErrWrap "failed to get campaign" err), s)
  | inl campaign =>
      if String.eqb (CampStatus campaign) CampaignStatusRunning
      then (Some (ErrNew "cannot delete running campaign"), s)
      else
        let s1 := if jobs then match GetCampaignJobs s id with inl l => cancel_jobs l s | inr _ => s end else s in
        match DeleteCampaign s1 id with
        | (Some err, s') => (Some (ErrWrap "failed to delete campaign" err), s')
        | (None, s') => (None, s')
        end
  end.

Definition RestartCampaign (clock : nat → Time) (id : string) s : option goerror * S :=
  match GetCampaign s id with
  | inr err => (Some (ErrWrap "failed to get campaign" err), s)
  | inl campaign =>
      if negb (String.eqb (CampStatus campaign) CampaignStatusCompleted) &&
         negb (String.eqb (CampStatus campaign) CampaignStatusFailed)
      then (Some (ErrNew "can only restart completed or failed campaigns"), s)
      else
        match UpdateCampaign s id [("status", UString CampaignStatusRunning); ("completed_at", UNil)] with
        | (Some err, s') => (Some (ErrWrap "failed to update campaign status" err), s')
        | (None, s1) =>
            match createJobsForCampaign clock (campaign <| CampStatus := CampaignStatusRunning |>) s1 with
            | (Some err, s2) => (Some (ErrWrap "failed to create jobs" err), (set_status id CampaignStatusFailed s2).2)
            | (None, s2) => (None, s2)
            end
        end
  end.

Definition unfinished (j : MJob) : bool :=
  slice_has (JobState j) [JobStatusPending; JobStatusRunning; JobStatusAssigned].
Definition has_failed (j : MJob) : bool := slice_has (JobState j) [JobStatusFailed; JobStatusTimedOut].

(** The flag says whether a restart was scheduled for thirty seconds later. *)
Definition checkCampaignCompletion (now : Time) (campaignID : string) s : option goerror * bool * S :=
  match GetCampaign s campaignID with
  | inr err => (Some err, false, s)
  | inl campaign =>
      if negb (String.eqb (CampStatus campaign) CampaignStatusRunning) then (None, false, s)
      else
        match GetCampaignJobs s campaignID with
        | inr err => (Some err, false, s)
        | inl l =>
            if existsb unfinished l then (None, false, s)
            else
              let newStatus := if existsb has_failed l then CampaignStatusFailed else CampaignStatusCompleted in
              match UpdateCampaign s campaignID [("status", UString newStatus); ("completed_at", UTimePtr (Some now))] with
              | (Some err, s') => (Some err, false, s')
              | (None, s') => (None, AutoRestart campaign && String.eqb newStatus CampaignStatusCompleted, s')
              end
        end
  end.

End service.

(** ** Creating jobs *)

Definition count_jobs (p : MJob → bool) (v : StoreView) (id : string) : Z :=
  Z.of_nat (length (List.filter p (linked_jobs v id))).

Section creation.
Context {S : Type} `{CampaignStorageLaws S}.
Variable uuid : nat → string.
Implicit Types (s : S).

Definition job_id (campaign : Campaign) (existing i : nat) : string := JobID (new_job uuid 0 0 campaign existing i).

(** The IDs the loop will use are new and differ from each other. *)
Definition fresh_ids (v : StoreView) (campaign : Campaign) (existing n i : nat) : Prop :=
  NoDup (job_id campaign existing <$> seq i n) ∧
  ∀ k, (i ≤ k < i + n)%nat → v_jobs v !! job_id campaign existing k = None.

(** What creating jobs may do: campaigns stay, and the campaign gets some
    pending jobs more. *)
Definition jobs_added (n : nat) (cid : string) (v v' : StoreView) : Prop :=
  v_campaigns v' = v_campaigns v ∧ links_ok v' ∧
  ∃ new, linked_jobs v' cid = linked_jobs v cid ++ new ∧ (length new ≤ n)%nat ∧
    Forall (λ j, JobState j = JobStatusPending) new.

Lemma jobs_added_refl n cid v : links_ok v → jobs_added n cid v v.
Proof. intros Hl. split; [done|]. split; [done|]. exists []. rewrite app_nil_r. split_and!; [done|simpl; lia|done]. Qed.

Lemma jobs_added_trans n m cid v1 v2 v3 :
  jobs_added n cid v1 v2 → jobs_added m cid v2 v3 → jobs_added (n + m) cid v1 v3.
Proof.
  intros (E1 & _ & l1 & J1 & N1 & F1) (E2 & L2 & l2 & J2 & N2 & F2). split; [congruence|]. split; [done|].
  exists (l1 ++ l2). rewrite J2, J1, <- app_assoc. split_and!; [done|rewrite length_app; lia|by apply Forall_app].
Qed.

Lemma create_one_spec cid job s : links_ok (view s) → JobState job = JobStatusPending →
  let s' := create_one cid job s in
  jobs_added 1 cid (view s) (view s') ∧
  (∀ id, id ≠ JobID job → v_jobs (view s') !! id = v_jobs (view s) !! id) ∧
  (ReliableStorage S → v_jobs (view s) !! JobID job = None →
   length (linked_jobs (view s') cid) = Datatypes.S (length (linked_jobs (view s) cid))).
Proof.
  intros Hl Hp s'. subst s'. unfold create_one. destruct (js_CreateJob s job) as [[err|] s1] eqn:Ec.
  { rewrite (create_job_fails _ _ _ _ Ec). split; [by apply jobs_added_refl|]. split; [done|].
    intros Hr Hf. pose proof (reliable_create_job s job Hf) as E. by rewrite Ec in E. }
  apply create_job_ok in Ec as [Hf Ev].
  assert (links_ok (view s1)) as Hl1 by (rewrite Ev; by apply links_ok_insert).
  assert (linked_jobs (view s1) cid = linked_jobs (view s) cid) as Ej.
  { rewrite Ev. by apply linked_jobs_insert. }
  assert (v_jobs (view s1) !! JobID job = Some job) as Hjob by (rewrite Ev; by apply lookup_insert_eq).
  destruct (LinkJobToCampaign s1 _ _) as [[err|] s2] eqn:El; simpl.
  - rewrite (link_fails _ _ _ _ _ El). split; [|split].
    + split; [by rewrite Ev|]. split; [done|]. exists []. rewrite app_nil_r. split_and!; [done|simpl; lia|done].
    + intros id Hid. rewrite Ev. simpl. by rewrite lookup_insert_ne.
    + intros Hr _. pose proof (reliable_link s1 cid (JobID job)) as E. by rewrite El in E.
  - apply link_ok in El as Ev2. rewrite Ev2. split; [|split].
    + split; [simpl; by rewrite Ev|]. split; [apply links_ok_link; [done|by eexists]|]. exists [job].
      rewrite (linked_jobs_link (view s1) _ _ job), Ej by done. split_and!; [done|simpl; lia|by repeat constructor].
    + intros id Hid. simpl. rewrite Ev. simpl. by rewrite lookup_insert_ne.
    + intros _ _. rewrite (linked_jobs_link (view s1) _ _ job), Ej, length_app by done. simpl. lia.
Qed.

Lemma create_jobs_spec clock campaign existing n i s : links_ok (view s) →
  let s' := create_jobs uuid clock campaign existing n i s in
  jobs_added n (CampID campaign) (view s) (view s') ∧
  (ReliableStorage S → fresh_ids (view s) campaign existing n i →
   length (linked_jobs (view s') (CampID campaign)) = (length (linked_jobs (view s) (CampID campaign)) + n)%nat).
Proof.
  revert i s. induction n as [|n IH]; intros i s Hl; cbn [create_jobs].
  { split; [by apply jobs_added_refl|]. intros. lia. }
  set (job := new_job uuid _ _ _ _ _).
  destruct (create_one_spec (CampID campaign) job s Hl) as (H1 & H2 & H3); [done|].
  set (s1 := create_one _ _ _) in *.
  destruct (IH (i + 1)%nat s1) as [H4 H5]; [apply H1|].
  split; [by apply (jobs_added_trans 1 n _ _ (view s1))|]. intros Hr [Hnd Hf].
  rewrite H5, H3; [lia|done| |done|].
  - apply (Hf i). lia.
  - replace (i + 1)%nat with (Datatypes.S i) by lia. simpl in Hnd. apply NoDup_cons in Hnd as [Hnew Hnd].
    split; [done|]. intros k Hk. rewrite H2; [apply Hf; lia|]. intros E. apply Hnew. change (JobID _) with (job_id campaign existing i) in E.
    rewrite <- E. apply list_elem_of_fmap_2, elem_of_seq. lia.
Qed.

End creation.

Lemma count_jobs_app p l v cid new : linked_jobs v cid = l ++ new →
  count_jobs p v cid = Z.of_nat (length (List.filter p l)) + Z.of_nat (length (List.filter p new)).
Proof. intros E. unfold count_jobs. rewrite E, List.filter_app, length_app. lia. Qed.

Lemma filter_pending p new : (∀ j, JobState j = JobStatusPending → p j = true) →
  Forall (λ j, JobState j = JobStatusPending) new → List.filter p new = new.
Proof. intros Hp. induction 1 as [|j l Hj _ IH]; simpl; [done|]. by rewrite (Hp j Hj), IH. Qed.

Definition assigned (j : MJob) : bool := String.eqb (JobState j) JobStatusAssigned.


Section quota.
Context {S : Type} `{CampaignStorageLaws S}.
Variable uuid : nat → string.
Implicit Types (s : S).

Lemma create_for_campaign jobs clock campaign s r s' : links_ok (view s) →
  createJobsForCampaign jobs uuid clock campaign s = (r, s') →
  v_campaigns (view s') = v_campaigns (view s) ∧ links_ok (view s') ∧ (r ≠ None → s' = s).
Proof.
  unfold createJobsForCampaign. intros Hl. destruct (GetCampaignJobs s _) as [l|err]; [|by intros [= <- <-]].
  destruct (_ <=? 0); [by intros [= <- <-]|]. destruct jobs; cbn [negb]; [|by intros [= <- <-]].
  intros [= <- <-]. destruct (create_jobs_spec uuid clock campaign (length l) (Z.to_nat (wrap64 (MaxJobs campaign - Z.of_nat (length (List.filter is_active l))))) 0 s Hl)
    as [(E & L & _) _]. done.
Qed.

(** What creating jobs adds to a campaign. *)
Lemma create_adds clock campaign s r s' :
  links_ok (view s) → (∀ z, 0 ≤ z ≤ Z.of_nat (length (linked_jobs (view s) (CampID campaign))) → in_int64 (MaxJobs campaign - z)) →
  createJobsForCampaign true uuid clock campaign s = (r, s') →
  let cid := CampID campaign in
  let room := Z.max 0 (MaxJobs campaign - count_jobs is_active (view s) cid) in
  (r ≠ None → s' = s) ∧
  ∃ new, linked_jobs (view s') cid = linked_jobs (view s) cid ++ new ∧
    Forall (λ j, JobState j = JobStatusPending) new ∧ Z.of_nat (length new) ≤ room ∧
    (ReliableStorage S →
     fresh_ids uuid (view s) campaign (length (linked_jobs (view s) cid))
       (Z.to_nat (MaxJobs campaign - count_jobs is_active (view s) cid)) 0 →
     r = None ∧ Z.of_nat (length new) = room).
Proof.
  intros Hl Hrange E cid. pose proof (create_for_campaign _ _ _ _ _ _ Hl E) as (_ & _ & Herr).
  unfold createJobsForCampaign in E. fold cid in E.
  destruct (GetCampaignJobs s cid) as [l|err] eqn:El.
  2: { injection E as <- <-. split; [done|]. exists []. rewrite app_nil_r. split_and!; [done..|simpl; lia|].
       intros Hr. destruct (reliable_jobs s cid) as [? E]. congruence. }
  apply get_campaign_jobs in El. pose proof (length_filter_perm is_active _ _ El) as Ha. pose proof (Permutation_length El) as Hlen.
  set (active := count_jobs is_active (view s) cid). assert (Z.of_nat (length (List.filter is_active l)) = active) as Eact.
  { unfold active, count_jobs. by rewrite Ha. }
  rewrite Eact in E. assert (0 ≤ active ≤ Z.of_nat (length (linked_jobs (view s) cid))) as Hact.
  { unfold active, count_jobs. rewrite <- Ha, <- Hlen. pose proof (List.filter_length_le is_active l). lia. }
  rewrite wrap64_id in E by by apply Hrange. cbv zeta.
  destruct (Z.leb_spec (MaxJobs campaign - active) 0) as [Hle|Hgt].
  { injection E as <- <-. split; [done|]. exists []. rewrite app_nil_r. split_and!; [done..|simpl; lia|]. intros. split; [done|simpl; lia]. }
  cbn [negb] in E. injection E as <- <-. split; [done|].
  destruct (create_jobs_spec uuid clock campaign (length l) (Z.to_nat (MaxJobs campaign - active)) 0 s Hl)
    as [(_ & _ & new & Hnew & Hn & Hp) Hrel]. fold cid in Hnew, Hrel.
  set (s' := create_jobs _ _ _ _ _ _ _) in *. exists new. split_and!; [done|done|lia|]. intros Hr Hfresh. split; [done|].
  rewrite Hlen in Hrel. specialize (Hrel Hr Hfresh). rewrite Hnew, length_app in Hrel. lia.
Qed.

Lemma new_jobs_counts cid v v' new : linked_jobs v' cid = linked_jobs v cid ++ new →
  Forall (λ j, JobState j = JobStatusPending) new →
  count_jobs is_active v' cid = count_jobs is_active v cid + Z.of_nat (length new) ∧
  count_jobs assigned v' cid = count_jobs assigned v cid.
Proof.
  intros Hnew Hp. rewrite (count_jobs_app is_active _ _ _ _ Hnew), (count_jobs_app assigned _ _ _ _ Hnew).
  rewrite (filter_pending is_active new) by (done || (intros j Hj; unfold is_active; by rewrite Hj)). split; [done|].
  unfold count_jobs. assert (List.filter assigned new = []) as ->; [|simpl; lia].
  clear -Hp. induction Hp as [|j k Hj _ IH]; simpl; [done|]. unfold assigned at 1. by rewrite Hj, IH.
Qed.


End quota.

(** ** Status changes *)

Lemma update_field_completed field value c : field ≠ "completed_at" →
  CampCompletedAt (update_field field value c) = CampCompletedAt c.
Proof. intros Hf. update_field_cases; by go_str. Qed.

Lemma apply_updates_completed u c : (∀ fv, fv ∈ u → fv.1 ≠ "completed_at") →
  CampCompletedAt (apply_updates u c) = CampCompletedAt c.
Proof.
  unfold apply_updates. revert c. induction u as [|[f v] u IH]; intros c Hu; simpl; [done|].
  rewrite IH by (intros fv Hfv; apply Hu; by right). apply update_field_completed. apply (Hu (f, v)). by left.
Qed.

Lemma opt_update_fields {A} field (f : A → update_value) o fv : fv ∈ opt_update field f o → fv.1 = field.
Proof. destruct o; simpl; [intros ->%list_elem_of_singleton; done|by intros ?%not_elem_of_nil]. Qed.

Ltac update_fields :=
  repeat match goal with
    | H : _ ∈ _ ++ _ |- _ => apply elem_of_app in H as [H|H]
    | H : _ ∈ opt_update _ _ _ |- _ => apply opt_update_fields in H; rewrite H; done
    | H : _ ∈ (if _ then _ else _) |- _ => case_match
    | H : _ ∈ [_] |- _ => apply list_elem_of_singleton in H as ->; done
    | H : _ ∈ [] |- _ => by apply not_elem_of_nil in H
    end.

Lemma update_map_split now u : ∃ pre post,
  update_map now u = pre ++ opt_update "status" UString (NewStatus u) ++
    (if decide (NewStatus u = Some CampaignStatusCompleted) then [("completed_at", UTimePtr (Some now))] else []) ++ post ∧
  ∀ fv, fv ∈ pre ++ post → fv.1 ≠ "status" ∧ fv.1 ≠ "completed_at".
Proof.
  unfold update_map. rewrite (assoc_L (++) (opt_update "name" _ _)). eexists _, _. split; [done|].
  intros fv Hfv. split; update_fields.
Qed.

Lemma update_map_status now u c :
  CampStatus (apply_updates (update_map now u) c) = default (CampStatus c) (NewStatus u).
Proof.
  destruct (update_map_split now u) as (pre & post & -> & Hf). rewrite !apply_updates_app.
  rewrite apply_updates_status by (intros fv Hfv; apply Hf; set_solver).
  assert (∀ c, CampStatus (apply_updates (if decide (NewStatus u = Some CampaignStatusCompleted)
    then [("completed_at", UTimePtr (Some now))] else []) c) = CampStatus c) as -> by (intros; by case_decide).
  assert (CampStatus (apply_updates pre c) = CampStatus c) as Hpre.
  { apply apply_updates_status. intros fv Hfv. apply Hf. set_solver. }
  by destruct (NewStatus u).
Qed.

Lemma update_map_completed now u c : NewStatus u = Some CampaignStatusCompleted →
  CampCompletedAt (apply_updates (update_map now u) c) = Some now.
Proof.
  intros E. destruct (update_map_split now u) as (pre & post & -> & Hf). rewrite !apply_updates_app, E.
  rewrite apply_updates_completed by (intros fv Hfv; apply Hf; set_solver). by rewrite decide_True.
Qed.

Lemma validate_transition_ok from to : validateStatusTransition from to = None ↔
  ∃ allowed, transitions !! from = Some allowed ∧ to ∈ allowed.
Proof.
  unfold validateStatusTransition. destruct (transitions !! from) as [l|]; [|naive_solver].
  destruct (slice_has to l) eqn:E; autorewrite with go_rw in E; naive_solver.
Qed.

Section status.
Context {S : Type} `{CampaignStorageLaws S}.
Variable jobs : bool.
Variable uuid : nat → string.
Implicit Types (s : S).

(** An update changes one campaign or, on an error, nothing: the status
    only along the table of allowed moves, with a completion time exactly as
    the status completed asks for it.  In particular cancelled campaigns stay
    cancelled. *)
Theorem update_follows_table now clock id u s r s' :
  links_ok (view s) → Update jobs uuid now clock id u s = (r, s') →
  match r with
  | Some _ => view s' = view s
  | None => ∃ c c', v_campaigns (view s) !! id = Some c ∧
      v_campaigns (view s') = <[id := c']> (v_campaigns (view s)) ∧
      CampStatus c' = default (CampStatus c) (NewStatus u) ∧
      (∀ st, NewStatus u = Some st → ∃ allowed, transitions !! CampStatus c = Some allowed ∧ st ∈ allowed) ∧
      (NewStatus u = Some CampaignStatusCompleted → CampCompletedAt c' = Some now)
  end.
Proof.
  intros Hl. unfold Update. destruct (GetCampaign s id) as [c|err] eqn:Eg; [|by intros [= <- <-]].
  apply get_campaign in Eg. destruct (st ← NewStatus u; validateStatusTransition (CampStatus c) st) as [err|] eqn:Ev; [by intros [= <- <-]|].
  assert (∀ st, NewStatus u = Some st → ∃ allowed, transitions !! CampStatus c = Some allowed ∧ st ∈ allowed) as Hok.
  { intros st E. rewrite E in Ev. by apply validate_transition_ok. }
  destruct (UpdateCampaign s id (update_map now u)) as [[err|] s1] eqn:Eu.
  { intros [= <- <-]. by apply update_fails in Eu. }
  assert (∃ c', v_campaigns (view s1) = <[id := c']> (v_campaigns (view s)) ∧ links_ok (view s1) ∧
    CampStatus c' = default (CampStatus c) (NewStatus u) ∧
    (NewStatus u = Some CampaignStatusCompleted → CampCompletedAt c' = Some now)) as (c' & Hc & Hl1 & Hs & Ht).
  { destruct (decide (update_map now u = [])) as [E|Hne].
    - rewrite E in Eu. rewrite update_nothing in Eu. injection Eu as <-. exists c.
      pose proof (update_map_status now u c) as Hst. pose proof (update_map_completed now u c) as Hct. rewrite E in Hst, Hct.
      split_and!; [by rewrite insert_id|done|done|done].
    - apply update_ok in Eu as (c0 & c' & Hc0 & [t ->] & Hv); [|done]. rewrite Eg in Hc0. injection Hc0 as <-.
      eexists. split_and!; [by rewrite Hv|by rewrite Hv|by rewrite update_map_status|by apply update_map_completed]. }
  destruct (decide _) as [Hrun|_].
  - intros [= <- <-]. destruct (createJobsForCampaign _ _ _ _ s1) as [r2 s2] eqn:Ec.
    apply create_for_campaign in Ec as (E & _); [|done]. exists c, c'. simpl. by rewrite E.
  - intros [= <- <-]. by exists c, c'.
Qed.

Lemma set_status_reliable `{!ReliableStorage S} id st extra s c : v_campaigns (view s) !! id = Some c →
  (∀ fv, fv ∈ extra → fv.1 ≠ "status") →
  ∃ s' c', UpdateCampaign s id (("status", UString st) :: extra) = (None, s') ∧ CampStatus c' = st ∧
    view s' = mkView (<[id := c']> (v_campaigns (view s))) (v_jobs (view s)) (v_links (view s)).
Proof.
  intros Hc Hx. destruct (UpdateCampaign s id _) as [r s'] eqn:E.
  pose proof (reliable_update s id (("status", UString st) :: extra)) as Hr. rewrite E in Hr. simpl in Hr.
  rewrite Hr in E by by eexists. apply update_ok in E as (c0 & c' & _ & [t ->] & Hv); [|done].
  exists s'. eexists. split_and!; [rewrite Hr by (by eexists); done| |exact Hv].
  change (apply_updates (("status", UString st) :: extra) (c0 <| CampUpdatedAt := t |>)) with
    (apply_updates extra (c0 <| CampUpdatedAt := t |> <| CampStatus := st |>)). by rewrite apply_updates_status.
Qed.

(** Restarting a completed or failed campaign that is below its maximum,
    in good health.  With a job service it runs again and has its maximum of
    pending and running jobs.  Without one, which is how the service manager
    builds the service, the restart fails, no job is created, and even a
    completed campaign ends as failed. *)
Theorem restart_outcome `{!ReliableStorage S} clock id s r s' c :
  links_ok (view s) → v_campaigns (view s) !! id = Some c → CampID c = id →
  CampStatus c ∈ [CampaignStatusCompleted; CampaignStatusFailed] →
  (∀ z, 0 ≤ z ≤ Z.of_nat (length (linked_jobs (view s) id)) → in_int64 (MaxJobs c - z)) →
  count_jobs is_active (view s) id < MaxJobs c →
  fresh_ids uuid (view s) c (length (linked_jobs (view s) id)) (Z.to_nat (MaxJobs c - count_jobs is_active (view s) id)) 0 →
  RestartCampaign jobs uuid clock id s = (r, s') →
  ∃ c', v_campaigns (view s') !! id = Some c' ∧
    if jobs
    then r = None ∧ CampStatus c' = CampaignStatusRunning ∧ count_jobs is_active (view s') id = MaxJobs c
    else r ≠ None ∧ CampStatus c' = CampaignStatusFailed ∧ v_jobs (view s') = v_jobs (view s).
Proof.
  intros Hl Hc Hid Hst Hrange Hlt Hfresh. unfold RestartCampaign.
  rewrite (reliable_get _ _ _ Hc).
  replace (negb (String.eqb (CampStatus c) CampaignStatusCompleted) && negb (String.eqb (CampStatus c) CampaignStatusFailed)) with false.
  2: { set_unfold in Hst. destruct Hst as [->|[->|[]]]; done. }
  destruct (set_status_reliable id CampaignStatusRunning [("completed_at", UNil)] s c Hc) as (s1 & c1 & -> & Hs1 & Hv1).
  { by intros fv ->%list_elem_of_singleton. }
  set (cr := c <| CampStatus := CampaignStatusRunning |>).
  assert (links_ok (view s1)) as Hl1 by by rewrite Hv1.
  assert (linked_jobs (view s1) id = linked_jobs (view s) id) as Hlj by by rewrite Hv1.
  assert (∀ p, count_jobs p (view s1) id = count_jobs p (view s) id) as Hcnt by (intros p; unfold count_jobs; by rewrite Hlj).
  destruct jobs.
  - destruct (createJobsForCampaign true uuid clock cr s1) as [r2 s2] eqn:Ec.
    pose proof (create_for_campaign _ _ _ _ _ _ _ Hl1 Ec) as (E & _ & _).
    destruct (create_adds uuid clock cr s1 r2 s2) as (_ & new & Hnew & Hp & _ & Hrel); [done| |done|].
    { change (CampID cr) with (CampID c). rewrite Hid, Hlj. exact Hrange. }
    change (CampID cr) with (CampID c) in Hnew, Hrel. rewrite Hid in Hnew, Hrel.
    destruct (new_jobs_counts _ _ _ _ Hnew Hp) as [Ha _].
    destruct (Hrel _) as [-> Hlen].
    { rewrite Hcnt, Hlj, Hv1. exact Hfresh. }
    intros [= <- <-]. exists c1. rewrite E, Hv1. split; [by simpl; rewrite lookup_insert_eq|].
    split_and!; [done|done|]. rewrite Ha, Hlen, Hcnt. change (MaxJobs cr) with (MaxJobs c). lia.
  - assert (createJobsForCampaign false uuid clock cr s1 = (Some (ErrNew "job service not available for campaign restart"), s1)) as ->.
    { unfold createJobsForCampaign. change (CampID cr) with (CampID c). rewrite Hid.
      destruct (reliable_jobs s1 id) as [l El]. rewrite El. apply get_campaign_jobs in El.
      rewrite (length_filter_perm is_active _ _ El). fold (count_jobs is_active (view s1) id). rewrite Hcnt.
      change (MaxJobs cr) with (MaxJobs c). rewrite wrap64_id; [by rewrite (proj2 (Z.leb_gt _ 0)) by lia|].
      apply Hrange. unfold count_jobs. pose proof (List.filter_length_le is_active (linked_jobs (view s) id)). lia. }
    intros [= <- <-]. unfold set_status.
    destruct (set_status_reliable id CampaignStatusFailed [] s1 c1) as (s2 & c2 & -> & Hs2 & Hv2).
    { rewrite Hv1. simpl. by rewrite lookup_insert_eq. } { by intros ? ?%not_elem_of_nil. }
    exists c2. cbn [snd]. rewrite Hv2. split; [by simpl; rewrite lookup_insert_eq|]. split_and!; [done|done|]. simpl. by rewrite Hv1.
Qed.

End status.

(** ** Instances *)

Definition config : JobConfig := mkJobConfig Hour 0 0 "" [] "".
Definition campaign (status : string) : Campaign :=
  mkCampaign "c1" "fuzz" "" status "bin" "" 0 0 None true 0 2 config true [].
Definition a_job (id status : string) : MJob :=
  mkMJob id id "bin" "afl++" "" status None 0 None None 0 "" config 0 None None false None 0 false "" None None None None.
Definition store (status : string) : StoreView :=
  mkView {[ "c1" := campaign status ]} (<["j1" := a_job "j1" JobStatusCompleted]> {[ "j2" := a_job "j2" JobStatusAssigned ]})
    [("c1", "j1"); ("c1", "j2")].
Definition no_clock (_ : nat) : Time := 0.
Definition ids (i : nat) : string := pretty i.

Lemma store_links status : links_ok (store status).
Proof.
  intros l Hl. apply list_elem_of_In in Hl. destruct Hl as [<-|[<-|[]]]; vm_compute; by eexists.
Qed.

Lemma store_range status st z : 0 ≤ z ≤ Z.of_nat (length (linked_jobs (store status) "c1")) →
  in_int64 (MaxJobs (campaign st) - z).
Proof.
  assert (Z.of_nat (length (linked_jobs (store status) "c1")) = 2) as -> by (vm_compute; reflexivity).
  unfold in_int64, minInt64, maxInt64. simpl. lia.
Qed.

Lemma store_fresh status n : (n ≤ 2)%nat → fresh_ids ids (store status) (campaign status) 2 n 0.
Proof.
  intros Hn. split.
  - destruct n as [|[|[|n]]]; [| | |lia]; vm_compute; repeat constructor; vm_compute; set_solver.
  - intros k Hk. destruct k as [|[|k]]; [vm_compute; done..|lia].
Qed.


Definition pause : CampaignUpdates := mkUpdates None None (Some CampaignStatusPaused) None None None None [].
Lemma update_follows_table_witness :
  (Update false ids 5 no_clock "c1" pause (store CampaignStatusRunning)).1 = None ∧
  CampStatus <$> v_campaigns (view (Update false ids 5 no_clock "c1" pause (store CampaignStatusRunning)).2) !! "c1" = Some CampaignStatusPaused.
Proof.
  destruct (Update false ids 5 no_clock "c1" pause (store CampaignStatusRunning)) as [r s'] eqn:E.
  assert (r = None) as -> by (vm_compute in E; by injection E).
  pose proof (update_follows_table false ids 5 no_clock "c1" pause (store CampaignStatusRunning) None s' (store_links _) E)
    as (c & c' & _ & Hv & Hs & _).
  split; [reflexivity|]. cbn [snd]. rewrite Hv, lookup_insert_eq. simpl. by rewrite Hs.
Defined.

Lemma restart_outcome_witness :
  (RestartCampaign true ids no_clock "c1" (store CampaignStatusCompleted)).1 = None ∧
  ∃ c', v_campaigns (view (RestartCampaign false ids no_clock "c1" (store CampaignStatusCompleted)).2) !! "c1" = Some c' ∧
        CampStatus c' = CampaignStatusFailed.
Proof.
  assert (links_ok (view (store CampaignStatusCompleted))) as Hl by apply store_links.
  assert (CampStatus (campaign CampaignStatusCompleted) ∈ [CampaignStatusCompleted; CampaignStatusFailed]) as Hst by (apply elem_of_cons; by left).
  split.
  - destruct (RestartCampaign true ids no_clock "c1" (store CampaignStatusCompleted)) as [r s'] eqn:E.
    edestruct (restart_outcome true ids no_clock "c1" (store CampaignStatusCompleted) r s' (campaign CampaignStatusCompleted) Hl)
      as (c' & _ & Hr & _); [reflexivity|reflexivity|exact Hst|apply store_range|vm_compute; reflexivity
      |apply store_fresh; vm_compute; lia|exact E|exact Hr].
  - destruct (RestartCampaign false ids no_clock "c1" (store CampaignStatusCompleted)) as [r s'] eqn:E.
    edestruct (restart_outcome false ids no_clock "c1" (store CampaignStatusCompleted) r s' (campaign CampaignStatusCompleted) Hl)
      as (c' & Hc' & _ & Hr & _); [reflexivity|reflexivity|exact Hst|apply store_range|vm_compute; reflexivity
      |apply store_fresh; vm_compute; lia|exact E|].
    exists c'. split; [exact Hc'|exact Hr].
Defined.
