(* ===== verification/CampaignMonitor.v ===== *)
(** * The campaign state manager: src/pkg/master/campaign_state.go

    In-memory states of the campaigns that are pending or running, refreshed by
    a periodic check that completes campaigns and restarts them.  Crash groups
    and corpus evolution come from services given as parameters; a restart runs
    in a goroutine of its own, kept in [restarts] until it is run. *)

From Stdlib Require Import Lia.
From S2P Require Import Prelude MasterTypes CampaignStore.

(** The fields of a crash group and of a corpus snapshot that are read here. *)
Record CrashGroup := mkCrashGroup { GroupID : string; GroupLastSeen : Time; GroupCount : Z }.
Record CorpusEvolution := mkEvolution { EvolutionTime : Time; TotalSize : Z; EvolutionCoverage : Z }.

Record CampaignMetrics := mkMetrics {
  TotalJobs : Z; ActiveCount : Z; CompletedCount : Z; FailedCount : Z; TotalCrashes : Z; UniqueCrashes : Z;
  CorpusSize : Z; TotalCoverage : Z; ExecPerSecond : float64; LastCrashTime : option Time; LastUpdateTime : Time }.
#[export] Instance CampaignMetrics_eta : Eta CampaignMetrics := fun m =>
  mkMetrics (TotalJobs m) (ActiveCount m) (CompletedCount m) (FailedCount m) (TotalCrashes m) (UniqueCrashes m)
    (CorpusSize m) (TotalCoverage m) (ExecPerSecond m) (LastCrashTime m) (LastUpdateTime m).

Record CampaignState := mkCampaignState {
  StateCampaign : Campaign; ActiveJobs : gmap string MJob; CompletedJobs : gmap string MJob; LastUpdate : Time;
  Metrics : CampaignMetrics }.
#[export] Instance CampaignState_eta : Eta CampaignState := fun s =>
  mkCampaignState (StateCampaign s) (ActiveJobs s) (CompletedJobs s) (LastUpdate s) (Metrics s).

(** What is sent to the websocket hub. *)
Inductive message :=
  | MetricsUpdate (campaign : string) (m : CampaignMetrics)
  | CampaignCompleted (campaign status : string) (m : CampaignMetrics).

Record Manager (S : Type) := mkManager {
  tracked : gmap string CampaignState; store : S; messages : list message; restarts : list string }.
Arguments mkManager {S} _ _ _ _.
Arguments tracked {S} _.
Arguments store {S} _.
Arguments messages {S} _.
Arguments restarts {S} _.
#[export] Instance Manager_eta {S} : Eta (Manager S) := fun m =>
  mkManager (tracked m) (store m) (messages m) (restarts m).

Definition empty_metrics (now : Time) : CampaignMetrics := mkMetrics 0 0 0 0 0 0 0 0 f64_zero None now.
Definition new_state (now1 now2 : Time) (campaign : Campaign) : CampaignState :=
  mkCampaignState campaign ∅ ∅ now1 (empty_metrics now2).

(** The switch of [loadCampaigns]: time-outs are not among the finished jobs. *)
Definition categorize (st : CampaignState) (job : MJob) : CampaignState :=
  if slice_has (JobState job) [JobStatusRunning; JobStatusAssigned]
  then st <| ActiveJobs := <[JobID job := job]> (ActiveJobs st) |>
  else if slice_has (JobState job) [JobStatusCompleted; JobStatusFailed]
  then st <| CompletedJobs := <[JobID job := job]> (CompletedJobs st) |>
  else st.

(** The switch of [updateMetrics]. *)
Definition count_job (st : CampaignState) (job : MJob) : CampaignState :=
  let m := (Metrics st) <| TotalJobs := wrap64 (TotalJobs (Metrics st) + 1) |> in
  if slice_has (JobState job) [JobStatusRunning; JobStatusAssigned]
  then st <| ActiveJobs := <[JobID job := job]> (ActiveJobs st) |> <| Metrics := (m <| ActiveCount := wrap64 (ActiveCount m + 1) |>) |>
  else if String.eqb (JobState job) JobStatusCompleted
  then st <| CompletedJobs := <[JobID job := job]> (CompletedJobs st) |> <| Metrics := (m <| CompletedCount := wrap64 (CompletedCount m + 1) |>) |>
  else if slice_has (JobState job) [JobStatusFailed; JobStatusTimedOut]
  then st <| CompletedJobs := <[JobID job := job]> (CompletedJobs st) |> <| Metrics := (m <| FailedCount := wrap64 (FailedCount m + 1) |>) |>
  else st <| Metrics := m |>.

Definition count_group (m : CampaignMetrics) (g : CrashGroup) : CampaignMetrics :=
  let m := m <| TotalCrashes := wrap64 (TotalCrashes m + GroupCount g) |> in
  match LastCrashTime m with
  | Some t => if time_after (GroupLastSeen g) t then m <| LastCrashTime := Some (GroupLastSeen g) |> else m
  | None => m <| LastCrashTime := Some (GroupLastSeen g) |>
  end.

Section manager.
Context {S : Type} `{CampaignStorage S}.
(** [dedupSvc.GetCrashGroups] and [corpusSvc.GetEvolution]. *)
Variable GetCrashGroups : S → string → list CrashGroup + goerror.
Variable GetEvolution : S → string → list CorpusEvolution + goerror.
(** The readings of the clock in one call. *)
Implicit Types (m : Manager S) (now : nat → Time).

Definition not_tracked : goerror := ErrNew "campaign state not found".

Definition set_state (id : string) (st : CampaignState) m : Manager S := m <| tracked := <[id := st]> (tracked m) |>.

(** The refreshed state of a campaign, from the list of its jobs. *)
Definition refreshed (now1 now2 : Time) (s : S) (id : string) (jobs : list MJob) (st : CampaignState) : CampaignState :=
  let st := foldl count_job (st <| ActiveJobs := ∅ |> <| CompletedJobs := ∅ |> <| Metrics := empty_metrics now1 |>) jobs in
  let metrics := Metrics st in
  let metrics :=
    match GetCrashGroups s id with
    | inl groups => foldl count_group (metrics <| UniqueCrashes := Z.of_nat (length groups) |>) groups
    | inr _ => metrics
    end in
  let metrics :=
    match GetEvolution s id with
    | inl evolution =>
        match last evolution with
        | Some latest => metrics <| CorpusSize := TotalSize latest |> <| TotalCoverage := EvolutionCoverage latest |>
        | None => metrics
        end
    | inr _ => metrics
    end in
  let metrics := metrics <| ExecPerSecond := f64_mul (f64_of_Z (ActiveCount metrics)) (f64_of_Z 1000) |> in
  st <| Metrics := metrics |> <| LastUpdate := now2 |>.

Definition updateMetrics now (id : string) m : option goerror * Manager S :=
  match tracked m !! id with
  | None => (Some not_tracked, m)
  | Some st =>
      match GetCampaignJobs (store m) id with
      | inr err => (Some err, m)
      | inl jobs =>
          let st := refreshed (now 0%nat) (now 1%nat) (store m) id jobs st in
          (None, (set_state id st m) <| messages := messages m ++ [MetricsUpdate id (Metrics st)] |>)
      end
  end.

Definition checkCampaignCompletion now (id : string) m : option goerror * Manager S :=
  match tracked m !! id with
  | None => (Some not_tracked, m)
  | Some st =>
      if negb (String.eqb (CampStatus (StateCampaign st)) CampaignStatusRunning) then (None, m)
      else if Nat.eqb (size (ActiveJobs st)) 0 && (0 <? TotalJobs (Metrics st)) then
        let newStatus := if CompletedCount (Metrics st) <? FailedCount (Metrics st) then CampaignStatusFailed else CampaignStatusCompleted in
        match UpdateCampaign (store m) id [("status", UString newStatus); ("completed_at", UTime (now 2%nat))] with
        | (Some err, s') => (Some err, m <| store := s' |>)
        | (None, s') => (None, m <| store := s' |> <| messages := messages m ++ [CampaignCompleted id newStatus (Metrics st)] |>)
        end
      else (None, m)
  end.

(** Schedules the goroutine that restarts the campaign. *)
Definition checkAutoRestart now (id : string) m : Manager S :=
  match tracked m !! id with
  | None => m
  | Some st =>
      let campaign := StateCampaign st in
      if negb (AutoRestart campaign) || negb (String.eqb (CampStatus campaign) CampaignStatusCompleted) then m
      else if match CampCompletedAt campaign with Some t => time_sub (now 3%nat) t <? 30 * Second | None => false end then m
      else m <| restarts := restarts m ++ [id] |>
  end.

Definition updateCampaignState now (id : string) m : option goerror * Manager S :=
  match tracked m !! id with
  | None => (Some (ErrNew ("campaign state not found: " +:+ id)), m)
  | Some st =>
      match GetCampaign (store m) id with
      | inr err => (Some err, m)
      | inl campaign =>
          let m := set_state id (st <| StateCampaign := campaign |>) m in
          let m := (updateMetrics now id m).2 in
          let m := (checkCampaignCompletion now id m).2 in
          (None, if AutoRestart campaign && String.eqb (CampStatus campaign) CampaignStatusCompleted
                 then checkAutoRestart now id m else m)
      end
  end.

(** [order] is the order of the range over the tracked campaigns. *)
Fixpoint updateAllCampaigns now (order : list string) m : Manager S :=
  match order with
  | [] => m
  | id :: order => updateAllCampaigns now order (updateCampaignState now id m).2
  end.

(** The goroutine of the first scheduled restart. *)
Definition run_restart now m : Manager S :=
  match restarts m with
  | [] => m
  | id :: rest =>
      let m := m <| restarts := rest |> in
      match UpdateCampaign (store m) id [("status", UString CampaignStatusRunning); ("completed_at", UNil)] with
      | (Some _, s') => m <| store := s' |>
      | (None, s') => (updateCampaignState now id (m <| store := s' |>)).2
      end
  end.

Definition load_one now (m : Manager S) (campaign : Campaign) : Manager S :=
  if String.eqb (CampStatus campaign) CampaignStatusRunning || String.eqb (CampStatus campaign) CampaignStatusPending then
    match GetCampaignJobs (store m) (CampID campaign) with
    | inr _ => m
    | inl jobs => set_state (CampID campaign) (foldl categorize (new_state (now 0%nat) (now 1%nat) campaign) jobs) m
    end
  else m.

Definition loadCampaigns now m : option goerror * Manager S :=
  match ListCampaigns (store m) 1000 0 "" with
  | inr err => (Some err, m)
  | inl campaigns => (None, foldl (load_one now) m campaigns)
  end.

(** The first campaign, in the order of the range, that has the job active. *)
Definition handleJobCompletion now (order : list string) (jobID : string) m : Manager S :=
  match List.find (λ id, negb (String.eqb id "") &&
          match tracked m !! id with Some st => if ActiveJobs st !! jobID is Some _ then true else false | None => false end) order with
  | Some id => (updateCampaignState now id m).2
  | None => m
  end.

Definition GetCampaignState (id : string) m : option CampaignState := tracked m !! id.
Definition AddCampaign now (campaign : Campaign) m : Manager S :=
  set_state (CampID campaign) (new_state (now 0%nat) (now 1%nat) campaign) m.
Definition RemoveCampaign (id : string) m : Manager S := m <| tracked := delete id (tracked m) |>.
Definition GetActiveCampaigns (order : list CampaignState) : list CampaignState :=
  List.filter (λ st, String.eqb (CampStatus (StateCampaign st)) CampaignStatusRunning) order.

End manager.

(** ** What a refresh counts *)

Definition busy (j : MJob) : bool := slice_has (JobState j) [JobStatusRunning; JobStatusAssigned].
Definition done_well (j : MJob) : bool := String.eqb (JobState j) JobStatusCompleted.
Definition done_badly (j : MJob) : bool := slice_has (JobState j) [JobStatusFailed; JobStatusTimedOut].
Definition number (p : MJob → bool) (l : list MJob) : Z := Z.of_nat (length (List.filter p l)).

Lemma number_cons p j l : number p (j :: l) = (if p j then 1 else 0) + number p l.
Proof. unfold number. simpl. destruct (p j); simpl; lia. Qed.

Lemma number_range p l : 0 ≤ number p l ≤ Z.of_nat (length l).
Proof. unfold number. pose proof (List.filter_length_le p l). lia. Qed.

Lemma number_perm p l1 l2 : l1 ≡ₚ l2 → number p l1 = number p l2.
Proof. intros Hp. unfold number. by rewrite (length_filter_perm p _ _ Hp). Qed.

(** The counters after the jobs [l], starting from counters within [b]. *)
Definition counts_from (st st' : CampaignState) (l : list MJob) : Prop :=
  TotalJobs (Metrics st') = TotalJobs (Metrics st) + Z.of_nat (length l) ∧
  ActiveCount (Metrics st') = ActiveCount (Metrics st) + number busy l ∧
  CompletedCount (Metrics st') = CompletedCount (Metrics st) + number done_well l ∧
  FailedCount (Metrics st') = FailedCount (Metrics st) + number done_badly l ∧
  (ActiveJobs st' = ∅ ↔ ActiveJobs st = ∅ ∧ number busy l = 0) ∧
  StateCampaign st' = StateCampaign st.

Definition counters_within (b : Z) (m : CampaignMetrics) : Prop :=
  0 ≤ TotalJobs m ≤ b ∧ 0 ≤ ActiveCount m ≤ b ∧ 0 ≤ CompletedCount m ≤ b ∧ 0 ≤ FailedCount m ≤ b.

Lemma counts_step (st : CampaignState) j b : counters_within b (Metrics st) → b < maxInt64 →
  counts_from st (count_job st j) [j] ∧ counters_within (b + 1) (Metrics (count_job st j)).
Proof.
  intros (H1 & H2 & H3 & H4) Hb. unfold counts_from. rewrite !number_cons. change (number busy []) with 0.
  change (number done_well []) with 0. change (number done_badly []) with 0. rewrite !Z.add_0_r.
  assert (∀ z, 0 ≤ z ≤ b → wrap64 (z + 1) = z + 1) as Hw by (intros z Hz; apply wrap64_id; unfold in_int64, minInt64, maxInt64 in *; lia).
  assert (∀ (a : gmap string MJob) k x, <[k := x]> a ≠ ∅) as Hne by (intros; apply insert_non_empty).
  unfold count_job. fold (busy j) (done_well j) (done_badly j).
  destruct (busy j) eqn:Eb; [|destruct (done_well j) eqn:Ew; [|destruct (done_badly j) eqn:Ed]].
  - assert (done_well j = false ∧ done_badly j = false) as [-> ->].
    { unfold busy, done_well, done_badly in *. apply slice_has_true in Eb. set_unfold in Eb. destruct Eb as [->|[->|[]]]; done. }
    unfold counters_within. simpl. rewrite !Hw by lia. split; [split_and!; try lia; try done; naive_solver|lia].
  - assert (done_badly j = false) as ->.
    { unfold done_well, done_badly in *. apply String.eqb_eq in Ew. by rewrite Ew. }
    unfold counters_within. simpl. rewrite !Hw by lia. split; [split_and!; try lia; try done; naive_solver|lia].
  - unfold counters_within. simpl. rewrite !Hw by lia. split; [split_and!; try lia; try done; naive_solver|lia].
  - unfold counters_within. simpl. rewrite !Hw by lia. split; [split_and!; try lia; try done; naive_solver|lia].
Qed.

Lemma counts_from_cons st st1 st2 j l : counts_from st st1 [j] → counts_from st1 st2 l → counts_from st st2 (j :: l).
Proof.
  unfold counts_from. rewrite !number_cons. change (number busy []) with 0. change (number done_well []) with 0.
  change (number done_badly []) with 0. intros (A1 & A2 & A3 & A4 & A5 & A6) (B1 & B2 & B3 & B4 & B5 & B6).
  pose proof (number_range busy l). simpl length in *. split_and!; try lia; [|congruence].
  rewrite B5, A5. destruct (busy j); intuition lia.
Qed.

Lemma counts_fold l st b : counters_within b (Metrics st) → b + Z.of_nat (length l) ≤ maxInt64 →
  counts_from st (foldl count_job st l) l.
Proof.
  revert st b. induction l as [|j l IH]; intros st b Hb Hl.
  { unfold counts_from, number. simpl. rewrite !Z.add_0_r. split_and!; try done. naive_solver. }
  cbn [foldl length] in *. destruct (counts_step st j b) as [H1 H2]; [done|lia|].
  eapply counts_from_cons; [done|]. apply (IH _ (b + 1)); [done|lia].
Qed.

Lemma count_groups m l :
  let m' := foldl count_group m l in
  TotalJobs m' = TotalJobs m ∧ CompletedCount m' = CompletedCount m ∧ FailedCount m' = FailedCount m ∧ ActiveCount m' = ActiveCount m.
Proof.
  revert m. induction l as [|g l IH]; intros m; simpl; [done|]. destruct (IH (count_group m g)) as (-> & -> & -> & ->).
  unfold count_group. by repeat case_match.
Qed.

Section monitor.
Context {S : Type} `{CampaignStorageLaws S}.
Variable GetCrashGroups : S → string → list CrashGroup + goerror.
Variable GetEvolution : S → string → list CorpusEvolution + goerror.
Implicit Types (m : Manager S) (now : nat → Time).

(** The metrics a refresh leaves are the exact numbers of jobs by status. *)
Definition exact_metrics (l : list MJob) (st : CampaignState) : Prop :=
  TotalJobs (Metrics st) = Z.of_nat (length l) ∧ ActiveCount (Metrics st) = number busy l ∧
  CompletedCount (Metrics st) = number done_well l ∧ FailedCount (Metrics st) = number done_badly l ∧
  (size (ActiveJobs st) = 0%nat ↔ number busy l = 0).

Lemma refreshed_exact t1 t2 s id l st : Z.of_nat (length l) ≤ maxInt64 →
  let st' := refreshed GetCrashGroups GetEvolution t1 t2 s id l st in
  exact_metrics l st' ∧ StateCampaign st' = StateCampaign st.
Proof.
  intros Hl st'. subst st'. unfold refreshed, exact_metrics.
  set (st0 := st <| ActiveJobs := ∅ |> <| CompletedJobs := ∅ |> <| Metrics := empty_metrics t1 |>).
  destruct (counts_fold l st0 0) as (E1 & E2 & E3 & E4 & E5 & E6); [unfold counters_within; simpl; lia|lia|].
  set (st1 := foldl count_job st0 l) in *. cbv zeta.
  set (m1 := match GetCrashGroups s id with inl groups => _ | inr _ => _ end).
  assert (TotalJobs m1 = TotalJobs (Metrics st1) ∧ CompletedCount m1 = CompletedCount (Metrics st1) ∧
    FailedCount m1 = FailedCount (Metrics st1) ∧ ActiveCount m1 = ActiveCount (Metrics st1)) as (M1 & M2 & M3 & M4).
  { subst m1. destruct (GetCrashGroups s id) as [groups|]; [|done].
    by destruct (count_groups ((Metrics st1) <| UniqueCrashes := Z.of_nat (length groups) |>) groups) as (-> & -> & -> & ->). }
  set (m2 := match GetEvolution s id with inl evolution => _ | inr _ => _ end).
  assert (TotalJobs m2 = TotalJobs m1 ∧ CompletedCount m2 = CompletedCount m1 ∧
    FailedCount m2 = FailedCount m1 ∧ ActiveCount m2 = ActiveCount m1) as (N1 & N2 & N3 & N4).
  { subst m2. destruct (GetEvolution s id) as [ev|]; [|done]. by destruct (last ev). }
  simpl. rewrite N1, N2, N3, N4, M1, M2, M3, M4, E1, E2, E3, E4, map_size_empty_iff, E5, E6. simpl. split; [|done].
  split_and!; try lia. naive_solver.
Qed.

(** ** One check of a campaign *)

(** The verdict on a running campaign with the jobs [l]. *)
Definition verdict (l : list MJob) : CampaignStatus :=
  if number done_well l <? number done_badly l then CampaignStatusFailed else CampaignStatusCompleted.
(** No job is running or assigned, and there is one. *)
Definition all_quiet (l : list MJob) : bool := (number busy l =? 0) && negb (Nat.eqb (length l) 0).

(** A completed campaign with auto-restart whose completion time is unknown or
    thirty seconds old. *)
Definition restart_due (t : Time) (c : Campaign) : bool :=
  AutoRestart c && String.eqb (CampStatus c) CampaignStatusCompleted &&
  negb (match CampCompletedAt c with Some u => time_sub t u <? 30 * Second | None => false end).

(** What a check that goes through leaves. *)
Definition checked now (id : string) (c : Campaign) (l : list MJob) m m' : Prop :=
  restarts m' = restarts m ++ (if restart_due (now 3%nat) c then [id] else []) ∧
  (∃ st', tracked m' = <[id := st']> (tracked m) ∧ StateCampaign st' = c ∧ exact_metrics l st' ∧
     messages m' = messages m ++ [MetricsUpdate id (Metrics st')] ++
       (if String.eqb (CampStatus c) CampaignStatusRunning && all_quiet l
        then [CampaignCompleted id (verdict l) (Metrics st')] else [])) ∧
  (if String.eqb (CampStatus c) CampaignStatusRunning && all_quiet l
   then ∃ t, view (store m') =
     mkView (<[id := c <| CampUpdatedAt := t |> <| CampStatus := verdict l |> <| CampCompletedAt := None |>]> (v_campaigns (view (store m))))
       (v_jobs (view (store m))) (v_links (view (store m)))
   else store m' = store m).

Lemma check_completion_spec `{!ReliableStorage S} now id c l st m :
  tracked m !! id = Some st → StateCampaign st = c → exact_metrics l st → v_campaigns (view (store m)) !! id = Some c →
  let m' := (checkCampaignCompletion now id m).2 in
  restarts m' = restarts m ∧ tracked m' = tracked m ∧
  messages m' = messages m ++ (if String.eqb (CampStatus c) CampaignStatusRunning && all_quiet l
                               then [CampaignCompleted id (verdict l) (Metrics st)] else []) ∧
  (if String.eqb (CampStatus c) CampaignStatusRunning && all_quiet l
   then ∃ t, view (store m') =
     mkView (<[id := c <| CampUpdatedAt := t |> <| CampStatus := verdict l |> <| CampCompletedAt := None |>]> (v_campaigns (view (store m))))
       (v_jobs (view (store m))) (v_links (view (store m)))
   else store m' = store m).
Proof.
  intros Ht <- (E1 & _ & E3 & E4 & E5) Hc. unfold checkCampaignCompletion. rewrite Ht.
  destruct (String.eqb (CampStatus (StateCampaign st)) CampaignStatusRunning); cbn [negb andb]; [|by rewrite app_nil_r].
  assert (Nat.eqb (size (ActiveJobs st)) 0 && (0 <? TotalJobs (Metrics st)) = all_quiet l) as ->.
  { unfold all_quiet. rewrite E1. f_equal.
    - destruct (Nat.eqb_spec (size (ActiveJobs st)) 0), (Z.eqb_spec (number busy l) 0); tauto.
    - destruct l; simpl; [done|]. by apply Z.ltb_lt. }
  destruct (all_quiet l); [|by rewrite app_nil_r]. rewrite E3, E4. fold (verdict l).
  set (u := [("status", UString (verdict l)); ("completed_at", UTime (now 2%nat))]).
  destruct (UpdateCampaign (store m) id u) as [r s'] eqn:Eu.
  assert (r = None) as -> by (pose proof (reliable_update (store m) id u) as Hr; rewrite Eu in Hr; apply Hr; by eexists).
  apply update_ok in Eu as (c0 & c' & Hc0 & [t ->] & Hv); [|done]. rewrite Hc in Hc0. injection Hc0 as <-.
  simpl. split_and!; [done..|]. exists t. exact Hv.
Qed.

Lemma update_metrics_spec `{!ReliableStorage S} now id st m :
  Z.of_nat (length (linked_jobs (view (store m)) id)) ≤ maxInt64 → tracked m !! id = Some st →
  let m' := (updateMetrics GetCrashGroups GetEvolution now id m).2 in
  ∃ st', tracked m' = <[id := st']> (tracked m) ∧ exact_metrics (linked_jobs (view (store m)) id) st' ∧
    StateCampaign st' = StateCampaign st ∧ store m' = store m ∧ restarts m' = restarts m ∧
    messages m' = messages m ++ [MetricsUpdate id (Metrics st')].
Proof.
  intros Hl Ht. unfold updateMetrics. rewrite Ht. destruct (reliable_jobs (store m) id) as [l El]. rewrite El.
  apply get_campaign_jobs in El. pose proof (Permutation_length El) as Hlen.
  destruct (refreshed_exact (now 0%nat) (now 1%nat) (store m) id l st) as [Hx Hs]; [lia|].
  eexists. split_and!; [done| |done|done|done|done]. destruct Hx as (X1 & X2 & X3 & X4 & X5).
  unfold exact_metrics. rewrite <- !(number_perm _ _ _ El), <- Hlen. by split_and!.
Qed.

Lemma check_campaign `{!ReliableStorage S} now id c st m :
  tracked m !! id = Some st → v_campaigns (view (store m)) !! id = Some c →
  Z.of_nat (length (linked_jobs (view (store m)) id)) ≤ maxInt64 →
  ∃ m', updateCampaignState GetCrashGroups GetEvolution now id m = (None, m') ∧
    checked now id c (linked_jobs (view (store m)) id) m m'.
Proof.
  intros Ht Hc Hl. unfold updateCampaignState. rewrite Ht, (reliable_get _ _ _ Hc). eexists. split; [done|].
  set (m1 := set_state id (st <| StateCampaign := c |>) m).
  destruct (update_metrics_spec now id (st <| StateCampaign := c |>) m1) as (st2 & Et & Hx & Hsc & Es & Er & Em);
    [done|by apply lookup_insert_eq|]. cbn [store m1 set_state set_field] in Hx, Es.
  set (m2 := (updateMetrics _ _ now id m1).2) in *.
  destruct (check_completion_spec now id c (linked_jobs (view (store m)) id) st2 m2) as (Er3 & Et3 & Em3 & Es3).
  { rewrite Et. by apply lookup_insert_eq. } { done. } { done. } { by rewrite Es. }
  set (m3 := (checkCampaignCompletion now id m2).2) in *.
  set (m4 := if AutoRestart c && _ then checkAutoRestart now id m3 else m3).
  assert (tracked m4 = tracked m3 ∧ store m4 = store m3 ∧ messages m4 = messages m3 ∧
    restarts m4 = restarts m3 ++ (if restart_due (now 3%nat) c then [id] else [])) as (F1 & F2 & F3 & F4).
  { subst m4. unfold checkAutoRestart, restart_due.
    assert (tracked m3 !! id = Some st2) as -> by (rewrite Et3, Et; apply lookup_insert_eq). rewrite Hsc. cbn [StateCampaign set_field].
    destruct (AutoRestart c); cbn [andb negb orb]; [|by rewrite app_nil_r].
    destruct (String.eqb (CampStatus c) CampaignStatusCompleted); cbn [andb negb orb]; [|by rewrite app_nil_r].
    destruct (CampCompletedAt c) as [u|]; [|done]. destruct (_ <? 30 * Second); simpl; [by rewrite app_nil_r|done]. }
  split_and!.
  - rewrite F4, Er3, Er. done.
  - exists st2. rewrite F1, Et3, Et, F3, Em3, Em. split_and!; [|done|done|by rewrite <- app_assoc].
    cbn [m1 set_state tracked set_field]. by rewrite insert_insert_eq.
  - rewrite F2. rewrite Es in Es3. exact Es3.
Qed.

(** What one check does to a tracked campaign in good health.  Its metrics
    are the exact numbers of its jobs by status.  If the campaign is running and
    has jobs, none of them running or assigned, it becomes failed when more jobs
    failed than completed, and completed otherwise; in every other case nothing
    is stored.  Pending jobs do not count: a campaign whose jobs all wait for a
    bot is completed by the first check.  And the completion time is lost: it is
    handed over as a value where the storage expects a pointer. *)
Theorem check_exact `{!ReliableStorage S} now id c st m r m' :
  tracked m !! id = Some st → v_campaigns (view (store m)) !! id = Some c →
  Z.of_nat (length (linked_jobs (view (store m)) id)) ≤ maxInt64 →
  updateCampaignState GetCrashGroups GetEvolution now id m = (r, m') →
  let l := linked_jobs (view (store m)) id in
  r = None ∧ (∃ st', tracked m' !! id = Some st' ∧ exact_metrics l st') ∧
  v_jobs (view (store m')) = v_jobs (view (store m)) ∧
  (∃ c', v_campaigns (view (store m')) !! id = Some c' ∧
     CampStatus c' = (if String.eqb (CampStatus c) CampaignStatusRunning && all_quiet l then verdict l else CampStatus c) ∧
     (String.eqb (CampStatus c) CampaignStatusRunning && all_quiet l = true → CampCompletedAt c' = None)) ∧
  (l ≠ [] → (∀ j, j ∈ l → JobState j = JobStatusPending) → all_quiet l = true ∧ verdict l = CampaignStatusCompleted).
Proof.
  intros Ht Hc Hl E l. destruct (check_campaign now id c st m Ht Hc Hl) as (m1 & E1 & _ & (st' & Et & _ & Hx & _) & Hs).
  rewrite E in E1. injection E1 as -> ->. split_and!; [done| | | |].
  - exists st'. by rewrite Et, lookup_insert_eq.
  - destruct (_ && _); [by destruct Hs as [t ->]|by rewrite Hs].
  - destruct (_ && _); [destruct Hs as [t ->]|rewrite Hs; by exists c].
    simpl. rewrite lookup_insert_eq. eexists. by split_and!.
  - intros Hne Hp. assert (∀ p, (∀ j, JobState j = JobStatusPending → p j = false) → number p l = 0) as Hzero.
    { intros p Hf. unfold number. replace (List.filter p l) with ([] : list MJob); [done|]. clear -Hp Hf.
      induction l as [|j k IH]; simpl; [done|]. rewrite Hf by (apply Hp; by left). apply IH. intros x Hx. apply Hp. by right. }
    unfold all_quiet, verdict. rewrite (Hzero busy), (Hzero done_well), (Hzero done_badly)
      by (intros j Hj; unfold busy, done_well, done_badly; by rewrite Hj).
    by destruct l.
Qed.

(** ** Automatic restarts *)

(** A check and the restart it schedules, [n] times over. *)
Fixpoint rounds (clock : nat → nat → Time) (id : string) (n : nat) m : Manager S :=
  match n with
  | O => m
  | Datatypes.S n => rounds clock id n (run_restart GetCrashGroups GetEvolution (clock (2 * n + 1)%nat)
      (updateCampaignState GetCrashGroups GetEvolution (clock (2 * n)%nat) id m).2)
  end.

Definition completions (id : string) (l : list message) : Z :=
  Z.of_nat (length (List.filter (λ x, match x with CampaignCompleted i _ _ => String.eqb i id | _ => false end) l)).

Lemma completions_app id l1 l2 : completions id (l1 ++ l2) = completions id l1 + completions id l2.
Proof. unfold completions. rewrite List.filter_app, length_app. lia. Qed.

(** A completed campaign with automatic restart that has no work left. *)
Definition spinning (id : string) (l : list MJob) (status : CampaignStatus) m : Prop :=
  restarts m = [] ∧ is_Some (tracked m !! id) ∧ linked_jobs (view (store m)) id = l ∧
  ∃ c, v_campaigns (view (store m)) !! id = Some c ∧ AutoRestart c = true ∧ CampStatus c = status ∧ CampCompletedAt c = None.

Lemma spinning_running `{!ReliableStorage S} now id l m : all_quiet l = true → verdict l = CampaignStatusCompleted →
  Z.of_nat (length l) ≤ maxInt64 → spinning id l CampaignStatusRunning m →
  let m' := (updateCampaignState GetCrashGroups GetEvolution now id m).2 in
  spinning id l CampaignStatusCompleted m' ∧ v_jobs (view (store m')) = v_jobs (view (store m)) ∧
  v_links (view (store m')) = v_links (view (store m)) ∧ completions id (messages m') = completions id (messages m) + 1.
Proof.
  intros Hq Hv Hl (Hr & [st Ht] & Hlj & c & Hc & Ha & Hst & Hco).
  destruct (check_campaign now id c st m Ht Hc) as (m' & -> & Er & (st' & Et & Esc & _ & Em) & Es); [by rewrite Hlj|].
  rewrite Hlj, Hst, Hq in *. cbn [andb String.eqb] in Em, Es. change (String.eqb _ _ && true) with true in *.
  destruct Es as [t Es]. rewrite Hv in *. cbv zeta. cbn [snd]. unfold spinning. split_and!.
  - rewrite Er, Hr. unfold restart_due. by rewrite Ha, Hst.
  - rewrite Et, lookup_insert_eq. by eexists.
  - by rewrite Es.
  - rewrite Es. simpl. rewrite lookup_insert_eq. eexists. by split_and!.
  - by rewrite Es.
  - by rewrite Es.
  - rewrite Em, completions_app. unfold completions. simpl. rewrite String.eqb_refl. simpl. lia.
Qed.

Lemma spinning_restart `{!ReliableStorage S} now1 now2 id l m : all_quiet l = true → verdict l = CampaignStatusCompleted →
  Z.of_nat (length l) ≤ maxInt64 → spinning id l CampaignStatusCompleted m →
  let m' := run_restart GetCrashGroups GetEvolution now2 (updateCampaignState GetCrashGroups GetEvolution now1 id m).2 in
  spinning id l CampaignStatusCompleted m' ∧ v_jobs (view (store m')) = v_jobs (view (store m)) ∧
  v_links (view (store m')) = v_links (view (store m)) ∧ completions id (messages m') = completions id (messages m) + 1.
Proof.
  intros Hq Hv Hl (Hr & [st Ht] & Hlj & c & Hc & Ha & Hst & Hco).
  destruct (check_campaign now1 id c st m Ht Hc) as (m1 & -> & Er & (st1 & Et & Esc & _ & Em) & Es); [by rewrite Hlj|].
  rewrite Hst in Em, Es. cbn [andb] in Em, Es. change (String.eqb CampaignStatusCompleted CampaignStatusRunning && all_quiet _) with false in Em, Es.
  rewrite app_nil_r in Em. cbv zeta iota in Es. cbn [snd]. unfold run_restart.
  assert (restarts m1 = [id]) as -> by (rewrite Er, Hr; unfold restart_due; by rewrite Ha, Hst, Hco).
  set (u := [("status", UString CampaignStatusRunning); ("completed_at", UNil)]).
  cbn [store set_field]. destruct (UpdateCampaign (store m1) id u) as [r s'] eqn:Eu.
  assert (r = None) as -> by (pose proof (reliable_update (store m1) id u) as Hru; rewrite Eu in Hru; apply Hru; rewrite Es; by eexists).
  apply update_ok in Eu as (c0 & c' & Hc0 & [t ->] & Hv'); [|done]. rewrite Es, Hc in Hc0. injection Hc0 as <-.
  rewrite Es in Hv'.
  edestruct (spinning_running now2 id l) as (H1 & H2 & H3 & H4); [done|done|done| |].
  2: { split_and!; [exact H1|rewrite H2; cbn [store]; by rewrite Hv'|rewrite H3; cbn [store]; by rewrite Hv'|].
       rewrite H4. cbn [messages]. rewrite Em, completions_app. unfold completions at 2. simpl. lia. }
  unfold spinning. split_and!; [done| | |].
  - cbn [tracked]. rewrite Et, lookup_insert_eq. by eexists.
  - cbn [store]. rewrite Hv'. exact Hlj.
  - cbn [store]. rewrite Hv'. cbn [v_campaigns]. rewrite lookup_insert_eq. eexists. split; [done|]. by split_and!.
Qed.

(** A campaign with automatic restart whose jobs have all ended restarts for
    ever without doing anything.  Every check after the completion sets it to
    running at once, because the completion time that should delay this by
    thirty seconds was lost; no job is created; and the refresh that follows the
    restart completes the campaign again. *)
Theorem auto_restart_spins `{!ReliableStorage S} clock now id c st m n :
  let l := linked_jobs (view (store m)) id in
  restarts m = [] → tracked m !! id = Some st → v_campaigns (view (store m)) !! id = Some c →
  AutoRestart c = true → CampStatus c = CampaignStatusRunning → CampCompletedAt c = None →
  all_quiet l = true → verdict l = CampaignStatusCompleted → Z.of_nat (length l) ≤ maxInt64 →
  let m' := rounds clock id n (updateCampaignState GetCrashGroups GetEvolution now id m).2 in
  CampStatus <$> v_campaigns (view (store m')) !! id = Some CampaignStatusCompleted ∧
  v_jobs (view (store m')) = v_jobs (view (store m)) ∧ v_links (view (store m')) = v_links (view (store m)) ∧
  completions id (messages m') = completions id (messages m) + 1 + Z.of_nat n.
Proof.
  intros l Hr Ht Hc Ha Hst Hco Hq Hv Hl.
  destruct (spinning_running now id l m Hq Hv Hl) as (Hs & E1 & E2 & E3); [unfold spinning; split_and!; [done|by eexists|done|by exists c]|].
  set (m1 := (updateCampaignState _ _ now id m).2) in *.
  assert (∀ n m1, spinning id l CampaignStatusCompleted m1 →
    let m' := rounds clock id n m1 in
    spinning id l CampaignStatusCompleted m' ∧ v_jobs (view (store m')) = v_jobs (view (store m1)) ∧
    v_links (view (store m')) = v_links (view (store m1)) ∧ completions id (messages m') = completions id (messages m1) + Z.of_nat n) as Hn.
  { clear -Hq Hv Hl H0 ReliableStorage0. induction n as [|n IH]; intros m1 Hs; cbn [rounds]; [split_and!; [exact Hs|done|done|lia]|].
    destruct (spinning_restart (clock (2 * n)%nat) (clock (2 * n + 1)%nat) id l m1 Hq Hv Hl Hs) as (Hs2 & F1 & F2 & F3).
    destruct (IH _ Hs2) as (Hs3 & G1 & G2 & G3). split_and!; [exact Hs3|congruence|congruence|lia]. }
  destruct (Hn n m1 Hs) as ((_ & _ & _ & c' & Hc' & _ & Hst' & _) & F1 & F2 & F3).
  split_and!; [by rewrite Hc'; simpl; rewrite Hst'|congruence|congruence|lia].
Qed.

End monitor.

(** ** Instances *)

Definition config : JobConfig := mkJobConfig Hour 0 0 "" [] "".
Definition campaign : Campaign := mkCampaign "c1" "fuzz" "" CampaignStatusRunning "bin" "" 0 0 None true 0 2 config true [].
Definition a_job (id status : string) : MJob :=
  mkMJob id id "bin" "afl++" "" status None 0 None None 0 "" config 0 None None false None 0 false "" None None None None.
Definition start (status : string) : Manager StoreView :=
  mkManager {[ "c1" := new_state 0 0 campaign ]}
    (mkView {[ "c1" := campaign ]} {[ "j1" := a_job "j1" status ]} [("c1", "j1")]) [] [].
Definition no_groups (_ : StoreView) (_ : string) : list CrashGroup + goerror := inl [].
Definition no_evolution (_ : StoreView) (_ : string) : list CorpusEvolution + goerror := inl [].
Definition ticks (n : nat) : Time := Z.of_nat n.

Lemma one_job_length status : Z.of_nat (length (linked_jobs (store (start status)) "c1")) ≤ maxInt64.
Proof. vm_compute. discriminate. Qed.

Lemma check_exact_witness :
  ∃ m' c', updateCampaignState no_groups no_evolution ticks "c1" (start JobStatusPending) = (None, m') ∧
    v_campaigns (view (store m')) !! "c1" = Some c' ∧ CampStatus c' = CampaignStatusCompleted.
Proof.
  destruct (updateCampaignState no_groups no_evolution ticks "c1" (start JobStatusPending)) as [r m'] eqn:E.
  edestruct (check_exact no_groups no_evolution ticks "c1" campaign (new_state 0 0 campaign) (start JobStatusPending) r m')
    as (-> & _ & _ & (c' & Hc' & Hs & _) & Hp); [reflexivity|reflexivity|apply one_job_length|exact E|].
  exists m', c'. split; [reflexivity|]. split; [exact Hc'|]. rewrite Hs.
  destruct Hp as [Hq Hv]; [vm_compute; discriminate| |rewrite Hq, Hv; reflexivity].
  intros j Hj. apply list_elem_of_In in Hj. vm_compute in Hj. destruct Hj as [<-|[]]. reflexivity.
Defined.

Lemma auto_restart_spins_witness :
  completions "c1" (messages (rounds no_groups no_evolution (λ _, ticks) "c1" 100
    (updateCampaignState no_groups no_evolution ticks "c1" (start JobStatusCompleted)).2)) = 101.
Proof.
  edestruct (auto_restart_spins no_groups no_evolution (λ _, ticks) ticks "c1" campaign (new_state 0 0 campaign)
    (start JobStatusCompleted) 100) as (_ & _ & _ & H);
    [reflexivity|reflexivity|reflexivity|reflexivity|reflexivity|reflexivity|vm_compute; reflexivity|vm_compute; reflexivity
    |apply one_job_length|].
  rewrite H. reflexivity.
Defined.
