(* ===== verification/DomainCampaign.v ===== *)
(** * The campaign domain: src/pkg/domain/campaign/types

    States with their transition table (state.go) and the campaign entity
    (campaign.go); clock readings are arguments. *)

From Stdlib Require Import Lia.
From S2P Require Import Prelude.

Abbreviation State := string (only parsing).
Definition StateDraft : State := "draft".
Definition StateActive : State := "active".
Definition StatePaused : State := "paused".
Definition StateCompleted : State := "completed".

Definition AllStates : list State := [StateDraft; StateActive; StatePaused; StateCompleted].

Definition state_Validate (s : State) : option goerror :=
  if slice_has s AllStates then None else Some (ErrNew ("invalid campaign state: " +:+ s)).

Definition state_transitions : gmap string (list State) :=
  {[ StateDraft := [StateActive]; StateActive := [StatePaused; StateCompleted];
     StatePaused := [StateActive; StateCompleted]; StateCompleted := [] ]}.

Definition state_CanTransitionTo (s target : State) : bool :=
  match state_transitions !! s with Some allowed => slice_has target allowed | None => false end.

Definition state_IsTerminal (s : State) : bool := String.eqb s StateCompleted.

Definition ParseState (s : string) : res State :=
  match state_Validate s with Some err => Err err | None => Ok s end.
Definition MustParseState (s : string) : res State :=
  match ParseState s with Ok s => Ok s | Err err => Panic (Error err) | Panic w => Panic w end.

Record Campaign := mkCampaign {
  CampaignID : string; CampaignName : string; CampaignDescription : string; CampaignStatus : State;
  CampaignCreatedAt : Time; CampaignUpdatedAt : Time }.
#[export] Instance Campaign_eta : Eta Campaign := fun c =>
  mkCampaign (CampaignID c) (CampaignName c) (CampaignDescription c) (CampaignStatus c) (CampaignCreatedAt c) (CampaignUpdatedAt c).

Definition NewCampaign (now : Time) (id name description : string) : res Campaign :=
  if String.eqb id "" then Err (ErrNew "campaign ID cannot be empty")
  else if String.eqb name "" then Err (ErrNew "campaign name cannot be empty")
  else Ok (mkCampaign id name description StateDraft now now).

Definition campaign_UpdateStatus (now : Time) (newStatus : State) (c : Campaign) : res Campaign :=
  match state_Validate newStatus with
  | Some err => Err err
  | None =>
      if negb (state_CanTransitionTo (CampaignStatus c) newStatus) then Err (ErrNew "invalid status transition")
      else Ok (c <| CampaignStatus := newStatus |> <| CampaignUpdatedAt := now |>)
  end.

Definition IsActive (c : Campaign) : bool := String.eqb (CampaignStatus c) StateActive.
Definition CanBeModified (c : Campaign) : bool :=
  String.eqb (CampaignStatus c) StateDraft || String.eqb (CampaignStatus c) StatePaused.
Definition campaign_Validate (c : Campaign) : option goerror :=
  if String.eqb (CampaignID c) "" then Some (ErrNew "campaign ID cannot be empty")
  else if String.eqb (CampaignName c) "" then Some (ErrNew "campaign name cannot be empty")
  else state_Validate (CampaignStatus c).

(** ** The state machine *)

Lemma state_valid s : state_Validate s = None ↔ s ∈ AllStates.
Proof.
  unfold state_Validate. destruct (slice_has s AllStates) eqn:E; autorewrite with go_rw in E; naive_solver.
Qed.

Lemma state_moves s t : state_CanTransitionTo s t = true ↔
  (s = StateDraft ∧ t = StateActive) ∨
  ((s = StateActive ∨ s = StatePaused) ∧ t = StateCompleted) ∨
  (s = StateActive ∧ t = StatePaused) ∨ (s = StatePaused ∧ t = StateActive).
Proof.
  split.
  - unfold state_CanTransitionTo, state_transitions. intros H.
    destruct (decide (s = StateDraft)) as [->|].
    { change (slice_has t [StateActive] = true) in H. apply slice_has_true, list_elem_of_singleton in H as ->. by left. }
    destruct (decide (s = StateActive)) as [->|].
    { change (slice_has t [StatePaused; StateCompleted] = true) in H. apply slice_has_true in H.
      apply elem_of_cons in H as [->|H%list_elem_of_singleton]; [by right; right; left|subst t; right; left; by split; [left|]]. }
    destruct (decide (s = StatePaused)) as [->|].
    { change (slice_has t [StateActive; StateCompleted] = true) in H. apply slice_has_true in H.
      apply elem_of_cons in H as [->|H%list_elem_of_singleton]; [by do 3 right|subst t; right; left; by split; [right|]]. }
    destruct (decide (s = StateCompleted)) as [->|]; [done|].
    by rewrite !lookup_insert_ne, lookup_singleton_ne in H.
  - by intros [[-> ->]|[[[->| ->] ->]|[[-> ->]|[-> ->]]]].
Qed.

Lemma update_status_spec now st c : campaign_Validate c = None →
  match campaign_UpdateStatus now st c with
  | Ok c' => campaign_Validate c' = None ∧ state_CanTransitionTo (CampaignStatus c) st = true ∧
      CampaignStatus c' = st ∧ CampaignID c' = CampaignID c ∧ CampaignUpdatedAt c' = now
  | Err _ => state_CanTransitionTo (CampaignStatus c) st = false
  | Panic _ => False
  end.
Proof.
  unfold campaign_Validate, campaign_UpdateStatus. intros H.
  destruct (String.eqb_spec (CampaignID c) ""); [done|]. destruct (String.eqb_spec (CampaignName c) ""); [done|].
  destruct (state_Validate st) eqn:Ev.
  - destruct (state_CanTransitionTo (CampaignStatus c) st) eqn:E; [|done]. exfalso.
    assert (state_Validate st = None) as Hst; [|congruence]. apply state_valid.
    apply state_moves in E as [[_ ->]|[[_ ->]|[[_ ->]|[_ ->]]]]; apply list_elem_of_In; simpl; tauto.
  - destruct (state_CanTransitionTo (CampaignStatus c) st) eqn:E; cbn [negb]; [|done].
    split_and!; try done. simpl.
    destruct (String.eqb_spec (CampaignID c) ""); [done|]. destruct (String.eqb_spec (CampaignName c) ""); [done|]. done.
Qed.
