(* ===== verification/CampaignQuery.v ===== *)
(** * Campaign queries: src/pkg/domain/campaign/query

    The finder (finder.go): views of campaigns with a cache, filters, exchange
    sorts and pages; and the statistics (statistics.go), whose calendar
    boundaries (start of the day, the month, so many days ago) are arguments.
    The repository is given by its read operations. *)

From Stdlib Require Import Lia Sorted.
From S2P Require Import Prelude DomainCampaign.

Class CampaignRepository (R : Type) := {
  FindByID : R → string → Campaign + goerror;
  FindByName : R → string → list Campaign + goerror;
  FindByStatus : R → State → list Campaign + goerror;
  FindActive : R → list Campaign + goerror;
  List : R → Z → Z → (list Campaign * Z) + goerror;
  Exists : R → string → bool + goerror;
  CountByStatus : R → State → Z + goerror }.

Record CampaignDTO := mkDTO {
  DTO_ID : string; DTO_Name : string; DTO_Description : string; DTO_Status : string; DTO_CreatedAt : Time;
  DTO_UpdatedAt : Time; DTO_IsActive : bool; DTO_CanModify : bool; DTO_Metadata : gmap string string }.

Record CampaignListDTO := mkListDTO {
  Campaigns : list CampaignDTO; TotalCount : Z; CurrentPage : Z; TotalPages : Z; PageSize : Z }.

Record FilterOptions := mkFilter {
  F_Name : string; F_Status : State; F_Active : option bool; F_CreatedBefore : Time; F_CreatedAfter : Time;
  F_UpdatedBefore : Time; F_UpdatedAfter : Time; F_OrderBy : string; F_Ascending : bool; F_Limit : Z; F_Offset : Z }.

Definition campaignToDTO (c : Campaign) : CampaignDTO :=
  mkDTO (CampaignID c) (CampaignName c) (CampaignDescription c) (CampaignStatus c) (CampaignCreatedAt c)
    (CampaignUpdatedAt c) (IsActive c) (CanBeModified c) ∅.
Definition campaignsToDTOs (l : list Campaign) : list CampaignDTO := campaignToDTO <$> l.

(** ** Filters *)

(** [for i := 0; i <= len(s)-len(substr); i++ { s[i:i+len(substr)] == substr }] *)
Definition containsSubstring (s sub : string) : bool :=
  existsb (λ i, String.eqb (String.substring i (String.length sub) s) sub)
    (seq 0 (Z.to_nat (Z.of_nat (String.length s) - Z.of_nat (String.length sub) + 1))).
Definition contains (s sub : string) : bool :=
  Nat.leb (String.length sub) (String.length s) && (String.eqb s sub || containsSubstring s sub).

Definition IsZero (t : Time) : bool := t =? zero_time.

Definition matchesFilter (c : Campaign) (f : FilterOptions) : bool :=
  if negb (String.eqb (F_Name f) "") && negb (contains (CampaignName c) (F_Name f)) then false
  else if negb (String.eqb (F_Status f) "") && negb (String.eqb (CampaignStatus c) (F_Status f)) then false
  else if match F_Active f with Some a => negb (eqb (IsActive c) a) | None => false end then false
  else if negb (IsZero (F_CreatedAfter f)) && time_before (CampaignCreatedAt c) (F_CreatedAfter f) then false
  else if negb (IsZero (F_CreatedBefore f)) && time_after (CampaignCreatedAt c) (F_CreatedBefore f) then false
  else if negb (IsZero (F_UpdatedAfter f)) && time_before (CampaignUpdatedAt c) (F_UpdatedAfter f) then false
  else if negb (IsZero (F_UpdatedBefore f)) && time_after (CampaignUpdatedAt c) (F_UpdatedBefore f) then false
  else true.

(** ** The orders *)

Definition sortByName (ascending : bool) : list Campaign → list Campaign :=
  exchange_sort (λ a b, if ascending then String.ltb (CampaignName b) (CampaignName a) else String.ltb (CampaignName a) (CampaignName b)).
Definition sortByCreatedAt (ascending : bool) : list Campaign → list Campaign :=
  exchange_sort (λ a b, if ascending then time_after (CampaignCreatedAt a) (CampaignCreatedAt b)
                        else time_before (CampaignCreatedAt a) (CampaignCreatedAt b)).
Definition sortByUpdatedAt (ascending : bool) : list Campaign → list Campaign :=
  exchange_sort (λ a b, if ascending then time_after (CampaignUpdatedAt a) (CampaignUpdatedAt b)
                        else time_before (CampaignUpdatedAt a) (CampaignUpdatedAt b)).
Definition running_duration (now : Time) (c : Campaign) : Duration :=
  if String.eqb (CampaignStatus c) StateActive then time_sub now (CampaignCreatedAt c) else 0.
Definition sortByRunningDuration (now : Time) : list Campaign → list Campaign :=
  exchange_sort (λ a b, running_duration now a <? running_duration now b).

Definition sortCampaigns (l : list Campaign) (orderBy : string) (ascending : bool) : list Campaign :=
  if String.eqb orderBy "name" then sortByName ascending l
  else if String.eqb orderBy "created_at" then sortByCreatedAt ascending l
  else if String.eqb orderBy "updated_at" then sortByUpdatedAt ascending l
  else l.

(** ** The finder *)

Record campaignCache := mkCache { cached : gmap string (CampaignDTO * Time); ttl : Duration }.
Definition NewCampaignFinder : campaignCache := mkCache ∅ (5 * Minute).

Definition cache_get (now : Time) (id : string) (c : campaignCache) : option CampaignDTO :=
  match cached c !! id with
  | Some (dto, expiresAt) => if time_after now expiresAt then None else Some dto
  | None => None
  end.
Definition cache_set (now : Time) (id : string) (dto : CampaignDTO) (c : campaignCache) : campaignCache :=
  mkCache (<[id := (dto, time_add now (ttl c))]> (cached c)) (ttl c).
Definition ClearCache (c : campaignCache) : campaignCache := mkCache ∅ (ttl c).

Section finder.
Context {R : Type} `{CampaignRepository R}.
Implicit Types (r : R).

Definition finder_FindByID (now1 now2 : Time) r (id : string) (c : campaignCache) : (CampaignDTO + goerror) * campaignCache :=
  match cache_get now1 id c with
  | Some dto => (inl dto, c)
  | None =>
      match FindByID r id with
      | inr err => (inr (ErrWrap "finding campaign by ID" err), c)
      | inl campaign => let dto := campaignToDTO campaign in (inl dto, cache_set now2 id dto c)
      end
  end.

Definition finder_FindByName r (name : string) (limit : Z) : res (list CampaignDTO) :=
  match FindByName r name with
  | inr err => Err (ErrWrap "finding campaigns by name" err)
  | inl l =>
      let! l := (if (0 <? limit) && (limit <? Z.of_nat (length l)) then slice l 0 limit else Ok l) in
      Ok (campaignsToDTOs l)
  end.
Definition finder_FindActive r : list CampaignDTO + goerror :=
  match FindActive r with inr err => inr (ErrWrap "finding active campaigns" err) | inl l => inl (campaignsToDTOs l) end.
Definition finder_FindByStatus r (status : State) : list CampaignDTO + goerror :=
  match FindByStatus r status with inr err => inr (ErrWrap "finding campaigns by status" err) | inl l => inl (campaignsToDTOs l) end.

Definition finder_List r (page pageSize : Z) : CampaignListDTO + goerror :=
  let page := if page <? 1 then 1 else page in
  let pageSize := if pageSize <? 1 then 10 else pageSize in
  let offset := wrap64 (wrap64 (page - 1) * pageSize) in
  match List r offset pageSize with
  | inr err => inr (ErrWrap "listing campaigns" err)
  | inl (l, total) =>
      inl (mkListDTO (campaignsToDTOs l) total page (Z.quot (wrap64 (wrap64 (total + pageSize) - 1)) pageSize) pageSize)
  end.

Definition FindWithFilter r (f : FilterOptions) : res (list CampaignDTO) :=
  match List r 0 1000 with
  | inr err => Err (ErrWrap "finding campaigns with filter" err)
  | inl (campaigns, _) =>
      let filtered := sortCampaigns (List.filter (λ c, matchesFilter c f) campaigns) (F_OrderBy f) (F_Ascending f) in
      let n := Z.of_nat (length filtered) in
      let start := F_Offset f in
      let stop := wrap64 (start + F_Limit f) in
      if n <? start then Ok []
      else
        let stop := if n <? stop then n else stop in
        let! page := (if 0 <? F_Limit f then slice filtered start stop else Ok filtered) in
        Ok (campaignsToDTOs page)
  end.

Definition GetRecentlyUpdated (now : Time) r (since : Duration) : res (list CampaignDTO) :=
  FindWithFilter r (mkFilter "" "" None zero_time zero_time zero_time (time_add now (wrap64 (- since))) "updated_at" false 0 0).

(** ** Statistics *)

Record TimeRange := mkRange { RangeStart : Time; RangeEnd : Time }.

(** What the calendar makes of the present moment. *)
Record Calendar := mkCalendar {
  todayStart : Time; weekStart : Time; monthStart : Time; lastMonthStart : Time; sevenDaysAgo : Time; threeDaysAgo : Time }.

Record CampaignStatistics := mkStatistics {
  TotalCampaigns : Z; StatusDistribution : gmap string Z; ActiveCampaigns : Z; CompletedCampaigns : Z;
  AverageDuration : Duration; CreatedToday : Z; CreatedThisWeek : Z; CreatedThisMonth : Z; UpdatedRecently : Z;
  CompletionRate : float64 }.
#[export] Instance CampaignStatistics_eta : Eta CampaignStatistics := fun s =>
  mkStatistics (TotalCampaigns s) (StatusDistribution s) (ActiveCampaigns s) (CompletedCampaigns s) (AverageDuration s)
    (CreatedToday s) (CreatedThisWeek s) (CreatedThisMonth s) (UpdatedRecently s) (CompletionRate s).

Definition bump (b : bool) (z : Z) : Z := if b then wrap64 (z + 1) else z.
Definition in_range (range : option TimeRange) (c : Campaign) : bool :=
  match range with
  | Some r => negb (time_before (CampaignCreatedAt c) (RangeStart r) || time_after (CampaignCreatedAt c) (RangeEnd r))
  | None => true
  end.
Definition is_completed (c : Campaign) : bool := String.eqb (CampaignStatus c) StateCompleted.
Definition lifespan (c : Campaign) : Duration := time_sub (CampaignUpdatedAt c) (CampaignCreatedAt c).

Definition count_campaign (now : Time) (cal : Calendar) (range : option TimeRange)
    (st : CampaignStatistics * Duration) (c : Campaign) : CampaignStatistics * Duration :=
  let '(s, totalDuration) := st in
  if negb (in_range range c) then st
  else
    (mkStatistics (TotalCampaigns s)
       (<[CampaignStatus c := wrap64 (default 0 (StatusDistribution s !! CampaignStatus c) + 1)]> (StatusDistribution s))
       (bump (IsActive c) (ActiveCampaigns s)) (bump (is_completed c) (CompletedCampaigns s)) (AverageDuration s)
       (bump (time_after (CampaignCreatedAt c) (todayStart cal)) (CreatedToday s))
       (bump (time_after (CampaignCreatedAt c) (weekStart cal)) (CreatedThisWeek s))
       (bump (time_after (CampaignCreatedAt c) (monthStart cal)) (CreatedThisMonth s))
       (bump (time_after (CampaignUpdatedAt c) (time_add now (- (24 * Hour)))) (UpdatedRecently s))
       (CompletionRate s),
     if is_completed c then wrap64 (totalDuration + lifespan c) else totalDuration).

Definition percentage (a b : Z) : float64 := f64_mul (f64_div (f64_of_Z a) (f64_of_Z b)) (f64_of_Z 100).

(** The count of completed campaigns of the loop is [CompletedCampaigns]. *)
Definition calculateBasicStats (now : Time) (cal : Calendar) r (range : option TimeRange) : CampaignStatistics + goerror :=
  match List r 0 10000 with
  | inr err => inr err
  | inl (campaigns, total) =>
      let '(s, totalDuration) := foldl (count_campaign now cal range) (mkStatistics total ∅ 0 0 0 0 0 0 0 f64_zero, 0) campaigns in
      inl (if 0 <? CompletedCampaigns s
           then s <| AverageDuration := Z.quot totalDuration (CompletedCampaigns s) |>
                  <| CompletionRate := percentage (CompletedCampaigns s) (Z.of_nat (length campaigns)) |>
           else s)
  end.

Record ActivityMetrics := mkActivity {
  Period : Duration; CampaignsCreated : Z; CampaignsStarted : Z; CampaignsCompleted : Z; AverageLifespan : Duration }.

Definition count_activity (since : Time) (st : ActivityMetrics * Duration) (c : Campaign) : ActivityMetrics * Duration :=
  let '(m, totalLifespan) := st in
  let recent := time_after (CampaignUpdatedAt c) since in
  (mkActivity (Period m) (bump (time_after (CampaignCreatedAt c) since) (CampaignsCreated m))
     (bump (IsActive c && recent) (CampaignsStarted m)) (bump (is_completed c && recent) (CampaignsCompleted m)) (AverageLifespan m),
   if is_completed c && recent then wrap64 (totalLifespan + lifespan c) else totalLifespan).

Definition GetActivityMetrics (now : Time) r (period : Duration) : ActivityMetrics + goerror :=
  match List r 0 10000 with
  | inr err => inr (ErrWrap "listing campaigns" err)
  | inl (campaigns, _) =>
      let '(m, totalLifespan) := foldl (count_activity (time_add now (wrap64 (- period)))) (mkActivity period 0 0 0 0, 0) campaigns in
      inl (if 0 <? CampaignsCompleted m
           then mkActivity (Period m) (CampaignsCreated m) (CampaignsStarted m) (CampaignsCompleted m)
                  (Z.quot totalLifespan (CampaignsCompleted m))
           else m)
  end.

Record CampaignHealthMetrics := mkHealth {
  LongRunningCampaigns : Z; StagnantCampaigns : Z; SuccessRate : float64; AverageTimeToStart : Duration; AverageTimeToComplete : Duration }.

Definition calculateHealthMetrics (cal : Calendar) r : CampaignHealthMetrics + goerror :=
  match List r 0 10000 with
  | inr err => inr err
  | inl (campaigns, _) =>
      let long := List.filter (λ c, IsActive c && time_before (CampaignUpdatedAt c) (sevenDaysAgo cal)) campaigns in
      let stagnant := List.filter (λ c, negb (is_completed c) && time_before (CampaignUpdatedAt c) (threeDaysAgo cal)) campaigns in
      let started := List.filter (λ c, negb (String.eqb (CampaignStatus c) StateDraft)) campaigns in
      let completed := List.filter is_completed campaigns in
      let total l := foldl (λ acc c, wrap64 (acc + lifespan c)) 0 l in
      let average l := if Nat.ltb 0 (length l) then Z.quot (total l) (Z.of_nat (length l)) else 0 in
      inl (mkHealth (Z.of_nat (length long)) (Z.of_nat (length stagnant))
             (if Nat.ltb 0 (length completed) then percentage (Z.of_nat (length completed)) (Z.of_nat (length campaigns)) else f64_zero)
             (average started) (average completed))
  end.

Definition calculateMonthlyGrowth (cal : Calendar) (campaigns : list Campaign) : float64 :=
  let thisMonth c := time_after (CampaignCreatedAt c) (monthStart cal) in
  let lastMonth c := negb (thisMonth c) && (time_after (CampaignCreatedAt c) (lastMonthStart cal) && time_before (CampaignCreatedAt c) (monthStart cal)) in
  let n := Z.of_nat (length (List.filter thisMonth campaigns)) in
  let n' := Z.of_nat (length (List.filter lastMonth campaigns)) in
  if n' =? 0 then f64_zero else percentage (n - n') n'.

Definition GetTopCampaigns (now : Time) r (criteria : string) (limit : Z) : res (list CampaignDTO) :=
  match List r 0 10000 with
  | inr err => Err (ErrWrap "listing campaigns" err)
  | inl (campaigns, _) =>
      let! sorted :=
        (if String.eqb criteria "longest_running" then Ok (sortByRunningDuration now campaigns)
         else if String.eqb criteria "recently_updated" then Ok (sortByUpdatedAt false campaigns)
         else if String.eqb criteria "recently_created" then Ok (sortByCreatedAt false campaigns)
         else Err (ErrNew ("unknown criteria: " +:+ criteria))) in
      let! top := (if (0 <? limit) && (limit <? Z.of_nat (length sorted)) then slice sorted 0 limit else Ok sorted) in
      Ok (campaignsToDTOs top)
  end.

Fixpoint status_distribution r (states : list State) (d : gmap string Z) : gmap string Z + goerror :=
  match states with
  | [] => inl d
  | s :: states =>
      match CountByStatus r s with
      | inr err => inr (ErrWrap ("counting campaigns for status " +:+ s) err)
      | inl n => status_distribution r states (<[s := n]> d)
      end
  end.
Definition GetStatusDistribution r : gmap string Z + goerror := status_distribution r AllStates ∅.

End finder.

(** ** Sorting *)

(** The order each field of [OrderBy] asks for. *)
Definition in_order (orderBy : string) (ascending : bool) (l : list Campaign) : Prop :=
  (orderBy = "created_at" → StronglySorted (λ a b, if ascending then CampaignCreatedAt a ≤ CampaignCreatedAt b else CampaignCreatedAt b ≤ CampaignCreatedAt a) l) ∧
  (orderBy = "updated_at" → StronglySorted (λ a b, if ascending then CampaignUpdatedAt a ≤ CampaignUpdatedAt b else CampaignUpdatedAt b ≤ CampaignUpdatedAt a) l).

Lemma sortByCreatedAt_spec ascending l : sortByCreatedAt ascending l ≡ₚ l ∧
  StronglySorted (λ a b, if ascending then CampaignCreatedAt a ≤ CampaignCreatedAt b else CampaignCreatedAt b ≤ CampaignCreatedAt a) (sortByCreatedAt ascending l).
Proof. destruct ascending; apply (exchange_sort_key CampaignCreatedAt l). Qed.

Lemma sortByUpdatedAt_spec ascending l : sortByUpdatedAt ascending l ≡ₚ l ∧
  StronglySorted (λ a b, if ascending then CampaignUpdatedAt a ≤ CampaignUpdatedAt b else CampaignUpdatedAt b ≤ CampaignUpdatedAt a) (sortByUpdatedAt ascending l).
Proof. destruct ascending; apply (exchange_sort_key CampaignUpdatedAt l). Qed.

Lemma exchange_loop_perm {A} (swap : A → A → bool) n l : exchange_loop swap n l ≡ₚ l.
Proof.
  revert l. induction n as [|n IH]; intros [|x rest]; try done. simpl. pose proof (exchange_pass_perm swap x rest) as Hp.
  destruct (exchange_pass swap x rest) as [z rest']. by rewrite IH.
Qed.

Lemma sortCampaigns_spec l orderBy ascending :
  sortCampaigns l orderBy ascending ≡ₚ l ∧ in_order orderBy ascending (sortCampaigns l orderBy ascending).
Proof.
  unfold sortCampaigns, in_order.
  destruct (String.eqb_spec orderBy "name") as [->|]; [split; [apply exchange_loop_perm|done]|].
  destruct (String.eqb_spec orderBy "created_at") as [->|]; [split; [apply sortByCreatedAt_spec|split; [|done]]; intros _; apply sortByCreatedAt_spec|].
  destruct (String.eqb_spec orderBy "updated_at") as [->|]; [split; [apply sortByUpdatedAt_spec|split; [done|]]; intros _; apply sortByUpdatedAt_spec|].
  done.
Qed.

Section finder_theorems.
Context {R : Type} `{CampaignRepository R}.
Implicit Types (r : R).

(** A filtered query looks at the first thousand campaigns only, keeps
    exactly those that match, orders them as asked, and returns the page from
    the offset on.  Without a positive limit the offset is ignored, and a
    negative offset with a limit panics. *)
Theorem filtered_page r f campaigns total :
  List r 0 1000 = inl (campaigns, total) →
  in_int64 (F_Offset f + F_Limit f) → Z.of_nat (length campaigns) ≤ maxInt64 →
  ∃ l, l ≡ₚ List.filter (λ c, matchesFilter c f) campaigns ∧ in_order (F_OrderBy f) (F_Ascending f) l ∧
    (F_Limit f ≤ 0 → FindWithFilter r f = Ok (campaignsToDTOs (if Z.of_nat (length l) <? F_Offset f then [] else l))) ∧
    (0 < F_Limit f → 0 ≤ F_Offset f →
       FindWithFilter r f = Ok (campaignsToDTOs (take (Z.to_nat (F_Limit f)) (drop (Z.to_nat (F_Offset f)) l)))) ∧
    (0 < F_Limit f → F_Offset f < 0 → FindWithFilter r f = Panic "slice bounds out of range").
Proof.
  intros Hl Hrange Hlen. set (l := sortCampaigns (List.filter (λ c, matchesFilter c f) campaigns) (F_OrderBy f) (F_Ascending f)).
  destruct (sortCampaigns_spec (List.filter (λ c, matchesFilter c f) campaigns) (F_OrderBy f) (F_Ascending f)) as [Hp Ho].
  fold l in Hp, Ho. exists l. split; [done|]. split; [done|].
  assert (Z.of_nat (length l) ≤ maxInt64) as Hn.
  { rewrite (Permutation_length Hp). pose proof (List.filter_length_le (λ c, matchesFilter c f) campaigns). lia. }
  unfold FindWithFilter. rewrite Hl. fold l. cbv zeta. rewrite wrap64_id by done. split_and!.
  - intros H0. destruct (Z.of_nat (length l) <? F_Offset f); [done|]. by rewrite (proj2 (Z.ltb_ge 0 _)).
  - intros H0 H1. destruct (Z.ltb_spec (Z.of_nat (length l)) (F_Offset f)) as [Hlt|Hge].
    + by rewrite drop_ge, take_nil by lia.
    + rewrite (proj2 (Z.ltb_lt 0 _)) by done. destruct (Z.ltb_spec (Z.of_nat (length l)) (F_Offset f + F_Limit f)).
      * rewrite slice_ok by lia. cbn [res_bind]. do 2 f_equal. rewrite !take_ge; [done|rewrite length_drop; lia..].
      * rewrite slice_ok by lia. cbn [res_bind]. do 3 f_equal. lia.
  - intros H0 H1. rewrite (proj2 (Z.ltb_ge _ (F_Offset f))), (proj2 (Z.ltb_lt 0 _)) by lia.
    unfold slice. by rewrite (proj2 (Z.leb_gt 0 (F_Offset f))) by lia.
Qed.

(** The pages [1 .. n] of a listing, one after the other. *)
Definition pages r (pageSize : Z) (n : nat) : list CampaignDTO :=
  concat ((λ p, match finder_List r p pageSize with inl d => Campaigns d | inr _ => [] end) <$> (Z.of_nat <$> seq 1 n)).

Lemma pages_prefix r pageSize all n : 1 ≤ pageSize →
  (∀ offset limit, 0 ≤ offset → 0 ≤ limit →
     List r offset limit = inl (take (Z.to_nat limit) (drop (Z.to_nat offset) all), Z.of_nat (length all))) →
  Z.of_nat n * pageSize ≤ maxInt64 →
  pages r pageSize n = campaignsToDTOs (take (n * Z.to_nat pageSize) all).
Proof.
  intros Hp Hr. induction n as [|n IH]; intros Hn; [done|].
  unfold pages in *. rewrite seq_S, !fmap_app, concat_app, IH by lia. cbn [fmap list_fmap concat]. rewrite app_nil_r.
  unfold finder_List. rewrite (proj2 (Z.ltb_ge (Z.of_nat (1 + n)) 1)), (proj2 (Z.ltb_ge pageSize 1)) by lia. cbv zeta.
  assert (in_int64 (Z.of_nat n)) by (unfold in_int64, minInt64, maxInt64 in *; nia).
  assert (in_int64 (Z.of_nat n * pageSize)) by (unfold in_int64, minInt64, maxInt64 in *; nia).
  replace (Z.of_nat (1 + n) - 1) with (Z.of_nat n) by lia.
  rewrite (wrap64_id (Z.of_nat n)), (wrap64_id (Z.of_nat n * pageSize)) by done.
  rewrite Hr by lia. cbn [Campaigns]. unfold campaignsToDTOs. rewrite <- fmap_app. f_equal.
  replace (Z.to_nat (Z.of_nat n * pageSize)) with (n * Z.to_nat pageSize)%nat by lia.
  replace (S n * Z.to_nat pageSize)%nat with (n * Z.to_nat pageSize + Z.to_nat pageSize)%nat by lia.
  by rewrite take_take_drop.
Qed.

(** Over a repository that pages a fixed list, the pages one to the reported
    number of pages are the whole list, each campaign exactly once and in order. *)
Theorem pages_cover r pageSize all d : 1 ≤ pageSize →
  (∀ offset limit, 0 ≤ offset → 0 ≤ limit →
     List r offset limit = inl (take (Z.to_nat limit) (drop (Z.to_nat offset) all), Z.of_nat (length all))) →
  Z.of_nat (length all) + pageSize ≤ maxInt64 →
  finder_List r 1 pageSize = inl d →
  TotalCount d = Z.of_nat (length all) ∧ pages r pageSize (Z.to_nat (TotalPages d)) = campaignsToDTOs all.
Proof.
  intros Hp Hr Hmax Hd. unfold finder_List in Hd. change (1 <? 1) with false in Hd.
  rewrite (proj2 (Z.ltb_ge pageSize 1)) in Hd by lia. cbv zeta in Hd. change (wrap64 (wrap64 (1 - 1) * pageSize)) with 0 in Hd.
  rewrite Hr in Hd by lia. injection Hd as <-. cbn [TotalCount TotalPages]. split; [done|].
  set (n := Z.of_nat (length all)) in *. unfold maxInt64 in *.
  rewrite (wrap64_id (n + pageSize)) by (unfold in_int64, minInt64, maxInt64; lia).
  rewrite (wrap64_id (n + pageSize - 1)) by (unfold in_int64, minInt64, maxInt64; lia).
  rewrite Z.quot_div_nonneg by lia. set (k := (n + pageSize - 1) / pageSize).
  assert (n ≤ k * pageSize ≤ n + pageSize - 1) as Hk.
  { pose proof (Z.div_mod (n + pageSize - 1) pageSize). pose proof (Z.mod_pos_bound (n + pageSize - 1) pageSize). subst k. nia. }
  assert (0 ≤ k) by (apply Z.div_pos; lia).
  rewrite (pages_prefix r pageSize all) by (unfold maxInt64; try done; lia). f_equal. apply take_ge. subst n. nia.
Qed.

(** ** The cache *)

(** A look-up through the finder: at most five minutes old, and a real read of
    the repository.  The history records the reads and when they were cached. *)
Inductive finder_step : campaignCache * list (Time * string * CampaignDTO) → campaignCache * list (Time * string * CampaignDTO) → Prop :=
  | step_hit now1 now2 r id c h dto : cache_get now1 id c = Some dto → finder_step (c, h) ((finder_FindByID now1 now2 r id c).2, h)
  | step_miss now1 now2 r id c h campaign : cache_get now1 id c = None → FindByID r id = inl campaign →
      finder_step (c, h) ((finder_FindByID now1 now2 r id c).2, (now2, id, campaignToDTO campaign) :: h)
  | step_error now1 now2 r id c h err : cache_get now1 id c = None → FindByID r id = inr err →
      finder_step (c, h) ((finder_FindByID now1 now2 r id c).2, h)
  | step_clear c h : finder_step (c, h) (ClearCache c, h).

(** Cached views come from the history and expire five minutes later. *)
Definition cache_recorded (st : campaignCache * list (Time * string * CampaignDTO)) : Prop :=
  ttl st.1 = 5 * Minute ∧
  ∀ id dto t, cached st.1 !! id = Some (dto, t) → ∃ u, (u, id, dto) ∈ st.2 ∧ t = u + 5 * Minute.

Lemma finder_step_recorded st st' : finder_step st st' → cache_recorded st → cache_recorded st'.
Proof.
  intros Hstep [Ht Hinv]. destruct Hstep as [n1 n2 r' i c h d Hd|n1 n2 r' i c h campaign Hd Hf|n1 n2 r' i c h err Hd Hf|c h];
    unfold cache_recorded, finder_FindByID; simpl in *; rewrite ?Hd, ?Hf; simpl; try done.
  split; [done|]. intros id' dto' t. rewrite lookup_insert_Some. intros [[<- [= <- <-]]|[_ Hx]].
  - exists n2. split; [by left|]. unfold time_add. by rewrite Ht.
  - destruct (Hinv _ _ _ Hx) as (u & Hu & ->). exists u. split; [by right|done].
Qed.

(** Whatever look-ups went before, a look-up answered from the cache
    returns a view that was read from the repository and cached at most five
    minutes earlier; it may well be of a campaign that has changed or was
    deleted since. *)
Theorem cache_freshness c h now1 now2 r id dto :
  rtc finder_step (NewCampaignFinder, []) (c, h) →
  cache_get now1 id c = Some dto →
  finder_FindByID now1 now2 r id c = (inl dto, c) ∧ ∃ t, (t, id, dto) ∈ h ∧ now1 ≤ t + 5 * Minute.
Proof.
  intros Hs Hg. split; [by unfold finder_FindByID; rewrite Hg|].
  assert (cache_recorded (c, h)) as [_ Hc].
  { assert (cache_recorded (NewCampaignFinder, [])) as Hinit.
    { split; [done|]. intros id' dto' t Hx. simpl in Hx. by rewrite lookup_empty in Hx. }
    clear Hg. revert Hinit. induction Hs as [st|st1 st2 st3 H12 _ IH]; [done|]. intros Hinit.
    by eapply IH, finder_step_recorded. }
  simpl in Hc.
  unfold cache_get in Hg. destruct (cached c !! id) as [[d t]|] eqn:E; [|done].
  unfold time_after in Hg. destruct (Z.ltb_spec t now1); [done|]. injection Hg as ->.
  destruct (Hc _ _ _ E) as (u & Hu & ->). by exists u.
Qed.

End finder_theorems.

(** ** Instances *)

Definition ErrNoCampaign : goerror := ErrNew "campaign not found".
(** A repository that pages a list. *)
#[export] Instance list_repository : CampaignRepository (list Campaign) := {|
  FindByID l id := match List.find (λ c, String.eqb (CampaignID c) id) l with Some c => inl c | None => inr ErrNoCampaign end;
  FindByName l name := inl (List.filter (λ c, Contains (CampaignName c) name) l);
  FindByStatus l s := inl (List.filter (λ c, String.eqb (CampaignStatus c) s) l);
  FindActive l := inl (List.filter IsActive l);
  List l offset limit := inl (take (Z.to_nat limit) (drop (Z.to_nat offset) l), Z.of_nat (length l));
  Exists l id := inl (existsb (λ c, String.eqb (CampaignID c) id) l);
  CountByStatus l s := inl (Z.of_nat (length (List.filter (λ c, String.eqb (CampaignStatus c) s) l))) |}.

Definition some_campaign (id : string) (t : Time) : Campaign := mkCampaign id id "" StateDraft t t.
Definition three : list Campaign := [some_campaign "a" 1; some_campaign "b" 3; some_campaign "c" 2].
Definition newest (limit offset : Z) : FilterOptions :=
  mkFilter "" "" None zero_time zero_time zero_time zero_time "created_at" false limit offset.

Lemma filtered_page_witness :
  FindWithFilter three (newest 1 (-1)) = Panic "slice bounds out of range" ∧
  FindWithFilter three (newest 1 0) = Ok [campaignToDTO (some_campaign "b" 3)].
Proof.
  split.
  - destruct (filtered_page three (newest 1 (-1)) three 3) as (l & _ & _ & _ & _ & H);
      [reflexivity|vm_compute; split; discriminate|vm_compute; discriminate|].
    apply H; reflexivity.
  - vm_compute. reflexivity.
Defined.

Lemma pages_cover_witness : pages three 2 2 = campaignsToDTOs three.
Proof.
  destruct (finder_List three 1 2) as [d|] eqn:E; [|vm_compute in E; discriminate].
  destruct (pages_cover three 2 three d) as [_ H]; [lia|intros; reflexivity|vm_compute; discriminate|exact E|].
  assert (Z.to_nat (TotalPages d) = 2%nat) as Hn by (vm_compute in E; injection E as <-; reflexivity).
  rewrite Hn in H. exact H.
Defined.

Lemma cache_freshness_witness :
  finder_FindByID 10 20 ([] : list Campaign) "b" (finder_FindByID 1 2 three "b" NewCampaignFinder).2 =
    (inl (campaignToDTO (some_campaign "b" 3)), (finder_FindByID 1 2 three "b" NewCampaignFinder).2).
Proof.
  apply (cache_freshness _ [(2, "b", campaignToDTO (some_campaign "b" 3))]).
  - apply rtc_once. apply step_miss; reflexivity.
  - reflexivity.
Defined.
