(* ===== verification/Base64.v ===== *)
(** * Base64 (Go's encoding/base64, the standard encoding with padding)

    Bots send crash inputs as base64 text in JSON and the master decodes them.
    The decoder skips line breaks, wants padding at the end only, and ignores
    the unused bits of the last digit, as the Go library does outside of its
    strict mode. *)

From Stdlib Require Import ZArith Lia Strings.Byte Ascii String.
From S2P Require Import Prelude CrashTypes.
Open Scope Z_scope.

Definition digits : list ascii :=
  list_ascii_of_string "ABCDEFGHIJKLMNOPQRSTUVWXYZabcdefghijklmnopqrstuvwxyz0123456789+/".

Definition b64_digit (v : Z) : ascii := nth (Z.to_nat v) digits zero.

(** The value of a digit: its first position in the alphabet. *)
Fixpoint position (c : ascii) (l : list ascii) (i : Z) : option Z :=
  match l with
  | [] => None
  | d :: l => if Ascii.eqb c d then Some i else position c l (i + 1)
  end.
Definition b64_value (c : ascii) : option Z := position c digits 0.

Definition to_byte (v : Z) : Byte.byte := default x00 (Byte.of_N (Z.to_N (v mod 256))).
Definition of_byte (b : Byte.byte) : Z := Z.of_N (Byte.to_N b).

Definition padding (c : ascii) : bool := Ascii.eqb c "=".
Definition line_break (c : ascii) : bool := Ascii.eqb c (ascii_of_N 10) || Ascii.eqb c (ascii_of_N 13).

(** Four digits at a time. *)
Fixpoint decode_quanta (s : list ascii) : option bytes :=
  match s with
  | [] => Some []
  | a :: b :: c :: d :: rest =>
      va ← b64_value a; vb ← b64_value b;
      if padding c then
        if padding d && Nat.eqb (length rest) 0 then Some [to_byte (va * 4 + vb / 16)] else None
      else
        vc ← b64_value c;
        if padding d then
          if Nat.eqb (length rest) 0
          then Some [to_byte (va * 4 + vb / 16); to_byte (vb mod 16 * 16 + vc / 4)] else None
        else
          vd ← b64_value d; tl ← decode_quanta rest;
          Some (to_byte (va * 4 + vb / 16) :: to_byte (vb mod 16 * 16 + vc / 4) :: to_byte (vc mod 4 * 64 + vd) :: tl)
  | _ => None
  end.

(** [base64.StdEncoding.DecodeString]. *)
Definition DecodeString (s : string) : option bytes :=
  decode_quanta (List.filter (λ c, negb (line_break c)) (list_ascii_of_string s)).

(** [base64.StdEncoding.EncodeToString]. *)
Fixpoint encode_quanta (b : bytes) : list ascii :=
  match b with
  | [] => []
  | [x] =>
      let x := of_byte x in [b64_digit (x / 4); b64_digit (x mod 4 * 16); "="; "="]%char
  | [x; y] =>
      let x := of_byte x in let y := of_byte y in
      [b64_digit (x / 4); b64_digit (x mod 4 * 16 + y / 16); b64_digit (y mod 16 * 4); "="]%char
  | x :: y :: z :: rest =>
      let x := of_byte x in let y := of_byte y in let z := of_byte z in
      b64_digit (x / 4) :: b64_digit (x mod 4 * 16 + y / 16) :: b64_digit (y mod 16 * 4 + z / 64)
        :: b64_digit (z mod 64) :: encode_quanta rest
  end.
Definition EncodeToString (b : bytes) : string := string_of_list_ascii (encode_quanta b).

(** ** Round trip *)

Lemma of_byte_range b : 0 ≤ of_byte b < 256.
Proof. unfold of_byte. pose proof (Byte.to_N_bounded b). lia. Qed.

Lemma to_byte_of b v : v = of_byte b → to_byte v = b.
Proof.
  intros ->. unfold to_byte. rewrite Z.mod_small by apply of_byte_range. unfold of_byte.
  by rewrite N2Z.id, Byte.of_to_N.
Qed.

(** What holds of the sixty-four digits one by one. *)
Definition digit_ok (v : Z) : bool :=
  match b64_value (b64_digit v) with Some w => w =? v | None => false end
  && negb (padding (b64_digit v)) && negb (line_break (b64_digit v)).

Lemma digits_ok : forallb digit_ok (seqZ 0 64) = true.
Proof. vm_compute. reflexivity. Qed.

Lemma digit_spec v : 0 ≤ v < 64 →
  b64_value (b64_digit v) = Some v ∧ padding (b64_digit v) = false ∧ line_break (b64_digit v) = false.
Proof.
  intros Hv. pose proof (proj1 (forallb_forall _ _) digits_ok v) as H.
  assert (digit_ok v = true) as Hd by (apply H, list_elem_of_In, elem_of_seqZ; lia).
  unfold digit_ok in Hd. destruct (b64_value _); [|done]. apply andb_true_iff in Hd as [[->%Z.eqb_eq Hp]%andb_true_iff Hl].
  split_and!; [done|by destruct (padding _)|by destruct (line_break _)].
Qed.

Lemma three_bytes_ind (P : bytes → Prop) :
  P [] → (∀ x, P [x]) → (∀ x y, P [x; y]) → (∀ x y z b, P b → P (x :: y :: z :: b)) → ∀ b, P b.
Proof.
  intros H0 H1 H2 H3. fix IH 1. intros [|x [|y [|z b]]]; [apply H0|apply H1|apply H2|apply H3, IH].
Qed.

(** Two fields packed into one number come apart again. *)
Lemma packed q r k : 0 ≤ r < k → (q * k + r) / k = q ∧ (q * k + r) mod k = r.
Proof.
  intros Hr. split; [rewrite Z.div_add_l by lia; rewrite Z.div_small by lia; lia|].
  rewrite Z.add_comm, Z.mod_add by lia. by apply Z.mod_small.
Qed.

(** The digits are below sixty-four. *)
Lemma high_digit x k : 0 ≤ x < 256 → 0 < k → 0 ≤ x / k ≤ 255 / k.
Proof. intros Hx Hk. split; [apply Z.div_pos; lia|apply Z.div_le_mono; lia]. Qed.

Lemma mixed_digit x y a b k : 0 < a → 0 < k → 0 ≤ y < 256 → 0 ≤ b → 255 / k + (a - 1) * b < 64 → 0 ≤ x mod a * b + y / k < 64.
Proof.
  intros Ha Hk Hy Hb Hm. pose proof (Z.mod_pos_bound x a Ha). destruct (high_digit y k Hy Hk). nia.
Qed.

Lemma low_digit x a b : 0 < a → 0 ≤ b → (a - 1) * b < 64 → 0 ≤ x mod a * b < 64.
Proof. intros Ha Hb Hm. pose proof (Z.mod_pos_bound x a Ha). nia. Qed.

Lemma split_again x a q : 0 < a → q = x mod a → x / a * a + q = x.
Proof. intros Ha ->. pose proof (Z.div_mod x a). lia. Qed.

Ltac byte_ranges := repeat match goal with x : Byte.byte |- _ => lazymatch goal with
  | _ : 0 ≤ of_byte x < 256 |- _ => fail | _ => pose proof (of_byte_range x) end end.
Ltac digit_range := byte_ranges;
  first [ lazymatch goal with |- 0 ≤ ?x / ?k < 64 => destruct (high_digit x k); [lia|lia|]; change (255 / 4) with 63 in *; lia end
        | apply mixed_digit; [lia|lia|assumption|lia|vm_compute; reflexivity] | apply low_digit; lia | apply Z.mod_pos_bound; lia ].
Ltac use_digit v := destruct (digit_spec v) as (?Hv & ?Hp & ?Hl); [digit_range|].

Lemma encode_no_breaks b : List.filter (λ c, negb (line_break c)) (encode_quanta b) = encode_quanta b.
Proof.
  induction b as [|x|x y|x y z b IH] using three_bytes_ind; [done|..]; cbn [encode_quanta]; cbv zeta.
  - use_digit (of_byte x / 4). use_digit (of_byte x mod 4 * 16). cbn [List.filter]. by rewrite Hl, Hl0.
  - use_digit (of_byte x / 4). use_digit (of_byte x mod 4 * 16 + of_byte y / 16). use_digit (of_byte y mod 16 * 4).
    cbn [List.filter]. by rewrite Hl, Hl0, Hl1.
  - use_digit (of_byte x / 4). use_digit (of_byte x mod 4 * 16 + of_byte y / 16).
    use_digit (of_byte y mod 16 * 4 + of_byte z / 64). use_digit (of_byte z mod 64).
    cbn [List.filter]. rewrite Hl, Hl0, Hl1, Hl2. cbn [negb]. by rewrite IH.
Qed.

(** The bytes come back from the digits. *)
Lemma first_byte x r : 0 ≤ r < 16 → x / 4 * 4 + (x mod 4 * 16 + r) / 16 = x.
Proof. intros Hr. destruct (packed (x mod 4) r 16 Hr) as [-> _]. by apply split_again. Qed.

Lemma second_byte q y r : 0 ≤ y < 256 → 0 ≤ r < 4 → (q * 16 + y / 16) mod 16 * 16 + (y mod 16 * 4 + r) / 4 = y.
Proof.
  intros Hy Hr. destruct (high_digit y 16 Hy) as [? H]; [lia|]. change (255 / 16) with 15 in H.
  destruct (packed q (y / 16) 16) as [_ ->]; [lia|]. destruct (packed (y mod 16) r 4 Hr) as [-> _]. by apply split_again.
Qed.

Lemma third_byte q z : 0 ≤ z < 256 → (q * 4 + z / 64) mod 4 * 64 + z mod 64 = z.
Proof.
  intros Hz. destruct (high_digit z 64 Hz) as [? H]; [lia|]. change (255 / 64) with 3 in H.
  destruct (packed q (z / 64) 4) as [_ ->]; [lia|]. by apply split_again.
Qed.

Lemma decode_encode_quanta b : decode_quanta (encode_quanta b) = Some b.
Proof.
  assert (∀ x, 0 ≤ of_byte x / 16 < 16 ∧ 0 ≤ of_byte x / 64 < 4) as Hh.
  { intros x. pose proof (of_byte_range x) as Hx. destruct (high_digit _ 16 Hx); [lia|]. destruct (high_digit _ 64 Hx); [lia|].
    change (255 / 16) with 15 in *. change (255 / 64) with 3 in *. lia. }
  induction b as [|x|x y|x y z b IH] using three_bytes_ind; [done|..]; cbn [encode_quanta]; cbv zeta.
  - use_digit (of_byte x / 4). use_digit (of_byte x mod 4 * 16). cbn [decode_quanta]. rewrite Hv, Hv0.
    cbn -[Z.mul Z.div Z.modulo Z.add]. do 2 f_equal. apply to_byte_of.
    rewrite <- (Z.add_0_r (of_byte x mod 4 * 16)). by apply first_byte.
  - use_digit (of_byte x / 4). use_digit (of_byte x mod 4 * 16 + of_byte y / 16). use_digit (of_byte y mod 16 * 4).
    cbn [decode_quanta]. rewrite Hv, Hv0, Hv1, Hp1. cbn -[Z.mul Z.div Z.modulo Z.add].
    rewrite (to_byte_of x) by (apply first_byte, Hh). rewrite (to_byte_of y); [done|].
    rewrite <- (Z.add_0_r (of_byte y mod 16 * 4)). by apply second_byte; [apply of_byte_range|].
  - use_digit (of_byte x / 4). use_digit (of_byte x mod 4 * 16 + of_byte y / 16).
    use_digit (of_byte y mod 16 * 4 + of_byte z / 64). use_digit (of_byte z mod 64).
    cbn [decode_quanta]. rewrite Hv, Hv0, Hv1, Hp1, Hv2, Hp2, IH. cbn -[Z.mul Z.div Z.modulo Z.add].
    rewrite (to_byte_of x) by (apply first_byte, Hh).
    rewrite (to_byte_of y) by (apply second_byte; [apply of_byte_range|apply Hh]).
    rewrite (to_byte_of z) by apply third_byte, of_byte_range. done.
Qed.

Lemma decode_encode b : DecodeString (EncodeToString b) = Some b.
Proof.
  unfold DecodeString, EncodeToString. by rewrite list_ascii_of_string_of_list_ascii, encode_no_breaks, decode_encode_quanta.
Qed.

Lemma encode_nonempty b : b ≠ [] → EncodeToString b ≠ "".
Proof. by destruct b as [|x [|y [|z b]]]. Qed.

(** ** The URL alphabet without padding: [base64.RawURLEncoding] *)

Definition url_digit (v : Z) : ascii :=
  let c := b64_digit v in if Ascii.eqb c "+" then "-"%char else if Ascii.eqb c "/" then "_"%char else c.
Definition url_value (c : ascii) : option Z :=
  if Ascii.eqb c "-" then Some 62 else if Ascii.eqb c "_" then Some 63
  else if Ascii.eqb c "+" || Ascii.eqb c "/" then None else b64_value c.

Fixpoint raw_decode_quanta (s : list ascii) : option bytes :=
  match s with
  | [] => Some []
  | [a; b] => va ← url_value a; vb ← url_value b; Some [to_byte (va * 4 + vb / 16)]
  | [a; b; c] =>
      va ← url_value a; vb ← url_value b; vc ← url_value c;
      Some [to_byte (va * 4 + vb / 16); to_byte (vb mod 16 * 16 + vc / 4)]
  | a :: b :: c :: d :: rest =>
      va ← url_value a; vb ← url_value b; vc ← url_value c; vd ← url_value d; tl ← raw_decode_quanta rest;
      Some (to_byte (va * 4 + vb / 16) :: to_byte (vb mod 16 * 16 + vc / 4) :: to_byte (vc mod 4 * 64 + vd) :: tl)
  | _ => None
  end.
Definition RawURLDecodeString (s : string) : option bytes :=
  raw_decode_quanta (List.filter (λ c, negb (line_break c)) (list_ascii_of_string s)).

Fixpoint raw_encode_quanta (b : bytes) : list ascii :=
  match b with
  | [] => []
  | [x] => let x := of_byte x in [url_digit (x / 4); url_digit (x mod 4 * 16)]
  | [x; y] =>
      let x := of_byte x in let y := of_byte y in
      [url_digit (x / 4); url_digit (x mod 4 * 16 + y / 16); url_digit (y mod 16 * 4)]
  | x :: y :: z :: rest =>
      let x := of_byte x in let y := of_byte y in let z := of_byte z in
      url_digit (x / 4) :: url_digit (x mod 4 * 16 + y / 16) :: url_digit (y mod 16 * 4 + z / 64)
        :: url_digit (z mod 64) :: raw_encode_quanta rest
  end.
Definition RawURLEncodeToString (b : bytes) : string := string_of_list_ascii (raw_encode_quanta b).

Definition url_ok (v : Z) : bool :=
  match url_value (url_digit v) with Some w => w =? v | None => false end
  && negb (Ascii.eqb (url_digit v) ".") && negb (line_break (url_digit v)).
Lemma urls_ok : forallb url_ok (seqZ 0 64) = true.
Proof. vm_compute. reflexivity. Qed.
Lemma url_spec v : 0 ≤ v < 64 →
  url_value (url_digit v) = Some v ∧ Ascii.eqb (url_digit v) "." = false ∧ line_break (url_digit v) = false.
Proof.
  intros Hv. pose proof (proj1 (forallb_forall _ _) urls_ok v) as H.
  assert (url_ok v = true) as Hd by (apply H, list_elem_of_In, elem_of_seqZ; lia).
  unfold url_ok in Hd. destruct (url_value _); [|done]. apply andb_true_iff in Hd as [[->%Z.eqb_eq Hp]%andb_true_iff Hl].
  split_and!; [done|by destruct (Ascii.eqb _ _)|by destruct (line_break _)].
Qed.
Ltac use_url v := destruct (url_spec v) as (?Hv & ?Hp & ?Hl); [digit_range|].

(** The digits are neither dots nor line breaks. *)
Lemma raw_encode_plain b : Forall (λ c, Ascii.eqb c "." = false ∧ line_break c = false) (raw_encode_quanta b).
Proof.
  induction b as [|x|x y|x y z b IH] using three_bytes_ind; cbn [raw_encode_quanta]; cbv zeta; [constructor|..].
  - use_url (of_byte x / 4). use_url (of_byte x mod 4 * 16). by repeat constructor.
  - use_url (of_byte x / 4). use_url (of_byte x mod 4 * 16 + of_byte y / 16). use_url (of_byte y mod 16 * 4). by repeat constructor.
  - use_url (of_byte x / 4). use_url (of_byte x mod 4 * 16 + of_byte y / 16).
    use_url (of_byte y mod 16 * 4 + of_byte z / 64). use_url (of_byte z mod 64). by repeat constructor.
Qed.

Lemma raw_decode_encode_quanta b : raw_decode_quanta (raw_encode_quanta b) = Some b.
Proof.
  assert (∀ x, 0 ≤ of_byte x / 16 < 16 ∧ 0 ≤ of_byte x / 64 < 4) as Hh.
  { intros x. pose proof (of_byte_range x) as Hx. destruct (high_digit _ 16 Hx); [lia|]. destruct (high_digit _ 64 Hx); [lia|].
    change (255 / 16) with 15 in *. change (255 / 64) with 3 in *. lia. }
  induction b as [|x|x y|x y z b IH] using three_bytes_ind; [done|..]; cbn [raw_encode_quanta]; cbv zeta.
  - use_url (of_byte x / 4). use_url (of_byte x mod 4 * 16). cbn [raw_decode_quanta]. rewrite Hv, Hv0.
    cbn -[Z.mul Z.div Z.modulo Z.add]. do 2 f_equal. apply to_byte_of.
    rewrite <- (Z.add_0_r (of_byte x mod 4 * 16)). by apply first_byte.
  - use_url (of_byte x / 4). use_url (of_byte x mod 4 * 16 + of_byte y / 16). use_url (of_byte y mod 16 * 4).
    cbn [raw_decode_quanta]. rewrite Hv, Hv0, Hv1. cbn -[Z.mul Z.div Z.modulo Z.add].
    rewrite (to_byte_of x) by (apply first_byte, Hh). rewrite (to_byte_of y); [done|].
    rewrite <- (Z.add_0_r (of_byte y mod 16 * 4)). by apply second_byte; [apply of_byte_range|].
  - use_url (of_byte x / 4). use_url (of_byte x mod 4 * 16 + of_byte y / 16).
    use_url (of_byte y mod 16 * 4 + of_byte z / 64). use_url (of_byte z mod 64).
    cbn [raw_decode_quanta]. rewrite Hv, Hv0, Hv1, Hv2, IH. cbn -[Z.mul Z.div Z.modulo Z.add].
    rewrite (to_byte_of x) by (apply first_byte, Hh).
    rewrite (to_byte_of y) by (apply second_byte; [apply of_byte_range|apply Hh]).
    rewrite (to_byte_of z) by apply third_byte, of_byte_range. done.
Qed.
Lemma raw_decode_encode b : RawURLDecodeString (RawURLEncodeToString b) = Some b.
Proof.
  unfold RawURLDecodeString, RawURLEncodeToString. rewrite list_ascii_of_string_of_list_ascii.
  rewrite forallb_filter_id, raw_decode_encode_quanta; [done|]. apply forallb_forall.
  intros c Hc%list_elem_of_In. pose proof (raw_encode_plain b) as H. rewrite Forall_forall in H. by destruct (H c Hc) as [_ ->].
Qed.
Lemma raw_encode_no_dot b : ∀ c, c ∈ list_ascii_of_string (RawURLEncodeToString b) → Ascii.eqb c "." = false.
Proof.
  unfold RawURLEncodeToString. rewrite list_ascii_of_string_of_list_ascii. intros c Hc. pose proof (raw_encode_plain b) as H.
  rewrite Forall_forall in H. by apply H.
Qed.
