(* ===== verification/MasterCrash.v ===== *)
(** * Crash and result processing of the master (pkg/master/state_crash.go)

    A crash comes in with its input, raw or as base64 text; it gets an ID, is
    checked for duplicates and stored, the input under a key of its own.  The
    crash is reached through the caller's pointer, so what an attempt writes to
    it is still there at the next one: it is threaded through the retried
    transaction and never rolled back.  An SQLite database keeps crashes in
    tables of its own, which it writes outside of the transaction. *)

From Stdlib Require Import Strings.Byte.
From S2P Require Import Prelude Retry MasterTypes CrashTypes Base64 MasterState MasterJobs.

Section crash_ops.
Context {D : Type}.                     (* the crash tables of an SQLite database *)
Variable random : Z → float64.
Variable job_order : nat → list (string * MJob) → list (string * MJob).
(** What [uuid.New] gives; the crash operations of an SQLite database, when the
    database is one; the rows that an advanced database iterates over. *)
Variable newID : string.
Variable sqlite_store : option ((string → bytes → D → option goerror * D) * (CrashResult → D → option goerror * D)).
Variable sqlite_GetCrashes : option (Z → Z → D → list CrashResult + goerror).
Variable sqlite_GetJobCrashes : option (string → D → list CrashResult + goerror).
Variable sqlite_GetCrash : option (string → D → option CrashResult + goerror).
Variable sqlite_GetCrashInput : option (string → D → bytes + goerror).
Variable iterate : option (string → gmap string entity → list (string * entity)).

(** ** Processing *)

(** "For now, we'll assume it's unique." *)
Definition checkCrashDuplicateTx (hash : string) : bool + goerror := inl false.

(** Input that came as base64 text; text that does not decode is logged. *)
Definition decode_input (crash : CrashResult) : CrashResult :=
  if Nat.eqb (length (Input crash)) 0 && negb (String.eqb (InputBase64 crash) "") then
    match DecodeString (InputBase64 crash) with
    | Some decoded => crash <| Input := decoded |>
    | None => crash
    end
  else crash.

(** The row of a crash: the raw input is left out of its JSON. *)
Definition crash_row (crash : CrashResult) : entity := ECrash (crash <| Input := [] |>).

(** Both stores run outside of the transaction on SQLite, inside otherwise. *)
Definition store_input (crash : CrashResult) (ps : PersistentState) (d : D) : option goerror * PersistentState * D :=
  match sqlite_store with
  | Some (put, _) => let '(e, d) := put (CrashID crash) (Input crash) d in (e, ps, d)
  | None => let '(e, ps) := Store ("crash_input:" +:+ CrashID crash) (EBytes (Input crash)) ps in (e, ps, d)
  end.
Definition store_crash (crash : CrashResult) (ps : PersistentState) (d : D) : option goerror * PersistentState * D :=
  match sqlite_store with
  | Some (_, create) => let '(e, d) := create crash d in (e, ps, d)
  | None => let '(e, ps) := Store ("crash:" +:+ CrashID crash) (crash_row crash) ps in (e, ps, d)
  end.

Definition crash_tx (x : PersistentState * (CrashResult * D)) : option goerror * (PersistentState * (CrashResult * D)) :=
  let '(ps, (crash, d)) := x in
  let crash := if String.eqb (CrashID crash) "" then crash <| CrashID := newID |> else crash in
  match checkCrashDuplicateTx (Hash crash) with
  | inr e => (Some e, (ps, (crash, d)))
  | inl duplicate =>
      let crash := decode_input (crash <| IsUnique := negb duplicate |>) in
      let '(e, ps, d, crash) :=
        if negb (Nat.eqb (length (Input crash)) 0) then
          match store_input crash ps d with
          | (Some e, ps, d) => (Some e, ps, d, crash)
          | (None, ps, d) => (None, ps, d, crash <| Input := [] |>)
          end
        else (None, ps, d, crash) in
      match e with
      | Some e => (Some (NewDatabaseError "save_crash_input" e), (ps, (crash, d)))
      | None =>
          match store_crash crash ps d with
          | (Some e, ps, d) => (Some (NewDatabaseError "save_crash" e), (ps, (crash, d)))
          | (None, ps, d) =>
              let ps := ps <| stats := (stats ps) <| CrashesRecorded := wrap64 (CrashesRecorded (stats ps) + 1) |> |> in
              (None, (count_transaction ps, (crash, d)))
          end
      end
  end.

Definition ProcessCrashResultWithRetry (crash : CrashResult) (ps : PersistentState) (d : D)
    : res unit * (PersistentState * (CrashResult * D)) :=
  (Execute (Transaction crash_tx) (retryPolicy ps) random (ps, (crash, d))).1.

(** Coverage reports and corpus updates go to the key-value store. *)
Definition coverage_tx (x : PersistentState * CoverageResult) : option goerror * (PersistentState * CoverageResult) :=
  let '(ps, coverage) := x in
  let coverage := if String.eqb (CovID coverage) "" then coverage <| CovID := newID |> else coverage in
  match Store ("coverage:" +:+ CovID coverage) (ECoverage coverage) ps with
  | (Some e, ps) => (Some (NewDatabaseError "save_coverage" e), (ps, coverage))
  | (None, ps) =>
      let ps := ps <| stats := (stats ps) <| CoverageReports := wrap64 (CoverageReports (stats ps) + 1) |> |> in
      (None, (count_transaction ps, coverage))
  end.
Definition ProcessCoverageResultWithRetry (coverage : CoverageResult) (ps : PersistentState)
    : res unit * (PersistentState * CoverageResult) :=
  (Execute (Transaction coverage_tx) (retryPolicy ps) random (ps, coverage)).1.

Definition corpus_tx (x : PersistentState * CorpusUpdate) : option goerror * (PersistentState * CorpusUpdate) :=
  let '(ps, corpus) := x in
  let corpus := if String.eqb (CorpusUpdateID corpus) "" then corpus <| CorpusUpdateID := newID |> else corpus in
  match Store ("corpus:" +:+ CorpusUpdateID corpus) (ECorpus corpus) ps with
  | (Some e, ps) => (Some (NewDatabaseError "save_corpus" e), (ps, corpus))
  | (None, ps) =>
      let ps := ps <| stats := (stats ps) <| CorpusUpdates := wrap64 (CorpusUpdates (stats ps) + 1) |> |> in
      (None, (count_transaction ps, corpus))
  end.
Definition ProcessCorpusUpdateWithRetry (corpus : CorpusUpdate) (ps : PersistentState)
    : res unit * (PersistentState * CorpusUpdate) :=
  (Execute (Transaction corpus_tx) (retryPolicy ps) random (ps, corpus)).1.

(** ** Retrieval *)

Definition decode_crash (kv : string * entity) : option CrashResult :=
  match kv.2 with ECrash c => Some c | _ => None end.

(** The callback of the iteration: rows up to the offset are skipped, the
    iteration stops at the limit, and rows that do not decode are left out. *)
Fixpoint collect_crashes (limit offset : Z) (rows : list (string * entity)) (count skipped : Z) (crashes : list CrashResult)
    : list CrashResult :=
  match rows with
  | [] => crashes
  | row :: rows =>
      if skipped <? offset then collect_crashes limit offset rows count (skipped + 1) crashes
      else if limit <=? count then crashes
      else match decode_crash row with
           | Some crash => collect_crashes limit offset rows (count + 1) skipped (crashes ++ [crash])
           | None => collect_crashes limit offset rows count skipped crashes
           end
  end.

Definition GetCrashes (limit offset : Z) (ps : PersistentState) (d : D) : res (list CrashResult) * PersistentState :=
  match sqlite_GetCrashes, iterate with
  | Some get, _ => (match get limit offset d with inl l => Ok l | inr e => Err e end, ps)
  | None, Some rows =>
      if limit <? 0 then (Panic "makeslice: cap out of range", ps)
      else match db_call ps with
           | (Some e, ps) => (Err e, ps)
           | (None, ps) => (Ok (collect_crashes limit offset (rows "crash:" (data ps)) 0 0 []), ps)
           end
  | None, None => (Err (ErrNew "database does not support efficient crash listing"), ps)
  end.

(** The error of a missing key, compared by identity. *)
Definition key_not_found (e : goerror) : bool :=
  match e with ErrNew m => String.eqb m "key not found" | _ => false end.

Definition GetCrash (crashID : string) (ps : PersistentState) (d : D) : (option CrashResult + goerror) * PersistentState :=
  match sqlite_GetCrash with
  | Some get => (get crashID d, ps)
  | None =>
      match db_Get ("crash:" +:+ crashID) ps with
      | (inl (ECrash c), ps) => (inl (Some c), ps)
      | (inl _, ps) => (inr decode_error, ps)
      | (inr e, ps) => (if key_not_found e then inl None else inr e, ps)
      end
  end.

(** No input reads as no bytes. *)
Definition GetCrashInput (crashID : string) (ps : PersistentState) (d : D) : (bytes + goerror) * PersistentState :=
  match sqlite_GetCrashInput with
  | Some get => (get crashID d, ps)
  | None =>
      match db_Get ("crash_input:" +:+ crashID) ps with
      | (inl (EBytes b), ps) => (inl b, ps)
      | (inl _, ps) => (inr decode_error, ps)
      | (inr e, ps) => (if key_not_found e then inl [] else inr e, ps)
      end
  end.

Definition GetJobCrashes (jobID : string) (ps : PersistentState) (d : D) : (list CrashResult + goerror) * PersistentState :=
  match sqlite_GetJobCrashes, iterate with
  | Some get, _ => (get jobID d, ps)
  | None, Some rows =>
      match db_call ps with
      | (Some e, ps) => (inr e, ps)
      | (None, ps) =>
          (inl (List.filter (λ c, String.eqb (CrashJobID c) jobID) (omap decode_crash (rows "crash:" (data ps)))), ps)
      end
  | None, None => (inr (ErrNew "database does not support efficient job crash listing"), ps)
  end.

Definition in_time_range (startTime endTime : Time) (c : CrashResult) : bool :=
  time_after (CrashTimestamp c) startTime && time_before (CrashTimestamp c) endTime.

Definition GetJobCrashesInTimeRange (jobID : string) (startTime endTime : Time) (ps : PersistentState) (d : D)
    : (list CrashResult + goerror) * PersistentState :=
  match GetJobCrashes jobID ps d with
  | (inl l, ps) => (inl (List.filter (in_time_range startTime endTime) l), ps)
  | (inr e, ps) => (inr e, ps)
  end.

(** The crashes of a campaign, job by job; a job whose crashes cannot be read is
    skipped. *)
Fixpoint campaign_crashes (l : list MJob) (startTime endTime : Time) (ps : PersistentState) (d : D)
    : list CrashResult * PersistentState :=
  match l with
  | [] => ([], ps)
  | job :: l =>
      let '(r, ps) := GetJobCrashesInTimeRange (JobID job) startTime endTime ps d in
      let '(rest, ps) := campaign_crashes l startTime endTime ps d in
      (match r with inl c => c ++ rest | inr _ => rest end, ps)
  end.
Definition GetCampaignCrashesInTimeRange (campaignID : string) (startTime endTime : Time) (ps : PersistentState) (d : D)
    : list CrashResult * PersistentState :=
  campaign_crashes (GetCampaignJobs job_order campaignID ps) startTime endTime ps d.

End crash_ops.

(** ** Storing and reading back *)

Section crash_theorems.
Context {D : Type}.
Variable random : Z → float64.
Variable newID : string.
Implicit Types (d : D).

(** A key-value database without tables of its own. *)
Abbreviation process := (ProcessCrashResultWithRetry (D := D) random newID None).
Abbreviation read_crash id ps d := (GetCrash (D := D) None id ps d).1.
Abbreviation read_input id ps d := (GetCrashInput (D := D) None id ps d).1.

(** The input a crash brings, as bytes or as text. *)
Definition brings (crash : CrashResult) (b : bytes) : Prop :=
  b ≠ [] ∧ (Input crash = b ∨ (Input crash = [] ∧ InputBase64 crash = EncodeToString b)).

Definition crash_key (crash : CrashResult) : string := if String.eqb (CrashID crash) "" then newID else CrashID crash.

(** What is stored of it. *)
Definition recorded (crash : CrashResult) : CrashResult :=
  crash <| CrashID := crash_key crash |> <| IsUnique := true |> <| Input := [] |>.

Lemma decode_brings crash b : brings crash b → Input (decode_input crash) = b ∧ decode_input crash = crash <| Input := b |>.
Proof.
  intros [Hb [H|[H1 H2]]]; unfold decode_input.
  - rewrite H. destruct b as [|x b]; [done|]. cbn [length Nat.eqb andb]. split; [done|]. destruct crash; simpl in *. by subst.
  - rewrite H1, H2, (proj2 (String.eqb_neq _ "")) by by apply encode_nonempty. cbn [length Nat.eqb andb negb].
    rewrite decode_encode. by destruct crash.
Qed.

(** The transaction up to the two writes. *)
Lemma crash_tx_brings crash b ps d : brings crash b →
  crash_tx newID None (ps, (crash, d)) =
    match Store ("crash_input:" +:+ crash_key crash) (EBytes b) ps with
    | (Some e, ps) => (Some (NewDatabaseError "save_crash_input" e), (ps, ((recorded crash) <| Input := b |>, d)))
    | (None, ps) =>
        match Store ("crash:" +:+ crash_key crash) (ECrash (recorded crash)) ps with
        | (Some e, ps) => (Some (NewDatabaseError "save_crash" e), (ps, (recorded crash, d)))
        | (None, ps) =>
            (None, (count_transaction (ps <| stats := (stats ps) <| CrashesRecorded := wrap64 (CrashesRecorded (stats ps) + 1) |> |>),
                    (recorded crash, d)))
        end
    end.
Proof.
  intros Hb. unfold crash_tx. cbn [checkCrashDuplicateTx negb].
  set (c1 := (if String.eqb (CrashID crash) "" then crash <| CrashID := newID |> else crash) <| IsUnique := true |>).
  assert (c1 = crash <| CrashID := crash_key crash |> <| IsUnique := true |>) as E1.
  { unfold c1, crash_key. destruct crash; simpl. by destruct (String.eqb _ ""). }
  assert (brings c1 b) as Hb1 by (rewrite E1; exact Hb).
  destruct (decode_brings c1 b Hb1) as [Hi ->]. rewrite E1. destruct Hb as [Hne _].
  cbv zeta. unfold store_input, store_crash, crash_row, recorded. destruct b as [|x b]; [done|].
  generalize (crash_key crash). intros key. clear. destruct crash. simpl.
  destruct (Store _ (EBytes _) ps) as [[e|] ps1]; [reflexivity|].
  by destruct (Store _ _ ps1) as [[e|] ps2].
Qed.

Lemma input_key_ne a b : "crash_input:" +:+ a ≠ "crash:" +:+ b.
Proof. done. Qed.

Lemma read_back id c b ps d : faults ps = [] → data ps !! ("crash:" +:+ id) = Some (ECrash c) →
  data ps !! ("crash_input:" +:+ id) = Some (EBytes b) →
  read_crash id ps d = inl (Some c) ∧ read_input id ps d = inl b.
Proof. intros Hf Hc Hi. unfold GetCrash, GetCrashInput, db_Get. rewrite db_call_healthy by done. by rewrite Hc, Hi. Qed.

(** A crash that comes with an input, raw or as text, on a healthy
    key-value database: it is stored under its ID, or under a fresh one, and
    what is read back is the crash as it was but for the mark of uniqueness,
    with exactly the bytes of the input, which are taken off the crash itself.
    No other key changes, and the crash is counted.  Every crash is marked as
    unique, also one with the hash of a stored crash. *)
Theorem crash_round_trip crash b ps d :
  brings crash b → faults ps = [] → 0 ≤ MaxRetries (retryPolicy ps) →
  ∃ ps', process crash ps d = (Ok tt, (ps', (recorded crash, d))) ∧
    read_crash (crash_key crash) ps' d = inl (Some (recorded crash)) ∧
    read_input (crash_key crash) ps' d = inl b ∧
    (∀ k, k ≠ "crash:" +:+ crash_key crash → k ≠ "crash_input:" +:+ crash_key crash → data ps' !! k = data ps !! k) ∧
    CrashesRecorded (stats ps') = wrap64 (CrashesRecorded (stats ps) + 1) ∧
    bots ps' = bots ps ∧ jobs ps' = jobs ps.
Proof.
  intros Hb Hf Hm.
  set (ps1 := ps <| data := <["crash:" +:+ crash_key crash := ECrash (recorded crash)]>
                  (<["crash_input:" +:+ crash_key crash := EBytes b]> (data ps)) |>).
  set (ps2 := count_transaction (ps1 <| stats := (stats ps1) <| CrashesRecorded := wrap64 (CrashesRecorded (stats ps1) + 1) |> |>)).
  assert (Transaction (crash_tx newID None) (ps, (crash, d)) = (None, (ps2, (recorded crash, d)))) as Ht.
  { apply Transaction_healthy; [done| |done]. rewrite crash_tx_brings with (b := b) by done.
    unfold Store. rewrite db_call_healthy by done. by rewrite db_call_healthy. }
  exists ps2. split.
  { unfold ProcessCrashResultWithRetry. by rewrite (Execute_once _ _ random _ _ Hm Ht). }
  assert (data ps2 !! ("crash:" +:+ crash_key crash) = Some (ECrash (recorded crash)) ∧
    data ps2 !! ("crash_input:" +:+ crash_key crash) = Some (EBytes b)) as [H1 H2].
  { split; simpl; [by rewrite lookup_insert_eq|]. rewrite lookup_insert_ne by done. by rewrite lookup_insert_eq. }
  destruct (read_back _ _ _ ps2 d Hf H1 H2) as [-> ->]. split_and!; try done.
  intros k Hk1 Hk2. simpl. by rewrite !lookup_insert_ne by done.
Qed.

(** A transient error costs the raw input of a crash.  When the write of
    the crash fails with an error that the policy retries, the first attempt has
    already taken the input off the crash, and the rollback undoes the write of
    the input: the retry stores the crash alone and reports success.  A crash
    that came as text is decoded again and keeps its input. *)
Theorem retry_loses_raw_input crash b ps d e :
  brings crash b → faults ps = [None; None; Some e] → retryPolicy ps = DatabasePolicy →
  isRetryableError DatabasePolicy (NewDatabaseError "save_crash" e) = true →
  (InputBase64 crash = "" ∨ InputBase64 crash = EncodeToString b) →
  crash_key crash ≠ "" → data ps !! ("crash_input:" +:+ crash_key crash) = None →
  ∃ ps', process crash ps d = (Ok tt, (ps', (recorded crash, d))) ∧
    read_crash (crash_key crash) ps' d = inl (Some (recorded crash)) ∧
    read_input (crash_key crash) ps' d = inl (if String.eqb (InputBase64 crash) "" then [] else b).
Proof.
  intros Hb Hf Hp Hr Htext Hkey Hnone.
  set (ps1 := ps <| faults := [] |>).
  assert (∃ psf, Transaction (crash_tx newID None) (ps, (crash, d)) =
    (Some (NewDatabaseError "save_crash" e), (psf, (recorded crash, d))) ∧ psf = ps1) as (psf & E1 & ->).
  { unfold Transaction. unfold db_call at 1. rewrite Hf. rewrite crash_tx_brings with (b := b) by done.
    unfold Store. unfold db_call at 1. cbn [faults set_field]. unfold db_call at 1. cbn [faults set_field].
    eexists. split; [reflexivity|]. by destruct ps. }
  assert (crash_key (recorded crash) = crash_key crash) as Hk.
  { unfold crash_key at 1. unfold recorded at 1. cbn [CrashID set_field]. by rewrite (proj2 (String.eqb_neq _ "")) by done. }
  assert (recorded (recorded crash) = recorded crash) as Hrec.
  { unfold recorded at 1. rewrite Hk. by destruct crash. }
  assert (∃ psf, Transaction (crash_tx newID None) (ps1, (recorded crash, d)) = (None, (psf, (recorded crash, d))) ∧
    faults psf = [] ∧ data psf !! ("crash:" +:+ crash_key crash) = Some (ECrash (recorded crash)) ∧
    data psf !! ("crash_input:" +:+ crash_key crash) = if String.eqb (InputBase64 crash) "" then None else Some (EBytes b))
    as (ps2 & E2 & Hf2 & H1 & H2).
  { destruct (String.eqb_spec (InputBase64 crash) "") as [Ht|Ht].
    - eexists. split.
      { apply Transaction_healthy; [done| |].
        - unfold crash_tx. cbn [checkCrashDuplicateTx negb].
          assert ((if String.eqb (CrashID (recorded crash)) "" then (recorded crash) <| CrashID := newID |> else recorded crash)
            <| IsUnique := true |> = recorded crash) as ->.
          { change (CrashID (recorded crash)) with (crash_key crash). rewrite (proj2 (String.eqb_neq _ "")) by done. by destruct crash. }
          unfold decode_input. change (Input (recorded crash)) with ([] : bytes).
          change (InputBase64 (recorded crash)) with (InputBase64 crash). rewrite Ht.
          cbn [length Nat.eqb String.eqb negb andb]. change (Input (recorded crash)) with ([] : bytes). cbn [length Nat.eqb negb].
          unfold store_crash, crash_row, Store. rewrite db_call_healthy by done. reflexivity.
        - done. }
      split_and!; [done|simpl; by rewrite lookup_insert_eq|]. simpl. rewrite lookup_insert_ne by done. done.
    - destruct Htext as [?|Htext]; [done|].
      assert (brings (recorded crash) b) as Hb2 by (split; [apply Hb|by right]).
      eexists. split.
      { apply Transaction_healthy; [done| |].
        - rewrite crash_tx_brings with (b := b) by done. rewrite Hk, Hrec. unfold Store.
          rewrite db_call_healthy by done. rewrite db_call_healthy by done. reflexivity.
        - done. }
      split_and!; [done|simpl; by rewrite lookup_insert_eq|]. simpl. rewrite lookup_insert_ne by done. by rewrite lookup_insert_eq. }
  exists ps2. split.
  { unfold ProcessCrashResultWithRetry. rewrite Hp.
    rewrite (Execute_twice (Transaction (crash_tx newID None)) DatabasePolicy random _ _ _ _ _ ltac:(vm_compute; discriminate) E1 Hr E2); done. }
  unfold GetCrash, GetCrashInput, db_Get. rewrite db_call_healthy by done. rewrite H1, H2.
  split; [done|]. by destruct (String.eqb _ "").
Qed.

(** ** Listing *)

Lemma collect_crashes_spec limit offset rows count skipped crashes :
  count = Z.of_nat (length crashes) → count ≤ Z.max 0 limit →
  collect_crashes limit offset rows count skipped crashes =
    crashes ++ take (Z.to_nat (limit - count)) (omap decode_crash (drop (Z.to_nat (offset - skipped)) rows)).
Proof.
  revert count skipped crashes. induction rows as [|row rows IH]; intros count skipped crashes Hc Hl; cbn [collect_crashes].
  { rewrite drop_nil. simpl. by rewrite take_nil, app_nil_r. }
  destruct (Z.ltb_spec skipped offset).
  { rewrite IH by done. replace (Z.to_nat (offset - skipped)) with (S (Z.to_nat (offset - (skipped + 1)))) by lia. done. }
  replace (Z.to_nat (offset - skipped)) with 0%nat by lia. rewrite drop_0.
  destruct (Z.leb_spec limit count).
  { replace (Z.to_nat (limit - count)) with 0%nat by lia. by rewrite take_0, app_nil_r. }
  destruct (decode_crash row) as [c|] eqn:Ed.
  - rewrite IH; [|rewrite length_app; simpl; lia|lia]. cbn [omap list_omap]. rewrite Ed.
    replace (Z.to_nat (offset - skipped)) with 0%nat by lia. rewrite drop_0.
    replace (Z.to_nat (limit - count)) with (S (Z.to_nat (limit - (count + 1)))) by lia. by rewrite <- app_assoc.
  - rewrite IH by done. cbn [omap list_omap]. rewrite Ed.
    replace (Z.to_nat (offset - skipped)) with 0%nat by lia. by rewrite drop_0.
Qed.

(** A page of crashes: the rows from the offset on that decode, up to the
    limit; a negative limit panics before the database is asked.  The crashes of
    a job are exactly the stored crashes that name it. *)
Theorem crash_listing rows limit offset jobID ps d :
  faults ps = [] → (∀ m, rows "crash:" m ≡ₚ List.filter (λ kv, HasPrefix kv.1 "crash:") (map_to_list m)) →
  (0 ≤ limit →
   GetCrashes None (Some rows) limit offset ps d =
     (Ok (take (Z.to_nat limit) (omap decode_crash (drop (Z.to_nat offset) (rows "crash:" (data ps))))), ps)) ∧
  (limit < 0 → GetCrashes None (Some rows) limit offset ps d = (Panic "makeslice: cap out of range", ps)) ∧
  ∃ l, GetJobCrashes None (Some rows) jobID ps d = (inl l, ps) ∧
    ∀ c, c ∈ l ↔ CrashJobID c = jobID ∧ ∃ k, HasPrefix k "crash:" = true ∧ data ps !! k = Some (ECrash c).
Proof.
  intros Hf Hrows. unfold GetCrashes, GetJobCrashes. rewrite db_call_healthy by done. split_and!.
  - intros H0. rewrite (proj2 (Z.ltb_ge limit 0)) by lia. rewrite collect_crashes_spec by (simpl; lia).
    by rewrite Z.sub_0_r, Z.sub_0_r.
  - intros H0. by rewrite (proj2 (Z.ltb_lt limit 0)).
  - eexists. split; [done|]. intros c. rewrite elem_of_filter_bool, String.eqb_eq, list_elem_of_omap.
    split.
    + intros [([k v] & Hin & Hd) Hj]. split; [done|]. rewrite Hrows in Hin.
      apply elem_of_filter_bool in Hin as [Hin Hp]. apply elem_of_map_to_list in Hin. unfold decode_crash in Hd. simpl in *.
      destruct v; try done. injection Hd as <-. by exists k.
    + intros [Hj (k & Hp & Hk)]. split; [|done]. exists (k, ECrash c). split; [|done]. rewrite Hrows.
      apply elem_of_filter_bool. split; [by apply elem_of_map_to_list|done].
Qed.

End crash_theorems.

(** ** Instances *)

Definition some_crash (input : bytes) (text : string) : CrashResult :=
  mkCrash "" "j1" "b1" "" "h" "crash.bin" "segfault" 11 139 50 3 false input text "boom" "#0 main" false false None.
Definition three_bytes : bytes := [x41; x42; xff].
Definition crash_rows (_ : string) (m : gmap string entity) : list (string * entity) :=
  List.filter (λ kv, HasPrefix kv.1 "crash:") (map_to_list m).

Lemma crash_round_trip_witness :
  let ps := demo_state ∅ in
  ∃ ps' c, ProcessCrashResultWithRetry no_jitter "c1" None (some_crash [] "QUL/") ps tt = (Ok tt, (ps', (c, tt))) ∧
    CrashID c = "c1" ∧ (GetCrashInput None "c1" ps' tt).1 = inl three_bytes.
Proof.
  destruct (crash_round_trip no_jitter "c1" (some_crash [] "QUL/") three_bytes (demo_state ∅) tt)
    as (ps' & E & _ & Hi & _); [split; [done|by right]|done|vm_compute; discriminate|].
  exists ps', (recorded "c1" (some_crash [] "QUL/")). split; [exact E|]. split; [reflexivity|exact Hi].
Defined.

Lemma retry_loses_raw_input_witness :
  let ps := (demo_state ∅) <| faults := [None; None; Some locked] |> in
  ∃ ps' c, ProcessCrashResultWithRetry no_jitter "c1" None (some_crash three_bytes "") ps tt = (Ok tt, (ps', (c, tt))) ∧
    (GetCrashInput None "c1" ps' tt).1 = inl [].
Proof.
  cbv zeta. set (ps := set_field faults _ _).
  destruct (retry_loses_raw_input no_jitter "c1" (some_crash three_bytes "") three_bytes ps tt locked) as (ps' & E & _ & Hi);
    [split; [done|by left]|done|done|vm_compute; reflexivity|by left|done|vm_compute; reflexivity|].
  exists ps', (recorded "c1" (some_crash three_bytes "")). split; [exact E|exact Hi].
Defined.

Lemma crash_listing_witness :
  let ps := (demo_state ∅) <| data := {[ "crash:c1" := ECrash (some_crash [] "") ]} |> in
  ∃ l, (GetCrashes None (Some crash_rows) 1 0 ps tt).1 = Ok l ∧ l = [some_crash [] ""].
Proof.
  cbv zeta. set (ps := set_field data _ _).
  destruct (crash_listing crash_rows 1 0 "j1" ps tt) as (E & _); [done|by intros m|].
  rewrite E by done. eexists. split; [reflexivity|]. vm_compute. reflexivity.
Defined.
