(* ===== verification/MasterRecovery.v ===== *)
(** * System recovery of the master (pkg/master/recovery.go, and
    [LoadPersistedState] of state.go)

    The recovery manager works on the persistent state and the time-out manager
    together, and on the campaigns of the storage.  Every repair is a retried
    operation of its own, inside the retried sequence of steps at start-up.  The
    jobs and bots that the steps list are the cached ones, so what a step writes
    to them is a write to the cache. *)

From S2P Require Import Prelude Retry MasterTypes MasterState MasterJobs TimeoutManager Healthy CampaignStore.

Record RecoveryStats := mkRecoveryStats {
  TotalRecoveries : Z; LastRecovery : Time; OrphanedJobsRecovered : Z; TimedOutBotsReset : Z;
  StaleDataCleaned : Z; RecoveryDuration : Duration; RecoveryErrors : Z }.
#[export] Instance RecoveryStats_eta : Eta RecoveryStats := fun s =>
  mkRecoveryStats (TotalRecoveries s) (LastRecovery s) (OrphanedJobsRecovered s) (TimedOutBotsReset s)
    (StaleDataCleaned s) (RecoveryDuration s) (RecoveryErrors s).
Definition no_recoveries : RecoveryStats := mkRecoveryStats 0 zero_time 0 0 0 0 0.

Record RecoveryManager (S : Type) := mkRM {
  timeout : TimeoutManager; store : S; rm_policy : Policy; rm_JobExecution : Duration; rm_stats : RecoveryStats }.
Arguments mkRM {S}. Arguments timeout {S}. Arguments store {S}. Arguments rm_policy {S}.
Arguments rm_JobExecution {S}. Arguments rm_stats {S}.
#[export] Instance RecoveryManager_eta {S} : Eta (RecoveryManager S) := fun m =>
  mkRM (timeout m) (store m) (rm_policy m) (rm_JobExecution m) (rm_stats m).

Definition recoveryPolicy : Policy :=
  mkPolicy 5 (2 * Second) (30 * Second) (f64_of_Z 2) true
    ["database is locked"; "connection refused"; "timeout"; "temporary failure"].

(** [execution] is [config.Timeouts.JobExecution]. *)
Definition NewRecoveryManager {S} (tm : TimeoutManager) (s : S) (execution : Duration) : RecoveryManager S :=
  mkRM tm s recoveryPolicy execution no_recoveries.

(** A job back in the pool. *)
Definition reset_job (job : MJob) : MJob :=
  job <| JobState := JobStatusPending |> <| AssignedBot := None |> <| StartedAt := None |>.

Section recovery.
Context {S : Type} `{CampaignStorage S}.
Variable random : Z → float64.
Variable job_order : nat → list (string * MJob) → list (string * MJob).
Variable bot_order : nat → list (string * Bot) → list (string * Bot).
Variable sqlite_GetJob : option (gmap string entity → string → MJob + goerror).
(** The listing of all jobs of an SQLite database; the rows an advanced database
    iterates over, and how many of them it delivers before a failure. *)
Variable sqlite_ListJobs : option (gmap string entity → list MJob + goerror).
Variable iterate : option (string → gmap string entity → list (string * entity)).
Variable rows_before_fault : nat → nat.
(** Whether the state has a campaign manager and an SQLite database. *)
Variable has_campaigns : bool.
Implicit Types (m : RecoveryManager S).

Definition on_tm {A} (f : TimeoutManager → A * TimeoutManager) m : A * RecoveryManager S :=
  let '(a, tm) := f (timeout m) in (a, m <| timeout := tm |>).
Definition rm_state {A} (f : PersistentState → A * PersistentState) : RecoveryManager S → A * RecoveryManager S :=
  on_tm (on_state f).
Definition rm_now m : Time * RecoveryManager S := on_tm tm_now m.
Definition ps_of m : PersistentState := state (timeout m).

Definition rm_retry (op : RecoveryManager S → option goerror * RecoveryManager S) m : res unit * RecoveryManager S :=
  (Execute op (rm_policy m) random m).1.

(** ** Loading *)

Definition read_rows (prefix : string) (rows : string → gmap string entity → list (string * entity))
    (ps : PersistentState) : list (string * entity) * PersistentState :=
  match db_call ps with
  | (Some _, ps) => (take (rows_before_fault (ticks ps)) (rows prefix (data ps)), ps)
  | (None, ps) => (rows prefix (data ps), ps)
  end.

(** One row of the iteration over the jobs; rows that do not decode are skipped. *)
Definition load_job (ps : PersistentState) (row : string * entity) : PersistentState :=
  let from_row := match row.2 with EJob j => ps <| jobs := <[JobID j := j]> (jobs ps) |> | _ => ps end in
  match sqlite_GetJob with
  | Some get =>
      let jobID := TrimPrefix row.1 "job:" in
      if String.eqb jobID row.1 then ps
      else match get (data ps) jobID with
           | inl job => ps <| jobs := <[JobID job := job]> (jobs ps) |>
           | inr _ => from_row
           end
  | None => from_row
  end.
Definition load_bot (ps : PersistentState) (row : string * entity) : PersistentState :=
  match row.2 with EBot b => ps <| bots := <[BotID b := b]> (bots ps) |> | _ => ps end.

(** Without iteration, entities are loaded as they are accessed. *)
Definition LoadPersistedState : PersistentState → res unit * PersistentState :=
  with_retry random (λ ps,
    let ps := match iterate with
              | Some rows =>
                  let '(job_rows, ps) := read_rows "job:" rows ps in
                  let ps := foldl load_job ps job_rows in
                  let '(bot_rows, ps) := read_rows "bot:" rows ps in
                  foldl load_bot ps bot_rows
              | None => ps
              end in
    (None, (time_now ps).2)).

(** [ListJobs]: an SQLite database is asked for all jobs, and what it returns
    replaces the cached entries; if that fails, or otherwise, the cache is
    listed. *)
Definition list_jobs (ps : PersistentState) : list MJob * PersistentState :=
  match sqlite_ListJobs with
  | Some get =>
      match get (data ps) with
      | inl l => (l, ps <| jobs := foldl (λ js j, <[JobID j := j]> js) (jobs ps) l |>)
      | inr _ => (ListJobs job_order ps, ps)
      end
  | None => (ListJobs job_order ps, ps)
  end.

(** ** The repairs *)

Definition recover_job_op (job : MJob) m : option goerror * RecoveryManager S :=
  let '(r, m) := rm_state (SaveJobWithRetry random (reset_job job)) m in
  match res_error r with
  | Some e => (Some e, m)
  | None => (None, m <| timeout := UpdateJobTimeout (JobID job) (RemoveJobTimeout (JobID job) (timeout m)) |>)
  end.

Definition recover_one m (job : MJob) : RecoveryManager S :=
  match rm_retry (recover_job_op job) m with
  | (Ok _, m) => m <| rm_stats := (rm_stats m) <| OrphanedJobsRecovered := wrap64 (OrphanedJobsRecovered (rm_stats m) + 1) |> |>
  | (_, m) => m
  end.

Definition recoverOrphanedJobs m : RecoveryManager S :=
  let '(orphaned, m) := rm_state (FindOrphanedJobs job_order) m in foldl recover_one m orphaned.

Definition reset_bot_op (botID : string) m : option goerror * RecoveryManager S :=
  let '(r, m) := rm_state (ResetBot random botID) m in
  match res_error r with
  | Some e => (Some e, m)
  | None => (None, m <| timeout := RemoveBotTimeout botID (timeout m) |>)
  end.

Definition reset_one m (botID : string) : RecoveryManager S :=
  match rm_retry (reset_bot_op botID) m with
  | (Ok _, m) => m <| rm_stats := (rm_stats m) <| TimedOutBotsReset := wrap64 (TimedOutBotsReset (rm_stats m) + 1) |> |>
  | (_, m) => m
  end.

Definition resetTimedOutBots m : RecoveryManager S :=
  let '(timedOut, m) := rm_state (FindTimedOutBots bot_order) m in foldl reset_one m timedOut.

Definition resume_one m (job : MJob) : RecoveryManager S :=
  if negb (String.eqb (JobState job) JobStatusPending) then m
  else
    let '(now, m) := rm_now m in
    let '(saved, m) :=
      if time_before (JobTimeoutAt job) now then
        let '(now, m) := rm_now m in
        let '(r, m) := rm_state (SaveJobWithRetry random (job <| JobTimeoutAt := time_add now (rm_JobExecution m) |>)) m in
        (is_ok r, m)
      else (true, m) in
    if saved then m <| timeout := UpdateJobTimeout (JobID job) (timeout m) |> else m.

Definition resumePendingJobs m : RecoveryManager S :=
  let '(l, m) := rm_state list_jobs m in foldl resume_one m l.

Definition staleJobThreshold : Duration := 24 * Hour.

(** The clock is read once for a finished or pending job, and not at all for
    the others. *)
Definition job_stale (job : MJob) (now : Time) : bool :=
  if slice_has (JobState job) [JobStatusCompleted; JobStatusFailed; JobStatusCancelled]
  then staleJobThreshold <? time_sub now (default (JobCreatedAt job) (CompletedAt job))
  else String.eqb (JobState job) JobStatusPending && (staleJobThreshold <? time_sub now (JobCreatedAt job)).

Definition delete_stale_op (job : MJob) m : option goerror * RecoveryManager S :=
  let m := m <| timeout := RemoveJobTimeout (JobID job) (timeout m) |> in
  let '(r, m) := rm_state (DeleteJob random (JobID job)) m in (res_error r, m).

Definition clean_one (x : RecoveryManager S * Z) (job : MJob) : RecoveryManager S * Z :=
  let '(m, cleaned) := x in
  let '(now, m) := if slice_has (JobState job) [JobStatusCompleted; JobStatusFailed; JobStatusCancelled; JobStatusPending]
                   then rm_now m else (0, m) in
  if job_stale job now then
    match rm_retry (delete_stale_op job) m with
    | (Ok _, m) => (m, wrap64 (cleaned + 1))
    | (_, m) => (m, cleaned)
    end
  else (m, cleaned).

Definition cleanupStaleData m : RecoveryManager S :=
  let '(l, m) := rm_state list_jobs m in
  let '(m, cleaned) := foldl clean_one (m, 0) l in
  m <| rm_stats := (rm_stats m) <| StaleDataCleaned := wrap64 (StaleDataCleaned (rm_stats m) + cleaned) |> |>.

(** *** Validation *)

(** A bot whose current job is not listed; a failed save is logged. *)
Definition fix_bot (known : list string) m (bot : Bot) : RecoveryManager S :=
  match CurrentJob bot with
  | Some j =>
      if slice_has j known then m
      else (rm_state (SaveBotWithRetry random (bot <| BotState := BotStatusIdle |> <| CurrentJob := None |>)) m).2
  | None => m
  end.

(** A job in progress whose bot is not listed. *)
Definition fix_job (known : list string) m (job : MJob) : RecoveryManager S :=
  if String.eqb (JobState job) JobStatusAssigned || String.eqb (JobState job) JobStatusRunning then
    match AssignedBot job with
    | Some b => if slice_has b known then m else (rm_state (SaveJobWithRetry random (reset_job job)) m).2
    | None => m
    end
  else m.

Definition validateSystemState m : option goerror * RecoveryManager S :=
  match rm_state db_call m with
  | (Some e, m) => (Some (ErrWrap "database health check failed" e), m)
  | (None, m) =>
      match tm_HealthCheck (timeout m) with
      | Some e => (Some (ErrWrap "timeout manager health check failed" e), m)
      | None =>
          let bs := ListBots bot_order (ps_of m) in
          let '(js, m) := rm_state list_jobs m in
          let m := foldl (fix_bot (JobID <$> js)) m bs in
          (None, foldl (fix_job (BotID <$> bs)) m js)
      end
  end.

(** ** Campaigns *)

Definition job_done (job : MJob) : bool :=
  String.eqb (JobState job) JobStatusCompleted || String.eqb (JobState job) JobStatusFailed.

Definition recover_campaign m (campaign : Campaign) : RecoveryManager S :=
  if negb (String.eqb (CampStatus campaign) CampaignStatusRunning) then m
  else
    match CampaignStore.GetCampaignJobs (store m) (CampID campaign) with
    | inr _ => m
    | inl l =>
        if forallb job_done l then
          let '(now, m) := rm_now m in
          m <| store := (UpdateCampaign (store m) (CampID campaign)
                           [("status", UString CampaignStatusCompleted); ("completed_at", UTimePtr (Some now))]).2 |>
        else m
    end.

Definition recoverCampaigns m : option goerror * RecoveryManager S :=
  if negb has_campaigns then (None, m)
  else match ListCampaigns (store m) 1000 0 "" with
       | inr e => (Some (ErrWrap "failed to list campaigns" e), m)
       | inl l => (None, foldl recover_campaign m l)
       end.

(** ** Start-up, maintenance and bot failures *)

Definition startup_op m : option goerror * RecoveryManager S :=
  let '(r, m) := rm_state LoadPersistedState m in
  match res_error r with
  | Some e => (Some (ErrWrap "failed to load persisted state" e), m)
  | None =>
      match recoverCampaigns m with
      | (Some e, m) => (Some (ErrWrap "failed to recover campaigns" e), m)
      | (None, m) =>
          let m := cleanupStaleData (resumePendingJobs (resetTimedOutBots (recoverOrphanedJobs m))) in
          match validateSystemState m with
          | (Some e, m) => (Some (ErrWrap "system state validation failed" e), m)
          | (None, m) => (None, m)
          end
      end
  end.

Definition RecoverOnStartup m : option goerror * RecoveryManager S :=
  let '(start, m) := rm_now m in
  let '(r, m) := rm_retry startup_op m in
  let '(stop, m) := rm_now m in
  match res_error r with
  | Some e =>
      (Some (NewSystemError "recovery_on_startup" e),
       m <| rm_stats := (rm_stats m) <| RecoveryErrors := wrap64 (RecoveryErrors (rm_stats m) + 1) |> |>)
  | None =>
      let '(now, m) := rm_now m in
      (None, m <| rm_stats := (rm_stats m) <| TotalRecoveries := wrap64 (TotalRecoveries (rm_stats m) + 1) |>
                    <| LastRecovery := now |> <| RecoveryDuration := time_sub stop start |> |>)
  end.

Definition light_one m (job : MJob) : RecoveryManager S :=
  if String.eqb (JobState job) JobStatusCompleted || String.eqb (JobState job) JobStatusFailed then
    match CompletedAt job with
    | Some t =>
        let '(now, m) := rm_now m in
        if 48 * Hour <? time_sub now t then (rm_state (DeleteJob random (JobID job)) m).2 else m
    | None => m
    end
  else m.

Definition lightCleanup m : RecoveryManager S :=
  let '(l, m) := rm_state list_jobs m in foldl light_one m l.

Definition PerformMaintenanceRecovery m : RecoveryManager S :=
  let '(start, m) := rm_now m in
  let m := lightCleanup (resetTimedOutBots (recoverOrphanedJobs m)) in
  let '(stop, m) := rm_now m in
  let '(now, m) := rm_now m in
  m <| rm_stats := (rm_stats m) <| TotalRecoveries := wrap64 (TotalRecoveries (rm_stats m) + 1) |>
         <| LastRecovery := now |> <| RecoveryDuration := time_sub stop start |> |>.

(** The outer transaction writes nothing itself: the operations inside save
    through transactions of their own, on other connections, which stay. *)
Definition empty_transaction (fn : RecoveryManager S → option goerror * RecoveryManager S) m
    : option goerror * RecoveryManager S :=
  match rm_state db_call m with
  | (Some e, m) => (Some (NewDatabaseError "begin_transaction" e), m)
  | (None, m) =>
      match fn m with
      | (Some e, m) => (Some e, m)
      | (None, m) =>
          match rm_state db_call m with
          | (Some e, m) => (Some (NewDatabaseError "commit_transaction" e), m)
          | (None, m) => (None, m)
          end
      end
  end.

(** The cached bot behind the pointer that [GetBot] returned. *)
Definition set_cached_bot (botID : string) (bot : Bot) m : RecoveryManager S :=
  (rm_state (λ ps, (tt, ps <| bots := <[botID := bot]> (bots ps) |>)) m).2.

Definition release_failed_job (jobID : string) m : option goerror * RecoveryManager S :=
  match rm_state (GetJob random job_order sqlite_GetJob jobID) m with
  | (inr e, m) => (Some e, m)
  | (inl job, m) => recover_job_op job m
  end.

Definition bot_failure_op (botID : string) m : option goerror * RecoveryManager S :=
  match rm_state (GetBot random bot_order botID) m with
  | (inr e, m) => (Some e, m)
  | (inl bot, m) =>
      let bot := bot <| BotState := BotStatusFailed |> <| FailureCount := wrap64 (FailureCount bot + 1) |> in
      let m := set_cached_bot botID bot m in
      match (match CurrentJob bot with Some j => release_failed_job j m | None => (None, m) end) with
      | (Some e, m) => (Some e, m)
      | (None, m) =>
          let '(r, m) := rm_state (SaveBotWithRetry random (bot <| CurrentJob := None |>)) m in
          match res_error r with
          | Some e => (Some e, m)
          | None => (None, m <| timeout := RemoveBotTimeout botID (timeout m) |>)
          end
      end
  end.

Definition HandleBotFailureWithRetry (botID : string) m : option goerror * RecoveryManager S :=
  let '(r, m) := rm_retry (empty_transaction (bot_failure_op botID)) m in (res_error r, m).

Definition GetRecoveryStats m : RecoveryStats := rm_stats m.
Definition ResetStats m : RecoveryManager S := m <| rm_stats := no_recoveries |>.

End recovery.

(** ** The repairs on a healthy database *)

Section orphans.
Context {S : Type} `{CampaignStorage S}.
Variable random : Z → float64.
Variable job_order : nat → list (string * MJob) → list (string * MJob).
Variable bot_order : nat → list (string * Bot) → list (string * Bot).
Variable sqlite_GetJob : option (gmap string entity → string → MJob + goerror).
Variable sqlite_ListJobs : option (gmap string entity → list MJob + goerror).
Hypothesis job_order_perm : ∀ k l, job_order k l ≡ₚ l.
Hypothesis bot_order_perm : ∀ k l, bot_order k l ≡ₚ l.
Implicit Types (m : RecoveryManager S).

Definition rm_healthy m : Prop := db_healthy (ps_of m) ∧ 0 ≤ MaxRetries (rm_policy m).

(** One job recovered: saved as pending, with a new deadline. *)
Definition job_recovered (job : MJob) m : RecoveryManager S :=
  let tm := (timeout m) <| state := job_saved (reset_job job) (ps_of m) |> in
  m <| timeout := UpdateJobTimeout (JobID job) (RemoveJobTimeout (JobID job) tm) |>.

Lemma recover_job_op_healthy job m : rm_healthy m → recover_job_op random job m = (None, job_recovered job m).
Proof.
  intros [Hdb _]. unfold recover_job_op, rm_state, on_tm, on_state. change (state (timeout m)) with (ps_of m).
  by rewrite SaveJob_healthy.
Qed.

Lemma rm_retry_healthy op m m' : rm_healthy m → op m = (None, m') → rm_retry random op m = (Ok tt, m').
Proof. intros [_ Hm] E. unfold rm_retry. by rewrite (Execute_once _ _ random _ _ Hm E). Qed.

Lemma recover_one_healthy m job : rm_healthy m →
  recover_one random m job =
    (job_recovered job m) <| rm_stats := (rm_stats m) <| OrphanedJobsRecovered := wrap64 (OrphanedJobsRecovered (rm_stats m) + 1) |> |>.
Proof. intros Hm. unfold recover_one. by rewrite (rm_retry_healthy _ m (job_recovered job m) Hm (recover_job_op_healthy job m Hm)). Qed.

(** The effect of recovering a list of jobs with distinct IDs. *)
Record repaired (l : list MJob) m m' : Prop := {
  rp_healthy : rm_healthy m';
  rp_jobs : jobs (ps_of m') = foldl (λ js j, <[JobID j := reset_job j]> js) (jobs (ps_of m)) l;
  rp_data : data (ps_of m') = foldl (λ d j, <["job:" +:+ JobID j := EJob (reset_job j)]> d) (data (ps_of m)) l;
  rp_bots : bots (ps_of m') = bots (ps_of m);
  rp_clock : clock (ps_of m') = clock (ps_of m);
  rp_botTimeouts : botTimeouts (timeout m') = botTimeouts (timeout m);
  rp_new : ∀ j, j ∈ l → ∃ n, jobTimeouts (timeout m') !! JobID j = Some (clock (ps_of m) n + JobExecution (timeout m));
  rp_old : ∀ i, i ∉ JobID <$> l → jobTimeouts (timeout m') !! i = jobTimeouts (timeout m) !! i;
  rp_execution : JobExecution (timeout m') = JobExecution (timeout m);
  rp_stats : OrphanedJobsRecovered (rm_stats m') = wrap64 (OrphanedJobsRecovered (rm_stats m) + Z.of_nat (length l)) ∨ l = [] }.

Lemma wrap64_succ a b : wrap64 (wrap64 a + b) = wrap64 (a + b).
Proof.
  unfold wrap64. replace ((a + 2 ^ 63) mod 2 ^ 64 - 2 ^ 63 + b + 2 ^ 63) with ((a + 2 ^ 63) mod 2 ^ 64 + b) by lia.
  rewrite Z.add_mod_idemp_l by lia. do 2 f_equal. lia.
Qed.

Lemma recover_list l m : rm_healthy m → NoDup (JobID <$> l) → repaired l m (foldl (recover_one random) m l) ∧ store (foldl (recover_one random) m l) = store m.
Proof.
  revert m. induction l as [|j l IH]; intros m Hm Hl.
  { split; [|done]. split; try done; [by intros j ?%not_elem_of_nil|by right]. }
  cbn [foldl]. rewrite fmap_cons in Hl. apply NoDup_cons in Hl as [Hj Hl].
  rewrite recover_one_healthy by done. set (m1 := set_field rm_stats _ _).
  assert (rm_healthy m1) as Hm1 by exact Hm.
  destruct (IH m1 Hm1 Hl) as [[h1 h2 h3 h4 h5 h6 h7 h8 h9 h10] Hs]. split; [|done].
  split; [done|by rewrite h2|by rewrite h3|done|done|done| | |done| ].
  - intros j' [->|Hin]%elem_of_cons.
    + rewrite h8 by done. unfold m1, job_recovered, UpdateJobTimeout, SetJobTimeout, tm_now, time_now. simpl.
      eexists. rewrite lookup_insert_eq. unfold time_add. done.
    + by apply h7.
  - intros i [Hi Hil]%not_elem_of_cons. rewrite h8 by done.
    unfold m1, job_recovered, UpdateJobTimeout, SetJobTimeout, tm_now, time_now. simpl.
    rewrite lookup_insert_ne by done. by rewrite lookup_delete_ne.
  - left. destruct h10 as [->| ->].
    + unfold m1. cbn [rm_stats OrphanedJobsRecovered set_field]. rewrite wrap64_succ. f_equal. rewrite length_cons. lia.
    + unfold m1. cbn [rm_stats OrphanedJobsRecovered set_field foldl length]. done.
Qed.

(** The list that orphan detection returns. *)
Lemma orphans_listed m : jobs_keyed (jobs (ps_of m)) →
  let l := (FindOrphanedJobs job_order (ps_of m)).1 in
  NoDup (JobID <$> l) ∧
  ∀ j, j ∈ l ↔ jobs (ps_of m) !! JobID j = Some j ∧ job_orphaned (clock (ps_of m) (ticks (ps_of m))) (bots (ps_of m)) j = true.
Proof.
  intros Hk. unfold FindOrphanedJobs, time_now, ListJobs. cbn [fst snd].
  set (js := (snd <$> job_order _ _)).
  assert (∀ j, j ∈ js ↔ jobs (ps_of m) !! JobID j = Some j) as Hin.
  { intros j. subst js. rewrite list_elem_of_fmap. setoid_rewrite job_order_perm. split.
    - intros ([k j'] & -> & Hj%elem_of_map_to_list). simpl. by rewrite (Hk _ _ Hj).
    - intros Hj. exists (JobID j, j). split; [done|]. by apply elem_of_map_to_list. }
  split.
  - apply NoDup_fmap_filter. subst js. rewrite job_order_perm. cbn [jobs set_field].
    assert (JobID <$> (snd <$> map_to_list (jobs (ps_of m))) = fst <$> map_to_list (jobs (ps_of m))) as ->.
    { rewrite <- list_fmap_compose. apply list_fmap_ext. intros i [k j] Hj. simpl.
      apply Hk, elem_of_map_to_list. by eapply list_elem_of_lookup_2. }
    apply NoDup_fst_map_to_list.
  - intros j. rewrite elem_of_filter_bool, Hin. done.
Qed.

Lemma orphan_pass m : rm_healthy m → jobs_keyed (jobs (ps_of m)) →
  let m' := recoverOrphanedJobs random job_order m in
  repaired (FindOrphanedJobs job_order (ps_of m)).1 m m' ∧ store m' = store m.
Proof.
  intros Hm Hk. destruct (orphans_listed m Hk) as [Hnd _].
  unfold recoverOrphanedJobs, rm_state, on_tm, on_state. change (state (timeout m)) with (ps_of m).
  destruct (FindOrphanedJobs job_order (ps_of m)) as [l ps1] eqn:E. simpl in Hnd. cbn [fst].
  assert (ps1 = (ps_of m) <| ticks := Datatypes.S (ticks (ps_of m)) |>) as ->.
  { unfold FindOrphanedJobs, time_now in E. injection E as _ <-. done. }
  set (m1 := set_field timeout _ _).
  destruct (recover_list l m1) as [[h1 h2 h3 h4 h5 h6 h7 h8 h9 h10] Hs]; [exact Hm|done|]. split; [by split|exact Hs].
Qed.

Lemma reset_jobs_keyed l (js : gmap string MJob) : jobs_keyed js → jobs_keyed (foldl (λ js j, <[JobID j := reset_job j]> js) js l).
Proof. revert js. induction l as [|j l IH]; intros js Hk; [done|]. cbn [foldl]. by apply IH, jobs_keyed_insert. Qed.

Lemma repaired_data l m m' k : repaired l m m' → k ∉ JobID <$> l → NoDup (JobID <$> l) →
  data (ps_of m') !! ("job:" +:+ k) = data (ps_of m) !! ("job:" +:+ k).
Proof.
  intros R Hk Hnd. rewrite (rp_data _ _ _ R). apply (foldl_insert (λ j, "job:" +:+ JobID j) (λ j, EJob (reset_job j))).
  - change (NoDup (((λ i, "job:" +:+ i) ∘ JobID) <$> l)). rewrite list_fmap_compose.
    apply NoDup_fmap_2; [|done]. intros a b Hab. by apply (inj (String.append "job:")).
  - intros (j & Ej & Hj)%list_elem_of_fmap. apply Hk. apply list_elem_of_fmap. exists j. split; [|done]. by simplify_eq/=.
Qed.

Lemma reset_not_orphaned now bs job : job_orphaned now bs (reset_job job) = false.
Proof. done. Qed.

(** Recovering the orphans on a healthy database: exactly the orphaned jobs
    go back to the pool, pending and without a bot, in the cache and in the
    database, each with a new deadline in the time-out manager; the other jobs,
    the bots and the other deadlines stay; every recovery is counted; and
    nothing that was orphaned at the scan is left. *)
Theorem orphans_recovered m :
  rm_healthy m → jobs_keyed (jobs (ps_of m)) →
  let now := clock (ps_of m) (ticks (ps_of m)) in
  let orphaned j := job_orphaned now (bots (ps_of m)) j in
  let m' := recoverOrphanedJobs random job_order m in
  (∀ k j, jobs (ps_of m) !! k = Some j →
     let free := j <| JobState := JobStatusPending |> <| AssignedBot := None |> <| StartedAt := None |> in
     if orphaned j
     then jobs (ps_of m') !! k = Some free ∧ data (ps_of m') !! ("job:" +:+ k) = Some (EJob free) ∧
       ∃ n, jobTimeouts (timeout m') !! k = Some (clock (ps_of m) n + JobExecution (timeout m))
     else jobs (ps_of m') !! k = Some j ∧ data (ps_of m') !! ("job:" +:+ k) = data (ps_of m) !! ("job:" +:+ k) ∧
       jobTimeouts (timeout m') !! k = jobTimeouts (timeout m) !! k) ∧
  bots (ps_of m') = bots (ps_of m) ∧ botTimeouts (timeout m') = botTimeouts (timeout m) ∧ store m' = store m ∧
  ∀ k j, jobs (ps_of m') !! k = Some j → job_orphaned now (bots (ps_of m')) j = false.
Proof.
  intros Hm Hk now orphaned m'. destruct (orphans_listed m Hk) as [Hnd Hin]. fold now in Hin.
  destruct (orphan_pass m Hm Hk) as [[h1 h2 h3 h4 h5 h6 h7 h8 h9 h10] Hs]. fold m' in h1, h2, h3, h4, h5, h6, h7, h8, h9, h10, Hs.
  set (l := (FindOrphanedJobs job_order (ps_of m)).1) in *.
  destruct (foldl_insert JobID reset_job l (jobs (ps_of m)) Hnd) as [J1 J2]. rewrite <- h2 in J1, J2.
  assert (NoDup ((λ j, "job:" +:+ JobID j) <$> l)) as Hnd2.
  { change (NoDup (((λ i, "job:" +:+ i) ∘ JobID) <$> l)). rewrite list_fmap_compose.
    apply NoDup_fmap_2; [|done]. intros a b Hab. by apply (inj (String.append "job:")). }
  destruct (foldl_insert (λ j, "job:" +:+ JobID j) (λ j, EJob (reset_job j)) l (data (ps_of m)) Hnd2) as [D1 D2]. rewrite <- h3 in D1, D2.
  assert (∀ k j, jobs (ps_of m) !! k = Some j → (orphaned j = true → j ∈ l) ∧ (orphaned j = false → k ∉ JobID <$> l)) as Hl.
  { intros k j Hj. split.
    - intros Ho. apply Hin. by rewrite (Hk _ _ Hj).
    - intros Ho (j' & -> & Hj')%list_elem_of_fmap. apply Hin in Hj' as [Hj1 Hj2]. rewrite Hj in Hj1. injection Hj1 as <-.
      unfold orphaned in Ho. by rewrite Ho in Hj2. }
  assert (∀ k j, jobs (ps_of m) !! k = Some j →
     if orphaned j
     then jobs (ps_of m') !! k = Some (reset_job j) ∧ data (ps_of m') !! ("job:" +:+ k) = Some (EJob (reset_job j)) ∧
       ∃ n, jobTimeouts (timeout m') !! k = Some (clock (ps_of m) n + JobExecution (timeout m))
     else jobs (ps_of m') !! k = Some j ∧ data (ps_of m') !! ("job:" +:+ k) = data (ps_of m) !! ("job:" +:+ k) ∧
       jobTimeouts (timeout m') !! k = jobTimeouts (timeout m) !! k) as Hall.
  { intros k j Hj. destruct (Hl k j Hj) as [Ht Hf]. destruct (orphaned j).
    - specialize (Ht eq_refl). rewrite <- (Hk _ _ Hj). split_and!; [by apply J1|by apply D1|by apply h7].
    - specialize (Hf eq_refl). split_and!; [by rewrite J2| |by rewrite h8]. rewrite D2; [done|].
      intros (j' & Hj' & Hin')%list_elem_of_fmap. apply Hf. apply list_elem_of_fmap. exists j'. split; [|done]. by simplify_eq/=. }
  split_and!; [exact Hall|done..|].
  intros k j Hj. rewrite h4.
  destruct (jobs (ps_of m) !! k) as [j0|] eqn:Hj0.
  - specialize (Hall k j0 Hj0). destruct (orphaned j0) eqn:Ho; destruct Hall as [E1 _]; rewrite Hj in E1; injection E1 as ->; [done|exact Ho].
  - assert (k ∉ JobID <$> l) as Hk0.
    { intros (j' & -> & Hj')%list_elem_of_fmap. apply Hin in Hj' as [Hj' _]. congruence. }
    rewrite J2 in Hj by done.  congruence.
Qed.

(** *** Resetting bots *)

Definition bots_keyed (bs : gmap string Bot) : Prop := ∀ k b, bs !! k = Some b → BotID b = k.

Definition bot_reset (botID : string) (bot : Bot) (ps : PersistentState) : PersistentState :=
  count_transaction (ps <| bots := <[botID := timed_out_bot bot]> (bots ps) |>
                        <| data := <["bot:" +:+ botID := EBot (timed_out_bot bot)]> (data ps) |>).

Lemma ResetBot_cached botID bot ps : db_healthy ps → bots ps !! botID = Some bot →
  ResetBot random botID ps = (Ok tt, bot_reset botID bot ps).
Proof.
  intros [Hf Hm] Hb. apply with_retry_healthy; [done|]. apply transaction_healthy; [done| |done].
  rewrite Hb. cbv beta iota zeta. rewrite store_all_healthy by done. reflexivity.
Qed.

(** The effect of resetting cached bots with distinct IDs. *)
Record bots_down (l : list string) m m' : Prop := {
  bd_healthy : rm_healthy m';
  bd_jobs : jobs (ps_of m') = jobs (ps_of m);
  bd_clock : clock (ps_of m') = clock (ps_of m);
  bd_reset : ∀ i b, i ∈ l → bots (ps_of m) !! i = Some b → bots (ps_of m') !! i = Some (timed_out_bot b);
  bd_others : ∀ i, i ∉ l → bots (ps_of m') !! i = bots (ps_of m) !! i;
  bd_data : ∀ i, data (ps_of m') !! ("job:" +:+ i) = data (ps_of m) !! ("job:" +:+ i) }.

Lemma reset_list l m : rm_healthy m → NoDup l → (∀ i, i ∈ l → is_Some (bots (ps_of m) !! i)) →
  bots_down l m (foldl (reset_one random) m l).
Proof.
  revert m. induction l as [|i l IH]; intros m Hm Hl Hin.
  { split; try done; by intros i b ?%not_elem_of_nil. }
  cbn [foldl]. apply NoDup_cons in Hl as [Hi Hl]. destruct (Hin i) as [b Hb]; [by left|].
  assert (reset_bot_op random i m = (None, m <| timeout := RemoveBotTimeout i ((timeout m) <| state := bot_reset i b (ps_of m) |>) |>)) as E.
  { unfold reset_bot_op, rm_state, on_tm, on_state. change (state (timeout m)) with (ps_of m).
    by rewrite (ResetBot_cached i b) by (try done; apply Hm). }
  unfold reset_one at 2. rewrite (rm_retry_healthy _ _ _ Hm E). set (m1 := set_field rm_stats _ _).
  destruct (IH m1) as [h1 h2 h3 h4 h5 h6]; [exact Hm|done| |].
  { intros i' Hi'. change (bots (ps_of m1)) with (<[i := timed_out_bot b]> (bots (ps_of m))).
    apply lookup_insert_is_Some'. right. apply Hin. by right. }
  change (bots (ps_of m1)) with (<[i := timed_out_bot b]> (bots (ps_of m))) in *.
  split; [done|exact h2|exact h3| | |].
  - intros i' b' [->|Hi']%elem_of_cons Hb'.
    + rewrite h5 by done. rewrite lookup_insert_eq. congruence.
    + apply h4; [done|]. rewrite lookup_insert_ne; [done|]. by intros ->.
  - intros i' [Hne Hi']%not_elem_of_cons. rewrite h5 by done. by apply lookup_insert_ne.
  - intros j. rewrite h6. simpl. by rewrite lookup_insert_ne.
Qed.

Lemma timed_out_listed m : bots_keyed (bots (ps_of m)) →
  let l := (FindTimedOutBots bot_order (ps_of m)).1 in
  NoDup l ∧ ∀ i, i ∈ l ↔ ∃ b, bots (ps_of m) !! i = Some b ∧ bot_timed_out (clock (ps_of m) (ticks (ps_of m))) b = true.
Proof.
  intros Hk. unfold FindTimedOutBots, time_now, ListBots. cbn [fst snd].
  set (bs := (snd <$> bot_order _ _)).
  assert (∀ b, b ∈ bs ↔ bots (ps_of m) !! BotID b = Some b) as Hin.
  { intros b. subst bs. rewrite list_elem_of_fmap. setoid_rewrite bot_order_perm. split.
    - intros ([k b'] & -> & Hb%elem_of_map_to_list). simpl. by rewrite (Hk _ _ Hb).
    - intros Hb. exists (BotID b, b). split; [done|]. by apply elem_of_map_to_list. }
  split.
  - apply NoDup_fmap_filter. subst bs. rewrite bot_order_perm. cbn [bots set_field].
    assert (BotID <$> (snd <$> map_to_list (bots (ps_of m))) = fst <$> map_to_list (bots (ps_of m))) as ->.
    { rewrite <- list_fmap_compose. apply list_fmap_ext. intros i [k b] Hb. simpl.
      apply Hk, elem_of_map_to_list. by eapply list_elem_of_lookup_2. }
    apply NoDup_fst_map_to_list.
  - intros i. rewrite list_elem_of_fmap. setoid_rewrite elem_of_filter_bool. split.
    + intros (b & -> & Hb%Hin & Ht). by exists b.
    + intros (b & Hb & Ht). exists b. rewrite Hin, (Hk _ _ Hb). done.
Qed.

Lemma reset_timed_out m : rm_healthy m → bots_keyed (bots (ps_of m)) →
  bots_down (FindTimedOutBots bot_order (ps_of m)).1 m (resetTimedOutBots random bot_order m).
Proof.
  intros Hm Hk. destruct (timed_out_listed m Hk) as [Hnd Hin].
  unfold resetTimedOutBots, rm_state, on_tm, on_state. change (state (timeout m)) with (ps_of m).
  destruct (FindTimedOutBots bot_order (ps_of m)) as [l ps1] eqn:E. simpl in Hnd, Hin.
  assert (ps1 = (ps_of m) <| ticks := Datatypes.S (ticks (ps_of m)) |>) as ->.
  { unfold FindTimedOutBots, time_now in E. injection E as _ <-. done. }
  cbn [fst]. set (m1 := set_field timeout _ _).
  destruct (reset_list l m1 Hm Hnd) as [h1 h2 h3 h4 h5 h6].
  { intros i (b & Hb & _)%Hin. by exists b. }
  split; done.
Qed.

(** *** Listing and cleaning *)

(** What an SQLite database lists: the stored jobs, with distinct IDs. *)
Hypothesis sqlite_list_law : ∀ get, sqlite_ListJobs = Some get → ∀ d l, get d = inl l →
  NoDup (JobID <$> l) ∧ ∀ j, j ∈ l ↔ d !! ("job:" +:+ JobID j) = Some (EJob j).

(** A job is cached under its ID as it is stored. *)
Definition settled (k : string) (j : MJob) (ps : PersistentState) : Prop :=
  jobs ps !! k = Some j ∧ JobID j = k ∧ data ps !! ("job:" +:+ k) = Some (EJob j).

Lemma list_jobs_settled k j ps : jobs_keyed (jobs ps) → settled k j ps →
  let '(l, ps') := list_jobs job_order sqlite_ListJobs ps in
  settled k j ps' ∧ jobs_keyed (jobs ps') ∧ bots ps' = bots ps ∧ db_healthy ps' = db_healthy ps ∧ clock ps' = clock ps ∧
  (∀ x, x ∈ l → JobID x = k → x = j) ∧ NoDup (JobID <$> l) ∧ j ∈ l.
Proof.
  intros Hk (Hj & Hid & Hd). unfold list_jobs.
  assert (∀ x, x ∈ ListJobs job_order ps → JobID x = k → x = j) as Hcached.
  { intros x ([k' x'] & -> & Hx)%list_elem_of_fmap Hx'. rewrite job_order_perm in Hx. apply elem_of_map_to_list in Hx. simpl in *.
    pose proof (Hk _ _ Hx). congruence. }
  assert (NoDup (JobID <$> ListJobs job_order ps) ∧ j ∈ ListJobs job_order ps) as [Hnc Hin].
  { unfold ListJobs. rewrite job_order_perm. split.
    - assert (JobID <$> (snd <$> map_to_list (jobs ps)) = fst <$> map_to_list (jobs ps)) as ->; [|apply NoDup_fst_map_to_list].
      rewrite <- list_fmap_compose. apply list_fmap_ext. intros i [k' x] Hx. simpl.
      apply Hk, elem_of_map_to_list. by eapply list_elem_of_lookup_2.
    - apply list_elem_of_fmap. exists (k, j). split; [done|]. by apply elem_of_map_to_list. }
  destruct sqlite_ListJobs as [get|] eqn:Eget; [|by split_and!].
  destruct (get (data ps)) as [l|e] eqn:El; [|by split_and!].
  destruct (sqlite_list_law get eq_refl _ _ El) as [Hnd Hstored].
  destruct (foldl_insert JobID (λ x, x) l (jobs ps) Hnd) as [F1 F2].
  assert (∀ x, x ∈ l → JobID x = k → x = j) as Hl.
  { intros x Hx Hxk. apply Hstored in Hx. rewrite Hxk in Hx. congruence. }
  split_and!; try done.
  - split_and!; [|done..]. cbn [jobs set_field]. destruct (decide (k ∈ JobID <$> l)) as [(x & Ex & Hx)%list_elem_of_fmap|Hn].
    + rewrite <- (Hl x Hx (eq_sym Ex)), Ex. exact (F1 x Hx).
    + by rewrite F2.
  - intros k' x Hx. cbn [jobs set_field] in Hx.
    destruct (decide (k' ∈ JobID <$> l)) as [(y & Ey & Hy)%list_elem_of_fmap|Hn].
    + rewrite Ey, F1 in Hx by done. by injection Hx as <-.
    + rewrite F2 in Hx by done. by apply Hk.
  - apply Hstored. by rewrite Hid.
Qed.

(** Light cleaning spares what is in progress. *)
Lemma light_one_keeps k j b bot m x : rm_healthy m → jobs (ps_of m) !! k = Some j → bots (ps_of m) !! b = Some bot →
  (JobID x = k → x = j) → in_progress j →
  let m' := light_one random m x in
  rm_healthy m' ∧ jobs (ps_of m') !! k = Some j ∧ bots (ps_of m') !! b = Some bot ∧ clock (ps_of m') = clock (ps_of m).
Proof.
  intros Hm Hj Hb Hx Hp. unfold light_one.
  destruct (String.eqb (JobState x) JobStatusCompleted || String.eqb (JobState x) JobStatusFailed) eqn:Es; [|by split_and!].
  destruct (CompletedAt x) as [t|]; [|by split_and!]. unfold rm_now, on_tm, tm_now, time_now. cbv zeta.
  destruct (_ <? _); [|by split_and!]. unfold rm_state, on_tm, on_state.
  rewrite DeleteJob_healthy by exact (proj1 Hm). split; [exact Hm|]. split; [|by split].
  cbn [ps_of timeout state snd set_field job_deleted count_transaction jobs]. rewrite lookup_delete_ne; [exact Hj|].
  intros E. specialize (Hx E). subst x. apply orb_true_iff in Es. rewrite !String.eqb_eq in Es.
  by destruct Hp as [Hp|[Hp|Hp]]; destruct Es as [Es|Es]; rewrite Hp in Es.
Qed.

Lemma light_list_keeps k j b bot l m : rm_healthy m → jobs (ps_of m) !! k = Some j → bots (ps_of m) !! b = Some bot →
  (∀ x, x ∈ l → JobID x = k → x = j) → in_progress j →
  let m' := foldl (light_one random) m l in jobs (ps_of m') !! k = Some j ∧ bots (ps_of m') !! b = Some bot.
Proof.
  revert m. induction l as [|x l IH]; intros m Hm Hj Hb Hx Hp; [done|]. cbn [foldl].
  destruct (light_one_keeps k j b bot m x) as (H1 & H2 & H3 & _); [done..|apply Hx; by left|done|].
  apply IH; try done. intros y Hy. apply Hx. by right.
Qed.

(** Maintenance looks for orphans before it resets the bots that have timed
    out, so it makes new ones: a job in progress on a bot that is in good status
    but past its deadline is no orphan at the scan; the bot is then reset and
    loses its job, and the job stays as it was, in progress on a bot that is
    timed out, and is an orphan when maintenance is done. *)
Theorem maintenance_strands_jobs m k j b bot :
  rm_healthy m → jobs_keyed (jobs (ps_of m)) → bots_keyed (bots (ps_of m)) → settled k j (ps_of m) →
  in_progress j → AssignedBot j = Some b → bots (ps_of m) !! b = Some bot →
  (∀ n, job_orphaned (clock (ps_of m) n) (bots (ps_of m)) j = false) →
  (∀ n, BotTimeoutAt bot < clock (ps_of m) n) → BotState bot ≠ BotStatusTimedOut →
  let m' := PerformMaintenanceRecovery random job_order bot_order sqlite_ListJobs m in
  jobs (ps_of m') !! k = Some j ∧ bots (ps_of m') !! b = Some (timed_out_bot bot) ∧
  ∀ now, job_orphaned now (bots (ps_of m')) j = true.
Proof.
  intros Hm Hk Hkb (Hj & Hid & Hd) Hp Ha Hb Ho Ht Hs. cbv zeta.
  assert (∀ x : RecoveryManager S, jobs (ps_of x) !! k = Some j → bots (ps_of x) !! b = Some (timed_out_bot bot) →
    jobs (ps_of x) !! k = Some j ∧ bots (ps_of x) !! b = Some (timed_out_bot bot) ∧
    ∀ now, job_orphaned now (bots (ps_of x)) j = true) as Hend.
  { intros x H1 H2. split_and!; [done..|]. intros now. unfold job_orphaned. rewrite Ha, H2. cbn.
    by destruct Hp as [-> |[-> | ->]]. }
  set (m0 := (rm_now m).2). assert (rm_healthy m0) as Hm0 by exact Hm.
  destruct (orphan_pass m0 Hm0 Hk) as [R1 _]. destruct (orphans_listed m0 Hk) as [_ Hin].
  set (m1 := recoverOrphanedJobs random job_order m0) in *.
  set (orphaned := (FindOrphanedJobs job_order (ps_of m0)).1) in *.
  assert (k ∉ JobID <$> orphaned) as Hno.
  { intros (j' & E & Hj')%list_elem_of_fmap. apply Hin in Hj' as [Hj1 Hj2]. rewrite <- E in Hj1.
    change (jobs (ps_of m0)) with (jobs (ps_of m)) in Hj1. rewrite Hj in Hj1. injection Hj1 as <-.
    change (job_orphaned (clock (ps_of m) (Datatypes.S (ticks (ps_of m)))) (bots (ps_of m)) j = true) in Hj2. by rewrite Ho in Hj2. }
  pose proof (rp_healthy _ _ _ R1) as Hm1. pose proof (rp_bots _ _ _ R1) as Hbots1. change (bots (ps_of m0)) with (bots (ps_of m)) in Hbots1.
  assert (jobs (ps_of m1) !! k = Some j) as Hj1.
  { rewrite (rp_jobs _ _ _ R1). destruct (foldl_insert JobID reset_job orphaned (jobs (ps_of m0)) (proj1 (orphans_listed m0 Hk))) as [_ ->]; done. }
  assert (data (ps_of m1) !! ("job:" +:+ k) = Some (EJob j)) as Hd1 by (by rewrite (repaired_data _ _ _ _ R1 Hno (proj1 (orphans_listed m0 Hk)))).
  assert (jobs_keyed (jobs (ps_of m1))) as Hk1 by (rewrite (rp_jobs _ _ _ R1); by apply reset_jobs_keyed).
  destruct (reset_timed_out m1 Hm1) as [Hm2 Hj2 Hc2 Hr2 _ Hd2]; [by rewrite Hbots1|].
  set (m2 := resetTimedOutBots random bot_order m1) in *.
  assert (bots (ps_of m2) !! b = Some (timed_out_bot bot)) as Hb2.
  { apply Hr2; [|by rewrite Hbots1]. apply timed_out_listed; [by rewrite Hbots1|]. exists bot. rewrite Hbots1. split; [done|].
    unfold bot_timed_out. rewrite (proj2 (String.eqb_neq _ _) Hs). rewrite (rp_clock _ _ _ R1).
    apply andb_true_iff. split; [|done]. apply Z.ltb_lt, Ht. }
  pose proof (list_jobs_settled k j (ps_of m2)) as Hlist. rewrite Hj2 in Hlist.
  destruct (list_jobs job_order sqlite_ListJobs (ps_of m2)) as [l ps3] eqn:El.
  destruct Hlist as ((Hj3 & _ & _) & _ & Hb3 & Hh3 & _ & Hx & _); [done|split_and!; [by rewrite Hj2|done|by rewrite Hd2]|].
  set (m3 := m2 <| timeout := (timeout m2) <| state := ps3 |> |>).
  destruct (light_list_keeps k j b (timed_out_bot bot) l m3) as [H1 H2]; [split; [change (db_healthy ps3); rewrite Hh3; apply Hm2|apply Hm2]|done|..].
  { change (bots (ps_of m3)) with (bots ps3). by rewrite Hb3. } { done. } { done. }
  assert (lightCleanup random job_order sqlite_ListJobs m2 = foldl (light_one random) m3 l) as E4.
  { unfold lightCleanup, rm_state, on_tm, on_state. change (state (timeout m2)) with (ps_of m2). by rewrite El. }
  apply Hend; unfold PerformMaintenanceRecovery; cbv zeta; fold m0; change (rm_now m) with ((rm_now m).1, m0); cbv iota beta;
    fold m1; fold m2; rewrite E4; [exact H1|exact H2].
Qed.

(** Staleness is a matter of time. *)
Lemma job_stale_mono j t u : t ≤ u → job_stale j t = true → job_stale j u = true.
Proof.
  intros Htu. unfold job_stale. destruct (slice_has _ _); rewrite ?andb_true_iff, !Z.ltb_lt; unfold time_sub; [lia|].
  intros [-> Hlt]. split; [done|]. lia.
Qed.

(** What the manager knows of a job. *)
Definition job_entry (k : string) m : option MJob * option entity * option Time :=
  (jobs (ps_of m) !! k, data (ps_of m) !! ("job:" +:+ k), jobTimeouts (timeout m) !! k).

Lemma clean_one_spec x m c : rm_healthy m →
  let r := clean_one random (m, c) x in
  rm_healthy r.1 ∧ clock (ps_of r.1) = clock (ps_of m) ∧
  (∀ k, k ≠ JobID x → job_entry k r.1 = job_entry k m) ∧
  ((∀ n, job_stale x (clock (ps_of m) n) = true) → job_entry (JobID x) r.1 = (None, None, None)) ∧
  ((∀ n, job_stale x (clock (ps_of m) n) = false) → job_entry (JobID x) r.1 = job_entry (JobID x) m).
Proof.
  intros Hm. unfold clean_one.
  set (reads := slice_has (JobState x) _).
  assert (∃ m1 now, (if reads then rm_now m else (0, m)) = (now, m1) ∧ rm_healthy m1 ∧ clock (ps_of m1) = clock (ps_of m) ∧
    (∀ k, job_entry k m1 = job_entry k m) ∧
    ((∀ t, job_stale x t = false) ∨ ∃ n, now = clock (ps_of m) n)) as (m1 & now & E & Hm1 & Hc1 & He1 & Hnow).
  { destruct reads eqn:Er.
    - eexists _, _. split; [reflexivity|]. split_and!; try done. right. by eexists.
    - exists m, 0. split_and!; try done. left. intros t. unfold job_stale. subst reads. cbn [slice_has existsb] in *.
      destruct (String.eqb (JobState x) JobStatusCompleted), (String.eqb (JobState x) JobStatusFailed),
        (String.eqb (JobState x) JobStatusCancelled), (String.eqb (JobState x) JobStatusPending); done. }
  rewrite E. destruct (job_stale x now) eqn:Es.
  - destruct Hnow as [Hnow|[n ->]]; [by rewrite Hnow in Es|].
    assert (delete_stale_op random x m1 = (None, m1 <| timeout := (RemoveJobTimeout (JobID x) (timeout m1)) <| state := job_deleted (JobID x) (ps_of m1) |> |>)) as Ed.
    { unfold delete_stale_op, rm_state, on_tm, on_state. cbn [timeout set_field].
      change (state (RemoveJobTimeout (JobID x) (timeout m1))) with (ps_of m1). rewrite DeleteJob_healthy by exact (proj1 Hm1). done. }
    rewrite (rm_retry_healthy _ m1 _ Hm1 Ed). split_and!; [exact Hm1|exact Hc1|..].
    + intros k Hk. rewrite <- He1.
      change ((delete (JobID x) (jobs (ps_of m1)) !! k, delete ("job:" +:+ JobID x) (data (ps_of m1)) !! ("job:" +:+ k),
               delete (JobID x) (jobTimeouts (timeout m1)) !! k) = job_entry k m1).
      rewrite (lookup_delete_ne (jobs (ps_of m1))), (lookup_delete_ne (jobTimeouts (timeout m1))) by done.
      rewrite lookup_delete_ne; [done|]. intros E'%(inj (String.append "job:")). by apply Hk.
    + intros _. unfold job_entry. cbn. by rewrite !lookup_delete_eq.
    + intros Hf. by rewrite Hf in Es.
  - split_and!; [exact Hm1|exact Hc1|by intros k _; apply He1|..|by intros _; apply He1].
    intros Ht. destruct Hnow as [Hnow|[n ->]]; [|by rewrite Ht in Es]. specialize (Ht 0%nat). by rewrite Hnow in Ht.
Qed.

Lemma clean_list_other l m c k : rm_healthy m → k ∉ JobID <$> l →
  job_entry k (foldl (clean_one random) (m, c) l).1 = job_entry k m.
Proof.
  revert m c. induction l as [|x l IH]; intros m c Hm Hk; [done|]. cbn [foldl].
  rewrite fmap_cons in Hk. apply not_elem_of_cons in Hk as [Hx Hk].
  destruct (clean_one_spec x m c Hm) as (H1 & _ & H3 & _). destruct (clean_one random (m, c) x) as [m1 c1].
  rewrite IH by done. by apply H3.
Qed.

Lemma clean_list l m c k j : rm_healthy m → NoDup (JobID <$> l) → (∀ x, x ∈ l → JobID x = k → x = j) → j ∈ l → JobID j = k →
  ((∀ n, job_stale j (clock (ps_of m) n) = true) → job_entry k (foldl (clean_one random) (m, c) l).1 = (None, None, None)) ∧
  ((∀ n, job_stale j (clock (ps_of m) n) = false) → job_entry k (foldl (clean_one random) (m, c) l).1 = job_entry k m).
Proof.
  revert m c. induction l as [|x l IH]; intros m c Hm Hnd Hx Hj Hid; [by apply not_elem_of_nil in Hj|]. cbn [foldl].
  rewrite fmap_cons in Hnd. apply NoDup_cons in Hnd as [Hn Hnd].
  destruct (clean_one_spec x m c Hm) as (H1 & H2 & H3 & H4 & H5). destruct (clean_one random (m, c) x) as [m1 c1]. cbn [fst] in *.
  destruct (decide (JobID x = k)) as [Ex|Ex].
  - assert (x = j) as -> by (apply Hx; [by left|done]). rewrite clean_list_other by (try done; by rewrite <- Hid). rewrite Hid in *. by split.
  - apply elem_of_cons in Hj as [->|Hj]; [done|].
    destruct (IH m1 c1) as [I1 I2]; try done. { intros y Hy. apply Hx. by right. }
    rewrite H2 in I1, I2. split; [done|]. intros Hs. rewrite I2 by done. by apply H3.
Qed.

(** Cleaning stale data on a healthy database: a job that was finished, or
    is pending since its creation, for more than a day when the sweep starts is
    gone from the cache, the database and the deadlines, and a job for which
    this does not hold by the end of the sweep is untouched.  So a pending job
    lives a day from its creation, even if start-up has just renewed its
    time-out. *)
Theorem stale_cleanup_exact m t0 t1 k j :
  rm_healthy m → jobs_keyed (jobs (ps_of m)) → settled k j (ps_of m) → (∀ n, t0 ≤ clock (ps_of m) n ≤ t1) →
  let m' := cleanupStaleData random job_order sqlite_ListJobs m in
  (job_stale j t0 = true → job_entry k m' = (None, None, None)) ∧
  (job_stale j t1 = false → job_entry k m' = job_entry k m).
Proof.
  intros Hm Hk Hs Hclock. pose proof Hs as (Hj & Hid & Hd). cbv zeta. unfold cleanupStaleData, rm_state, on_tm, on_state.
  change (state (timeout m)) with (ps_of m). pose proof (list_jobs_settled k j (ps_of m) Hk Hs) as Hlist.
  destruct (list_jobs job_order sqlite_ListJobs (ps_of m)) as [l ps1].
  destruct Hlist as ((Hj1 & _ & Hd1) & _ & _ & Hh & Hc & Hx & Hnd & Hin).
  set (m1 := set_field timeout _ m). assert (rm_healthy m1) as Hm1 by (split; [change (db_healthy ps1); rewrite Hh; apply Hm|apply Hm]).
  destruct (clean_list l m1 0 k j Hm1 Hnd Hx Hin Hid) as [C1 C2]. change (clock (ps_of m1)) with (clock ps1) in C1, C2. rewrite Hc in C1, C2.
  assert (job_entry k m1 = job_entry k m) as <-.
  { unfold job_entry. change (ps_of m1) with ps1. by rewrite Hj1, Hd1, Hj, Hd. }
  destruct (foldl (clean_one random) (m1, 0) l) as [m2 cleaned]. cbn [fst] in C1, C2. split; intros Ht.
  - apply C1. intros n. by eapply job_stale_mono, Ht; apply Hclock.
  - apply C2. intros n. destruct (job_stale j (clock (ps_of m) n)) eqn:E; [|done]. exfalso.
    apply (job_stale_mono j _ t1) in E; [congruence|apply (Hclock n)].
Qed.

(** ** Bot failures *)

Definition failed_bot (bot : Bot) : Bot :=
  bot <| BotState := BotStatusFailed |> <| FailureCount := wrap64 (FailureCount bot + 1) |>.

Lemma GetBot_cached botID bot m : bots (ps_of m) !! botID = Some bot →
  ∃ m', rm_state (GetBot random bot_order botID) m = (inl bot, m') ∧ rm_healthy m' = rm_healthy m ∧
    bots (ps_of m') = bots (ps_of m) ∧ jobs (ps_of m') = jobs (ps_of m) ∧ data (ps_of m') = data (ps_of m) ∧
    botTimeouts (timeout m') = botTimeouts (timeout m) ∧ jobTimeouts (timeout m') = jobTimeouts (timeout m) ∧
    clock (ps_of m') = clock (ps_of m) ∧ JobExecution (timeout m') = JobExecution (timeout m).
Proof.
  intros Hb. unfold rm_state, on_tm, on_state, GetBot. change (state (timeout m)) with (ps_of m). rewrite Hb.
  unfold touch, time_now. eexists. split; [reflexivity|]. by split_and!.
Qed.

Lemma GetJob_cached jobID job m : jobs (ps_of m) !! jobID = Some job →
  ∃ m', rm_state (GetJob random job_order sqlite_GetJob jobID) m = (inl job, m') ∧ rm_healthy m' = rm_healthy m ∧
    bots (ps_of m') = bots (ps_of m) ∧ jobs (ps_of m') = jobs (ps_of m) ∧ data (ps_of m') = data (ps_of m) ∧
    botTimeouts (timeout m') = botTimeouts (timeout m) ∧ jobTimeouts (timeout m') = jobTimeouts (timeout m) ∧
    clock (ps_of m') = clock (ps_of m) ∧ JobExecution (timeout m') = JobExecution (timeout m).
Proof.
  intros Hj. unfold rm_state, on_tm, on_state, GetJob. change (state (timeout m)) with (ps_of m). rewrite Hj.
  unfold touch, time_now. eexists. split; [reflexivity|]. by split_and!.
Qed.

Lemma empty_transaction_healthy fn m m' : rm_healthy m → fn m = (None, m') → rm_healthy m' →
  empty_transaction fn m = (None, m').
Proof.
  intros [[Hf _] _] E [[Hf' _] _]. unfold empty_transaction, rm_state, on_tm, on_state.
  change (state (timeout m)) with (ps_of m). rewrite db_call_healthy by done.
  replace (m <| timeout := (timeout m) <| state := ps_of m |> |>) with m by (by destruct m as [[]]).
  rewrite E. change (state (timeout m')) with (ps_of m'). rewrite db_call_healthy by done. by destruct m' as [[]].
Qed.

(** The failure of a cached bot on a healthy database, when its current
    job, if it has one, is cached too: the bot is failed, with one more failure
    and without a job, the job goes back to the pool, both in the cache and in
    the database; the deadline of the bot is dropped and the job gets a new one;
    all other bots and jobs stay. *)
Theorem bot_failure_handled m botID bot :
  rm_healthy m → bots_keyed (bots (ps_of m)) → jobs_keyed (jobs (ps_of m)) → bots (ps_of m) !! botID = Some bot →
  (∀ k, CurrentJob bot = Some k → is_Some (jobs (ps_of m) !! k)) →
  let down := (failed_bot bot) <| CurrentJob := None |> in
  ∃ m', HandleBotFailureWithRetry random job_order bot_order sqlite_GetJob botID m = (None, m') ∧
    bots (ps_of m') = <[botID := down]> (bots (ps_of m)) ∧ data (ps_of m') !! ("bot:" +:+ botID) = Some (EBot down) ∧
    botTimeouts (timeout m') = delete botID (botTimeouts (timeout m)) ∧
    match CurrentJob bot with
    | Some k => ∃ j n, let free := j <| JobState := JobStatusPending |> <| AssignedBot := None |> <| StartedAt := None |> in
        jobs (ps_of m) !! k = Some j ∧ jobs (ps_of m') = <[k := free]> (jobs (ps_of m)) ∧
        data (ps_of m') !! ("job:" +:+ k) = Some (EJob free) ∧
        jobTimeouts (timeout m') = <[k := clock (ps_of m) n + JobExecution (timeout m)]> (jobTimeouts (timeout m))
    | None => jobs (ps_of m') = jobs (ps_of m) ∧ jobTimeouts (timeout m') = jobTimeouts (timeout m)
    end.
Proof.
  intros Hm Hkb Hkj Hb Hcur down.
  assert (BotID bot = botID) as Hid by by apply Hkb.
  assert (∃ m', bot_failure_op random job_order bot_order sqlite_GetJob botID m = (None, m') ∧ rm_healthy m' ∧
    bots (ps_of m') = <[botID := down]> (bots (ps_of m)) ∧ data (ps_of m') !! ("bot:" +:+ botID) = Some (EBot down) ∧
    botTimeouts (timeout m') = delete botID (botTimeouts (timeout m)) ∧
    match CurrentJob bot with
    | Some k => ∃ j n, jobs (ps_of m) !! k = Some j ∧ jobs (ps_of m') = <[k := reset_job j]> (jobs (ps_of m)) ∧
        data (ps_of m') !! ("job:" +:+ k) = Some (EJob (reset_job j)) ∧
        jobTimeouts (timeout m') = <[k := clock (ps_of m) n + JobExecution (timeout m)]> (jobTimeouts (timeout m))
    | None => jobs (ps_of m') = jobs (ps_of m) ∧ jobTimeouts (timeout m') = jobTimeouts (timeout m)
    end) as (m' & E & Hm' & Hrest).
  2:{ exists m'. split; [|done]. unfold HandleBotFailureWithRetry.
      by rewrite (rm_retry_healthy _ m m' Hm (empty_transaction_healthy _ m m' Hm E Hm')). }
  unfold bot_failure_op. destruct (GetBot_cached botID bot m Hb) as (m1 & -> & Hh1 & Hb1 & Hj1 & Hd1 & Hbt1 & Hjt1 & Hc1 & Hx1).
  cbv zeta. change (bot <| BotState := BotStatusFailed |> <| FailureCount := wrap64 (FailureCount bot + 1) |>) with (failed_bot bot).
  change (CurrentJob (failed_bot bot)) with (CurrentJob bot).
  set (m2 := set_cached_bot botID (failed_bot bot) m1).
  assert (rm_healthy m2) as Hm2 by (change (rm_healthy m1); by rewrite Hh1).
  destruct (CurrentJob bot) as [k|] eqn:Ek.
  - destruct (Hcur k eq_refl) as [j Hj]. unfold release_failed_job.
    destruct (GetJob_cached k j m2) as (m3 & -> & Hh3 & Hb3 & Hj3 & Hd3 & Hbt3 & Hjt3 & Hc3 & Hx3); [change (jobs (ps_of m1) !! k = Some j); by rewrite Hj1|].
    assert (rm_healthy m3) as Hm3 by by rewrite Hh3.
    rewrite recover_job_op_healthy by done. set (m4 := job_recovered j m3).
    unfold rm_state, on_tm, on_state. change (state (timeout m4)) with (ps_of m4).
    rewrite (SaveBot_healthy random) by exact (proj1 Hm3). eexists. split; [reflexivity|].
    assert (JobID j = k) as Hjk by by apply Hkj.
    change (BotID ((failed_bot bot) <| CurrentJob := None |>)) with (BotID bot).
    split_and!; try exact Hm3.
    + change (<[BotID bot := down]> (bots (ps_of m3)) = <[botID := down]> (bots (ps_of m))). rewrite Hid, Hb3.
      change (bots (ps_of m2)) with (<[botID := failed_bot bot]> (bots (ps_of m1))). by rewrite Hb1, insert_insert_eq.
    + change (<["bot:" +:+ BotID bot := EBot down]> (data (ps_of m4)) !! ("bot:" +:+ botID) = Some (EBot down)).
      by rewrite Hid, lookup_insert_eq.
    + cbn. rewrite Hbt3. change (botTimeouts (timeout m2)) with (botTimeouts (timeout m1)). by rewrite Hbt1.
    + exists j. eexists. split; [done|]. cbn. rewrite Hjk, Hj3. change (jobs (ps_of m2)) with (jobs (ps_of m1)). rewrite Hj1. split; [done|].
      split; [rewrite lookup_insert_ne by done; rewrite lookup_insert_eq; done|].
      rewrite Hjt3, insert_delete_eq. change (jobTimeouts (timeout m2)) with (jobTimeouts (timeout m1)). rewrite Hjt1.
      unfold time_add. rewrite Hc3, Hx3. change (clock (ps_of m2)) with (clock (ps_of m1)). change (JobExecution (timeout m2)) with (JobExecution (timeout m1)).
      rewrite Hc1, Hx1. done.
  - unfold rm_state, on_tm, on_state. change (state (timeout m2)) with (ps_of m2).
    rewrite (SaveBot_healthy random) by exact (proj1 Hm2). eexists. split; [reflexivity|].
    split_and!; try exact Hm2.
    + change (<[BotID bot := down]> (<[botID := failed_bot bot]> (bots (ps_of m1))) = <[botID := down]> (bots (ps_of m))).
      by rewrite Hid, Hb1, insert_insert_eq.
    + change (<["bot:" +:+ BotID bot := EBot down]> (data (ps_of m2)) !! ("bot:" +:+ botID) = Some (EBot down)).
      by rewrite Hid, lookup_insert_eq.
    + cbn. by rewrite Hbt1.
    + cbn. exact Hj1.
    + cbn. exact Hjt1.
Qed.

(** ** Campaigns *)

(** A running campaign whose linked jobs are all completed or failed. *)
Definition campaign_due (v : StoreView) (c : Campaign) : bool :=
  String.eqb (CampStatus c) CampaignStatusRunning && forallb job_done (linked_jobs v (CampID c)).
Definition completed_at (t u : Time) (c : Campaign) : Campaign :=
  c <| CampUpdatedAt := u |> <| CampStatus := CampaignStatusCompleted |> <| CampCompletedAt := Some t |>.

Lemma forallb_perm {A} (p : A → bool) l1 l2 : l1 ≡ₚ l2 → forallb p l1 = forallb p l2.
Proof.
  induction 1 as [|x l l' _ IH|x y l|l1 l2 l3 _ IH1 _ IH2]; simpl; [done|by rewrite IH|by destruct (p x), (p y)|congruence].
Qed.

End orphans.

Section campaigns.
Context {S : Type} `{CampaignStorageLaws S, !ReliableStorage S}.
Variable has_campaigns : bool.
Implicit Types (m : RecoveryManager S).

Lemma recover_campaign_spec m c : v_campaigns (view (store m)) !! CampID c = Some c →
  let m' := recover_campaign m c in
  if campaign_due (view (store m)) c
  then ∃ n u, view (store m') = mkView (<[CampID c := completed_at (clock (ps_of m) n) u c]> (v_campaigns (view (store m))))
                                (v_jobs (view (store m))) (v_links (view (store m))) ∧ clock (ps_of m') = clock (ps_of m)
  else m' = m.
Proof.
  intros Hc. cbv zeta. unfold recover_campaign, campaign_due.
  destruct (String.eqb (CampStatus c) CampaignStatusRunning); cbn [negb andb]; [|done].
  destruct (reliable_jobs (store m) (CampID c)) as [l El]. rewrite El.
  apply get_campaign_jobs in El. rewrite <- (forallb_perm job_done _ _ El).
  destruct (forallb job_done l); [|done]. unfold rm_now, on_tm, tm_now, time_now. cbv zeta. cbn [store set_field].
  set (u := [("status", _); _]). set (t := clock _ _) in *.
  pose proof (reliable_update (store m) (CampID c) u) as Hu.
  destruct (UpdateCampaign (store m) (CampID c) u) as [r s'] eqn:E. simpl in Hu. rewrite Hu in E by by eexists.
  apply update_ok in E as (c0 & c' & Hc0 & [w ->] & Hv); [|done]. rewrite Hc in Hc0. injection Hc0 as <-.
  eexists _, w. split; [|done]. cbn [store set_field snd]. rewrite Hv. done.
Qed.

(** Campaigns at start-up, over a storage in good health: every listed
    campaign that is running while all its jobs are completed or failed, or that
    has no job, is completed at a time of the recovery, also when all jobs
    failed; a job that timed out or was cancelled keeps its campaign running for
    ever; no other campaign, and no job, changes. *)
Theorem campaigns_recovered m l :
  has_campaigns = true → ListCampaigns (store m) 1000 0 "" = inl l → NoDup (CampID <$> l) →
  ∃ m', recoverCampaigns has_campaigns m = (None, m') ∧
    v_jobs (view (store m')) = v_jobs (view (store m)) ∧ v_links (view (store m')) = v_links (view (store m)) ∧
    (∀ c, c ∈ l →
       if campaign_due (view (store m)) c
       then ∃ n u, v_campaigns (view (store m')) !! CampID c = Some (completed_at (clock (ps_of m) n) u c)
       else v_campaigns (view (store m')) !! CampID c = Some c) ∧
    ∀ id, id ∉ CampID <$> l → v_campaigns (view (store m')) !! id = v_campaigns (view (store m)) !! id.
Proof.
  intros -> El Hnd. unfold recoverCampaigns. cbn [negb]. rewrite El. eexists. split; [reflexivity|].
  pose proof (list_campaigns _ _ _ _ _ El) as Hl. clear El. revert m Hl. induction l as [|c l IH]; intros m Hl.
  { split_and!; try done. by intros c ?%not_elem_of_nil. }
  cbn [foldl]. rewrite fmap_cons in Hnd. apply NoDup_cons in Hnd as [Hc Hnd].
  pose proof (recover_campaign_spec m c (Hl c ltac:(by left))) as Hstep.
  assert (∀ c', c' ∈ l → CampID c' ≠ CampID c) as Hne.
  { intros c' Hc' E. apply Hc. rewrite <- E. by apply list_elem_of_fmap_2. }
  set (m1 := recover_campaign m c) in *.
  assert (v_jobs (view (store m1)) = v_jobs (view (store m)) ∧ v_links (view (store m1)) = v_links (view (store m)) ∧
    clock (ps_of m1) = clock (ps_of m) ∧ (∀ id, id ≠ CampID c → v_campaigns (view (store m1)) !! id = v_campaigns (view (store m)) !! id))
    as (Ej & Elk & Eclk & Ec).
  { destruct (campaign_due _ c); [|by rewrite Hstep]. destruct Hstep as (n & u & -> & ->). split_and!; try done.
    intros id Hid. cbn [v_campaigns]. by rewrite lookup_insert_ne. }
  assert (∀ c', campaign_due (view (store m1)) c' = campaign_due (view (store m)) c') as Edue.
  { intros c'. unfold campaign_due, linked_jobs. by rewrite Ej, Elk. }
  destruct (IH Hnd m1) as (I1 & I2 & I3 & I4).
  { intros c' Hc'. rewrite Ec by by apply Hne. apply Hl. by right. }
  split_and!; [congruence|congruence| |].
  - intros c' [->|Hc']%elem_of_cons.
    + rewrite I4 by done. destruct (campaign_due (view (store m)) c).
      * destruct Hstep as (n & u & -> & _). cbn [v_campaigns]. rewrite lookup_insert_eq. eauto.
      * rewrite Hstep. apply Hl. by left.
    + specialize (I3 c' Hc'). rewrite Edue, Eclk in I3. done.
  - intros id [Hid Hidl]%not_elem_of_cons. rewrite I4 by done. by apply Ec.
Qed.

End campaigns.

(** ** Instances *)

Definition lost_job : MJob := assign_job "gone" 50 (demo_mjob "j1").
Definition demo_rm (ps : PersistentState) : RecoveryManager StoreView :=
  NewRecoveryManager (demo_tm ps) (mkView ∅ ∅ []) Hour.

Lemma demo_rm_healthy ps : faults ps = [] → retryPolicy ps = DatabasePolicy → rm_healthy (demo_rm ps).
Proof. intros Hf Hp. split; [split; [exact Hf|]|by vm_compute]. change (ps_of (demo_rm ps)) with ps. rewrite Hp. by vm_compute. Qed.

Lemma one_keyed k j : JobID j = k → jobs_keyed {[ k := j ]}.
Proof. by intros <- i x [<- <-]%lookup_singleton_Some. Qed.

Lemma one_bot_keyed k b : BotID b = k → bots_keyed {[ k := b ]}.
Proof. by intros <- i x [<- <-]%lookup_singleton_Some. Qed.

Lemma orphans_recovered_witness :
  let m := demo_rm (demo_state {[ "j1" := lost_job ]}) in
  jobs (ps_of (recoverOrphanedJobs no_jitter in_order m)) !! "j1" = Some (reset_job lost_job).
Proof.
  cbv zeta. set (m := demo_rm _).
  destruct (orphans_recovered no_jitter in_order (λ _ _, reflexivity _) m) as (Hj & _);
    [by apply demo_rm_healthy|by apply one_keyed|].
  specialize (Hj "j1" lost_job eq_refl). exact (proj1 Hj).
Defined.

Definition late_job : MJob := assign_job "b1" 50 (demo_mjob "j1").
Definition late_bot : Bot := (assign_bot "j1" 50 demo_bot) <| BotTimeoutAt := 60 |>.
Definition late_state : PersistentState :=
  (demo_state {[ "j1" := late_job ]}) <| bots := {[ "b1" := late_bot ]} |> <| data := {[ "job:j1" := EJob late_job ]} |>.

Lemma maintenance_strands_jobs_witness :
  let m' := PerformMaintenanceRecovery no_jitter in_order in_order None (demo_rm late_state) in
  jobs (ps_of m') !! "j1" = Some late_job ∧ bots (ps_of m') !! "b1" = Some (timed_out_bot late_bot).
Proof.
  cbv zeta. destruct (maintenance_strands_jobs no_jitter in_order in_order None (λ _ _, reflexivity _) (λ _ _, reflexivity _)
    ltac:(done) (demo_rm late_state) "j1" late_job "b1" late_bot) as (H1 & H2 & _).
  - by apply demo_rm_healthy.
  - by apply one_keyed.
  - by apply one_bot_keyed.
  - by split_and!.
  - by left.
  - done.
  - done.
  - intros n. by vm_compute.
  - intros n. by vm_compute.
  - done.
  - split; [exact H1|exact H2].
Defined.

Lemma stale_cleanup_exact_witness :
  let ps := (demo_state {[ "j1" := demo_mjob "j1" ]}) <| data := {[ "job:j1" := EJob (demo_mjob "j1") ]} |>
              <| clock := λ _, 25 * Hour |> in
  job_entry "j1" (cleanupStaleData no_jitter in_order None (demo_rm ps)) = (None, None, None).
Proof.
  cbv zeta. set (ps := set_field clock _ _).
  apply (stale_cleanup_exact no_jitter in_order None (λ _ _, reflexivity _) ltac:(done) (demo_rm ps) (25 * Hour) (25 * Hour) "j1" (demo_mjob "j1")).
  - by apply demo_rm_healthy.
  - by apply one_keyed.
  - by split_and!.
  - intros n. split; by vm_compute.
  - by vm_compute.
Defined.

Lemma bot_failure_handled_witness :
  ∃ m', HandleBotFailureWithRetry no_jitter in_order in_order None "b1" (demo_rm late_state) = (None, m') ∧
    jobs (ps_of m') !! "j1" = Some (reset_job late_job).
Proof.
  destruct (bot_failure_handled no_jitter in_order in_order None (demo_rm late_state) "b1" late_bot) as (m' & E & _ & _ & _ & H).
  - by apply demo_rm_healthy.
  - by apply one_bot_keyed.
  - by apply one_keyed.
  - done.
  - intros k [= <-]. by eexists.
  - exists m'. split; [exact E|]. destruct H as (j & n & Hj & -> & _). injection Hj as <-. by vm_compute.
Defined.

Definition over_campaign : Campaign :=
  mkCampaign "c1" "fuzz" "" CampaignStatusRunning "bin" "" 0 0 None true 0 1 (mkJobConfig Hour 0 0 "" [] "") false [].

Lemma campaigns_recovered_witness :
  let m := (demo_rm (demo_state ∅)) <| store := mkView {[ "c1" := over_campaign ]} ∅ [] |> in
  ∃ m', recoverCampaigns true m = (None, m') ∧ CampStatus <$> v_campaigns (store m') !! "c1" = Some CampaignStatusCompleted.
Proof.
  cbv zeta. set (m := set_field store _ _).
  destruct (campaigns_recovered true m [over_campaign]) as (m' & E & _ & _ & Hc & _);
    [done|by vm_compute|apply NoDup_singleton|].
  exists m'. split; [exact E|]. specialize (Hc over_campaign ltac:(by left)). destruct Hc as (n & u & Hc).
  change (view (store m')) with (store m') in Hc. change (CampID over_campaign) with "c1" in Hc. rewrite Hc. reflexivity.
Defined.
