(* ===== verification/BotService.v ===== *)
(** * Bot service (pkg/service/bot_service.go), with the optimised bot
    operations of the state adapter (pkg/master/state_adapter.go)

    The service works on the persistent state and the time-out manager.  An
    SQLite database can update rows of the bot table directly; heartbeats and
    the heartbeat monitor use that when it is there.  A context is what its
    [Err] gives when an operation looks at it. *)

From Stdlib Require Import Strings.Ascii.
From S2P Require Import Prelude Retry MasterTypes MasterState MasterJobs TimeoutManager Healthy AppErrors.

(** The other fields of [BotMetrics] stay zero. *)
Record BotMetrics := mkBotMetrics {
  MetricsBotID : string; TotalJobsRun : Z; SuccessfulJobs : Z; FailedJobs : Z; BotCrashesFound : Z;
  BotUniqueCrashes : Z; CorpusItemsAdded : Z; CPUTime : float64; LastActive : Time }.

(** What running [UPDATE bots SET ... WHERE ...] does: the number of rows
    affected and the new database.  [set] is the effect of the SET clause on a
    row, [where] the condition on its ID. *)
Definition UpdateBots := (Bot → Bot) → (string → bool) → gmap string entity → Z * gmap string entity.

Section bot_service.
Variable random : Z → float64.
Variable job_order : nat → list (string * MJob) → list (string * MJob).
Variable bot_order : nat → list (string * Bot) → list (string * Bot).
Variable sqlite_GetJob : option (gmap string entity → string → MJob + goerror).
(** [db.Execute] on the bot table, when the database has it; [uuid.New]. *)
Variable execute : option UpdateBots.
Variable newID : string.
Implicit Types (m : TimeoutManager) (ctx : option goerror).

(** ** The state adapter *)

Definition run_update (update : UpdateBots) (set : Bot → Bot) (whr : string → bool) (ps : PersistentState)
    : (Z + goerror) * PersistentState :=
  match db_call ps with
  | (Some e, ps) => (inr e, ps)
  | (None, ps) => let '(n, d) := update set whr (data ps) in (inl n, ps <| data := d |>)
  end.

(** [SET last_seen = ?, status = ?, current_job = ?, is_online = ?, timeout_at = ?] *)
Definition heartbeat_row (now timeout : Time) (status : BotStatus) (currentJob : option string) (bot : Bot) : Bot :=
  bot <| LastSeen := now |> <| BotState := status |> <| CurrentJob := currentJob |> <| IsOnline := true |>
      <| BotTimeoutAt := timeout |>.

(** [heartbeat] is [config.Timeouts.BotHeartbeat]. *)
Definition StateUpdateBotHeartbeat ctx (heartbeat : Duration) (botID : string) (status : BotStatus)
    (currentJob : option string) (ps : PersistentState) : option goerror * PersistentState :=
  match ctx with
  | Some e => (Some (ErrWrap "context cancelled" e), ps)
  | None =>
      if String.eqb botID "" then (Some (NewValidationError "update_bot_heartbeat" (ErrNew "bot ID is required")), ps)
      else
        match execute with
        | Some update =>
            let '(now, ps) := time_now ps in
            let timeout := time_add now (if 0 <? heartbeat then heartbeat else 30 * Second) in
            match run_update update (heartbeat_row now timeout status currentJob) (String.eqb botID) ps with
            | (inr err, ps) => (Some (ErrPanda "storage" "update_bot_heartbeat" err), ps)
            | (inl rows, ps) =>
                if rows =? 0 then (Some (errors.NewNotFoundError "update_bot_heartbeat" "bot"), ps)
                else (None, UpdateBotInCache botID status currentJob now timeout ps)
            end
        | None => (Some (errors.New errors.ErrorTypeMethodNotFound "update_bot_heartbeat" "Method not implemented"), ps)
        end
  end.

Definition GetAvailableBotWithCapabilities (requiredCapabilities : list string) : Bot + goerror :=
  inr (errors.New errors.ErrorTypeMethodNotFound "get_available_bot_with_capabilities" "Method not implemented").

(** [SET status = ?, is_online = ? WHERE id IN (...)] *)
Definition status_row (status : BotStatus) (bot : Bot) : Bot := bot <| BotState := status |> <| IsOnline := false |>.
Definition BatchUpdateBotStatus (botIDs : list string) (status : BotStatus) (ps : PersistentState)
    : option goerror * PersistentState :=
  match execute with
  | Some update =>
      match run_update update (status_row status) (λ id, slice_has id botIDs) ps with
      | (inr e, ps) => (Some e, ps)
      | (inl _, ps) => (None, ps)
      end
  | None => (Some (errors.New errors.ErrorTypeMethodNotFound "batch_update_bot_status" "Method not implemented"), ps)
  end.

(** ** The service *)

Definition new_bot (now : Time) (hostname name : string) (capabilities : list string) (apiEndpoint : string)
    (heartbeat : Duration) : Bot :=
  mkBot newID (if String.eqb name "" then hostname else name) hostname BotStatusIdle now now None capabilities
    (time_add now heartbeat) true 0 apiEndpoint.

Definition RegisterBot (hostname name : string) (capabilities : list string) (apiEndpoint : string) m
    : (Bot + goerror) * TimeoutManager :=
  if String.eqb hostname "" then (inr (errors.NewValidationError "register_bot" "Hostname is required"), m)
  else if (length capabilities =? 0)%nat then (inr (errors.NewValidationError "register_bot" "Capabilities are required"), m)
  else if String.eqb apiEndpoint "" then (inr (errors.NewValidationError "register_bot" "API endpoint is required"), m)
  else
    let '(now, m) := tm_now m in
    let bot := new_bot now hostname name capabilities apiEndpoint (BotHeartbeat m) in
    let '(r, m) := on_state (SaveBotWithRetry random bot) m in
    match res_error r with
    | Some err => (inr (errors.Wrap errors.ErrorTypeDatabase "register_bot" "Failed to save bot" err), m)
    | None => (inl bot, SetBotTimeout newID (BotHeartbeat m) m)
    end.

Definition GetBot (botID : string) m : (Bot + goerror) * TimeoutManager :=
  if String.eqb botID "" then (inr (errors.NewValidationError "get_bot" "Bot ID is required"), m)
  else
    match on_state (MasterState.GetBot random bot_order botID) m with
    | (inr err, m) =>
        (inr (if IsNotFoundError err then errors.NewNotFoundError "get_bot" "bot"
              else errors.Wrap errors.ErrorTypeDatabase "get_bot" "Failed to get bot" err), m)
    | (inl bot, m) => (inl bot, m)
    end.

Definition DeleteBot (botID : string) m : option goerror * TimeoutManager :=
  if String.eqb botID "" then (Some (errors.NewValidationError "delete_bot" "Bot ID is required"), m)
  else
    let m := RemoveBotTimeout botID m in
    let '(r, m) := on_state (MasterState.DeleteBot random botID) m in
    (match res_error r with
     | Some err => Some (errors.Wrap errors.ErrorTypeDatabase "delete_bot" "Failed to delete bot" err)
     | None => None
     end, m).
Definition DeregisterBot (botID : string) : TimeoutManager → option goerror * TimeoutManager := DeleteBot botID.

(** The bot that [GetBot] returns is the cached one, so the fields are written
    in the cache before the save. *)
Definition updateHeartbeatFallback (botID : string) (status : BotStatus) (currentJob : option string) m
    : option goerror * TimeoutManager :=
  match on_state (MasterState.GetBot random bot_order botID) m with
  | (inr err, m) => (Some (errors.Wrap errors.ErrorTypeDatabase "update_heartbeat" "Failed to get bot" err), m)
  | (inl bot, m) =>
      let '(now, m) := tm_now m in
      let bot := heartbeat_row now (time_add now (BotHeartbeat m)) status currentJob bot in
      let m := m <| state := (state m) <| bots := <[botID := bot]> (bots (state m)) |> |> in
      let '(r, m) := on_state (SaveBotWithRetry random bot) m in
      (match res_error r with
       | Some err => Some (errors.Wrap errors.ErrorTypeDatabase "update_heartbeat" "Failed to update bot" err)
       | None => None
       end, m)
  end.

Definition UpdateHeartbeat ctx (botID : string) (status : BotStatus) (currentJob : option string) m
    : option goerror * TimeoutManager :=
  if String.eqb botID "" then (Some (errors.NewValidationError "update_heartbeat" "Bot ID is required"), m)
  else
    match on_state (StateUpdateBotHeartbeat ctx (BotHeartbeat m) botID status currentJob) m with
    | (Some err, m) =>
        if errors.IsMethodNotFound err then updateHeartbeatFallback botID status currentJob m
        else (Some (errors.Wrap errors.ErrorTypeDatabase "update_heartbeat" "Failed to update bot heartbeat" err), m)
    | (None, m) => (None, UpdateBotHeartbeat botID m)
    end.

Definition ListBots (statusFilter : option BotStatus) m : list Bot :=
  let bots := MasterState.ListBots bot_order (state m) in
  match statusFilter with
  | Some s => List.filter (λ b, String.eqb (BotState b) s) bots
  | None => bots
  end.

Definition hasRequiredCapabilities (botCapabilities requiredCapabilities : list string) : bool :=
  forallb (λ required, slice_has required botCapabilities) requiredCapabilities.

Definition GetAvailableBot (requiredCapabilities : list string) m : Bot + goerror :=
  match GetAvailableBotWithCapabilities requiredCapabilities with
  | inl bot => inl bot
  | inr err =>
      if negb (errors.IsMethodNotFound err)
      then inr (errors.Wrap errors.ErrorTypeDatabase "get_available_bot" "Failed to get available bot" err)
      else
        match find (λ b, String.eqb (BotState b) BotStatusIdle && IsOnline b
                         && hasRequiredCapabilities (Capabilities b) requiredCapabilities)
                   (MasterState.ListBots bot_order (state m)) with
        | Some bot => inl bot
        | None => inr (errors.New errors.ErrorTypeCapability "get_available_bot"
                    ("No available bot with required capabilities: [" +:+ String.concat " " requiredCapabilities +:+ "]"))
        end
  end.

Definition Heartbeat ctx (botID : string) m : option goerror * TimeoutManager :=
  match GetBot botID m with
  | (inr err, m) => (Some err, m)
  | (inl bot, m) => UpdateHeartbeat ctx botID (BotState bot) (CurrentJob bot) m
  end.

(** The state adapter has a [GetJob]; a bot without a job gives none. *)
Definition GetCurrentJob (botID : string) m : (option MJob + goerror) * TimeoutManager :=
  if String.eqb botID "" then (inr (errors.NewValidationError "get_current_job" "Bot ID is required"), m)
  else
    match GetBot botID m with
    | (inr err, m) => (inr err, m)
    | (inl bot, m) =>
        match CurrentJob bot with
        | None | Some "" => (inl None, m)
        | Some jobID =>
            match on_state (MasterState.GetJob random job_order sqlite_GetJob jobID) m with
            | (inl job, m) => (inl (Some job), m)
            | (inr err, m) => (inr err, m)
            end
        end
    end.

Definition GetMetrics (botID : string) m : (BotMetrics + goerror) * TimeoutManager :=
  if String.eqb botID "" then (inr (errors.NewValidationError "get_metrics" "Bot ID is required"), m)
  else
    match GetBot botID m with
    | (inr err, m) => (inr err, m)
    | (inl bot, m) => (inl (mkBotMetrics botID 0 0 0 0 0 0 f64_zero (LastSeen bot)), m)
    end.

(** One tick of [monitorBotHeartbeats]; errors are logged. *)
Definition missed_heartbeat (now : Time) (bot : Bot) : bool := IsOnline bot && time_after now (BotTimeoutAt bot).
Definition monitor_tick m : list string * TimeoutManager :=
  let bots := MasterState.ListBots bot_order (state m) in
  let '(now, m) := tm_now m in
  let timedOutBots := BotID <$> List.filter (missed_heartbeat now) bots in
  match timedOutBots with
  | [] => ([], m)
  | _ => (timedOutBots, (on_state (BatchUpdateBotStatus timedOutBots BotStatusTimedOut) m).2)
  end.

End bot_service.

(** ** What the update of rows must satisfy, and an implementation *)

Record update_law (update : UpdateBots) : Prop := {
  updated_row set whr d id b : d !! ("bot:" +:+ id) = Some (EBot b) →
    (update set whr d).2 !! ("bot:" +:+ id) = Some (EBot (if whr id then set b else b));
  other_entry set whr d k : (∀ id b, k = "bot:" +:+ id → d !! k ≠ Some (EBot b)) → (update set whr d).2 !! k = d !! k;
  affected set whr d : (update set whr d).1 = 0 ↔ ∀ id b, d !! ("bot:" +:+ id) = Some (EBot b) → whr id = false }.

Definition bot_id_of (key : string) : option string :=
  match key with
  | String "b"%char (String "o"%char (String "t"%char (String ":"%char id))) => Some id
  | _ => None
  end.
(** The row is one of the bot table that the condition selects. *)
Definition selected (whr : string → bool) (key : string) (v : entity) : bool :=
  match v, bot_id_of key with EBot _, Some id => whr id | _, _ => false end.
Definition update_entry (set : Bot → Bot) (whr : string → bool) (key : string) (v : entity) : option entity :=
  match v with
  | EBot b => Some (EBot (if selected whr key v then set b else b))
  | _ => Some v
  end.
Definition update_in_memory : UpdateBots := λ set whr d,
  (Z.of_nat (length (List.filter (λ kv, selected whr kv.1 kv.2) (map_to_list d))), map_imap (update_entry set whr) d).

Lemma bot_id_of_spec key id : bot_id_of key = Some id ↔ key = "bot:" +:+ id.
Proof.
  split; [|by intros ->]. unfold bot_id_of.
  repeat (match goal with |- context [match ?x with _ => _ end] => is_var x; destruct x; try done end).
  by intros [= ->].
Qed.

Lemma update_in_memory_law : update_law update_in_memory.
Proof.
  split; simpl.
  - intros set whr d id b H. rewrite map_lookup_imap, H. reflexivity.
  - intros set whr d k H. rewrite map_lookup_imap. destruct (d !! k) as [v|] eqn:E; [|done]. simpl.
    destruct v as [b| | | | | | |]; try done. cbn [update_entry mbind option_bind]. unfold selected. destruct (bot_id_of k) as [id|] eqn:Ek; [|done].
    apply bot_id_of_spec in Ek. by destruct (H id b Ek).
  - intros set whr d. rewrite (Nat2Z.inj_iff _ 0), length_zero_iff_nil. split.
    + intros Hn id b Hd. destruct (whr id) eqn:Ew; [|done]. exfalso.
      assert (In ("bot:" +:+ id, EBot b) (List.filter (λ kv, selected whr kv.1 kv.2) (map_to_list d))) as Hin.
      { apply filter_In. split; [by apply list_elem_of_In, elem_of_map_to_list|].
        exact Ew. }
      by rewrite Hn in Hin.
    + intros Hn. destruct (List.filter _ _) as [|[k v] l] eqn:E; [done|]. exfalso.
      assert (In (k, v) (List.filter (λ kv, selected whr kv.1 kv.2) (map_to_list d))) as [Hin Hs]%filter_In by (rewrite E; by left).
      unfold selected in Hs. cbn [fst snd] in Hs. destruct v as [b| | | | | | |]; try done.
      destruct (bot_id_of k) as [id|] eqn:Ek; [|done]. apply bot_id_of_spec in Ek as ->.
      apply list_elem_of_In, elem_of_map_to_list in Hin. by rewrite (Hn id b Hin) in Hs.
Qed.

(** ** Properties *)

Section properties.
Variable random : Z → float64.
Variable job_order : nat → list (string * MJob) → list (string * MJob).
Variable bot_order : nat → list (string * Bot) → list (string * Bot).
Variable sqlite_GetJob : option (gmap string entity → string → MJob + goerror).
Hypothesis bot_order_perm : ∀ k l, bot_order k l ≡ₚ l.
Implicit Types (m : TimeoutManager) (required : list string).

Definition can_serve required (bot : Bot) : Prop :=
  BotState bot = BotStatusIdle ∧ IsOnline bot = true ∧ ∀ c, c ∈ required → c ∈ Capabilities bot.

Lemma can_serve_spec required bot :
  String.eqb (BotState bot) BotStatusIdle && IsOnline bot && hasRequiredCapabilities (Capabilities bot) required = true ↔
  can_serve required bot.
Proof.
  unfold can_serve, hasRequiredCapabilities. rewrite !andb_true_iff, String.eqb_eq, forallb_forall.
  setoid_rewrite <- list_elem_of_In. setoid_rewrite slice_has_true. tauto.
Qed.

(** Choosing a bot: the answer is a cached bot that is idle, online and has
    every required capability, and an error comes exactly when there is none. *)
Lemma available_bot required m :
  match GetAvailableBot bot_order required m with
  | inl bot => can_serve required bot ∧ ∃ k, bots (state m) !! k = Some bot
  | inr e => errors.GetErrorType e = Some errors.ErrorTypeCapability ∧
             ∀ k bot, bots (state m) !! k = Some bot → ¬ can_serve required bot
  end.
Proof.
  unfold GetAvailableBot, GetAvailableBotWithCapabilities. cbn [errors.New errors.IsMethodNotFound negb].
  change (errors.IsMethodNotFound _) with true. cbn [negb].
  destruct (find _ _) as [bot|] eqn:Ef.
  - apply find_some in Ef as [Hin Hs%can_serve_spec]. split; [done|].
    by apply (bots_listed bot_order bot_order_perm), list_elem_of_In.
  - split; [done|]. intros k bot Hk Hs%can_serve_spec.
    assert (In bot (MasterState.ListBots bot_order (state m))) as Hin
      by (apply list_elem_of_In, (bots_listed bot_order bot_order_perm); eauto).
    apply (find_none _ _ Ef) in Hin. simpl in Hin. congruence.
Qed.

(** Registration on a healthy database, for complete requests: the new bot is
    idle and online under its fresh ID, the same in the cache and the database,
    with a deadline one heartbeat interval after the registration and after it
    the deadline of the time-out manager; nothing else changes; and at once every
    request for some of its capabilities finds a bot.  An incomplete request is
    rejected and changes nothing. *)
Theorem registration newID hostname name capabilities apiEndpoint m :
  db_healthy (state m) →
  let '(r, m') := RegisterBot random newID hostname name capabilities apiEndpoint m in
  (hostname = "" ∨ capabilities = [] ∨ apiEndpoint = "" → m' = m ∧ ∃ e, r = inr e ∧ errors.IsValidationError e = true) ∧
  (hostname ≠ "" → capabilities ≠ [] → apiEndpoint ≠ "" →
   ∃ bot n, r = inl bot ∧ BotID bot = newID ∧ Hostname bot = hostname ∧ BotName bot = (if String.eqb name "" then hostname else name) ∧
     BotState bot = BotStatusIdle ∧ IsOnline bot = true ∧ CurrentJob bot = None ∧ FailureCount bot = 0 ∧
     Capabilities bot = capabilities ∧ APIEndpoint bot = apiEndpoint ∧
     BotTimeoutAt bot = LastSeen bot + BotHeartbeat m ∧
     bots (state m') = <[newID := bot]> (bots (state m)) ∧
     data (state m') = <["bot:" +:+ newID := EBot bot]> (data (state m)) ∧
     botTimeouts m' = <[newID := clock (state m) n + BotHeartbeat m]> (botTimeouts m) ∧
     jobs (state m') = jobs (state m) ∧ jobTimeouts m' = jobTimeouts m ∧
     ∀ required, (∀ c, c ∈ required → c ∈ capabilities) →
       ∃ b, GetAvailableBot bot_order required m' = inl b ∧ can_serve required b).
Proof.
  intros Hm. unfold RegisterBot.
  destruct (String.eqb_spec hostname "") as [->|Hh]; [split; [|done]; intros _; split; [done|by eexists]|].
  destruct (Nat.eqb_spec (length capabilities) 0) as [Hc|Hc].
  { apply length_zero_iff_nil in Hc as ->. split; [|done]. intros _; split; [done|by eexists]. }
  destruct (String.eqb_spec apiEndpoint "") as [->|Ha]; [split; [|done]; intros _; split; [done|by eexists]|].
  unfold tm_now, time_now. cbv zeta. set (m1 := set_field state _ m). set (bot := new_bot _ _ _ _ _ _ _).
  unfold on_state. rewrite SaveBot_healthy by exact Hm. cbn [res_error].
  set (m2 := SetBotTimeout _ _ _).
  split; [intros [?|[->|?]]; [done|by destruct Hc|done]|]. intros _ _ _.
  exists bot, (S (ticks (state m))). split_and!; try done.
  intros required Hr. pose proof (available_bot required m2) as Hav.
  destruct (GetAvailableBot bot_order required m2) as [b|e]; [by exists b; split; [|apply Hav]|].
  destruct Hav as [_ Hno]. destruct (Hno newID bot); [|done].
  change (bots (state m2)) with (<[newID := bot]> (bots (state m))). apply lookup_insert_eq.
Qed.

(** *** Heartbeats *)

(** Without the row update of SQLite, a heartbeat renews the deadline of the
    bot in the cache and in the database, but not the one of the time-out
    manager: a bot whose deadline there has passed is taken as timed out by the
    next check, although its heartbeat was accepted. *)
Theorem heartbeat_fallback botID status currentJob bot t m :
  db_healthy (state m) → botID ≠ "" → bots (state m) !! botID = Some bot → BotID bot = botID →
  botTimeouts m !! botID = Some t →
  let '(r, m') := UpdateHeartbeat random bot_order None None botID status currentJob m in
  r = None ∧
  (∃ n, let beaten := heartbeat_row (clock (state m) n) (clock (state m) n + BotHeartbeat m) status currentJob bot in
     bots (state m') = <[botID := beaten]> (bots (state m)) ∧ data (state m') = <["bot:" +:+ botID := EBot beaten]> (data (state m))) ∧
  botTimeouts m' = botTimeouts m ∧
  ∀ order, (∀ k l, order k l ≡ₚ l) → t < clock (state m) (ticks (state m')) → botID ∈ (checkBotTimeouts order m').1.
Proof.
  intros Hm Hid Hb Hbid Ht. unfold UpdateHeartbeat. destruct (String.eqb_spec botID "") as [|_]; [done|].
  unfold on_state at 1. unfold StateUpdateBotHeartbeat. destruct (String.eqb_spec botID "") as [|_]; [done|].
  cbv beta iota. change (errors.IsMethodNotFound _) with true. cbv iota.
  unfold updateHeartbeatFallback, on_state at 1. set (m0 := set_field state (λ _, state m) m).
  unfold MasterState.GetBot. change (bots (state m0)) with (bots (state m)). rewrite Hb.
  unfold touch, time_now, tm_now. cbv beta iota zeta. unfold time_now. set (bot' := heartbeat_row _ _ _ _ _).
  unfold on_state. rewrite SaveBot_healthy by exact Hm. cbn [res_error].
  split; [done|]. split; [|split; [done|]].
  - eexists. cbv zeta. split.
    + simpl. rewrite Hbid. apply insert_insert_eq.
    + simpl. by rewrite Hbid.
  - intros order Ho Hlt. unfold checkBotTimeouts, expired_ids, tm_now, time_now. cbn [fst].
    apply list_elem_of_fmap. exists (botID, t). split; [done|]. apply list_elem_of_In, filter_In. split.
    + apply list_elem_of_In. rewrite Ho. by apply elem_of_map_to_list.
    + unfold time_after. apply Z.ltb_lt. exact Hlt.
Qed.

Lemma UpdateBotInCache_spec botID now timeout status currentJob ps :
  let ps' := UpdateBotInCache botID status currentJob now timeout ps in
  bots ps' = alter (heartbeat_row now timeout status currentJob) botID (bots ps) ∧ data ps' = data ps ∧ clock ps' = clock ps.
Proof.
  unfold UpdateBotInCache. destruct (bots ps !! botID) as [b|] eqn:Eb; cbv zeta; split_and!; try done.
  - apply map_eq. intros i. change (<[botID := heartbeat_row now timeout status currentJob b]> (bots ps) !! i = alter (heartbeat_row now timeout status currentJob) botID (bots ps) !! i).
    destruct (decide (i = botID)) as [->|]; [by rewrite lookup_insert_eq, lookup_alter_eq, Eb|].
    by rewrite lookup_insert_ne, lookup_alter_ne.
  - apply map_eq. intros i. destruct (decide (i = botID)) as [->|]; [by rewrite lookup_alter_eq, Eb|].
    by rewrite lookup_alter_ne.
Qed.

(** With the row update, a heartbeat of a bot in the database reaches the row,
    the cached bot, if there is one, and the time-out manager; other rows and
    bots stay as they are.  A bot without a row is refused. *)
Theorem heartbeat_updates_all update botID status currentJob m :
  update_law update → faults (state m) = [] → botID ≠ "" → 0 < BotHeartbeat m →
  let '(r, m') := UpdateHeartbeat random bot_order (Some update) None botID status currentJob m in
  let now := clock (state m) (ticks (state m)) in
  let beat := heartbeat_row now (now + BotHeartbeat m) status currentJob in
  ((∀ b, data (state m) !! ("bot:" +:+ botID) ≠ Some (EBot b)) →
     errors.GetErrorType <$> r = Some (Some errors.ErrorTypeDatabase) ∧ bots (state m') = bots (state m) ∧
     botTimeouts m' = botTimeouts m ∧ ∀ k, data (state m') !! k = data (state m) !! k) ∧
  ∀ row, data (state m) !! ("bot:" +:+ botID) = Some (EBot row) →
    r = None ∧ data (state m') !! ("bot:" +:+ botID) = Some (EBot (beat row)) ∧
    (∀ k, k ≠ "bot:" +:+ botID → data (state m') !! k = data (state m) !! k) ∧
    bots (state m') = alter beat botID (bots (state m)) ∧
    ∃ n, botTimeouts m' = <[botID := clock (state m) n + BotHeartbeat m]> (botTimeouts m).
Proof.
  intros Hl Hf Hid Hh. unfold UpdateHeartbeat. destruct (String.eqb_spec botID "") as [|_]; [done|].
  unfold on_state, StateUpdateBotHeartbeat. destruct (String.eqb_spec botID "") as [|_]; [done|].
  unfold time_now. cbv beta iota zeta. rewrite (proj2 (Z.ltb_lt 0 _) Hh). unfold time_add, run_update.
  set (now := clock (state m) _). set (beat := heartbeat_row _ _ _ _). rewrite db_call_healthy by done.
  cbn [data set_field].
  pose proof (updated_row update Hl beat (String.eqb botID) (data (state m))) as Hrow.
  pose proof (other_entry update Hl beat (String.eqb botID) (data (state m))) as Hother.
  pose proof (affected update Hl beat (String.eqb botID) (data (state m))) as Hn.
  change (data (set_field ticks _ (state m))) with (data (state m)).
  destruct (update beat (String.eqb botID) (data (state m))) as [rows d]. simpl in Hrow, Hother, Hn.
  assert (∀ k, k ≠ "bot:" +:+ botID → d !! k = data (state m) !! k) as Hsame.
  { intros k Hk. destruct (data (state m) !! k) as [v|] eqn:Ek; [|rewrite Hother; [done|by intros id b ->; rewrite Ek]].
    destruct v as [b| | | | | | |]; try (rewrite Hother; [done|by intros id b' ->; rewrite Ek]).
    destruct (bot_id_of k) as [id|] eqn:Hi.
    - apply bot_id_of_spec in Hi as ->. rewrite (Hrow _ _ Ek). destruct (String.eqb_spec botID id) as [->|]; done.
    - rewrite Hother; [done|]. intros id b' ->. by rewrite (proj2 (bot_id_of_spec _ id) eq_refl) in Hi. }
  destruct (Z.eqb_spec rows 0) as [H0|H0].
  - cbv iota. change (errors.IsMethodNotFound _) with false. cbv iota. split.
    + intros Hnone. split_and!; try done. intros k. simpl.
      destruct (decide (k = "bot:" +:+ botID)) as [->|Hk]; [|by apply Hsame].
      apply Hother. intros id b [= Hk']%(inj (String.append "bot:")). subst id. apply Hnone.
    + intros row Hr. pose proof (proj1 Hn H0 botID row Hr) as He. by rewrite String.eqb_refl in He.
  - split.
    + intros Hnone. destruct H0. apply Hn. intros id b Hd. destruct (String.eqb_spec botID id) as [->|]; [|done]. by destruct (Hnone b).
    + intros row Hr. split; [done|]. set (ps := (state m) <| ticks := S (ticks (state m)) |> <| data := d |>).
      destruct (UpdateBotInCache_spec botID now (now + BotHeartbeat m) status currentJob ps) as (Eb & Ed & Ec).
      split_and!.
      * change (data (UpdateBotInCache botID status currentJob now (now + BotHeartbeat m) ps) !! ("bot:" +:+ botID) = Some (EBot (beat row))).
        rewrite Ed. change (data ps) with d. by rewrite (Hrow _ _ Hr), String.eqb_refl.
      * intros k Hk. change (data (UpdateBotInCache botID status currentJob now (now + BotHeartbeat m) ps) !! k = data (state m) !! k).
        rewrite Ed. by apply Hsame.
      * exact Eb.
      * set (ps2 := UpdateBotInCache botID status currentJob now (now + BotHeartbeat m) ps) in *. exists (ticks ps2).
        change (<[botID := clock ps2 (ticks ps2) + BotHeartbeat m]> (botTimeouts m) = <[botID := clock (state m) (ticks ps2) + BotHeartbeat m]> (botTimeouts m)).
        by rewrite Ec.
Qed.

(** Whatever the database can do, the heartbeat of a bot in the cache, with a
    row where rows are updated, is accepted and written to the cached bot. *)
Lemma heartbeat_accepted execute botID status currentJob bot m :
  db_healthy (state m) → botID ≠ "" → 0 < BotHeartbeat m → bots (state m) !! botID = Some bot → BotID bot = botID →
  (∀ update, execute = Some update → update_law update ∧ ∃ row, data (state m) !! ("bot:" +:+ botID) = Some (EBot row)) →
  ∃ now timeout m', UpdateHeartbeat random bot_order execute None botID status currentJob m = (None, m') ∧
    bots (state m') = <[botID := heartbeat_row now timeout status currentJob bot]> (bots (state m)) ∧
    jobs (state m') = jobs (state m) ∧ jobTimeouts m' = jobTimeouts m ∧ db_healthy (state m').
Proof.
  intros Hm Hid Hh Hb Hbid Hex. set (now := clock (state m) (ticks (state m))). unfold UpdateHeartbeat.
  destruct (String.eqb_spec botID "") as [|_]; [done|].
  unfold on_state at 1. unfold StateUpdateBotHeartbeat. destruct (String.eqb_spec botID "") as [|_]; [done|].
  destruct execute as [update|].
  - destruct (Hex update eq_refl) as [Hl [row Hr]]. unfold time_now. cbv beta iota zeta. rewrite (proj2 (Z.ltb_lt 0 _) Hh).
    unfold time_add, run_update. fold now. rewrite db_call_healthy by apply Hm.
    pose proof (affected update Hl (heartbeat_row now (now + BotHeartbeat m) status currentJob) (String.eqb botID) (data (state m))) as Hn.
    change (data (set_field ticks _ (state m))) with (data (state m)).
    destruct (update _ _ _) as [rows d]. simpl in Hn. destruct (Z.eqb_spec rows 0) as [H0|_].
    { pose proof (proj1 Hn H0 botID row Hr) as He. by rewrite String.eqb_refl in He. }
    eexists now, (now + BotHeartbeat m), _. split; [reflexivity|]. unfold UpdateBotInCache.
    change (bots (set_field data _ _)) with (bots (state m)). rewrite Hb. cbv zeta. by split_and!.
  - cbv beta iota. change (errors.IsMethodNotFound _) with true. cbv iota.
    unfold updateHeartbeatFallback, on_state at 1. set (m0 := set_field state (λ _, state m) m).
    unfold MasterState.GetBot. change (bots (state m0)) with (bots (state m)). rewrite Hb.
    unfold touch, time_now, tm_now. cbv beta iota zeta. unfold time_now. set (bot' := heartbeat_row _ _ _ _ _).
    unfold on_state. rewrite SaveBot_healthy by exact Hm. cbn [res_error].
    eexists _, _, _. split; [reflexivity|]. split_and!; [|done..].
    simpl. rewrite Hbid. apply insert_insert_eq.
Qed.

(** *** The heartbeat monitor *)

Abbreviation tick execute := (monitor_tick bot_order execute).

(** A tick leaves the cache alone, whatever the database can do. *)
Lemma tick_frame execute m :
  bots (state (tick execute m).2) = bots (state m) ∧ clock (state (tick execute m).2) = clock (state m) ∧
  (tick execute m).1 = BotID <$> List.filter (missed_heartbeat (clock (state m) (ticks (state m)))) (MasterState.ListBots bot_order (state m)).
Proof.
  unfold monitor_tick, tm_now, time_now. cbv zeta. destruct (BotID <$> _) as [|x l]; [done|].
  unfold on_state, BatchUpdateBotStatus, run_update. cbv beta. destruct execute as [update|]; [|done].
  cbn [set_field]. match goal with |- context [db_call ?p] => destruct (db_call p) as [[e|] p'] eqn:Ed end;
    apply db_call_frame in Ed as [Hf _]; apply db_only_caches in Hf as (Hb & _ & _ & _ & _ & _ & _ & Hc & _).
  - simpl. by rewrite Hb, Hc.
  - destruct (update _ _ _) as [n d]. simpl. by rewrite Hb, Hc.
Qed.

(** The monitor writes the time-out of a bot to the database only: in the cache
    the bot stays online with its old deadline, so every later tick reports it
    again, for ever, and whoever asks the cache is told that it is online. *)
Theorem missed_heartbeats_repeat execute m id bot :
  bots (state m) !! id = Some bot → IsOnline bot = true → (∀ n, BotTimeoutAt bot < clock (state m) n) →
  ∀ k, let m' := Nat.iter k (λ m, (tick execute m).2) m in
    BotID bot ∈ (tick execute m').1 ∧ bots (state m') !! id = Some bot.
Proof.
  intros Hb Ho Ht k. cbv zeta. set (m' := Nat.iter k _ m).
  assert (bots (state m') = bots (state m) ∧ clock (state m') = clock (state m)) as [Hb' Hc'].
  { subst m'. clear Hb Ht. induction k as [|k IH]; [done|]. simpl. destruct IH as [<- <-].
    destruct (tick_frame execute (Nat.iter k (λ m, (tick execute m).2) m)) as (-> & -> & _). done. }
  destruct (tick_frame execute m') as (_ & _ & ->). split; [|by rewrite Hb'].
  apply list_elem_of_fmap. exists bot. split; [done|]. apply list_elem_of_In, filter_In. split.
  - apply list_elem_of_In, (bots_listed bot_order bot_order_perm). exists id. by rewrite Hb'.
  - unfold missed_heartbeat, time_after. rewrite Ho. apply Z.ltb_lt. rewrite Hc'. apply Ht.
Qed.

End properties.

(** ** Concrete services *)

Definition demo_service : TimeoutManager := SetBotTimeout "b1" Minute (demo_tm (demo_state ∅)).

Lemma registration_witness :
  let '(r, m') := RegisterBot no_jitter "b2" "host2" "" ["afl++"; "libfuzzer"] "http://host2" demo_service in
  ∃ bot, r = inl bot ∧ BotName bot = "host2" ∧ GetAvailableBot in_order ["libfuzzer"] m' = inl bot.
Proof.
  pose proof (registration no_jitter in_order (λ _ _, reflexivity _) "b2" "host2" "" ["afl++"; "libfuzzer"] "http://host2" demo_service
    ltac:(split; [reflexivity|vm_compute; discriminate])) as H.
  destruct (RegisterBot no_jitter "b2" "host2" "" ["afl++"; "libfuzzer"] "http://host2" demo_service) as [r m'] eqn:E.
  destruct H as [_ H]. destruct (H ltac:(done) ltac:(done) ltac:(done)) as (bot & n & -> & _ & _ & Hname & _).
  exists bot. split; [reflexivity|]. split; [exact Hname|]. injection E as <- <-. vm_compute. reflexivity.
Defined.

Lemma heartbeat_fallback_witness :
  let '(r, m') := UpdateHeartbeat no_jitter in_order None None "b1" BotStatusBusy (Some "j1") demo_service in
  r = None ∧ botTimeouts m' = botTimeouts demo_service.
Proof.
  pose proof (heartbeat_fallback no_jitter in_order "b1" BotStatusBusy (Some "j1") demo_bot (100 + Minute) demo_service
    ltac:(split; [reflexivity|vm_compute; discriminate]) ltac:(done) eq_refl eq_refl eq_refl) as H.
  destruct (UpdateHeartbeat _ _ _ _ _ _ _ _) as [r m']. destruct H as (Hr & _ & Ht & _). split; [exact Hr|exact Ht].
Defined.

Definition demo_rows : TimeoutManager :=
  demo_service <| state := (state demo_service) <| data := {[ "bot:b1" := EBot demo_bot ]} |> |>.
Lemma heartbeat_updates_all_witness :
  let '(r, m') := UpdateHeartbeat no_jitter in_order (Some update_in_memory) None "b1" BotStatusBusy (Some "j1") demo_rows in
  r = None ∧ bots (state m') = alter (heartbeat_row 100 (100 + Minute) BotStatusBusy (Some "j1")) "b1" (bots (state demo_rows)).
Proof.
  pose proof (heartbeat_updates_all no_jitter in_order update_in_memory "b1" BotStatusBusy (Some "j1") demo_rows
    update_in_memory_law eq_refl ltac:(done) ltac:(vm_compute; reflexivity)) as H.
  destruct (UpdateHeartbeat _ _ _ _ _ _ _ _) as [r m']. destruct H as [_ H].
  destruct (H demo_bot eq_refl) as (Hr & _ & _ & Hb & _). split; [exact Hr|].
  rewrite Hb. reflexivity.
Defined.

Lemma missed_heartbeats_repeat_witness :
  let m := demo_tm ((demo_state ∅) <| bots := {[ "b1" := demo_bot <| BotTimeoutAt := 50 |> ]} |>) in
  "b1" ∈ (monitor_tick in_order (Some update_in_memory) (Nat.iter 3 (λ m, (monitor_tick in_order (Some update_in_memory) m).2) m)).1.
Proof.
  intros m. refine (proj1 (missed_heartbeats_repeat in_order (λ _ _, reflexivity _) (Some update_in_memory) m "b1"
    (demo_bot <| BotTimeoutAt := 50 |>) _ _ _ 3)); [reflexivity|reflexivity|]. intros n. vm_compute. reflexivity.
Defined.
