(* ===== verification/JobService.v ===== *)
(** * Job service (pkg/service/job_service.go), with the optimised job
    operations of the state adapter (pkg/master/state_adapter.go)

    The service works on the persistent state and the time-out manager.  A job
    that is created is also handed to the work queue and to the corpus service;
    those calls are returned as a list of what was asked of them, since their
    errors are only logged.  Log files are not modelled. *)

From S2P Require Import Prelude JobStatus Job Retry MasterTypes CrashTypes MasterState MasterJobs TimeoutManager Healthy AppErrors BotService CampaignStore MasterRecovery.

Record CreateJobRequest := mkCreateJobRequest {
  ReqName : string; ReqTarget : string; ReqFuzzer : string; ReqDuration : Duration; ReqConfig : JobConfig;
  ReqCampaignID : string; ReqCorpusID : string; ReqCollectionID : string; ReqUseCampaignCorpus : bool;
  ReqPriority : Z; ReqEnableCoverage : bool; ReqCoverageFormat : string }.

Record JobFilter := mkJobFilter { FStatus : option string; FFuzzer : option string; Page : Z; Limit : Z }.

(** What is asked of the other components. *)
Inductive Call := Enqueue (job : Job) | LinkJobCorpus (jobID linkID : string).

Definition convertPriorityToDomain (priority : Z) : Z :=
  if 90 <=? priority then PriorityCritical
  else if 50 <=? priority then PriorityHigh
  else if 20 <=? priority then PriorityNormal
  else if 10 <=? priority then PriorityLow
  else PriorityLow.

Definition validFuzzers : list string := ["aflplusplus"; "afl++"; "libfuzzer"; "honggfuzz"].

Section job_service.
Variable random : Z → float64.
Variable job_order : nat → list (string * MJob) → list (string * MJob).
Variable bot_order : nat → list (string * Bot) → list (string * Bot).
Variable sqlite_GetJob : option (gmap string entity → string → MJob + goerror).
Variable sqlite_ListJobs : option (gmap string entity → list MJob + goerror).
(** [uuid.New]; the database has [Execute] and [SelectOne]; [config.Queue.Backend]
    is asynq, and a queue is set; there is a corpus service. *)
Variable newID : string.
Variable database_sql useAsynq has_queue has_corpus : bool.
Implicit Types (m : TimeoutManager).

(** ** The state adapter *)

Definition method_not_found (operation message : string) : goerror :=
  errors.New errors.ErrorTypeMethodNotFound operation message.

Definition ListJobsFiltered (status fuzzer : option string) (limit page : Z) : list MJob + goerror :=
  inr (method_not_found "list_jobs_filtered" "Method not implemented").

(** The transactions of the repository's databases have no [SelectOne] and no
    [Execute], so the closures end before they touch a row. *)
Definition AtomicJobAssignmentOptimized (botID : string) (ps : PersistentState) : (MJob + goerror) * PersistentState :=
  if database_sql then
    match transaction (λ ps, (Some (method_not_found "job_assignment" "Transaction methods not available"), ps)) ps with
    | (Some err, ps) => (inr err, ps)
    | (None, ps) => (inr (ErrNew "nil job"), ps)        (* not reached: the closure fails *)
    end
  else (inr (method_not_found "atomic_job_assignment_optimized" "Method not implemented"), ps).
Definition CompleteJobOptimized (jobID botID : string) (success : bool) (ps : PersistentState)
    : option goerror * PersistentState :=
  if database_sql then transaction (λ ps, (Some (method_not_found "complete_job" "Transaction methods not available"), ps)) ps
  else (Some (method_not_found "complete_job_optimized" "Method not implemented"), ps).

(** ** Creation *)

(** The campaign, the collection and whether the corpus of the campaign is used. *)
Definition corpus_source (req : CreateJobRequest) : option string * option string * bool :=
  if negb (String.eqb (ReqCollectionID req) "") then (None, Some (ReqCollectionID req), ReqUseCampaignCorpus req)
  else if negb (String.eqb (ReqCorpusID req) "") then (Some (ReqCorpusID req), None, true)
  else if negb (String.eqb (ReqCampaignID req) "")
  then (Some (ReqCampaignID req), None, if negb (ReqUseCampaignCorpus req) then true else ReqUseCampaignCorpus req)
  else (None, None, ReqUseCampaignCorpus req).

Definition job_config (duration : Duration) (cfg : JobConfig) : JobConfig :=
  if 0 <? duration
  then mkJobConfig duration (MemoryLimit cfg) (CfgTimeout cfg) (Dictionary cfg) (SeedCorpus cfg) (OutputDir cfg)
  else cfg.

Definition created_job (now : Time) (duration : Duration) (req : CreateJobRequest) : MJob :=
  let '(campaignID, collectionID, useCampaignCorpus) := corpus_source req in
  mkMJob newID (ReqName req) (ReqTarget req) (ReqFuzzer req) "" JobStatusPending None now None None
    (time_add now duration) ("job_" +:+ newID) (job_config duration (ReqConfig req)) 0 campaignID collectionID
    useCampaignCorpus None (ReqPriority req) (ReqEnableCoverage req) (ReqCoverageFormat req) None None None None.

(** The job of the work queue. *)
Definition queue_metadata (job : MJob) : gmap string string :=
  let md := list_to_map [("fuzzer", Fuzzer job); ("target", Target job); ("work_dir", WorkDir job)] in
  let md := match CampaignID job with Some c => <["campaign_id" := c]> md | None => md end in
  let md := match CollectionID job with Some c => <["collection_id" := c]> md | None => md end in
  <["use_campaign_corpus" := if UseCampaignCorpus job then "true" else "false"]> md.
Definition domain_job (now : Time) (duration : Duration) (job : MJob) : Job :=
  zero_job <| Job.ID := JobID job |> <| Job.Name := JobName job |> <| Job.FuzzerType := Fuzzer job |>
    <| Job.TargetBinary := Target job |> <| Job.TargetArgs := [] |>
    <| Job.CorpusPath := WorkDir job +:+ "/corpus" |> <| Job.OutputPath := WorkDir job +:+ "/outputs" |>
    <| Job.FuzzerConfig := Some ∅ |> <| Job.Priority := convertPriorityToDomain (JobPriority job) |>
    <| Job.Status := StatusQueued |> <| Job.MaxRetries := 3 |> <| Job.RetryDelay := 30 * Second |>
    <| Job.MaxDuration := duration |> <| Job.QueuedAt := Some now |> <| Job.CreatedAt := now |>
    <| Job.UpdatedAt := now |> <| Job.Metadata := Some (queue_metadata job) |>.

Definition link_id (req : CreateJobRequest) : string :=
  if negb (String.eqb (ReqCorpusID req) "") then ReqCorpusID req else ReqCampaignID req.

Definition CreateJob (req : CreateJobRequest) m : (MJob + goerror) * list Call * TimeoutManager :=
  if String.eqb (ReqName req) "" || String.eqb (ReqTarget req) "" || String.eqb (ReqFuzzer req) "" then
    (inr (errors.NewValidationError "create_job" "Name, target, and fuzzer are required"), [], m)
  else if negb (slice_has (ReqFuzzer req) validFuzzers) then
    (inr (errors.NewValidationError "create_job"
       ("Invalid fuzzer type. Must be one of: [" +:+ String.concat " " validFuzzers +:+ "]")), [], m)
  else
    let '(now, m) := tm_now m in
    let duration := if ReqDuration req =? 0 then JobExecution m else ReqDuration req in
    let job := created_job now duration req in
    let '(r, m) := on_state (SaveJobWithRetry random job) m in
    match res_error r with
    | Some err => (inr (errors.Wrap errors.ErrorTypeDatabase "create_job" "Failed to save job" err), [], m)
    | None =>
        let enqueued := if useAsynq && has_queue then [Enqueue (domain_job now duration job)] else [] in
        let linked := if negb (String.eqb (link_id req) "") && has_corpus then [LinkJobCorpus newID (link_id req)] else [] in
        (inl job, enqueued ++ linked, SetJobTimeout newID duration m)
    end.

(** ** Queries *)

Definition GetJob (jobID : string) m : (MJob + goerror) * TimeoutManager :=
  if String.eqb jobID "" then (inr (errors.NewValidationError "get_job" "Job ID is required"), m)
  else
    match on_state (MasterState.GetJob random job_order sqlite_GetJob jobID) m with
    | (inr err, m) =>
        (inr (if IsNotFoundError err then errors.NewNotFoundError "get_job" "job"
              else errors.Wrap errors.ErrorTypeDatabase "get_job" "Failed to get job" err), m)
    | (inl job, m) => (inl job, m)
    end.

Definition keep_job (filter : JobFilter) (job : MJob) : bool :=
  match FStatus filter with Some s => String.eqb (JobState job) s | None => true end
  && match FFuzzer filter with Some f => String.eqb (Fuzzer job) f | None => true end.

(** [filtered[start:end]] of the asked page, in 64-bit arithmetic. *)
Definition page_of {A} (page limit : Z) (l : list A) : res (list A) :=
  let page := if page <=? 0 then 1 else page in
  let limit := if (limit <=? 0) || (100 <? limit) then 50 else limit in
  let start := wrap64 (wrap64 (page - 1) * limit) in
  let stop := wrap64 (start + limit) in
  if Z.of_nat (length l) <=? start then Ok []
  else
    let stop := if Z.of_nat (length l) <? stop then Z.of_nat (length l) else stop in
    if (start <? 0) || (stop <? start) then Panic "slice bounds out of range"
    else Ok (take (Z.to_nat (stop - start)) (drop (Z.to_nat start) l)).

Definition ListJobs (filter : JobFilter) m : res (list MJob) * TimeoutManager :=
  match ListJobsFiltered (FStatus filter) (FFuzzer filter) (Limit filter) (Page filter) with
  | inl jobs => (Ok jobs, m)
  | inr err =>
      if negb (errors.IsMethodNotFound err)
      then (Err (errors.Wrap errors.ErrorTypeDatabase "list_jobs" "Failed to list jobs" err), m)
      else
        let '(jobs, m) := on_state (list_jobs job_order sqlite_ListJobs) m in
        (page_of (Page filter) (Limit filter) (List.filter (keep_job filter) jobs), m)
  end.

(** ** Assignment, completion and cancellation *)

Definition assign_error (err : goerror) : goerror :=
  if String.eqb (Error err) "no jobs available"
  then errors.New errors.ErrorTypeNotFound "assign_job" "No jobs available for assignment"
  else errors.Wrap errors.ErrorTypeDatabase "assign_job" "Failed to assign job" err.

Definition AssignJob (botID : string) m : res MJob * TimeoutManager :=
  if String.eqb botID "" then (Err (errors.NewValidationError "assign_job" "Bot ID is required"), m)
  else if useAsynq then
    (Err (errors.New errors.ErrorTypeNotFound "assign_job"
            "Job assignment not available in queue mode - bots should run as workers"), m)
  else
    match on_state (AtomicJobAssignmentOptimized botID) m with
    | (inl job, m) => (Ok job, UpdateJobTimeout (JobID job) m)
    | (inr err, m) =>
        if negb (errors.IsMethodNotFound err) then
          (Err (if errors.IsNotFoundError err
                then errors.New errors.ErrorTypeNotFound "assign_job" "No jobs available for assignment"
                else if errors.IsConflictError err
                then errors.Wrap errors.ErrorTypeConflict "assign_job" "Lock conflict during job assignment" err
                else errors.Wrap errors.ErrorTypeDatabase "assign_job" "Failed to assign job" err), m)
        else
          let '((assigned, r), m) := on_state (AtomicJobAssignmentWithRetry random job_order botID) m in
          match res_error r, assigned with
          | Some err, _ => (Err (assign_error err), m)
          | None, Some job => (Ok job, UpdateJobTimeout (JobID job) m)
          | None, None => (Panic "nil pointer dereference", m)
          end
    end.
Definition AssignNextJob (botID : string) : TimeoutManager → res MJob * TimeoutManager := AssignJob botID.

Definition CompleteJob (jobID botID : string) (success : bool) m : option goerror * TimeoutManager :=
  if String.eqb jobID "" || String.eqb botID "" then
    (Some (errors.NewValidationError "complete_job" "Job ID and Bot ID are required"), m)
  else
    match on_state (CompleteJobOptimized jobID botID success) m with
    | (None, m) => (None, RemoveJobTimeout jobID m)
    | (Some err, m) =>
        if negb (errors.IsMethodNotFound err) then
          (Some (if errors.IsValidationError err then err
                 else if errors.IsConflictError err
                 then errors.Wrap errors.ErrorTypeConflict "complete_job" "Lock conflict during job completion" err
                 else errors.Wrap errors.ErrorTypeDatabase "complete_job" "Failed to complete job" err), m)
        else
          match on_state (MasterState.GetBot random bot_order botID) m with
          | (inr err, m) => (Some (errors.Wrap errors.ErrorTypeDatabase "complete_job" "Failed to get bot" err), m)
          | (inl bot, m) =>
              if negb (match CurrentJob bot with Some c => String.eqb c jobID | None => false end)
              then (Some (errors.NewValidationError "complete_job" "Bot is not assigned to this job"), m)
              else
                let '(r, m) := on_state (CompleteJobWithRetry random jobID botID success) m in
                match res_error r with
                | Some err => (Some (errors.Wrap errors.ErrorTypeDatabase "complete_job" "Failed to complete job" err), m)
                | None => (None, RemoveJobTimeout jobID m)
                end
          end
    end.

(** Freeing the bot of a cancelled job; a bot that cannot be read is skipped
    and a failed save is logged.  The bot and the job are the cached ones. *)
Definition free_bot (botID : string) m : TimeoutManager :=
  match on_state (MasterState.GetBot random bot_order botID) m with
  | (inr _, m) => m
  | (inl bot, m) =>
      let bot := bot <| BotState := BotStatusIdle |> <| CurrentJob := None |> in
      let m := m <| state := (state m) <| bots := <[botID := bot]> (bots (state m)) |> |> in
      (on_state (SaveBotWithRetry random bot) m).2
  end.

Definition CancelJob (jobID : string) m : option goerror * TimeoutManager :=
  if String.eqb jobID "" then (Some (errors.NewValidationError "cancel_job" "Job ID is required"), m)
  else
    match on_state (MasterState.GetJob random job_order sqlite_GetJob jobID) m with
    | (inr err, m) => (Some (errors.Wrap errors.ErrorTypeDatabase "cancel_job" "Failed to get job" err), m)
    | (inl job, m) =>
        if String.eqb (JobState job) JobStatusCompleted || String.eqb (JobState job) JobStatusFailed
        then (Some (errors.NewValidationError "cancel_job" "Cannot cancel completed or failed job"), m)
        else
          let '(now, m) := tm_now m in
          let botID := AssignedBot job in
          let job := job <| JobState := JobStatusCancelled |> <| CompletedAt := Some now |> <| AssignedBot := None |> in
          let m := m <| state := (state m) <| jobs := <[jobID := job]> (jobs (state m)) |> |> in
          let '(r, m) := on_state (SaveJobWithRetry random job) m in
          match res_error r with
          | Some err => (Some (errors.Wrap errors.ErrorTypeDatabase "cancel_job" "Failed to save job" err), m)
          | None =>
              let m := match botID with Some b => free_bot b m | None => m end in
              (None, RemoveJobTimeout jobID m)
          end
    end.

End job_service.

(** ** Pages *)

Lemma page_of_window {A} page limit (l : list A) :
  1 ≤ page → 1 ≤ limit ≤ 100 → page * limit ≤ maxInt64 →
  page_of page limit l = Ok (take (Z.to_nat limit) (drop (Z.to_nat ((page - 1) * limit)) l)).
Proof.
  intros Hp Hl Hm. unfold page_of. rewrite (proj2 (Z.leb_gt page 0)) by lia.
  rewrite (proj2 (Z.leb_gt limit 0)), (proj2 (Z.ltb_ge 100 limit)) by lia. cbn [orb].
  assert (0 ≤ (page - 1) * limit ≤ maxInt64) as Hs by nia.
  assert ((page - 1) * limit + limit ≤ maxInt64) as He by nia.
  assert (page ≤ maxInt64) as Hpm by nia.
  rewrite (wrap64_id (page - 1)) by (unfold in_int64, minInt64, maxInt64 in *; lia).
  rewrite (wrap64_id ((page - 1) * limit)) by (unfold in_int64, minInt64, maxInt64 in *; lia).
  rewrite (wrap64_id ((page - 1) * limit + limit)) by (unfold in_int64, minInt64, maxInt64 in *; lia).
  set (start := (page - 1) * limit) in *. clearbody start.
  destruct (Z.leb_spec (Z.of_nat (length l)) start) as [Hlen|Hlen].
  { rewrite drop_ge by lia. by rewrite take_nil. }
  rewrite (proj2 (Z.ltb_ge start 0)) by lia. cbn [orb].
  destruct (Z.ltb_spec (Z.of_nat (length l)) (start + limit)) as [Hlt|Hlt].
  - rewrite (proj2 (Z.ltb_ge _ start)) by lia. f_equal.
    rewrite !take_ge; [done| |]; rewrite length_drop; lia.
  - rewrite (proj2 (Z.ltb_ge _ start)) by lia. do 3 f_equal. lia.
Qed.

(** The first [n] pages put together. *)
Definition all_pages {A} (limit : Z) (l : list A) (n : nat) : list A :=
  concat ((λ i, match page_of (Z.of_nat i) limit l with Ok p => p | _ => [] end) <$> seq 1 n).

Lemma all_pages_take {A} limit (l : list A) n :
  1 ≤ limit ≤ 100 → Z.of_nat n * limit ≤ maxInt64 → all_pages limit l n = take (n * Z.to_nat limit) l.
Proof.
  intros Hl. unfold all_pages. induction n as [|n IH]; intros Hn; [done|].
  rewrite seq_S, fmap_app, concat_app, IH by nia. cbn [fmap list_fmap concat]. rewrite app_nil_r.
  rewrite page_of_window by lia.
  replace (Z.to_nat ((Z.of_nat (1 + n) - 1) * limit)) with (n * Z.to_nat limit)%nat by nia.
  replace (Datatypes.S n * Z.to_nat limit)%nat with (n * Z.to_nat limit + Z.to_nat limit)%nat by lia.
  apply take_take_drop.
Qed.

(** Listing jobs by pages.  For a page size between 1 and 100 the pages, put
    together in order, are exactly the jobs that pass the filter, each once, and
    every page after them is empty, as long as the numbers stay below 2^63; when
    the offset of the page, in 64-bit arithmetic, is negative and only then, the
    slicing panics. *)
Theorem job_pages {A} page limit (l : list A) :
  let eff := if (limit <=? 0) || (100 <? limit) then 50 else limit in
  (∀ n, Z.of_nat n * eff ≤ maxInt64 → Z.of_nat (length l) ≤ Z.of_nat n * eff → all_pages eff l n = l) ∧
  (1 ≤ page → page * eff ≤ maxInt64 →
     ∃ p, page_of page limit l = Ok p ∧ Z.of_nat (length p) = Z.max 0 (Z.min eff (Z.of_nat (length l) - (page - 1) * eff))) ∧
  (page <= 0 → page_of page limit l = page_of 1 limit l) ∧
  (Z.of_nat (length l) + 100 ≤ maxInt64 →
     (∃ w, page_of page limit l = Panic w) ↔ 1 ≤ page ∧ wrap64 (wrap64 (page - 1) * eff) < 0).
Proof.
  intros eff. assert (1 ≤ eff ≤ 100) as He by (subst eff; destruct (Z.leb_spec limit 0), (Z.ltb_spec 100 limit); simpl; lia).
  assert (∀ page, page_of page limit l = page_of page eff l) as Heff.
  { intros q. unfold page_of. fold eff. rewrite (proj2 (Z.leb_gt eff 0)), (proj2 (Z.ltb_ge 100 eff)) by lia. done. }
  split_and!.
  - intros n Hn Hlen. rewrite all_pages_take by done. apply take_ge. nia.
  - intros Hp Hm. rewrite Heff, page_of_window by done. eexists. split; [done|].
    rewrite length_take, length_drop. nia.
  - intros Hp. rewrite !Heff. unfold page_of. by rewrite (proj2 (Z.leb_le page 0)).
  - intros Hlen. rewrite Heff. destruct (Z.leb_spec page 0) as [Hp|Hp].
    + split; [|lia]. intros [w Hw].
      assert (page_of page eff l = page_of 1 eff l) as E by (unfold page_of; by rewrite (proj2 (Z.leb_le page 0))).
      rewrite E, page_of_window in Hw by (unfold maxInt64; lia). done.
    + unfold page_of. rewrite (proj2 (Z.leb_gt page 0)), (proj2 (Z.leb_gt eff 0)), (proj2 (Z.ltb_ge 100 eff)) by lia. cbn [orb].
      set (start := wrap64 (wrap64 (page - 1) * eff)). split.
      * intros [w Hw]. split; [lia|]. destruct (Z.leb_spec (Z.of_nat (length l)) start) as [|Hs]; [done|].
        destruct (Z.ltb_spec start 0) as [|Hs0]; [done|]. exfalso. cbn [orb] in Hw.
        destruct (Z.ltb_spec (Z.of_nat (length l)) (wrap64 (start + eff))) in Hw.
        -- rewrite (proj2 (Z.ltb_ge _ start)) in Hw by lia. done.
        -- destruct (Z.ltb_spec (wrap64 (start + eff)) start) as [Hw2|]; [|done].
           rewrite wrap64_id in Hw2; [lia|]. unfold in_int64, minInt64, maxInt64 in *. lia.
      * intros [_ Hs]. rewrite (proj2 (Z.leb_gt _ start)) by lia. rewrite (proj2 (Z.ltb_lt start 0)) by lia. by eexists.
Qed.

(** ** Properties *)

Section properties.
Variable random : Z → float64.
Variable job_order : nat → list (string * MJob) → list (string * MJob).
Variable bot_order : nat → list (string * Bot) → list (string * Bot).
Variable sqlite_GetJob : option (gmap string entity → string → MJob + goerror).
Variable database_sql : bool.
Hypothesis job_order_perm : ∀ k l, job_order k l ≡ₚ l.
Implicit Types (m : TimeoutManager) (ps : PersistentState).

(** The optimised operations change nothing and say so. *)
Lemma assign_optimised botID ps : faults ps = [] →
  ∃ e, AtomicJobAssignmentOptimized database_sql botID ps = (inr e, ps) ∧ errors.IsMethodNotFound e = true.
Proof.
  intros Hf. unfold AtomicJobAssignmentOptimized. destruct database_sql; [|by eexists].
  unfold transaction, Transaction. rewrite db_call_healthy by done. simpl. eexists. split; [by destruct ps|done].
Qed.
Lemma complete_optimised jobID botID success ps : faults ps = [] →
  ∃ e, CompleteJobOptimized database_sql jobID botID success ps = (Some e, ps) ∧ errors.IsMethodNotFound e = true.
Proof.
  intros Hf. unfold CompleteJobOptimized. destruct database_sql; [|by eexists].
  unfold transaction, Transaction. rewrite db_call_healthy by done. simpl. eexists. split; [by destruct ps|done].
Qed.

Lemma assign_healthy botID bot ps k0 job0 :
  db_healthy ps → jobs_keyed (jobs ps) → bots ps !! botID = Some bot → BotState bot = BotStatusIdle →
  jobs ps !! k0 = Some job0 → matches_bot bot (clock ps (ticks ps)) job0 →
  ∃ job now now' ps', AtomicJobAssignmentWithRetry random job_order botID ps = (Some (assign_job botID now job), Ok tt, ps') ∧
    jobs ps !! JobID job = Some job ∧ matches_bot bot (clock ps (ticks ps)) job ∧
    jobs ps' = <[JobID job := assign_job botID now job]> (jobs ps) ∧
    bots ps' = <[botID := assign_bot (JobID job) now' bot]> (bots ps) ∧ db_healthy ps' ∧ clock ps' = clock ps.
Proof.
  intros [Hf Hm] Hkey Hb Hi Hk0 Hm0.
  destruct (assign_tx_healthy job_order job_order_perm botID bot ps None k0 job0 Hf Hb Hi Hk0 Hm0)
    as (k & job & now & ps1 & E & Hk & Hmk & Hj1 & Hb1 & Hf1 & Hc1 & Hr1).
  pose proof (Hkey k job Hk) as <-. eexists job, now, _, _. split.
  { unfold AtomicJobAssignmentWithRetry. rewrite (Execute_once _ _ random (ps, None) (ps1, Some (assign_job botID now job)) Hm).
    2:{ unfold assign_attempt. simpl. by rewrite Hb. }
    unfold assign_finish. cbn [fst snd]. change (bots (set_field jobs _ ps1)) with (bots ps1). rewrite Hb1, Hb.
    unfold time_now. reflexivity. }
  split; [done|]. split; [done|]. split_and!.
  - change (<[JobID job := assign_job botID now job]> (jobs ps1) = <[JobID job := assign_job botID now job]> (jobs ps)).
    by rewrite Hj1, insert_insert_eq.
  - simpl. by rewrite Hb1.
  - split; [exact Hf1|]. simpl. by rewrite Hr1.
  - exact Hc1.
Qed.

Abbreviation assign := (AssignJob random job_order database_sql false).
Abbreviation complete := (CompleteJob random bot_order database_sql).

Lemma complete_healthy jobID botID success job bot m :
  db_healthy (state m) → jobID ≠ "" → botID ≠ "" → jobs (state m) !! jobID = Some job → AssignedBot job = Some botID →
  bots (state m) !! botID = Some bot → CurrentJob bot = Some jobID →
  ∃ fin m', complete jobID botID success m = (None, m') ∧
    jobs (state m') = <[jobID := complete_job success fin job]> (jobs (state m)) ∧
    bots (state m') = <[botID := release_bot fin bot]> (bots (state m)) ∧
    jobTimeouts m' = delete jobID (jobTimeouts m) ∧ botTimeouts m' = botTimeouts m.
Proof.
  intros [Hf Hm] Hj0 Hb0 Hj Ha Hb Hc. set (ps2 := touch ("bot:" +:+ botID) (state m)).
  destruct (CompleteJob_healthy random jobID botID success job bot ps2) as (ps3 & fin & E3 & Hj3 & Hb3 & _); try done.
  exists fin. eexists. split.
  { unfold CompleteJob. destruct (String.eqb_spec jobID "") as [|_]; [done|]. destruct (String.eqb_spec botID "") as [|_]; [done|].
    cbn [orb]. unfold on_state at 1. destruct (complete_optimised jobID botID success (state m) Hf) as (e & -> & ->).
    cbn [negb]. unfold on_state at 1. change (state (set_field state _ m)) with (state m).
    unfold MasterState.GetBot. rewrite Hb. cbv beta iota. rewrite Hc, String.eqb_refl. cbn [negb]. unfold on_state.
    change (state (set_field state _ _)) with ps2. rewrite E3. cbn [res_error]. reflexivity. }
  split_and!; [exact Hj3|exact Hb3|done..].
Qed.

(** The life of a job in the service, on a healthy database.  When an idle
    bot asks and some pending job fits it, the bot gets such a job, which from
    then on is assigned to it with a deadline of its own; and when the bot later
    reports the end of the job, the job is completed or failed as reported, its
    deadline is dropped, and the bot is idle again, while all other jobs and bots
    are as before. *)
Theorem assign_complete_cycle botID bot k0 job0 success m :
  db_healthy (state m) → jobs_keyed (jobs (state m)) → jobs (state m) !! "" = None →
  botID ≠ "" → bots (state m) !! botID = Some bot → BotState bot = BotStatusIdle →
  jobs (state m) !! k0 = Some job0 → matches_bot bot (clock (state m) (ticks (state m))) job0 →
  ∃ old now m1, assign botID m = (Ok (assign_job botID now old), m1) ∧
    jobs (state m) !! JobID old = Some old ∧ matches_bot bot (clock (state m) (ticks (state m))) old ∧
    jobs (state m1) = <[JobID old := assign_job botID now old]> (jobs (state m)) ∧
    (∃ n, jobTimeouts m1 = <[JobID old := clock (state m) n + JobExecution m]> (jobTimeouts m)) ∧
    ∃ done m2, complete (JobID old) botID success m1 = (None, m2) ∧
      jobs (state m2) = <[JobID old := complete_job success done (assign_job botID now old)]> (jobs (state m)) ∧
      bots (state m2) = <[botID := bot <| BotState := BotStatusIdle |> <| CurrentJob := None |> <| LastSeen := done |>]> (bots (state m)) ∧
      jobTimeouts m2 = delete (JobID old) (jobTimeouts m) ∧ botTimeouts m2 = botTimeouts m.
Proof.
  intros Hm Hkey Hne Hid Hb Hi Hk0 Hm0.
  destruct (assign_healthy botID bot (state m) k0 job0 Hm Hkey Hb Hi Hk0 Hm0)
    as (old & now & now' & ps1 & E & Hold & Hmatch & Hj1 & Hb1 & Hm1 & Hc1).
  assert (JobID old ≠ "") as Hold0 by (intros Hz; rewrite Hz in Hold; congruence).
  exists old, now. eexists. split.
  { unfold AssignJob. destruct (String.eqb_spec botID "") as [|_]; [done|]. unfold on_state at 1.
    destruct (assign_optimised botID (state m) (proj1 Hm)) as (e & -> & ->). cbn [negb]. unfold on_state.
    change (state (set_field state _ m)) with (state m). rewrite E. cbn [res_error]. reflexivity. }
  split; [done|]. split; [done|]. split; [exact Hj1|]. split.
  { exists (ticks ps1). change (<[JobID old := clock ps1 (ticks ps1) + JobExecution m]> (jobTimeouts m) =
      <[JobID old := clock (state m) (ticks ps1) + JobExecution m]> (jobTimeouts m)). by rewrite Hc1. }
  set (m1 := UpdateJobTimeout _ _).
  assert (db_healthy (state m1)) as Hm1' by exact Hm1.
  assert (bots (state m1) !! botID = Some (assign_bot (JobID old) now' bot)) as Hbot1.
  { change (bots ps1 !! botID = Some (assign_bot (JobID old) now' bot)). by rewrite Hb1, lookup_insert_eq. }
  assert (jobs (state m1) !! JobID old = Some (assign_job botID now old)) as Hjob1.
  { change (jobs ps1 !! JobID old = Some (assign_job botID now old)). by rewrite Hj1, lookup_insert_eq. }
  destruct (complete_healthy (JobID old) botID success _ _ m1 Hm1' Hold0 Hid Hjob1 eq_refl Hbot1 eq_refl)
    as (fin & m2 & E2 & Hj2 & Hb2 & Ht2 & Hbt2).
  exists fin, m2. split_and!; [exact E2|..].
  - rewrite Hj2. change (jobs (state m1)) with (jobs ps1). by rewrite Hj1, insert_insert_eq.
  - rewrite Hb2. change (bots (state m1)) with (bots ps1). by rewrite Hb1, insert_insert_eq.
  - rewrite Ht2. apply delete_insert_eq.
  - exact Hbt2.
Qed.

(** When no pending job fits the bot, the service answers with a database
    error: it looks for a text that the retry manager has wrapped, so "no jobs
    available" is never reported as such, to a bot that asks in good health. *)
Theorem no_job_is_a_database_error botID bot m :
  db_healthy (state m) → botID ≠ "" → bots (state m) !! botID = Some bot →
  (∀ n k j, jobs (state m) !! k = Some j → ¬ matches_bot bot (clock (state m) n) j) →
  ∃ e m', assign botID m = (Err e, m') ∧ errors.GetErrorType e = Some errors.ErrorTypeDatabase ∧
    jobs (state m') = jobs (state m) ∧ bots (state m') = bots (state m) ∧ jobTimeouts m' = jobTimeouts m.
Proof.
  intros [Hf _] Hid Hb Hnone.
  set (P (x : PersistentState * option MJob) := faults x.1 = [] ∧ jobs x.1 = jobs (state m) ∧ bots x.1 = bots (state m) ∧
         clock x.1 = clock (state m) ∧ x.2 = None).
  assert (∀ x, P x → (assign_attempt job_order botID x).1 ≠ None ∧ P (assign_attempt job_order botID x).2) as Hstep.
  { intros [ps a] (H1 & H2 & H3 & H4 & H5). simpl in H1, H2, H3, H4, H5. unfold assign_attempt. simpl. rewrite H3, Hb.
    unfold Transaction. rewrite db_call_healthy by done. unfold assign_tx.
    destruct (findAvailableJobTx job_order botID ps) as [f ps1] eqn:Ef.
    destruct (find_job job_order job_order_perm ps bot botID f ps1) as [-> Hr]; [by rewrite H3|done|].
    destruct f as [[[k j]|]|?]; [|by split|done]. destruct Hr as [Hk Hmt]. exfalso. rewrite H2 in Hk. rewrite H4 in Hmt.
    by apply (Hnone (ticks ps) k j). }
  destruct (Execute_inv (assign_attempt job_order botID) P (retryPolicy (state m)) random (state m, None)) as [HP Hok];
    [intros x Hx; by apply Hstep|by split_and!|].
  pose proof (λ e, Execute_error (assign_attempt job_order botID) (retryPolicy (state m)) random (state m, None) e) as Herr.
  pose proof (λ w, execute_loop_no_panic (assign_attempt job_order botID) (retryPolicy (state m)) random
    (Z.to_nat (MaxRetries (retryPolicy (state m)) + 1)) 0 (InitialDelay (retryPolicy (state m))) None (state m, None) [] w) as Hpan.
  unfold AssignJob. destruct (String.eqb_spec botID "") as [|_]; [done|]. unfold on_state at 1.
  destruct (assign_optimised botID (state m) Hf) as (e0 & -> & ->). cbn [negb]. unfold on_state.
  change (state (set_field state _ m)) with (state m). unfold AtomicJobAssignmentWithRetry.
  fold (Execute (assign_attempt job_order botID) (retryPolicy (state m)) random (state m, None)) in Hpan.
  destruct (Execute _ _ _ _) as [[r [ps' a]] sl]. cbn [fst snd] in *. destruct HP as (_ & Hj' & Hb' & _ & Ha'). cbn [fst snd] in Hj', Hb', Ha'. subst a.
  destruct r as [[]|e|w]; [destruct (Hok eq_refl) as (x & Hx & Ex); destruct (Hstep x Hx) as [Hn _]; by rewrite Ex in Hn| |by destruct (Hpan w)].
  cbn [res_error]. eexists _, _. split; [reflexivity|]. split; [|by split_and!].
  destruct (Herr e eq_refl) as (prefix & e1 & -> & Hp). unfold assign_error.
  destruct (String.eqb_spec (Error (ErrWrap prefix e1)) "no jobs available") as [Heq|_]; [|done].
  exfalso. by destruct Hp as [->|[n ->]].
Qed.

Lemma free_bot_cached b bot m :
  db_healthy (state m) → bots (state m) !! b = Some bot → BotID bot = b →
  let free := bot <| BotState := BotStatusIdle |> <| CurrentJob := None |> in
  ∃ m', free_bot random bot_order b m = m' ∧ bots (state m') = <[b := free]> (bots (state m)) ∧
    data (state m') = <["bot:" +:+ b := EBot free]> (data (state m)) ∧ jobs (state m') = jobs (state m) ∧
    jobTimeouts m' = jobTimeouts m ∧ botTimeouts m' = botTimeouts m.
Proof.
  intros Hm Hb Hid free. unfold free_bot, on_state at 1. unfold MasterState.GetBot. rewrite Hb. cbv beta iota zeta. fold free.
  unfold on_state. match goal with |- context [SaveBotWithRetry random free ?p] => set (ps := p) end.
  rewrite (SaveBot_healthy random free ps Hm). eexists. split; [reflexivity|].
  simpl. rewrite Hid. split_and!; try done. apply insert_insert_eq.
Qed.

(** Cancelling a cached job whose bot, if it has one, is cached too, on a
    healthy database.  A completed or failed job is refused and nothing
    changes.  Any other job, also one that was cancelled or timed out before,
    becomes cancelled now, without a bot and without a deadline, in the cache and
    in the database; and the bot it names becomes idle without a job, whatever
    that bot is working on: if its current job is another one, that other job is
    untouched and stays assigned to it. *)
Theorem cancel_job jobID job m :
  db_healthy (state m) → jobs_keyed (jobs (state m)) → bots_keyed (bots (state m)) → jobID ≠ "" →
  jobs (state m) !! jobID = Some job → (∀ b, AssignedBot job = Some b → is_Some (bots (state m) !! b)) →
  let '(r, m') := CancelJob random job_order bot_order sqlite_GetJob jobID m in
  (JobState job = JobStatusCompleted ∨ JobState job = JobStatusFailed →
     errors.IsValidationError <$> r = Some true ∧ jobs (state m') = jobs (state m) ∧ bots (state m') = bots (state m) ∧
     data (state m') = data (state m) ∧ jobTimeouts m' = jobTimeouts m) ∧
  (JobState job ≠ JobStatusCompleted → JobState job ≠ JobStatusFailed →
     r = None ∧ jobTimeouts m' = delete jobID (jobTimeouts m) ∧ botTimeouts m' = botTimeouts m ∧
     ∃ n, let cancelled := job <| JobState := JobStatusCancelled |> <| CompletedAt := Some (clock (state m) n) |> <| AssignedBot := None |> in
       jobs (state m') = <[jobID := cancelled]> (jobs (state m)) ∧
       data (state m') !! ("job:" +:+ jobID) = Some (EJob cancelled) ∧
       match AssignedBot job with
       | Some b => ∃ bot, bots (state m) !! b = Some bot ∧
           let free := bot <| BotState := BotStatusIdle |> <| CurrentJob := None |> in
           bots (state m') = <[b := free]> (bots (state m)) ∧ data (state m') !! ("bot:" +:+ b) = Some (EBot free)
       | None => bots (state m') = bots (state m)
       end).
Proof.
  intros Hm Hkj Hkb Hid Hj Hbot. unfold CancelJob. destruct (String.eqb_spec jobID "") as [|_]; [done|].
  unfold on_state at 1. unfold MasterState.GetJob. rewrite Hj. cbv beta iota.
  set (m1 := set_field state _ m).
  assert (∀ s, s = JobStatusCompleted ∨ s = JobStatusFailed ↔ String.eqb s JobStatusCompleted || String.eqb s JobStatusFailed = true) as Hs.
  { intros s. by rewrite orb_true_iff, !String.eqb_eq. }
  destruct (_ || _) eqn:Es.
  { apply Hs in Es. split; [intros _; by split_and!|]. intros H1 H2. exfalso. tauto. }
  assert (¬ (JobState job = JobStatusCompleted ∨ JobState job = JobStatusFailed)) as Hn by (intros Hc; apply Hs in Hc; congruence).
  clear Hs Es. unfold tm_now, time_now. cbv beta iota zeta. set (job' := set_field AssignedBot _ _).
  assert (JobID job' = jobID) as Hid' by (exact (Hkj _ _ Hj)).
  unfold on_state at 1. match goal with |- context [SaveJobWithRetry random job' ?p] => set (ps1 := p) end.
  rewrite (SaveJob_healthy random job' ps1 Hm). cbn [res_error]. split; [done|]. intros _ _. set (ps2 := job_saved job' ps1).
  set (m2 := set_field state (λ _, ps2) _).
  assert (jobs ps2 = <[jobID := job']> (jobs (state m)) ∧ data ps2 = <["job:" +:+ jobID := EJob job']> (data (state m)) ∧
          bots ps2 = bots (state m) ∧ db_healthy ps2) as (J2 & D2 & B2 & H2).
  { subst ps2. unfold job_saved. rewrite Hid'. split_and!; [|done..]. simpl. apply insert_insert_eq. }
  destruct (AssignedBot job) as [b|] eqn:Ea.
  - destruct (Hbot b eq_refl) as [bot Hb].
    destruct (free_bot_cached b bot m2 H2) as (m3 & -> & B3 & D3 & J3 & Jt3 & Bt3); [by rewrite <- Hb, <- B2|exact (Hkb _ _ Hb)|].
    split; [reflexivity|]. split; [exact (f_equal (delete jobID) Jt3)|]. split; [exact Bt3|]. exists (S (ticks (state m))). cbv zeta. split_and!.
    + exact (eq_trans J3 J2).
    + change (data (state (RemoveJobTimeout jobID m3))) with (data (state m3)). rewrite D3, lookup_insert_ne by done.
      change (data (state m2)) with (data ps2). by rewrite D2, lookup_insert_eq.
    + exists bot. split; [done|]. split; [by rewrite <- B2|].
      change (data (state (RemoveJobTimeout jobID m3))) with (data (state m3)). by rewrite D3, lookup_insert_eq.
  - split; [reflexivity|]. split; [reflexivity|]. split; [reflexivity|]. exists (S (ticks (state m))). cbv zeta. split_and!; [exact J2| |exact B2].
    change (data ps2 !! ("job:" +:+ jobID) = Some (EJob job')). by rewrite D2, lookup_insert_eq.
Qed.

(** Creating a job on a healthy database, by a request for a known fuzzer: the
    job is pending and unassigned, the same in the cache and the database, with
    a deadline after the asked duration, or the configured one if none is asked,
    which is also its configured duration when it is positive; a collection
    excludes a campaign, and the corpus of a campaign is always used when one is
    named without a collection, also when the request says otherwise.  Other
    requests are rejected without effect. *)
Theorem create_job newID useAsynq has_queue has_corpus req m :
  db_healthy (state m) →
  let '(r, calls, m') := CreateJob random newID useAsynq has_queue has_corpus req m in
  let complete_request := ReqName req ≠ "" ∧ ReqTarget req ≠ "" ∧ ReqFuzzer req ∈ validFuzzers in
  (¬ complete_request → m' = m ∧ calls = [] ∧ ∃ e, r = inr e ∧ errors.IsValidationError e = true) ∧
  (complete_request → ∃ job n, let duration := if ReqDuration req =? 0 then JobExecution m else ReqDuration req in
     r = inl job ∧ JobID job = newID ∧ JobState job = JobStatusPending ∧ AssignedBot job = None ∧
     JobName job = ReqName req ∧ Target job = ReqTarget req ∧ Fuzzer job = ReqFuzzer req ∧ JobPriority job = ReqPriority req ∧
     JobTimeoutAt job = JobCreatedAt job + duration ∧ (0 < duration → CfgDuration (JobCfg job) = duration) ∧
     CollectionID job = (if String.eqb (ReqCollectionID req) "" then None else Some (ReqCollectionID req)) ∧
     (ReqCollectionID req ≠ "" → CampaignID job = None) ∧
     (UseCampaignCorpus job = ReqUseCampaignCorpus req || bool_decide (is_Some (CampaignID job))) ∧
     jobs (state m') = <[newID := job]> (jobs (state m)) ∧
     data (state m') = <["job:" +:+ newID := EJob job]> (data (state m)) ∧
     bots (state m') = bots (state m) ∧ botTimeouts m' = botTimeouts m ∧
     jobTimeouts m' = <[newID := clock (state m) n + duration]> (jobTimeouts m) ∧
     (∀ q, Enqueue q ∈ calls → useAsynq = true ∧ has_queue = true ∧ Job.ID q = newID ∧ Job.Status q = StatusQueued)).
Proof.
  intros Hm. unfold CreateJob.
  assert (String.eqb (ReqName req) "" || String.eqb (ReqTarget req) "" || String.eqb (ReqFuzzer req) "" = true ↔
          ReqName req = "" ∨ ReqTarget req = "" ∨ ReqFuzzer req = "") as Hs by (rewrite !orb_true_iff, !String.eqb_eq; tauto).
  destruct (_ || _ || _) eqn:Es.
  { apply proj1 in Hs. specialize (Hs eq_refl). split; [intros _; by split_and!; [..|eexists]|].
    intros (H1 & H2 & H3). exfalso. destruct Hs as [?|[?|Hz]]; [done..|]. rewrite Hz in H3. by apply slice_has_true in H3. }
  assert (ReqName req ≠ "" ∧ ReqTarget req ≠ "") as [Hn Ht] by (split; intros Hz; by discriminate (proj2 Hs ltac:(tauto))).
  destruct (slice_has (ReqFuzzer req) validFuzzers) eqn:Ef; cbn [negb].
  2:{ apply slice_has_false in Ef. split; [intros _; by split_and!; [..|eexists]|]. by intros (_ & _ & ?). }
  apply slice_has_true in Ef. unfold tm_now, time_now. cbv beta iota zeta.
  change (JobExecution (set_field state _ m)) with (JobExecution m).
  set (duration := if _ =? 0 then _ else _). set (m1 := set_field state _ m). set (now := clock (state m) (ticks (state m))).
  set (job := created_job newID now duration req).
  assert (JobID job = newID ∧ JobState job = JobStatusPending ∧ AssignedBot job = None ∧
     JobName job = ReqName req ∧ Target job = ReqTarget req ∧ Fuzzer job = ReqFuzzer req ∧ JobPriority job = ReqPriority req ∧
     JobTimeoutAt job = JobCreatedAt job + duration ∧ JobCfg job = job_config duration (ReqConfig req) ∧
     CollectionID job = (if String.eqb (ReqCollectionID req) "" then None else Some (ReqCollectionID req)) ∧
     (ReqCollectionID req ≠ "" → CampaignID job = None) ∧
     UseCampaignCorpus job = ReqUseCampaignCorpus req || bool_decide (is_Some (CampaignID job)))
    as (Hid & Hst & Ha & H1 & H2 & H3 & H4 & H5 & Hcfg & Hcol & Hcamp & Huse).
  { subst job. unfold created_job, corpus_source.
    destruct (String.eqb_spec (ReqCollectionID req) ""), (String.eqb_spec (ReqCorpusID req) ""), (String.eqb_spec (ReqCampaignID req) "");
      simpl; split_and!; try done; by destruct (ReqUseCampaignCorpus req). }
  unfold on_state. rewrite SaveJob_healthy by exact Hm. cbn [res_error]. split; [by intros []|].
  intros _. exists job, (Datatypes.S (ticks (state m))). cbv zeta. split; [done|].
  do 7 (split; [done|]). split; [done|]. split.
  { intros Hd. rewrite Hcfg. unfold job_config. by rewrite (proj2 (Z.ltb_lt 0 duration) Hd). }
  split; [done|]. split; [done|]. split; [done|]. split_and!.
  - simpl. by rewrite Hid.
  - simpl. by rewrite Hid.
  - done.
  - done.
  - done.
  - intros q [Hq|Hq]%elem_of_app.
    + destruct useAsynq, has_queue; simpl in Hq; try by apply not_elem_of_nil in Hq.
      apply list_elem_of_singleton in Hq as [= ->]. done.
    + destruct (_ && _); [by apply list_elem_of_singleton in Hq|by apply not_elem_of_nil in Hq].
Qed.

End properties.

(** A bot or a job that does not exist is never reported as not found: the
    state reports it by a validation error, which the services do not
    recognise, so the answer is always a database error. *)
Theorem missing_is_a_database_error random job_order bot_order sqlite id m :
  id ≠ "" →
  (∀ e m', BotService.GetBot random bot_order id m = (inr e, m') → errors.GetErrorType e = Some errors.ErrorTypeDatabase) ∧
  (∀ e m', GetJob random job_order sqlite id m = (inr e, m') → errors.GetErrorType e = Some errors.ErrorTypeDatabase) ∧
  (bots (state m) !! id = None → data (state m) !! ("bot:" +:+ id) = None →
     ∃ e m', BotService.GetBot random bot_order id m = (inr e, m') ∧ bots (state m') = bots (state m)) ∧
  (jobs (state m) !! id = None → data (state m) !! ("job:" +:+ id) = None → sqlite = None →
     ∃ e m', GetJob random job_order sqlite id m = (inr e, m') ∧ jobs (state m') = jobs (state m)).
Proof.
  intros Hid. unfold BotService.GetBot, GetJob, on_state. destruct (String.eqb_spec id "") as [|_]; [done|]. split_and!.
  - intros e m'. unfold MasterState.GetBot. destruct (bots (state m) !! id); [done|].
    destruct (load_with_retry random ("bot:" +:+ id) (state m)) as [[[]|err] ps]; try (intros [= <- <-]; done).
    destruct (IsNotFoundError err); by intros [= <- <-].
  - intros e m'. unfold MasterState.GetJob, get_job_error. destruct (jobs (state m) !! id); [done|].
    destruct sqlite as [get|].
    + destruct (get _ _) as [|err]; [done|]. destruct (IsNotFoundError err); by intros [= <- <-].
    + destruct (load_with_retry random ("job:" +:+ id) (state m)) as [[[]|err] ps]; try (intros [= <- <-]; done).
      destruct (IsNotFoundError err); by intros [= <- <-].
  - intros Hb Hd. destruct (load_missing random ("bot:" +:+ id) (state m) Hd) as (e & ps & E & Hb' & _).
    unfold MasterState.GetBot. rewrite Hb, E. by eexists _, _.
  - intros Hj Hd ->. destruct (load_missing random ("job:" +:+ id) (state m) Hd) as (e & ps & E & _ & Hj' & _).
    unfold MasterState.GetJob. rewrite Hj, E. by eexists _, _.
Qed.

(** ** Concrete services *)

Definition demo_jobs : TimeoutManager := demo_tm (demo_state {[ "j1" := demo_mjob "j1" ]}).
Lemma demo_jobs_healthy js : db_healthy (state (demo_tm (demo_state js))).
Proof. split; [reflexivity|vm_compute; discriminate]. Defined.
Lemma demo_jobs_keyed : jobs_keyed {[ "j1" := demo_mjob "j1" ]}.
Proof. intros k j Hk. apply one_job in Hk as [-> ->]. reflexivity. Defined.

Lemma assign_complete_cycle_witness :
  ∃ job m1 m2, AssignJob no_jitter in_order true false "b1" demo_jobs = (Ok job, m1) ∧ JobID job = "j1" ∧
    CompleteJob no_jitter in_order true "j1" "b1" true m1 = (None, m2) ∧
    (JobState <$> jobs (state m2) !! "j1") = Some JobStatusCompleted.
Proof.
  destruct (assign_complete_cycle no_jitter in_order in_order true (λ _ _, reflexivity _) "b1" demo_bot "j1" (demo_mjob "j1") true demo_jobs)
    as (old & now & m1 & E1 & Hold & _ & _ & _ & fin & m2 & E2 & Hj2 & _).
  - apply demo_jobs_healthy.
  - apply demo_jobs_keyed.
  - reflexivity.
  - discriminate.
  - reflexivity.
  - reflexivity.
  - reflexivity.
  - apply (demo_matches "j1" 0).
  - apply one_job in Hold as [Hid ->]. exists (assign_job "b1" now (demo_mjob "j1")), m1, m2.
    split; [exact E1|]. split; [reflexivity|]. split; [exact E2|]. rewrite Hj2. reflexivity.
Defined.

Lemma no_job_is_a_database_error_witness :
  ∃ e m', AssignJob no_jitter in_order true false "b1" (demo_tm (demo_state ∅)) = (Err e, m') ∧
    errors.IsNotFoundError e = false ∧ errors.GetErrorType e = Some errors.ErrorTypeDatabase.
Proof.
  destruct (no_job_is_a_database_error no_jitter in_order true (λ _ _, reflexivity _) "b1" demo_bot (demo_tm (demo_state ∅)))
    as (e & m' & E & He & _); [apply demo_jobs_healthy|discriminate|reflexivity| |].
  - intros n k j Hk. discriminate Hk.
  - exists e, m'. split; [exact E|]. split; [|exact He].
    destruct (errors.IsNotFoundError e) eqn:Hn; [|reflexivity]. apply errors.isErrorType_spec in Hn. rewrite He in Hn. discriminate Hn.
Defined.

(** The job [j1] was assigned to a bot that now works on [j2]. *)
Definition two_jobs : TimeoutManager :=
  demo_tm ((demo_state ∅) <| jobs := <["j1" := assign_job "b1" 50 (demo_mjob "j1")]> {[ "j2" := assign_job "b1" 60 (demo_mjob "j2") ]} |>
                          <| bots := {[ "b1" := assign_bot "j2" 60 demo_bot ]} |>).
Lemma cancel_job_witness :
  let '(r, m') := CancelJob no_jitter in_order in_order None "j1" two_jobs in
  r = None ∧ (BotState <$> bots (state m') !! "b1") = Some BotStatusIdle ∧
  jobs (state m') !! "j2" = Some (assign_job "b1" 60 (demo_mjob "j2")).
Proof.
  pose proof (cancel_job no_jitter in_order in_order None "j1" (assign_job "b1" 50 (demo_mjob "j1")) two_jobs) as H.
  destruct (CancelJob no_jitter in_order in_order None "j1" two_jobs) as [r m'].
  destruct H as [_ H].
  - split; [reflexivity|vm_compute; discriminate].
  - intros k j Hk. change (jobs (state two_jobs)) with
      (<["j1" := assign_job "b1" 50 (demo_mjob "j1")]> {[ "j2" := assign_job "b1" 60 (demo_mjob "j2") ]} : gmap string MJob) in Hk.
    apply lookup_insert_Some in Hk as [[<- <-]|[_ Hk]]; [reflexivity|]. apply one_job in Hk as [-> ->]. reflexivity.
  - intros k b Hk. change (bots (state two_jobs)) with ({[ "b1" := assign_bot "j2" 60 demo_bot ]} : gmap string Bot) in Hk. apply lookup_singleton_Some in Hk as [<- <-]. reflexivity.
  - discriminate.
  - reflexivity.
  - intros b Hb. injection Hb as <-. eexists. reflexivity.
  - destruct H as (Hr & _ & _ & n & Hj & _ & bot & _ & Hb & _); [discriminate|discriminate|].
    split; [exact Hr|]. rewrite Hb, Hj. split; reflexivity.
Defined.

Definition demo_request : CreateJobRequest :=
  mkCreateJobRequest "fuzz" "/bin/t" "afl++" 0 (mkJobConfig 0 0 0 "" [] "") "c1" "" "" false 95 false "".
Lemma create_job_witness :
  let '(r, calls, m') := CreateJob no_jitter "j9" true true false demo_request demo_jobs in
  ∃ job, r = inl job ∧ UseCampaignCorpus job = true ∧ jobs (state m') !! "j9" = Some job ∧
    (Job.Priority <$> (match calls with [Enqueue q] => Some q | _ => None end)) = Some PriorityCritical.
Proof.
  pose proof (create_job no_jitter "j9" true true false demo_request demo_jobs (demo_jobs_healthy _)) as H.
  destruct (CreateJob no_jitter "j9" true true false demo_request demo_jobs) as [[r calls] m'] eqn:E.
  destruct H as [_ H].
  destruct H as (job & n & -> & _ & _ & _ & _ & _ & _ & _ & _ & _ & _ & _ & _ & Hj & _).
  - split; [discriminate|]. split; [discriminate|]. apply slice_has_true. reflexivity.
  - exists job. split; [reflexivity|]. rewrite Hj, lookup_insert_eq. injection E as <- <- _.
    split; [reflexivity|]. split; reflexivity.
Defined.

Lemma missing_is_a_database_error_witness :
  ∃ e m', GetJob no_jitter in_order None "j7" demo_jobs = (inr e, m') ∧ errors.GetErrorType e = Some errors.ErrorTypeDatabase.
Proof.
  destruct (missing_is_a_database_error no_jitter in_order in_order None "j7" demo_jobs ltac:(discriminate)) as (_ & H1 & _ & H2).
  destruct (H2 eq_refl eq_refl eq_refl) as (e & m' & E & _). exists e, m'. split; [exact E|]. exact (H1 e m' E).
Defined.
