(* ===== verification/BotPoller.v ===== *)
(** * The bot poller (pkg/master/bot_poller.go)

    The poller asks every bot for its health and its job over HTTP and brings
    the master's view in line.  The replies of the bots are parameters, given
    by the time of the request.  A bot or a job is reached through one pointer,
    the one in the cache of the state: [the_bot] reads its fields as they are at
    that moment, and an assignment to a field is written to the cache before
    the save that follows it.  The polls of one round run one after the other,
    in the order of the listing. *)

From Stdlib Require Import Strings.Byte.
From S2P Require Import Prelude Retry MasterTypes CrashTypes MasterState MasterJobs TimeoutManager Healthy AppErrors BotService CampaignStore MasterCrash MasterRecovery JobService.

Record BackoffConfig := mkBackoffConfig {
  InitialInterval : Duration; MaxInterval : Duration; BackoffMultiplier : float64; BackoffMaxRetries : Z }.
Definition backoffConfig : BackoffConfig := mkBackoffConfig (1 * Second) (60 * Second) (f64_of_Z 2) 5.

Record ExponentialBackoff := mkBackoff {
  interval : Duration; maxInterval : Duration; multiplier : float64; retries : Z; maxRetries : Z; lastAttempt : Time }.
#[export] Instance ExponentialBackoff_eta : Eta ExponentialBackoff := fun b =>
  mkBackoff (interval b) (maxInterval b) (multiplier b) (retries b) (maxRetries b) (lastAttempt b).

Definition newBackoff : ExponentialBackoff :=
  mkBackoff (InitialInterval backoffConfig) (MaxInterval backoffConfig) (BackoffMultiplier backoffConfig) 0
    (BackoffMaxRetries backoffConfig) zero_time.
Definition shouldRetry (now : Time) (b : ExponentialBackoff) : bool :=
  if maxRetries b <=? retries b then false
  else if time_sub now (lastAttempt b) <? interval b then false
  else true.
Definition recordFailure (now : Time) (b : ExponentialBackoff) : ExponentialBackoff :=
  let b := b <| retries := wrap64 (retries b + 1) |> <| lastAttempt := now |> in
  let b := b <| interval := f64_to_int64 (f64_mul (f64_of_Z (interval b)) (multiplier b)) |> in
  if maxInterval b <? interval b then b <| interval := maxInterval b |> else b.
Definition reset (b : ExponentialBackoff) : ExponentialBackoff :=
  b <| retries := 0 |> <| interval := 0 |> <| lastAttempt := zero_time |>.

(** What the bots answer; the fields the poller only logs are left out. *)
Record BotJobStatus := mkBotJobStatus {
  StatusJobID : string; ReportedStatus : string; EndTime : Time; Success : bool; CrashCount : Z }.
Record BotHealthStatus := mkBotHealthStatus { HealthStatus : string; HealthCurrentJob : string }.

Record BotPoller (D : Type) := mkPoller {
  services : TimeoutManager; tables : D; botBackoffs : gmap string ExponentialBackoff }.
Arguments mkPoller {D}. Arguments services {D}. Arguments tables {D}. Arguments botBackoffs {D}.
#[export] Instance BotPoller_eta {D} : Eta (BotPoller D) := fun p => mkPoller (services p) (tables p) (botBackoffs p).

Section poller.
Context {D : Type}.                     (* the crash tables of an SQLite database *)
Variable random : Z → float64.
Variable job_order : nat → list (string * MJob) → list (string * MJob).
Variable bot_order : nat → list (string * Bot) → list (string * Bot).
Variable sqlite_GetJob : option (gmap string entity → string → MJob + goerror).
Variable sqlite_ListJobs : option (gmap string entity → list MJob + goerror).
Variable execute : option UpdateBots.
Variable database_sql : bool.
Variable newID : nat → string.
Variable sqlite_store : option ((string → bytes → D → option goerror * D) * (CrashResult → D → option goerror * D)).
Variable sqlite_GetJobCrashes : option (string → D → list CrashResult + goerror).
Variable iterate : option (string → gmap string entity → list (string * entity)).
(** The replies of the bots, decoded, to the [n]-th request. *)
Variable remote_health : nat → Bot → BotHealthStatus + goerror.
Variable remote_status : nat → Bot → string → BotJobStatus + goerror.
Variable remote_crashes : nat → Bot → string → list CrashResult + goerror.
Implicit Types (p : BotPoller D) (bot : Bot).

Definition on_services {A} (f : TimeoutManager → A * TimeoutManager) p : A * BotPoller D :=
  let '(a, m) := f (services p) in (a, p <| services := m |>).
Definition on_ps {A} (f : PersistentState → A * PersistentState) : BotPoller D → A * BotPoller D := on_services (on_state f).
Definition poll_now p : Time * BotPoller D := on_services tm_now p.
Definition request p : nat := ticks (state (services p)).

(** The bot as its pointer shows it now. *)
Definition the_bot bot p : Bot := default bot (bots (state (services p)) !! BotID bot).
Definition write_bot bot p : BotPoller D :=
  p <| services := (services p) <| state := (state (services p)) <| bots := <[BotID bot := bot]> (bots (state (services p))) |> |> |>.
Definition write_job (jobID : string) (job : MJob) p : BotPoller D :=
  p <| services := (services p) <| state := (state (services p)) <| jobs := <[jobID := job]> (jobs (state (services p))) |> |> |>.
Definition save_bot bot p : option goerror * BotPoller D :=
  let '(r, p) := on_ps (SaveBotWithRetry random bot) (write_bot bot p) in (res_error r, p).
Definition save_job (jobID : string) (job : MJob) p : option goerror * BotPoller D :=
  let '(r, p) := on_ps (SaveJobWithRetry random job) (write_job jobID job p) in (res_error r, p).

(** ** Missing crashes *)

Definition process_crash (existing : list CrashResult) (x : BotPoller D * nat) (crash : CrashResult) : BotPoller D * nat :=
  let '(p, i) := x in
  if existsb (λ e, String.eqb (Hash e) (Hash crash)) existing then (p, Datatypes.S i)
  else
    let '(crash, p) := if CrashTimestamp crash =? zero_time
                       then let '(now, p) := poll_now p in (crash <| CrashTimestamp := now |>, p) else (crash, p) in
    let '(_, (ps, (_, d))) := ProcessCrashResultWithRetry random (newID i) sqlite_store crash (state (services p)) (tables p) in
    (p <| services := (services p) <| state := ps |> |> <| tables := d |>, Datatypes.S i).

Definition fetchMissingCrashes bot (jobStatus : BotJobStatus) p : BotPoller D :=
  match on_ps (λ ps, MasterCrash.GetJobCrashes sqlite_GetJobCrashes iterate (StatusJobID jobStatus) ps (tables p)) p with
  | (inr _, p) => p
  | (inl crashes, p) =>
      if CrashCount jobStatus <=? Z.of_nat (length crashes) then p
      else
        match remote_crashes (request p) (the_bot bot p) (StatusJobID jobStatus) with
        | inr _ => p
        | inl botCrashes => (foldl (process_crash crashes) (p, O) botCrashes).1
        end
  end.

(** ** Updates by what a bot reports *)

Definition complete (jobID botID : string) (success : bool) p : BotPoller D :=
  (on_services (JobService.CompleteJob random bot_order database_sql jobID botID success) p).2.

Definition assigned_to (job : MJob) (botID : string) : bool :=
  match AssignedBot job with Some b => String.eqb b botID | None => false end.

(** The bot has proof that it completed a job that is not assigned to it. *)
Definition reconcile bot (jobStatus : BotJobStatus) (job : MJob) p : BotPoller D :=
  let p := if 0 <? CrashCount jobStatus then fetchMissingCrashes bot jobStatus p else p in
  let '(now, p) := poll_now p in
  let job := default job (jobs (state (services p)) !! StatusJobID jobStatus) in
  let job := job <| JobState := JobStatusCompleted |> <| AssignedBot := Some (BotID bot) |> <| CompletedAt := Some now |> in
  match save_job (StatusJobID jobStatus) job p with
  | (Some _, p) => p
  | (None, p) => (save_bot ((the_bot bot p) <| CurrentJob := None |> <| BotState := BotStatusIdle |>) p).2
  end.

Definition updateJobStatus bot (jobStatus : BotJobStatus) p : BotPoller D :=
  let reported s := String.eqb (ReportedStatus jobStatus) s in
  if negb (reported "completed") && negb (reported "failed") && negb (reported "pending_ack") then p
  else
    match on_services (JobService.GetJob random job_order sqlite_GetJob (StatusJobID jobStatus)) p with
    | (inr _, p) => p
    | (inl job, p) =>
        if String.eqb (JobState job) JobStatusCompleted || String.eqb (JobState job) JobStatusCancelled then p
        else if negb (assigned_to job (BotID bot)) && negb (EndTime jobStatus =? zero_time) && reported "completed"
        then reconcile bot jobStatus job p
        else if reported "pending_ack" then
          let p := if 0 <? CrashCount jobStatus then fetchMissingCrashes bot jobStatus p else p in
          complete (StatusJobID jobStatus) (BotID bot) (Success jobStatus) p
        else
          let p := if reported "completed" && (0 <? CrashCount jobStatus) then fetchMissingCrashes bot jobStatus p else p in
          complete (StatusJobID jobStatus) (BotID bot) (reported "completed" && Success jobStatus) p
    end.

(** ** Failures *)

Definition markBotUnreachable bot p : BotPoller D :=
  match save_bot ((the_bot bot p) <| BotState := BotStatusTimedOut |> <| IsOnline := false |>) p with
  | (Some _, p) => p
  | (None, p) =>
      match CurrentJob (the_bot bot p) with
      | None => p
      | Some jobID =>
          match on_services (JobService.GetJob random job_order sqlite_GetJob jobID) p with
          | (inr _, p) => p
          | (inl job, p) =>
              let '(_, p) := save_job jobID (job <| JobState := JobStatusFailed |>) p in
              (save_bot ((the_bot bot p) <| CurrentJob := None |>) p).2
          end
      end
  end.

Definition handlePollError bot (backoff : ExponentialBackoff) p : BotPoller D :=
  let '(now, p) := poll_now p in
  let backoff := recordFailure now backoff in
  let p := p <| botBackoffs := <[BotID bot := backoff]> (botBackoffs p) |> in
  if maxRetries backoff <=? retries backoff then markBotUnreachable bot p else p.

(** ** Reconnection *)

Definition reconcileJobStatus bot (jobID : string) p : BotPoller D :=
  match on_services (JobService.GetJob random job_order sqlite_GetJob jobID) p with
  | (inr _, p) => p
  | (inl job, p) =>
      if String.eqb (JobState job) JobStatusFailed || String.eqb (JobState job) JobStatusPending then
        match remote_status (request p) (the_bot bot p) jobID with
        | inr _ => p
        | inl jobStatus => updateJobStatus bot jobStatus p
        end
      else p
  end.

Definition check_errored bot p (job : MJob) : BotPoller D :=
  if assigned_to job (BotID bot) then
    match remote_status (request p) (the_bot bot p) (JobID job) with
    | inr _ => p
    | inl jobStatus => if String.eqb (ReportedStatus jobStatus) "completed" then updateJobStatus bot jobStatus p else p
    end
  else p.
Definition checkErroredJobs bot p : BotPoller D :=
  match on_services (JobService.ListJobs job_order sqlite_ListJobs (mkJobFilter (Some JobStatusFailed) None 0 0)) p with
  | (Ok jobs, p) => foldl (check_errored bot) p jobs
  | (_, p) => p
  end.

Definition handleBotReconnection bot (health : BotHealthStatus) p : BotPoller D :=
  let p := p <| botBackoffs := alter reset (BotID bot) (botBackoffs p) |> in
  let p := if negb (String.eqb (HealthCurrentJob health) "") then reconcileJobStatus bot (HealthCurrentJob health) p else p in
  checkErroredJobs bot p.

(** ** Polling *)

Definition reported_state (health : BotHealthStatus) : BotStatus :=
  if String.eqb (HealthStatus health) "unhealthy" then BotStatusFailed
  else if negb (String.eqb (HealthCurrentJob health) "") then BotStatusBusy
  else BotStatusIdle.

(** The current job is passed as a pointer to the reported text, also when that
    is empty. *)
Definition updateBotStatus bot (health : BotHealthStatus) p : BotPoller D :=
  let wasTimedOut := String.eqb (BotState (the_bot bot p)) BotStatusTimedOut in
  match on_services (BotService.UpdateHeartbeat random bot_order execute None (BotID bot) (reported_state health)
                       (Some (HealthCurrentJob health))) p with
  | (Some _, p) => p
  | (None, p) => if wasTimedOut then handleBotReconnection bot health p else p
  end.

Definition finished (job : MJob) : bool :=
  String.eqb (JobState job) JobStatusCompleted || String.eqb (JobState job) JobStatusFailed
  || String.eqb (JobState job) JobStatusCancelled.

Definition poll_job bot (jobID : string) p : BotPoller D :=
  match remote_status (request p) (the_bot bot p) jobID with
  | inr _ => p
  | inl jobStatus => updateJobStatus bot jobStatus p
  end.

Definition pollBot bot p : BotPoller D :=
  let backoff := default newBackoff (botBackoffs p !! BotID bot) in
  let p := p <| botBackoffs := <[BotID bot := backoff]> (botBackoffs p) |> in
  let '(now, p) := if maxRetries backoff <=? retries backoff then (zero_time, p) else poll_now p in
  if negb (shouldRetry now backoff) then p
  else
    match remote_health (request p) (the_bot bot p) with
    | inr _ => handlePollError bot backoff p
    | inl health =>
        let p := p <| botBackoffs := <[BotID bot := reset backoff]> (botBackoffs p) |> in
        let p := updateBotStatus bot health p in
        if negb (String.eqb (HealthCurrentJob health) "") then poll_job bot (HealthCurrentJob health) p
        else
          match CurrentJob (the_bot bot p) with
          | None => p
          | Some jobID =>
              match on_services (JobService.GetJob random job_order sqlite_GetJob jobID) p with
              | (inl job, p) =>
                  if finished job
                  then (save_bot ((the_bot bot p) <| CurrentJob := None |> <| BotState := BotStatusIdle |>) p).2
                  else poll_job bot jobID p
              | (inr _, p) => poll_job bot jobID p
              end
          end
    end.

Definition pollAllBots p : BotPoller D :=
  foldl (λ p bot, if String.eqb (APIEndpoint bot) "" then p else pollBot bot p) p
    (BotService.ListBots bot_order None (services p)).

(** ** The backoff *)

Section backoff.

(** The backoff after failures at the times [ts]. *)
Definition failures (ts : list Time) (b : ExponentialBackoff) : ExponentialBackoff := foldl (λ b t, recordFailure t b) b ts.

Definition next_interval (b : ExponentialBackoff) : Duration :=
  Z.min (maxInterval b) (f64_to_int64 (f64_mul (f64_of_Z (interval b)) (multiplier b))).
Lemma recordFailure_fields t b :
  let b' := recordFailure t b in
  interval b' = next_interval b ∧ retries b' = wrap64 (retries b + 1) ∧ lastAttempt b' = t ∧
  maxInterval b' = maxInterval b ∧ multiplier b' = multiplier b ∧ maxRetries b' = maxRetries b.
Proof.
  destruct b as [i mx mul r mr l]. cbv -[Z.ltb Z.min f64_to_int64 f64_mul f64_of_Z wrap64 Z.add].
  destruct (Z.ltb_spec mx (f64_to_int64 (f64_mul (f64_of_Z i) mul))); split_and!; try done;
    [by rewrite Z.min_l by lia|by rewrite Z.min_r by lia].
Qed.

Lemma last_default (l : list Time) x d d' : List.last (x :: l) d = List.last (x :: l) d'.
Proof. revert x. induction l as [|y l IH]; intros x; [done|apply (IH y)]. Qed.

Lemma failures_frame ts b :
  let b' := failures ts b in
  maxInterval b' = maxInterval b ∧ multiplier b' = multiplier b ∧ maxRetries b' = maxRetries b ∧
  (0 ≤ retries b → retries b + Z.of_nat (length ts) ≤ maxInt64 → retries b' = retries b + Z.of_nat (length ts)) ∧
  lastAttempt b' = List.last ts (lastAttempt b).
Proof.
  revert b. induction ts as [|t ts IH]; intros b; [cbv zeta; simpl; split_and!; try done; lia|].
  destruct (recordFailure_fields t b) as (_ & Hr & Hl & Hmax & Hmul & Hm). cbv zeta in Hr, Hl, Hmax, Hmul, Hm.
  destruct (IH (recordFailure t b)) as (H1 & H2 & H3 & H4 & H5). cbv zeta.
  change (failures (t :: ts) b) with (failures ts (recordFailure t b)). split_and!; try congruence.
  - intros H0 Hlen. cbn [length] in *. rewrite H4; rewrite Hr, wrap64_id; unfold in_int64, minInt64, maxInt64 in *; lia.
  - rewrite H5, Hl. destruct ts as [|x ts]; [done|]. change (List.last (t :: x :: ts) (lastAttempt b)) with (List.last (x :: ts) (lastAttempt b)). apply last_default.
Qed.

(** The intervals of a new backoff: doubled from one second up to the cap. *)
Lemma fresh_interval k b :
  maxInterval b = 60 * Second → multiplier b = f64_of_Z 2 → interval b = Z.min (60 * Second) (2 ^ Z.of_nat k * Second) →
  next_interval b = Z.min (60 * Second) (2 ^ Z.of_nat (Datatypes.S k) * Second).
Proof.
  intros Hmax Hmul Hi. unfold next_interval. rewrite Hmax, Hmul, Hi.
  destruct (decide (k < 6)%nat) as [Hk|Hk].
  - do 6 (destruct k as [|k]; [vm_compute; reflexivity|]). lia.
  - assert (64 ≤ 2 ^ Z.of_nat k) as H by (change 64 with (2 ^ 6); apply Z.pow_le_mono_r; lia).
    rewrite Nat2Z.inj_succ, Z.pow_succ_r by lia. rewrite (Z.min_l (60 * Second) (2 ^ Z.of_nat k * Second)) by (unfold Second; lia).
    rewrite (Z.min_l (60 * Second) (2 * 2 ^ Z.of_nat k * Second)) by (unfold Second; lia). vm_compute. reflexivity.
Qed.

(** The schedule of the poller.  From the start, the interval after [k]
    failures is [2^k] seconds, at most 60; but a success resets it to zero, and
    from then on every interval is zero, so that the failures that follow are
    retried at once, until after [maxRetries] of them there is no retry at all. *)
Theorem backoff_schedule :
  (∀ ts, interval (failures ts newBackoff) = Z.min (60 * Second) (2 ^ Z.of_nat (length ts) * Second)) ∧
  (∀ before ts now, let b := failures ts (reset (failures before newBackoff)) in
     interval b = 0 ∧
     (0 ≤ time_sub now (List.last ts zero_time) → Z.of_nat (length ts) ≤ maxInt64 →
      shouldRetry now b = (Z.of_nat (length ts) <? 5))).
Proof.
  split.
  - intros ts. cut (∀ k b, maxInterval b = 60 * Second → multiplier b = f64_of_Z 2 →
      interval b = Z.min (60 * Second) (2 ^ Z.of_nat k * Second) →
      interval (failures ts b) = Z.min (60 * Second) (2 ^ Z.of_nat (k + length ts) * Second)).
    { intros H. by apply (H O newBackoff). }
    induction ts as [|t ts IH]; intros k b Hmax Hmul Hi; [by rewrite Nat.add_0_r|].
    destruct (recordFailure_fields t b) as (Hn & _ & _ & Hmax' & Hmul' & _).
    change (failures (t :: ts) b) with (failures ts (recordFailure t b)). cbn [length]. rewrite Nat.add_succ_r, <- Nat.add_succ_l.
    apply IH; [by rewrite Hmax'|by rewrite Hmul'|]. rewrite Hn. by apply fresh_interval.
  - intros before ts now b. destruct (failures_frame before newBackoff) as (Hmax & Hmul & Hm & _).
    set (b0 := reset (failures before newBackoff)) in *.
    destruct (failures_frame ts b0) as (_ & _ & Hm' & Hr & Hl). fold b in Hm', Hr, Hl.
    assert (interval b = 0) as Hi.
    { subst b. assert (interval b0 = 0 ∧ maxInterval b0 = 60 * Second ∧ multiplier b0 = f64_of_Z 2) as H
        by (by split_and!; [|exact Hmax|exact Hmul]). clear -H. revert H. generalize b0. clear b0.
      induction ts as [|t ts IH]; intros b (H1 & H2 & H3); [done|].
      destruct (recordFailure_fields t b) as (Hn & _ & _ & Hmax' & Hmul' & _).
      change (failures (t :: ts) b) with (failures ts (recordFailure t b)). apply IH. split_and!.
      - rewrite Hn. unfold next_interval. rewrite H1, H2, H3. vm_compute. reflexivity.
      - by rewrite Hmax'.
      - by rewrite Hmul'. }
    split; [done|]. intros Hnow Hlen. unfold shouldRetry. rewrite Hi, Hl. change (lastAttempt b0) with zero_time.
    rewrite Hr by (change (retries b0) with 0; lia). rewrite Hm'. change (maxRetries b0) with (maxRetries (failures before newBackoff)).
    rewrite Hm. change (maxRetries newBackoff) with 5. change (retries b0) with 0. rewrite (proj2 (Z.ltb_ge _ 0)) by lia.
    destruct (Z.leb_spec 5 (0 + Z.of_nat (length ts))), (Z.ltb_spec (Z.of_nat (length ts)) 5); try done; lia.
Qed.

End backoff.

(** ** The frame of the backoffs *)

Lemma on_services_backoffs {A} (f : TimeoutManager → A * TimeoutManager) p : botBackoffs (on_services f p).2 = botBackoffs p.
Proof. unfold on_services. by destruct (f (services p)). Qed.
Lemma on_services_backoffs_eq {A} (f : TimeoutManager → A * TimeoutManager) p a p' :
  on_services f p = (a, p') → botBackoffs p' = botBackoffs p.
Proof. intros H. pose proof (on_services_backoffs f p) as E. by rewrite H in E. Qed.
Lemma save_bot_backoffs bot p : botBackoffs (save_bot bot p).2 = botBackoffs p.
Proof. unfold save_bot, on_ps. destruct (on_services _ _) eqn:E. by apply on_services_backoffs_eq in E. Qed.
Lemma save_bot_backoffs_eq bot p e p' : save_bot bot p = (e, p') → botBackoffs p' = botBackoffs p.
Proof. intros H. pose proof (save_bot_backoffs bot p) as E. by rewrite H in E. Qed.
Lemma save_job_backoffs_eq jobID job p e p' : save_job jobID job p = (e, p') → botBackoffs p' = botBackoffs p.
Proof. unfold save_job, on_ps. destruct (on_services _ _) eqn:E. intros [= _ <-]. by apply on_services_backoffs_eq in E. Qed.

(** Steps through the branches, with the frame of every operation. *)
Ltac backoffs_frame :=
  repeat match goal with
  | H : on_services _ _ = (_, _) |- _ => apply on_services_backoffs_eq in H
  | H : save_bot _ _ = (_, _) |- _ => apply save_bot_backoffs_eq in H
  | H : save_job _ _ _ = (_, _) |- _ => apply save_job_backoffs_eq in H
  | |- context [match ?x with _ => _ end] => destruct x eqn:?
  | |- context [botBackoffs (save_bot _ _).2] => rewrite save_bot_backoffs
  end; try congruence.

Lemma process_crash_backoffs existing x crash : botBackoffs (process_crash existing x crash).1 = botBackoffs x.1.
Proof.
  destruct x as [p i]. unfold process_crash, poll_now. destruct (existsb _ _); [done|].
  destruct (CrashTimestamp crash =? zero_time); [destruct (on_services tm_now p) as [now p'] eqn:E|];
    destruct (ProcessCrashResultWithRetry _ _ _ _ _ _) as [? [? [? ?]]]; [|done].
  by apply on_services_backoffs_eq in E.
Qed.
Lemma fetchMissingCrashes_backoffs bot st p : botBackoffs (fetchMissingCrashes bot st p) = botBackoffs p.
Proof.
  unfold fetchMissingCrashes, on_ps. destruct (on_services _ p) as [[crashes|e] p'] eqn:E; apply on_services_backoffs_eq in E; [|done].
  destruct (_ <=? _); [done|]. destruct (remote_crashes _ _ _) as [l|]; [|done]. rewrite <- E.
  change (botBackoffs p') with (botBackoffs (p', O).1). generalize (p', O). clear.
  induction l as [|c l IH]; intros x; [done|]. simpl. by rewrite IH, process_crash_backoffs.
Qed.
Lemma pre_fetch_backoffs (b : bool) bot st p : botBackoffs (if b then fetchMissingCrashes bot st p else p) = botBackoffs p.
Proof. destruct b; [apply fetchMissingCrashes_backoffs|done]. Qed.
Lemma reconcile_backoffs bot st job p : botBackoffs (reconcile bot st job p) = botBackoffs p.
Proof.
  unfold reconcile, poll_now. rewrite <- (pre_fetch_backoffs (0 <? CrashCount st) bot st p). generalize (if 0 <? CrashCount st then fetchMissingCrashes bot st p else p). intros q.
  backoffs_frame.
Qed.
Lemma updateJobStatus_backoffs bot st p : botBackoffs (updateJobStatus bot st p) = botBackoffs p.
Proof.
  unfold updateJobStatus, complete. cbv zeta. destruct (_ && _); [done|].
  destruct (on_services _ p) as [[job|e] p'] eqn:E; apply on_services_backoffs_eq in E; [|done]. rewrite <- E.
  destruct (_ || _); [done|]. destruct (_ && _ && _); [apply reconcile_backoffs|].
  destruct (String.eqb _ _); rewrite on_services_backoffs; destruct (_ : bool); try done; apply fetchMissingCrashes_backoffs.
Qed.
Lemma markBotUnreachable_backoffs bot p : botBackoffs (markBotUnreachable bot p) = botBackoffs p.
Proof. unfold markBotUnreachable. backoffs_frame. Qed.
Lemma reconcileJobStatus_backoffs bot jobID p : botBackoffs (reconcileJobStatus bot jobID p) = botBackoffs p.
Proof.
  unfold reconcileJobStatus. destruct (on_services _ p) as [[job|e] p'] eqn:E; apply on_services_backoffs_eq in E; [|done].
  rewrite <- E. destruct (_ || _); [|done]. destruct (remote_status _ _ _); [apply updateJobStatus_backoffs|done].
Qed.
Lemma checkErroredJobs_backoffs bot p : botBackoffs (checkErroredJobs bot p) = botBackoffs p.
Proof.
  unfold checkErroredJobs. destruct (on_services _ p) as [r p'] eqn:E; apply on_services_backoffs_eq in E.
  rewrite <- E. destruct r as [l| |]; try done. clear. revert p'. induction l as [|j l IH]; intros p; [done|]. simpl. rewrite IH.
  unfold check_errored. destruct (assigned_to _ _); [|done]. destruct (remote_status _ _ _); [|done].
  destruct (String.eqb _ _); [apply updateJobStatus_backoffs|done].
Qed.

Lemma handleBotReconnection_backoffs bot health p :
  botBackoffs (handleBotReconnection bot health p) = alter reset (BotID bot) (botBackoffs p).
Proof.
  unfold handleBotReconnection. rewrite checkErroredJobs_backoffs. destruct (negb _); [by rewrite reconcileJobStatus_backoffs|done].
Qed.
Lemma updateBotStatus_backoffs bot health p id :
  BotID bot ≠ id → botBackoffs (updateBotStatus bot health p) !! id = botBackoffs p !! id.
Proof.
  intros Hid. unfold updateBotStatus. destruct (on_services _ p) as [[e|] p'] eqn:E; apply on_services_backoffs_eq in E; [by rewrite E|].
  destruct (String.eqb _ _); [|by rewrite E]. rewrite handleBotReconnection_backoffs, lookup_alter_ne by done. by rewrite E.
Qed.
Lemma poll_job_backoffs bot jobID p : botBackoffs (poll_job bot jobID p) = botBackoffs p.
Proof. unfold poll_job. destruct (remote_status _ _ _); [apply updateJobStatus_backoffs|done]. Qed.

Lemma pollBot_backoffs bot p id : BotID bot ≠ id → botBackoffs (pollBot bot p) !! id = botBackoffs p !! id.
Proof.
  intros Hid. unfold pollBot. cbv zeta. set (b := default newBackoff _).
  set (q := p <| botBackoffs := <[BotID bot := b]> (botBackoffs p) |>).
  assert (∀ p', botBackoffs p' = botBackoffs q → botBackoffs p' !! id = botBackoffs p !! id) as K
    by (intros p' ->; apply lookup_insert_ne; done).
  destruct (if maxRetries b <=? retries b then _ else _) as [now p1] eqn:E.
  assert (botBackoffs p1 = botBackoffs q) as H1
    by (destruct (_ <=? _); [congruence|unfold poll_now in E; by apply on_services_backoffs_eq in E]).
  destruct (negb (shouldRetry now b)); [by apply K|]. destruct (remote_health _ _) as [health|e].
  - set (p2 := p1 <| botBackoffs := <[BotID bot := reset b]> (botBackoffs p1) |>).
    assert (botBackoffs (updateBotStatus bot health p2) !! id = botBackoffs p !! id) as H2.
    { rewrite updateBotStatus_backoffs by done. unfold p2. cbn [botBackoffs set_field]. simpl. rewrite lookup_insert_ne by done. by apply K. }
    destruct (negb _); [by rewrite poll_job_backoffs|]. destruct (CurrentJob _) as [jobID|]; [|done].
    destruct (on_services _ _) as [[job|e] p3] eqn:E3; apply on_services_backoffs_eq in E3.
    + destruct (finished job); [rewrite save_bot_backoffs|rewrite poll_job_backoffs]; by rewrite E3.
    + rewrite poll_job_backoffs. by rewrite E3.
  - unfold handlePollError, poll_now. destruct (on_services _ p1) as [t p2] eqn:E2. apply on_services_backoffs_eq in E2.
    cbv zeta. set (p3 := p2 <| botBackoffs := _ |>).
    assert (botBackoffs p3 !! id = botBackoffs p !! id) as H3
      by (unfold p3; simpl; rewrite lookup_insert_ne by done; rewrite E2; by apply K).
    clear E. destruct (_ <=? _); [by rewrite markBotUnreachable_backoffs|done].
Qed.

(** ** On a healthy database *)

Definition with_state (f : PersistentState → PersistentState) p : BotPoller D :=
  p <| services := (services p) <| state := f (state (services p)) |> |>.

Lemma bot_saved_written bot ps : bot_saved bot (ps <| bots := <[BotID bot := bot]> (bots ps) |>) = bot_saved bot ps.
Proof.
  unfold bot_saved. change (bots (ps <| bots := <[BotID bot := bot]> (bots ps) |>)) with (<[BotID bot := bot]> (bots ps)).
  by rewrite insert_insert_eq.
Qed.
Lemma job_saved_written job ps : job_saved job (ps <| jobs := <[JobID job := job]> (jobs ps) |>) = job_saved job ps.
Proof.
  unfold job_saved. change (jobs (ps <| jobs := <[JobID job := job]> (jobs ps) |>)) with (<[JobID job := job]> (jobs ps)).
  by rewrite insert_insert_eq.
Qed.
Lemma save_bot_healthy bot p : db_healthy (state (services p)) → save_bot bot p = (None, with_state (bot_saved bot) p).
Proof.
  intros H. unfold save_bot, on_ps, on_services, on_state. rewrite SaveBot_healthy by exact H. cbn [res_error].
  change (state (services (write_bot bot p))) with
    ((state (services p)) <| bots := <[BotID bot := bot]> (bots (state (services p))) |>). by rewrite bot_saved_written.
Qed.
Lemma save_job_healthy jobID job p : db_healthy (state (services p)) → JobID job = jobID →
  save_job jobID job p = (None, with_state (job_saved job) p).
Proof.
  intros H <-. unfold save_job, on_ps, on_services, on_state. rewrite SaveJob_healthy by exact H. cbn [res_error].
  change (state (services (write_job (JobID job) job p))) with
    ((state (services p)) <| jobs := <[JobID job := job]> (jobs (state (services p))) |>). by rewrite job_saved_written.
Qed.
Lemma get_job_cached jobID job p : jobID ≠ "" → jobs (state (services p)) !! jobID = Some job →
  on_services (JobService.GetJob random job_order sqlite_GetJob jobID) p =
    (inl job, with_state (touch ("job:" +:+ jobID)) p).
Proof.
  intros Hid Hj. unfold on_services, JobService.GetJob. destruct (String.eqb_spec jobID "") as [|_]; [done|].
  unfold on_state, MasterState.GetJob. by rewrite Hj.
Qed.


(** A bot that misses [maxRetries] polls is marked unreachable: it is timed
    out and offline, and its job, if it had one, is failed; but the job still names
    the bot, and has no time of completion. *)
Theorem mark_unreachable bot jobID job p :
  db_healthy (state (services p)) → bots (state (services p)) !! BotID bot = Some bot →
  CurrentJob bot = Some jobID → jobID ≠ "" → jobs (state (services p)) !! jobID = Some job → JobID job = jobID →
  let p' := markBotUnreachable bot p in
  let gone := bot <| BotState := BotStatusTimedOut |> <| IsOnline := false |> <| CurrentJob := None |> in
  let failed := job <| JobState := JobStatusFailed |> in
  bots (state (services p')) = <[BotID bot := gone]> (bots (state (services p))) ∧
  jobs (state (services p')) = <[jobID := failed]> (jobs (state (services p))) ∧
  data (state (services p')) !! ("bot:" +:+ BotID bot) = Some (EBot gone) ∧
  data (state (services p')) !! ("job:" +:+ jobID) = Some (EJob failed) ∧
  AssignedBot failed = AssignedBot job ∧ CompletedAt failed = CompletedAt job ∧
  botTimeouts (services p') = botTimeouts (services p) ∧ jobTimeouts (services p') = jobTimeouts (services p).
Proof.
  intros Hm Hb Hc Hid Hj Hjid p'. subst p'. unfold markBotUnreachable.
  assert (the_bot bot p = bot) as -> by (unfold the_bot; by rewrite Hb).
  set (b1 := bot <| BotState := BotStatusTimedOut |> <| IsOnline := false |>).
  rewrite save_bot_healthy by exact Hm. cbv beta iota. set (p1 := with_state (bot_saved b1) p).
  assert (the_bot bot p1 = b1) as -> by (unfold the_bot; change (bots (state (services p1))) with (<[BotID bot := b1]> (bots (state (services p)))); by rewrite lookup_insert_eq).
  change (CurrentJob b1) with (CurrentJob bot). rewrite Hc. rewrite (get_job_cached jobID job p1 Hid Hj).
  set (failed := job <| JobState := JobStatusFailed |>). set (p2 := with_state (touch _) p1).
  rewrite (save_job_healthy jobID failed p2) by done. cbv beta iota. set (p3 := with_state (job_saved failed) p2).
  rewrite save_bot_healthy by exact Hm. cbn [snd].
  assert (the_bot bot p3 = b1) as -> by (unfold the_bot; change (bots (state (services p3))) with (<[BotID bot := b1]> (bots (state (services p)))); by rewrite lookup_insert_eq).
  set (gone := b1 <| CurrentJob := None |>). cbv zeta.
  change (bots (state (services (with_state (bot_saved gone) p3)))) with (<[BotID bot := gone]> (<[BotID bot := b1]> (bots (state (services p))))).
  change (jobs (state (services (with_state (bot_saved gone) p3)))) with (<[JobID job := failed]> (jobs (state (services p)))).
  change (data (state (services (with_state (bot_saved gone) p3)))) with
    (<["bot:" +:+ BotID bot := EBot gone]> (<["job:" +:+ JobID job := EJob failed]> (data (state (services p1))))).
  rewrite insert_insert_eq, Hjid. split_and!; try done; [by rewrite lookup_insert_eq|].
  rewrite lookup_insert_ne by done. by rewrite lookup_insert_eq.
Qed.

(** A bot that missed [maxRetries] polls is never asked again: a poll of it
    does nothing, and no number of rounds over all bots changes its backoff, so the
    reconnection that is handled after an answer of the bot is never reached. *)
Theorem unreachable_for_good bot b p :
  botBackoffs p !! BotID bot = Some b → maxRetries b ≤ retries b →
  pollBot bot p = p ∧ ∀ n, botBackoffs (Nat.iter n pollAllBots p) !! BotID bot = Some b.
Proof.
  intros Hb Hr. assert (∀ bot' p', BotID bot' = BotID bot → botBackoffs p' !! BotID bot = Some b → pollBot bot' p' = p') as Hid.
  { intros bot' p' E Hb'. unfold pollBot. rewrite E, Hb'. cbn [default from_option id]. rewrite insert_id by done.
    rewrite (proj2 (Z.leb_le _ _) Hr). unfold shouldRetry. rewrite (proj2 (Z.leb_le _ _) Hr). by destruct p'. }
  split; [by apply Hid|]. induction n as [|n IH]; [done|]. simpl. revert IH. generalize (Nat.iter n pollAllBots p).
  intros q. unfold pollAllBots. generalize (BotService.ListBots bot_order None (services q)). intros l. revert q.
  induction l as [|bot' l IH]; intros q Hq; [done|]. simpl. apply IH. destruct (String.eqb _ _); [done|].
  destruct (decide (BotID bot' = BotID bot)) as [E|E]; [by rewrite Hid|by rewrite pollBot_backoffs].
Qed.

(** The first steps of a poll that is due and answered: the heartbeat. *)
Lemma poll_heartbeat bot health cached p :
  db_healthy (state (services p)) → BotID bot ≠ "" → 0 < BotHeartbeat (services p) →
  bots (state (services p)) !! BotID bot = Some cached → BotID cached = BotID bot → BotState cached ≠ BotStatusTimedOut →
  (∀ update, execute = Some update → update_law update ∧ ∃ row, data (state (services p)) !! ("bot:" +:+ BotID bot) = Some (EBot row)) →
  ∃ now timeout p', updateBotStatus bot health p = p' ∧
    bots (state (services p')) = <[BotID bot := heartbeat_row now timeout (reported_state health) (Some (HealthCurrentJob health)) cached]> (bots (state (services p))) ∧
    jobs (state (services p')) = jobs (state (services p)) ∧ jobTimeouts (services p') = jobTimeouts (services p) ∧ db_healthy (state (services p')).
Proof.
  intros Hm Hid Hh Hb Hcid Hs Hex.
  destruct (heartbeat_accepted random bot_order execute (BotID bot) (reported_state health) (Some (HealthCurrentJob health)) cached (services p) Hm Hid Hh Hb Hcid Hex)
    as (now & timeout & m' & E & Hbots & Hjobs & Hjt & Hm').
  exists now, timeout, (p <| services := m' |>). split; [|by split_and!].
  unfold updateBotStatus, on_services. rewrite E. cbv zeta. unfold the_bot. rewrite Hb. cbn [default from_option id].
  destruct (String.eqb_spec (BotState cached) BotStatusTimedOut); done.
Qed.

(** A poll that is due and answered, up to the heartbeat. *)
Lemma poll_answered bot health b p :
  default newBackoff (botBackoffs p !! BotID bot) = b →
  shouldRetry (clock (state (services p)) (ticks (state (services p)))) b = true →
  (∀ n, remote_health n (the_bot bot p) = inl health) →
  ∃ p1, services p1 = (services p) <| state := (time_now (state (services p))).2 |> ∧
    pollBot bot p =
      (let p := updateBotStatus bot health p1 in
       if negb (String.eqb (HealthCurrentJob health) "") then poll_job bot (HealthCurrentJob health) p
       else
         match CurrentJob (the_bot bot p) with
         | None => p
         | Some jobID =>
             match on_services (JobService.GetJob random job_order sqlite_GetJob jobID) p with
             | (inl job, p) =>
                 if finished job
                 then (save_bot ((the_bot bot p) <| CurrentJob := None |> <| BotState := BotStatusIdle |>) p).2
                 else poll_job bot jobID p
             | (inr _, p) => poll_job bot jobID p
             end
         end).
Proof.
  intros Hb Hr Hh. unfold pollBot. rewrite Hb. cbv zeta. unfold shouldRetry in Hr |- *. destruct (maxRetries b <=? retries b); [done|].
  unfold poll_now, on_services at 1, tm_now, time_now. cbv beta iota zeta.
  match goal with |- context [time_sub ?t (lastAttempt b)] => change t with (clock (state (services p)) (ticks (state (services p)))) end.
  destruct (_ <? interval b); [done|]. cbn [negb].
  match goal with |- context [remote_health ?n ?x] => change x with (the_bot bot p); rewrite Hh end. cbv beta iota.
  match goal with |- context [updateBotStatus bot health ?q] => exists q end. split; [reflexivity|reflexivity].
Qed.


(** A bot that reports no job while the master has it working on one loses the
    reference to that job: it is overwritten by the empty text that the bot
    reported, under which the poller then looks in vain, so that the job stays
    assigned to the bot and running for the master, with its deadline as the only
    way out. *)
Theorem idle_report_loses_job bot health cached jobID b p :
  db_healthy (state (services p)) → BotID bot ≠ "" → 0 < BotHeartbeat (services p) →
  bots (state (services p)) !! BotID bot = Some cached → BotID cached = BotID bot → BotState cached ≠ BotStatusTimedOut →
  (∀ update, execute = Some update → update_law update ∧ ∃ row, data (state (services p)) !! ("bot:" +:+ BotID bot) = Some (EBot row)) →
  default newBackoff (botBackoffs p !! BotID bot) = b →
  shouldRetry (clock (state (services p)) (ticks (state (services p)))) b = true →
  (∀ n b', BotID b' = BotID bot → remote_health n b' = inl health) →
  (∀ n b', BotID b' = BotID bot → ∃ e, remote_status n b' "" = inr e) →
  HealthCurrentJob health = "" → HealthStatus health ≠ "unhealthy" → CurrentJob cached = Some jobID →
  let p' := pollBot bot p in
  jobs (state (services p')) = jobs (state (services p)) ∧ jobTimeouts (services p') = jobTimeouts (services p) ∧
  ∃ cached', bots (state (services p')) = <[BotID bot := cached']> (bots (state (services p))) ∧
    CurrentJob cached' = Some "" ∧ BotState cached' = BotStatusIdle ∧ IsOnline cached' = true.
Proof.
  intros Hm Hid Hh Hb Hcid Hs Hex Hback Hr Hhealth Hst Hj0 Hhs Hc p'. subst p'.
  destruct (poll_answered bot health b p Hback Hr) as (p1 & E1 & ->); [intros n; apply Hhealth; unfold the_bot; by rewrite Hb|].
  destruct (poll_heartbeat bot health cached p1) as (now & timeout & p2 & -> & Hb2 & Hj2 & Ht2 & Hm2); rewrite ?E1; try done.
  cbv zeta. rewrite Hj0, String.eqb_refl. cbn [negb]. rewrite E1 in Hb2, Hj2, Ht2.
  assert (the_bot bot p2 = heartbeat_row now timeout (reported_state health) (Some (HealthCurrentJob health)) cached) as Hbot
    by (unfold the_bot; rewrite Hb2, lookup_insert_eq; done).
  rewrite Hbot. change (CurrentJob (heartbeat_row _ _ _ _ _)) with (Some (HealthCurrentJob health)). rewrite Hj0. cbv iota.
  unfold on_services, JobService.GetJob. cbn [String.eqb]. cbv beta iota. unfold poll_job.
  match goal with |- context [remote_status ?n ?x ""] => destruct (Hst n x) as [e ->] end.
  { change (BotID (the_bot bot p2) = BotID bot). by rewrite Hbot. }
  split; [exact Hj2|]. split; [exact Ht2|]. eexists. split; [exact Hb2|]. cbn. rewrite Hj0. split_and!; try done.
  unfold reported_state. rewrite Hj0. destruct (String.eqb_spec (HealthStatus health) "unhealthy"); done.
Qed.

End poller.

(** ** Witnesses *)

Definition demo_poller (backoff : ExponentialBackoff) (bot : Bot) (js : gmap string MJob) : BotPoller unit :=
  mkPoller (demo_tm ((demo_state js) <| bots := {[ "b1" := bot ]} |>)) tt {[ "b1" := backoff ]}.
Definition demo_poll (health : BotHealthStatus) (status : nat → Bot → string → BotJobStatus + goerror) bot :=
  pollBot (D := unit) no_jitter in_order in_order None None None false (λ _, "c") None None None
    (λ _ _, inl health) status (λ _ _ _, inl []) bot.
Definition busy_bot : Bot := demo_bot <| BotState := BotStatusBusy |> <| CurrentJob := Some "j1" |>.
Definition its_job : MJob := (demo_mjob "j1") <| JobState := JobStatusRunning |> <| AssignedBot := Some "b1" |>.

Lemma backoff_schedule_witness :
  interval (failures [8; 9] (reset (failures [7] newBackoff))) = 0 ∧
  shouldRetry 10 (failures [8; 9] (reset (failures [7] newBackoff))) = true.
Proof.
  destruct (proj2 backoff_schedule [7] [8; 9] 10) as [H1 H2]. split; [exact H1|].
  rewrite H2; [reflexivity|vm_compute; discriminate|vm_compute; discriminate].
Defined.

Lemma mark_unreachable_witness :
  let p' := markBotUnreachable no_jitter in_order None busy_bot (demo_poller newBackoff busy_bot {[ "j1" := its_job ]}) in
  (JobState <$> jobs (state (services p')) !! "j1") = Some JobStatusFailed ∧
  (AssignedBot <$> jobs (state (services p')) !! "j1") = Some (Some "b1").
Proof.
  destruct (mark_unreachable no_jitter in_order None busy_bot "j1" its_job (demo_poller newBackoff busy_bot {[ "j1" := its_job ]}))
    as (_ & Hj & _); [split; [reflexivity|vm_compute; discriminate]|reflexivity|reflexivity|discriminate|reflexivity|reflexivity|].
  cbv zeta. rewrite Hj. split; reflexivity.
Defined.

Lemma unreachable_for_good_witness :
  let dead := failures [1; 2; 3; 4; 5] newBackoff in
  let p := demo_poller dead busy_bot ∅ in
  demo_poll (mkBotHealthStatus "healthy" "") (λ _ _ _, inr (ErrNew "404")) busy_bot p = p.
Proof.
  intros dead p. refine (proj1 (unreachable_for_good _ _ _ _ _ _ _ _ _ _ _ _ _ _ busy_bot dead p _ _)); [reflexivity|].
  vm_compute. discriminate.
Defined.


Lemma idle_report_loses_job_witness :
  let p := demo_poller (reset newBackoff) busy_bot {[ "j1" := its_job ]} in
  let p' := demo_poll (mkBotHealthStatus "healthy" "") (λ _ _ _, inr (ErrNew "404")) busy_bot p in
  (AssignedBot <$> jobs (state (services p')) !! "j1") = Some (Some "b1") ∧
  (CurrentJob <$> bots (state (services p')) !! "b1") = Some (Some "").
Proof.
  intros p p'.
  destruct (idle_report_loses_job (D := unit) no_jitter in_order in_order None None None false (λ _, "c") None None None
    (λ _ _, inl (mkBotHealthStatus "healthy" "")) (λ _ _ _, inr (ErrNew "404")) (λ _ _ _, inl [])
    busy_bot (mkBotHealthStatus "healthy" "") busy_bot "j1" (reset newBackoff) p)
    as (Hj & _ & cached' & Hb & Hc & _);
    [split; [reflexivity|vm_compute; discriminate]|discriminate|reflexivity|reflexivity|reflexivity|discriminate|discriminate|reflexivity|
     reflexivity|reflexivity|intros; eexists; reflexivity|reflexivity|discriminate|reflexivity|].
  subst p'. unfold demo_poll. rewrite Hj, Hb. split; [reflexivity|]. rewrite <- Hc. reflexivity.
Defined.
