(* ===== verification/WsHub.v ===== *)
(** * The websocket hub (pkg/master/websocket.go)

    The hub keeps the connected clients and the subscribers of every topic.  A
    client is reached by its pointer (a number), and stays in [conns] for as long
    as anything can refer to it; [clients] and [topics] are the maps of the hub.
    The channel of a client holds at most 256 encoded messages; sending to a
    closed channel and closing a closed one panic.  An [event] is one action of
    the goroutine of the hub, of a reader or a writer of a client, or of a
    broadcasting caller.  The JSON codec and the writes to the connection are
    parameters. *)

From Stdlib Require Import Strings.Byte.
From S2P Require Import Prelude.

Record WSMessage := mkWSMessage { WType : string; WData : gmap string json; WTimestamp : Time }.

Definition WSTypeCampaignUpdated : string := "campaign_updated".
Definition WSTypeCrashFound : string := "crash_found".
Definition WSTypeCorpusUpdate : string := "corpus_update".
Definition WSTypeJobProgress : string := "job_progress".
Definition WSTypeSystemAlert : string := "system_alert".
Definition WSTypePing : string := "ping".
Definition WSTypePong : string := "pong".
Definition WSTypeSubscribe : string := "subscribe".
Definition WSTypeUnsubscribe : string := "unsubscribe".

Abbreviation payload := (list byte).

(** [reading] and [writing] tell that the goroutine of [readPump] or [writePump]
    runs; [written] is what the writer has put on the connection. *)
Record WSClient := mkWSClient {
  WSClientID : string; send : list payload; send_closed : bool; subscriptions : gset string; lastPing : Time;
  reading : bool; writing : bool; written : list payload }.
#[export] Instance WSClient_eta : Eta WSClient := fun c =>
  mkWSClient (WSClientID c) (send c) (send_closed c) (subscriptions c) (lastPing c) (reading c) (writing c) (written c).

Record WSHub := mkWSHub {
  conns : gmap nat WSClient; clients : gset nat; topics : gmap string (gset nat); broadcast : list WSMessage }.
#[export] Instance WSHub_eta : Eta WSHub := fun h => mkWSHub (conns h) (clients h) (topics h) (broadcast h).

Definition NewWSHub : WSHub := mkWSHub ∅ ∅ ∅ [].
Definition send_cap : nat := 256.
Definition broadcast_cap : nat := 256.

Fixpoint fold_res {A B} (f : A → B → res A) (a : A) (l : list B) : res A :=
  match l with [] => Ok a | b :: l => let! a := f a b in fold_res f a l end.

(** [select { case c.send <- data: ... default: ... }] *)
Definition try_send (data : payload) (c : WSClient) : res (bool * WSClient) :=
  if send_closed c then Panic "send on closed channel"
  else if (send_cap <=? length (send c))%nat then Ok (false, c)
  else Ok (true, c <| send := send c ++ [data] |>).
Definition close_send (c : WSClient) : res WSClient :=
  if send_closed c then Panic "close of closed channel" else Ok (c <| send_closed := true |>).

Section hub.
Variable Marshal : WSMessage → payload + goerror.
Variable Unmarshal : payload → WSMessage + goerror.
(** Whether a write of a message to the connection of a client succeeds. *)
Variable conn_write : nat → payload → bool.
(** The order in which a map of clients is ranged over. *)
Variable order : list nat → list nat.
Implicit Types (h : WSHub) (p : nat) (c : WSClient).

Definition on_conn p (f : WSClient → res WSClient) h : res WSHub :=
  match conns h !! p with
  | None => Ok h
  | Some c => let! c := f c in Ok (h <| conns := <[p := c]> (conns h) |>)
  end.

Definition sendMessage (msg : WSMessage) c : res WSClient :=
  match Marshal msg with
  | inr _ => Ok c
  | inl data => let! sc := try_send data c in Ok sc.2
  end.

(** *** Subscriptions *)

Definition subscribeToTopic p (topic : string) h : WSHub :=
  h <| topics := <[topic := {[p]} ∪ default ∅ (topics h !! topic)]> (topics h) |>.
(** [delete(subscribers, c)], and the topic with it when nobody is left. *)
Definition drop_subscriber p (subscribers : gset nat) : option (gset nat) :=
  let left := subscribers ∖ {[p]} in if decide (left = ∅) then None else Some left.
Definition unsubscribeFromTopic p (topic : string) h : WSHub :=
  match topics h !! topic with
  | None => h
  | Some subscribers => h <| topics := partial_alter (λ _, drop_subscriber p subscribers) topic (topics h) |>
  end.

Definition topic_list (msg : WSMessage) : list string :=
  match WData msg !! "topics" with
  | Some (JArray l) => omap (λ j, match j with JString s => Some s | _ => None end) l
  | _ => []
  end.

Definition handleMessage p (now : Time) (msg : WSMessage) h : WSHub :=
  let set_subs f h := h <| conns := alter (λ c, c <| subscriptions := f (subscriptions c) |>) p (conns h) |> in
  if String.eqb (WType msg) WSTypePong then h <| conns := alter (λ c, c <| lastPing := now |>) p (conns h) |>
  else if String.eqb (WType msg) WSTypeSubscribe then
    foldl (λ h topic, subscribeToTopic p topic (set_subs (λ s, {[topic]} ∪ s) h)) h (topic_list msg)
  else if String.eqb (WType msg) WSTypeUnsubscribe then
    foldl (λ h topic, unsubscribeFromTopic p topic (set_subs (λ s, s ∖ {[topic]}) h)) h (topic_list msg)
  else h.

(** *** The goroutine of the hub *)

(** [handleWebSocket] makes the client, and the hub receives it. *)
Definition handleWebSocket p (clientID : string) (now : Time) h : res WSHub :=
  let c := mkWSClient clientID [] false ∅ now true true [] in
  let h := h <| conns := <[p := c]> (conns h) |> in
  let h := h <| clients := {[p]} ∪ clients h |> in
  on_conn p (sendMessage (mkWSMessage "welcome" {[ "client_id" := JString clientID; "version" := JString "2.0" ]} now)) h.

Definition unregister p h : res WSHub :=
  if decide (p ∈ clients h) then
    let h := h <| clients := clients h ∖ {[p]} |> in
    let! h := on_conn p close_send h in
    Ok (h <| topics := omap (drop_subscriber p) (topics h) |>)
  else Ok h.

Definition broadcast_client (data : payload) h p : res WSHub :=
  match conns h !! p with
  | None => Ok h
  | Some c =>
      let! sc := try_send data c in
      if sc.1 then Ok (h <| conns := <[p := sc.2]> (conns h) |>)
      else
        let! c := close_send c in
        Ok (h <| conns := <[p := c]> (conns h) |> <| clients := clients h ∖ {[p]} |>)
  end.
Definition broadcastToClients (msg : WSMessage) h : res WSHub :=
  match Marshal msg with
  | inr _ => Ok h
  | inl data => fold_res (broadcast_client data) h (order (elements (clients h)))
  end.
Definition pingClients (now : Time) : WSHub → res WSHub := broadcastToClients (mkWSMessage WSTypePing ∅ now).

(** *** Callers *)

Definition Broadcast (msg : WSMessage) h : WSHub :=
  if (length (broadcast h) <? broadcast_cap)%nat then h <| broadcast := broadcast h ++ [msg] |> else h.

Definition topic_client (data : payload) h p : res WSHub :=
  on_conn p (λ c, let! sc := try_send data c in Ok sc.2) h.
Definition BroadcastToTopic (topic : string) (msg : WSMessage) h : res WSHub :=
  match topics h !! topic with
  | None => Ok h
  | Some subscribers =>
      if decide (subscribers = ∅) then Ok h
      else
        match Marshal msg with
        | inr _ => Ok h
        | inl data => fold_res (topic_client data) h (order (elements subscribers))
        end
  end.

Definition ClientCount h : Z := Z.of_nat (size (clients h)).

(** *** The goroutines of a client *)

(** One message read; a message that cannot be parsed is skipped. *)
Definition read p (now : Time) (message : payload) h : WSHub :=
  match Unmarshal message with inr _ => h | inl msg => handleMessage p now msg h end.

(** The writer takes one message and all that are queued behind it, and stops at
    the first write that fails: what was written, what is left, and whether it
    goes on. *)
Fixpoint write_queued p (queue : list payload) : list payload * list payload * bool :=
  match queue with
  | [] => ([], [], true)
  | data :: queue =>
      if conn_write p data then let '(w, rest, ok) := write_queued p queue in (data :: w, rest, ok)
      else ([], queue, false)
  end.
Definition write p c : WSClient :=
  match send c with
  | [] => if send_closed c then c <| writing := false |> else c
  | queue =>
      let '(w, rest, ok) := write_queued p queue in
      c <| send := rest |> <| written := written c ++ w |> <| writing := ok |>
  end.

(** ** Steps *)

Inductive event :=
  | EConnect (p : nat) (clientID : string) (now : Time)    (* a new client, its pointer is fresh *)
  | ERead (p : nat) (now : Time) (message : payload)       (* readPump, while it runs *)
  | ELeave (p : nat)                                       (* readPump ends *)
  | EWrite (p : nat)                                       (* writePump, while it runs *)
  | EDeliver                                               (* the hub takes a broadcast *)
  | ETick (now : Time)                                     (* the ticker of the hub *)
  | EBroadcast (msg : WSMessage)
  | EToTopic (topic : string) (msg : WSMessage).

Definition is_reading p h : bool := match conns h !! p with Some c => reading c | None => false end.
Definition is_writing p h : bool := match conns h !! p with Some c => writing c | None => false end.

Definition hub_step h (e : event) : res WSHub :=
  match e with
  | EConnect p clientID now =>
      match conns h !! p with Some _ => Ok h | None => handleWebSocket p clientID now h end
  | ERead p now message => if is_reading p h then Ok (read p now message h) else Ok h
  | ELeave p =>
      if is_reading p h
      then unregister p (h <| conns := alter (λ c, c <| reading := false |>) p (conns h) |>) else Ok h
  | EWrite p => if is_writing p h then Ok (h <| conns := alter (write p) p (conns h) |>) else Ok h
  | EDeliver =>
      match broadcast h with
      | [] => Ok h
      | msg :: queue => broadcastToClients msg (h <| broadcast := queue |>)
      end
  | ETick now => pingClients now h
  | EBroadcast msg => Ok (Broadcast msg h)
  | EToTopic topic msg => BroadcastToTopic topic msg h
  end.
Definition hub_run : WSHub → list event → res WSHub := fold_res hub_step.

End hub.

(** ** Notifications of the server *)

Record CrashNotification := mkCrashNotification {
  NCrashID : string; NCampaignID : string; NJobID : string; NSeverity : string; NIsUnique : bool }.
Record CorpusEvolutionUpdate := mkCorpusEvolutionUpdate {
  TotalFiles : Z; TotalCoverage : Z; NewFiles : Z; NewCoverage : Z }.

Definition campaign_update_msg (campaignID : string) (update : json) (now : Time) : WSMessage :=
  mkWSMessage WSTypeCampaignUpdated {[ "campaign_id" := JString campaignID; "update" := update ]} now.
Definition crash_found_msg (crash : CrashNotification) (now : Time) : WSMessage :=
  mkWSMessage WSTypeCrashFound
    {[ "crash_id" := JString (NCrashID crash); "campaign_id" := JString (NCampaignID crash);
     "job_id" := JString (NJobID crash); "severity" := JString (NSeverity crash); "is_unique" := JBool (NIsUnique crash) ]} now.
Definition corpus_update_msg (campaignID : string) (evolution : CorpusEvolutionUpdate) (now : Time) : WSMessage :=
  mkWSMessage WSTypeCorpusUpdate
    {[ "campaign_id" := JString campaignID; "total_files" := JInt (TotalFiles evolution);
     "total_coverage" := JInt (TotalCoverage evolution); "new_files" := JInt (NewFiles evolution);
     "new_coverage" := JInt (NewCoverage evolution) ]} now.
Definition job_progress_msg (jobID : string) (progress : float64) (status : string) (now : Time) : WSMessage :=
  mkWSMessage WSTypeJobProgress {[ "job_id" := JString jobID; "progress" := JFloat progress; "status" := JString status ]} now.
Definition system_alert_msg (level message : string) (details : json) (now : Time) : WSMessage :=
  mkWSMessage WSTypeSystemAlert {[ "level" := JString level; "message" := JString message; "details" := details ]} now.

(** The calls to the hub that each notification makes. *)
Definition broadcastCampaignUpdate campaignID update now : list event :=
  let msg := campaign_update_msg campaignID update now in [EBroadcast msg; EToTopic ("campaign:" +:+ campaignID) msg].
Definition broadcastCrashFound crash now : list event :=
  let msg := crash_found_msg crash now in [EBroadcast msg; EToTopic ("campaign:" +:+ NCampaignID crash) msg].
Definition broadcastCorpusUpdate campaignID evolution now : list event :=
  [EToTopic ("campaign:" +:+ campaignID) (corpus_update_msg campaignID evolution now)].
Definition broadcastJobProgress jobID progress status now : list event :=
  [EToTopic ("job:" +:+ jobID) (job_progress_msg jobID progress status now)].
Definition broadcastSystemAlert level message details now : list event :=
  [EBroadcast (system_alert_msg level message details now)].

(** ** Well-formed hubs *)

Record wf (h : WSHub) : Prop := mk_wf {
  wf_clients : ∀ p, p ∈ clients h → ∃ c, conns h !! p = Some c ∧ send_closed c = false;
  wf_open : ∀ p c, conns h !! p = Some c → send_closed c = false → p ∈ clients h;
  wf_topics : ∀ t s, topics h !! t = Some s → s ≠ ∅;
  wf_subscribers : ∀ t s p, topics h !! t = Some s → p ∈ s → is_Some (conns h !! p);
  wf_send : ∀ p c, conns h !! p = Some c → (length (send c) ≤ send_cap)%nat;
  wf_broadcast : (length (broadcast h) ≤ broadcast_cap)%nat }.

Definition room (c : WSClient) : bool := (length (send c) <? send_cap)%nat.
Definition queued (data : payload) (c : WSClient) : WSClient := c <| send := send c ++ [data] |>.
(** What a broadcast, or a message to a topic, makes of an open client. *)
Definition to_all (data : payload) (c : WSClient) : WSClient := if room c then queued data c else c <| send_closed := true |>.
Definition to_topic (data : payload) (c : WSClient) : WSClient := if room c then queued data c else c.

Lemma try_send_open data c : send_closed c = false → try_send data c = Ok (room c, to_topic data c).
Proof.
  intros H. unfold try_send, to_topic, room. rewrite H.
  destruct (Nat.leb_spec send_cap (length (send c))), (Nat.ltb_spec (length (send c)) send_cap); try lia; done.
Qed.
Lemma try_send_closed data c : send_closed c = true → try_send data c = Panic "send on closed channel".
Proof. intros H. unfold try_send. by rewrite H. Qed.

Lemma sent_fits data c : (length (send c) ≤ send_cap)%nat →
  (length (send (to_all data c)) ≤ send_cap ∧ length (send (to_topic data c)) ≤ send_cap)%nat.
Proof.
  intros H. unfold to_all, to_topic, room. destruct (Nat.ltb_spec (length (send c)) send_cap); [|by split].
  simpl. rewrite length_app. simpl. lia.
Qed.

Section proofs.
Variable Marshal : WSMessage → payload + goerror.
Variable Unmarshal : payload → WSMessage + goerror.
Variable conn_write : nat → payload → bool.
Variable order : list nat → list nat.
Hypothesis order_perm : ∀ l, order l ≡ₚ l.
Implicit Types (h : WSHub) (p : nat) (c : WSClient).

Abbreviation hub_step := (hub_step Marshal Unmarshal conn_write order).
Abbreviation hub_run := (hub_run Marshal Unmarshal conn_write order).

Lemma order_elements (s : gset nat) p : p ∈ order (elements s) ↔ p ∈ s.
Proof. rewrite order_perm. apply elem_of_elements. Qed.
Lemma order_NoDup (s : gset nat) : NoDup (order (elements s)).
Proof. rewrite order_perm. apply NoDup_elements. Qed.

Lemma decide_order {A} (s : gset nat) p (x y : A) :
  (if decide (p ∈ order (elements s)) then x else y) = if decide (p ∈ s) then x else y.
Proof. apply decide_ext, order_elements. Qed.

Lemma broadcast_client_open data h q c :
  conns h !! q = Some c → send_closed c = false →
  ∃ h1, broadcast_client data h q = Ok h1 ∧ topics h1 = topics h ∧ broadcast h1 = broadcast h ∧
    conns h1 = <[q := to_all data c]> (conns h) ∧ clients h1 = if room c then clients h else clients h ∖ {[q]}.
Proof.
  intros Hc Hcl. unfold broadcast_client, to_all. rewrite Hc, try_send_open by done. cbn [res_bind fst snd].
  unfold to_topic. destruct (room c) eqn:Hr; [by eexists|]. unfold close_send. rewrite Hcl. by eexists.
Qed.

(** A range over open clients, each of which is served once. *)
Lemma broadcast_fold data l h :
  NoDup l → (∀ p, p ∈ l → ∃ c, conns h !! p = Some c ∧ send_closed c = false) →
  ∃ h', fold_res (broadcast_client data) h l = Ok h' ∧ topics h' = topics h ∧ broadcast h' = broadcast h ∧
    (∀ p, conns h' !! p = if decide (p ∈ l) then to_all data <$> conns h !! p else conns h !! p) ∧
    (∀ p, p ∈ clients h' ↔ p ∈ clients h ∧ ∀ c, p ∈ l → conns h !! p = Some c → room c = true).
Proof.
  revert h. induction l as [|q l IH]; intros h Hl Hopen; [by exists h; split_and!; try done; naive_solver set_solver|].
  apply NoDup_cons in Hl as [Hq Hl]. destruct (Hopen q) as (c & Hc & Hcl); [left|]. cbn [fold_res].
  destruct (broadcast_client_open data h q c Hc Hcl) as (h1 & -> & Ht & Hb & Hcs & Hcl1). cbn [res_bind].
  destruct (IH h1 Hl) as (h' & E & Ht' & Hb' & Hcs' & Hcl').
  { intros p Hp. rewrite Hcs, lookup_insert_ne by (intros <-; done). apply Hopen. by right. }
  exists h'. split; [exact E|]. split; [congruence|]. split; [congruence|]. split.
  - intros p. rewrite Hcs', Hcs. destruct (decide (p = q)) as [->|Hpq].
    + rewrite decide_False by done. rewrite decide_True by left. by rewrite lookup_insert_eq, Hc.
    + rewrite lookup_insert_ne by done. destruct (decide (p ∈ l)); [by rewrite decide_True by (by right)|].
      rewrite decide_False; [done|]. by intros [?|?]%elem_of_cons.
  - intros p. rewrite Hcl', Hcl1, Hcs. destruct (decide (p = q)) as [->|Hpq].
    + split.
      * intros [Hin _]. split; [by destruct (room c); set_solver|]. intros c' _ Hc'. rewrite Hc in Hc'. injection Hc' as <-.
        destruct (room c); [done|]. set_solver.
      * intros [Hin Hr]. specialize (Hr c (list_elem_of_here _ _) Hc) as ->. split; [done|]. intros c' ? _. done.
    + rewrite lookup_insert_ne by done. assert (p ∈ (if room c then clients h else clients h ∖ {[q]}) ↔ p ∈ clients h) as -> by (destruct (room c); set_solver).
      split; intros [H1 H2]; (split; [done|]); intros c' Hin; apply H2; [|by right]. by apply elem_of_cons in Hin as [->|?].
Qed.

Lemma topic_fold data l h :
  NoDup l → (∀ p, p ∈ l → ∃ c, conns h !! p = Some c ∧ send_closed c = false) →
  ∃ h', fold_res (topic_client data) h l = Ok h' ∧ topics h' = topics h ∧ broadcast h' = broadcast h ∧ clients h' = clients h ∧
    (∀ p, conns h' !! p = if decide (p ∈ l) then to_topic data <$> conns h !! p else conns h !! p).
Proof.
  revert h. induction l as [|q l IH]; intros h Hl Hopen; [by exists h|].
  apply NoDup_cons in Hl as [Hq Hl]. destruct (Hopen q) as (c & Hc & Hcl); [left|]. cbn [fold_res]. unfold topic_client at 1, on_conn.
  rewrite Hc, try_send_open by done. cbn [res_bind fst snd].
  set (h1 := h <| conns := <[q := to_topic data c]> (conns h) |>).
  destruct (IH h1 Hl) as (h' & E & Ht' & Hb' & Hcl' & Hcs').
  { intros p Hp. change (conns h1) with (<[q := to_topic data c]> (conns h)).
    rewrite lookup_insert_ne by (intros <-; done). apply Hopen. by right. }
  exists h'. split; [exact E|]. split_and!; [done..|]. intros p. rewrite Hcs'.
  change (conns h1) with (<[q := to_topic data c]> (conns h)). destruct (decide (p = q)) as [->|Hpq].
  - rewrite decide_False by done. rewrite decide_True by left. by rewrite lookup_insert_eq, Hc.
  - rewrite lookup_insert_ne by done. destruct (decide (p ∈ l)); [by rewrite decide_True by (by right)|].
    rewrite decide_False; [done|]. by intros [?|?]%elem_of_cons.
Qed.

(** One closed client among them, and the range panics. *)
Lemma topic_fold_panics data l h p c :
  NoDup l → p ∈ l → conns h !! p = Some c → send_closed c = true → ∃ w, fold_res (topic_client data) h l = Panic w.
Proof.
  revert h. induction l as [|q l IH]; intros h Hl Hp Hc Hcl; [by apply not_elem_of_nil in Hp|].
  apply NoDup_cons in Hl as [Hq Hl]. cbn [fold_res]. unfold topic_client at 1, on_conn. destruct (decide (p = q)) as [->|Hpq].
  - rewrite Hc, try_send_closed by done. by eexists.
  - apply elem_of_cons in Hp as [->|Hp]; [done|]. destruct (conns h !! q) as [cq|] eqn:Eq; [|by apply IH].
    destruct (send_closed cq) eqn:Ecl; [rewrite try_send_closed by done; by eexists|].
    rewrite try_send_open by done. cbn [res_bind fst snd]. apply IH; try done.
    change (conns (h <| conns := <[q := to_topic data cq]> (conns h) |>)) with (<[q := to_topic data cq]> (conns h)).
    by rewrite lookup_insert_ne.
Qed.

(** ** Every operation keeps a hub well formed *)

Lemma wf_new : wf NewWSHub.
Proof. clear dependent order. split; simpl; try (intros; set_solver); unfold broadcast_cap; lia. Qed.

Lemma hub_wf_alter f p h :
  (∀ c, send_closed (f c) = send_closed c ∧ (length (send (f c)) ≤ length (send c))%nat) →
  wf h → wf (h <| conns := alter f p (conns h) |>).
Proof.
  intros Hf [W1 W2 W3 W4 W5 W6]. split; cbn [conns clients topics broadcast set_field]; simpl; try done.
  - intros q Hq. destruct (W1 q Hq) as (c & Hc & Hcl). destruct (decide (p = q)) as [->|Hpq].
    + rewrite lookup_alter_eq, Hc. exists (f c). split; [done|]. by rewrite (proj1 (Hf c)).
    + rewrite lookup_alter_ne by done. by exists c.
  - intros q c Hc Hcl. destruct (decide (p = q)) as [->|Hpq].
    + rewrite lookup_alter_eq in Hc. apply fmap_Some in Hc as (c' & Hc' & ->). rewrite (proj1 (Hf c')) in Hcl. eauto.
    + rewrite lookup_alter_ne in Hc by done. eauto.
  - intros t s q Ht Hq. destruct (decide (p = q)) as [->|Hpq]; [rewrite lookup_alter_eq, fmap_is_Some|rewrite lookup_alter_ne by done]; eauto.
  - intros q c Hc. destruct (decide (p = q)) as [->|Hpq].
    + rewrite lookup_alter_eq in Hc. apply fmap_Some in Hc as (c' & Hc' & ->). pose proof (W5 _ _ Hc'). destruct (Hf c'). lia.
    + rewrite lookup_alter_ne in Hc by done. eauto.
Qed.

Lemma wf_set_topics T h :
  (∀ t s, T !! t = Some s → s ≠ ∅ ∧ ∀ p, p ∈ s → is_Some (conns h !! p)) → wf h → wf (h <| topics := T |>).
Proof. intros HT [W1 W2 W3 W4 W5 W6]. split; simpl; try done; [by intros t s [? _]%HT|]. intros t s p Ht. by apply HT in Ht as [_ ?]; auto. Qed.

Lemma drop_subscriber_Some p s s' : drop_subscriber p s = Some s' → s' = s ∖ {[p]} ∧ s' ≠ ∅.
Proof. unfold drop_subscriber. destruct (decide _); [done|]. by intros [= <-]. Qed.

Lemma wf_subscribe p t h : is_Some (conns h !! p) → wf h → wf (subscribeToTopic p t h).
Proof.
  intros Hp H. apply wf_set_topics; [|done]. intros t' s Hs. destruct (decide (t = t')) as [->|Ht].
  - rewrite lookup_insert_eq in Hs. injection Hs as <-. split; [set_solver|]. intros q [->%elem_of_singleton|Hq]%elem_of_union; [done|].
    destruct (topics h !! t') as [s|] eqn:E; [|set_solver]. by apply (wf_subscribers h H t' s).
  - rewrite lookup_insert_ne in Hs by done. split; [by apply (wf_topics h H t')|]. intros q. by apply (wf_subscribers h H t').
Qed.
Lemma wf_unsubscribe p t h : wf h → wf (unsubscribeFromTopic p t h).
Proof.
  intros H. unfold unsubscribeFromTopic. destruct (topics h !! t) as [s0|] eqn:E; [|done]. apply wf_set_topics; [|done].
  intros t' s Hs. destruct (decide (t = t')) as [<-|Ht].
  - rewrite lookup_partial_alter_eq in Hs. apply drop_subscriber_Some in Hs as [-> Hne]. split; [done|].
    intros q [Hq _]%elem_of_difference. by apply (wf_subscribers h H t s0).
  - rewrite lookup_partial_alter_ne in Hs by done. split; [by apply (wf_topics h H t')|]. intros q. by apply (wf_subscribers h H t').
Qed.

Lemma wf_handleMessage p now msg h : is_Some (conns h !! p) → wf h → wf (handleMessage p now msg h).
Proof.
  intros Hp H. unfold handleMessage. cbv zeta. destruct (String.eqb _ _); [apply hub_wf_alter; [by intros; split|done]|].
  destruct (String.eqb _ _); [|destruct (String.eqb _ _); [|done]]; revert h Hp H; induction (topic_list msg) as [|t l IH]; intros h Hp H; try done;
    cbn [foldl]; apply IH.
  - simpl. by apply lookup_alter_is_Some.
  - apply wf_subscribe; [simpl; by apply lookup_alter_is_Some|]. apply hub_wf_alter; [by intros; split|done].
  - unfold unsubscribeFromTopic. destruct (topics _ !! t); simpl; by apply lookup_alter_is_Some.
  - apply wf_unsubscribe, hub_wf_alter; [by intros; split|done].
Qed.
Lemma wf_read p now message h : is_reading p h = true → wf h → wf (read Unmarshal p now message h).
Proof.
  unfold is_reading, read. intros Hr H. destruct (Unmarshal message) as [msg|]; [|done]. apply wf_handleMessage; [|done].
  by destruct (conns h !! p).
Qed.

Lemma wf_connect p clientID now h : conns h !! p = None → wf h →
  ∃ h', handleWebSocket Marshal p clientID now h = Ok h' ∧ wf h'.
Proof.
  intros Hp [W1 W2 W3 W4 W5 W6]. unfold handleWebSocket, on_conn. simpl. rewrite lookup_insert_eq. unfold sendMessage.
  set (c0 := mkWSClient _ _ _ _ _ _ _ _).
  assert (∀ c, send_closed c = false → (length (send c) ≤ send_cap)%nat →
    wf (h <| conns := <[p := c0]> (conns h) |> <| clients := {[p]} ∪ clients h |> <| conns := <[p := c]> (<[p := c0]> (conns h)) |>)) as K.
  { intros c Hcl Hlen. rewrite insert_insert_eq. split; simpl; try done.
    - intros q Hq. destruct (decide (p = q)) as [->|Hpq]; [exists c; by rewrite lookup_insert_eq|].
      rewrite lookup_insert_ne by done. apply W1. set_solver.
    - intros q c' Hc' Hcl'. destruct (decide (p = q)) as [->|Hpq]; [set_solver|]. rewrite lookup_insert_ne in Hc' by done.
      apply elem_of_union. right. eauto.
    - intros t s q Ht Hq. destruct (decide (p = q)) as [->|Hpq]; [by rewrite lookup_insert_eq|]. rewrite lookup_insert_ne by done. eauto.
    - intros q c'. destruct (decide (p = q)) as [->|Hpq]; [by rewrite lookup_insert_eq; intros [= <-]|]. rewrite lookup_insert_ne by done. eauto. }
  destruct (Marshal _) as [data|e]; [rewrite try_send_open by done|]; cbn [res_bind snd]; eexists; (split; [reflexivity|]);
    apply K; try done; unfold send_cap; simpl; lia.
Qed.

Lemma wf_unregister p h : wf h → ∃ h', unregister p h = Ok h' ∧ wf h'.
Proof.
  intros H. unfold unregister. destruct (decide (p ∈ clients h)) as [Hp|]; [|by exists h].
  destruct (wf_clients h H p Hp) as (c & Hc & Hcl). unfold on_conn. simpl. rewrite Hc. unfold close_send. rewrite Hcl. cbn [res_bind].
  eexists. split; [reflexivity|]. destruct H as [W1 W2 W3 W4 W5 W6]. split; simpl; try done.
  - intros q [Hq Hqp]%elem_of_difference. rewrite lookup_insert_ne by set_solver. auto.
  - intros q c'. destruct (decide (p = q)) as [->|Hpq]; [by rewrite lookup_insert_eq; intros [= <-]|].
    rewrite lookup_insert_ne by done. intros Hc' Hcl'. apply elem_of_difference. split; [eauto|set_solver].
  - intros t s Hs. rewrite lookup_omap in Hs. apply bind_Some in Hs as (s0 & _ & Hs). by apply drop_subscriber_Some in Hs as [_ ?].
  - intros t s q Hs Hq. rewrite lookup_omap in Hs. apply bind_Some in Hs as (s0 & Hs0 & Hs). apply drop_subscriber_Some in Hs as [-> _].
    rewrite lookup_insert_ne by set_solver. apply (W4 t s0); [done|set_solver].
  - intros q c'. destruct (decide (p = q)) as [->|Hpq]; [rewrite lookup_insert_eq; intros [= <-]; by apply (W5 q c)|].
    rewrite lookup_insert_ne by done. eauto.
Qed.

Lemma wf_broadcastToClients msg h : wf h → ∃ h', broadcastToClients Marshal order msg h = Ok h' ∧ wf h'.
Proof.
  intros H. unfold broadcastToClients. destruct (Marshal msg) as [data|e]; [|by exists h].
  destruct (broadcast_fold data (order (elements (clients h))) h) as (h' & E & Ht & Hb & Hc & Hcl).
  { apply order_NoDup. } { intros p Hp%order_elements. by apply wf_clients. }
  exists h'. split; [exact E|]. setoid_rewrite (decide_order (clients h)) in Hc. setoid_rewrite order_elements in Hcl.
  destruct H as [W1 W2 W3 W4 W5 W6]. split; rewrite ?Ht, ?Hb; try done.
  - intros p [Hp Hr]%Hcl. destruct (W1 p Hp) as (c & Hpc & Ho). rewrite Hc, decide_True, Hpc by done. exists (to_all data c).
    split; [done|]. unfold to_all. by rewrite (Hr c Hp Hpc).
  - intros p c. rewrite Hc, Hcl. destruct (decide (p ∈ clients h)) as [Hp|Hp]; [|by intros Hpc Ho; destruct Hp; eauto].
    intros (c0 & Hc0 & ->)%fmap_Some Ho. split; [done|]. intros c1 _ Hc1. rewrite Hc0 in Hc1. injection Hc1 as <-.
    unfold to_all in Ho. by destruct (room c0).
  - intros t s p Hs Hp. rewrite Hc. destruct (decide _); [rewrite fmap_is_Some|]; eauto.
  - intros p c. rewrite Hc. destruct (decide _); [|eauto]. intros (c0 & Hc0 & ->)%fmap_Some. apply sent_fits. eauto.
Qed.

Lemma write_queued_left p queue : (length (write_queued conn_write p queue).1.2 ≤ length queue)%nat.
Proof.
  induction queue as [|d q IH]; [done|]. cbn [write_queued]. destruct (conn_write p d); [|simpl; lia].
  destruct (write_queued conn_write p q) as [[w r] ok]. simpl in *. lia.
Qed.
Lemma write_keeps p c :
  send_closed (write conn_write p c) = send_closed c ∧ (length (send (write conn_write p c)) ≤ length (send c))%nat.
Proof.
  unfold write. destruct (send c) as [|d q] eqn:E; [destruct (send_closed c) eqn:Ecl; simpl; rewrite ?E; by split|].
  pose proof (write_queued_left p (d :: q)) as Hl. destruct (write_queued _ _ _) as [[w r] ok]. simpl in *. split; [done|lia].
Qed.

Definition subscribed_closed (t : string) h : Prop :=
  ∃ s p c, topics h !! t = Some s ∧ p ∈ s ∧ conns h !! p = Some c ∧ send_closed c = true.
(** The only call that panics. *)
Definition panics (e : event) h : Prop :=
  match e with EToTopic t msg => (∃ data, Marshal msg = inl data) ∧ subscribed_closed t h | _ => False end.

Lemma topic_wf t msg h : wf h →
  match BroadcastToTopic Marshal order t msg h with
  | Ok h' => wf h' ∧ ¬ panics (EToTopic t msg) h
  | Panic _ => panics (EToTopic t msg) h
  | Err _ => False
  end.
Proof.
  intros H. unfold BroadcastToTopic. destruct (topics h !! t) as [s|] eqn:Es; [|split; [done|]; by intros [_ (? & ? & ? & ? & _)]; congruence].
  destruct (decide (s = ∅)) as [->|Hs]; [by destruct (wf_topics h H t ∅)|].
  destruct (Marshal msg) as [data|e] eqn:Em; [|split; [done|]; by intros [[d ?] _]; congruence].
  destruct (decide (Exists (λ p, from_option send_closed false (conns h !! p) = true) (elements s))) as [Hex|Hex].
  - apply Exists_exists in Hex as (p & Hp & Hcl). destruct (conns h !! p) as [c|] eqn:Ec; [|done]. simpl in Hcl.
    destruct (topic_fold_panics data (order (elements s)) h p c) as [w ->]; try done; [by apply order_NoDup|by rewrite order_perm|].
    split; [by eexists|]. exists s, p, c. by rewrite elem_of_elements in Hp.
  - assert (∀ p, p ∈ s → ∃ c, conns h !! p = Some c ∧ send_closed c = false) as Hopen.
    { intros p Hp. destruct (wf_subscribers h H t s p Es Hp) as [c Hc]. exists c. split; [done|]. apply not_true_iff_false. intros Hcl.
      apply Hex, Exists_exists. exists p. rewrite elem_of_elements, Hc. by split. }
    destruct (topic_fold data (order (elements s)) h) as (h' & -> & Ht & Hb & Hcl & Hc).
    { by apply order_NoDup. } { intros p Hp%order_elements. by apply Hopen. }
    setoid_rewrite decide_order in Hc. split.
    + destruct H as [W1 W2 W3 W4 W5 W6]. split; rewrite ?Ht, ?Hb, ?Hcl; try done.
      * intros p Hp. rewrite Hc. destruct (W1 p Hp) as (c & -> & Ho). destruct (decide _); [|by exists c].
        exists (to_topic data c). split; [done|]. unfold to_topic. by destruct (room c).
      * intros p c. rewrite Hc. destruct (decide (p ∈ s)) as [Hp|]; [|eauto]. intros (c0 & Hc0 & ->)%fmap_Some _.
        destruct (Hopen p Hp) as (c1 & Hc1 & Ho). rewrite Hc0 in Hc1. injection Hc1 as <-. eauto.
      * intros t' s' p Hs' Hp. rewrite Hc. destruct (decide _); [rewrite fmap_is_Some|]; eauto.
      * intros p c. rewrite Hc. destruct (decide _); [|eauto]. intros (c0 & Hc0 & ->)%fmap_Some. apply sent_fits. eauto.
    + intros [_ (s' & p & c & Hs' & Hp & Hpc & Ho)]. rewrite Es in Hs'. injection Hs' as <-.
      destruct (Hopen p Hp) as (c' & Hc' & Ho'). congruence.
Qed.

Lemma hub_step_wf h e : wf h →
  match hub_step h e with Ok h' => wf h' ∧ ¬ panics e h | Panic _ => panics e h | Err _ => False end.
Proof.
  intros H. destruct e as [p id now|p now m|p|p| |now|msg|t msg]; cbn [WsHub.hub_step].
  - destruct (conns h !! p) eqn:Hp; [by split; [|intros []]|]. destruct (wf_connect p id now h Hp H) as (h' & -> & ?). by split; [|intros []].
  - destruct (is_reading p h) eqn:Hr; (split; [|intros []]); [by apply wf_read|done].
  - destruct (is_reading p h); [|by split; [|intros []]]. edestruct (wf_unregister p) as (h' & -> & ?); [|by split; [|intros []]].
    apply hub_wf_alter; [by intros; split|done].
  - destruct (is_writing p h); (split; [|intros []]); [|done]. apply hub_wf_alter; [apply write_keeps|done].
  - destruct (broadcast h) as [|msg q] eqn:Eb; [by split; [|intros []]|].
    edestruct (wf_broadcastToClients msg (h <| broadcast := q |>)) as (h' & -> & ?); [|by split; [|intros []]].
    destruct H as [W1 W2 W3 W4 W5 W6]. split; simpl; try done. rewrite Eb in W6. simpl in W6. lia.
  - unfold pingClients. edestruct wf_broadcastToClients as (h' & -> & ?); [exact H|]. by split; [|intros []].
  - split; [|intros []]. unfold Broadcast. destruct (Nat.ltb_spec (length (broadcast h)) broadcast_cap); [|done].
    destruct H as [W1 W2 W3 W4 W5 W6]. split; simpl; try done. rewrite length_app. simpl. lia.
  - by apply topic_wf.
Qed.

(** C16: In every run of the hub, whatever its clients send and however the
    goroutines interleave: the clients of the hub are exactly those with an open
    channel, no topic is without subscribers, and no channel holds more than its
    capacity.  Such a run can panic, at exactly one point: a message to a topic
    one of whose subscribers has a closed channel. *)
Theorem hub_run_safe evs :
  match hub_run NewWSHub evs with
  | Ok h => wf h
  | Panic _ => ∃ before e after h, evs = before ++ e :: after ∧ hub_run NewWSHub before = Ok h ∧ wf h ∧ panics e h
  | Err _ => False
  end.
Proof.
  cut (∀ evs h0, wf h0 → match hub_run h0 evs with
    | Ok h => wf h
    | Panic _ => ∃ before e after h, evs = before ++ e :: after ∧ hub_run h0 before = Ok h ∧ wf h ∧ panics e h
    | Err _ => False end); [intros H; by apply H, wf_new|].
  clear evs. intros evs. induction evs as [|e evs IH]; intros h0 H; [done|]. unfold WsHub.hub_run. cbn [fold_res].
  pose proof (hub_step_wf h0 e H) as Hs. destruct (hub_step h0 e) as [h1|er|w] eqn:E; [|done|].
  - cbn [res_bind]. pose proof (IH h1 (proj1 Hs)) as Hr. unfold WsHub.hub_run in Hr. destruct (fold_res _ h1 evs); [done..|].
    destruct Hr as (before & e' & after & h & -> & Hb & Hw & Hp). exists (e :: before), e', after, h. split; [done|].
    split; [|done]. cbn [fold_res]. by rewrite E.
  - exists [], e, evs, h0. by split_and!.
Qed.

Lemma run_wf evs h h' : wf h → hub_run h evs = Ok h' → wf h'.
Proof.
  revert h. induction evs as [|e evs IH]; intros h H E; [by injection E as <-|]. unfold WsHub.hub_run in E. cbn [fold_res] in E.
  pose proof (hub_step_wf h e H) as Hs. destruct (hub_step h e) as [h1| |] eqn:E1; [|done..]. apply (IH h1); [apply Hs|done].
Qed.

(** ** A subscriber whose channel is closed *)

Definition stuck p t h : Prop :=
  (p ∉ clients h) ∧ (∃ s, topics h !! t = Some s ∧ p ∈ s) ∧ (∃ c, conns h !! p = Some c ∧ send_closed c = true).

Lemma stuck_alter q f p t h :
  (∀ c, send_closed (f c) = send_closed c) → stuck p t h → stuck p t (h <| conns := alter f q (conns h) |>).
Proof.
  intros Hf (H1 & H2 & c & Hc & Hcl). split; [exact H1|]. split; [exact H2|]. simpl.
  destruct (decide (q = p)) as [->|Hq]; [rewrite lookup_alter_eq, Hc; exists (f c); by rewrite Hf|]. rewrite lookup_alter_ne by done. by exists c.
Qed.
Lemma drop_other q p s : p ∈ s → q ≠ p → ∃ s', drop_subscriber q s = Some s' ∧ p ∈ s'.
Proof. intros Hp Hq. unfold drop_subscriber. destruct (decide _); [set_solver|]. eexists. split; [done|set_solver]. Qed.

Lemma stuck_subscribe q t' p t h : stuck p t h → stuck p t (subscribeToTopic q t' h).
Proof.
  intros (H1 & (s & Hs & Hp) & H3). split; [exact H1|]. split; [|exact H3]. simpl. destruct (decide (t' = t)) as [->|Ht].
  - rewrite lookup_insert_eq, Hs. eexists. split; [done|]. simpl. set_solver.
  - rewrite lookup_insert_ne by done. by exists s.
Qed.
Lemma stuck_unsubscribe q t' p t h : q ≠ p → stuck p t h → stuck p t (unsubscribeFromTopic q t' h).
Proof.
  intros Hq (H1 & (s & Hs & Hp) & H3). unfold unsubscribeFromTopic. destruct (topics h !! t') as [s0|] eqn:E; [|by split_and!; [|exists s|]].
  split; [exact H1|]. split; [|exact H3]. simpl. destruct (decide (t' = t)) as [->|Ht].
  - rewrite lookup_partial_alter_eq. rewrite Hs in E. injection E as <-. by apply drop_other.
  - rewrite lookup_partial_alter_ne by done. by exists s.
Qed.
Lemma stuck_handleMessage q now msg p t h : q ≠ p → stuck p t h → stuck p t (handleMessage q now msg h).
Proof.
  intros Hq H. unfold handleMessage. cbv zeta. destruct (String.eqb _ _); [by apply stuck_alter|].
  destruct (String.eqb _ _); [|destruct (String.eqb _ _); [|done]]; revert h H; induction (topic_list msg) as [|t' l IH]; intros h H; try done;
    cbn [foldl]; apply IH; [apply stuck_subscribe|apply stuck_unsubscribe; [done|]]; by apply stuck_alter.
Qed.

Lemma stuck_topic_fold data l h h' p t : fold_res (topic_client data) h l = Ok h' → stuck p t h → stuck p t h'.
Proof.
  revert h. induction l as [|q l IH]; intros h E H; [by injection E as <-|]. cbn [fold_res] in E.
  destruct (topic_client data h q) as [h1| |] eqn:E1; [|done..]. apply (IH h1); [done|]. unfold topic_client, on_conn in E1.
  destruct (conns h !! q) as [cq|] eqn:Eq; [|by injection E1 as <-].
  destruct (send_closed cq) eqn:Ecl; [by rewrite try_send_closed in E1|]. rewrite try_send_open in E1 by done. injection E1 as <-.
  destruct H as (H1 & H2 & c & Hc & Hcl). split; [exact H1|]. split; [exact H2|]. simpl.
  rewrite lookup_insert_ne by (intros ->; congruence). by exists c.
Qed.
Lemma stuck_broadcast msg h h' p t : wf h → broadcastToClients Marshal order msg h = Ok h' → stuck p t h → stuck p t h'.
Proof.
  intros Hw E (H1 & (s & Hs & Hp) & (c & Hc & Hcl)). unfold broadcastToClients in E.
  destruct (Marshal msg) as [data|]; [|injection E as <-; by split_and!; [|exists s|exists c]].
  destruct (broadcast_fold data (order (elements (clients h))) h) as (h1 & E1 & Ht & _ & Hcs & Hcl1).
  { apply order_NoDup. } { intros q Hq%order_elements. by apply wf_clients. }
  rewrite E1 in E. injection E as <-. split; [rewrite Hcl1; naive_solver|]. split; [exists s; by rewrite Ht|].
  exists c. rewrite Hcs, decide_order, decide_False by done. by split.
Qed.

(** Nothing but a request of the client itself brings it out of a topic, once
    its channel is closed. *)
Lemma stuck_step e h h' p t :
  (∀ now m, e ≠ ERead p now m) → wf h → hub_step h e = Ok h' → stuck p t h → stuck p t h'.
Proof.
  intros Hne Hw E H. destruct e as [q id now|q now m|q|q| |now|msg|t' msg]; cbn [WsHub.hub_step] in E.
  - destruct (conns h !! q) eqn:Hq; [by injection E as <-|]. unfold handleWebSocket, on_conn in E. simpl in E. rewrite lookup_insert_eq in E.
    destruct H as (H1 & H2 & c & Hc & Hcl). assert (q ≠ p) as Hqp by (intros ->; congruence).
    destruct (sendMessage _ _ _) as [c'| |]; [|done..]. injection E as <-.
    split; [simpl; set_solver|]. split; [exact H2|]. simpl. rewrite !lookup_insert_ne by done. by exists c.
  - destruct (is_reading q h); injection E as <-; [|done]. unfold read. destruct (Unmarshal m); [|done].
    apply stuck_handleMessage; [|done]. intros ->. by eapply Hne.
  - destruct (is_reading q h); [|by injection E as <-]. unfold unregister in E. simpl in E.
    destruct (decide (q ∈ clients h)) as [Hq|]; [|injection E as <-; by apply stuck_alter].
    destruct H as (H1 & (s & Hs & Hp) & c & Hc & Hcl). assert (q ≠ p) as Hqp by (intros ->; done).
    unfold on_conn in E. simpl in E. rewrite lookup_alter_eq in E.
    destruct (conns h !! q) as [cq|]; simpl in E; [destruct (close_send _) as [c'| |]; [|done..]|]; injection E as <-;
      (split; [simpl; set_solver|]; split; [simpl; rewrite lookup_omap, Hs; by apply drop_other|]);
      simpl; rewrite ?lookup_insert_ne, lookup_alter_ne by done; by exists c.
  - destruct (is_writing q h); injection E as <-; [|done]. apply stuck_alter; [|done]. intros c. by apply write_keeps.
  - destruct (broadcast h) as [|msg l] eqn:Eb; [by injection E as <-|]. apply (stuck_broadcast msg (h <| broadcast := l |>)); [|done|exact H].
    destruct Hw as [W1 W2 W3 W4 W5 W6]. split; simpl; try done. rewrite Eb in W6. simpl in W6. lia.
  - by apply (stuck_broadcast (mkWSMessage WSTypePing ∅ now) h).
  - injection E as <-. unfold Broadcast. by destruct (_ <? _)%nat.
  - unfold BroadcastToTopic in E. destruct (topics h !! t') as [s|]; [|by injection E as <-].
    destruct (decide _); [by injection E as <-|]. destruct (Marshal msg) as [data|]; [|by injection E as <-]. by apply (stuck_topic_fold _ _ _ _ _ _ E).
Qed.

Lemma stuck_run evs h h' p t :
  (∀ now m, ERead p now m ∉ evs) → wf h → hub_run h evs = Ok h' → stuck p t h → wf h' ∧ stuck p t h'.
Proof.
  revert h. induction evs as [|e evs IH]; intros h Hne Hw E H; [by injection E as <-|]. unfold WsHub.hub_run in E. cbn [fold_res] in E.
  pose proof (hub_step_wf h e Hw) as Hs. destruct (hub_step h e) as [h1| |] eqn:E1; [|done..]. apply (IH h1); try done.
  - intros now m Hin. apply (Hne now m). by right.
  - apply Hs.
  - apply (stuck_step e h); try done. intros now m ->. apply (Hne now m). left.
Qed.

(** A slow subscriber takes its topics down.  When a message for all clients
    finds the channel of a subscriber full, the channel is closed and the client
    leaves the map of clients, but not its topics; and since only clients of that
    map are taken out of the topics when they disconnect, every later message to
    such a topic panics, whatever happens in between, also after the client is
    gone. *)
Theorem slow_subscriber_poisons_topic p t s c data msg queue h evs h' :
  wf h → p ∈ clients h → conns h !! p = Some c → length (send c) = send_cap →
  topics h !! t = Some s → p ∈ s → broadcast h = msg :: queue → Marshal msg = inl data →
  (∀ now m, ERead p now m ∉ evs) → hub_run h (EDeliver :: evs) = Ok h' →
  (p ∉ clients h') ∧ ∀ msg' data', Marshal msg' = inl data' → ∃ w, hub_step h' (EToTopic t msg') = Panic w.
Proof.
  intros Hw Hp Hc Hlen Hs Hps Hb Hm Hne E. unfold WsHub.hub_run in E. cbn [fold_res WsHub.hub_step] in E. rewrite Hb in E.
  set (h0 := h <| broadcast := queue |>) in E.
  assert (wf h0) as Hw0.
  { destruct Hw as [W1 W2 W3 W4 W5 W6]. split; simpl; try done. rewrite Hb in W6. simpl in W6. lia. }
  destruct (broadcastToClients Marshal order msg h0) as [h1| |] eqn:E1; [|done..]. cbn [res_bind] in E.
  assert (wf h1) as Hw1 by (destruct (wf_broadcastToClients msg h0 Hw0) as (h2 & E2 & ?); congruence).
  assert (stuck p t h1) as Hst.
  { unfold broadcastToClients in E1. rewrite Hm in E1.
    destruct (broadcast_fold data (order (elements (clients h0))) h0) as (h2 & E2 & Ht & _ & Hcs & Hcl).
    { apply order_NoDup. } { intros q Hq%order_elements. by apply wf_clients. }
    rewrite E2 in E1. injection E1 as <-. assert (room c = false) as Hr by (unfold room; rewrite Hlen; done).
    split; [|split].
    - rewrite Hcl. intros [_ K]. rewrite (K c) in Hr; [done| |exact Hc]. by apply order_elements.
    - exists s. by rewrite Ht.
    - exists (to_all data c). rewrite Hcs, decide_order, decide_True by done. change (conns h0) with (conns h). rewrite Hc.
      split; [done|]. unfold to_all. by rewrite Hr. }
  destruct (stuck_run evs h1 h' p t Hne Hw1 E Hst) as [Hw' (H1 & (s' & Hs' & Hp') & c' & Hc' & Hcl')]. split; [done|].
  intros msg' data' Hm'. pose proof (hub_step_wf h' (EToTopic t msg') Hw') as K.
  destruct (hub_step h' (EToTopic t msg')) as [h2| |w]; [|done|by exists w].
  destruct K as [_ K]. destruct K. split; [by exists data'|]. by exists s', p, c'.
Qed.

(** A notification of a crash reaches a client that subscribed to the
    campaign twice: once as a message to everybody and once through the topic;
    other clients get it once.  Here all channels have room for it. *)
Theorem crash_notified_twice crash now data s h :
  let t := "campaign:" +:+ NCampaignID crash in
  wf h → broadcast h = [] → Marshal (crash_found_msg crash now) = inl data → topics h !! t = Some s → s ⊆ clients h →
  (∀ p c, conns h !! p = Some c → (length (send c) + 2 ≤ send_cap)%nat) →
  ∃ h', hub_run h (broadcastCrashFound crash now ++ [EDeliver]) = Ok h' ∧ clients h' = clients h ∧
    ∀ p c, p ∈ clients h → conns h !! p = Some c →
      ∃ c', conns h' !! p = Some c' ∧ send c' = send c ++ (if decide (p ∈ s) then [data; data] else [data]).
Proof.
  intros t Hw Hb Hm Hs Hsub Hroom. set (msg := crash_found_msg crash now) in *.
  unfold broadcastCrashFound, WsHub.hub_run. fold msg. cbv zeta. cbn [app fold_res WsHub.hub_step res_bind].
  unfold Broadcast. rewrite Hb. cbn [length Nat.ltb Nat.leb broadcast_cap app]. set (h0 := h <| broadcast := [msg] |>).
  unfold BroadcastToTopic. fold t. change (topics h0) with (topics h). rewrite Hs.
  destruct (decide (s = ∅)) as [->|Hne]; [by destruct (wf_topics h Hw t ∅)|]. rewrite Hm.
  assert (∀ p, p ∈ clients h → ∃ c, conns h !! p = Some c ∧ send_closed c = false) as Hopen by apply Hw.
  destruct (topic_fold data (order (elements s)) h0) as (h1 & -> & Ht1 & Hb1 & Hcl1 & Hc1).
  { apply order_NoDup. } { intros q Hq%order_elements. apply Hopen. set_solver. }
  cbn [res_bind]. rewrite Hb1. change (broadcast h0) with [msg]. cbv iota. unfold broadcastToClients. rewrite Hm.
  set (h2 := h1 <| broadcast := [] |>). setoid_rewrite decide_order in Hc1.
  assert (∀ c, (length (send c) + 2 ≤ send_cap)%nat → to_topic data c = queued data c ∧ to_all data (queued data c) = queued data (queued data c) ∧
    to_all data c = queued data c ∧ room c = true ∧ room (queued data c) = true) as Hq.
  { intros c Hlen. assert (room c = true ∧ room (queued data c) = true) as [R1 R2]
      by (unfold room; simpl; rewrite length_app; simpl; split; apply Nat.ltb_lt; lia).
    unfold to_topic, to_all. by rewrite R1, R2. }
  destruct (broadcast_fold data (order (elements (clients h2))) h2) as (h3 & -> & Ht3 & _ & Hc3 & Hcl3).
  { apply order_NoDup. }
  { intros q Hq'%order_elements. change (clients h2) with (clients h1) in Hq'. rewrite Hcl1 in Hq'. destruct (Hopen q Hq') as (c & Hc & Ho).
    change (conns h2) with (conns h1). rewrite Hc1. change (conns h0) with (conns h). rewrite Hc.
    destruct (decide (q ∈ s)); [|by exists c]. exists (to_topic data c). split; [done|]. unfold to_topic. by destruct (room c). }
  exists h3. split; [done|]. setoid_rewrite decide_order in Hc3. change (clients h2) with (clients h1) in *. rewrite Hcl1 in *.
  change (clients h0) with (clients h) in *. change (conns h2) with (conns h1) in *. change (conns h0) with (conns h) in *. split.
  - apply set_eq. intros p. rewrite Hcl3. split; [by intros [? _]|]. intros Hp. split; [done|]. intros c _ Hc. rewrite Hc1 in Hc.
    destruct (conns h !! p) as [c0|] eqn:Ec; [|by destruct (decide (p ∈ s))]. destruct (Hq c0 (Hroom _ _ Ec)) as (Q1 & _ & _ & Q4 & Q5).
    destruct (decide (p ∈ s)); simpl in Hc; injection Hc as <-; [by rewrite Q1|done].
  - intros p c Hp Hc. rewrite Hc3, Hc1, Hc, decide_True by done. destruct (Hq c (Hroom _ _ Hc)) as (Q1 & Q2 & Q3 & _).
    destruct (decide (p ∈ s)); simpl; eexists; (split; [reflexivity|]); rewrite ?Q1, ?Q2, ?Q3; simpl; [by rewrite <- app_assoc|done].
Qed.

End proofs.

(** ** Witnesses *)

Definition demo_marshal (_ : WSMessage) : payload + goerror := inl [].
Definition demo_unmarshal (_ : payload) : WSMessage + goerror :=
  inl (mkWSMessage WSTypeSubscribe {[ "topics" := JArray [JString "campaign:c1"; JNull] ]} 0).
Definition demo_run : WSHub → list event → res WSHub := hub_run demo_marshal demo_unmarshal (λ _ _, true) (λ l, l).
Definition demo_hub (evs : list event) : WSHub := match demo_run NewWSHub evs with Ok h => h | _ => NewWSHub end.
(** A client that subscribes and never reads what it is sent. *)
Definition slow_evs : list event :=
  [EConnect 0 "ws-0" 0; ERead 0 1 []] ++ repeat (ETick 2) 255 ++ [EBroadcast (system_alert_msg "info" "m" JNull 3)].

Lemma hub_run_safe_witness : ∃ h, demo_run NewWSHub slow_evs = Ok h ∧ wf h.
Proof.
  pose proof (hub_run_safe demo_marshal demo_unmarshal (λ _ _, true) (λ l, l) (λ l, reflexivity l) slow_evs) as H.
  destruct (demo_run NewWSHub slow_evs) as [h| |] eqn:E; [|vm_compute in E; discriminate E..].
  exists h. split; [reflexivity|]. unfold demo_run in E. rewrite E in H. exact H.
Defined.
Lemma slow_subscriber_poisons_topic_witness :
  ∃ h', demo_run (demo_hub slow_evs) [EDeliver; ELeave 0] = Ok h' ∧
    ∃ w, hub_step demo_marshal demo_unmarshal (λ _ _, true) (λ l, l) h' (EToTopic "campaign:c1" (mkWSMessage WSTypePing ∅ 9)) = Panic w.
Proof.
  assert (demo_run NewWSHub slow_evs = Ok (demo_hub slow_evs)) as E by (vm_compute; reflexivity).
  destruct (demo_run (demo_hub slow_evs) [EDeliver; ELeave 0]) as [h'| |] eqn:E'; [|vm_compute in E'; discriminate E'..].
  exists h'. split; [reflexivity|].
  refine (proj2 (slow_subscriber_poisons_topic demo_marshal demo_unmarshal (λ _ _, true) (λ l, l) (λ l, reflexivity l) 0 "campaign:c1" {[0%nat]} _ []
    (system_alert_msg "info" "m" JNull 3) [] (demo_hub slow_evs) [ELeave 0] h' _ _ _ _ _ _ _ _ _ E') (mkWSMessage WSTypePing ∅ 9) [] eq_refl).
  - apply (run_wf demo_marshal demo_unmarshal (λ _ _, true) (λ l, l) (λ l, reflexivity l) slow_evs NewWSHub); [apply wf_new|exact E].
  - vm_compute. exact eq_refl.
  - vm_compute. reflexivity.
  - reflexivity.
  - vm_compute. reflexivity.
  - set_solver.
  - vm_compute. reflexivity.
  - reflexivity.
  - intros now m Hin. apply list_elem_of_singleton in Hin. discriminate Hin.
Defined.

Definition demo_crash : CrashNotification := mkCrashNotification "x1" "c1" "j1" "high" true.
Definition two_evs : list event := [EConnect 0 "ws-0" 0; EConnect 1 "ws-1" 0; ERead 0 1 []; EWrite 0; EWrite 1].
Lemma crash_notified_twice_witness :
  ∃ h', demo_run (demo_hub two_evs) (broadcastCrashFound demo_crash 5 ++ [EDeliver]) = Ok h' ∧
    (length ∘ send <$> conns h' !! 0%nat) = Some 2%nat ∧ (length ∘ send <$> conns h' !! 1%nat) = Some 1%nat.
Proof.
  assert (demo_run NewWSHub two_evs = Ok (demo_hub two_evs)) as E by (vm_compute; reflexivity).
  destruct (crash_notified_twice demo_marshal demo_unmarshal (λ _ _, true) (λ l, l) (λ l, reflexivity l) demo_crash 5 [] {[0%nat]} (demo_hub two_evs))
    as (h' & E' & _ & Hs).
  - apply (run_wf demo_marshal demo_unmarshal (λ _ _, true) (λ l, l) (λ l, reflexivity l) two_evs NewWSHub); [apply wf_new|exact E].
  - reflexivity.
  - reflexivity.
  - vm_compute. reflexivity.
  - intros p ->%elem_of_singleton. vm_compute. exact eq_refl.
  - intros p c Hc. assert (map_Forall (λ _ c, (length (send c) + 2 ≤ send_cap)%nat) (conns (demo_hub two_evs))) as HF
      by (apply (bool_decide_unpack _); vm_compute; exact I). exact (HF p c Hc).
  - exists h'. split; [exact E'|]. split.
    + destruct (Hs 0%nat (default (mkWSClient "" [] false ∅ 0 true true []) (conns (demo_hub two_evs) !! 0%nat))) as (c' & -> & Hc');
        [vm_compute; exact eq_refl|vm_compute; reflexivity|]. simpl. rewrite Hc'. vm_compute. reflexivity.
    + destruct (Hs 1%nat (default (mkWSClient "" [] false ∅ 0 true true []) (conns (demo_hub two_evs) !! 1%nat))) as (c' & -> & Hc');
        [vm_compute; exact eq_refl|vm_compute; reflexivity|]. simpl. rewrite Hc'. vm_compute. reflexivity.
Defined.
