(* ===== verification/SseEvents.v ===== *)
(** * Server-sent events (pkg/api/v1/sse/events.go, filters.go, types.go, and the
    format of client.go; the stream reader of pkg/clients/go/sse.go)

    An event is one of the structs of events.go; a UUID is its text.  A filter is
    a tree; the regular expression of a pattern filter is given by what it
    matches, as compiled by a parameter.  The JSON encoding of the data of an
    event, and its decoding by the Go client, are parameters as well. *)

From Stdlib Require Import Strings.Ascii Strings.String.
From S2P Require Import Prelude Regex.

(** ** Events *)

Record BaseEvent := mkBaseEvent {
  EventID : string; EventType : string; EventTimestamp : Time; EventData : gmap string json }.

Inductive Event :=
  | BotEvent (base : BaseEvent) (BotID BotName : string) (CampaignID : option string)
  | JobEvent (base : BaseEvent) (JobID : string) (BotID : option string) (CampaignID Status : string)
  | CampaignEvent (base : BaseEvent) (CampaignID State : string)
  | CorpusEvent (base : BaseEvent) (CorpusID JobID CampaignID : option string) (Operation : string)
  | CrashEvent (base : BaseEvent) (CrashID JobID CampaignID CrashType Severity : string)
  | SystemEvent (base : BaseEvent) (Component Severity : string).

Definition base (e : Event) : BaseEvent :=
  match e with
  | BotEvent b _ _ _ | JobEvent b _ _ _ _ | CampaignEvent b _ _ | CorpusEvent b _ _ _ _
  | CrashEvent b _ _ _ _ _ | SystemEvent b _ _ => b
  end.
Definition GetID (e : Event) : string := EventID (base e).
Definition GetType (e : Event) : string := EventType (base e).

(** The time and the UUID that [time.Now] and [uuid.New] give. *)
Record fresh := mkFresh { f_now : Time; f_uuid : string }.
Definition generateEventID (f : fresh) : string := "evt_" +:+ pretty (f_now f) +:+ "_" +:+ String.substring 0 8 (f_uuid f).
Definition NewBaseEvent (eventType : string) (data : gmap string json) (f : fresh) : BaseEvent :=
  mkBaseEvent (generateEventID f) eventType (f_now f) data.

(** [for k, v := range data { baseData[k] = v }] *)
Definition merged (data baseData : gmap string json) : gmap string json := data ∪ baseData.

Definition NewBotEvent (eventType botID : string) (data : gmap string json) (f : fresh) : Event :=
  BotEvent (NewBaseEvent eventType (merged data {[ "bot_id" := JString botID ]}) f) botID "" None.
Definition NewJobEvent (eventType jobID campaignID : string) (data : gmap string json) (f : fresh) : Event :=
  JobEvent (NewBaseEvent eventType (merged data {[ "job_id" := JString jobID; "campaign_id" := JString campaignID ]}) f)
    jobID None campaignID "".
Definition NewCampaignEvent (eventType campaignID : string) (data : gmap string json) (f : fresh) : Event :=
  CampaignEvent (NewBaseEvent eventType (merged data {[ "campaign_id" := JString campaignID ]}) f) campaignID "".
Definition NewCorpusEvent (eventType : string) (data : gmap string json) (f : fresh) : Event :=
  CorpusEvent (NewBaseEvent eventType data f) None None None "".
Definition NewCrashEvent (eventType crashID jobID campaignID : string) (data : gmap string json) (f : fresh) : Event :=
  CrashEvent (NewBaseEvent eventType
      (merged data {[ "crash_id" := JString crashID; "job_id" := JString jobID; "campaign_id" := JString campaignID ]}) f)
    crashID jobID campaignID "" "".
Definition NewSystemEvent (eventType : string) (data : gmap string json) (f : fresh) : Event :=
  SystemEvent (NewBaseEvent eventType data f) "" "".

Definition CreateBotRegisteredEvent (botID botName : string) (capabilities : list string) : fresh → Event :=
  NewBotEvent "bot.registered" botID {[ "bot_name" := JString botName; "capabilities" := JArray (JString <$> capabilities) ]}.
Definition CreateBotStatusChangedEvent (botID oldStatus newStatus : string) : fresh → Event :=
  NewBotEvent "bot.status_changed" botID {[ "old_status" := JString oldStatus; "new_status" := JString newStatus ]}.
Definition CreateJobProgressEvent (jobID campaignID : string) (progress : float64) (details : gmap string json) : fresh → Event :=
  NewJobEvent "job.progress" jobID campaignID (merged details {[ "progress" := JFloat progress ]}).
(** [Duration.Seconds] *)
Definition seconds (d : Duration) : float64 :=
  f64_add (f64_of_Z (Z.quot d Second)) (f64_div (f64_of_Z (Z.rem d Second)) (f64_of_Z Second)).
Definition CreateJobCompletedEvent (jobID campaignID : string) (duration : Duration) (results : gmap string json) : fresh → Event :=
  NewJobEvent "job.completed" jobID campaignID (merged results {[ "duration_seconds" := JFloat (seconds duration) ]}).
Definition CreateCrashDetectedEvent (crashID jobID campaignID crashType stackTrace : string) : fresh → Event :=
  NewCrashEvent "crash.detected" crashID jobID campaignID
    {[ "crash_type" := JString crashType; "stack_trace" := JString stackTrace ]}.
Definition CreateCampaignStateChangeEvent (campaignID oldState newState : string) : fresh → Event :=
  NewCampaignEvent "campaign.updated" campaignID {[ "old_state" := JString oldState; "new_state" := JString newState ]}.
Definition CreateCorpusSyncEvent (jobID campaignID operation : string) (count : Z) (f : fresh) : Event :=
  match NewCorpusEvent "corpus.sync"
    {[ "job_id" := JString jobID; "campaign_id" := JString campaignID; "operation" := JString operation; "count" := JInt count ]} f with
  | CorpusEvent b corpusID _ _ _ => CorpusEvent b corpusID (Some jobID) (Some campaignID) operation
  | e => e
  end.
Definition CreateSystemAlertEvent (component severity message : string) (details : gmap string json) (f : fresh) : Event :=
  match NewSystemEvent "system.alert"
    (merged details {[ "component" := JString component; "severity" := JString severity; "message" := JString message ]}) f with
  | SystemEvent b _ _ => SystemEvent b component severity
  | e => e
  end.

(** ** Filters *)

#[warnings="-register-all"]
Inductive Filter :=
  | TypeFilter (EventTypes : gset string)
  | ResourceFilter (ResourceType ResourceID : string)
  | PatternFilter (MatchString : string → bool)
  | SeverityFilter (MinSeverity : string)
  | CompoundFilter (Filters : list Filter) (Logic : string)
  | AllowAllFilter.

Definition level (severity : string) : option Z :=
  ({[ "debug" := 0; "info" := 1; "warning" := 2; "error" := 3; "critical" := 4 ]} : gmap string Z) !! severity.

Definition ToUpper (s : string) : string :=
  string_of_list_ascii (map (λ c, let n := N_of_ascii c in
    if (97 <=? n)%N && (n <=? 122)%N then ascii_of_N (n - 32) else c) (list_ascii_of_string s)).

(** The text of a failed encoding; [q] is the double quote. *)
Definition q : string := String (ascii_of_nat 34) "".
Definition marshal_error (err : goerror) : string :=
  "{" +:+ q +:+ "error" +:+ q +:+ ": " +:+ q +:+ "failed to marshal event data: " +:+ Error err +:+ q +:+ "}".
Definition quoted (s : string) : string := q +:+ s +:+ q.

Section filters.
Variable json_text : gmap string json → string + goerror.
Variable compile : string → option (string → bool).

Definition GetData (e : Event) : string :=
  match json_text (EventData (base e)) with
  | inl data => data
  | inr err => marshal_error err
  end.

Definition matches_resource (resourceType resourceID : string) (e : Event) : bool :=
  let named (o : option string) := match o with Some id => String.eqb id resourceID | None => false end in
  if String.eqb resourceType "bot" then match e with BotEvent _ id _ _ => String.eqb id resourceID | _ => false end
  else if String.eqb resourceType "job" then match e with JobEvent _ id _ _ _ => String.eqb id resourceID | _ => false end
  else if String.eqb resourceType "campaign" then
    match e with
    | CampaignEvent _ id _ | JobEvent _ _ _ id _ | CrashEvent _ _ _ id _ _ => String.eqb id resourceID
    | CorpusEvent _ _ _ id _ => named id
    | _ => false
    end
  else if String.eqb resourceType "crash" then match e with CrashEvent _ id _ _ _ _ => String.eqb id resourceID | _ => false end
  else if String.eqb resourceType "corpus" then match e with CorpusEvent _ id _ _ _ => named id | _ => false end
  else false.

(** The severity of an event: a field, or guessed from the text of its data.
    [None] is an event that passes whatever the minimum. *)
Definition event_severity (e : Event) : option string :=
  match e with
  | SystemEvent _ _ s | CrashEvent _ _ _ _ _ s => Some s
  | _ =>
      let data := GetData e in
      if Contains data (quoted "severity") then
        Some (if Contains data (quoted "critical") then "critical"
              else if Contains data (quoted "error") then "error"
              else if Contains data (quoted "warning") then "warning"
              else if Contains data (quoted "info") then "info" else "debug")
      else None
  end.
Definition matches_severity (minSeverity : string) (e : Event) : bool :=
  match level minSeverity with
  | None => true
  | Some minLevel =>
      match event_severity e with
      | None => true
      | Some s => if String.eqb s "" then true else match level s with None => true | Some l => minLevel <=? l end
      end
  end.

Fixpoint Matches (f : Filter) (e : Event) : bool :=
  match f with
  | TypeFilter types => if decide (types = ∅) then true else bool_decide (GetType e ∈ types)
  | ResourceFilter t id => matches_resource t id e
  | PatternFilter m => m (GetType e)
  | SeverityFilter s => matches_severity s e
  | CompoundFilter fs logic =>
      match fs with
      | [] => true
      | _ => if String.eqb logic "OR" then existsb (λ f, Matches f e) fs else forallb (λ f, Matches f e) fs
      end
  | AllowAllFilter => true
  end.

Definition NewTypeFilter (eventTypes : list string) : Filter := TypeFilter (list_to_set eventTypes).
Definition NewCompoundFilter (logic : string) (filters : list Filter) : Filter := CompoundFilter filters (ToUpper logic).

(** *** The builder *)

Definition AddTypeFilter (types : string) (fb : list Filter) : list Filter :=
  if negb (String.eqb types "") then fb ++ [NewTypeFilter (TrimSpace <$> Split types ","%char)] else fb.
Definition AddResourceFilter (resourceType resourceID : string) (fb : list Filter) : list Filter :=
  if negb (String.eqb resourceType "") && negb (String.eqb resourceID "") then fb ++ [ResourceFilter resourceType resourceID] else fb.
Definition AddPatternFilter (pattern : string) (fb : list Filter) : list Filter :=
  if negb (String.eqb pattern "") then match compile pattern with Some m => fb ++ [PatternFilter m] | None => fb end else fb.
Definition AddSeverityFilter (minSeverity : string) (fb : list Filter) : list Filter :=
  if negb (String.eqb minSeverity "") then fb ++ [SeverityFilter minSeverity] else fb.
Definition Build (fb : list Filter) : Filter :=
  match fb with [] => AllowAllFilter | [f] => f | _ => NewCompoundFilter "AND" fb end.
Definition BuildOr (fb : list Filter) : Filter :=
  match fb with [] => AllowAllFilter | [f] => f | _ => NewCompoundFilter "OR" fb end.

Definition if_param (params : gmap string string) (key : string) (add : string → list Filter → list Filter) (fb : list Filter) : list Filter :=
  match params !! key with Some v => add v fb | None => fb end.
Definition ParseFiltersFromParams (params : gmap string string) : Filter :=
  let fb := if_param params "types" AddTypeFilter [] in
  let fb := if_param params "bot_id" (AddResourceFilter "bot") fb in
  let fb := if_param params "job_id" (AddResourceFilter "job") fb in
  let fb := if_param params "campaign_id" (AddResourceFilter "campaign") fb in
  let fb := if_param params "crash_id" (AddResourceFilter "crash") fb in
  let fb := if_param params "corpus_id" (AddResourceFilter "corpus") fb in
  let fb := if_param params "pattern" AddPatternFilter fb in
  let fb := if_param params "min_severity" AddSeverityFilter fb in
  Build fb.

End filters.

(** ** The event history *)

Record StoredEvent := mkStored { SEvent : option Event; STimestamp : Time; SID : string }.
Definition no_event : StoredEvent := mkStored None zero_time "".
Record EventHistory := mkHistory { slots : list StoredEvent; maxSize : Z; current : Z; full : bool }.

(** [make] panics for a negative size. *)
Definition NewEventHistory (maxSize : Z) : res EventHistory :=
  if maxSize <? 0 then Panic "makeslice: len out of range"
  else Ok (mkHistory (replicate (Z.to_nat maxSize) no_event) maxSize 0 false).

Definition Add (e : Event) (now : Time) (eh : EventHistory) : res EventHistory :=
  if (0 <=? current eh) && (current eh <? Z.of_nat (length (slots eh))) then
    let slots := <[Z.to_nat (current eh) := mkStored (Some e) now (GetID e)]> (slots eh) in
    let current := (current eh + 1) mod maxSize eh in
    Ok (mkHistory slots (maxSize eh) current (if current =? 0 then true else full eh))
  else Panic "index out of range".

(** The loop over [size] slots from [start]. *)
Fixpoint collect (eh : EventHistory) (eventID : string) (start : Z) (found : bool) (i : Z) (fuel : nat) : list StoredEvent :=
  match fuel with
  | O => []
  | S fuel =>
      let event := default no_event (slots eh !! Z.to_nat ((start + i) mod maxSize eh)) in
      if negb found then collect eh eventID start (String.eqb (SID event) eventID) (i + 1) fuel
      else match SEvent event with
           | Some _ => event :: collect eh eventID start found (i + 1) fuel
           | None => collect eh eventID start found (i + 1) fuel
           end
  end.
Definition GetEventsAfter (eventID : string) (eh : EventHistory) : list StoredEvent :=
  let size := if negb (full eh) then current eh else maxSize eh in
  let start := if full eh then 0 else current eh in
  collect eh eventID start (String.eqb eventID "") 0 (Z.to_nat size).

(** ** The wire format (client.go) *)

Definition newline : string := String (ascii_of_nat 10) "".
Section wire.
Variable json_text : gmap string json → string + goerror.
Definition wire (e : Event) : string :=
  (if negb (String.eqb (GetID e) "") then "id: " +:+ GetID e +:+ newline else "") +:+
  (if negb (String.eqb (GetType e) "") then "event: " +:+ GetType e +:+ newline else "") +:+
  "data: " +:+ GetData json_text e +:+ newline +:+ newline.
End wire.

(** ** The stream reader of the Go client *)

Section stream.
Context {D : Type}.                             (* decoded data *)
(** [json.Unmarshal] into the data of the event, which keeps what it held. *)
Variable Unmarshal : string → option D → D + goerror.

Record SSEEvent := mkSSEEvent { RID : string; RType : string; RData : option D }.
Definition blank_event : SSEEvent := mkSSEEvent "" "" None.

(** [queue] is the channel of events, of the given capacity. *)
Record SSEClient := mkSSEClient { lastEventID : string; queue : list SSEEvent; capacity : nat }.

(** One line of the stream. *)
Definition process_line (x : SSEEvent * SSEClient) (line : string) : SSEEvent * SSEClient :=
  let '(event, c) := x in
  if HasPrefix line "data: " then
    match Unmarshal (TrimPrefix line "data: ") (RData event) with
    | inl d => (mkSSEEvent (RID event) (RType event) (Some d), c)
    | inr _ => x
    end
  else if HasPrefix line "event: " then (mkSSEEvent (RID event) (TrimPrefix line "event: ") (RData event), c)
  else if HasPrefix line "id: " then
    let id := TrimPrefix line "id: " in
    (mkSSEEvent id (RType event) (RData event), mkSSEClient id (queue c) (capacity c))
  else if HasPrefix line "retry: " then x
  else if String.eqb line "" then
    (blank_event,
     if negb (String.eqb (RType event) "") && (length (queue c) <? capacity c)%nat
     then mkSSEClient (lastEventID c) (queue c ++ [event]) (capacity c) else c)
  else x.

(** [bufio.Scanner]: lines without their end, which may be "\r\n"; a line that
    does not fit into 64 KiB with its end stops the scan with an error. *)
Definition max_token : Z := 65536.
Definition drop_cr (line : string) : string := TrimSuffix line (String (ascii_of_nat 13) "").
Fixpoint scan (lines : list string) : list string * bool :=
  match lines with
  | [] => ([], true)
  | [line] => if max_token <=? Z.of_nat (String.length line) then ([], false) else ((if String.eqb line "" then [] else [drop_cr line]), true)
  | line :: lines =>
      if max_token <=? Z.of_nat (String.length line) then ([], false)
      else let '(ls, ok) := scan lines in (drop_cr line :: ls, ok)
  end.

(** The events read from the text of a response, and whether it was read to its
    end. *)
Definition connectAndStream (body : string) (c : SSEClient) : SSEClient * bool :=
  let '(lines, ok) := scan (Split body (ascii_of_nat 10)) in
  ((foldl process_line (blank_event, c) lines).2, ok).
End stream.

(** ** What the filters of a request let pass *)

Section filter_proofs.
Variable json_text : gmap string json → string + goerror.
Variable compile : string → option (string → bool).
Abbreviation Matches := (Matches json_text).

Lemma Build_spec fb e : Matches (Build fb) e = forallb (λ f, Matches f e) fb.
Proof. destruct fb as [|f [|g fb]]; [done|simpl; by rewrite andb_true_r|reflexivity]. Qed.

(** A parameter that is present and not empty must hold of the event. *)
Definition criterion (params : gmap string string) (key : string) (holds : string → bool) : bool :=
  match params !! key with Some v => String.eqb v "" || holds v | None => true end.

Lemma added_criterion params key add holds fb e :
  (∀ v fb, forallb (λ f, Matches f e) (add v fb) = forallb (λ f, Matches f e) fb && (String.eqb v "" || holds v)) →
  forallb (λ f, Matches f e) (if_param params key add fb) = forallb (λ f, Matches f e) fb && criterion params key holds.
Proof. intros H. unfold if_param, criterion. destruct (params !! key); [apply H|by rewrite andb_true_r]. Qed.

Lemma Split_nonnil v sep : Split v sep ≠ [].
Proof.
  unfold Split. generalize "". induction v as [|c v IH]; intros acc; [done|]. cbn [split_go]. destruct (Ascii.eqb c sep); [done|apply IH].
Qed.
Lemma add_type_spec e v fb :
  forallb (λ f, Matches f e) (AddTypeFilter v fb) =
  forallb (λ f, Matches f e) fb && (String.eqb v "" || bool_decide (GetType e ∈ TrimSpace <$> Split v ","%char)).
Proof.
  unfold AddTypeFilter. destruct (String.eqb v ""); cbn [negb orb]; [by rewrite andb_true_r|].
  rewrite forallb_app. cbn [forallb]. rewrite andb_true_r. f_equal. unfold NewTypeFilter. cbn [SseEvents.Matches].
  destruct (decide _) as [Hn|_].
  - exfalso. assert (TrimSpace <$> Split v ","%char = []) as Hs by (by destruct (TrimSpace <$> Split v ","%char) as [|x l]; [|set_solver]).
    apply fmap_nil_inv in Hs. by apply Split_nonnil in Hs.
  - apply bool_decide_ext. apply elem_of_list_to_set.
Qed.
Lemma add_resource_spec t e v fb : t ≠ "" →
  forallb (λ f, Matches f e) (AddResourceFilter t v fb) = forallb (λ f, Matches f e) fb && (String.eqb v "" || matches_resource t v e).
Proof.
  intros Ht. unfold AddResourceFilter. destruct (String.eqb_spec t "") as [|_]; [done|]. destruct (String.eqb v ""); cbn [negb orb andb]; [by rewrite andb_true_r|].
  rewrite forallb_app. cbn [forallb]. by rewrite andb_true_r.
Qed.
Lemma resource_criterion params key t fb e : t ≠ "" →
  forallb (λ f, Matches f e) (if_param params key (AddResourceFilter t) fb) =
  forallb (λ f, Matches f e) fb && criterion params key (λ v, matches_resource t v e).
Proof. intros Ht. apply added_criterion. intros v fb'. by apply add_resource_spec. Qed.
Lemma add_pattern_spec e v fb :
  forallb (λ f, Matches f e) (AddPatternFilter compile v fb) =
  forallb (λ f, Matches f e) fb && (String.eqb v "" || match compile v with Some m => m (GetType e) | None => true end).
Proof.
  unfold AddPatternFilter. destruct (String.eqb v ""); cbn [negb orb]; [by rewrite andb_true_r|].
  destruct (compile v); [|by rewrite andb_true_r]. rewrite forallb_app. cbn [forallb]. by rewrite andb_true_r.
Qed.
Lemma add_severity_spec e v fb :
  forallb (λ f, Matches f e) (AddSeverityFilter v fb) =
  forallb (λ f, Matches f e) fb && (String.eqb v "" || matches_severity json_text v e).
Proof.
  unfold AddSeverityFilter. destruct (String.eqb v ""); cbn [negb orb]; [by rewrite andb_true_r|].
  rewrite forallb_app. cbn [forallb]. by rewrite andb_true_r.
Qed.

(** The filter of a request lets an event pass exactly when every parameter
    that is given holds of it: its type is listed, it belongs to each resource
    named, its type matches the pattern, its severity is high enough.  A pattern
    that does not compile is the same as no pattern. *)
Theorem filters_from_params params e :
  let resource t v := matches_resource t v e in
  Matches (ParseFiltersFromParams compile params) e =
    criterion params "types" (λ v, bool_decide (GetType e ∈ TrimSpace <$> Split v ","%char)) &&
    criterion params "bot_id" (resource "bot") && criterion params "job_id" (resource "job") &&
    criterion params "campaign_id" (resource "campaign") && criterion params "crash_id" (resource "crash") &&
    criterion params "corpus_id" (resource "corpus") &&
    criterion params "pattern" (λ v, match compile v with Some m => m (GetType e) | None => true end) &&
    criterion params "min_severity" (λ v, matches_severity json_text v e).
Proof.
  cbv zeta. unfold ParseFiltersFromParams. rewrite Build_spec.
  rewrite (added_criterion _ _ _ _ _ _ (add_severity_spec e)), (added_criterion _ _ _ _ _ _ (add_pattern_spec e)).
  rewrite !resource_criterion by done.
  by rewrite (added_criterion _ _ _ _ _ _ (add_type_spec e)).
Qed.

(** Raising the minimum only takes events away. *)
Lemma severity_monotone s s' l l' e :
  level s = Some l → level s' = Some l' → l ≤ l' → matches_severity json_text s' e = true → matches_severity json_text s e = true.
Proof.
  unfold matches_severity. intros -> -> Hl. destruct (event_severity json_text e) as [sv|]; [|done].
  destruct (String.eqb sv ""); [done|]. destruct (level sv) as [n|]; [|done]. rewrite !Z.leb_le. lia.
Qed.

End filter_proofs.

(** ** From the wire to the reader *)

Section stream_proofs.
Context {D : Type}.
Variable json_text : gmap string json → string + goerror.
Variable Unmarshal : string → option D → D + goerror.
Abbreviation wire := (wire json_text).
Abbreviation GetData := (GetData json_text).
Abbreviation process_line := (process_line Unmarshal).
Let nl : ascii := ascii_of_nat 10.
Let cr : ascii := ascii_of_nat 13.

Definition lines_of (e : Event) : list string :=
  (if negb (String.eqb (GetID e) "") then ["id: " +:+ GetID e] else []) ++
  (if negb (String.eqb (GetType e) "") then ["event: " +:+ GetType e] else []) ++
  ["data: " +:+ GetData e; ""].
(** A line that is read back as it was written: no line end inside, and short
    enough. *)
Definition clean (line : string) : Prop :=
  has_char nl line = false ∧ has_char cr line = false ∧ Z.of_nat (String.length line) < max_token.

Definition ended (l : list string) : string := foldr (λ line s, line +:+ newline +:+ s) "" l.

Lemma ended_app l1 l2 : ended (l1 ++ l2) = ended l1 +:+ ended l2.
Proof.
  induction l1 as [|x l1 IH]; [done|]. change (ended ((x :: l1) ++ l2)) with (x +:+ newline +:+ ended (l1 ++ l2)).
  rewrite IH. change (ended (x :: l1)) with (x +:+ newline +:+ ended l1). by rewrite !string_app_assoc.
Qed.
Lemma wire_lines e : wire e = ended (lines_of e).
Proof.
  assert (∀ l, ended [l] = l +:+ newline) as H1 by (intros l; cbn [ended foldr]; by rewrite app_empty_r).
  unfold SseEvents.wire, lines_of. rewrite !ended_app. destruct (negb (String.eqb (GetID e) "")), (negb (String.eqb (GetType e) ""));
    rewrite ?H1; change (ended ["data: " +:+ GetData e; ""]) with (("data: " +:+ GetData e) +:+ newline +:+ newline);
    by rewrite !string_app_assoc.
Qed.

Lemma Split_ended l s : (∀ x, x ∈ l → has_char nl x = false) → Split (ended l +:+ s) nl = l ++ Split s nl.
Proof.
  induction l as [|x l IH]; intros Hl; [done|]. change (ended (x :: l)) with (x +:+ newline +:+ ended l).
  rewrite !string_app_assoc. unfold Split. rewrite split_go_no_sep by (apply Hl; left). change (newline +:+ ?t) with (String nl t).
  cbn [split_go]. rewrite Ascii.eqb_refl, rev_string_involutive. simpl (_ +:+ x). simpl app. f_equal. apply IH. intros y Hy. apply Hl. by right.
Qed.

Lemma has_char_rev c s acc : has_char c (rev_string s acc) = has_char c s || has_char c acc.
Proof.
  revert acc. induction s as [|d s IH]; intros acc; [done|]. cbn [rev_string has_char]. rewrite IH. cbn [has_char].
  destruct (Ascii.eqb d c), (has_char c s), (has_char c acc); done.
Qed.
Lemma drop_cr_id line : has_char cr line = false → drop_cr line = line.
Proof.
  intros H. unfold drop_cr, TrimSuffix, TrimPrefix. change (rev_string (String (ascii_of_nat 13) "") "") with (String cr "").
  assert (HasPrefix (rev_string line "") (String cr "") = false) as ->; [|by rewrite rev_string_involutive].
  pose proof (has_char_rev cr line "") as Hr. rewrite H in Hr. simpl in Hr. destruct (rev_string line "") as [|c s]; [done|].
  cbn [has_char] in Hr. apply orb_false_iff in Hr as [Hc _]. unfold HasPrefix. cbn [String.prefix].
  destruct (ascii_dec cr c) as [->|]; [by rewrite Ascii.eqb_refl in Hc|done].
Qed.

Lemma scan_app l rest : (∀ x, x ∈ l → clean x) → rest ≠ [] → scan (l ++ rest) = (l ++ (scan rest).1, (scan rest).2).
Proof.
  induction l as [|x l IH]; intros Hl Hr; [simpl; by destruct (scan rest)|]. destruct (Hl x) as (_ & Hc & Hlen); [left|].
  assert (l ++ rest ≠ []) as Hne by (by destruct l). simpl app. destruct (l ++ rest) as [|y t] eqn:E; [done|].
  change (scan (x :: y :: t)) with
    (if max_token <=? Z.of_nat (String.length x) then ([], false) else let '(ls, ok) := scan (y :: t) in (drop_cr x :: ls, ok)).
  rewrite (proj2 (Z.leb_gt _ _) Hlen). rewrite IH; [|intros z Hz; apply Hl; by right|done]. by rewrite drop_cr_id.
Qed.

Definition received (e : Event) : SSEEvent :=
  mkSSEEvent (GetID e) (GetType e) (match Unmarshal (GetData e) None with inl d => Some d | inr _ => None end).
(** What an event makes of the reader. *)
Definition after (c : SSEClient) (e : Event) : SSEClient :=
  mkSSEClient (if String.eqb (GetID e) "" then lastEventID c else GetID e)
    (if negb (String.eqb (GetType e) "") && (length (queue c) <? capacity c)%nat then queue c ++ [received e] else queue c)
    (capacity c).

Lemma process_id event c x : process_line (event, c) ("id: " +:+ x) =
  (mkSSEEvent x (RType event) (RData event), mkSSEClient x (queue c) (capacity c)).
Proof. unfold SseEvents.process_line. change (HasPrefix ("id: " +:+ x) "data: ") with false.
  change (HasPrefix ("id: " +:+ x) "event: ") with false. change (HasPrefix ("id: " +:+ x) "id: ") with (HasPrefix x "").
  assert (HasPrefix x "" = true) as -> by (by destruct x). by rewrite TrimPrefix_app. Qed.
Lemma process_type event c x : process_line (event, c) ("event: " +:+ x) = (mkSSEEvent (RID event) x (RData event), c).
Proof. unfold SseEvents.process_line. change (HasPrefix ("event: " +:+ x) "data: ") with false.
  change (HasPrefix ("event: " +:+ x) "event: ") with (HasPrefix x "").
  assert (HasPrefix x "" = true) as -> by (by destruct x). by rewrite TrimPrefix_app. Qed.
Lemma process_data event c x : process_line (event, c) ("data: " +:+ x) =
  (mkSSEEvent (RID event) (RType event) (match Unmarshal x (RData event) with inl d => Some d | inr _ => RData event end), c).
Proof. unfold SseEvents.process_line. change (HasPrefix ("data: " +:+ x) "data: ") with (HasPrefix x "").
  assert (HasPrefix x "" = true) as -> by (by destruct x). rewrite TrimPrefix_app. destruct (Unmarshal x _); [done|by destruct event]. Qed.

Lemma process_event e c : foldl process_line (blank_event, c) (lines_of e) = (blank_event, after c e).
Proof.
  unfold lines_of, after. rewrite !foldl_app.
  destruct (String.eqb_spec (GetID e) "") as [Hi|Hi], (String.eqb_spec (GetType e) "") as [Ht|Ht];
    cbn [negb foldl]; rewrite ?process_id, ?process_type, process_data; cbn [RID RType RData blank_event];
    unfold SseEvents.process_line; change (HasPrefix "" _) with false; cbv iota; cbn [String.eqb RType blank_event queue capacity lastEventID].
  - by destruct c.
  - destruct (String.eqb_spec (GetType e) ""); [done|]. cbn [negb andb]. unfold received. rewrite Hi.
    destruct (length (queue c) <? capacity c)%nat; by destruct c.
  - done.
  - destruct (String.eqb_spec (GetType e) ""); [done|]. cbn [negb andb]. unfold received. by destruct (length (queue c) <? capacity c)%nat.
Qed.

Lemma process_events es c : foldl process_line (blank_event, c) (concat (map lines_of es)) = (blank_event, foldl after c es).
Proof.
  revert c. induction es as [|e es IH]; intros c; [done|]. cbn [map concat]. rewrite foldl_app, process_event. apply IH.
Qed.

Definition typed (e : Event) : bool := negb (String.eqb (GetType e) "").
Lemma after_queue es c : capacity (foldl after c es) = capacity c ∧
  queue (foldl after c es) = take (Nat.max (length (queue c)) (capacity c)) (queue c ++ (received <$> List.filter typed es)).
Proof.
  revert c. induction es as [|e es IH]; intros c.
  { split; [done|]. simpl. rewrite app_nil_r. symmetry. apply take_ge. lia. }
  cbn [foldl]. destruct (IH (after c e)) as [H1 H2]. split; [exact H1|]. rewrite H2. cbn [List.filter]. unfold after at 1 2 3. unfold typed at 2.
  cbn [queue capacity]. destruct (negb (String.eqb (GetType e) "")); [|done]. cbn [andb fmap list_fmap].
  destruct (Nat.ltb_spec (length (queue c)) (capacity c)) as [Hl|Hl].
  - rewrite length_app. cbn [length]. rewrite <- app_assoc. cbn [app]. f_equal. lia.
  - rewrite (Nat.max_l (length (queue c)) (capacity c)) by lia. by rewrite !take_app_length.
Qed.

Definition all_clean (es : list Event) : Prop := ∀ e line, e ∈ es → line ∈ lines_of e → clean line.

Lemma all_lines es : all_clean es → ∀ line, line ∈ concat (map lines_of es) → clean line.
Proof.
  intros H line Hl. apply list_elem_of_In, in_concat in Hl as (ls & Hls & Hin). apply in_map_iff in Hls as (e & <- & He).
  apply (H e); by apply list_elem_of_In.
Qed.
Lemma body_lines es : foldr (λ e s, wire e +:+ s) "" es = ended (concat (map lines_of es)).
Proof. induction es as [|e es IH]; [done|]. cbn [foldr map concat]. by rewrite ended_app, IH, wire_lines. Qed.

(** C18: What the server writes, the Go client reads: from a response that holds
    the given events, none of which has a line end inside or a line of 64 KiB,
    the client takes exactly the events with a type, each with its ID, type and
    decoded data, in order, as many as its channel has room for; and its last
    event ID is that of the last event with one, whether there was room or not. *)
Theorem stream_round_trip es c :
  all_clean es → (length (queue c) ≤ capacity c)%nat →
  connectAndStream Unmarshal (foldr (λ e s, wire e +:+ s) "" es) c =
    (mkSSEClient (foldl (λ id e, if String.eqb (GetID e) "" then id else GetID e) (lastEventID c) es)
       (take (capacity c) (queue c ++ (received <$> List.filter typed es))) (capacity c), true).
Proof.
  intros Hc Hq. unfold connectAndStream. rewrite body_lines. fold nl.
  rewrite <- (app_empty_r (ended _)), Split_ended by (intros x Hx; by apply (all_lines es)).
  change (Split "" nl) with [""]. rewrite scan_app; [|by apply all_lines|done]. cbn [scan fst snd String.length]. simpl (_ <=? _). cbv iota.
  cbn [fst snd String.eqb]. rewrite app_nil_r, process_events. cbn [snd]. f_equal.
  destruct (after_queue es c) as [H1 H2]. assert (lastEventID (foldl after c es) = foldl (λ id e, if String.eqb (GetID e) "" then id else GetID e) (lastEventID c) es) as H3.
  { clear. revert c. induction es as [|e es IH]; intros c; [done|]. cbn [foldl]. rewrite IH. done. }
  destruct (foldl after c es) as [id qu cap]. simpl in H1, H2, H3. subst. f_equal. by rewrite Nat.max_r.
Qed.

(** An event whose data do not fit into a line of 64 KiB ends the stream
    with an error: it and all events after it are lost, although the client has
    taken its ID as the last one it saw. *)
Theorem large_event_ends_stream es e rest c :
  all_clean es → GetID e ≠ "" → clean ("id: " +:+ GetID e) → (GetType e ≠ "" → clean ("event: " +:+ GetType e)) →
  has_char nl (GetData e) = false → max_token - 6 ≤ Z.of_nat (String.length (GetData e)) →
  connectAndStream Unmarshal (foldr (λ e s, wire e +:+ s) "" (es ++ e :: rest)) c =
    (mkSSEClient (GetID e) (queue (foldl after c es)) (capacity c), false).
Proof.
  intros Hc Hid Hcid Hct Hnl Hlen. unfold connectAndStream. rewrite body_lines, map_app. cbn [map]. rewrite concat_app. cbn [concat].
  set (pre := (if negb (String.eqb (GetType e) "") then ["event: " +:+ GetType e] else [])).
  assert (lines_of e = ("id: " +:+ GetID e) :: pre ++ ["data: " +:+ GetData e; ""]) as ->
    by (unfold lines_of, pre; destruct (String.eqb_spec (GetID e) ""); done).
  set (tail := concat (map lines_of rest)). set (first := concat (map lines_of es)).
  assert (first ++ (("id: " +:+ GetID e) :: pre ++ ["data: " +:+ GetData e; ""]) ++ tail =
    (first ++ ("id: " +:+ GetID e) :: pre) ++ ("data: " +:+ GetData e) :: "" :: tail) as ->
    by (rewrite <- !app_assoc; cbn [app]; by rewrite <- app_assoc).
  assert (∀ x, x ∈ first ++ ("id: " +:+ GetID e) :: pre → clean x) as Hpre.
  { intros x [Hx|[->|Hx]%elem_of_cons]%elem_of_app; [by apply (all_lines es)|done|]. unfold pre in Hx.
    destruct (String.eqb_spec (GetType e) "") as [|Ht]; [by apply not_elem_of_nil in Hx|]. apply list_elem_of_singleton in Hx as ->. by apply Hct. }
  rewrite ended_app. fold nl. rewrite Split_ended by (intros x Hx; by apply Hpre).
  change (ended (("data: " +:+ GetData e) :: "" :: tail)) with (("data: " +:+ GetData e) +:+ newline +:+ ended ("" :: tail)).
  assert (Split (("data: " +:+ GetData e) +:+ newline +:+ ended ("" :: tail)) nl = ("data: " +:+ GetData e) :: Split (ended ("" :: tail)) nl) as ->.
  { unfold Split. rewrite split_go_no_sep by exact Hnl. change (newline +:+ ?t) with (String nl t). cbn [split_go].
    by rewrite Ascii.eqb_refl, rev_string_involutive. }
  rewrite scan_app; [|exact Hpre|done].
  assert (scan (("data: " +:+ GetData e) :: Split (ended ("" :: tail)) nl) = ([], false)) as ->.
  { assert (max_token <= Z.of_nat (String.length ("data: " +:+ GetData e))) as Hm by (change (String.length ("data: " +:+ GetData e)) with (6 + String.length (GetData e))%nat; lia).
    apply Z.leb_le in Hm. cbn [scan]. rewrite Hm. by destruct (Split _ _). }
  cbn [fst snd]. rewrite app_nil_r, foldl_app. unfold first. rewrite process_events. cbn [foldl]. rewrite process_id.
  f_equal. destruct (after_queue es c) as [Hcap _]. unfold pre. destruct (negb _); cbn [foldl]; rewrite ?process_type; cbn [snd]; by rewrite Hcap.
Qed.

End stream_proofs.

(** ** What the history replays *)

Section history.
Local Open Scope nat_scope.

Definition stored (x : Event * Time) : StoredEvent := mkStored (Some x.1) x.2 (GetID x.1).
Fixpoint add_all (eh : EventHistory) (es : list (Event * Time)) : res EventHistory :=
  match es with [] => Ok eh | x :: es => let! eh := Add x.1 x.2 eh in add_all eh es end.

(** The events of a sequence of slots after the one with the given ID. *)
Fixpoint since (id : string) (found : bool) (l : list StoredEvent) : list StoredEvent :=
  match l with
  | [] => []
  | x :: l =>
      if negb found then since id (String.eqb (SID x) id) l
      else match SEvent x with Some _ => x :: since id found l | None => since id found l end
  end.

(** The slots before and from the current one; the oldest is the current one. *)
Definition ring (N : nat) (hist : list StoredEvent) (eh : EventHistory) (A B : list StoredEvent) : Prop :=
  slots eh = A ++ B ∧ current eh = Z.of_nat (length A) ∧ maxSize eh = Z.of_nat N ∧ length A + length B = N ∧ 0 < length B ∧
  length A = length hist mod N ∧ B ++ A = drop (length hist) (replicate N no_event ++ hist) ∧ full eh = (N <=? length hist).

Lemma ring_add N hist eh A B x : ring N hist eh A B →
  ∃ eh' A' B', Add x.1 x.2 eh = Ok eh' ∧ ring N (hist ++ [stored x]) eh' A' B'.
Proof.
  intros (Hs & Hc & Hm & HN & HB & HA & Hr & Hf). destruct B as [|b B]; [simpl in HB; lia|]. clear HB. simpl in HN.
  unfold Add. rewrite Hc, Hs, length_app. cbn [length].
  rewrite (proj2 (Z.leb_le _ _)), (proj2 (Z.ltb_lt _ _)) by lia. cbn [andb]. rewrite Nat2Z.id, insert_app_r_alt, Nat.sub_diag by done.
  cbn [insert list_insert]. fold (stored x). rewrite Hm.
  set (L := replicate N no_event ++ hist) in *. assert (length L = N + length hist) as HL by (unfold L; rewrite length_app, length_replicate; lia).
  assert (drop (length (hist ++ [stored x])) (replicate N no_event ++ hist ++ [stored x]) = B ++ A ++ [stored x]) as Hrec.
  { rewrite app_assoc. fold L. rewrite length_app. cbn [length]. rewrite drop_app_le by (rewrite HL; lia).
    rewrite <- drop_drop, <- Hr. cbn [app]. change (drop 1 (b :: B ++ A)) with (B ++ A). by rewrite <- app_assoc. }
  rewrite length_app in *. cbn [length] in *. destruct B as [|b' B].
  - cbn [length] in HN. assert ((Z.of_nat (length A) + 1) mod Z.of_nat N = 0)%Z as ->.
    { rewrite <- HN, Nat2Z.inj_add. apply Z_mod_same_full. }
    eexists _, [], (A ++ [stored x]). split; [reflexivity|]. split; [done|]. split; [done|]. split; [done|].
    rewrite !length_app. cbn [length]. split; [lia|]. split; [lia|]. split; [|split; [by rewrite app_nil_r|]].
    + rewrite Nat.Div0.add_mod, <- HA. rewrite <- HN. destruct (decide (length A = 0)) as [E|E]; [rewrite E; done|].
      rewrite (Nat.mod_small 1) by lia. by rewrite Nat.Div0.mod_same.
    + simpl. symmetry. apply Nat.leb_le. pose proof (Nat.Div0.mod_le (length hist) N). lia.
  - cbn [length] in HN. assert ((Z.of_nat (length A) + 1) mod Z.of_nat N = Z.of_nat (length A + 1))%Z as ->.
    { rewrite Z.mod_small; lia. }
    assert (length A + 1 = (length hist + 1) mod N) as HA'.
    { rewrite Nat.Div0.add_mod, <- HA. rewrite (Nat.mod_small 1) by lia. symmetry. apply Nat.mod_small. lia. }
    rewrite (proj2 (Z.eqb_neq _ 0)) by lia. eexists _, (A ++ [stored x]), (b' :: B). split; [reflexivity|].
    split; [by rewrite <- app_assoc|]. split; [by rewrite length_app|]. split; [done|]. rewrite !length_app. cbn [length].
    split; [lia|]. split; [lia|]. split; [done|]. split; [symmetry; exact Hrec|]. simpl. rewrite Hf.
    destruct (Nat.leb_spec N (length hist)), (Nat.leb_spec N (length hist + 1)); try done; [lia|].
    assert (length hist + 1 = N) as E by lia. rewrite E, Nat.Div0.mod_same in HA'. lia.
Qed.

Lemma ring_all N hist es eh A B : ring N hist eh A B →
  ∃ eh' A' B', add_all eh es = Ok eh' ∧ ring N (hist ++ (stored <$> es)) eh' A' B'.
Proof.
  revert hist eh A B. induction es as [|x es IH]; intros hist eh A B H; [exists eh, A, B; by rewrite app_nil_r|].
  destruct (ring_add N hist eh A B x H) as (eh1 & A1 & B1 & E1 & H1). destruct (IH _ _ _ _ H1) as (eh' & A' & B' & E' & H').
  exists eh', A', B'. cbn [add_all]. rewrite E1. split; [exact E'|]. by rewrite <- app_assoc in H'.
Qed.

(** The loop goes through the slots from [start] on, wrapping around. *)
Lemma collect_since N hist eh A B id l : ring N hist eh A B →
  ∀ start found i, (∀ k, k < length l → slots eh !! Z.to_nat ((start + Z.of_nat (i + k)) mod Z.of_nat N)%Z = l !! k) →
  collect eh id start found (Z.of_nat i) (length l) = since id found l.
Proof.
  intros (_ & _ & Hm & _) start. induction l as [|x l IH]; intros found i Hl; [done|]. cbn [length collect since]. rewrite Hm.
  pose proof (Hl 0 ltac:(simpl; lia)) as H0. rewrite Nat.add_0_r in H0. rewrite H0. change (default no_event ((x :: l) !! 0)) with x.
  replace (Z.of_nat i + 1)%Z with (Z.of_nat (S i)) by lia.
  assert (∀ k, k < length l → slots eh !! Z.to_nat ((start + Z.of_nat (S i + k)) mod Z.of_nat N)%Z = l !! k) as Hl'.
  { intros k Hk. specialize (Hl (S k) ltac:(simpl; lia)). rewrite Nat.add_succ_r in Hl. exact Hl. }
  destruct (negb found); [by apply IH|]. destruct (SEvent x); [f_equal|]; by apply IH.
Qed.

(** The history holds the last events, but replays them wrongly.  Until it is
    full the loop starts at the first free slot, so that of [n] events only the
    first [2n - N] are found, none at all while it is at most half full; when it
    is full it starts at slot 0, so that the newest [n mod N] events come before
    the older ones.  It never panics when its size is positive. *)
Theorem history_replay N es id eh0 :
  0 < N → NewEventHistory (Z.of_nat N) = Ok eh0 →
  let hist := stored <$> es in let n := length es in let r := n mod N in
  ∃ eh, add_all eh0 es = Ok eh ∧
    GetEventsAfter id eh = since id (String.eqb id "")
      (if n <? N then take n (replicate (N - n) no_event ++ hist) else drop (n - r) hist ++ take (N - r) (drop (n - N) hist)) ∧
    (2 * n ≤ N → GetEventsAfter "" eh = []) ∧ (N ≤ n → r = 0 → GetEventsAfter "" eh = drop (n - N) hist).
Proof.
  intros HN E0 hist n r. unfold NewEventHistory in E0. rewrite (proj2 (Z.ltb_ge _ 0)) in E0 by lia. injection E0 as <-. rewrite Nat2Z.id.
  set (eh0 := mkHistory _ _ _ _).
  destruct (ring_all N [] es eh0 [] (replicate N no_event)) as (eh & A & B & E & H).
  { split_and!; try done; simpl; rewrite ?length_replicate, ?app_nil_r; try lia; [symmetry; apply Nat.Div0.mod_0_l|]. symmetry. apply Nat.leb_gt. lia. }
  exists eh. split; [exact E|]. change ([] ++ (stored <$> es)) with hist in H. assert (length hist = n) as Hn by apply length_fmap.
  pose proof H as (Hs & Hc & Hm & HAB & HB & HA & Hr & Hf). rewrite Hn in HA, Hr, Hf. fold r in HA.
  assert (∀ id, GetEventsAfter id eh = since id (String.eqb id "")
      (if n <? N then take n (replicate (N - n) no_event ++ hist) else drop (n - r) hist ++ take (N - r) (drop (n - N) hist))) as Hget.
  { intros id'. unfold GetEventsAfter. rewrite Hf, Hc, Hm. destruct (Nat.ltb_spec n N) as [Hlt|Hge].
    - rewrite (proj2 (Nat.leb_gt N n)) by lia. cbn [negb]. rewrite Nat2Z.id.
      assert (r = n) as Hrn by (by apply Nat.mod_small). rewrite Hrn in HA.
      assert (B ++ A = replicate (N - n) no_event ++ hist) as HBA.
      { rewrite Hr, drop_app_le by (rewrite length_replicate; lia). by rewrite drop_replicate. }
      rewrite <- HBA. replace (length A) with (length (take n (B ++ A))) at 2 by (rewrite length_take, length_app; lia).
      refine (collect_since N hist eh A B id' _ H (Z.of_nat (length A)) _ 0 _). intros k Hk. rewrite length_take, length_app in Hk.
      rewrite Hs, lookup_take_lt by lia. cbn [Nat.add].
      destruct (decide (k < length B)) as [Hkb|Hkb].
      + rewrite Z.mod_small by lia. rewrite lookup_app_r by lia. rewrite lookup_app_l by done. f_equal. lia.
      + replace (Z.of_nat (length A) + Z.of_nat k)%Z with (Z.of_nat (k - length B) + 1 * Z.of_nat N)%Z by lia.
        rewrite Z_mod_plus_full, Z.mod_small by lia. rewrite Nat2Z.id, lookup_app_l by lia. by rewrite lookup_app_r by lia.
    - rewrite (proj2 (Nat.leb_le N n)) by lia. cbn [negb]. rewrite Nat2Z.id.
      assert (B ++ A = drop (n - N) hist) as HBA.
      { rewrite Hr, drop_app_ge by (rewrite length_replicate; lia). by rewrite length_replicate. }
      assert (length B = N - r) as HlB by lia.
      assert (take (N - r) (drop (n - N) hist) = B) as -> by (rewrite <- HBA, <- HlB; apply take_app_length).
      assert (drop (n - r) hist = A) as ->.
      { replace (n - r) with ((n - N) + (N - r)) by lia. rewrite <- drop_drop, <- HBA, <- HlB. apply drop_app_length. }
      replace N with (length (A ++ B)) at 1 by (rewrite length_app; lia).
      refine (collect_since N hist eh A B id' _ H 0%Z _ 0 _). intros k Hk. rewrite length_app in Hk. rewrite Hs, Z.mod_small by lia. f_equal. lia. }
  split; [apply Hget|]. split.
  - intros H2. rewrite Hget. rewrite (proj2 (Nat.ltb_lt n N)) by lia. rewrite take_app_le by (rewrite length_replicate; lia).
    rewrite take_replicate. replace (n `min` (N - n)) with n by lia. clear. induction n as [|n IH]; [done|]. exact IH.
  - intros Hge Hr0. rewrite Hget. rewrite (proj2 (Nat.ltb_ge n N)) by lia. rewrite Hr0, !Nat.sub_0_r.
    rewrite drop_ge by lia. rewrite take_ge by (rewrite length_drop; lia). cbn [app String.eqb].
    assert (∀ l, since "" true (stored <$> l) = stored <$> l) as K by (intros l; induction l as [|x l IH]; [done|]; cbn [fmap list_fmap since negb SEvent stored]; by f_equal).
    unfold hist. rewrite <- fmap_drop. apply K.
Qed.

End history.

(** ** Witnesses *)

Definition demo_event (id type : string) : Event := SystemEvent (mkBaseEvent id type 0 ∅) "" "".
Definition demo_reader : SSEClient (D := string) := mkSSEClient "" [] 100.
Definition demo_text (_ : gmap string json) : string + goerror := inl "{}".
Definition keep_text (s : string) (_ : option string) : string + goerror := inl s.

Lemma stream_round_trip_witness :
  connectAndStream keep_text (foldr (λ e s, wire demo_text e +:+ s) "" [demo_event "e1" "job.created"; demo_event "e2" ""]) demo_reader =
    (mkSSEClient "e2" [mkSSEEvent "e1" "job.created" (Some "{}")] 100, true).
Proof.
  rewrite (stream_round_trip demo_text keep_text [demo_event "e1" "job.created"; demo_event "e2" ""] demo_reader).
  - reflexivity.
  - intros e line He Hl. assert (Forall clean (lines_of demo_text e)) as HF; [|by apply (proj1 (Forall_forall _ _) HF)].
    repeat (apply elem_of_cons in He as [->|He]; [repeat constructor|]). by apply not_elem_of_nil in He.
  - simpl. lia.
Defined.

Definition big_text (_ : gmap string json) : string + goerror := inl (string_of_list_ascii (repeat "x"%char (Z.to_nat 65530))).
Lemma large_event_ends_stream_witness :
  (connectAndStream keep_text (foldr (λ e s, wire big_text e +:+ s) "" ([] ++ demo_event "e1" "crash.detected" :: [])) demo_reader) =
    (mkSSEClient "e1" [] 100, false).
Proof.
  rewrite (large_event_ends_stream big_text keep_text [] (demo_event "e1" "crash.detected") [] demo_reader).
  - reflexivity.
  - intros e line He. by apply not_elem_of_nil in He.
  - discriminate.
  - repeat split.
  - intros _. repeat split.
  - vm_compute. reflexivity.
  - apply Z.leb_le. vm_compute. reflexivity.
Defined.

Lemma history_replay_witness :
  ∃ eh, add_all (mkHistory (replicate 4 no_event) 4 0 false) [(demo_event "e1" "a", 1); (demo_event "e2" "b", 2)] = Ok eh ∧
    GetEventsAfter "" eh = [].
Proof.
  destruct (history_replay 4 [(demo_event "e1" "a", 1); (demo_event "e2" "b", 2)] "" (mkHistory (replicate 4 no_event) 4 0 false))
    as (eh & E & _ & H & _); [lia|reflexivity|]. exists eh. split; [exact E|]. apply H. simpl. lia.
Defined.
