(* ===== verification/SseManager.v ===== *)
(** * The manager of server-sent events (pkg/api/v1/sse/manager.go, client.go)

    Clients are reached by their pointers, numbers into [heap]; the maps of the
    manager hold pointers.  The three channels of the manager and the channel of
    a client are bounded queues; a [select] between two ready cases takes the
    one its [choice] says.  The manager is one [op] after the other: calls of
    the API, one turn of the event loop, the end of a request, and so on; but a
    client may be closed by the goroutine that serves it between the check and
    the send of [SendEvent], whoever the sender is.  The limiter of
    golang.org/x/time/rate, the writes to the response and those closes are
    parameters. *)

From S2P Require Import Prelude SseEvents.

Definition ErrManagerAlreadyRunning : goerror := ErrNew "SSE manager is already running".
Definition ErrManagerNotRunning : goerror := ErrNew "SSE manager is not running".
Definition ErrManagerStopped : goerror := ErrNew "SSE manager has been stopped".
Definition ErrMaxClientsReached : goerror := ErrNew "maximum number of clients reached".
Definition ErrRegistrationQueueFull : goerror := ErrNew "client registration queue is full".
Definition ErrUnregistrationQueueFull : goerror := ErrNew "client unregistration queue is full".
Definition ErrBroadcastQueueFull : goerror := ErrNew "broadcast queue is full".
Definition ErrClientNotFound : goerror := ErrNew "client not found".
Definition ErrClientClosed : goerror := ErrNew "client connection is closed".
Definition ErrRateLimited : goerror := ErrNew "event dropped due to rate limiting".
Definition ErrBufferFull : goerror := ErrNew "client buffer is full".

Record Config := mkConfig {
  MaxClients : Z; ClientTimeout : Duration; WriteTimeout : Duration; HeartbeatInterval : Duration;
  EventBufferSize : Z; ClientBufferSize : Z; BroadcastBufferSize : Z; MaxEventsPerSecond : Z; BurstSize : Z;
  CleanupInterval : Duration; MaxEventHistory : Z }.
Definition DefaultConfig : Config :=
  mkConfig 1000 (5 * Minute) (10 * Second) (30 * Second) 1000 100 10000 100 200 (1 * Minute) 10000.

Section sse.
Context {L : Type}.                              (* the state of a rate limiter *)
Variable Allow : Time → L → bool * L.
Variable json_text : gmap string json → string + goerror.
(** The order in which a map of clients is ranged over. *)
Variable order : list (string * nat) → list (string * nat).

(** ** Clients *)

(** [ctx_done] is the end of the context of the client, by the request or by
    [Close]; [output] is what was written to the response. *)
Record Client := mkClient {
  ClientID : string; Send : list Event; BufferSize : Z; Topics : gset string; Filters : list Filter;
  LastEventID : string; Connected : Time; limiter : L; ctx_done : bool; closed : bool;
  eventsSent : Z; eventsDropped : Z; lastActivity : Time; output : string }.
#[export] Instance Client_eta : Eta Client := fun c =>
  mkClient (ClientID c) (Send c) (BufferSize c) (Topics c) (Filters c) (LastEventID c) (Connected c) (limiter c)
    (ctx_done c) (closed c) (eventsSent c) (eventsDropped c) (lastActivity c) (output c).
Implicit Types (c : Client).

(** [make] of a channel with a negative size panics. *)
Definition makechan_panic : string := "makechan: size out of range".
Definition NewClient (id lastEventID : string) (bufferSize : Z) (l : L) (now : Time) : res Client :=
  if bufferSize <? 0 then Panic makechan_panic
  else Ok (mkClient id [] bufferSize ∅ [] lastEventID now l false false 0 0 now "").

Definition IsAlive c : bool := negb (closed c) && negb (ctx_done c).
Definition passesFilters (e : Event) c : bool := forallb (λ f, Matches json_text f e) (Filters c).
Definition AddFilter (f : Filter) c : Client := c <| Filters := Filters c ++ [f] |>.
Definition RemoveFilter (filterIndex : Z) c : Client :=
  if (0 <=? filterIndex) && (filterIndex <? Z.of_nat (length (Filters c)))
  then c <| Filters := take (Z.to_nat filterIndex) (Filters c) ++ drop (S (Z.to_nat filterIndex)) (Filters c) |> else c.
Definition Close c : Client := if closed c then c else c <| closed := true |> <| ctx_done := true |>.

(** [SendEvent] up to its send: an outcome, or the client on which it goes on. *)
Inductive begun := Refused (err : option goerror) (c : Client) | Ready (c : Client).
Definition send_begin (now : Time) (e : Event) c : begun :=
  if closed c then Refused (Some ErrClientClosed) c
  else if negb (passesFilters e c) then Refused None c
  else
    let '(ok, l) := Allow now (limiter c) in
    let c := c <| limiter := l |> in
    if negb ok then Refused (Some ErrRateLimited) (c <| eventsDropped := eventsDropped c + 1 |>) else Ready c.
Definition send_panic : string := "send on closed channel".
(** Its send, which does not look at [closed] again. *)
Definition send_commit (e : Event) c : res (option goerror * Client) :=
  if closed c then Panic send_panic
  else if Z.of_nat (length (Send c)) <? BufferSize c then Ok (None, c <| Send := Send c ++ [e] |>)
  else Ok (Some ErrBufferFull, c <| eventsDropped := eventsDropped c + 1 |>).
(** Whether the client is closed between the two. *)
Variable closed_meanwhile : Time → Client → bool.
Definition SendEvent (now : Time) (e : Event) c : res (option goerror * Client) :=
  match send_begin now e c with
  | Refused err c => Ok (err, c)
  | Ready c => send_commit e (if closed_meanwhile now c then Close c else c)
  end.

(** Writing an event to the response; [ok] is what the write came to. *)
Definition sendEvent (ok : option goerror) (now : Time) (e : Event) c : option goerror * Client :=
  if closed c then (Some ErrClientClosed, c)
  else
    let c := if negb (String.eqb (GetID e) "") then c <| LastEventID := GetID e |> else c in
    match ok with
    | Some err => (Some (ErrWrap "failed to send SSE event" err), c)
    | None => (None, c <| output := output c +:+ wire json_text e |> <| eventsSent := eventsSent c + 1 |> <| lastActivity := now |>)
    end.
(** One turn of the loop of [ServeSSE]: whether it goes on.  Between an event and
    the end of the context the [choice] decides. *)
Definition serve (choice : bool) (ok : option goerror) (now : Time) c : bool * Client :=
  match Send c with
  | e :: queue =>
      if ctx_done c && negb choice then (false, Close c)
      else match sendEvent ok now e (c <| Send := queue |>) with
      | (None, c) => (true, c)
      | (Some _, c) => (false, Close c)
      end
  | [] => if closed c || ctx_done c then (false, Close c) else (true, c)
  end.

(** ** The manager *)

Record Manager := mkManager {
  heap : gmap nat Client; clients : gmap string nat; register : list nat; unregister : list nat; broadcast : list Event;
  topics : gmap string (gmap string nat); config : Config;
  activeClients : Z; totalClients : Z; sentEvents : Z; running : bool; cancelled : bool }.
#[export] Instance Manager_eta : Eta Manager := fun m =>
  mkManager (heap m) (clients m) (register m) (unregister m) (broadcast m) (topics m) (config m)
    (activeClients m) (totalClients m) (sentEvents m) (running m) (cancelled m).
Implicit Types (m : Manager) (p : nat).

Definition new_manager (config : Config) : Manager := mkManager ∅ ∅ [] [] [] ∅ config 0 0 0 false false.
Definition NewManager (config : Config) : res Manager :=
  if (BroadcastBufferSize config <? 0) || (EventBufferSize config <? 0) then Panic makechan_panic else Ok (new_manager config).

(** The goroutines of the timers are started too; [NewTicker] panics in them for an
    interval that is not positive. *)
Definition ticker_panic : string := "non-positive interval for NewTicker".
Definition Start m : res (option goerror * Manager) :=
  if running m then Ok (Some ErrManagerAlreadyRunning, m)
  else if (HeartbeatInterval (config m) <=? 0) || (CleanupInterval (config m) <=? 0) then Panic ticker_panic
  else Ok (None, m <| running := true |>).
Definition close_at m (entry : string * nat) : Manager := m <| heap := alter Close entry.2 (heap m) |>.
Definition Stop m : option goerror * Manager :=
  if negb (running m) then (Some ErrManagerNotRunning, m)
  else
    let m := m <| running := false |> <| cancelled := true |> in
    (None, foldl close_at m (order (map_to_list (clients m)))).

(** [select { case ch <- x: ... case <-m.ctx.Done(): ... default: ... }] *)
Inductive selected := Sent | Stopped | Default.
Definition select (room done choice : bool) : selected :=
  match room, done with
  | true, true => if choice then Sent else Stopped
  | true, false => Sent
  | false, true => Stopped
  | false, false => Default
  end.
Definition has_room {A} (queue : list A) (size : Z) : bool := Z.of_nat (length queue) <? size.

Definition Register p (choice : bool) m : option goerror * Manager :=
  if negb (running m) then (Some ErrManagerNotRunning, m)
  else if MaxClients (config m) <=? activeClients m then (Some ErrMaxClientsReached, m)
  else match select (has_room (register m) (BroadcastBufferSize (config m))) (cancelled m) choice with
       | Sent => (None, m <| register := register m ++ [p] |>)
       | Stopped => (Some ErrManagerStopped, m)
       | Default => (Some ErrRegistrationQueueFull, m)
       end.
Definition Unregister p (choice : bool) m : option goerror * Manager :=
  if negb (running m) then (None, m)
  else match select (has_room (unregister m) (BroadcastBufferSize (config m))) (cancelled m) choice with
       | Sent => (None, m <| unregister := unregister m ++ [p] |>)
       | Stopped => (Some ErrManagerStopped, m)
       | Default => (Some ErrUnregistrationQueueFull, m)
       end.
Definition Broadcast (e : Event) (choice : bool) m : option goerror * Manager :=
  if negb (running m) then (Some ErrManagerNotRunning, m)
  else match select (has_room (broadcast m) (EventBufferSize (config m))) (cancelled m) choice with
       | Sent => (None, m <| broadcast := broadcast m ++ [e] |> <| sentEvents := sentEvents m + 1 |>)
       | Stopped => (Some ErrManagerStopped, m)
       | Default => (Some ErrBroadcastQueueFull, m)
       end.

Fixpoint fold_res {A B} (f : A → B → res A) (a : A) (l : list B) : res A :=
  match l with [] => Ok a | b :: l => let! a := f a b in fold_res f a l end.

(** [if client.IsAlive() { client.SendEvent(event) }]; a client is served at a
    time of its own. *)
Definition deliver (now : string → Time) (e : Event) m (entry : string * nat) : res Manager :=
  match heap m !! entry.2 with
  | None => Ok m
  | Some c =>
      if IsAlive c then let! r := SendEvent (now entry.1) e c in Ok (m <| heap := <[entry.2 := r.2]> (heap m) |>) else Ok m
  end.
Definition BroadcastToTopic (now : string → Time) (topic : string) (e : Event) m : res Manager :=
  if negb (running m) then Err ErrManagerNotRunning
  else
    match topics m !! topic with
    | None => Ok m
    | Some subscribers =>
        let! m := fold_res (deliver now e) m (order (map_to_list subscribers)) in
        Ok (m <| sentEvents := sentEvents m + 1 |>)
    end.

Definition Subscribe (clientID topic : string) m : option goerror * Manager :=
  match clients m !! clientID with
  | None => (Some ErrClientNotFound, m)
  | Some p =>
      (None, m <| topics := <[topic := <[clientID := p]> (default ∅ (topics m !! topic))]> (topics m) |>
               <| heap := alter (λ c, c <| Topics := {[topic]} ∪ Topics c |>) p (heap m) |>)
  end.
Definition drop_client (clientID : string) (subscribers : gmap string nat) : option (gmap string nat) :=
  let left := delete clientID subscribers in if decide (left = ∅) then None else Some left.
Definition Unsubscribe (clientID topic : string) m : Manager :=
  let m := match topics m !! topic with
           | None => m
           | Some subscribers => m <| topics := partial_alter (λ _, drop_client clientID subscribers) topic (topics m) |>
           end in
  match clients m !! clientID with
  | None => m
  | Some p => m <| heap := alter (λ c, c <| Topics := Topics c ∖ {[topic]} |>) p (heap m) |>
  end.

(** *** The event loop *)

Definition handleRegister (now : Time) (f : fresh) p m : res Manager :=
  match heap m !! p with
  | None => Ok m
  | Some c =>
      let m := m <| clients := <[ClientID c := p]> (clients m) |> in
      let m := m <| activeClients := activeClients m + 1 |> <| totalClients := totalClients m + 1 |> in
      let! r := SendEvent now (NewSystemEvent "client.connected" {[ "client_id" := JString (ClientID c); "timestamp" := JTime (f_now f) ]} f) c in
      Ok (m <| heap := <[p := r.2]> (heap m) |>)
  end.
Definition handleUnregister p m : Manager :=
  match heap m !! p with
  | None => m
  | Some c =>
      let m := if decide (is_Some (clients m !! ClientID c))
               then m <| clients := delete (ClientID c) (clients m) |> <| activeClients := activeClients m - 1 |> else m in
      let m := m <| topics := omap (drop_client (ClientID c)) (topics m) |> in
      m <| heap := <[p := Close c]> (heap m) |>
  end.
Definition handleBroadcast (now : string → Time) (e : Event) m : res Manager :=
  fold_res (deliver now e) m (order (map_to_list (clients m))).

(** *** Timers *)

Definition heartbeat (f : fresh) (choice : bool) m : Manager :=
  (Broadcast (NewSystemEvent "heartbeat" {[ "timestamp" := JTime (f_now f) ]} f) choice m).2.
Definition dead m (entry : string * nat) : bool :=
  match heap m !! entry.2 with Some c => negb (IsAlive c) | None => false end.
Definition performCleanup (choice : bool) m : Manager :=
  foldl (λ m entry, (Unregister entry.2 choice m).2) m (List.filter (dead m) (order (map_to_list (clients m)))).

(** *** Queries *)

Record ClientInfo := mkClientInfo {
  IID : string; IConnected : Time; ILastEventID : string; ITopics : list string; IIsAlive : bool; IEventsSent : Z }.
Definition GetInfo c : ClientInfo :=
  mkClientInfo (ClientID c) (Connected c) (LastEventID c) (elements (Topics c)) (IsAlive c) (eventsSent c).
(** The manager leaves the number of sent events out. *)
Definition GetClients m : list ClientInfo :=
  omap (λ entry, match heap m !! entry.2 with
                 | Some c => Some (mkClientInfo (ClientID c) (Connected c) (LastEventID c) (elements (Topics c)) (IsAlive c) 0)
                 | None => None
                 end) (order (map_to_list (clients m))).

(** ** Steps *)

Inductive op :=
  | ONew (p : nat) (id lastEventID : string) (bufferSize : Z) (l : L) (now : Time)     (* at a fresh pointer *)
  | ORegister (p : nat) (choice : bool) | OUnregister (p : nat) (choice : bool)
  | OBroadcast (e : Event) (choice : bool) | OTopic (now : string → Time) (topic : string) (e : Event)
  | OSubscribe (clientID topic : string) | OUnsubscribe (clientID topic : string)
  | OFilter (p : nat) (f : Filter) | OUnfilter (p : nat) (filterIndex : Z)
  | ODone (p : nat)                                        (* the request of a client ends *)
  | OServe (p : nat) (choice : bool) (ok : option goerror) (now : Time) | OClose (p : nat)
  | LRegister (now : Time) (f : fresh) | LUnregister | LBroadcast (now : string → Time)
  | OHeartbeat (f : fresh) (choice : bool) | OCleanup (choice : bool) | OStart | OStop.

Definition step m (o : op) : res Manager :=
  let on p f := Ok (m <| heap := alter f p (heap m) |>) in
  match o with
  | ONew p id lastEventID bufferSize l now =>
      match heap m !! p with
      | Some _ => Ok m
      | None => let! c := NewClient id lastEventID bufferSize l now in Ok (m <| heap := <[p := c]> (heap m) |>)
      end
  | ORegister p choice => Ok (match heap m !! p with Some _ => (Register p choice m).2 | None => m end)
  | OUnregister p choice => Ok (match heap m !! p with Some _ => (Unregister p choice m).2 | None => m end)
  | OBroadcast e choice => Ok (Broadcast e choice m).2
  | OTopic now topic e => match BroadcastToTopic now topic e m with Err _ => Ok m | r => r end
  | OSubscribe clientID topic => Ok (Subscribe clientID topic m).2
  | OUnsubscribe clientID topic => Ok (Unsubscribe clientID topic m)
  | OFilter p f => on p (AddFilter f)
  | OUnfilter p i => on p (RemoveFilter i)
  | ODone p => on p (λ c, c <| ctx_done := true |>)
  | OServe p choice ok now => on p (λ c, (serve choice ok now c).2)
  | OClose p => on p Close
  | LRegister now f =>
      match register m with [] => Ok m | p :: queue => handleRegister now f p (m <| register := queue |>) end
  | LUnregister =>
      match unregister m with [] => Ok m | p :: queue => Ok (handleUnregister p (m <| unregister := queue |>)) end
  | LBroadcast now =>
      match broadcast m with [] => Ok m | e :: queue => handleBroadcast now e (m <| broadcast := queue |>) end
  | OHeartbeat f choice => Ok (heartbeat f choice m)
  | OCleanup choice => Ok (performCleanup choice m)
  | OStart => let! r := Start m in Ok r.2
  | OStop => Ok (Stop m).2
  end.
Definition run : Manager → list op → res Manager := fold_res step.


(** ** Sending *)

Lemma send_begin_ready now e c c' : send_begin now e c = Ready c' → closed c = false ∧ c' = c <| limiter := (Allow now (limiter c)).2 |>.
Proof.
  unfold send_begin. destruct (closed c); [done|]. destruct (passesFilters e c); [|done]. cbn [negb].
  destruct (Allow now (limiter c)) as [[] l]; [|done]. by intros [= <-].
Qed.

(** What an event makes of a client: nothing if it is not alive or a filter
    refuses it; else the limiter decides, and then the room in the channel. *)
Definition served (now : Time) (e : Event) c : Client :=
  if IsAlive c && passesFilters e c then
    let c' := c <| limiter := (Allow now (limiter c)).2 |> in
    if (Allow now (limiter c)).1 && (Z.of_nat (length (Send c)) <? BufferSize c)
    then c' <| Send := Send c ++ [e] |> else c' <| eventsDropped := eventsDropped c + 1 |>
  else c.

(** Some client is closed between the check and the send of an event. *)
Definition race : Prop := ∃ now c, closed_meanwhile now c = true.
Lemma SendEvent_cases now e c :
  (∃ err c', SendEvent now e c = Ok (err, c') ∧ (IsAlive c = true → c' = served now e c)) ∨ (SendEvent now e c = Panic send_panic ∧ race).
Proof.
  unfold SendEvent, send_begin, served, IsAlive. destruct (closed c) eqn:Hcl; [by left; eexists _, _|]. cbn [negb andb].
  destruct (passesFilters e c); cbn [negb andb]; [|left; eexists _, _; split; [done|]; by rewrite andb_false_r].
  destruct (Allow now (limiter c)) as [ok l] eqn:El. cbn [fst snd]. destruct ok; cbn [negb andb].
  - destruct (closed_meanwhile now (c <| limiter := l |>)) eqn:Ec.
    { right. split; [|by eexists _, _]. unfold send_commit, Close. change (closed (c <| limiter := l |>)) with (closed c). by rewrite Hcl. }
    left. unfold send_commit. change (closed (c <| limiter := l |>)) with (closed c). rewrite Hcl.
    change (Send (c <| limiter := l |>)) with (Send c). change (BufferSize (c <| limiter := l |>)) with (BufferSize c).
    destruct (_ <? _); eexists _, _; (split; [reflexivity|]); by intros ->%negb_true_iff.
  - left. eexists _, _. split; [reflexivity|]. by intros ->%negb_true_iff.
Qed.

(** The check and the send of [SendEvent] are two steps: when nothing comes
    between them the call never panics, but a [Close] of the client in between,
    by the goroutine that serves it, makes the send panic, whoever the sender is. *)
Theorem send_race now e c :
  (¬ race → ∀ w, SendEvent now e c ≠ Panic w) ∧
  ∀ c', send_begin now e c = Ready c' → closed_meanwhile now c' = true → SendEvent now e c = Panic send_panic.
Proof.
  split; [intros Hn w; destruct (SendEvent_cases now e c) as [(err & c' & -> & _)|[_ ?]]; [done|by destruct Hn]|].
  intros c' H Hc. unfold SendEvent. rewrite H, Hc. apply send_begin_ready in H as [Hcl ->]. unfold send_commit, Close.
  change (closed (c <| limiter := _ |>)) with (closed c). by rewrite Hcl.
Qed.

(** ** Well-formed managers *)

Definition client_wf c : Prop := Z.of_nat (length (Send c)) ≤ Z.max 0 (BufferSize c) ∧ (closed c = true → ctx_done c = true).
Record wf m : Prop := mk_wf {
  wf_clients : ∀ id p, clients m !! id = Some p → ∃ c, heap m !! p = Some c ∧ ClientID c = id;
  wf_topics : ∀ t s, topics m !! t = Some s → s ≠ ∅ ∧ ∀ id p, s !! id = Some p → is_Some (clients m !! id) ∧ ∃ c, heap m !! p = Some c ∧ ClientID c = id;
  wf_heap : ∀ p c, heap m !! p = Some c → client_wf c;
  wf_queues : Z.of_nat (length (register m)) ≤ Z.max 0 (BroadcastBufferSize (config m)) ∧
    Z.of_nat (length (unregister m)) ≤ Z.max 0 (BroadcastBufferSize (config m)) ∧
    Z.of_nat (length (broadcast m)) ≤ Z.max 0 (EventBufferSize (config m));
  wf_count : Z.of_nat (size (clients m)) ≤ activeClients m ≤ totalClients m }.

(** Changing clients, but not their identity. *)
Definition same_clients (h h' : gmap nat Client) : Prop :=
  ∀ p, match h !! p, h' !! p with
       | Some c, Some c' => ClientID c' = ClientID c ∧ (client_wf c → client_wf c')
       | None, None => True
       | _, _ => False
       end.
Lemma same_clients_refl h : same_clients h h.
Proof. intros p. by destruct (h !! p). Qed.
Lemma same_clients_trans h1 h2 h3 : same_clients h1 h2 → same_clients h2 h3 → same_clients h1 h3.
Proof.
  intros H12 H23 p. specialize (H12 p). specialize (H23 p).
  destruct (h1 !! p), (h2 !! p), (h3 !! p); try done. destruct H12, H23. split; [congruence|auto].
Qed.
Lemma same_clients_insert h p c c' : h !! p = Some c → ClientID c' = ClientID c → (client_wf c → client_wf c') →
  same_clients h (<[p := c']> h).
Proof.
  intros Hp Hid Hw q. destruct (decide (p = q)) as [->|Hq]; [by rewrite Hp, lookup_insert_eq|].
  rewrite lookup_insert_ne by done. by destruct (h !! q).
Qed.
Lemma same_clients_alter f p h : (∀ c, ClientID (f c) = ClientID c ∧ (client_wf c → client_wf (f c))) → same_clients h (alter f p h).
Proof.
  intros Hf q. destruct (decide (p = q)) as [->|Hq]; [rewrite lookup_alter_eq; destruct (h !! q); [apply Hf|done]|].
  rewrite lookup_alter_ne by done. by destruct (h !! q).
Qed.
Lemma wf_same h m : same_clients (heap m) h → wf m → wf (m <| heap := h |>).
Proof.
  intros Hh [W1 W2 W3 W4 W5].
  assert (∀ id p c, heap m !! p = Some c → ClientID c = id → ∃ c', h !! p = Some c' ∧ ClientID c' = id) as K.
  { intros id p c Hc <-. specialize (Hh p). rewrite Hc in Hh. destruct (h !! p) as [c'|]; [|done]. exists c'. by split; [|apply Hh]. }
  split; try done.
  - intros id p Hp. destruct (W1 id p Hp) as (c & Hc & Hid). eauto.
  - intros t s Hs. destruct (W2 t s Hs) as [Hne Hsub]. split; [done|]. intros id p Hp. destruct (Hsub id p Hp) as [H1 (c & Hc & Hid)]. eauto.
  - intros p c' Hc'. simpl in Hc'. specialize (Hh p). rewrite Hc' in Hh. destruct (heap m !! p) as [c|] eqn:Hc; [|done]. apply Hh. eauto.
Qed.
Lemma wf_alter f p m : (∀ c, ClientID (f c) = ClientID c ∧ (client_wf c → client_wf (f c))) → wf m → wf (m <| heap := alter f p (heap m) |>).
Proof. intros Hf. by apply wf_same, same_clients_alter. Qed.

Lemma Close_wf c : ClientID (Close c) = ClientID c ∧ (client_wf c → client_wf (Close c)).
Proof. unfold Close. destruct (closed c); [done|]. split; [done|]. intros [H1 _]. by split. Qed.
Lemma SendEvent_wf now e c err c' : SendEvent now e c = Ok (err, c') → ClientID c' = ClientID c ∧ (client_wf c → client_wf c').
Proof.
  unfold SendEvent, send_begin. destruct (closed c) eqn:Hcl; [by intros [= _ <-]|]. destruct (passesFilters e c); cbn [negb]; [|by intros [= _ <-]].
  destruct (Allow now (limiter c)) as [ok l]. destruct ok; cbn [negb]; [|by intros [= _ <-]].
  destruct (closed_meanwhile now (c <| limiter := l |>)).
  { unfold send_commit, Close. change (closed (c <| limiter := l |>)) with (closed c). by rewrite Hcl. }
  unfold send_commit. change (closed (c <| limiter := l |>)) with (closed c). rewrite Hcl.
  destruct (Z.ltb_spec (Z.of_nat (length (Send (c <| limiter := l |>)))) (BufferSize (c <| limiter := l |>))) as [Hlt|]; intros [= _ <-]; [|done].
  split; [done|]. intros [H1 H2]. split; [|exact H2]. simpl in *. rewrite length_app. simpl. lia.
Qed.
Lemma serve_wf choice ok now c : ClientID (serve choice ok now c).2 = ClientID c ∧ (client_wf c → client_wf (serve choice ok now c).2).
Proof.
  unfold serve. destruct (Send c) as [|e l] eqn:Es; [destruct (closed c || ctx_done c); [apply Close_wf|done]|].
  destruct (ctx_done c && negb choice); [apply Close_wf|]. unfold sendEvent. change (closed (c <| Send := l |>)) with (closed c).
  assert (∀ c', ClientID c' = ClientID c → Send c' = l → BufferSize c' = BufferSize c → closed c' = closed c → ctx_done c' = ctx_done c →
    ClientID c' = ClientID c ∧ (client_wf c → client_wf c')) as K.
  { intros c' H1 H2 H3 H4 H5. split; [done|]. intros [K1 K2]. split; [|by rewrite H4, H5]. rewrite H2, H3. rewrite Es in K1. simpl in K1. lia. }
  assert (∀ c', ClientID c' = ClientID c → Send c' = l → BufferSize c' = BufferSize c → closed c' = closed c → ctx_done c' = ctx_done c →
    ClientID (Close c') = ClientID c ∧ (client_wf c → client_wf (Close c'))) as KC.
  { intros c' H1 H2 H3 H4 H5. destruct (K c' H1 H2 H3 H4 H5) as [_ Kw]. destruct (Close_wf c') as [C1 C2]. split; [congruence|auto]. }
  destruct (closed c) eqn:Hcl; [by apply KC|]. destruct ok; destruct (negb (String.eqb (GetID e) "")); first [by apply KC|by apply K].
Qed.

(** A delivery and a whole range of them. *)
Lemma deliver_cases now e m entry :
  (∃ h, deliver now e m entry = Ok (m <| heap := h |>) ∧ same_clients (heap m) h) ∨ (deliver now e m entry = Panic send_panic ∧ race).
Proof.
  unfold deliver. destruct (heap m !! entry.2) as [c|] eqn:Hc; [destruct (IsAlive c)|];
    [|by left; exists (heap m); split; [destruct m|apply same_clients_refl]..].
  destruct (SendEvent_cases (now entry.1) e c) as [(err & c' & E & _)|[-> Hr]]; [left; rewrite E; cbn [res_bind snd]|by right].
  eexists. split; [reflexivity|]. destruct (SendEvent_wf _ _ _ _ _ E). by apply (same_clients_insert _ _ c).
Qed.
Lemma deliveries_cases now e l m :
  (∃ h, fold_res (deliver now e) m l = Ok (m <| heap := h |>) ∧ same_clients (heap m) h) ∨ (fold_res (deliver now e) m l = Panic send_panic ∧ race).
Proof.
  revert m. induction l as [|x l IH]; intros m; [left; exists (heap m); split; [by destruct m|apply same_clients_refl]|].
  cbn [fold_res]. destruct (deliver_cases now e m x) as [(h1 & -> & H1)|[-> Hr]]; [cbn [res_bind]|by right].
  destruct (IH (m <| heap := h1 |>)) as [(h2 & -> & H2)|[-> Hr]]; [left|by right]. exists h2. split; [done|]. by apply (same_clients_trans _ h1).
Qed.

(** How an operation ends: in a good state, or with the panic of a send. *)
Definition ends (Q : Manager → Prop) (r : res Manager) : Prop :=
  match r with Ok m => Q m | Panic w => w = send_panic ∧ race | Err _ => False end.
Lemma wf_deliveries now e l m : wf m → ends wf (fold_res (deliver now e) m l).
Proof. intros H. destruct (deliveries_cases now e l m) as [(h & -> & Hh)|[-> Hr]]; [by apply wf_same|done]. Qed.

Lemma wf_new_client p id lastEventID bufferSize l now m c0 : NewClient id lastEventID bufferSize l now = Ok c0 → heap m !! p = None → wf m →
  wf (m <| heap := <[p := c0]> (heap m) |>).
Proof.
  intros E Hp [W1 W2 W3 W4 W5]. unfold NewClient in E. destruct (bufferSize <? 0); [done|]. injection E as <-.
  assert (∀ q id', (∃ c, heap m !! q = Some c ∧ ClientID c = id') →
    ∃ c, <[p := mkClient id [] bufferSize ∅ [] lastEventID now l false false 0 0 now ""]> (heap m) !! q = Some c ∧ ClientID c = id') as K.
  { intros q id' (c & Hc & Hid). exists c. by rewrite lookup_insert_ne by (intros ->; congruence). }
  split; try done.
  - intros id' q Hq. apply K, W1. done.
  - intros t s Hs. destruct (W2 t s Hs) as [Hne Hsub]. split; [done|]. intros id' q Hq. destruct (Hsub id' q Hq). auto.
  - intros q c. simpl. destruct (decide (p = q)) as [->|]; [rewrite lookup_insert_eq; intros [= <-]|rewrite lookup_insert_ne by done; eauto].
    split; [simpl; lia|done].
Qed.

Ltac wf_queue := intros [W1 W2 W3 (Q1 & Q2 & Q3) W5]; split; simpl; try done; unfold has_room in *; rewrite length_app; simpl; lia.
Lemma wf_Register p choice m : wf m → wf (Register p choice m).2.
Proof.
  unfold Register. destruct (negb _); [done|]. destruct (_ <=? _); [done|]. unfold select.
  destruct (has_room _ _) eqn:Hr; [apply Z.ltb_lt in Hr|by destruct (cancelled m)].
  destruct (cancelled m); [destruct choice|]; try done; wf_queue.
Qed.
Lemma wf_Unregister p choice m : wf m → wf (Unregister p choice m).2.
Proof.
  unfold Unregister. destruct (negb _); [done|]. unfold select.
  destruct (has_room _ _) eqn:Hr; [apply Z.ltb_lt in Hr|by destruct (cancelled m)].
  destruct (cancelled m); [destruct choice|]; try done; wf_queue.
Qed.
Lemma wf_Broadcast e choice m : wf m → wf (Broadcast e choice m).2.
Proof.
  unfold Broadcast. destruct (negb _); [done|]. unfold select.
  destruct (has_room _ _) eqn:Hr; [apply Z.ltb_lt in Hr|by destruct (cancelled m)].
  destruct (cancelled m); [destruct choice|]; try done; wf_queue.
Qed.

Lemma wf_Subscribe id t m : wf m → wf (Subscribe id t m).2.
Proof.
  intros H. unfold Subscribe. destruct (clients m !! id) as [p|] eqn:Hp; [|done]. cbn [snd].
  set (m1 := m <| topics := <[t := <[id := p]> (default ∅ (topics m !! t))]> (topics m) |>).
  change (wf (m1 <| heap := alter (λ c, c <| Topics := {[t]} ∪ Topics c |>) p (heap m1) |>)). apply wf_alter; [done|].
  destruct H as [W1 W2 W3 W4 W5]. split; try done. intros t' s. simpl. destruct (decide (t = t')) as [<-|Ht].
  - rewrite lookup_insert_eq. intros [= <-]. split; [apply insert_non_empty|]. intros id' q. destruct (decide (id = id')) as [<-|Hid].
    + rewrite lookup_insert_eq. intros [= <-]. split; [by eexists|]. by apply W1.
    + rewrite lookup_insert_ne by done. destruct (topics m !! t) as [s0|] eqn:E; [|done]. by apply (W2 t s0).
  - rewrite lookup_insert_ne by done. apply W2.
Qed.

Lemma drop_client_Some id s s' : drop_client id s = Some s' → s' = delete id s ∧ s' ≠ ∅.
Proof. unfold drop_client. destruct (decide _); [done|]. by intros [= <-]. Qed.
Lemma wf_Unsubscribe id t m : wf m → wf (Unsubscribe id t m).
Proof.
  intros H. unfold Unsubscribe. set (m1 := match topics m !! t with None => m | Some s => _ end).
  assert (wf m1 ∧ clients m1 = clients m) as [H1 Hc].
  { unfold m1. destruct (topics m !! t) as [s0|] eqn:E; [|done]. split; [|done]. destruct H as [W1 W2 W3 W4 W5]. split; try done.
    intros t' s. simpl. destruct (decide (t = t')) as [<-|Ht]; [rewrite lookup_partial_alter_eq|rewrite lookup_partial_alter_ne by done; apply W2].
    intros [-> Hne]%drop_client_Some. split; [done|]. intros id' q [_ Hq]%lookup_delete_Some. by apply (W2 t s0). }
  rewrite Hc. destruct (clients m !! id); [|done]. by apply wf_alter.
Qed.

Lemma wf_handleRegister now f p m : wf m → ends wf (handleRegister now f p m).
Proof.
  intros H. unfold handleRegister. destruct (heap m !! p) as [c|] eqn:Hp; [|done]. cbv zeta.
  match goal with |- context [SendEvent now ?e c] => destruct (SendEvent_cases now e c) as [(err & c' & E & _)|[-> Hr]]; [|done] end.
  pose proof (SendEvent_wf _ _ _ _ _ E) as [Hid Hw]. rewrite E. cbn [res_bind snd ends].
  set (m1 := (m <| clients := <[ClientID c := p]> (clients m) |>) <| activeClients := activeClients m + 1 |> <| totalClients := totalClients m + 1 |>).
  assert (wf m1) as H1.
  { destruct H as [W1 W2 W3 W4 W5]. split; try done; simpl.
    - intros id q. destruct (decide (ClientID c = id)) as [<-|]; [rewrite lookup_insert_eq; intros [= <-]; eauto|rewrite lookup_insert_ne by done; apply W1].
    - intros t s Hs. destruct (W2 t s Hs) as [Hne Hsub]. split; [done|]. intros id q Hq. destruct (Hsub id q Hq) as [Hin Hh]. split; [|done].
      destruct (decide (ClientID c = id)) as [<-|]; [by rewrite lookup_insert_eq|by rewrite lookup_insert_ne].
    - destruct (clients m !! ClientID c) as [q|] eqn:Hq; [rewrite map_size_insert_Some by (by eexists)|rewrite map_size_insert_None by done]; lia. }
  change (wf (m1 <| heap := <[p := c']> (heap m1) |>)). apply wf_same; [|done]. by apply (same_clients_insert _ _ c).
Qed.

Lemma wf_handleUnregister p m : wf m → wf (handleUnregister p m).
Proof.
  intros H. unfold handleUnregister. destruct (heap m !! p) as [c|] eqn:Hp; [|done]. cbv zeta.
  set (m1 := if decide _ then _ else m). set (m2 := m1 <| topics := omap (drop_client (ClientID c)) (topics m1) |>).
  assert (heap m1 = heap m ∧ topics m1 = topics m ∧ clients m1 = delete (ClientID c) (clients m) ∧
    Z.of_nat (size (clients m1)) ≤ activeClients m1 ≤ totalClients m1 ∧ register m1 = register m ∧ unregister m1 = unregister m ∧
    broadcast m1 = broadcast m ∧ config m1 = config m) as (E1 & E2 & E3 & E4 & E5 & E6 & E7 & E8).
  { pose proof (wf_count m H) as Hc. unfold m1. destruct (decide (is_Some (clients m !! ClientID c))) as [Hs|Hn].
    - split_and!; try done; simpl; [|lia]. rewrite map_size_delete_Some by done.
      assert (size (clients m) ≠ O); [|lia]. intros E. apply map_size_empty_iff in E. rewrite E in Hs. by destruct Hs.
    - apply eq_None_not_Some in Hn. split_and!; try done; [|lia..]. symmetry. by apply delete_id. }
  assert (wf m2) as H2.
  { destruct H as [W1 W2 W3 W4 W5]. split; simpl; rewrite ?E1, ?E2, ?E3, ?E5, ?E6, ?E7, ?E8; try done; [| |by rewrite E3 in E4].
    - intros id q [_ Hq]%lookup_delete_Some. auto.
    - intros t s. rewrite lookup_omap. intros (s0 & Hs0 & [-> Hne]%drop_client_Some)%bind_Some. split; [done|].
      intros id q [Hid Hq]%lookup_delete_Some. destruct (W2 t s0 Hs0) as [_ Hsub]. destruct (Hsub id q Hq) as [Hin Hh]. split; [|done].
      by rewrite lookup_delete_ne. }
  change (wf (m2 <| heap := <[p := Close c]> (heap m1) |>)). rewrite E1. change (wf (m2 <| heap := <[p := Close c]> (heap m) |>)).
  assert (heap m2 = heap m) as <- by exact E1. apply wf_same; [|done]. destruct (Close_wf c). apply (same_clients_insert _ _ c); try done.
  change (heap m1 !! p = Some c). by rewrite E1.
Qed.

Lemma wf_Stop m : wf m → wf (Stop m).2.
Proof.
  intros H. unfold Stop. destruct (negb _); [done|]. cbn [snd]. generalize (order (map_to_list (clients (m <| running := false |> <| cancelled := true |>)))).
  assert (wf (m <| running := false |> <| cancelled := true |>)) as H1 by (by destruct H). revert H1. generalize (m <| running := false |> <| cancelled := true |>).
  clear. intros m H l. revert m H. induction l as [|x l IH]; intros m H; [done|]. cbn [foldl]. apply IH. unfold close_at. apply wf_alter; [apply Close_wf|done].
Qed.
Lemma wf_cleanup choice m : wf m → wf (performCleanup choice m).
Proof.
  intros H. unfold performCleanup. generalize (List.filter (dead m) (order (map_to_list (clients m)))). intros l.
  revert m H. induction l as [|x l IH]; intros m H; [done|]. cbn [foldl]. by apply IH, wf_Unregister.
Qed.

(** How a step ends: besides the panic of a send, a channel can have a negative
    size and a timer an interval that is not positive. *)
Definition step_ends (m : Manager) (o : op) (r : res Manager) : Prop :=
  ends wf r ∨
  (r = Panic makechan_panic ∧ ∃ p id lastEventID bufferSize l now, o = ONew p id lastEventID bufferSize l now ∧ bufferSize < 0) ∨
  (r = Panic ticker_panic ∧ o = OStart ∧ (HeartbeatInterval (config m) ≤ 0 ∨ CleanupInterval (config m) ≤ 0)).
Lemma wf_step m o : wf m → step_ends m o (step m o).
Proof.
  intros H. assert (∀ q r b m', wf m → (Z.of_nat (length q) ≤ Z.of_nat (length (register m))) → (Z.of_nat (length r) ≤ Z.of_nat (length (unregister m))) →
    (Z.of_nat (length b) ≤ Z.of_nat (length (broadcast m))) → m' = m <| register := q |> <| unregister := r |> <| broadcast := b |> → wf m') as Kq.
  { intros q r b m' [W1 W2 W3 (Q1 & Q2 & Q3) W5] Hq Hr' Hb ->. split; simpl; try done. lia. }
  destruct o; cbn [step].
  1: { destruct (heap m !! p) eqn:Hp; [by left|]. destruct (NewClient id lastEventID bufferSize l now) as [c| |w] eqn:E; cbn [res_bind].
    - left. by eapply wf_new_client.
    - unfold NewClient in E. by destruct (bufferSize <? 0).
    - right; left. unfold NewClient in E. destruct (bufferSize <? 0) eqn:Eb; [|done]. injection E as <-. split; [done|].
      eexists _, _, _, _, _, _. split; [reflexivity|]. by apply Z.ltb_lt. }
  17: { unfold Start. destruct (running m); [by left|]. destruct (_ || _) eqn:Ei; cbn [res_bind snd]; [|left; by destruct H].
    right; right. split_and!; [done..|]. apply orb_true_iff in Ei as [Ei|Ei]; apply Z.leb_le in Ei; [by left|by right]. }
  all: left; cbn [ends].
  - destruct (heap m !! p); [by apply wf_Register|done].
  - destruct (heap m !! p); [by apply wf_Unregister|done].
  - by apply wf_Broadcast.
  - unfold BroadcastToTopic. destruct (negb (running m)); [done|]. destruct (topics m !! topic) as [s|]; [|done].
    destruct (deliveries_cases now e (order (map_to_list s)) m) as [(h & -> & Hh)|[-> Hr]]; cbn [res_bind]; [|done].
    apply (wf_same h) in H; [|done]. by destruct H.
  - by apply wf_Subscribe.
  - by apply wf_Unsubscribe.
  - by apply wf_alter.
  - apply wf_alter; [|done]. intros c. unfold RemoveFilter. by destruct (_ && _).
  - apply wf_alter; [|done]. intros c. split; [done|]. by intros [H1 _].
  - apply wf_alter; [apply serve_wf|done].
  - apply wf_alter; [apply Close_wf|done].
  - destruct (register m) as [|p l] eqn:El; [done|]. apply wf_handleRegister. apply (Kq l (unregister m) (broadcast m)); try done. simpl. lia.
  - destruct (unregister m) as [|p l] eqn:El; [done|]. apply wf_handleUnregister.
    apply (Kq (register m) l (broadcast m)); try done. simpl. lia.
  - destruct (broadcast m) as [|e l] eqn:El; [done|]. apply wf_deliveries. apply (Kq (register m) (unregister m) l); try done. simpl. lia.
  - by apply wf_Broadcast.
  - by apply wf_cleanup.
  - by apply wf_Stop.
Qed.

(** No operation changes the configuration. *)
Lemma selected_config m (s : selected) (m1 : Manager) (e1 e2 e3 : option goerror) :
  config m1 = config m → config (match s with Sent => (e1, m1) | Stopped => (e2, m) | Default => (e3, m) end).2 = config m.
Proof. by destruct s. Qed.
Lemma Unregister_config p choice m : config (Unregister p choice m).2 = config m.
Proof. unfold Unregister. destruct (negb _); [done|]. by apply selected_config. Qed.
Lemma deliveries_config now e l m m' : fold_res (deliver now e) m l = Ok m' → config m' = config m.
Proof. destruct (deliveries_cases now e l m) as [(h & -> & _)|[-> _]]; [by intros [= <-]|done]. Qed.
Lemma step_config m o m' : step m o = Ok m' → config m' = config m.
Proof.
  destruct o; cbn [step]; try (by intros [= <-]).
  - destruct (heap m !! p); [by intros [= <-]|]. unfold NewClient. destruct (bufferSize <? 0); [done|]. by intros [= <-].
  - intros [= <-]. destruct (heap m !! p); [|done]. unfold Register. destruct (negb _); [done|]. destruct (_ <=? _); [done|]. by apply selected_config.
  - intros [= <-]. destruct (heap m !! p); [|done]. apply Unregister_config.
  - intros [= <-]. unfold Broadcast. destruct (negb _); [done|]. by apply selected_config.
  - unfold BroadcastToTopic. destruct (negb _); [by intros [= <-]|]. destruct (topics m !! topic); [|by intros [= <-]].
    destruct (fold_res _ m _) as [m1| |w] eqn:E; cbn [res_bind]; [|by intros [= <-]|done]. intros [= <-]. by apply deliveries_config in E.
  - intros [= <-]. unfold Subscribe. by destruct (clients m !! clientID).
  - intros [= <-]. unfold Unsubscribe. destruct (topics m !! topic); by destruct (clients _ !! clientID).
  - destruct (register m) as [|p l]; [by intros [= <-]|]. unfold handleRegister. destruct (heap _ !! p) as [c|]; [|by intros [= <-]]. cbv zeta.
    destruct (SendEvent _ _ c); [|done..]. by intros [= <-].
  - destruct (unregister m) as [|p l]; [by intros [= <-]|]. intros [= <-]. unfold handleUnregister. destruct (heap _ !! p); [|done]. by destruct (decide _).
  - destruct (broadcast m) as [|e l]; [by intros [= <-]|]. intros E. by apply deliveries_config in E.
  - intros [= <-]. unfold heartbeat, Broadcast. destruct (negb _); [done|]. by apply selected_config.
  - intros [= <-]. unfold performCleanup. generalize (List.filter (dead m) (order (map_to_list (clients m)))). intros l. revert m.
    induction l as [|x l IH]; intros m; [done|]. cbn [foldl]. by rewrite IH, Unregister_config.
  - unfold Start. destruct (running m); [by intros [= <-]|]. destruct (_ || _); [done|]. by intros [= <-].
  - intros [= <-]. unfold Stop. destruct (negb _); [done|]. cbn [snd].
    generalize (order (map_to_list (clients (m <| running := false |> <| cancelled := true |>)))). intros l.
    change (config m) with (config (m <| running := false |> <| cancelled := true |>)). generalize (m <| running := false |> <| cancelled := true |>). clear m.
    induction l as [|x l IH]; intros m; [done|]. cbn [foldl]. by rewrite IH.
Qed.

(** C17: a new manager, unless a queue is to have a negative size, which panics.
    A run of its operations ends well formed: every registered client and every
    subscriber has the ID it is kept under, a topic has subscribers and all of
    them are registered, no queue holds more than its size, a closed client has
    its context ended, and the number of active clients is at least the number of
    registered ones.  Or it panics, in one of three ways: an event is sent to a
    client that was closed since the check, a client with a queue of negative
    size is made, or the manager is started with an interval that is not positive. *)
Theorem manager_run_wf cfg ops :
  match NewManager cfg with
  | Ok m0 =>
      match run m0 ops with
      | Ok m => wf m
      | Panic why =>
          why = send_panic ∧ race ∨
          why = makechan_panic ∧ (∃ p id lastEventID bufferSize l now, ONew p id lastEventID bufferSize l now ∈ ops ∧ bufferSize < 0) ∨
          why = ticker_panic ∧ OStart ∈ ops ∧ (HeartbeatInterval cfg ≤ 0 ∨ CleanupInterval cfg ≤ 0)
      | Err _ => False
      end
  | Panic why => why = makechan_panic ∧ (BroadcastBufferSize cfg < 0 ∨ EventBufferSize cfg < 0)
  | Err _ => False
  end.
Proof.
  unfold NewManager. destruct (_ || _) eqn:Eb.
  { split; [done|]. apply orb_true_iff in Eb as [Eb|Eb]; apply Z.ltb_lt in Eb; [by left|by right]. }
  assert (wf (new_manager cfg)) as H.
  { split; simpl; try (intros; simplify_map_eq; done); try lia. }
  assert (config (new_manager cfg) = cfg) as Hc by done.
  revert H Hc. generalize (new_manager cfg). induction ops as [|o ops IH]; intros m H Hc; [done|].
  unfold run. cbn [fold_res]. pose proof (step_config m o) as Hcfg. destruct (wf_step m o H) as [Hs|[[-> (p & id & x & n & l & now & -> & Hn)]|[-> [-> Hi]]]].
  - destruct (step m o) as [m1| |w]; cbn [res_bind]; [|done|by left]. specialize (IH m1 Hs). rewrite (Hcfg m1 eq_refl) in IH. specialize (IH Hc).
    unfold run in IH. destruct (fold_res step m1 ops) as [m2| |w]; [done..|].
    destruct IH as [IH|[[-> (p & id & x & n & l & now & Hin & Hn)]|[-> [Hin Hi]]]]; [by left| |].
    + right; left. split; [done|]. exists p, id, x, n, l, now. split; [by right|done].
    + right; right. split; [done|]. split; [by right|done].
  - right; left. split; [done|]. exists p, id, x, n, l, now. split; [by left|done].
  - right; right. rewrite Hc in Hi. split; [done|]. split; [by left|done].
Qed.

(** ** What an event reaches

    From here on, no client is closed within a send. *)

Hypothesis no_race : ¬ race.
Lemma SendEvent_ok now e c : ∃ err c', SendEvent now e c = Ok (err, c') ∧ (IsAlive c = true → c' = served now e c).
Proof. destruct (SendEvent_cases now e c) as [?|[_ Hr]]; [done|by destruct no_race]. Qed.

Lemma deliveries_exact now e l m :
  NoDup (snd <$> l) → (∀ x, x ∈ l → is_Some (heap m !! x.2)) →
  ∃ h, fold_res (deliver now e) m l = Ok (m <| heap := h |>) ∧
    (∀ x c, x ∈ l → heap m !! x.2 = Some c → h !! x.2 = Some (if IsAlive c then served (now x.1) e c else c)) ∧
    (∀ p, p ∉ snd <$> l → h !! p = heap m !! p).
Proof.
  revert m. induction l as [|x l IH]; intros m Hnd Hin.
  { exists (heap m). split; [by destruct m|]. split; [by intros x c ?%not_elem_of_nil|done]. }
  cbn [fmap list_fmap] in Hnd. apply NoDup_cons in Hnd as [Hx Hl]. cbn [fold_res].
  destruct (Hin x) as [c Hc]; [left|].
  assert (deliver now e m x = Ok (m <| heap := <[x.2 := if IsAlive c then served (now x.1) e c else c]> (heap m) |>)) as ->.
  { unfold deliver. rewrite Hc. destruct (IsAlive c) eqn:Ha; [|by rewrite insert_id by done; destruct m].
    destruct (SendEvent_ok (now x.1) e c) as (err & c' & -> & Hs). cbn [res_bind snd]. by rewrite Hs. }
  cbn [res_bind]. set (c1 := if IsAlive c then _ else c). set (m1 := m <| heap := <[x.2 := c1]> (heap m) |>).
  destruct (IH m1 Hl) as (h & -> & H1 & H2).
  { intros y Hy. simpl. destruct (decide (x.2 = y.2)) as [->|Hxy]; [by rewrite lookup_insert_eq|]. rewrite lookup_insert_ne by done. apply Hin. by right. }
  exists h. split; [done|]. split.
  - intros y cy [->|Hy]%elem_of_cons Hcy.
    + rewrite H2 by done. simpl. rewrite lookup_insert_eq. rewrite Hc in Hcy. by injection Hcy as <-.
    + apply H1; [done|]. simpl. rewrite lookup_insert_ne; [done|]. intros E. apply Hx. rewrite E. by apply list_elem_of_fmap_2.
  - intros p Hp. apply not_elem_of_cons in Hp as [Hpx Hp]. rewrite H2 by done. simpl. by rewrite lookup_insert_ne.
Qed.

Hypothesis order_perm : ∀ l, order l ≡ₚ l.

(** The pointers kept under different IDs are different. *)
Lemma range_distinct m (s : gmap string nat) :
  (∀ id p, s !! id = Some p → ∃ c, heap m !! p = Some c ∧ ClientID c = id) →
  NoDup (snd <$> order (map_to_list s)) ∧ (∀ x, x ∈ order (map_to_list s) ↔ s !! x.1 = Some x.2).
Proof.
  intros H. assert (∀ x, x ∈ order (map_to_list s) ↔ s !! x.1 = Some x.2) as Hin.
  { intros [id p]. rewrite order_perm. apply elem_of_map_to_list. }
  split; [|exact Hin]. assert (NoDup (order (map_to_list s))) as Hnd by (rewrite order_perm; apply NoDup_map_to_list).
  revert Hnd Hin. generalize (order (map_to_list s)). intros l. revert H. intros H Hnd Hin.
  assert (∀ x, x ∈ l → s !! x.1 = Some x.2) as Hsub by (intros x Hx; by apply Hin). clear Hin.
  induction l as [|x l IH]; [constructor|]. cbn [fmap list_fmap]. apply NoDup_cons in Hnd as [Hx Hnd]. constructor.
  - intros (y & Hy & Hyl)%list_elem_of_fmap. apply Hx. assert (s !! x.1 = Some x.2 ∧ s !! y.1 = Some y.2) as [Ex Ey]
      by (split; apply Hsub; [left|by right]).
    destruct (H _ _ Ex) as (c & Hc & Hid), (H _ _ Ey) as (c' & Hc' & Hid'). rewrite Hy in Hc.
    destruct x as [i q], y as [i' q']. simpl in *. subst q'. by replace i with i' by congruence.
  - apply IH; [done|]. intros y Hy. apply Hsub. by right.
Qed.

(** A broadcast that the event loop takes, in a reachable state: every
    registered client whose connection is alive and whose filters pass the event
    is asked of its limiter, and gets the event behind those it has if the limiter
    allows it and its channel has room, else its drop is counted; every other
    client, and everything else, stays as it is.  So a client has its events in
    the order of the broadcasts. *)
Theorem broadcast_exact now e m :
  wf m → ∃ h, handleBroadcast now e m = Ok (m <| heap := h |>) ∧
    (∀ id p c, clients m !! id = Some p → heap m !! p = Some c → h !! p = Some (if IsAlive c then served (now id) e c else c)) ∧
    (∀ p, (∀ id, clients m !! id ≠ Some p) → h !! p = heap m !! p).
Proof.
  intros H. destruct (range_distinct m (clients m)) as [Hnd Hin]; [apply H|].
  destruct (deliveries_exact now e (order (map_to_list (clients m))) m Hnd) as (h & E & H1 & H2).
  { intros x Hx. apply Hin in Hx. destruct (wf_clients m H _ _ Hx) as (c & Hc & _). by exists c. }
  exists h. split; [exact E|]. split.
  - intros id p c Hp Hc. apply (H1 (id, p) c); [by apply Hin|done].
  - intros p Hp. apply H2. intros (x & -> & Hx)%list_elem_of_fmap. apply Hin in Hx. by destruct (Hp x.1).
Qed.

(** The adapters register a client and subscribe it at once.  Unless the
    event loop has taken the registration by then, no subscription is kept, and a
    message to one of the topics does not reach the client, which has no way of
    knowing. *)
Theorem early_subscription_lost p c topics0 choice m now f now' t e :
  wf m → heap m !! p = Some c → clients m !! ClientID c = None → running m = true → cancelled m = false →
  activeClients m < MaxClients (config m) → register m = [] → 0 < BroadcastBufferSize (config m) →
  t ∈ topics0 →
  let '(err, m1) := Register p choice m in
  let m2 := foldl (λ m t, (Subscribe (ClientID c) t m).2) m1 topics0 in
  err = None ∧ Forall (λ t, (Subscribe (ClientID c) t m1).1 = Some ErrClientNotFound) topics0 ∧ m2 = m1 ∧
  ∃ m3 m4 c3, step m2 (LRegister now f) = Ok m3 ∧ clients m3 !! ClientID c = Some p ∧ heap m3 !! p = Some c3 ∧
    BroadcastToTopic now' t e m3 = Ok m4 ∧ heap m4 !! p = Some c3.
Proof.
  intros H Hp Hnone Hrun Hcan Hmax Hreg Hsize Ht. unfold Register. rewrite Hrun. cbn [negb]. rewrite (proj2 (Z.leb_gt _ _) Hmax).
  unfold has_room. rewrite Hreg. cbn [length]. rewrite (proj2 (Z.ltb_lt _ _)) by (simpl; lia). rewrite Hcan. cbn [select app].
  set (m1 := m <| register := [p] |>).
  assert (∀ t, Subscribe (ClientID c) t m1 = (Some ErrClientNotFound, m1)) as Hsub.
  { intros t'. unfold Subscribe. change (clients m1) with (clients m). by rewrite Hnone. }
  assert (foldl (λ m t, (Subscribe (ClientID c) t m).2) m1 topics0 = m1) as ->.
  { clear Ht. induction topics0 as [|x l IH]; [done|]. cbn [foldl]. by rewrite Hsub. }
  split; [done|]. split; [apply Forall_forall; intros t' _; by rewrite Hsub|]. split; [done|].
  cbn [step]. change (register m1) with [p]. cbv iota. unfold handleRegister.
  set (m1' := m1 <| register := [] |>). change (heap m1' !! p) with (heap m !! p). rewrite Hp. cbv zeta.
  match goal with |- context [SendEvent now ?ev c] => destruct (SendEvent_ok now ev c) as (err & c3 & E & _); pose proof (SendEvent_wf _ _ _ _ _ E) as [Hid Hw]; rewrite E end.
  cbn [res_bind snd].
  match goal with |- context [Ok ?x = Ok _] => set (m3 := x) end.
  assert (clients m3 !! ClientID c = Some p) as Hc3 by (apply lookup_insert_eq).
  assert (heap m3 !! p = Some c3) as Hh3 by (apply lookup_insert_eq).
  assert (topics m3 = topics m) as Ht3 by done. assert (running m3 = true) as Hr3 by exact Hrun.
  exists m3. unfold BroadcastToTopic. rewrite Hr3, Ht3. cbn [negb]. destruct (topics m !! t) as [s|] eqn:Es; [|by exists m3, c3].
  destruct (wf_topics m H t s Es) as [_ Hs].
  assert (∀ id q, s !! id = Some q → ∃ c', heap m !! q = Some c' ∧ ClientID c' = id) as Hs' by (intros id q Hq; by apply Hs in Hq as [_ ?]).
  destruct (range_distinct m s Hs') as [Hnd Hin].
  destruct (deliveries_exact now' e (order (map_to_list s)) m3 Hnd) as (h & -> & _ & H2).
  { intros x Hx. apply Hin in Hx. destruct (Hs' _ _ Hx) as (c' & Hc' & _). change (heap m3) with (<[p := c3]> (heap m)).
    destruct (decide (p = x.2)) as [<-|]; [by rewrite lookup_insert_eq|by rewrite lookup_insert_ne]. }
  cbn [res_bind]. eexists _, c3. split; [done|]. split; [done|]. split; [done|]. split; [reflexivity|].
  change (h !! p = Some c3). rewrite H2; [exact Hh3|]. intros (x & Hxp & Hx)%list_elem_of_fmap. apply Hin in Hx. rewrite <- Hxp in Hx.
  destruct (Hs _ _ Hx) as [[q Hq] (c' & Hc' & Hcid)]. rewrite Hp in Hc'. injection Hc' as <-. rewrite Hcid in Hnone. congruence.
Qed.

(** The limit on clients looks at the registered ones only: a manager that
    has none accepts any number of registrations that fit into its queue, however
    low the limit, and the event loop then registers them all. *)
Theorem limit_bypassed ps m now f choice :
  running m = true → cancelled m = false → register m = [] → clients m = ∅ → activeClients m = 0 → 0 < MaxClients (config m) →
  Z.of_nat (length ps) ≤ BroadcastBufferSize (config m) →
  (∀ p, p ∈ ps → ∃ c, heap m !! p = Some c) →
  NoDup ((λ p, ClientID <$> heap m !! p) <$> ps) →
  ∃ m', run m (map (λ p, ORegister p choice) ps ++ repeat (LRegister now f) (length ps)) = Ok m' ∧
    size (clients m') = length ps ∧ activeClients m' = Z.of_nat (length ps).
Proof.
  intros Hrun Hcan Hreg Hcl Hact Hmax Hlen Hheap Hnd.
  assert (∀ l m0, running m0 = true → cancelled m0 = false → heap m0 = heap m → activeClients m0 = 0 → config m0 = config m →
    Z.of_nat (length (register m0) + length l) ≤ BroadcastBufferSize (config m) → (∀ p, p ∈ l → p ∈ ps) →
    run m0 (map (λ p, ORegister p choice) l) = Ok (m0 <| register := register m0 ++ l |>)) as Hq.
  { intros l. induction l as [|p l IH]; intros m0 H1 H2 H3 H4 H5 H6 H7; [rewrite app_nil_r; by destruct m0|].
    unfold run. cbn [map fold_res step]. destruct (Hheap p) as [c Hc]; [apply H7; left|]. rewrite H3, Hc. cbn [res_bind].
    unfold Register. rewrite H1, H4, H5. cbn [negb]. rewrite (proj2 (Z.leb_gt _ _) Hmax). unfold has_room. cbn [length] in H6.
    rewrite (proj2 (Z.ltb_lt _ _)) by lia. rewrite H2. cbn [select snd].
    pose proof (IH (m0 <| register := register m0 ++ [p] |>)) as IH'. unfold run in IH'. rewrite IH'; simpl; try done.
    - f_equal. destruct m0. cbv -[app]. by rewrite <- app_assoc.
    - rewrite length_app. simpl. lia.
    - intros q Hq. apply H7. by right. }
  assert (∀ l1 l2, fold_res step m (l1 ++ l2) = (let! m1 := fold_res step m l1 in fold_res step m1 l2)) as Happ.
  { clear. intros l1. revert m. induction l1 as [|o l IH]; intros m l2; [done|]. cbn [app fold_res]. destruct (step m o); [apply IH|done..]. }
  unfold run in *. rewrite Happ, Hq; try done; [|rewrite Hreg; simpl; lia]. cbn [res_bind]. rewrite Hreg. cbn [app].
  assert (∀ l m0, register m0 = l → (∀ p, ClientID <$> heap m0 !! p = ClientID <$> heap m !! p) → (∀ p, p ∈ l → p ∈ ps) →
    NoDup ((λ p, ClientID <$> heap m !! p) <$> l) →
    (∀ p c, p ∈ l → heap m !! p = Some c → clients m0 !! ClientID c = None) →
    ∃ m', fold_res step m0 (repeat (LRegister now f) (length l)) = Ok m' ∧
      size (clients m') = (size (clients m0) + length l)%nat ∧ activeClients m' = activeClients m0 + Z.of_nat (length l)) as Hl.
  { intros l. induction l as [|p l IH]; intros m0 H1 H2 H3 H4 H5; [exists m0; split; [done|simpl; lia]|].
    cbn [length repeat fold_res step]. rewrite H1. unfold handleRegister. change (heap (m0 <| register := l |>)) with (heap m0).
    destruct (Hheap p) as [c Hc]; [apply H3; left|]. pose proof (H2 p) as Hid. rewrite Hc in Hid. destruct (heap m0 !! p) as [c0|] eqn:Hc0; [|done].
    injection Hid as Hid. cbv zeta.
    match goal with |- context [SendEvent now ?ev c0] => destruct (SendEvent_ok now ev c0) as (err & c3 & E & _); pose proof (SendEvent_wf _ _ _ _ _ E) as [Hid3 _]; rewrite E end.
    cbn [res_bind snd]. cbn [fmap list_fmap] in H4. apply NoDup_cons in H4 as [H4 H4'].
    match goal with |- context [fold_res step ?x _] => set (m1 := x) end.
    assert (clients m1 = <[ClientID c := p]> (clients m0)) as Hcl1 by (rewrite <- Hid; reflexivity).
    destruct (IH m1) as (m' & E' & Hs & Ha); [done| |intros q Hq'; apply H3; by right|done| |].
    - intros q. rewrite <- H2. change (heap m1) with (<[p := c3]> (heap m0)). destruct (decide (p = q)) as [<-|].
      + rewrite lookup_insert_eq, Hc0. simpl. by rewrite Hid3.
      + by rewrite lookup_insert_ne.
    - intros q cq Hq' Hcq. rewrite Hcl1. rewrite lookup_insert_ne; [apply (H5 q); [by right|done]|]. intros Heq. apply H4.
      apply list_elem_of_fmap. exists q. split; [|done]. rewrite Hc, Hcq. simpl. by rewrite Heq.
    - exists m'. split; [exact E'|]. rewrite Hs, Ha, Hcl1. rewrite map_size_insert_None by (apply (H5 p); [left|done]).
      change (activeClients m1) with (activeClients m0 + 1). split; lia. }
  destruct (Hl ps (m <| register := ps |>)) as (m' & E & Hs & Ha); try done; [simpl; intros; by rewrite Hcl|].
  exists m'. split; [exact E|]. simpl in Hs, Ha. rewrite Hcl, map_size_empty in Hs. rewrite Hact in Ha. split; lia.
Qed.

End sse.

(** ** Witnesses *)

Definition always (_ : Time) (_ : unit) : bool * unit := (true, tt).
Definition demo_config : Config := mkConfig 1 0 0 Second 10 10 10 0 0 Second 0.
Definition demo_client (id : string) : Client (L := unit) := mkClient id [] 10 ∅ [] "" 0 tt false false 0 0 0 "".
(** No client is closed within a send. *)
Definition never (_ : Time) (_ : Client (L := unit)) : bool := false.
Lemma never_races : ¬ race never.
Proof. by intros (now & c & E). Qed.
(** A running manager with two clients that are not registered. *)
Definition demo_manager : Manager (L := unit) :=
  match run always demo_text (λ l, l) never (new_manager demo_config) [OStart; ONew 1 "a" "" 10 tt 0; ONew 2 "b" "" 10 tt 0] with
  | Ok m => m | _ => new_manager demo_config end.
Definition demo_registered : Manager (L := unit) :=
  match run always demo_text (λ l, l) never demo_manager [ORegister 1 true; LRegister 5 (mkFresh 5 "0123456789")] with
  | Ok m => m | _ => new_manager demo_config end.

Lemma demo_wf : wf demo_manager ∧ wf demo_registered.
Proof.
  assert (∀ ops m m', wf m → run always demo_text (λ l, l) never m ops = Ok m' → wf m') as K.
  { intros ops. induction ops as [|o ops IH]; intros m m' H E; [by injection E as <-|]. unfold run in E. cbn [fold_res] in E.
    destruct (wf_step always demo_text (λ l, l) never m o H) as [Hs|[[Es _]|[Es _]]]; [|by rewrite Es in E..].
    destruct (step always demo_text (λ l, l) never m o) as [m1| |w]; [by apply (IH m1)|done..]. }
  assert (wf demo_manager) as H1.
  { apply (K [OStart; ONew 1 "a" "" 10 tt 0; ONew 2 "b" "" 10 tt 0] (new_manager demo_config)); [|vm_compute; reflexivity].
    split; simpl; try (intros; simplify_map_eq; done); lia. }
  split; [exact H1|]. apply (K [ORegister 1 true; LRegister 5 (mkFresh 5 "0123456789")] demo_manager); [exact H1|vm_compute; reflexivity].
Qed.

Lemma send_race_witness : SendEvent always demo_text (λ _ _, true) 0 (demo_event "e" "t") (demo_client "a") = Panic send_panic.
Proof. apply (proj2 (send_race always demo_text (λ _ _, true) 0 (demo_event "e" "t") (demo_client "a")) (demo_client "a")); reflexivity. Defined.

Lemma broadcast_exact_witness :
  ∃ h, handleBroadcast always demo_text (λ l, l) never (λ _, 6) (demo_event "e" "t") demo_registered = Ok (demo_registered <| heap := h |>) ∧
    (length ∘ Send <$> h !! 1%nat) = Some 2%nat ∧ (length ∘ Send <$> h !! 2%nat) = Some 0%nat.
Proof.
  destruct (broadcast_exact always demo_text (λ l, l) never never_races (λ l, reflexivity l) (λ _, 6) (demo_event "e" "t") demo_registered (proj2 demo_wf))
    as (h & E & H1 & H2). exists h. split; [exact E|]. split.
  - rewrite (H1 "a" 1%nat (default (demo_client "a") (heap demo_registered !! 1%nat))); [vm_compute; reflexivity..].
  - rewrite H2; [vm_compute; reflexivity|]. intros id Hid.
    assert (map_Forall (λ _ p, p ≠ 2%nat) (clients demo_registered)) as HF by (apply (bool_decide_unpack _); vm_compute; exact I).
    by apply (HF id 2%nat Hid).
Defined.

Lemma early_subscription_lost_witness :
  let '(err, m1) := Register 2 true demo_manager in
  err = None ∧ foldl (λ m t, (Subscribe "b" t m).2) m1 ["job"; "bot"] = m1.
Proof.
  pose proof (early_subscription_lost always demo_text (λ l, l) never never_races (λ l, reflexivity l) 2 (demo_client "b") ["job"; "bot"] true demo_manager 0
    (mkFresh 0 "0123456789") (λ _, 0) "job" (demo_event "e" "job.started") (proj1 demo_wf)) as H.
  destruct (Register 2 true demo_manager) as [err m1].
  destruct H as (H1 & _ & H2 & _); [reflexivity|reflexivity|reflexivity|reflexivity|reflexivity|reflexivity|reflexivity|apply list_elem_of_here|].
  split; [exact H1|exact H2].
Defined.

Lemma limit_bypassed_witness :
  ∃ m, run always demo_text (λ l, l) never demo_manager
         (map (λ p, ORegister p true) [1%nat; 2%nat] ++ repeat (LRegister 0 (mkFresh 0 "0123456789")) 2) = Ok m ∧
       MaxClients (config demo_manager) < activeClients m.
Proof.
  destruct (limit_bypassed always demo_text (λ l, l) never never_races [1%nat; 2%nat] demo_manager 0 (mkFresh 0 "0123456789") true) as (m & E & _ & Ha);
    [reflexivity|reflexivity|reflexivity|reflexivity|reflexivity|reflexivity|vm_compute; discriminate| |vm_compute; repeat constructor; set_solver|].
  - intros p Hp. repeat (apply elem_of_cons in Hp as [->|Hp]; [eexists; vm_compute; reflexivity|]). by apply not_elem_of_nil in Hp.
  - exists m. split; [exact E|]. rewrite Ha. reflexivity.
Defined.
