(* ===== verification/StorageRetry.v ===== *)
(** * Retries of the SQL storage and its migrations: src/pkg/storage/retry.go, src/pkg/storage/migrations.go

    [WithRetry] runs a call until it succeeds, fails for good or has used up its
    attempts; the sleeps are returned as a log, the random draws of the jitter
    and what the context answers at each look are arguments.  At the end the
    runner of the schema migrations, over the list of migrations. *)

From Stdlib Require Import Lia Strings.String Strings.Ascii.
From S2P Require Import Prelude.

Record RetryOptions := mkRetryOptions {
  RMaxRetries : Z; RInitialDelay : Duration; RMaxDelay : Duration; RMultiplier : float64; RJitter : bool;
  RRetryableErrors : list goerror }.

#[export] Instance RetryOptions_eta : Eta RetryOptions := fun o =>
  mkRetryOptions (RMaxRetries o) (RInitialDelay o) (RMaxDelay o) (RMultiplier o) (RJitter o) (RRetryableErrors o).

(** The sentinels of database/sql. *)
Definition ErrNoRows : goerror := ErrNew "sql: no rows in result set".
Definition ErrConnDone : goerror := ErrNew "sql: connection is already closed".
Definition ErrTxDone : goerror := ErrNew "sql: transaction has already been committed or rolled back".

Definition DefaultRetryOptions : RetryOptions :=
  mkRetryOptions 3 (100 * Millisecond) (5 * Second) (f64_of_Z 2) true [ErrConnDone; ErrTxDone].

(** ** Which errors are retried *)

(** [err == target] for a sentinel made once by [errors.New]. *)
Definition is_sentinel (target err : goerror) : bool :=
  match target, err with ErrNew m, ErrNew m' => String.eqb m m' | _, _ => false end.

(** [errors.Is]: the error or one it wraps. *)
Fixpoint errors_Is (err target : goerror) : bool :=
  is_sentinel target err ||
  match err with ErrWrap _ e | ErrPanda _ _ e | ErrAppWrap _ _ _ e => errors_Is e target | _ => false end.

(** [errors.As] into a [sqlite3.Error], and into a [*PandaFuzzError]. *)
Fixpoint as_sqlite (err : goerror) : option (Z * Z) :=
  match err with
  | ErrSqlite code extended _ => Some (code, extended)
  | ErrWrap _ e | ErrPanda _ _ e | ErrAppWrap _ _ _ e => as_sqlite e
  | _ => None
  end.
Fixpoint as_panda (err : goerror) : option string :=
  match err with
  | ErrPanda etype _ _ => Some etype
  | ErrWrap _ e | ErrAppWrap _ _ _ e => as_panda e
  | _ => None
  end.

(** The result codes of SQLite that the program names. *)
Definition SQLITE_ERROR : Z := 1.
Definition SQLITE_BUSY : Z := 5.
Definition SQLITE_LOCKED : Z := 6.
Definition SQLITE_CONSTRAINT : Z := 19.
Definition SQLITE_CONSTRAINT_PRIMARYKEY : Z := 1555.
Definition SQLITE_CONSTRAINT_UNIQUE : Z := 2067.

Definition toLower (b : ascii) : ascii :=
  let n := N_of_ascii b in if (65 <=? n)%N && (n <=? 90)%N then ascii_of_N (n + 32) else b.

(** [s[i]], for [i] inside the string. *)
Definition byte_at (s : string) (i : nat) : ascii := default Ascii.zero (String.get i s).

(** The two loops of [containsIgnoreCase], over the indices [i] and [j]. *)
Definition matches_at (s substr : string) (i : nat) : bool :=
  forallb (λ j, Ascii.eqb (toLower (byte_at s (i + j))) (toLower (byte_at substr j))) (seq 0 (String.length substr)).
Definition containsIgnoreCase (s substr : string) : bool :=
  if (String.length substr =? 0)%nat then true
  else if (String.length s <? String.length substr)%nat then false
  else existsb (matches_at s substr) (seq 0 (String.length s - String.length substr + 1)).
Definition contains (s substr : string) : bool :=
  (String.length substr <=? String.length s)%nat && containsIgnoreCase s substr.

Definition sqlite_patterns : list string :=
  ["database is locked"; "database table is locked"; "SQLITE_BUSY"; "SQLITE_LOCKED";
   "cannot commit - no transaction is active"; "cannot commit transaction - SQL statements in progress";
   "cannot start a transaction within a transaction"].
Definition isSQLiteRetryable (err : goerror) : bool :=
  let by_text := existsb (contains (Error err)) sqlite_patterns in
  match as_sqlite err with
  | Some (code, extended) =>
      if code =? SQLITE_LOCKED then true
      else if code =? SQLITE_BUSY then true
      else if code =? SQLITE_CONSTRAINT then extended =? SQLITE_CONSTRAINT_UNIQUE
      else by_text
  | None => by_text
  end.

Definition database_patterns : list string :=
  ["connection reset by peer"; "broken pipe"; "no such host"; "connection refused"; "i/o timeout";
   "context deadline exceeded"; "too many connections"].
Definition isRetryableDatabaseError (errMsg : string) : bool := existsb (contains errMsg) database_patterns.

Definition isRetryable (err : goerror) (retryableErrors : list goerror) : bool :=
  if isSQLiteRetryable err then true
  else if existsb (errors_Is err) retryableErrors then true
  else match as_panda err with
       | Some etype => if String.eqb etype "database" then isRetryableDatabaseError (Error err) else false
       | None => false
       end.

(** ** Delays *)

(** [math.Pow], at an exponent that is a natural number: the loop of the
    standard library over the bits of the exponent, with the factor kept as a
    fraction in [1/2, 1) and an exponent.  [fuel] is the number of bits. *)
Fixpoint pow_loop (fuel : nat) (i : Z) (a1 : float64) (ae : Z) (x1 : float64) (xe : Z) : float64 :=
  match fuel with
  | O => SFldexp f64_prec f64_emax a1 ae
  | S fuel' =>
      if i =? 0 then SFldexp f64_prec f64_emax a1 ae
      else if (xe <? - 2 ^ 12) || (2 ^ 12 <? xe) then SFldexp f64_prec f64_emax a1 (ae + xe)
      else
        let '(a1, ae) := if Z.odd i then (f64_mul a1 x1, ae + xe) else (a1, ae) in
        let x1 := f64_mul x1 x1 in
        let xe := Z.shiftl xe 1 in
        let '(x1, xe) := if f64_lt x1 (f64_lit 1 2) then (f64_add x1 x1, xe - 1) else (x1, xe) in
        pow_loop fuel' (Z.shiftr i 1) a1 ae x1 xe
  end.
Definition Pow (x : float64) (y : Z) : float64 :=
  if y =? 0 then f64_of_Z 1 else if y =? 1 then x
  else let '(x1, xe) := SFfrexp f64_prec f64_emax x in pow_loop 64 y (f64_of_Z 1) 0 x1 xe.

Definition calculateDelay (attempt : Z) (random : float64) (opts : RetryOptions) : Duration :=
  let delay := f64_mul (f64_of_Z (RInitialDelay opts)) (Pow (RMultiplier opts) attempt) in
  let delay := if f64_gt delay (f64_of_Z (RMaxDelay opts)) then f64_of_Z (RMaxDelay opts) else delay in
  let delay :=
    if RJitter opts then
      let jitter := f64_mul (SFsub f64_prec f64_emax random (f64_lit 1 2)) (f64_lit 1 2) in
      f64_mul delay (f64_add (f64_of_Z 1) jitter)
    else delay in
  f64_to_int64 delay.

(** ** The loop *)

Definition exhausted (opts : RetryOptions) (lastErr : goerror) : goerror :=
  ErrWrap ("operation failed after " +:+ pretty (RMaxRetries opts + 1) +:+ " attempts") lastErr.

Section retry.
Context {St A : Type} (opts : RetryOptions) (random : Z → float64).
(** What the context says at its looks: the [2k]-th is before attempt [k], the
    one after it is the wait that follows the attempt. *)
Context (ctx : Z → option goerror).
Context (fn : io St A).

Fixpoint retry_loop (n : nat) (attempt : Z) (lastErr : goerror) (s : St) (sleeps : list Duration) : res A * St * list Duration :=
  match n with
  | O => (Err (exhausted opts lastErr), s, sleeps)
  | S n' =>
      match ctx (2 * attempt) with
      | Some err => (Err err, s, sleeps)
      | None =>
          match fn s with
          | (Ok a, s') => (Ok a, s', sleeps)
          | (Panic w, s') => (Panic w, s', sleeps)
          | (Err err, s') =>
              if (attempt =? RMaxRetries opts) || negb (isRetryable err (RRetryableErrors opts))
              then (Err (exhausted opts err), s', sleeps)
              else
                let sleeps := sleeps ++ [calculateDelay attempt (random attempt) opts] in
                match ctx (2 * attempt + 1) with
                | Some err => (Err err, s', sleeps)
                | None => retry_loop n' (attempt + 1) err s' sleeps
                end
          end
      end
  end.

Definition WithRetry_log (s : St) : res A * St * list Duration :=
  retry_loop (Z.to_nat (RMaxRetries opts + 1)) 0 (ErrNew "%!w(<nil>)") s [].
Definition WithRetry : io St A := λ s, (WithRetry_log s).1.
End retry.

(** The configuration of the database, as far as the retries read it. *)
Record DatabaseConfig := mkDatabaseConfig {
  MaxRetries : Z; RetryDelay : Duration; MaxRetryDelay : Duration; RetryMultiplier : float64 }.
Definition retry_options (config : DatabaseConfig) : RetryOptions :=
  mkRetryOptions (MaxRetries config) (RetryDelay config) (MaxRetryDelay config) (RetryMultiplier config) true [ErrConnDone; ErrTxDone].

(** [ExecuteWithRetry], [ExecuteWithRetryResult], [RetryableExec] and the
    retried queries: the call under the options of the configuration. *)
Definition ExecuteWithRetry {St A} (config : DatabaseConfig) (random : Z → float64) (ctx : Z → option goerror)
    (fn : io St A) : io St A := WithRetry (retry_options config) random ctx fn.

(** ** The search ignores case and nothing else *)

Lemma ToLower_length s : String.length (ToLower s) = String.length s.
Proof. induction s as [|c s IH]; simpl; [done|by rewrite IH]. Qed.

Lemma HasPrefix_short s p : (String.length s < String.length p)%nat → HasPrefix s p = false.
Proof.
  revert s. induction p as [|b p IH]; intros s Hl; simpl in Hl; [lia|].
  destruct s as [|a s]; [done|]. rewrite HasPrefix_cons, IH; [by destruct (Ascii.eqb a b)|simpl in Hl; lia].
Qed.

Lemma Contains_short s p : (String.length s < String.length p)%nat → Contains s p = false.
Proof.
  induction s as [|c s IH]; intros Hl; cbn [Contains]; rewrite HasPrefix_short by done; [done|].
  simpl in Hl. apply IH. lia.
Qed.

Lemma forallb_map {A B} (g : A → B) (f : B → bool) l : forallb f (map g l) = forallb (λ x, f (g x)) l.
Proof. induction l as [|x l IH]; simpl; [done|by rewrite IH]. Qed.
Lemma existsb_map {A B} (g : A → B) (f : B → bool) l : existsb f (map g l) = existsb (λ x, f (g x)) l.
Proof. induction l as [|x l IH]; simpl; [done|by rewrite IH]. Qed.

Lemma matches_at_0 s sub : (String.length sub ≤ String.length s)%nat → matches_at s sub 0 = HasPrefix (ToLower s) (ToLower sub).
Proof.
  revert s. induction sub as [|b sub IH]; intros s Hl; [by destruct s|].
  destruct s as [|a s]; simpl in Hl; [lia|]. cbn [ToLower]. rewrite HasPrefix_cons, <- IH by lia.
  unfold matches_at. cbn [String.length seq forallb]. f_equal. rewrite <- seq_shift, forallb_map. done.
Qed.

Lemma matches_at_S c s sub i : matches_at (String c s) sub (S i) = matches_at s sub i.
Proof. done. Qed.

Lemma search_spec s sub : (String.length sub ≤ String.length s)%nat →
  existsb (matches_at s sub) (seq 0 (String.length s - String.length sub + 1)) = Contains (ToLower s) (ToLower sub).
Proof.
  induction s as [|c s IH]; intros Hl.
  { cbn [String.length] in Hl. destruct sub; [done|simpl in Hl; lia]. }
  rewrite Nat.add_1_r. cbn [seq existsb]. rewrite matches_at_0 by done. cbn [ToLower Contains]. f_equal.
  rewrite <- seq_shift, existsb_map. cbn [String.length] in Hl |- *.
  destruct (decide (String.length sub ≤ String.length s)%nat) as [Hs|Hs].
  - rewrite <- (IH Hs). replace (S (String.length s) - String.length sub)%nat with (String.length s - String.length sub + 1)%nat by lia.
    done.
  - replace (S (String.length s) - String.length sub)%nat with 0%nat by lia. simpl.
    rewrite Contains_short; [done|rewrite !ToLower_length; lia].
Qed.

(** The byte-wise search of the retry patterns finds a pattern exactly when
    the lower-cased text contains the lower-cased pattern. *)
Theorem contains_spec s substr : contains s substr = Contains (ToLower s) (ToLower substr).
Proof.
  unfold contains, containsIgnoreCase. destruct (Nat.leb_spec (String.length substr) (String.length s)) as [Hl|Hl]; simpl.
  - rewrite (proj2 (Nat.ltb_ge _ _)), search_spec by lia. destruct (Nat.eqb_spec (String.length substr) 0) as [H0|]; [|done].
    destruct substr; [|done]. by destruct (ToLower s).
  - symmetry. apply Contains_short. rewrite !ToLower_length. lia.
Qed.

(** ** What the loop does *)

Section runs.
Context {St A : Type} (opts : RetryOptions) (random : Z → float64) (fn : io St A).

(** A run without cancellation that makes [k] calls: each call before the last
    failed with an error worth a retry; the last one succeeded, panicked,
    failed for good or was the last allowed. *)
Inductive retry_run : Z → St → res A → St → nat → Prop :=
  | run_ok attempt s a s' : fn s = (Ok a, s') → retry_run attempt s (Ok a) s' 1
  | run_panic attempt s w s' : fn s = (Panic w, s') → retry_run attempt s (Panic w) s' 1
  | run_last attempt s e s' : fn s = (Err e, s') →
      isRetryable e (RRetryableErrors opts) = false ∨ attempt = RMaxRetries opts →
      retry_run attempt s (Err (exhausted opts e)) s' 1
  | run_again attempt s e s' r s'' k : fn s = (Err e, s') → isRetryable e (RRetryableErrors opts) = true →
      attempt < RMaxRetries opts → retry_run (attempt + 1) s' r s'' k → retry_run attempt s r s'' (S k).

Lemma retry_loop_runs n attempt last s sleeps :
  Z.of_nat n = RMaxRetries opts + 1 - attempt → attempt ≤ RMaxRetries opts →
  ∃ r s' k log, retry_loop opts random (λ _, None) fn n attempt last s sleeps = (r, s', sleeps ++ log) ∧
    retry_run attempt s r s' k ∧ (1 ≤ k)%nat ∧ Z.of_nat k ≤ RMaxRetries opts + 1 - attempt ∧ length log = (k - 1)%nat.
Proof.
  revert attempt last s sleeps. induction n as [|n IH]; intros attempt last s sleeps Hn Ha; [lia|]. cbn [retry_loop].
  assert (∀ r s', retry_run attempt s r s' 1 → ∃ r0 s0 k log, (r, s', sleeps) = (r0, s0, sleeps ++ log) ∧
    retry_run attempt s r0 s0 k ∧ (1 ≤ k)%nat ∧ Z.of_nat k ≤ RMaxRetries opts + 1 - attempt ∧ length log = (k - 1)%nat) as Hone.
  { intros r s' Hr. exists r, s', 1%nat, []. rewrite app_nil_r. split_and!; [done..|lia|done]. }
  destruct (fn s) as [[a|e|w] s'] eqn:E; [apply Hone; by constructor| |apply Hone; by constructor].
  destruct (Z.eqb_spec attempt (RMaxRetries opts)) as [He|He]; [apply Hone; constructor; [done|by right]|].
  destruct (isRetryable e (RRetryableErrors opts)) eqn:Er; [|apply Hone; constructor; [done|by left]]. cbn [negb orb].
  set (d := calculateDelay attempt (random attempt) opts).
  destruct (IH (attempt + 1) e s' (sleeps ++ [d])) as (r & s'' & k & log & -> & Hr & Hk1 & Hk2 & Hl); [lia..|].
  exists r, s'', (S k), (d :: log). rewrite <- app_assoc. split_and!; [done| |lia|lia|simpl; lia].
  eapply run_again; [exact E|exact Er|lia|exact Hr].
Qed.

Lemma retry_run_error attempt s e s' k : retry_run attempt s (Err e) s' k → ∃ e', e = exhausted opts e'.
Proof. intros H. remember (Err e) as r eqn:Er. induction H; simplify_eq; eauto. Qed.
End runs.

Lemma WithRetry_runs {St A} (opts : RetryOptions) (random : Z → float64) (fn : io St A) (s : St) : 0 ≤ RMaxRetries opts →
  ∃ r s' k log, WithRetry_log opts random (λ _, None) fn s = (r, s', log) ∧
    retry_run opts fn 0 s r s' k ∧ (1 ≤ k)%nat ∧ Z.of_nat k ≤ RMaxRetries opts + 1 ∧ length log = (k - 1)%nat.
Proof.
  intros Hmax. unfold WithRetry_log.
  destruct (retry_loop_runs opts random fn (Z.to_nat (RMaxRetries opts + 1)) 0 (ErrNew "%!w(<nil>)") s []) as (r & s' & k & log & E & Hr & Hk1 & Hk2 & Hl); [lia..|].
  exists r, s', k, log. split_and!; [done..|lia|done].
Qed.

(** With a non-negative limit and a context that is not cancelled,
    [WithRetry] returns after between one and [MaxRetries + 1] calls, with one
    sleep between two calls: every call but the last failed with an error worth
    a retry, the last one decides, and a failure always comes out wrapped in
    "operation failed after [MaxRetries + 1] attempts", however many were made. *)
Theorem with_retry_spec {St A} (opts : RetryOptions) (random : Z → float64) (fn : io St A) (s : St)
    (Hmax : 0 ≤ RMaxRetries opts) :
  ∃ r s' k log, WithRetry_log opts random (λ _, None) fn s = (r, s', log) ∧
    retry_run opts fn 0 s r s' k ∧ (1 ≤ k)%nat ∧ Z.of_nat k ≤ RMaxRetries opts + 1 ∧ length log = (k - 1)%nat.
Proof. by apply WithRetry_runs. Qed.

(** ** For the clients *)

Lemma WithRetry_keeps {St A} opts random ctx (fn : io St A) (P : St → Prop) :
  io_keeps P fn → io_keeps P (WithRetry opts random ctx fn).
Proof.
  intros Hfn s Hs. unfold WithRetry, WithRetry_log. generalize (ErrNew "%!w(<nil>)") (0 : Z) (@nil Duration).
  generalize (Z.to_nat (RMaxRetries opts + 1)) as n. intros n. revert s Hs.
  induction n as [|n IH]; intros s Hs e0 k sl; [done|]. cbn [retry_loop].
  destruct (ctx (2 * k)); [done|]. pose proof (Hfn s Hs) as Hs'. destruct (fn s) as [[a|e|w] s']; [done| |done]. simpl in Hs'.
  destruct (_ || _); [done|]. destruct (ctx (2 * k + 1)); [done|]. by apply IH.
Qed.

(** A result is that of some call, made in a state that failed calls lead to. *)
Lemma WithRetry_ok {St A} opts random ctx (fn : io St A) (P : St → Prop) s a s' :
  io_keeps P fn → P s → WithRetry opts random ctx fn s = (Ok a, s') → ∃ s0, P s0 ∧ fn s0 = (Ok a, s').
Proof.
  intros Hfn Hs. unfold WithRetry, WithRetry_log. generalize (ErrNew "%!w(<nil>)") (0 : Z) (@nil Duration).
  generalize (Z.to_nat (RMaxRetries opts + 1)) as n. intros n. revert s Hs.
  induction n as [|n IH]; intros s Hs e0 k sl; [done|]. cbn [retry_loop].
  destruct (ctx (2 * k)); [done|]. pose proof (Hfn s Hs) as Hs'. destruct (fn s) as [[b|e|w] s1] eqn:E; [|simpl in Hs'|done].
  - intros [= -> ->]. eauto.
  - destruct (_ || _); [done|]. destruct (ctx (2 * k + 1)); [done|]. by apply IH.
Qed.

Lemma WithRetry_panic {St A} opts random ctx (fn : io St A) (P : St → Prop) s w s' :
  io_keeps P fn → P s → WithRetry opts random ctx fn s = (Panic w, s') → ∃ s0, P s0 ∧ fn s0 = (Panic w, s').
Proof.
  intros Hfn Hs. unfold WithRetry, WithRetry_log. generalize (ErrNew "%!w(<nil>)") (0 : Z) (@nil Duration).
  generalize (Z.to_nat (RMaxRetries opts + 1)) as n. intros n. revert s Hs.
  induction n as [|n IH]; intros s Hs e0 k sl; [done|]. cbn [retry_loop].
  destruct (ctx (2 * k)); [done|]. pose proof (Hfn s Hs) as Hs'. destruct (fn s) as [[b|e|w'] s1] eqn:E; [done|simpl in Hs'|].
  - destruct (_ || _); [done|]. destruct (ctx (2 * k + 1)); [done|]. by apply IH.
  - intros [= -> ->]. eauto.
Qed.

Section first_calls.
Context {St A : Type} (config : DatabaseConfig) (random : Z → float64) (fn : io St A).
Hypothesis Hmax : 0 ≤ MaxRetries config.
Abbreviation execute := (ExecuteWithRetry config random (λ _, None) fn).
Abbreviation failed := (exhausted (retry_options config)).

Lemma execute_ok s a s' : fn s = (Ok a, s') → execute s = (Ok a, s').
Proof.
  intros E. unfold ExecuteWithRetry, WithRetry, WithRetry_log. cbn [RMaxRetries retry_options].
  destruct (Z.to_nat (MaxRetries config + 1)) eqn:En; [lia|]. simpl. by rewrite E.
Qed.

Lemma execute_panic s w s' : fn s = (Panic w, s') → execute s = (Panic w, s').
Proof.
  intros E. unfold ExecuteWithRetry, WithRetry, WithRetry_log. cbn [RMaxRetries retry_options].
  destruct (Z.to_nat (MaxRetries config + 1)) eqn:En; [lia|]. simpl. by rewrite E.
Qed.

(** An error that no retry changes comes out, wrapped, after whatever number of
    calls. *)
Lemma execute_stuck s e : fn s = (Err e, s) → execute s = (Err (failed e), s).
Proof.
  intros E. unfold ExecuteWithRetry, WithRetry, WithRetry_log. cbn [RMaxRetries retry_options].
  assert (∀ n k e0 sl, (0 < n)%nat → Z.of_nat n = MaxRetries config + 1 - k →
    (retry_loop (retry_options config) random (λ _, None) fn n k e0 s sl).1 = (Err (failed e), s)) as H.
  { induction n as [|n IH]; intros k e0 sl Hn Hk; [lia|]. cbn [retry_loop]. rewrite E.
    cbn [RMaxRetries retry_options]. destruct (Z.eqb_spec k (MaxRetries config)); [done|]. cbn [orb].
    destruct (isRetryable _ _); [|done]. cbn [negb]. apply IH; lia. }
  apply H; lia.
Qed.

Lemma execute_wrapped s e s' : execute s = (Err e, s') → ∃ e', e = failed e'.
Proof.
  intros E. destruct (WithRetry_runs (retry_options config) random fn s) as (r & s0 & k & log & Hw & Hr & _); [done|].
  unfold ExecuteWithRetry, WithRetry in E. rewrite Hw in E. simplify_eq/=. by apply retry_run_error in Hr.
Qed.
End first_calls.

(** ** Migrations *)

Section migrations.
Context {D : Type}.
(** A migration changes the schema in its transaction or fails. *)
Record Migration := mkMigration { MigID : string; Up : D → D + goerror }.

(** The database: the rows of [schema_migrations], its content, and the faults
    of the calls to come; no entry is no fault. *)
Record MigDB := mkMigDB { applied : list string; content : D; mig_faults : list (option goerror) }.
#[local] Instance MigDB_eta : Eta MigDB := fun d => mkMigDB (applied d) (content d) (mig_faults d).

Definition mig_call (prefix : string) : io MigDB unit := λ d,
  match mig_faults d with
  | [] => (Ok tt, d)
  | None :: fs => (Ok tt, d <| mig_faults := fs |>)
  | Some e :: fs => (Err (ErrWrap prefix e), d <| mig_faults := fs |>)
  end.

(** The body of the loop.  The change of the migration and its record are made
    in one transaction: both are there after the commit, none before. *)
Definition migrate_one (m : Migration) : io MigDB unit :=
  let* _ := mig_call ("failed to check migration " +:+ MigID m) in
  let* done := io_get (λ d, slice_has (MigID m) (applied d)) in
  if done then io_ret tt
  else
    let* _ := mig_call ("failed to begin transaction for migration " +:+ MigID m) in
    let* c := io_get content in
    match Up m c with
    | inr err => io_err (ErrWrap ("failed to apply migration " +:+ MigID m) err)
    | inl c' =>
        let* _ := mig_call ("failed to record migration " +:+ MigID m) in
        let* _ := mig_call ("failed to commit migration " +:+ MigID m) in
        io_set (λ d, d <| applied := applied d ++ [MigID m] |> <| content := c' |>)
    end.
Fixpoint migrate_all (migrations : list Migration) : io MigDB unit :=
  match migrations with
  | [] => io_ret tt
  | m :: rest => let* _ := migrate_one m in migrate_all rest
  end.
Definition MigrateExistingData (migrations : list Migration) : io MigDB unit :=
  let* _ := mig_call "failed to create migrations table" in migrate_all migrations.

(** What the migrations make of a content, one after the other. *)
Fixpoint ups (migrations : list Migration) (c : D) : D + goerror :=
  match migrations with
  | [] => inl c
  | m :: rest => match Up m c with inl c' => ups rest c' | inr e => inr e end
  end.

(** [d] is what the first [k] of the migrations make of [c]. *)
Definition migrated (migrations : list Migration) (c : D) (k : nat) (d : MigDB) : Prop :=
  applied d = MigID <$> take k migrations ∧ ups (take k migrations) c = inl (content d).

Lemma ups_snoc l m c : ups (l ++ [m]) c = match ups l c with inl c' => Up m c' | inr e => inr e end.
Proof. revert c. induction l as [|x l IH]; intros c; simpl; [by destruct (Up m c)|]. destruct (Up x c); [apply IH|done]. Qed.

Lemma mig_call_cases prefix d :
  (∃ fs, mig_call prefix d = (Ok tt, d <| mig_faults := fs |>) ∧ (mig_faults d = [] → fs = [])) ∨
  (∃ e fs, mig_call prefix d = (Err e, d <| mig_faults := fs |>) ∧ mig_faults d ≠ []).
Proof.
  unfold mig_call. destruct d as [a c fs]; simpl. destruct fs as [|[e|] fs]; [left; by exists []|right; by eexists _, fs|left; by exists fs].
Qed.

Section migrate.
Context (migrations : list Migration) (c : D) (Hnd : NoDup (MigID <$> migrations)).
Abbreviation at_ := (migrated migrations c).

Lemma done_iff k d i m : at_ k d → migrations !! i = Some m → slice_has (MigID m) (applied d) = true ↔ (i < k)%nat.
Proof using Hnd.
  intros [Ha _] Hm. rewrite slice_has_true, Ha, fmap_take. assert ((MigID <$> migrations) !! i = Some (MigID m)) as Hi by (by rewrite list_lookup_fmap, Hm).
  split.
  - intros (j & Hj)%list_elem_of_lookup. apply lookup_take_Some in Hj as [Hj Hlt].
    by rewrite (NoDup_lookup _ _ _ _ Hnd Hi Hj).
  - intros Hlt. apply list_elem_of_lookup. exists i. by apply lookup_take_Some.
Qed.

(** A call of the loop leaves the migrations at [k], or takes them to [k + 1]
    when its turn has come and all went well. *)
Lemma migrate_one_spec k d i m : at_ k d → migrations !! i = Some m → (i ≤ k)%nat →
  ∃ r d', migrate_one m d = (r, d') ∧ (∀ w, r ≠ Panic w) ∧
    ((at_ (S i `max` k) d' ∧ r = Ok tt) ∨ (at_ k d' ∧ ∃ e, r = Err e)) ∧
    (mig_faults d = [] → mig_faults d' = [] ∧ (is_Some (match ups (take (S i) migrations) c with inl x => Some x | inr _ => None end) → r = Ok tt)).
Proof using Hnd.
  intros Hat Hm Hi. unfold migrate_one, io_bind at 1. 
  destruct (mig_call_cases ("failed to check migration " +:+ MigID m) d) as [(f1 & -> & Hf1)|(e & f1 & -> & Hf1)];
    [|eexists _, _; split_and!; [done|done|right; split; [done|by eexists]|done]].
  unfold io_bind at 1, io_get at 1. cbn [applied set_field MigDB_eta eta_expand].
  pose proof (done_iff k d i m Hat Hm) as Hd. destruct (slice_has (MigID m) (applied d)).
  { eexists _, _. split_and!; [done|done|left; split; [|done]|intros H; by rewrite (Hf1 H)].
    replace (S i `max` k)%nat with k; [done|]. destruct Hd as [Hd _]. specialize (Hd eq_refl). lia. }
  assert (i = k) as -> by (destruct (decide (i < k)%nat) as [H|]; [by apply Hd in H|lia]). clear Hd Hi.
  destruct Hat as [Ha Hc]. unfold io_bind at 1.
  match goal with |- context [mig_call ?p ?x] => destruct (mig_call_cases p x) as [(f2 & -> & Hf2)|(e & f2 & -> & Hf2)] end;
    [|eexists _, _; split_and!; [done|done|right; split; [done|by eexists]|intros H; by rewrite (Hf1 H) in Hf2]].
  unfold io_bind at 1, io_get at 1. cbn [content set_field MigDB_eta eta_expand].
  assert (take (S k) migrations = take k migrations ++ [m]) as Htake by (by apply take_S_r).
  rewrite Htake, ups_snoc, Hc.
  destruct (Up m (content d)) as [c'|e] eqn:Eu.
  2:{ eexists _, _. split_and!; [done|done|right; split; [done|by eexists]|]. intros H. split; [by apply Hf2, Hf1|by intros []]. }
  unfold io_bind at 1.
  match goal with |- context [mig_call ?p ?x] => destruct (mig_call_cases p x) as [(f3 & -> & Hf3)|(e & f3 & -> & Hf3)] end;
    [|eexists _, _; split_and!; [done|done|right; split; [done|by eexists]|intros H; by rewrite (Hf2 (Hf1 H)) in Hf3]].
  unfold io_bind at 1.
  match goal with |- context [mig_call ?p ?x] => destruct (mig_call_cases p x) as [(f4 & -> & Hf4)|(e & f4 & -> & Hf4)] end;
    [|eexists _, _; split_and!; [done|done|right; split; [done|by eexists]|intros H; by rewrite (Hf3 (Hf2 (Hf1 H))) in Hf4]].
  eexists _, _. split_and!; [done|done|left; split; [|done]|intros H; by rewrite (Hf4 (Hf3 (Hf2 (Hf1 H))))].
  rewrite Nat.max_l by lia. unfold migrated. rewrite Htake, fmap_app, ups_snoc, Hc. simpl. by rewrite Ha, Eu.
Qed.

Lemma ups_prefix l1 l2 x : ups (l1 ++ l2) c = inl x → ∃ y, ups l1 c = inl y.
Proof.
  revert x. induction l2 as [|m l2 IH] using rev_ind; intros x; [rewrite app_nil_r; eauto|].
  rewrite app_assoc, ups_snoc. destruct (ups (l1 ++ l2) c) eqn:E; [by intros; eapply IH|done].
Qed.

Lemma migrate_all_spec i k d : at_ k d → (i ≤ k ≤ length migrations)%nat →
  ∃ r d' k', migrate_all (drop i migrations) d = (r, d') ∧ (∀ w, r ≠ Panic w) ∧ at_ k' d' ∧ (k ≤ k' ≤ length migrations)%nat ∧
    (r = Ok tt → k' = length migrations) ∧
    (mig_faults d = [] → mig_faults d' = [] ∧ ((∃ x, ups migrations c = inl x) → r = Ok tt)).
Proof using Hnd.
  remember (length migrations - i)%nat as n eqn:Hn. revert i k d Hn. induction n as [|n IH]; intros i k d Hn Hat Hk.
  { rewrite drop_ge by lia. exists (Ok tt), d, k. split_and!; try done; lia. }
  destruct (lookup_lt_is_Some_2 migrations i) as [m Hm]; [lia|]. rewrite (drop_S _ m) by done. cbn [migrate_all]. unfold io_bind.
  destruct (migrate_one_spec k d i m Hat Hm) as (r & d1 & -> & Hp & Hr & Hf); [lia|].
  destruct Hr as [[Hat1 ->]|[Hat1 [e ->]]].
  - destruct (IH (S i) (S i `max` k)%nat d1) as (r & d' & k' & -> & Hp' & Hat' & Hk' & Hr & Hf'); [lia|done|lia|].
    exists r, d', k'. split_and!; try done; [lia|lia|]. intros H. destruct (Hf H) as [H1 _]. by apply Hf'.
  - exists (Err e), d1, k. split_and!; try done; [lia..|]. intros H. destruct (Hf H) as [H1 H2]. split; [done|]. intros [x Hx]. apply H2.
    rewrite <- (take_drop (S i) migrations) in Hx. apply ups_prefix in Hx as [y ->]. eauto.
Qed.

(** C19: running the migrations.  From a database that some first migrations
    have made of the content [c], a run with whatever faults ends in one that
    at least as many first migrations have made of [c], each recorded exactly
    once; it reports success only when all are; and a run without faults
    succeeds when the migrations themselves do, so a run that was cut short is
    completed by the next one. *)
Theorem migrations_resume k d (Hat : at_ k d) (Hk : (k ≤ length migrations)%nat) :
  ∃ r d' k', MigrateExistingData migrations d = (r, d') ∧ (∀ w, r ≠ Panic w) ∧ at_ k' d' ∧ (k ≤ k' ≤ length migrations)%nat ∧
    (r = Ok tt → k' = length migrations) ∧ (mig_faults d = [] → (∃ x, ups migrations c = inl x) → r = Ok tt).
Proof using Hnd.
  unfold MigrateExistingData, io_bind.
  destruct (mig_call_cases "failed to create migrations table" d) as [(fs & -> & Hf)|(e & fs & -> & Hf)].
  2:{ eexists _, _, k. split_and!; try done; lia. }
  destruct (migrate_all_spec 0 k (d <| mig_faults := fs |>)) as (r & d' & k' & E & Hp & Hat' & Hk' & Hr & Hf'); [done|lia|].
  rewrite drop_0 in E. exists r, d', k'. split_and!; [done..|lia|lia|done|]. intros H. by apply Hf', Hf.
Qed.
End migrate.
End migrations.

Definition two_migrations : list (Migration (D := list string)) :=
  [mkMigration "001" (λ c, inl (c ++ ["bots"])); mkMigration "002" (λ c, inl (c ++ ["crashes"]))].
Lemma migrations_resume_witness :
  let d := mkMigDB ["001"] ["bots"] [None; None; None; Some (ErrNew "disk I/O error")] in
  ∃ r d' k', MigrateExistingData two_migrations d = (r, d') ∧ (∀ w, r ≠ Panic w) ∧ migrated two_migrations [] k' d' ∧
    (1 ≤ k' ≤ length two_migrations)%nat ∧ (r = Ok tt → k' = length two_migrations) ∧
    (mig_faults d = [] → (∃ x, ups two_migrations [] = inl x) → r = Ok tt).
Proof. apply (migrations_resume two_migrations []); [by apply (bool_decide_unpack _); vm_compute|done|simpl; lia]. Defined.

Definition locked_once (n : nat) : res string * nat :=
  match n with O => (Err (ErrSqlite SQLITE_BUSY SQLITE_BUSY "database is locked"), 1%nat) | S _ => (Ok "row", n) end.
Lemma with_retry_spec_witness :
  ∃ r s' k log, WithRetry_log DefaultRetryOptions (λ _, f64_lit 1 2) (λ _, None) locked_once 0%nat = (r, s', log) ∧
    retry_run DefaultRetryOptions locked_once 0 0%nat r s' k ∧ (1 ≤ k)%nat ∧ Z.of_nat k ≤ RMaxRetries DefaultRetryOptions + 1 ∧
    length log = (k - 1)%nat.
Proof. apply (with_retry_spec DefaultRetryOptions (λ _, f64_lit 1 2) locked_once 0%nat); simpl; lia. Defined.

(** The delays of the default options, without jitter: doubling up to the cap. *)
Example default_delays :
  (λ k, calculateDelay k f64_zero (DefaultRetryOptions <| RJitter := false |>)) <$> [0; 1; 2; 5; 6; 40] =
  [100 * Millisecond; 200 * Millisecond; 400 * Millisecond; 3200 * Millisecond; 5 * Second; 5 * Second].
Proof. vm_compute. reflexivity. Qed.

Arguments Migration : clear implicits.
Arguments MigDB : clear implicits.
