(* ===== verification/Sql.v ===== *)
(** * What the queries of the SQL storage share

    A database is its tables and a script of the failures of the calls to come
    (no entry is no failure).  Each call of database/sql takes one entry; a
    failed statement changes no table, a failed transaction neither.  Constraint
    violations and unknown names come with SQLite's codes and texts. *)

From Stdlib Require Import Lia.
From S2P Require Import Prelude StorageRetry.

Record sql (T : Type) := mkSql { tables : T; sql_faults : list (option goerror) }.
Arguments mkSql {T}. Arguments tables {T}. Arguments sql_faults {T}.

Section sql.
Context {T : Type}.
#[export] Instance sql_eta : Eta (sql T) := fun d => mkSql (tables d) (sql_faults d).

(** One call of the driver: the next fault, or the body on the tables. *)
Definition exec {A} (body : T → res A * T) : io (sql T) A := λ d,
  match sql_faults d with
  | Some e :: fs => (Err e, mkSql (tables d) fs)
  | None :: fs => let '(r, t) := body (tables d) in (r, mkSql t fs)
  | [] => let '(r, t) := body (tables d) in (r, mkSql t [])
  end.
(** A statement that only reads, and one that changes the tables or fails. *)
Definition query {A} (body : T → res A) : io (sql T) A := exec (λ t, (body t, t)).
Definition change (body : T → res T) : io (sql T) unit :=
  exec (λ t, match body t with Ok t' => (Ok tt, t') | Err e => (Err e, t) | Panic w => (Panic w, t) end).

(** [db.BeginTx], the body, [tx.Commit], with the deferred [tx.Rollback]. *)
Definition transaction {A} (body : io (sql T) A) : io (sql T) A := λ d,
  match (let* _ := query (λ _, Ok tt) in let* a := body in let* _ := query (λ _, Ok tt) in io_ret a) d with
  | (Ok a, d') => (Ok a, d')
  | (r, d') => (r, mkSql (tables d) (sql_faults d'))
  end.

Lemma exec_ok {A} (body : T → res A * T) (d : sql T) a d' : exec body d = (Ok a, d') → body (tables d) = (Ok a, tables d').
Proof. unfold exec. destruct (sql_faults d) as [|[e|] fs]; [|done|]; destruct (body (tables d)); by intros [= -> <-]. Qed.

Lemma exec_panic {A} (body : T → res A * T) (d : sql T) w d' : exec body d = (Panic w, d') → body (tables d) = (Panic w, tables d').
Proof. unfold exec. destruct (sql_faults d) as [|[e|] fs]; [|done|]; destruct (body (tables d)); by intros [= -> <-]. Qed.

Definition healthy (d : sql T) : Prop := sql_faults d = [].

Lemma healthy_eq (d : sql T) : healthy d → d = mkSql (tables d) [].
Proof. unfold healthy. destruct d as [t fs]. simpl. by intros ->. Qed.

(** A property of the tables that no successful statement breaks. *)
Definition on_tables (P : T → Prop) (d : sql T) : Prop := P (tables d).
Lemma keeps_query {A} P (body : T → res A) : io_keeps (on_tables P) (query body).
Proof. intros d Hd. unfold query, exec. destruct (sql_faults d) as [|[] ?]; done. Qed.
Lemma keeps_change P body : (∀ t t', P t → body t = Ok t' → P t') → io_keeps (on_tables P) (change body).
Proof.
  intros Hb d Hd. unfold change, exec. destruct (sql_faults d) as [|[] ?]; [|done|];
    destruct (body (tables d)) eqn:E; simpl; try done; by eapply Hb.
Qed.
Lemma keeps_transaction {A} P (body : io (sql T) A) : io_keeps (on_tables P) body → io_keeps (on_tables P) (transaction body).
Proof.
  intros Hb d Hd. unfold transaction.
  assert (io_keeps (on_tables P) (let* _ := query (λ _, Ok tt) in let* a := body in let* _ := query (λ _, Ok tt) in io_ret a)) as Hk.
  { apply keeps_bind; [apply keeps_query|intros _]. apply keeps_bind; [done|intros a]. apply keeps_bind; [apply keeps_query|intros _; apply keeps_ret]. }
  specialize (Hk d Hd). by destruct ((_ : io (sql T) A) d) as [[] ?].
Qed.
End sql.

(** ** Errors of the engine *)

Definition constraint_unique (column : string) : goerror :=
  ErrSqlite SQLITE_CONSTRAINT SQLITE_CONSTRAINT_UNIQUE ("UNIQUE constraint failed: " +:+ column).
Definition constraint_primary (column : string) : goerror :=
  ErrSqlite SQLITE_CONSTRAINT SQLITE_CONSTRAINT_PRIMARYKEY ("UNIQUE constraint failed: " +:+ column).
Definition no_such_table (table : string) : goerror := ErrSqlite SQLITE_ERROR SQLITE_ERROR ("no such table: " +:+ table).
Definition no_such_column (column : string) : goerror := ErrSqlite SQLITE_ERROR SQLITE_ERROR ("no such column: " +:+ column).

(** ** Rows *)

(** [QueryRow(...).Scan(...)]: the first row, or [sql.ErrNoRows]. *)
Definition first_row {A} (rows : list A) : res A := match rows with a :: _ => Ok a | [] => Err ErrNoRows end.
Definition where_ {A} (cond : A → bool) (rows : list A) : list A := List.filter cond rows.
Definition has_row {A} (cond : A → bool) (rows : list A) : bool := existsb cond rows.
(** [UPDATE ... SET ... WHERE ...]: the rows, and whether any was affected. *)
Definition update_where {A} (cond : A → bool) (f : A → A) (rows : list A) : list A := (λ a, if cond a then f a else a) <$> rows.
(** [ORDER BY] a descending key; rows with equal keys keep their order. *)
Definition desc {A} (key : A → Z) (a b : A) : Prop := key b ≤ key a.
#[export] Instance desc_dec {A} (key : A → Z) : RelDecision (desc key) := λ a b, Z_le_dec (key b) (key a).
Definition order_desc {A} (key : A → Z) (rows : list A) : list A := merge_sort (desc key) rows.
(** [LIMIT n]. *)
Definition limit_ {A} (n : Z) (rows : list A) : list A := take (Z.to_nat n) rows.
(** [COALESCE(SUM(x), 0)]: SQLite reports an overflow of its 64-bit sum. *)
Definition sum_ {A} (f : A → Z) (rows : list A) : res Z :=
  let z := foldr (λ a acc, f a + acc) 0 rows in
  if (minInt64 <=? z) && (z <=? maxInt64) then Ok z else Err (ErrSqlite SQLITE_ERROR SQLITE_ERROR "integer overflow").

(** [if err == sql.ErrNoRows { return nil, notFound }]. *)
Definition on_no_rows {S A} (other : res A) (m : io S A) : io S A := λ s,
  match m s with (Err e, s') => (if is_sentinel ErrNoRows e then other else Err e, s') | r => r end.

(** ** The sentinel test after a retried call is never met *)

Section no_rows.
Context {T : Type} (config : DatabaseConfig) (random : Z → float64) (Hmax : 0 ≤ MaxRetries config).
Abbreviation retry := (ExecuteWithRetry config random (λ _, None)).

Lemma on_no_rows_retry {A} (other : res A) (m : io (sql T) A) d : on_no_rows other (retry m) d = retry m d.
Proof using Hmax.
  unfold on_no_rows. destruct (retry m d) as [[a|e|w] d'] eqn:E; [done| |done].
  by apply execute_wrapped in E as [e' ->].
Qed.

Lemma query_healthy {A} (body : T → res A) (d : sql T) : healthy d → query body d = (body (tables d), d).
Proof. intros H. rewrite (healthy_eq d H). unfold query, exec. simpl. done. Qed.

Lemma change_healthy (body : T → res T) (d : sql T) t' : healthy d → body (tables d) = Ok t' → change body d = (Ok tt, mkSql t' []).
Proof. intros H E. rewrite (healthy_eq d H). unfold change, exec. cbn [sql_faults tables]. by rewrite E. Qed.
Lemma change_healthy_err (body : T → res T) (d : sql T) e : healthy d → body (tables d) = Err e → change body d = (Err e, d).
Proof. intros H E. rewrite (healthy_eq d H). unfold change, exec. cbn [sql_faults tables]. by rewrite E. Qed.

Lemma retry_query {A} (body : T → res A) (d : sql T) a : healthy d → body (tables d) = Ok a → retry (query body) d = (Ok a, d).
Proof using Hmax. intros H E. apply execute_ok; [done|]. by rewrite query_healthy, E. Qed.
Lemma retry_query_err {A} (body : T → res A) (d : sql T) e : healthy d → body (tables d) = Err e →
  retry (query body) d = (Err (exhausted (retry_options config) e), d).
Proof using Hmax. intros H E. apply execute_stuck; [done|]. by rewrite query_healthy, E. Qed.
Lemma retry_change (body : T → res T) (d : sql T) t' : healthy d → body (tables d) = Ok t' → retry (change body) d = (Ok tt, mkSql t' []).
Proof using Hmax. intros H E. apply execute_ok; [done|]. by apply change_healthy. Qed.
Lemma retry_change_err (body : T → res T) (d : sql T) e : healthy d → body (tables d) = Err e →
  retry (change body) d = (Err (exhausted (retry_options config) e), d).
Proof using Hmax. intros H E. apply execute_stuck; [done|]. by apply change_healthy_err. Qed.
End no_rows.

#[export] Hint Resolve keeps_query keeps_transaction WithRetry_keeps : io.

Lemma keeps_on_no_rows {S A} (P : S → Prop) other (m : io S A) : io_keeps P m → io_keeps P (on_no_rows other m).
Proof. intros Hm s Hs. specialize (Hm s Hs). unfold on_no_rows. by destruct (m s) as [[] ?]. Qed.
#[export] Hint Resolve keeps_on_no_rows : io.

Lemma update_where_none {A} cond (f : A → A) rows : has_row cond rows = false → update_where cond f rows = rows.
Proof.
  unfold has_row, update_where. induction rows as [|a rows IH]; simpl; [done|]. destruct (cond a); [done|]. intros H. f_equal. by apply IH.
Qed.
Lemma has_row_true {A} cond (rows : list A) : has_row cond rows = true ↔ ∃ a, a ∈ rows ∧ cond a = true.
Proof. unfold has_row. rewrite existsb_exists. by setoid_rewrite list_elem_of_In. Qed.
Lemma has_row_false {A} cond (rows : list A) : has_row cond rows = false ↔ ∀ a, a ∈ rows → cond a = false.
Proof.
  rewrite <- not_true_iff_false, has_row_true. split.
  - intros H a Ha. apply not_true_iff_false. intros Hc. apply H. eauto.
  - intros H (a & Ha & Hc). by rewrite (H a Ha) in Hc.
Qed.
Lemma first_row_spec {A} cond (rows : list A) a : first_row (where_ cond rows) = Ok a → a ∈ rows ∧ cond a = true.
Proof.
  unfold first_row, where_. destruct (List.filter cond rows) as [|x l] eqn:E; [done|]. intros [= ->].
  apply elem_of_filter_bool. rewrite E. by left.
Qed.
Lemma first_row_none {A} cond (rows : list A) : has_row cond rows = false → first_row (where_ cond rows) = Err ErrNoRows.
Proof.
  unfold has_row, where_. induction rows as [|a rows IH]; simpl; [done|]. destruct (cond a); [done|]. by apply IH.
Qed.
Lemma first_row_found {A} cond (rows : list A) : has_row cond rows = true → ∃ a, first_row (where_ cond rows) = Ok a ∧ a ∈ rows ∧ cond a = true.
Proof.
  intros (x & Hx & Ex)%has_row_true. destruct (first_row (where_ cond rows)) as [a|e|w] eqn:E.
  - exists a. split; [done|]. by apply first_row_spec.
  - unfold first_row in E. destruct (where_ cond rows) eqn:Ew; [|done].
    assert (x ∈ where_ cond rows) as H by (by apply elem_of_filter_bool). rewrite Ew in H. by apply not_elem_of_nil in H.
  - unfold first_row in E. by destruct (where_ cond rows).
Qed.
Lemma where_nil {A} cond (rows : list A) : has_row cond rows = false ↔ where_ cond rows = [].
Proof.
  unfold has_row, where_. induction rows as [|a rows IH]; simpl; [done|]. by destruct (cond a).
Qed.
Lemma order_desc_perm {A} (key : A → Z) rows : order_desc key rows ≡ₚ rows.
Proof. apply merge_sort_Permutation. Qed.

(** A retried read that succeeds has read the tables, which stay. *)
Lemma read_ok {T A} (config : DatabaseConfig) random (body : T → res A) (d : sql T) a d' :
  ExecuteWithRetry config random (λ _, None) (query body) d = (Ok a, d') → body (tables d) = Ok a ∧ tables d' = tables d.
Proof.
  intros E. assert (io_keeps (on_tables (eq (tables d))) (query body)) as Hk by apply keeps_query. split.
  - destruct (WithRetry_ok _ _ _ _ _ _ _ _ Hk eq_refl E) as (d0 & Hd0 & E0). apply exec_ok in E0. unfold on_tables in Hd0. rewrite <- Hd0 in E0. congruence.
  - pose proof (WithRetry_keeps (retry_options config) random (λ _, None) _ _ Hk d eq_refl) as H.
    change (on_tables (eq (tables d)) (ExecuteWithRetry config random (λ _, None) (query body) d).2) in H. rewrite E in H. symmetry. exact H.
Qed.
