(* ===== verification/CorpusStore.v ===== *)
(** * The tables of campaigns, their corpora and crash groups:
      src/pkg/storage/corpus_queries.go, dedup_queries.go, storage_interface_impl.go,
      campaign_queries.go and parts of sqlite.go

    The rows of each table and the queries on them, with the constraints that
    src/pkg/storage/migrations.go declares.  Foreign keys are declared but not
    enforced by the connections the program opens, so they are not modelled.
    The tables of quarantined files and of file metrics are made by a helper
    that may or may not have run: they are [None] before it has. *)

From Stdlib Require Import Lia.
From S2P Require Import Prelude StorageRetry Sql MasterTypes CrashTypes CampaignStore.

(** ** Rows *)

Record CorpusFile := mkCorpusFile {
  FileID : string; FileCampaignID : string; FileJobID : string; FileBotID : string; Filename : string; FileHash : string;
  Size : Z; Coverage : Z; NewCoverage : Z; ParentHash : string; Generation : Z; FileCreatedAt : Time;
  SyncedAt : option Time; IsSeed : bool }.
#[export] Instance CorpusFile_eta : Eta CorpusFile := fun f =>
  mkCorpusFile (FileID f) (FileCampaignID f) (FileJobID f) (FileBotID f) (Filename f) (FileHash f) (Size f) (Coverage f)
    (NewCoverage f) (ParentHash f) (Generation f) (FileCreatedAt f) (SyncedAt f) (IsSeed f).

Record CorpusEvolution := mkCorpusEvolution {
  EvCampaignID : string; EvTimestamp : Time; TotalFiles : Z; TotalSize : Z; TotalCoverage : Z; NewFiles : Z; EvNewCoverage : Z }.

Record CorpusFileMetrics := mkFileMetrics {
  MFileID : string; CrashCount : Z; TimeoutCount : Z; AvgExecTime : Duration; MaxMemoryUsage : Z; LastExecuted : Time;
  MExecCount : Z }.
#[export] Instance CorpusFileMetrics_eta : Eta CorpusFileMetrics := fun m =>
  mkFileMetrics (MFileID m) (CrashCount m) (TimeoutCount m) (AvgExecTime m) (MaxMemoryUsage m) (LastExecuted m) (MExecCount m).

Record QuarantinedFile := mkQuarantined {
  QID : string; QFileID : string; QCampaignID : string; QHash : string; Reason : string; Details : string;
  QuarantinedAt : Time; QuarantinedBy : string; ReviewedAt : option Time; ReviewedBy : option string;
  Resolution : option string }.
#[export] Instance QuarantinedFile_eta : Eta QuarantinedFile := fun q =>
  mkQuarantined (QID q) (QFileID q) (QCampaignID q) (QHash q) (Reason q) (Details q) (QuarantinedAt q) (QuarantinedBy q)
    (ReviewedAt q) (ReviewedBy q) (Resolution q).

Record StackFrame := mkFrame { Function : string; FrameFile : string; Line : Z }.
Record StackTrace := mkTrace { Frames : list StackFrame; TopNHash : string; FullHash : string; RawTrace : string }.
Record CrashGroup := mkGroup {
  GID : string; GCampaignID : string; StackHash : string; FirstSeen : Time; LastSeen : Time; GCount : Z; Severity : string;
  StackFrames : list StackFrame; ExampleCrash : string }.
#[export] Instance CrashGroup_eta : Eta CrashGroup := fun g =>
  mkGroup (GID g) (GCampaignID g) (StackHash g) (FirstSeen g) (LastSeen g) (GCount g) (Severity g) (StackFrames g) (ExampleCrash g).

(** The tables.  A row of [crashes] and of [jobs] is the struct it was written
    from; [crash_groups_of] is the column [crash_group_id] of the crashes. *)
Record Tables := mkTables {
  campaign_corpus_files : list CorpusFile; corpus_evolution : list CorpusEvolution;
  quarantined_files : option (list QuarantinedFile); corpus_file_metrics : option (list CorpusFileMetrics);
  crash_groups : list CrashGroup; stack_traces : list (string * StackTrace); crash_groups_of : list (string * string);
  campaigns : list Campaign; campaign_jobs : list (string * string); jobs : list MJob;
  crashes : list CrashResult; crash_inputs : list (string * bytes) }.
#[export] Instance Tables_eta : Eta Tables := fun t =>
  mkTables (campaign_corpus_files t) (corpus_evolution t) (quarantined_files t) (corpus_file_metrics t) (crash_groups t)
    (stack_traces t) (crash_groups_of t) (campaigns t) (campaign_jobs t) (jobs t) (crashes t) (crash_inputs t).
Abbreviation DB := (sql Tables) (only parsing).

Definition ErrCorpusFileNotFound : goerror := ErrNew "corpus file not found".
Definition ErrDuplicateCorpusFile : goerror := ErrNew "corpus file already exists".
Definition ErrQuarantinedFileNotFound : goerror := ErrNew "quarantined file not found".
Definition ErrCrashGroupNotFound : goerror := ErrNew "crash group not found".

Section store.
Context (config : DatabaseConfig) (random : Z → float64).
Abbreviation retry := (ExecuteWithRetry config random (λ _, None)).

(** ** Corpus files *)

Definition by_id (id : string) (f : CorpusFile) : bool := String.eqb (FileID f) id.
Definition by_hash (hash : string) (f : CorpusFile) : bool := String.eqb (FileHash f) hash.
Definition of_campaign (campaignID : string) (f : CorpusFile) : bool := String.eqb (FileCampaignID f) campaignID.

(** [INSERT INTO campaign_corpus_files]: [id] is the primary key, [hash] is
    unique over all campaigns. *)
Definition insert_corpus_file (f : CorpusFile) (t : Tables) : res Tables :=
  if has_row (by_id (FileID f)) (campaign_corpus_files t) then Err (constraint_primary "campaign_corpus_files.id")
  else if has_row (by_hash (FileHash f)) (campaign_corpus_files t) then Err (constraint_unique "campaign_corpus_files.hash")
  else Ok (t <| campaign_corpus_files := campaign_corpus_files t ++ [f] |>).

(** The statement has no column for the time of the last synchronisation. *)
Definition AddCorpusFile (cf : CorpusFile) : io DB unit := retry (change (insert_corpus_file (cf <| SyncedAt := None |>))).
Definition GetCorpusFiles (campaignID : string) : io DB (list CorpusFile) :=
  retry (query (λ t, Ok (order_desc FileCreatedAt (where_ (of_campaign campaignID) (campaign_corpus_files t))))).
Definition GetCorpusFileByHash (hash : string) : io DB CorpusFile :=
  on_no_rows (Err ErrCorpusFileNotFound) (retry (query (λ t, first_row (where_ (by_hash hash) (campaign_corpus_files t))))).
Definition GetCorpusFile (fileID : string) : io DB CorpusFile :=
  on_no_rows (Err ErrCorpusFileNotFound) (retry (query (λ t, first_row (where_ (by_id fileID) (campaign_corpus_files t))))).

(** [UPDATE ... SET key = ? ...] with the keys of a map: a key that is no
    column makes the statement fail before it runs.  [set] gives the columns
    and how a value is stored. *)
Fixpoint set_columns {A} (set : string → update_value → option (A → A)) (updates : updates) : res (A → A) :=
  match updates with
  | [] => Ok id
  | (key, value) :: rest =>
      match set key value with
      | None => Err (no_such_column key)
      | Some f => let! g := set_columns set rest in Ok (λ a, g (f a))
      end
  end.
Definition syntax_error (near : string) : goerror := ErrSqlite SQLITE_ERROR SQLITE_ERROR ("near " +:+ near +:+ ": syntax error").
Definition update_row {A} (set : string → update_value → option (A → A)) (cond : A → bool) (updates : updates)
    (not_found : goerror) (rows : list A) : res (list A) :=
  match updates with
  | [] => Err (syntax_error "WHERE")
  | _ => let! f := set_columns set updates in if has_row cond rows then Ok (update_where cond f rows) else Err not_found
  end.

(** The columns, with the values of their types. *)
Definition corpus_column (key : string) (value : update_value) : option (CorpusFile → CorpusFile) :=
  match value with
  | UString s =>
      if String.eqb key "id" then Some (λ f, f <| FileID := s |>)
      else if String.eqb key "campaign_id" then Some (λ f, f <| FileCampaignID := s |>)
      else if String.eqb key "hash" then Some (λ f, f <| FileHash := s |>)
      else if String.eqb key "job_id" then Some (λ f, f <| FileJobID := s |>)
      else if String.eqb key "bot_id" then Some (λ f, f <| FileBotID := s |>)
      else if String.eqb key "filename" then Some (λ f, f <| Filename := s |>)
      else if String.eqb key "parent_hash" then Some (λ f, f <| ParentHash := s |>)
      else None
  | UInt z =>
      if String.eqb key "size" then Some (λ f, f <| Size := z |>)
      else if String.eqb key "coverage" then Some (λ f, f <| Coverage := z |>)
      else if String.eqb key "new_coverage" then Some (λ f, f <| NewCoverage := z |>)
      else if String.eqb key "generation" then Some (λ f, f <| Generation := z |>)
      else None
  | UTime z =>
      if String.eqb key "created_at" then Some (λ f, f <| FileCreatedAt := z |>)
      else if String.eqb key "synced_at" then Some (λ f, f <| SyncedAt := Some z |>)
      else None
  | UBool b => if String.eqb key "is_seed" then Some (λ f, f <| IsSeed := b |>) else None
  | _ => None
  end.
Definition UpdateCorpusFile (fileID : string) (updates : updates) : io DB unit :=
  retry (change (λ t,
    let! rows := update_row corpus_column (by_id fileID) updates ErrCorpusFileNotFound (campaign_corpus_files t) in
    if negb (bool_decide (NoDup (FileID <$> rows))) then Err (constraint_primary "campaign_corpus_files.id")
    else if negb (bool_decide (NoDup (FileHash <$> rows))) then Err (constraint_unique "campaign_corpus_files.hash")
    else Ok (t <| campaign_corpus_files := rows |>))).
Definition DeleteCorpusFile (fileID : string) : io DB unit :=
  retry (change (λ t,
    if has_row (by_id fileID) (campaign_corpus_files t)
    then Ok (t <| campaign_corpus_files := where_ (λ f, negb (by_id fileID f)) (campaign_corpus_files t) |>)
    else Err ErrCorpusFileNotFound)).
Definition UpdateCorpusCoverage (fileID : string) (coverage newCoverage : Z) : io DB unit :=
  retry (change (λ t,
    if has_row (by_id fileID) (campaign_corpus_files t)
    then Ok (t <| campaign_corpus_files :=
                    update_where (by_id fileID) (λ f, f <| Coverage := coverage |> <| NewCoverage := newCoverage |>) (campaign_corpus_files t) |>)
    else Err ErrCorpusFileNotFound)).

(** [ORDER BY new_coverage DESC, created_at ASC]. *)
Definition best_first (a b : CorpusFile) : Prop :=
  NewCoverage b < NewCoverage a ∨ (NewCoverage a = NewCoverage b ∧ FileCreatedAt a ≤ FileCreatedAt b).
#[export] Instance best_first_dec : RelDecision best_first.
Proof. intros a b. unfold best_first. apply _. Defined.
Definition GetCoverageIncreasingFiles (campaignID : string) : io DB (list CorpusFile) :=
  retry (query (λ t, Ok (merge_sort best_first
    (where_ (λ f, of_campaign campaignID f && (0 <? NewCoverage f)) (campaign_corpus_files t))))).

(** ** Synchronisation with bots *)

(** How the driver scans the time that [MAX(synced_at)] gives. *)
Context (scan_max : Time → res Time).

Definition max_time (l : list Time) : option Time := foldr (λ t acc, Some (match acc with Some u => Z.max t u | None => t end)) None l.
Definition last_sync (campaignID botID : string) (t : Tables) : res (option Time) :=
  match max_time (omap SyncedAt (where_ (λ f, of_campaign campaignID f && String.eqb (FileBotID f) botID) (campaign_corpus_files t))) with
  | None => Ok None
  | Some time => let! time := scan_max time in Ok (Some time)
  end.
Definition synced_to (botID : string) (rows : list CorpusFile) (f : CorpusFile) : bool :=
  has_row (λ s, String.eqb (FileHash s) (FileHash f) && String.eqb (FileBotID s) botID && (if SyncedAt s is Some _ then true else false)) rows.
Definition unsynced (campaignID botID : string) (last : option Time) (rows : list CorpusFile) : list CorpusFile :=
  limit_ 100 (merge_sort best_first
    (where_ (λ f, of_campaign campaignID f && (0 <? NewCoverage f)
                  && (if last is Some time then time <? FileCreatedAt f else true) && negb (synced_to botID rows f)) rows)).
Definition GetUnsyncedCorpusFiles (campaignID botID : string) : io DB (list CorpusFile) :=
  let* last := on_no_rows (Ok None) (query (last_sync campaignID botID)) in
  retry (query (λ t, Ok (unsynced campaignID botID last (campaign_corpus_files t)))).

(** The prepared statement: a copy of the file for the bot, unless its copy is
    there already. *)
Definition sync_row (syncTime : Time) (botID fileID : string) (t : Tables) : res Tables :=
  match where_ (by_id fileID) (campaign_corpus_files t) with
  | [] => Ok t
  | f :: _ =>
      let copy := f <| FileID := FileID f +:+ "_" +:+ botID |> <| FileBotID := botID |> <| SyncedAt := Some syncTime |> in
      if has_row (by_id (FileID copy)) (campaign_corpus_files t)
      then Ok (t <| campaign_corpus_files :=
                      update_where (by_id (FileID copy)) (λ f, f <| SyncedAt := Some syncTime |>) (campaign_corpus_files t) |>)
      else insert_corpus_file copy t
  end.
Fixpoint sync_rows (syncTime : Time) (botID : string) (fileIDs : list string) : io DB unit :=
  match fileIDs with
  | [] => io_ret tt
  | fileID :: rest => let* _ := change (sync_row syncTime botID fileID) in sync_rows syncTime botID rest
  end.
Definition MarkCorpusFilesSynced (syncTime : Time) (fileIDs : list string) (botID : string) : io DB unit :=
  match fileIDs with
  | [] => io_ret tt
  | _ => retry (transaction (let* _ := query (λ _, Ok tt) in sync_rows syncTime botID fileIDs))
  end.

(** ** Evolution *)

Definition RecordCorpusEvolution (ce : CorpusEvolution) : io DB unit :=
  retry (change (λ t,
    if has_row (λ e, String.eqb (EvCampaignID e) (EvCampaignID ce) && (EvTimestamp e =? EvTimestamp ce)) (corpus_evolution t)
    then Err (constraint_primary "corpus_evolution.campaign_id, corpus_evolution.timestamp")
    else Ok (t <| corpus_evolution := corpus_evolution t ++ [ce] |>))).
Definition GetCorpusEvolution (campaignID : string) (limit : Z) : io DB (list CorpusEvolution) :=
  retry (query (λ t,
    let rows := order_desc EvTimestamp (where_ (λ e, String.eqb (EvCampaignID e) campaignID) (corpus_evolution t)) in
    Ok (if 0 <? limit then limit_ limit rows else rows))).

(** ** Quarantine and metrics of files *)

Definition with_table {A B} (name : string) (table : option (list A)) (k : list A → res B) : res B :=
  match table with Some rows => k rows | None => Err (no_such_table name) end.

Definition q_id (id : string) (q : QuarantinedFile) : bool := String.eqb (QID q) id.
Definition AddQuarantinedFile (qf : QuarantinedFile) : io DB unit :=
  retry (change (λ t, with_table "quarantined_files" (quarantined_files t) (λ rows,
    if has_row (q_id (QID qf)) rows then Err (constraint_primary "quarantined_files.id")
    else Ok (t <| quarantined_files := Some (rows ++ [qf]) |>)))).
Definition GetQuarantinedFile (fileID : string) : io DB QuarantinedFile :=
  on_no_rows (Err ErrQuarantinedFileNotFound)
    (retry (query (λ t, with_table "quarantined_files" (quarantined_files t) (λ rows, first_row (where_ (q_id fileID) rows))))).
Definition GetQuarantinedFiles (campaignID : string) : io DB (list QuarantinedFile) :=
  retry (query (λ t, with_table "quarantined_files" (quarantined_files t) (λ rows,
    Ok (order_desc QuarantinedAt (where_ (λ q, String.eqb (QCampaignID q) campaignID) rows))))).
Definition quarantine_column (key : string) (value : update_value) : option (QuarantinedFile → QuarantinedFile) :=
  match value with
  | UString s =>
      if String.eqb key "id" then Some (λ q, q <| QID := s |>)
      else if String.eqb key "file_id" then Some (λ q, q <| QFileID := s |>)
      else if String.eqb key "campaign_id" then Some (λ q, q <| QCampaignID := s |>)
      else if String.eqb key "hash" then Some (λ q, q <| QHash := s |>)
      else if String.eqb key "reason" then Some (λ q, q <| Reason := s |>)
      else if String.eqb key "details" then Some (λ q, q <| Details := s |>)
      else if String.eqb key "quarantined_by" then Some (λ q, q <| QuarantinedBy := s |>)
      else if String.eqb key "reviewed_by" then Some (λ q, q <| ReviewedBy := Some s |>)
      else if String.eqb key "resolution" then Some (λ q, q <| Resolution := Some s |>)
      else None
  | UTime z =>
      if String.eqb key "quarantined_at" then Some (λ q, q <| QuarantinedAt := z |>)
      else if String.eqb key "reviewed_at" then Some (λ q, q <| ReviewedAt := Some z |>)
      else None
  | _ => None
  end.
Definition UpdateQuarantinedFile (id : string) (updates : updates) : io DB unit :=
  retry (change (λ t, with_table "quarantined_files" (quarantined_files t) (λ rows,
    let! rows := update_row quarantine_column (q_id id) updates ErrQuarantinedFileNotFound rows in
    if negb (bool_decide (NoDup (QID <$> rows))) then Err (constraint_primary "quarantined_files.id")
    else Ok (t <| quarantined_files := Some rows |>)))).

Definition m_id (id : string) (m : CorpusFileMetrics) : bool := String.eqb (MFileID m) id.
Definition empty_metrics (fileID : string) : CorpusFileMetrics := mkFileMetrics fileID 0 0 0 0 zero_time 0.
Definition GetCorpusFileMetrics (fileID : string) : io DB CorpusFileMetrics :=
  on_no_rows (Ok (empty_metrics fileID))
    (retry (query (λ t, with_table "corpus_file_metrics" (corpus_file_metrics t) (λ rows, first_row (where_ (m_id fileID) rows))))).
Definition UpdateCorpusFileMetrics (fileID : string) (metrics : CorpusFileMetrics) : io DB unit :=
  let row := metrics <| MFileID := fileID |> in
  retry (change (λ t, with_table "corpus_file_metrics" (corpus_file_metrics t) (λ rows,
    Ok (t <| corpus_file_metrics :=
          Some (if has_row (m_id fileID) rows then update_where (m_id fileID) (λ _, row) rows else rows ++ [row]) |>)))).

(** [EnsureStorageInterfaceTables], for the two tables: nothing in the program
    calls it. *)
Definition EnsureStorageInterfaceTables : io DB unit :=
  let* _ := change (λ t, Ok (t <| quarantined_files := Some (default [] (quarantined_files t)) |>)) in
  change (λ t, Ok (t <| corpus_file_metrics := Some (default [] (corpus_file_metrics t)) |>)).

(** ** Crash groups *)

Definition g_key (campaignID stackHash : string) (g : CrashGroup) : bool :=
  String.eqb (GCampaignID g) campaignID && String.eqb (StackHash g) stackHash.
Definition g_id (id : string) (g : CrashGroup) : bool := String.eqb (GID g) id.
Definition CreateCrashGroup (cg : CrashGroup) : io DB unit :=
  retry (change (λ t,
    if has_row (g_id (GID cg)) (crash_groups t) then Err (constraint_primary "crash_groups.id")
    else if has_row (g_key (GCampaignID cg) (StackHash cg)) (crash_groups t)
    then Err (constraint_unique "crash_groups.campaign_id, crash_groups.stack_hash")
    else Ok (t <| crash_groups := crash_groups t ++ [cg] |>))).
Definition GetCrashGroup (campaignID stackHash : string) : io DB CrashGroup :=
  on_no_rows (Err ErrCrashGroupNotFound) (retry (query (λ t, first_row (where_ (g_key campaignID stackHash) (crash_groups t))))).
(** [current] is SQLite's [CURRENT_TIMESTAMP]. *)
Definition UpdateCrashGroupCount (current : Time) (id : string) : io DB unit :=
  retry (change (λ t,
    if has_row (g_id id) (crash_groups t)
    then Ok (t <| crash_groups :=
                    update_where (g_id id) (λ g, g <| GCount := wrap64 (GCount g + 1) |> <| LastSeen := current |>) (crash_groups t) |>)
    else Err ErrCrashGroupNotFound)).
(** [ORDER BY count DESC, last_seen DESC]. *)
Definition most_common (a b : CrashGroup) : Prop := GCount b < GCount a ∨ (GCount a = GCount b ∧ LastSeen b ≤ LastSeen a).
#[export] Instance most_common_dec : RelDecision most_common.
Proof. intros a b. unfold most_common. apply _. Defined.
Definition ListCrashGroups (campaignID : string) : io DB (list CrashGroup) :=
  retry (query (λ t, Ok (merge_sort most_common (where_ (λ g, String.eqb (GCampaignID g) campaignID) (crash_groups t))))).
Definition CreateStackTrace (crashID : string) (st : StackTrace) : io DB unit :=
  retry (change (λ t,
    if has_row (λ r, String.eqb r.1 crashID) (stack_traces t) then Err (constraint_primary "stack_traces.crash_id")
    else Ok (t <| stack_traces := stack_traces t ++ [(crashID, st)] |>))).
(** No stack trace is the nil pointer without an error. *)
Definition GetStackTrace (crashID : string) : io DB (option StackTrace) :=
  on_no_rows (Ok None)
    (retry (query (λ t, let! r := first_row (where_ (λ r, String.eqb r.1 crashID) (stack_traces t)) in Ok (Some r.2)))).
Definition crash_not_found (crashID : string) : goerror := ErrNew ("crash not found: " +:+ crashID).
Definition LinkCrashToGroup (crashID groupID : string) : io DB unit :=
  retry (change (λ t,
    if has_row (λ c, String.eqb (CrashID c) crashID) (crashes t)
    then Ok (t <| crash_groups_of := (crashID, groupID) :: where_ (λ r, negb (String.eqb r.1 crashID)) (crash_groups_of t) |>)
    else Err (crash_not_found crashID))).
Definition UpdateCrashWithCampaign (crashID campaignID : string) : io DB unit :=
  retry (change (λ t,
    if has_row (λ c, String.eqb (CrashID c) crashID) (crashes t)
    then Ok (t <| crashes := update_where (λ c, String.eqb (CrashID c) crashID) (λ c, c <| CrashCampaignID := campaignID |>) (crashes t) |>)
    else Err (crash_not_found crashID))).

(** ** Campaigns, jobs and crashes, as the services read them *)

Definition GetCampaign (id : string) : io DB Campaign :=
  on_no_rows (Err ErrCampaignNotFound) (retry (query (λ t, first_row (where_ (λ c, String.eqb (CampID c) id) (campaigns t))))).
Definition ListCampaigns (limit offset : Z) (status : string) : io DB (list Campaign) :=
  retry (query (λ t,
    let rows := order_desc CampCreatedAt
      (if String.eqb status "" then campaigns t else where_ (λ c, String.eqb (CampStatus c) status) (campaigns t)) in
    Ok (if 0 <? limit then limit_ limit (if 0 <? offset then drop (Z.to_nat offset) rows else rows) else rows))).

(** What the columns of [scanJob], and the two more of [GetJob], give back of a
    job: neither its campaign nor its use of the campaign's corpus. *)
Definition scanJob (j : MJob) : MJob :=
  mkMJob (JobID j) (JobName j) (Target j) (Fuzzer j) "" (JobState j) (AssignedBot j) (JobCreatedAt j) (StartedAt j) (CompletedAt j)
    (JobTimeoutAt j) (WorkDir j) (JobCfg j) (Progress j) None None false None 0 false "" None None None None.
Definition GetJob (id : string) : io DB MJob :=
  on_no_rows (Err ErrKeyNotFound)
    (retry (query (λ t,
      let! j := first_row (where_ (λ j, String.eqb (JobID j) id) (jobs t)) in
      Ok ((scanJob j) <| EnableCoverage := EnableCoverage j |> <| CoverageFormat := CoverageFormat j |>)))).
Definition GetCampaignJobs (campaignID : string) : io DB (list MJob) :=
  retry (query (λ t, Ok (scanJob <$> order_desc JobCreatedAt
    (where_ (λ j, has_row (λ l, String.eqb l.1 campaignID && String.eqb l.2 (JobID j)) (campaign_jobs t)) (jobs t))))).
Definition LinkJobToCampaign (campaignID jobID : string) : io DB unit :=
  retry (change (λ t,
    if has_row (λ l, String.eqb l.1 campaignID && String.eqb l.2 jobID) (campaign_jobs t)
    then Err (constraint_primary "campaign_jobs.campaign_id, campaign_jobs.job_id")
    else Ok (t <| campaign_jobs := campaign_jobs t ++ [(campaignID, jobID)] |>))).

(** [GetCrashInput] and [GetCrash]: a missing row is the nil value without an
    error; the campaign of the crash is not among the columns. *)
Definition GetCrashInput (crashID : string) : io DB (option bytes) :=
  retry (query (λ t, Ok (snd <$> head (where_ (λ r, String.eqb r.1 crashID) (crash_inputs t))))).
Definition scanCrash (c : CrashResult) : CrashResult :=
  mkCrash (CrashID c) (CrashJobID c) (CrashBotID c) "" (Hash c) (FilePath c) (CrashKind c) (Signal c) (ExitCode c)
    (CrashTimestamp c) (CrashSize c) (IsUnique c) [] "" (Output c) (StackText c) false false None.
Definition GetCrash (crashID : string) : io DB (option CrashResult) :=
  retry (
    let* row := query (λ t, Ok (head (where_ (λ c, String.eqb (CrashID c) crashID) (crashes t)))) in
    match row with
    | None => io_ret None
    | Some c =>
        let* input := attempt (GetCrashInput (CrashID c)) in
        io_ret (Some (match input with inl (Some b) => (scanCrash c) <| Input := b |> | _ => scanCrash c end))
    end).

(** ** The constraints hold in every reachable database *)

Record store_wf (t : Tables) : Prop := mk_store_wf {
  wf_file_ids : NoDup (FileID <$> campaign_corpus_files t);
  wf_file_hashes : NoDup (FileHash <$> campaign_corpus_files t);
  wf_evolution : NoDup ((λ e, (EvCampaignID e, EvTimestamp e)) <$> corpus_evolution t);
  wf_quarantined : NoDup (QID <$> default [] (quarantined_files t));
  wf_metrics : NoDup (MFileID <$> default [] (corpus_file_metrics t));
  wf_group_ids : NoDup (GID <$> crash_groups t);
  wf_group_keys : NoDup ((λ g, (GCampaignID g, StackHash g)) <$> crash_groups t);
  wf_traces : NoDup (fst <$> stack_traces t);
  wf_links : NoDup (campaign_jobs t) }.

(** The operations of the storage that write to these tables. *)
Inductive store_write : io DB unit → Prop :=
  | w_AddCorpusFile f : store_write (AddCorpusFile f)
  | w_UpdateCorpusFile fid u : store_write (UpdateCorpusFile fid u)
  | w_DeleteCorpusFile fid : store_write (DeleteCorpusFile fid)
  | w_UpdateCorpusCoverage fid c n : store_write (UpdateCorpusCoverage fid c n)
  | w_MarkCorpusFilesSynced time ids bot : store_write (MarkCorpusFilesSynced time ids bot)
  | w_RecordCorpusEvolution e : store_write (RecordCorpusEvolution e)
  | w_AddQuarantinedFile q : store_write (AddQuarantinedFile q)
  | w_UpdateQuarantinedFile qid u : store_write (UpdateQuarantinedFile qid u)
  | w_UpdateCorpusFileMetrics fid m : store_write (UpdateCorpusFileMetrics fid m)
  | w_EnsureStorageInterfaceTables : store_write EnsureStorageInterfaceTables
  | w_CreateCrashGroup g : store_write (CreateCrashGroup g)
  | w_UpdateCrashGroupCount time gid : store_write (UpdateCrashGroupCount time gid)
  | w_CreateStackTrace cid st : store_write (CreateStackTrace cid st)
  | w_LinkCrashToGroup cid gid : store_write (LinkCrashToGroup cid gid)
  | w_UpdateCrashWithCampaign cid c : store_write (UpdateCrashWithCampaign cid c)
  | w_LinkJobToCampaign c j : store_write (LinkJobToCampaign c j).

Lemma NoDup_insert {A B} (key : A → B) (cond : A → bool) a (rows : list A) :
  (∀ x, key x = key a → cond x = true) → has_row cond rows = false → NoDup (key <$> rows) → NoDup (key <$> rows ++ [a]).
Proof.
  intros Hc Hr Hn. rewrite fmap_app. apply NoDup_app. split_and!; [done| |apply NoDup_singleton].
  intros k (x & -> & Hx)%list_elem_of_fmap Hk%list_elem_of_singleton. rewrite has_row_false in Hr.
  specialize (Hr x Hx). by rewrite (Hc x Hk) in Hr.
Qed.
Lemma NoDup_update {A B} (key : A → B) cond (f : A → A) rows :
  (∀ x, key (f x) = key x) → NoDup (key <$> rows) → NoDup (key <$> update_where cond f rows).
Proof.
  intros Hf. unfold update_where. rewrite <- list_fmap_compose.
  replace (key ∘ (λ a, if cond a then f a else a) <$> rows) with (key <$> rows); [done|].
  apply list_fmap_ext. intros i x _. simpl. by destruct (cond x).
Qed.
Lemma NoDup_where {A B} (key : A → B) cond (rows : list A) : NoDup (key <$> rows) → NoDup (key <$> where_ cond rows).
Proof.
  unfold where_. induction rows as [|a rows IH]; cbn; [done|]. intros [Ha Hn]%NoDup_cons. destruct (cond a); cbn; [|by apply IH].
  apply NoDup_cons. split; [|by apply IH]. intros (x & E & [Hx _]%elem_of_filter_bool)%list_elem_of_fmap. apply Ha. rewrite E. by apply list_elem_of_fmap_2.
Qed.

Lemma insert_corpus_file_wf f t t' : store_wf t → insert_corpus_file f t = Ok t' → store_wf t'.
Proof.
  intros [] E. unfold insert_corpus_file in E. repeat case_match; simplify_eq/=. split; cbn; try done.
  - eapply (NoDup_insert _ (by_id _)); [|done..]. intros x Hx. by apply String.eqb_eq.
  - eapply (NoDup_insert _ (by_hash _)); [|done..]. intros x Hx. by apply String.eqb_eq.
Qed.

Lemma sync_row_wf time bot fid t t' : store_wf t → sync_row time bot fid t = Ok t' → store_wf t'.
Proof.
  intros Hwf. unfold sync_row. destruct (where_ _ _) as [|f l]; [by intros [= <-]|]. case_match.
  - intros [= <-]. destruct Hwf. split; cbn; try done; by apply NoDup_update.
  - by apply insert_corpus_file_wf.
Qed.

Lemma sync_rows_keeps time bot ids : io_keeps (on_tables store_wf) (sync_rows time bot ids).
Proof.
  induction ids as [|fid ids IH]; cbn [sync_rows]; [apply keeps_ret|].
  apply keeps_bind; [|done]. apply keeps_change. intros t t'. apply sync_row_wf.
Qed.

(** The statement of a write, taken out of its retry. *)
Ltac statement :=
  apply WithRetry_keeps, keeps_change; intros t t' Hwf E; pose proof Hwf as [];
  repeat case_match; simplify_eq/=; try done.

(** The constraints of the schema.  Whatever operation of the storage runs,
    with whatever faults and arguments, file IDs and file hashes stay unique
    over all campaigns, and so do the other keys. *)
Theorem store_writes_wf (m : io DB unit) (Hm : store_write m) : io_keeps (on_tables store_wf) m.
Proof.
  destruct Hm.
  - apply WithRetry_keeps, keeps_change. intros t t'. apply insert_corpus_file_wf.
  - statement. unfold res_bind in E. repeat case_match; simplify_eq/=.
    split; cbn; try done; by apply (bool_decide_eq_true_1 _), negb_false_iff.
  - statement. split; cbn; try done; by apply NoDup_where.
  - statement. split; cbn; try done; by apply NoDup_update.
  - unfold MarkCorpusFilesSynced. destruct ids as [|i ids]; [apply keeps_ret|].
    apply WithRetry_keeps, keeps_transaction, keeps_bind; [apply keeps_query|intros _; apply sync_rows_keeps].
  - statement. split; cbn; try done. eapply (NoDup_insert _ (λ e, _ && _)); [|eassumption|done]. intros x [= -> ->]. by rewrite String.eqb_refl, Z.eqb_refl.
  - statement. unfold with_table in E. repeat case_match; simplify_eq/=. split; cbn; try done.
    eapply (NoDup_insert _ (q_id _)); [|done..]. intros x Hx. by apply String.eqb_eq.
  - statement. unfold with_table, res_bind in E. repeat case_match; simplify_eq/=. split; cbn; try done.
    by apply (bool_decide_eq_true_1 _), negb_false_iff.
  - statement. unfold with_table in E. repeat case_match; simplify_eq/=; split; cbn; try done.
    + replace (MFileID <$> _) with (MFileID <$> l); [done|]. unfold update_where. rewrite <- list_fmap_compose.
      apply list_fmap_ext. intros i x _. simpl. unfold m_id. by destruct (String.eqb_spec (MFileID x) fid).
    + eapply (NoDup_insert _ (m_id _)); [|done..]. intros x Hx. by apply String.eqb_eq.
  - apply keeps_bind; [|intros _]; (apply keeps_change; intros t t' [] [= <-]; split; done).
  - statement. split; cbn; try done; [eapply (NoDup_insert _ (g_id _))|eapply (NoDup_insert _ (g_key _ _))]; try done.
    + intros x Hx. by apply String.eqb_eq.
    + intros x [= H1 H2]. unfold g_key. by rewrite H1, H2, !String.eqb_refl.
  - statement. split; cbn; try done; by apply NoDup_update.
  - statement. split; cbn; try done. eapply (NoDup_insert _ (λ r, String.eqb r.1 cid)); [|done..]. intros x Hx. by apply String.eqb_eq.
  - statement.
  - statement.
  - statement. split; cbn; try done. apply NoDup_app. split_and!; [done| |apply NoDup_singleton].
    intros l Hl ->%list_elem_of_singleton. match goal with Hr : has_row _ _ = false |- _ => pose proof (proj1 (has_row_false _ _) Hr _ Hl) as Hf end. simpl in Hf.
    by rewrite !String.eqb_refl in Hf.
Qed.

(** ** No row found *)

Section reads.
Context (Hmax : 0 ≤ MaxRetries config).

(** The error of a read that finds no row: the sentinel of database/sql in the
    wrapper of the retries. *)
Definition no_row : goerror := exhausted (retry_options config) ErrNoRows.

Lemma read_row {A} (other : res A) (body : Tables → res A) (d : DB) : healthy d →
  on_no_rows other (retry (query body)) d =
    (match body (tables d) with Ok a => Ok a | Err e => Err (exhausted (retry_options config) e) | Panic w => Panic w end, d).
Proof using Hmax.
  intros H. rewrite (on_no_rows_retry _ _ Hmax). destruct (body (tables d)) as [a|e|w] eqn:E.
  - by apply retry_query.
  - by apply retry_query_err.
  - apply execute_panic; [done|]. by rewrite query_healthy, E.
Qed.

Lemma read_fails {A} (other : res A) (m : io DB A) d e : (on_no_rows other (retry m) d).1 = Err e → ∃ e', e = exhausted (retry_options config) e'.
Proof using Hmax.
  rewrite (on_no_rows_retry _ _ Hmax). destruct (retry m d) as [r d'] eqn:E. simpl. intros ->. by apply execute_wrapped in E.
Qed.

(** The errors for missing rows never come.  The storage compares the error
    of a retried query with [sql.ErrNoRows], which the retries have wrapped:
    whatever the database does, no read reports that a corpus file, a
    quarantined file, a crash group, a campaign or a job was not found, and a
    missing stack trace is never the nil pointer; on a healthy database the
    missing row is a failure of the read instead, also for the metrics of a
    file that has none. *)
Theorem missing_rows_are_failures (d : DB) (a b : string) :
  (GetCorpusFile a d).1 ≠ Err ErrCorpusFileNotFound ∧ (GetCorpusFileByHash a d).1 ≠ Err ErrCorpusFileNotFound ∧
  (GetQuarantinedFile a d).1 ≠ Err ErrQuarantinedFileNotFound ∧ (GetCrashGroup a b d).1 ≠ Err ErrCrashGroupNotFound ∧
  (GetCampaign a d).1 ≠ Err ErrCampaignNotFound ∧ (GetJob a d).1 ≠ Err ErrKeyNotFound ∧
  (healthy d →
    (has_row (by_id a) (campaign_corpus_files (tables d)) = false → GetCorpusFile a d = (Err no_row, d)) ∧
    (has_row (g_key a b) (crash_groups (tables d)) = false → GetCrashGroup a b d = (Err no_row, d)) ∧
    (has_row (λ r, String.eqb r.1 a) (stack_traces (tables d)) = false → GetStackTrace a d = (Err no_row, d)) ∧
    (∀ rows, corpus_file_metrics (tables d) = Some rows → has_row (m_id a) rows = false → GetCorpusFileMetrics a d = (Err no_row, d))).
Proof using Hmax.
  split_and!; try (intros H; apply read_fails in H as [? [=]]).
  intros Hd. split_and!.
  - intros H. unfold GetCorpusFile. rewrite read_row by done. by rewrite first_row_none.
  - intros H. unfold GetCrashGroup. rewrite read_row by done. by rewrite first_row_none.
  - intros H. unfold GetStackTrace. rewrite read_row by done. by rewrite first_row_none.
  - intros rows Hrows H. unfold GetCorpusFileMetrics. rewrite read_row by done. unfold with_table. by rewrite Hrows, first_row_none.
Qed.

(** ** Synchronisation *)

(** No file is called like another one's copy for the bot. *)
Definition no_copies (botID : string) (t : Tables) : Prop :=
  ∀ f g, f ∈ campaign_corpus_files t → g ∈ campaign_corpus_files t → FileID g ≠ FileID f +:+ "_" +:+ botID.

Lemma sync_row_changes_nothing time bot fid t : no_copies bot t →
  (has_row (by_id fid) (campaign_corpus_files t) = true → ∃ column, sync_row time bot fid t = Err (constraint_unique column)) ∧
  (has_row (by_id fid) (campaign_corpus_files t) = false → sync_row time bot fid t = Ok t).
Proof.
  intros Hno. unfold sync_row. destruct (where_ (by_id fid) (campaign_corpus_files t)) as [|f l] eqn:E.
  { split; [|done]. intros (f & Hf & Hc)%has_row_true. assert (f ∈ where_ (by_id fid) (campaign_corpus_files t)) as Hin by (by apply elem_of_filter_bool).
    rewrite E in Hin. by apply not_elem_of_nil in Hin. }
  assert (f ∈ campaign_corpus_files t ∧ by_id fid f = true) as [Hf Hid].
  { apply elem_of_filter_bool. change (f ∈ where_ (by_id fid) (campaign_corpus_files t)). rewrite E. by left. }
  split; [intros _|intros H; by rewrite has_row_false in H; rewrite (H f Hf) in Hid].
  assert (has_row (by_id (FileID f +:+ "_" +:+ bot)) (campaign_corpus_files t) = false) as Hcopy.
  { apply has_row_false. intros g Hg. apply String.eqb_neq. by apply Hno. }
  assert (has_row (by_hash (FileHash f)) (campaign_corpus_files t) = true) as Hhash.
  { apply has_row_true. exists f. split; [done|apply String.eqb_refl]. }
  cbn [FileID set_field CorpusFile_eta eta_expand]. rewrite Hcopy. unfold insert_corpus_file.
  cbn [FileID FileHash set_field CorpusFile_eta eta_expand]. rewrite Hcopy, Hhash. by eexists.
Qed.

Lemma sync_rows_same t time bot ids : no_copies bot t → io_keeps (on_tables (eq t)) (sync_rows time bot ids).
Proof.
  intros Hno. induction ids as [|fid ids IH]; cbn [sync_rows]; [apply keeps_ret|].
  apply keeps_bind; [|done]. apply keeps_change. intros u t' <- E. destruct (sync_row_changes_nothing time bot fid t Hno) as [H1 H2].
  destruct (has_row _ _); [destruct (H1 eq_refl) as [c Hc]; by rewrite Hc in E|]. rewrite (H2 eq_refl) in E. by injection E.
Qed.

Lemma sync_rows_ok t time bot ids d d' : no_copies bot t → tables d = t → sync_rows time bot ids d = (Ok tt, d') →
  ∀ fid, fid ∈ ids → has_row (by_id fid) (campaign_corpus_files t) = false.
Proof.
  intros Hno. revert d. induction ids as [|fid ids IH]; intros d Hd E x Hx; [by apply not_elem_of_nil in Hx|].
  cbn [sync_rows] in E. unfold io_bind in E. destruct (change _ d) as [[[]|e|w] d1] eqn:Ec; [|done..].
  apply exec_ok in Ec. rewrite Hd in Ec. destruct (sync_row_changes_nothing time bot fid t Hno) as [H1 H2].
  destruct (has_row (by_id fid) _) eqn:Er; [destruct (H1 eq_refl) as [c Hc]; by rewrite Hc in Ec|]. rewrite (H2 eq_refl) in Ec. injection Ec as Ec.
  apply elem_of_cons in Hx as [->|Hx]; [done|]. by apply (IH d1).
Qed.

(** Files are never marked as synchronised.  As long as no file is called
    like a copy of another one, [MarkCorpusFilesSynced] leaves every table as
    it was, whatever the faults, because the copy it inserts has the hash of
    the original; it succeeds only when none of the files is there. *)
Theorem sync_marks_nothing (d : DB) (time : Time) (fileIDs : list string) (botID : string) (Hno : no_copies botID (tables d)) :
  tables (MarkCorpusFilesSynced time fileIDs botID d).2 = tables d ∧
  ((MarkCorpusFilesSynced time fileIDs botID d).1 = Ok tt →
     ∀ fid, fid ∈ fileIDs → has_row (by_id fid) (campaign_corpus_files (tables d)) = false) ∧
  (∀ fid rest, fileIDs = fid :: rest → healthy d → has_row (by_id fid) (campaign_corpus_files (tables d)) = true →
     ∃ column, MarkCorpusFilesSynced time fileIDs botID d = (Err (exhausted (retry_options config) (constraint_unique column)), d)).
Proof using Hmax.
  unfold MarkCorpusFilesSynced. destruct fileIDs as [|i ids]; [split_and!; [done|by intros _ fid ?%not_elem_of_nil|done]|].
  set (body := transaction _). assert (io_keeps (on_tables (eq (tables d))) body) as Hk.
  { apply keeps_transaction, keeps_bind; [apply keeps_query|intros _; by apply sync_rows_same]. }
  split_and!.
  - symmetry. by apply (WithRetry_keeps _ _ _ _ _ Hk).
  - intros E fid Hfid. destruct (retry body d) as [r d'] eqn:Er. simpl in E. subst r.
    destruct (WithRetry_ok _ _ _ _ _ _ _ _ Hk eq_refl Er) as (d0 & Hd0 & E0). unfold body, transaction, io_bind in E0.
    destruct (query (λ _, Ok tt) d0) as [[[]|e|w] d1] eqn:E1; [|done..]. apply exec_ok in E1.
    destruct (query (λ _, Ok tt) d1) as [[[]|e|w] d2] eqn:E2; [|done..]. apply exec_ok in E2.
    destruct (sync_rows time botID (i :: ids) d2) as [[[]|e|w] d3] eqn:E3; [|done..].
    eapply (sync_rows_ok (tables d)); [done| |exact E3|done]. unfold on_tables in Hd0. congruence.
  - intros fid rest [= <- <-] Hd Hrow. destruct (sync_row_changes_nothing time botID i (tables d) Hno) as [[c Hc] _]; [done|].
    exists c. apply execute_stuck; [done|]. unfold body, transaction, io_bind. rewrite !query_healthy by done. cbn [sync_rows].
    unfold io_bind. rewrite (change_healthy_err _ d _ Hd Hc). f_equal. rewrite (healthy_eq d Hd) at 3. by rewrite Hd.
Qed.
End reads.
End store.

(** ** Concrete databases *)

Definition three_retries : DatabaseConfig := mkDatabaseConfig 3 (100 * Millisecond) (5 * Second) (f64_of_Z 2).
Definition halves (_ : Z) : float64 := f64_lit 1 2.
Definition no_tables : Tables := mkTables [] [] None None [] [] [] [] [] [] [] [].
Definition a_file (id campaign hash : string) (new : Z) : CorpusFile :=
  mkCorpusFile id campaign "j1" "b1" "seed" hash 10 100 new "" 0 5 None false.
Definition with_files (l : list CorpusFile) : DB := mkSql (no_tables <| campaign_corpus_files := l |>) [].
Definition one_file : DB := with_files [a_file "f1" "c1" "aa11" 3].

Lemma store_writes_wf_witness :
  store_wf (tables (AddCorpusFile three_retries halves (a_file "f2" "c2" "bb22" 0) one_file).2).
Proof.
  apply (store_writes_wf three_retries halves (AddCorpusFile three_retries halves (a_file "f2" "c2" "bb22" 0))
    (w_AddCorpusFile _ _ (a_file "f2" "c2" "bb22" 0)) one_file).
  split; cbn; by apply (bool_decide_unpack _); vm_compute.
Defined.

Lemma missing_rows_are_failures_witness :
  GetCrashGroup three_retries halves "c1" "h" one_file = (Err (no_row three_retries), one_file) ∧
  (GetCrashGroup three_retries halves "c1" "h" one_file).1 ≠ Err ErrCrashGroupNotFound.
Proof.
  assert (0 ≤ MaxRetries three_retries) as Hm by (simpl; lia).
  destruct (missing_rows_are_failures three_retries halves Hm one_file "c1" "h") as (_ & _ & _ & H & _ & _ & Hh).
  split; [by apply (Hh eq_refl)|exact H].
Defined.

Lemma sync_marks_nothing_witness :
  tables (MarkCorpusFilesSynced three_retries halves 9 ["f1"] "b2" one_file).2 = tables one_file ∧
  ∃ column, MarkCorpusFilesSynced three_retries halves 9 ["f1"] "b2" one_file =
    (Err (exhausted (retry_options three_retries) (constraint_unique column)), one_file).
Proof.
  assert (0 ≤ MaxRetries three_retries) as Hm by (simpl; lia).
  destruct (sync_marks_nothing three_retries halves Hm one_file 9 ["f1"] "b2") as (H1 & _ & H3).
  { intros f g ->%list_elem_of_singleton ->%list_elem_of_singleton. by vm_compute. }
  split; [exact H1|]. apply (H3 "f1" []); reflexivity.
Defined.
