(* ===== verification/Paths.v ===== *)
(** * File paths: what the storage uses of path/filepath, on a Unix system

    [Clean] by the components of the path, [JoinPath] for [filepath.Join], and
    the facts that keep a path inside a base directory. *)

From Stdlib Require Import Lia Strings.String Strings.Ascii.
From S2P Require Import Prelude Regex.

Definition slash : ascii := "/"%char.
Definition IsAbs (path : string) : bool := HasPrefix path "/".

(** The components of a cleaned path, the last first: an empty one and [.] are
    dropped, [..] takes the one before it away, and stays only where there is
    none and the path is not rooted. *)
Definition push (rooted : bool) (stack : list string) (c : string) : list string :=
  if String.eqb c "" || String.eqb c "." then stack
  else if String.eqb c ".." then
    match stack with
    | x :: rest => if String.eqb x ".." then ".." :: stack else rest
    | [] => if rooted then [] else [".."]
    end
  else c :: stack.
Definition components (path : string) : list string := rev (foldl (push (IsAbs path)) [] (Split path slash)).
Definition Clean (path : string) : string :=
  let body := Join (components path) "/" in
  if IsAbs path then "/" +:+ body else if String.eqb body "" then "." else body.

(** [filepath.Join]: the non-empty elements. *)
Definition JoinPath (elems : list string) : string :=
  match List.filter (λ e, negb (String.eqb e "")) elems with
  | [] => ""
  | l => Clean (Join l "/")
  end.

(** [filepath.Base]: the last component, without trailing slashes. *)
Fixpoint last_component (l : list string) (default : string) : string :=
  match l with [] => default | c :: l => last_component l (if String.eqb c "" then default else c) end.
Definition Base (path : string) : string :=
  if String.eqb path "" then "." else last_component (Split path slash) "/".

(** [strings.ReplaceAll(s, "..", "")]. *)
Fixpoint remove_dots (s : string) : string :=
  match s with
  | String "." (String "." s') => remove_dots s'
  | String c s' => String c (remove_dots s')
  | EmptyString => EmptyString
  end.

(** [strings.ReplaceAll(s, "\", "/")]. *)
Fixpoint to_slashes (s : string) : string :=
  match s with
  | EmptyString => EmptyString
  | String c s' => String (if Ascii.eqb c "\" then slash else c) (to_slashes s')
  end.

(** ** Splitting and joining *)

Lemma split_go_app sep a b acc : split_go sep (a +:+ String sep b) acc = split_go sep a acc ++ split_go sep b "".
Proof.
  revert acc. induction a as [|c a IH]; intros acc; [change ("" +:+ String sep b) with (String sep b); cbn [split_go]; by rewrite Ascii.eqb_refl|].
  rewrite app_cons. cbn [split_go]. destruct (Ascii.eqb c sep); [by rewrite IH|apply IH].
Qed.
Lemma Split_app sep a b : Split (a +:+ String sep b) sep = Split a sep ++ Split b sep.
Proof. apply split_go_app. Qed.

Lemma rev_string_has c s acc : has_char c (rev_string s acc) = has_char c s || has_char c acc.
Proof.
  revert acc. induction s as [|d s IH]; intros acc; [done|]. cbn [rev_string has_char]. rewrite IH. cbn [has_char].
  by destruct (Ascii.eqb d c), (has_char c s).
Qed.
Lemma Split_no_sep sep s x : x ∈ Split s sep → has_char sep x = false.
Proof.
  unfold Split. assert (has_char sep "" = false) as H by done. revert H. generalize "" as acc.
  induction s as [|c s IH]; intros acc Ha; cbn [split_go].
  - intros ->%list_elem_of_singleton. by rewrite rev_string_has, Ha.
  - destruct (Ascii.eqb c sep) eqn:E.
    + intros [->|Hx]%elem_of_cons; [by rewrite rev_string_has, Ha|by apply (IH "")].
    + intros Hx. apply (IH (String c acc)); [|done]. cbn [has_char]. by rewrite E, Ha.
Qed.

Lemma Split_nonempty sep s : Split s sep ≠ [].
Proof. unfold Split. generalize "" as acc. induction s as [|c s IH]; intros acc; cbn; [done|]. destruct (Ascii.eqb c sep); [done|apply IH]. Qed.

Lemma Join_cons x l sep : l ≠ [] → Join (x :: l) sep = x +:+ sep +:+ Join l sep.
Proof. by destruct l. Qed.

Lemma Join_Split sep s : Join (Split s sep) (String sep "") = s.
Proof.
  unfold Split. assert (∀ acc, Join (split_go sep s acc) (String sep "") = rev_string acc "" +:+ s) as H; [|apply (H "")].
  induction s as [|c s IH]; intros acc; cbn [split_go]; [cbn; by rewrite app_empty_r|].
  destruct (Ascii.eqb_spec c sep) as [->|].
  - rewrite Join_cons by apply Split_nonempty. rewrite IH. done.
  - rewrite IH. cbn [rev_string]. rewrite rev_string_app, string_app_assoc. done.
Qed.

Lemma HasPrefix_app_l p s t : HasPrefix s p = true → HasPrefix (s +:+ t) p = true.
Proof.
  revert s. induction p as [|a p IH]; intros s; [intros _; apply HasPrefix_nil|].
  destruct s as [|b s]; [done|]. rewrite app_cons, !HasPrefix_cons. intros [H1 H2]%andb_true_iff. by rewrite H1, IH.
Qed.
Lemma HasPrefix_self p : HasPrefix p p = true.
Proof. induction p as [|a p IH]; [done|]. by rewrite HasPrefix_cons, Ascii.eqb_refl. Qed.
Lemma Contains_app_l p s t : Contains s p = true → Contains (s +:+ t) p = true.
Proof.
  induction s as [|c s IH]; cbn [Contains].
  - destruct p; [intros _; by destruct t|done].
  - rewrite app_cons. cbn [Contains]. intros [H|H]%orb_true_iff; apply orb_true_iff; [left|right; by apply IH].
    rewrite <- app_cons. by apply HasPrefix_app_l.
Qed.
Lemma Contains_app_r p s t : Contains t p = true → Contains (s +:+ t) p = true.
Proof. induction s as [|c s IH]; [done|]. intros H. rewrite app_cons. cbn [Contains]. rewrite IH by done. apply orb_true_r. Qed.
Lemma Contains_self p : Contains p p = true.
Proof. rewrite <- (app_empty_r p) at 1. apply Contains_prefix. Qed.

Lemma Contains_Join c l sep : c ∈ l → Contains (Join l sep) c = true.
Proof.
  induction l as [|x l IH]; [by intros ?%not_elem_of_nil|]. intros [->|Hc]%elem_of_cons.
  - destruct (decide (l = [])) as [->|]; [apply Contains_self|]. rewrite Join_cons by done. apply Contains_app_l, Contains_self.
  - rewrite Join_cons by (by intros ->; apply not_elem_of_nil in Hc). by apply Contains_app_r, Contains_app_r, IH.
Qed.
Lemma Split_no_dots s sep : Contains s ".." = false → ".." ∉ Split s sep.
Proof. intros H Hin. apply (Contains_Join _ _ (String sep "")) in Hin. rewrite Join_Split in Hin. congruence. Qed.

Lemma remove_dots_other c s : c ≠ "."%char → remove_dots (String c s) = String c (remove_dots s).
Proof. intros Hc. destruct c as [[] [] [] [] [] [] [] []]; try done; by destruct Hc. Qed.
Lemma remove_dots_one s : HasPrefix s "." = false → remove_dots (String "." s) = String "." (remove_dots s).
Proof.
  destruct s as [|d s]; [done|]. rewrite HasPrefix_cons, HasPrefix_nil, andb_true_r. intros Hd%Ascii.eqb_neq.
  destruct d as [[] [] [] [] [] [] [] []]; try done; by destruct Hd.
Qed.
Lemma remove_dots_head s : HasPrefix s "." = false → HasPrefix (remove_dots s) "." = false.
Proof.
  destruct s as [|d s]; [done|]. rewrite HasPrefix_cons, HasPrefix_nil, andb_true_r. intros Hd.
  rewrite remove_dots_other by (by apply Ascii.eqb_neq). by rewrite HasPrefix_cons, Hd.
Qed.

Lemma remove_dots_spec s : Contains (remove_dots s) ".." = false.
Proof.
  assert (∀ c s, Contains s ".." = false → HasPrefix s "." = false ∨ c ≠ "."%char → Contains (String c s) ".." = false) as Hcons.
  { intros c t Hs Hc. cbn [Contains]. rewrite Hs, orb_false_r, HasPrefix_cons.
    destruct (Ascii.eqb_spec c "."%char) as [->|]; [|done]. by destruct Hc as [Hc|Hc]. }
  assert (∀ n s, (String.length s ≤ n)%nat → Contains (remove_dots s) ".." = false) as H; [|by apply (H (String.length s))].
  clear s. induction n as [|n IH]; intros s Hn; [by destruct s; [|simpl in Hn; lia]|].
  destruct s as [|c s]; [done|]. cbn [String.length] in Hn.
  destruct (decide (c = "."%char)) as [->|Hc].
  - destruct (HasPrefix s ".") eqn:Hp.
    + destruct s as [|d s]; [done|]. rewrite HasPrefix_cons, HasPrefix_nil, andb_true_r in Hp. apply Ascii.eqb_eq in Hp as ->.
      change (Contains (remove_dots s) ".." = false). apply IH. cbn [String.length] in Hn. lia.
    + rewrite remove_dots_one by done. apply Hcons; [apply IH; lia|left; by apply remove_dots_head].
  - rewrite remove_dots_other by done. apply Hcons; [apply IH; lia|by right].
Qed.

(** ** Cleaning *)

(** The stack of a clean path: real components, and [..] only at the bottom of
    a relative path. *)
Fixpoint clean_stack (rooted : bool) (stack : list string) : Prop :=
  match stack with
  | [] => True
  | c :: rest => c ≠ "" ∧ c ≠ "." ∧ (c = ".." → rooted = false ∧ Forall (eq "..") rest) ∧ clean_stack rooted rest
  end.

Lemma push_clean rooted stack c : clean_stack rooted stack → clean_stack rooted (push rooted stack c).
Proof.
  intros Hs. unfold push. destruct (String.eqb_spec c ""), (String.eqb_spec c "."); try done. cbn [orb].
  destruct (String.eqb_spec c "..") as [->|]; [|by split_and!].
  destruct stack as [|x rest]; [by destruct rooted|]. destruct (String.eqb_spec x "..") as [->|]; [|by apply Hs].
  destruct Hs as (H1 & H2 & H3 & H4). destruct (H3 eq_refl) as [H5 H6]. cbn [clean_stack]. split_and!; try done. intros _. split; [done|by constructor].
Qed.
Lemma foldl_push_clean rooted cs stack : clean_stack rooted stack → clean_stack rooted (foldl (push rooted) stack cs).
Proof. revert stack. induction cs as [|c cs IH]; intros stack Hs; [done|]. by apply IH, push_clean. Qed.

Lemma foldl_push_rev rooted stack : clean_stack rooted stack → foldl (push rooted) [] (rev stack) = stack.
Proof.
  induction stack as [|c stack IH]; [done|]. intros (H1 & H2 & H3 & H4). cbn [rev]. rewrite foldl_app, IH by done. cbn [foldl].
  unfold push. rewrite (proj2 (String.eqb_neq _ _) H1), (proj2 (String.eqb_neq _ _) H2). cbn [orb].
  destruct (String.eqb_spec c "..") as [->|]; [|done]. destruct (H3 eq_refl) as [-> Hf]. destruct stack as [|x stack]; [done|].
  apply Forall_cons in Hf as [<- _]. done.
Qed.

(** Components without [..] are pushed one after the other. *)
Definition real (c : string) : bool := negb (String.eqb c "" || String.eqb c ".").
Lemma foldl_push_real rooted stack cs : ".." ∉ cs → foldl (push rooted) stack cs = rev (List.filter real cs) ++ stack.
Proof.
  revert stack. induction cs as [|c cs IH]; intros stack Hn; [done|]. apply not_elem_of_cons in Hn as [Hc Hn]. cbn [foldl List.filter].
  rewrite IH by done. unfold push, real. destruct (String.eqb c "" || String.eqb c "."); [done|]. cbn [negb rev].
  rewrite (proj2 (String.eqb_neq _ _)) by done. by rewrite <- app_assoc.
Qed.

Lemma IsAbs_app base s : base ≠ "" → IsAbs (base +:+ s) = IsAbs base.
Proof. destruct base as [|c base]; [done|]. intros _. unfold IsAbs. by rewrite app_cons, !HasPrefix_cons, !HasPrefix_nil. Qed.

Lemma components_app base p : base ≠ "" → ".." ∉ Split p slash →
  components (base +:+ "/" +:+ p) = components base ++ List.filter real (Split p slash).
Proof.
  intros Hb Hp. unfold components. rewrite IsAbs_app by done. change ("/" +:+ p) with (String slash p).
  rewrite Split_app, foldl_app, foldl_push_real by done. by rewrite rev_app_distr, rev_involutive.
Qed.

Lemma components_spec p : clean_stack (IsAbs p) (rev (components p)) ∧ ∀ c, c ∈ components p → has_char slash c = false.
Proof.
  unfold components. rewrite rev_involutive. split; [by apply foldl_push_clean|].
  assert (∀ cs st c, c ∈ foldl (push (IsAbs p)) st cs → c ∈ st ∨ c ∈ cs ∨ c = "..") as H.
  { induction cs as [|x cs IH]; intros st c Hc; [by left|]. apply IH in Hc as [Hc|[Hc|Hc]]; [|right; left; by right|by right; right].
    unfold push in Hc. repeat case_match; simplify_eq; set_solver. }
  intros c Hc. apply list_elem_of_In, in_rev, list_elem_of_In in Hc. apply H in Hc as [Hc|[Hc| ->]]; [by apply not_elem_of_nil in Hc|by apply Split_no_sep in Hc|done].
Qed.

Lemma IsAbs_slash s : IsAbs ("/" +:+ s) = true.
Proof. unfold IsAbs. by rewrite app_cons, HasPrefix_cons, HasPrefix_nil. Qed.
Lemma Clean_rooted p : IsAbs (Clean p) = IsAbs p.
Proof.
  unfold Clean. destruct (IsAbs p) eqn:E; [apply IsAbs_slash|]. destruct (String.eqb_spec (Join (components p) "/") ""); [done|].
  destruct (components_spec p) as [Hc Hs]. destruct (components p) as [|c l] eqn:El; [done|].
  assert (c ≠ "" ∧ has_char slash c = false) as [Hne Hsl].
  { split; [|apply Hs; by left]. cbn [rev] in Hc. clear -Hc. induction (rev l) as [|x r IH]; [by destruct Hc|]. apply IH, Hc. }
  destruct c as [|d c]; [done|]. assert (∃ t, Join (String d c :: l) "/" = String d t) as [t ->].
  { destruct (decide (l = [])) as [->|]; [by exists c|]. rewrite Join_cons by done. eexists. done. }
  cbn [has_char] in Hsl. apply orb_false_iff in Hsl as [Hd _]. change slash with "/"%char in Hd. unfold IsAbs. by rewrite HasPrefix_cons, Hd.
Qed.

(** [Clean] keeps the components, so cleaning again changes nothing. *)
Lemma components_Clean p : components (Clean p) = components p.
Proof.
  unfold components at 1. rewrite Clean_rooted. destruct (components_spec p) as [Hc Hs].
  assert (foldl (push (IsAbs p)) [] (Split (Clean p) slash) = rev (components p)) as ->; [|apply rev_involutive].
  assert (foldl (push (IsAbs p)) [] (components p) = rev (components p)) as Hfold.
  { rewrite <- (rev_involutive (components p)) at 1. by apply foldl_push_rev. }
  unfold Clean. destruct (IsAbs p).
  - change ("/" +:+ Join (components p) "/") with ("" +:+ String slash (Join (components p) "/")). rewrite Split_app, foldl_app. cbn [Split split_go rev_string foldl].
    change (push true [] "") with (@nil string). destruct (decide (components p = [])) as [E|]; [by rewrite E|].
    by rewrite (Split_Join slash).
  - destruct (decide (components p = [])) as [E|E]; [by rewrite E|].
    destruct (String.eqb_spec (Join (components p) "/") "") as [E0|]; [|by rewrite (Split_Join slash)].
    pose proof (Split_Join slash (components p) E Hs) as Hj. change (String slash "") with "/" in Hj. rewrite E0 in Hj.
    rewrite <- Hj in Hfold. done.
Qed.

Lemma Clean_nonempty p : Clean p ≠ "".
Proof. unfold Clean. destruct (IsAbs p); [done|]. by destruct (String.eqb_spec (Join (components p) "/") ""). Qed.

(** A path under a base directory, with no [..] left in it, has the components
    of the base first. *)
Lemma JoinPath_inside base p : base ≠ "" → p ≠ "" → ".." ∉ Split p slash →
  components (JoinPath [base; p]) = components base ++ List.filter real (Split p slash).
Proof.
  intros Hb Hp Hd. unfold JoinPath. cbn [List.filter]. rewrite !(proj2 (String.eqb_neq _ _)) by done. cbn [negb].
  rewrite components_Clean. by apply components_app.
Qed.

Lemma clean_components_real p : ".." ∉ Split (Clean p) slash → List.filter real (Split (Clean p) slash) = components p.
Proof.
  intros Hd. rewrite <- (components_Clean p). unfold components. rewrite foldl_push_real by done. by rewrite app_nil_r, rev_involutive.
Qed.
