(* ===== verification/FileBackend.v ===== *)
(** * The filesystem backend: src/pkg/storage/backend/filesystem.go

    A disk is the contents of its files, by full path, and a script of the
    faults of the system calls to come (no entry is no fault); a faulty write
    may have written a part.  Directories are implicit: whatever goes wrong with
    them is a fault. *)

From Stdlib Require Import Lia Strings.String Strings.Ascii.
From S2P Require Import Prelude Regex CrashTypes Paths.

Record Disk := mkDisk { contents : gmap string bytes; disk_faults : list (option (goerror * option nat)) }.
#[export] Instance Disk_eta : Eta Disk := fun d => mkDisk (contents d) (disk_faults d).


(** [os.IsNotExist]: ENOENT. *)
Definition ErrNotExist : goerror := ErrErrno 2 "no such file or directory".
Definition IsNotExist (e : goerror) : bool := match e with ErrErrno n _ => n =? 2 | _ => false end.

(** One system call: [partly n] is the contents when a fault left [n] bytes
    written. *)
Definition sys {A} (partly : nat → gmap string bytes → gmap string bytes)
    (body : gmap string bytes → res A * gmap string bytes) : io Disk A := λ d,
  match disk_faults d with
  | Some (e, None) :: fs => (Err e, mkDisk (contents d) fs)
  | Some (e, Some n) :: fs => (Err e, mkDisk (partly n (contents d)) fs)
  | None :: fs => let '(r, c) := body (contents d) in (r, mkDisk c fs)
  | [] => let '(r, c) := body (contents d) in (r, mkDisk c [])
  end.
Definition unharmed (_ : nat) (c : gmap string bytes) : gmap string bytes := c.

Definition MkdirAll (dir : string) : io Disk unit := sys unharmed (λ c, (Ok tt, c)).
Definition Create (path : string) : io Disk unit := sys unharmed (λ c, (Ok tt, <[path := []]> c)).
Definition WriteFile (path : string) (data : bytes) : io Disk unit :=
  sys (λ n c, <[path := take n data]> c) (λ c, (Ok tt, <[path := data]> c)).
Definition ReadDisk (path : string) : io Disk bytes :=
  sys unharmed (λ c, (match c !! path with Some b => Ok b | None => Err ErrNotExist end, c)).
Definition Stat (path : string) : io Disk Z :=
  sys unharmed (λ c, (match c !! path with Some b => Ok (len b) | None => Err ErrNotExist end, c)).
Definition ReadAll (file : bytes) : io Disk bytes := sys unharmed (λ c, (Ok file, c)).
Definition Sync (path : string) : io Disk unit := sys unharmed (λ c, (Ok tt, c)).
Definition Remove (path : string) : io Disk unit :=
  sys unharmed (λ c, match c !! path with Some _ => (Ok tt, delete path c) | None => (Err ErrNotExist, c) end).
Definition Rename (src dst : string) : io Disk unit :=
  sys unharmed (λ c, match c !! src with Some b => (Ok tt, <[dst := b]> (delete src c)) | None => (Err ErrNotExist, c) end).

(** [io.Copy] into an open file from a reader that gives some bytes and then an
    error or the end: the number of bytes written. *)
Definition Copy (path : string) (reader : bytes * option goerror) : io Disk Z :=
  sys (λ n c, <[path := take n reader.1]> c)
      (λ c, (match reader.2 with None => Ok (len reader.1) | Some e => Err e end, <[path := reader.1]> c)).

Definition bucket_corpus : string := "corpus".
Definition bucket_quarantine : string := "quarantine".
Definition bucket_backup : string := "backup".

Section backend.
Context (basePath : string).
(** The sidecar files are JSON objects of strings. *)
Context (marshal : gmap string string → bytes) (unmarshal : bytes → option (gmap string string)).

Definition getFullPath (bucket key : string) : string :=
  let cleanKey := Clean key in
  let cleanKey := if Contains cleanKey ".." then remove_dots key else cleanKey in
  JoinPath [basePath; bucket; cleanKey].

(** [now] is the time as RFC 3339 text.  A sidecar never holds [null] here: it
    would make the map nil, and the assignment panic. *)
Definition writeMetadata (now fullPath : string) (metadata : gmap string string) : io Disk unit :=
  let metaPath := fullPath +:+ ".meta" in
  let* data := attempt (ReadDisk metaPath) in
  let existing := match data with inl b => default ∅ (unmarshal b) | inr _ => ∅ end in
  let existing := <["last-modified" := now]> (metadata ∪ existing) in
  WriteFile metaPath (marshal existing).

(** A call that cleans up after itself when it fails. *)
Definition or_remove {A} (tempPath prefix : string) (m : io Disk A) : io Disk A :=
  let* r := attempt m in
  match r with
  | inl a => io_ret a
  | inr err => let* _ := ignore (Remove tempPath) in io_err (ErrWrap prefix err)
  end.

Definition Store (now key : string) (reader : bytes * option goerror) (size : Z) : io Disk unit :=
  let fullPath := getFullPath bucket_corpus key in
  let tempPath := fullPath +:+ ".tmp" in
  let* _ := or_wrap "failed to create directory" (MkdirAll fullPath) in
  let* _ := or_wrap "failed to create file" (Create tempPath) in
  let* written := or_remove tempPath "failed to write file" (Copy tempPath reader) in
  if (0 <=? size) && negb (written =? size) then
    let* _ := ignore (Remove tempPath) in
    io_err (ErrNew ("size mismatch: expected " +:+ pretty size +:+ ", wrote " +:+ pretty written))
  else
    let* _ := or_remove tempPath "failed to sync file" (Sync tempPath) in
    let* _ := or_remove tempPath "failed to rename file" (Rename tempPath fullPath) in
    ignore (writeMetadata now fullPath ∅).

(** An error of a look-up, by whether the file is missing. *)
Definition object_error {A} (key prefix : string) (m : io Disk A) : io Disk A := λ d,
  match m d with
  | (Err e, d') => (Err (if IsNotExist e then ErrNew ("object not found: " +:+ key) else ErrWrap prefix e), d')
  | r => r
  end.

(** The reader that is returned gives the contents, when nothing fails. *)
Definition Retrieve (key : string) : io Disk bytes :=
  let fullPath := getFullPath bucket_corpus key in
  let* file := object_error key "failed to open file" (ReadDisk fullPath) in
  let* _ := or_wrap "failed to stat file" (Stat fullPath) in
  io_ret file.
Definition Delete (key : string) : io Disk unit :=
  let fullPath := getFullPath bucket_corpus key in
  let* _ := ignore (Remove (fullPath +:+ ".meta")) in
  object_error key "failed to delete file" (Remove fullPath).
Definition Exists (key : string) : io Disk bool := λ d,
  match Stat (getFullPath bucket_corpus key) d with
  | (Ok _, d') => (Ok true, d')
  | (Err e, d') => (if IsNotExist e then Ok false else Err (ErrWrap "failed to check file existence" e), d')
  | (Panic w, d') => (Panic w, d')
  end.

(** The loop of [DeleteMany]: every key is tried; the errors are counted. *)
Fixpoint delete_keys (keys : list string) (errs : Z) : io Disk Z :=
  match keys with
  | [] => io_ret errs
  | key :: rest =>
      let* r := attempt (Delete key) in
      delete_keys rest (match r with inl _ => errs | inr _ => errs + 1 end)
  end.
Definition DeleteMany (keys : list string) : io Disk unit :=
  let* errs := delete_keys keys 0 in
  if 0 <? errs then io_err (ErrNew ("failed to delete " +:+ pretty errs +:+ " objects")) else io_ret tt.

Record ObjectMetadata := mkObjectMetadata { ContentType : string; ObjectSize : Z; ETag : string; UserMetadata : gmap string string }.
(** [md5] of a file is computed below 5 MB, when it can be read. *)
Definition GetMetadata (md5 : bytes → string) (key : string) : io Disk ObjectMetadata :=
  let fullPath := getFullPath bucket_corpus key in
  let* size := object_error key "failed to get file info" (Stat fullPath) in
  let* data := attempt (ReadDisk (fullPath +:+ ".meta")) in
  let userMeta := match data with inl b => default ∅ (unmarshal b) | inr _ => ∅ end in
  if size <? 5 * 1024 * 1024 then
    let* data := attempt (ReadDisk fullPath) in
    io_ret (mkObjectMetadata "application/octet-stream" size (match data with inl b => md5 b | inr _ => "" end) userMeta)
  else io_ret (mkObjectMetadata "application/octet-stream" size "" userMeta).
Definition SetMetadata (now key : string) (metadata : gmap string string) : io Disk unit :=
  let fullPath := getFullPath bucket_corpus key in
  let* _ := object_error key "failed to check file" (Stat fullPath) in
  writeMetadata now fullPath metadata.

Definition GetPresignedURL (key : string) : io Disk string :=
  let fullPath := getFullPath bucket_corpus key in
  let* _ := object_error key "failed to check file" (Stat fullPath) in
  io_ret ("file://" +:+ fullPath).
Definition PutPresignedURL (key : string) : io Disk string :=
  let fullPath := getFullPath bucket_corpus key in
  let* _ := or_wrap "failed to create directory" (MkdirAll fullPath) in
  io_ret ("file://" +:+ fullPath).

Definition testData : bytes := list_byte_of_string "health-check".
Definition HealthCheck : io Disk unit :=
  let testPath := JoinPath [basePath; ".health-check"] in
  let* _ := or_wrap "filesystem health check failed (write)" (WriteFile testPath testData) in
  let* data := or_remove testPath "filesystem health check failed (read)" (ReadDisk testPath) in
  if negb (bool_decide (data = testData)) then
    let* _ := ignore (Remove testPath) in io_err (ErrNew "filesystem health check failed: data mismatch")
  else ignore (Remove testPath).

(** [MoveToQuarantine] and [RestoreFromQuarantine]. *)
Definition move_object (from to mkdir move key : string) : io Disk unit :=
  let srcPath := getFullPath from key in
  let dstPath := getFullPath to key in
  let* _ := or_wrap mkdir (MkdirAll dstPath) in
  let* _ := or_wrap move (Rename srcPath dstPath) in
  ignore (Rename (srcPath +:+ ".meta") (dstPath +:+ ".meta")).
Definition MoveToQuarantine : string → io Disk unit :=
  move_object bucket_corpus bucket_quarantine "failed to create quarantine directory" "failed to move to quarantine".
Definition RestoreFromQuarantine : string → io Disk unit :=
  move_object bucket_quarantine bucket_corpus "failed to create corpus directory" "failed to restore from quarantine".

(** [now] in seconds. *)
Definition BackupObject (now : Z) (key : string) : io Disk unit :=
  let srcPath := getFullPath bucket_corpus key in
  let dstPath := getFullPath bucket_backup (key +:+ "." +:+ pretty now) in
  let* _ := or_wrap "failed to create backup directory" (MkdirAll dstPath) in
  let* data := or_wrap "failed to open source file" (ReadDisk srcPath) in
  let* _ := or_wrap "failed to create backup file" (Create dstPath) in
  let* _ := or_remove dstPath "failed to copy file" (Copy dstPath (data, None)) in
  let* meta := attempt (Stat (srcPath +:+ ".meta")) in
  match meta with
  | inr _ => io_ret tt
  | inl _ =>
      let* meta := attempt (ReadDisk (srcPath +:+ ".meta")) in
      match meta with inl b => ignore (WriteFile (dstPath +:+ ".meta") b) | inr _ => io_ret tt end
  end.

(** ** What the calls leave alone *)

Lemma string_app_neq (s t : string) : t ≠ "" → s +:+ t ≠ s.
Proof.
  intros Ht E. rewrite <- (app_empty_r s) in E at 2. revert E. induction s as [|c s IH]; [done|]. rewrite !app_cons. intros [= E]. by apply IH.
Qed.
Lemma string_app_inj (s t u : string) : s +:+ t = s +:+ u → t = u.
Proof. induction s as [|c s IH]; [done|]. rewrite !app_cons. intros [= E]. by apply IH. Qed.

Lemma sys_inv {A} partly (body : gmap string bytes → res A * gmap string bytes) d r d' : sys partly body d = (r, d') →
  (∃ e, r = Err e ∧ (contents d' = contents d ∨ ∃ n, contents d' = partly n (contents d))) ∨ body (contents d) = (r, contents d').
Proof.
  unfold sys. destruct (disk_faults d) as [|[[e [n|]]|] fs].
  - destruct (body (contents d)) as [r0 c] eqn:E. intros [= <- <-]. by right.
  - intros [= <- <-]. left. exists e. split; [done|]. right. by exists n.
  - intros [= <- <-]. left. exists e. split; [done|]. by left.
  - destruct (body (contents d)) as [r0 c] eqn:E. intros [= <- <-]. by right.
Qed.

(** A call that may only change the file at [path]. *)
Definition only_at (path : string) {A} (m : io Disk A) : Prop :=
  ∀ d q, q ≠ path → contents (m d).2 !! q = contents d !! q.
Definition file_is (q : string) (v : option bytes) (d : Disk) : Prop := contents d !! q = v.
Lemma only_at_keeps {A} path q v (m : io Disk A) : only_at path m → q ≠ path → io_keeps (file_is q v) m.
Proof. intros Hm Hq d Hd. unfold file_is. by rewrite Hm. Qed.

Lemma sys_keeps {A} P partly (body : gmap string bytes → res A * gmap string bytes) :
  (∀ n c, P c → P (partly n c)) → (∀ c, P c → P (body c).2) → io_keeps (λ d, P (contents d)) (sys partly body).
Proof.
  intros Hp Hb d Hd. destruct (sys partly body d) as [r d'] eqn:E. apply sys_inv in E as [(e & _ & [E|[n E]])|E]; simpl; [by rewrite E|rewrite E; by apply Hp|].
  specialize (Hb _ Hd). by rewrite E in Hb.
Qed.

Ltac keep_file :=
  match goal with |- io_keeps (file_is ?q ?v) _ => apply (sys_keeps (λ c, c !! q = v)) end;
  [intros ? c; simpl; rewrite ?lookup_insert_ne by done; done|];
  intros c Hc; simpl; repeat case_match; simpl; rewrite ?lookup_insert_ne, ?lookup_delete_ne by done; done.
Lemma MkdirAll_keeps q v p : io_keeps (file_is q v) (MkdirAll p).
Proof. keep_file. Qed.
Lemma Create_keeps q v p : q ≠ p → io_keeps (file_is q v) (Create p).
Proof. intros Hq. keep_file. Qed.
Lemma WriteFile_keeps q v p b : q ≠ p → io_keeps (file_is q v) (WriteFile p b).
Proof. intros Hq. keep_file. Qed.
Lemma Copy_keeps q v p r : q ≠ p → io_keeps (file_is q v) (Copy p r).
Proof. intros Hq. keep_file. Qed.
Lemma Read_keeps q v p : io_keeps (file_is q v) (ReadDisk p).
Proof. keep_file. Qed.
Lemma Stat_keeps q v p : io_keeps (file_is q v) (Stat p).
Proof. keep_file. Qed.
Lemma Sync_keeps q v p : io_keeps (file_is q v) (Sync p).
Proof. keep_file. Qed.
Lemma Remove_keeps q v p : q ≠ p → io_keeps (file_is q v) (Remove p).
Proof. intros Hq. keep_file. Qed.
Lemma Rename_keeps q v src dst : q ≠ src → q ≠ dst → io_keeps (file_is q v) (Rename src dst).
Proof. intros H1 H2. keep_file. Qed.

Lemma or_remove_keeps {A} q v tempPath prefix (m : io Disk A) :
  q ≠ tempPath → io_keeps (file_is q v) m → io_keeps (file_is q v) (or_remove tempPath prefix m).
Proof.
  intros Hq Hm. apply keeps_bind; [by apply keeps_attempt|]. intros [a|e]; [apply keeps_ret|].
  apply keeps_bind; [by apply keeps_ignore, Remove_keeps|intros _; apply keeps_err].
Qed.
Lemma object_error_keeps {A} q v key prefix (m : io Disk A) : io_keeps (file_is q v) m → io_keeps (file_is q v) (object_error key prefix m).
Proof. intros Hm d Hd. specialize (Hm d Hd). unfold object_error. by destruct (m d) as [[] ?]. Qed.
Lemma writeMetadata_keeps q v now full metadata : q ≠ full +:+ ".meta" → io_keeps (file_is q v) (writeMetadata now full metadata).
Proof. intros Hq. apply keeps_bind; [apply keeps_attempt, Read_keeps|intros data; by apply WriteFile_keeps]. Qed.

(** *** The calls, one by one *)

Lemma wp_sys {A} partly body (Q : res A → Disk → Prop) d :
  (∀ e fs, Q (Err e) (mkDisk (contents d) fs)) → (∀ e n fs, Q (Err e) (mkDisk (partly n (contents d)) fs)) →
  (∀ fs, Q (body (contents d)).1 (mkDisk (body (contents d)).2 fs)) → wp (sys partly body) Q d.
Proof.
  intros H1 H2 H3. unfold wp, sys. destruct (disk_faults d) as [|[[e [n|]]|] fs]; simpl; try done;
    [specialize (H3 [])|specialize (H3 fs)]; by destruct (body (contents d)).
Qed.

(** The cleaning up of a failed call touches the temporary file only. *)
Lemma wp_or_remove {A} temp prefix (m : io Disk A) (Q : res A → Disk → Prop) d :
  wp m (λ r d1, match r with
                | Ok a => Q (Ok a) d1
                | Err e => ∀ d2, (∀ q, q ≠ temp → contents d2 !! q = contents d1 !! q) → Q (Err (ErrWrap prefix e)) d2
                | Panic w => Q (Panic w) d1
                end) d →
  wp (or_remove temp prefix m) Q d.
Proof.
  intros H. apply wp_bind, wp_attempt. eapply wp_mono; [exact H|]. intros [a|e|w] d1 Hd; simpl in *; [done| |done].
  apply wp_bind, wp_ignore, wp_sys; intros; simpl; [by apply wp_err, Hd..|].
  destruct (contents d1 !! temp); simpl; apply wp_err, Hd; [|done]. intros q Hq. simpl. by rewrite lookup_delete_ne.
Qed.

Lemma wp_writeMetadata now full metadata (Q : res unit → Disk → Prop) d :
  (∀ d2, (∀ q, q ≠ full +:+ ".meta" → contents d2 !! q = contents d !! q) → Q (Ok tt) d2) →
  wp (ignore (writeMetadata now full metadata)) Q d.
Proof.
  intros H. assert (∀ b (d1 : Disk), contents d1 = contents d →
    wp (WriteFile (full +:+ ".meta") b) (λ r s', Q (match r with Panic w => Panic w | _ => Ok tt end) s') d1) as Hw.
  { intros b d1 Hd1. apply wp_sys; intros; simpl; apply H; intros q Hq; simpl; rewrite Hd1; [done|..]; by rewrite lookup_insert_ne. }
  apply wp_ignore, wp_bind, wp_attempt, wp_sys; intros; simpl; [by apply Hw..|].
  by destruct (contents d !! (full +:+ ".meta")); apply Hw.
Qed.

Section store_atomic.
Context (now key : string) (reader : bytes * option goerror) (size : Z).
Abbreviation full := (getFullPath bucket_corpus key).
Abbreviation temp := (full +:+ ".tmp").
Abbreviation store := (Store now key reader size).

Lemma full_temp : full ≠ temp.
Proof. intros E. by eapply (string_app_neq full ".tmp"). Qed.
Lemma full_meta : full ≠ full +:+ ".meta".
Proof. intros E. by eapply (string_app_neq full ".meta"). Qed.

Definition stored_or_not (d : Disk) (r : res unit) (d' : Disk) : Prop :=
  ((r = Ok tt ∧ reader.2 = None ∧ (0 ≤ size → size = len reader.1) ∧ contents d' !! full = Some reader.1) ∨
   (∃ e, r = Err e ∧ contents d' !! full = contents d !! full)) ∧
  ∀ q, q ≠ full → q ≠ temp → q ≠ full +:+ ".meta" → contents d' !! q = contents d !! q.

Lemma wp_store d : wp store (stored_or_not d) d.
Proof.
  pose proof full_temp as Hft. pose proof full_meta as Hfm. set (Q := stored_or_not d).
  set (far := λ c : gmap string bytes, ∀ q, q ≠ temp → c !! q = contents d !! q).
  assert (∀ v c, far c → far (<[temp := v]> c)) as Hins by (intros v c Hc q Hq; rewrite lookup_insert_ne by done; by apply Hc).
  assert (∀ c c', far c → (∀ q, q ≠ temp → c' !! q = c !! q) → far c') as Htrans by (intros c c' Hc Hc' q Hq; rewrite Hc' by done; by apply Hc).
  assert (∀ e d2, far (contents d2) → Q (Err e) d2) as Hfail.
  { intros e d2 Hd2. split; [right; exists e; split; [done|by apply Hd2]|]. intros q _ Hq _. by apply Hd2. }
  assert (far (contents d)) as Hd by (by intros q _).
  apply wp_bind, wp_or_wrap, wp_sys; intros; cbn -[getFullPath]; [by apply Hfail..|].
  apply wp_bind, wp_or_wrap, wp_sys; intros; cbn -[getFullPath]; [by apply Hfail..|].
  assert (far (<[temp := []]> (contents d))) as Hc0 by (apply Hins; by intros q _).
  assert (far (<[temp := reader.1]> (<[temp := []]> (contents d)))) as Hc1 by (by apply Hins).
  apply wp_bind, wp_or_remove, wp_sys; intros; cbn -[getFullPath].
  { apply Hfail. eapply Htrans; [exact Hc0|done]. }
  { apply Hfail. eapply Htrans; [apply Hins, Hc0|done]. }
  destruct (reader.2) as [e|] eqn:Er; [intros d2 Hd2; apply Hfail; eapply Htrans; [exact Hc1|done]|].
  destruct ((0 <=? size) && negb (len reader.1 =? size)) eqn:Es.
  { apply wp_bind, wp_ignore, wp_sys; intros; cbn -[getFullPath]; try (by apply Hfail).
    rewrite lookup_insert_eq. cbn -[getFullPath]. apply wp_err, Hfail. intros q Hq. simpl. rewrite lookup_delete_ne by done. by apply Hc1. }
  apply wp_bind, wp_or_remove, wp_sys; intros; cbn -[getFullPath]; try (apply Hfail; eapply Htrans; [exact Hc1|done]).
  apply wp_bind, wp_or_remove, wp_sys; intros; cbn -[getFullPath]; try (apply Hfail; eapply Htrans; [exact Hc1|done]).
  rewrite lookup_insert_eq. cbn -[getFullPath]. apply wp_writeMetadata. intros d2 Hd2. simpl in Hd2. split.
  - left. split_and!; [done|done| |by rewrite Hd2, lookup_insert_eq by done].
    intros Hs. apply andb_false_iff in Es as [Es|Es]; [by apply Z.leb_gt in Es; lia|]. apply negb_false_iff, Z.eqb_eq in Es. done.
  - intros q Hq1 Hq2 Hq3. rewrite Hd2, lookup_insert_ne, lookup_delete_ne by done. by apply Hc1.
Qed.

(** C20: storing an object is atomic.  Whatever system calls fail, and wherever
    the disk gives up for good, the file of the key ends with the whole of the
    data when [Store] reports success, which it does only for a reader that
    ended well and for the announced size; and with what it had before when
    [Store] reports an error.  No file but this one, its temporary and its
    sidecar is touched. *)
Theorem store_atomic (d : Disk) :
  let '(r, d') := store d in
  ((r = Ok tt ∧ reader.2 = None ∧ (0 ≤ size → size = len reader.1) ∧ contents d' !! full = Some reader.1) ∨
   (∃ e, r = Err e ∧ contents d' !! full = contents d !! full)) ∧
  ∀ q, q ≠ full → q ≠ temp → q ≠ full +:+ ".meta" → contents d' !! q = contents d !! q.
Proof.
  pose proof (wp_store d) as H. unfold wp in H. by destruct (store d).
Qed.
End store_atomic.

(** ** Where the objects lie *)

Definition buckets : list string := [bucket_corpus; bucket_quarantine; bucket_backup].

Section inside.
Context (Hbase : basePath ≠ "").

(** The key as it enters the path: no component of it is [..]. *)
Definition clean_key (key : string) : string := if Contains (Clean key) ".." then remove_dots key else Clean key.
Lemma clean_key_no_dots key : ".." ∉ Split (clean_key key) slash.
Proof.
  unfold clean_key. destruct (Contains (Clean key) "..") eqn:E; apply Split_no_dots; [apply remove_dots_spec|done].
Qed.

Lemma full_path_components bucket key : bucket ∈ buckets →
  components (getFullPath bucket key) = components basePath ++ bucket :: List.filter real (Split (clean_key key) slash).
Proof using Hbase.
  intros Hb. pose proof (clean_key_no_dots key) as Hd. unfold getFullPath. cbv zeta. fold (clean_key key).
  assert (bucket ≠ "" ∧ Split bucket slash = [bucket] ∧ real bucket = true ∧ bucket ≠ "..") as (Hb1 & Hb2 & Hb3 & Hb4).
  { repeat (apply elem_of_cons in Hb as [->|Hb]; [done|]). by apply not_elem_of_nil in Hb. }
  unfold JoinPath. cbn [List.filter]. rewrite !(proj2 (String.eqb_neq _ _)) by done. cbn [negb].
  destruct (String.eqb_spec (clean_key key) "") as [E|E]; cbn [negb].
  - rewrite E, components_Clean. cbn [Join]. rewrite components_app; [|done|rewrite Hb2; by intros ?%list_elem_of_singleton].
    rewrite Hb2. cbn [List.filter]. by rewrite Hb3.
  - rewrite components_Clean. cbn [Join]. change (bucket +:+ "/" +:+ clean_key key) with (bucket +:+ String slash (clean_key key)).
    rewrite components_app; [|done|].
    + rewrite Split_app, Hb2, List.filter_app. cbn [List.filter]. by rewrite Hb3.
    + rewrite Split_app, Hb2. intros [H|H]%elem_of_app; [by apply list_elem_of_singleton in H|done].
Qed.

(** Objects stay in their bucket.  Whatever the key, with however many [..],
    slashes and dots, the path of its object is below the directory of the
    bucket in the base directory, and no component of it leads up. *)
Theorem full_path_inside (bucket key : string) (Hb : bucket ∈ buckets) :
  ∃ rest, components (getFullPath bucket key) = components basePath ++ bucket :: rest ∧ ".." ∉ rest.
Proof using Hbase.
  exists (List.filter real (Split (clean_key key) slash)). split; [by apply full_path_components|].
  intros [H _]%elem_of_filter_bool. by apply clean_key_no_dots in H.
Qed.

(** Two keys may be one object: dots in pairs inside a name are dropped. *)
Lemma dotted_keys_collide bucket : getFullPath bucket "a..b" = getFullPath bucket "ab".
Proof. reflexivity. Qed.

Lemma Join_app l1 l2 sep : l1 ≠ [] → l2 ≠ [] → Join (l1 ++ l2) sep = Join l1 sep +:+ sep +:+ Join l2 sep.
Proof.
  intros H1 H2. induction l1 as [|x l1 IH]; [done|]. destruct (decide (l1 = [])) as [->|Hl]; [by rewrite (Join_cons x l2)|].
  cbn [app]. rewrite !Join_cons, IH by (try done; by destruct l1). by rewrite !string_app_assoc.
Qed.

(** Every path is a cleaned one, so its text follows from its components. *)
Lemma Clean_idem p : Clean (Clean p) = Clean p.
Proof. unfold Clean at 1. rewrite Clean_rooted, components_Clean. done. Qed.
Lemma getFullPath_clean bucket key : Clean (getFullPath bucket key) = getFullPath bucket key.
Proof using Hbase.
  unfold getFullPath, JoinPath. cbn [List.filter]. rewrite (proj2 (String.eqb_neq basePath "")) by done. cbn [negb].
  by apply Clean_idem.
Qed.
Lemma getFullPath_rooted bucket key : IsAbs (getFullPath bucket key) = IsAbs basePath.
Proof using Hbase.
  unfold getFullPath, JoinPath. cbn [List.filter]. rewrite (proj2 (String.eqb_neq basePath "")) by done. cbn [negb]. cbv zeta.
  rewrite Clean_rooted. destruct (negb (String.eqb bucket "")), (negb _); cbn [Join]; try (by apply IsAbs_app). done.
Qed.

Definition base_prefix : string :=
  (if IsAbs basePath then "/" else "") +:+ (if decide (components basePath = []) then "" else Join (components basePath) "/" +:+ "/").
Lemma full_path_shape bucket key : bucket ∈ buckets → ∃ tail, getFullPath bucket key = base_prefix +:+ bucket +:+ tail.
Proof using Hbase.
  intros Hb. set (rest := List.filter real (Split (clean_key key) slash)).
  assert (∃ tail, Join (bucket :: rest) "/" = bucket +:+ tail) as [tail Ht].
  { destruct (decide (rest = [])) as [->|]; [exists ""; by rewrite app_empty_r|]. rewrite Join_cons by done. by eexists. }
  exists tail. rewrite <- getFullPath_clean. unfold Clean. rewrite getFullPath_rooted, full_path_components by done. fold rest.
  assert (Join (components basePath ++ bucket :: rest) "/" =
    (if decide (components basePath = []) then "" else Join (components basePath) "/" +:+ "/") +:+ bucket +:+ tail) as ->.
  { destruct (decide _) as [->|Hc]; [done|]. rewrite Join_app by done. by rewrite Ht, !string_app_assoc. }
  unfold base_prefix. destruct (IsAbs basePath); [by rewrite !string_app_assoc|].
  destruct (String.eqb_spec ((if decide (components basePath = []) then "" else Join (components basePath) "/" +:+ "/") +:+ bucket +:+ tail) "") as [E|]; [|done].
  exfalso. destruct bucket as [|c b]; [repeat (apply elem_of_cons in Hb as [Hb|Hb]; [done|]); by apply not_elem_of_nil in Hb|].
  destruct (decide _); [done|]. destruct (Join (components basePath) "/"); done.
Qed.

(** Objects of different buckets, and their sidecars, are different files. *)
Lemma buckets_apart b1 b2 key1 key2 s1 s2 : b1 ∈ buckets → b2 ∈ buckets → b1 ≠ b2 →
  getFullPath b1 key1 +:+ s1 ≠ getFullPath b2 key2 +:+ s2.
Proof using Hbase.
  intros H1 H2 Hne. destruct (full_path_shape b1 key1 H1) as [t1 ->], (full_path_shape b2 key2 H2) as [t2 ->].
  rewrite !string_app_assoc. intros E%string_app_inj.
  unfold buckets in *. repeat (apply elem_of_cons in H1 as [->|H1]; [repeat (apply elem_of_cons in H2 as [->|H2]; [done|]); by apply not_elem_of_nil in H2|]).
  by apply not_elem_of_nil in H1.
Qed.

(** Moving an object to quarantine and back.  Whatever calls fail, a move
    either reports success, and the object is in the other bucket only, with
    its contents, or reports an error, and neither bucket has changed: no
    fault loses or doubles an object. *)
Theorem quarantine_moves (d : Disk) (key : string) (restore : bool) :
  let '(from, to) := if restore then (bucket_quarantine, bucket_corpus) else (bucket_corpus, bucket_quarantine) in
  let src := getFullPath from key in
  let dst := getFullPath to key in
  let '(r, d') := (if restore then RestoreFromQuarantine key else MoveToQuarantine key) d in
  (r = Ok tt ∧ is_Some (contents d !! src) ∧ contents d' !! src = None ∧ contents d' !! dst = contents d !! src) ∨
  (∃ e, r = Err e ∧ contents d' !! src = contents d !! src ∧ contents d' !! dst = contents d !! dst).
Proof using Hbase.
  assert (∀ from to mkdir move, from ∈ buckets → to ∈ buckets → from ≠ to →
    let src := getFullPath from key in let dst := getFullPath to key in
    wp (move_object from to mkdir move key) (λ r d',
      (r = Ok tt ∧ is_Some (contents d !! src) ∧ contents d' !! src = None ∧ contents d' !! dst = contents d !! src) ∨
      (∃ e, r = Err e ∧ contents d' !! src = contents d !! src ∧ contents d' !! dst = contents d !! dst)) d) as H.
  { intros from to mkdir move Hf Ht Hne src dst.
    assert (src ≠ dst) as H1 by (intros E; apply (buckets_apart from to key key "" "" Hf Ht Hne); rewrite !app_empty_r; exact E).
    assert (src ≠ src +:+ ".meta" ∧ dst ≠ dst +:+ ".meta") as [H2 H3] by (split; intros E; symmetry in E; revert E; by apply string_app_neq).
    assert (src ≠ dst +:+ ".meta" ∧ dst ≠ src +:+ ".meta") as [H4 H5].
    { split; intros E; [apply (buckets_apart from to key key "" ".meta" Hf Ht Hne)|apply (buckets_apart to from key key "" ".meta" Ht Hf (not_eq_sym Hne))];
        rewrite app_empty_r; exact E. }
    unfold move_object. fold src dst.
    apply wp_bind, wp_or_wrap, wp_sys; intros; cbn -[getFullPath]; [right; eauto..|].
    apply wp_bind, wp_or_wrap, wp_sys; intros; cbn -[getFullPath]; [right; eauto..|].
    destruct (contents d !! src) as [b|] eqn:Es; cbn -[getFullPath]; [|right; eauto].
    assert (∀ c : gmap string bytes, c !! src = None → c !! dst = Some b →
      (Ok tt = Ok tt ∧ is_Some (Some b) ∧ c !! src = None ∧ c !! dst = Some b) ∨
      (∃ e, Ok tt = Err e ∧ c !! src = Some b ∧ c !! dst = contents d !! dst)) as Hok by (intros; left; eauto).
    assert ((<[dst := b]> (delete src (contents d))) !! src = None) as Hsrc by (by rewrite lookup_insert_ne, lookup_delete_eq by done).
    assert ((<[dst := b]> (delete src (contents d))) !! dst = Some b) as Hdst by (by rewrite lookup_insert_eq).
    apply wp_ignore, wp_sys; intros; cbn -[getFullPath]; [by apply Hok..|].
    destruct ((<[dst := b]> (delete src (contents d))) !! (src +:+ ".meta")); cbn -[getFullPath]; apply Hok; try done;
      rewrite lookup_insert_ne, lookup_delete_ne by done; done. }
  destruct restore.
  - assert (wp (RestoreFromQuarantine key) _ d) as Hw by (apply H; [apply (bool_decide_unpack _); by vm_compute..|done]).
    unfold wp in Hw. by destruct (RestoreFromQuarantine key d).
  - assert (wp (MoveToQuarantine key) _ d) as Hw by (apply H; [apply (bool_decide_unpack _); by vm_compute..|done]).
    unfold wp in Hw. by destruct (MoveToQuarantine key d).
Qed.
End inside.
End backend.
#[export] Hint Resolve MkdirAll_keeps Create_keeps WriteFile_keeps Copy_keeps Read_keeps Stat_keeps Sync_keeps Remove_keeps
  Rename_keeps or_remove_keeps object_error_keeps writeMetadata_keeps : io.

Lemma full_path_inside_witness :
  ∃ rest, components (getFullPath "/var/lib/fuzz" bucket_corpus "../../etc/passwd") = ["var"; "lib"; "fuzz"] ++ bucket_corpus :: rest ∧ ".." ∉ rest.
Proof. apply (full_path_inside "/var/lib/fuzz" ltac:(done) bucket_corpus "../../etc/passwd"). by left. Defined.

Lemma quarantine_moves_witness :
  let d := mkDisk {["/s/corpus/aa" := testData]} [None; Some (ErrNew "I/O error", None)] in
  let '(r, d') := MoveToQuarantine "/s" "aa" d in
  (r = Ok tt ∧ is_Some (contents d !! "/s/corpus/aa") ∧ contents d' !! "/s/corpus/aa" = None ∧
     contents d' !! "/s/quarantine/aa" = contents d !! "/s/corpus/aa") ∨
  (∃ e, r = Err e ∧ contents d' !! "/s/corpus/aa" = contents d !! "/s/corpus/aa" ∧
     contents d' !! "/s/quarantine/aa" = contents d !! "/s/quarantine/aa").
Proof.
  apply (quarantine_moves "/s" ltac:(done) (mkDisk {["/s/corpus/aa" := testData]} [None; Some (ErrNew "I/O error", None)]) "aa" false).
Defined.
