(* ===== verification/FileStorage.v ===== *)
(** * File storages: src/pkg/service/file_storage.go

    The interface the services store contents through, its two implementations
    and the proof that each keeps the promises of the interface: a file saved
    is the file read, and no operation touches another file. *)

From Stdlib Require Import Lia Strings.String Strings.Ascii.
From S2P Require Import Prelude Regex CrashTypes Paths FileBackend.

(** ** The interface

    [common.FileStorage], as far as the services use it.  [location] tells
    which paths name the same file, [stored] what a path holds.  The faults of
    a storage come from its state. *)
Class FileStorage (F : Type) := {
  SaveFile : string → bytes → io F unit;
  ReadFile : string → io F bytes;
  DeleteFile : string → io F unit;
  FileExists : string → io F bool;
  stored : F → string → option bytes;
  apart : F → string → string → Prop }.

Class FileStorageLaws (F : Type) `{FileStorage F} : Prop := {
  save_law p data f : wp (SaveFile p data) (λ r f',
    (r = Ok tt ∧ stored f' p = Some data ∨ ∃ e, r = Err e) ∧ (∀ q, apart f p q → stored f' q = stored f q)) f;
  read_law p f : wp (ReadFile p) (λ r f',
    ((∃ data, r = Ok data ∧ stored f p = Some data) ∨ ∃ e, r = Err e) ∧ (∀ q, stored f' q = stored f q)) f;
  delete_law p f : wp (DeleteFile p) (λ r f',
    ((r = Ok tt ∧ stored f' p = None) ∨ (∃ e, r = Err e ∧ stored f' p = stored f p)) ∧ (∀ q, apart f p q → stored f' q = stored f q)) f;
  apart_law p q f f' : apart f p q → apart f' p q }.

(** ** The local file system *)

(** The checks every operation makes on its path, and the path it uses. *)
Definition checked_path (base path : string) : string + goerror :=
  if IsAbs path then inr (ErrNew ("absolute paths not allowed: " +:+ path))
  else
    let cleanPath := Clean path in
    if Contains cleanPath ".." then inr (ErrNew ("invalid path: " +:+ path))
    else inl (JoinPath [base; cleanPath]).

(** An error of the system on a path, by whether the file is missing. *)
Definition file_error {A} (path prefix : string) (m : io Disk A) : io Disk A := λ d,
  match m d with
  | (Err e, d') => (Err (if IsNotExist e then ErrNew ("file not found: " +:+ path) else ErrWrap prefix e), d')
  | r => r
  end.

Definition on_path {A} (base path : string) (k : string → io Disk A) : io Disk A :=
  match checked_path base path with inr err => io_err err | inl fullPath => k fullPath end.

Module local.
Definition SaveFile (base path : string) (data : bytes) : io Disk unit :=
  on_path base path (λ fullPath,
    let* _ := or_wrap "failed to create directory" (MkdirAll fullPath) in
    or_wrap "failed to write file" (WriteFile fullPath data)).
Definition ReadFile (base path : string) : io Disk bytes :=
  on_path base path (λ fullPath, file_error path "failed to read file" (ReadDisk fullPath)).
Definition DeleteFile (base path : string) : io Disk unit :=
  on_path base path (λ fullPath, file_error path "failed to delete file" (Remove fullPath)).
Definition FileExists (base path : string) : io Disk bool :=
  on_path base path (λ fullPath d,
    match Stat fullPath d with
    | (Ok _, d') => (Ok true, d')
    | (Err e, d') => (if IsNotExist e then Ok false else Err (ErrWrap "failed to check file existence" e), d')
    | (Panic w, d') => (Panic w, d')
    end).
Definition CopyFile (base src dst : string) : io Disk unit :=
  let* srcData := or_wrap "failed to read source file" (ReadFile base src) in
  or_wrap "failed to write destination file" (SaveFile base dst srcData).
(** The bytes that reach the writer, which may fail by itself. *)
Definition StreamFile (base path : string) (writer : bytes → res unit) : io Disk unit :=
  on_path base path (λ fullPath,
    let* data := file_error path "failed to open file" (ReadDisk fullPath) in
    match writer data with
    | Ok _ => io_ret tt
    | Err e => io_err (ErrWrap "failed to stream file" e)
    | Panic w => λ d, (Panic w, d)
    end).
End local.

(** ** A storage backend *)

Module backend.
Section backend.
Context (base now : string) (marshal : gmap string string → bytes) (unmarshal : bytes → option (gmap string string)).

Definition checked_key (path : string) : string + goerror :=
  if IsAbs path then inr (ErrNew ("absolute paths not allowed: " +:+ path))
  else
    let cleanPath := Clean path in
    if Contains cleanPath ".." then inr (ErrNew ("invalid path: " +:+ path)) else inl (to_slashes cleanPath).
Definition on_key {A} (path : string) (k : string → io Disk A) : io Disk A :=
  match checked_key path with inr err => io_err err | inl key => k key end.

Definition SaveFile (path : string) (data : bytes) : io Disk unit :=
  on_key path (λ key, or_wrap "failed to store file" (Store base marshal unmarshal now key (data, None) (len data))).
Definition ReadFile (path : string) : io Disk bytes :=
  on_key path (λ key,
    let* reader := or_wrap "failed to retrieve file" (Retrieve base key) in
    or_wrap "failed to read file content" (ReadAll reader)).
Definition DeleteFile (path : string) : io Disk unit :=
  on_key path (λ key, or_wrap "failed to delete file" (Delete base key)).
Definition FileExists (path : string) : io Disk bool :=
  on_key path (λ key, or_wrap "failed to check file existence" (Exists base key)).
Definition CopyFile (src dst : string) : io Disk unit :=
  let* srcData := or_wrap "failed to read source file" (ReadFile src) in
  or_wrap "failed to write destination file" (SaveFile dst srcData).
Definition StreamFile (path : string) (writer : bytes → res unit) : io Disk unit :=
  on_key path (λ key,
    let* data := or_wrap "failed to retrieve file stream" (Retrieve base key) in
    match writer data with
    | Ok _ => io_ret tt
    | Err e => io_err (ErrWrap "failed to stream file" e)
    | Panic w => λ d, (Panic w, d)
    end).
End backend.
End backend.

(** ** Both keep the promises *)

Section implementations.
Context (base now : string) (marshal : gmap string string → bytes) (unmarshal : bytes → option (gmap string string)).

Definition local_path (path : string) : option string := match checked_path base path with inl fullPath => Some fullPath | inr _ => None end.
Definition local_storage : FileStorage Disk := {|
  SaveFile := local.SaveFile base; ReadFile := local.ReadFile base; DeleteFile := local.DeleteFile base;
  FileExists := local.FileExists base;
  stored d path := p ← local_path path; contents d !! p;
  apart _ p q := local_path p ≠ local_path q |}.

Definition object_path (path : string) : option string :=
  match backend.checked_key path with inl key => Some (getFullPath base bucket_corpus key) | inr _ => None end.
(** A file in a backend has a temporary file and a sidecar next to it. *)
Definition backend_storage : FileStorage Disk := {|
  SaveFile := backend.SaveFile base now marshal unmarshal; ReadFile := backend.ReadFile base;
  DeleteFile := backend.DeleteFile base; FileExists := backend.FileExists base;
  stored d path := p ← object_path path; contents d !! p;
  apart _ p q := match object_path p, object_path q with
                 | Some x, Some y => y ≠ x ∧ y ≠ x +:+ ".tmp" ∧ y ≠ x +:+ ".meta"
                 | _, _ => True
                 end |}.

Lemma wp_on_path {A} path (k : string → io Disk A) (Q : res A → Disk → Prop) d :
  (∀ e, Q (Err e) d) → (∀ p, local_path path = Some p → wp (k p) Q d) → wp (on_path base path k) Q d.
Proof. unfold on_path, local_path. intros H1 H2. destruct (checked_path base path); [by apply H2|apply H1]. Qed.
Lemma wp_on_key {A} path (k : string → io Disk A) (Q : res A → Disk → Prop) d :
  (∀ e, Q (Err e) d) → (∀ key, object_path path = Some (getFullPath base bucket_corpus key) → wp (k key) Q d) →
  wp (backend.on_key path k) Q d.
Proof. unfold backend.on_key, object_path. intros H1 H2. destruct (backend.checked_key path); [by apply H2|apply H1]. Qed.

Lemma wp_file_error {A} path prefix (m : io Disk A) (Q : res A → Disk → Prop) d :
  wp m (λ r d', match r with Err e => ∀ e', Q (Err e') d' | r => Q r d' end) d → wp (file_error path prefix m) Q d.
Proof. unfold wp, file_error. destruct (m d) as [[] ?]; simpl; auto. Qed.
Lemma wp_object_error {A} key prefix (m : io Disk A) (Q : res A → Disk → Prop) d :
  wp m (λ r d', match r with Err e => ∀ e', Q (Err e') d' | r => Q r d' end) d → wp (object_error key prefix m) Q d.
Proof. unfold wp, object_error. destruct (m d) as [[] ?]; simpl; auto. Qed.

(** The local file storage keeps the interface: what was saved is there, a
    read gives what is there, a deleted file is gone or, on an error, kept,
    and the files of other paths stay as they are, whatever calls fail. *)
Theorem local_storage_laws : @FileStorageLaws Disk local_storage.
Proof.
  split; simpl.
  - intros p data d. apply wp_on_path; [intros e; split; [eauto|done]|]. intros full Hp.
    assert (∀ b q, local_path p ≠ local_path q →
      (x ← local_path q; (<[full := b]> (contents d)) !! x) = (x ← local_path q; contents d !! x)) as Hq.
    { intros b q Hq. rewrite Hp in Hq. destruct (local_path q) as [x|]; simpl; [|done]. rewrite lookup_insert_ne; [done|congruence]. }
    apply wp_bind, wp_or_wrap, wp_sys; intros; simpl; [split; [eauto|done]..|].
    apply wp_or_wrap, wp_sys; intros; simpl; (split; [|first [exact (Hq _)|done]]); [eauto..|].
    left. split; [done|]. rewrite Hp. simpl. by rewrite lookup_insert_eq.
  - intros p d. apply wp_on_path; [intros e; split; [eauto|done]|]. intros full Hp. rewrite Hp. simpl.
    apply wp_file_error, wp_sys; intros; simpl; [split; [eauto|done]..|].
    destruct (contents d !! full) eqn:E; simpl; intros; (split; [|done]); [left|right]; eauto.
  - intros p d. apply wp_on_path; [intros e; split; [eauto|done]|]. intros full Hp. rewrite Hp. simpl.
    apply wp_file_error, wp_sys; intros; simpl; [split; [eauto|done]..|].
    destruct (contents d !! full) as [b|] eqn:E; simpl; intros; (split; [|try done]); [left|idtac|right; by eauto].
    + split; [done|by rewrite lookup_delete_eq].
    + intros q Hq. destruct (local_path q) as [x|]; simpl; [|done]. rewrite lookup_delete_ne; [done|congruence].
  - done.
Qed.

(** C21: a storage backend behind the interface keeps it as well; files that are
    the temporary or the sidecar of another one are the ones to stay away
    from. *)
Theorem backend_storage_laws : @FileStorageLaws Disk backend_storage.
Proof.
  split; simpl.
  - intros p data d. apply wp_on_key; [intros e; split; [eauto|done]|]. intros key Hp. rewrite Hp.
    apply wp_or_wrap. eapply wp_mono; [apply wp_store|]. intros r d' [Hr Hq]. simpl in Hr. split.
    + destruct Hr as [(-> & _ & _ & Hc)|(e & -> & _)]; [left|right]; eauto.
    + intros q. destruct (object_path q) as [x|]; simpl; [|done]. intros (H1 & H2 & H3). by apply Hq.
  - intros p d. apply wp_on_key; [intros e; split; [eauto|done]|]. intros key Hp. rewrite Hp. simpl.
    apply wp_bind, wp_or_wrap, wp_bind, wp_object_error, wp_sys; intros; simpl; [split; [eauto|done]..|].
    destruct (contents d !! getFullPath base bucket_corpus key) as [b|] eqn:E; simpl; [|split; [eauto|done]].
    apply wp_bind, wp_or_wrap, wp_sys; intros; simpl; [split; [eauto|done]..|]. rewrite E. simpl.
    apply wp_ret. apply wp_or_wrap, wp_sys; intros; simpl; (split; [|done]); [right; eauto..|left; eauto].
  - intros p d. apply wp_on_key; [intros e; split; [eauto|done]|]. intros key Hp. rewrite Hp. simpl.
    set (full := getFullPath base bucket_corpus key).
    assert (full ≠ full +:+ ".meta") as Hm by (intros E; symmetry in E; revert E; by apply string_app_neq).
    assert (∀ d1 : Disk, (∀ y, y ≠ full +:+ ".meta" → contents d1 !! y = contents d !! y) →
      wp (object_error key "failed to delete file" (Remove full)) (λ r f',
        ((r = Ok tt ∧ contents f' !! full = None) ∨ (∃ e, r = Err e ∧ contents f' !! full = contents d !! full)) ∧
        (∀ y, y ≠ full → y ≠ full +:+ ".meta" → contents f' !! y = contents d !! y)) d1) as Hrem.
    { intros d1 Hy. apply wp_object_error, wp_sys; intros; simpl; [split; [eauto|by auto]..|].
      destruct (contents d1 !! full) as [b|]; simpl; intros; split.
      - left. by rewrite lookup_delete_eq.
      - intros y Hy1 Hy2. rewrite lookup_delete_ne by done. by apply Hy.
      - right. eauto.
      - intros y _ Hy2. by apply Hy. }
    assert (∀ d1 : Disk, (∀ y, y ≠ full +:+ ".meta" → contents d1 !! y = contents d !! y) →
      wp (object_error key "failed to delete file" (Remove full)) (λ r f',
        let r := match r with Err e => Err (ErrWrap "failed to delete file" e) | r => r end in
        ((r = Ok tt ∧ contents f' !! full = None) ∨ (∃ e, r = Err e ∧ contents f' !! full = contents d !! full)) ∧
        (∀ q, match object_path q with Some y => y ≠ full ∧ y ≠ full +:+ ".tmp" ∧ y ≠ full +:+ ".meta" | None => True end →
           (x ← object_path q; contents f' !! x) = (x ← object_path q; contents d !! x))) d1) as Hdel.
    { intros d1 Hy. eapply wp_mono; [by apply Hrem|]. intros r f' [Hr Hfar]. split.
      - destruct Hr as [(-> & H)|(e & -> & H)]; [left|right]; eauto.
      - intros q. destruct (object_path q) as [y|]; simpl; [|done]. intros (H1 & _ & H2). by apply Hfar. }
    apply wp_or_wrap, wp_bind, wp_ignore, wp_sys; intros; simpl.
    all: fold full.
    3: destruct (contents d !! (full +:+ ".meta")); simpl.
    all: eapply wp_mono; [apply Hdel; intros y Hy; simpl; rewrite ?lookup_delete_ne by done; done|]; intros r f' H; exact H.
  - done.
Qed.
End implementations.

(** ** Inside the base directory *)

(** No path leads out.  Whatever relative path the local storage accepts,
    the file it works on is the one with the components of the cleaned path
    below the base directory; a path that leads up is refused. *)
Theorem local_path_inside (base path full : string) (Hbase : base ≠ "") (Hp : local_path base path = Some full) :
  components full = components base ++ components path ∧ ".." ∉ components path.
Proof.
  unfold local_path, checked_path in Hp. destruct (IsAbs path); [done|]. destruct (Contains (Clean path) "..") eqn:E; simplify_eq.
  pose proof (Split_no_dots _ slash E) as Hd. split.
  - rewrite JoinPath_inside by (done || apply Clean_nonempty). by rewrite clean_components_real.
  - rewrite <- (clean_components_real path Hd). intros [H _]%elem_of_filter_bool. by apply Hd.
Qed.
Lemma local_path_inside_witness :
  components "/srv/fuzz/corpus/ab/abcd" = components "/srv/fuzz" ++ components "corpus//ab/x/../abcd" ∧
  ".." ∉ components "corpus//ab/x/../abcd".
Proof. apply (local_path_inside "/srv/fuzz" "corpus//ab/x/../abcd" "/srv/fuzz/corpus/ab/abcd"); [done|by vm_compute]. Defined.
