(* ===== verification/CorpusQuarantine.v ===== *)
(** * Quarantine of corpus files: src/pkg/service/corpus_quarantine.go

    The rules that put a file in quarantine by its metrics, and the moves of a
    file between the corpus and the quarantine, over the SQL storage and a file
    storage behind its interface.  A world is the database and the file
    storage, when one is configured. *)

From Stdlib Require Import Lia Strings.String Strings.Ascii.
From S2P Require Import Prelude StorageRetry Sql MasterTypes CrashTypes CampaignStore CorpusStore Paths FileBackend FileStorage.

(** ** Rules *)

Abbreviation QuarantineReason := string (only parsing).
Definition QuarantineReasonCrashLoop : QuarantineReason := "crash_loop".
Definition QuarantineReasonTimeout : QuarantineReason := "timeout".
Definition QuarantineReasonMemoryExcess : QuarantineReason := "memory_excess".
Definition QuarantineReasonPerformance : QuarantineReason := "performance".

(** The thresholds; the checks read them when they run. *)
Record Thresholds := mkThresholds {
  crashThreshold : Z; timeoutThreshold : Z; memoryThreshold : Z; perfThreshold : Duration }.
Record QuarantineRule := mkRule {
  RuleName : string; Enabled : bool; Check : Thresholds → CorpusFileMetrics → option (QuarantineReason * string) }.
#[export] Instance QuarantineRule_eta : Eta QuarantineRule := fun r => mkRule (RuleName r) (Enabled r) (Check r).
Record CorpusQuarantine := mkQuarantine { rules : list QuarantineRule; thresholds : Thresholds }.
#[export] Instance CorpusQuarantine_eta : Eta CorpusQuarantine := fun q => mkQuarantine (rules q) (thresholds q).

Section rules.
(** [%v] of a duration. *)
Context (show_duration : Duration → string).

Definition crash_loop_detection : QuarantineRule := mkRule "crash_loop_detection" true (λ cq metrics,
  if crashThreshold cq <=? CrashCount metrics then
    Some (QuarantineReasonCrashLoop,
      "File caused " +:+ pretty (CrashCount metrics) +:+ " crashes (threshold: " +:+ pretty (crashThreshold cq) +:+ ")")
  else None).
Definition timeout_detection : QuarantineRule := mkRule "timeout_detection" true (λ cq metrics,
  if timeoutThreshold cq <=? TimeoutCount metrics then
    Some (QuarantineReasonTimeout,
      "File caused " +:+ pretty (TimeoutCount metrics) +:+ " timeouts (threshold: " +:+ pretty (timeoutThreshold cq) +:+ ")")
  else None).
Definition memory_excess_detection : QuarantineRule := mkRule "memory_excess_detection" true (λ cq metrics,
  if memoryThreshold cq <? MaxMemoryUsage metrics then
    Some (QuarantineReasonMemoryExcess,
      "File used " +:+ pretty (MaxMemoryUsage metrics) +:+ " bytes of memory (threshold: " +:+ pretty (memoryThreshold cq) +:+ ")")
  else None).
Definition performance_detection : QuarantineRule := mkRule "performance_detection" true (λ cq metrics,
  if (perfThreshold cq <? AvgExecTime metrics) && (10 <? MExecCount metrics) then
    Some (QuarantineReasonPerformance,
      "File avg execution time " +:+ show_duration (AvgExecTime metrics) +:+ " exceeds threshold " +:+ show_duration (perfThreshold cq))
  else None).

Definition initializeRules : list QuarantineRule :=
  [crash_loop_detection; timeout_detection; memory_excess_detection; performance_detection].
Definition NewCorpusQuarantine : CorpusQuarantine :=
  mkQuarantine initializeRules (mkThresholds 5 10 (1024 * 1024 * 500) (30 * Second)).
End rules.

Fixpoint set_enabled (ruleName : string) (enabled : bool) (l : list QuarantineRule) : option (list QuarantineRule) :=
  match l with
  | [] => None
  | r :: l => if String.eqb (RuleName r) ruleName then Some (r <| Enabled := enabled |> :: l)
              else match set_enabled ruleName enabled l with Some l' => Some (r :: l') | None => None end
  end.
Definition SetRule (ruleName : string) (enabled : bool) (cq : CorpusQuarantine) : option goerror * CorpusQuarantine :=
  match set_enabled ruleName enabled (rules cq) with
  | Some l => (None, cq <| rules := l |>)
  | None => (Some (ErrNew ("rule not found: " +:+ ruleName)), cq)
  end.
Definition GetRules (cq : CorpusQuarantine) : list QuarantineRule := rules cq.
Definition SetThresholds (crashes timeouts memory perfDuration : Z) (cq : CorpusQuarantine) : CorpusQuarantine :=
  let t := thresholds cq in
  cq <| thresholds := mkThresholds
    (if 0 <? crashes then crashes else crashThreshold t) (if 0 <? timeouts then timeouts else timeoutThreshold t)
    (if 0 <? memory then memory else memoryThreshold t) (if 0 <? perfDuration then perfDuration else perfThreshold t) |>.

(** The first enabled rule that asks for quarantine. *)
Fixpoint first_verdict (cq : Thresholds) (metrics : CorpusFileMetrics) (l : list QuarantineRule) : option (QuarantineReason * string) :=
  match l with
  | [] => None
  | r :: l =>
      if negb (Enabled r) then first_verdict cq metrics l
      else match Check r cq metrics with Some v => Some v | None => first_verdict cq metrics l end
  end.

(** ** Files *)

Definition content_path (top campaignID hash : string) : string :=
  if 2 <=? Z.of_nat (String.length hash) then top +:+ "/" +:+ campaignID +:+ "/" +:+ String.substring 0 2 hash +:+ "/" +:+ hash
  else top +:+ "/" +:+ campaignID +:+ "/" +:+ hash.
Definition getCorpusFilePath : string → string → string := content_path "corpus".
Definition getQuarantineFilePath : string → string → string := content_path "quarantine".

Section quarantine.
Context {F : Type} `{!FileStorage F} (config : DatabaseConfig) (random : Z → float64).

(** The database and the file storage; [None] is the nil storage. *)
Definition World : Type := sql Tables * option F.
Definition on_db {A} (m : io (sql Tables) A) : io World A := λ w, let '(r, d) := m w.1 in (r, (d, w.2)).
Definition on_files {A} (m : io F A) : io World A := λ w,
  match w.2 with
  | Some f => let '(r, f') := m f in (r, (w.1, Some f'))
  | None => (Panic "nil pointer dereference", w)
  end.
(** [if cq.fileStorage != nil { ... }]. *)
Definition with_files (k : io World unit) : io World unit := λ w,
  match w.2 with Some _ => k w | None => (Ok tt, w) end.

(** The contents are copied, then deleted at the old place, even when the copy
    failed. *)
Definition move_to_quarantine (sourcePath quarantinePath : string) : io World unit :=
  with_files (
    let* data := attempt (on_files (ReadFile sourcePath)) in
    match data with
    | inr _ => io_ret tt
    | inl data =>
        let* _ := ignore (on_files (SaveFile quarantinePath data)) in
        ignore (on_files (DeleteFile sourcePath))
    end).
Definition mark_quarantined (now : Time) (fileID : string) : io World unit :=
  ignore (on_db (UpdateCorpusFile config random fileID [("quarantined", UBool true); ("quarantined_at", UTime now)])).

(** [now] and [now'] are the two times it takes. *)
Definition QuarantineFile (now now' : Time) (file : CorpusFile) (reason : QuarantineReason) (details quarantinedBy : string) : io World unit :=
  let* existing := attempt (on_db (GetQuarantinedFile config random (FileID file))) in
  match existing with
  | inl _ => io_ret tt
  | inr _ =>
      let quarantined := mkQuarantined ("quarantine-" +:+ FileID file) (FileID file) (FileCampaignID file) (FileHash file)
        reason details now quarantinedBy None None None in
      let* _ := or_wrap "failed to store quarantine record" (on_db (AddQuarantinedFile config random quarantined)) in
      let* _ := move_to_quarantine (getCorpusFilePath (FileCampaignID file) (FileHash file))
                                   (getQuarantineFilePath (FileCampaignID file) (FileHash file)) in
      mark_quarantined now' (FileID file)
  end.

Definition EvaluateFile (now now' : Time) (cq : CorpusQuarantine) (file : CorpusFile) (metrics : CorpusFileMetrics) : io World unit :=
  match first_verdict (thresholds cq) metrics (rules cq) with
  | Some (reason, details) => QuarantineFile now now' file reason details "system"
  | None => io_ret tt
  end.

Definition RestoreFile (now : Time) (fileID restoredBy notes : string) : io World unit :=
  let* quarantined := or_wrap "failed to get quarantined file" (on_db (GetQuarantinedFile config random fileID)) in
  let* file := or_wrap "failed to get corpus file" (on_db (GetCorpusFile config random fileID)) in
  let* _ := with_files (
    let quarantinePath := getQuarantineFilePath (FileCampaignID file) (FileHash file) in
    let corpusPath := getCorpusFilePath (FileCampaignID file) (FileHash file) in
    let* data := attempt (on_files (ReadFile quarantinePath)) in
    match data with
    | inr _ => io_ret tt
    | inl data =>
        let* _ := or_wrap "failed to restore file to corpus" (on_files (SaveFile corpusPath data)) in
        ignore (on_files (DeleteFile quarantinePath))
    end) in
  let* _ := or_wrap "failed to update quarantine record"
    (on_db (UpdateQuarantinedFile config random (QID quarantined)
      [("reviewed_at", UTime now); ("reviewed_by", UString restoredBy); ("resolution", UString "restored"); ("review_notes", UString notes)])) in
  ignore (on_db (UpdateCorpusFile config random fileID [("quarantined", UBool false); ("restored_at", UTime now)])).

Definition DeleteQuarantinedFile (now : Time) (fileID deletedBy reason : string) : io World unit :=
  let* quarantined := or_wrap "failed to get quarantined file" (on_db (GetQuarantinedFile config random fileID)) in
  let* _ := with_files (ignore (on_files (DeleteFile (getQuarantineFilePath (QCampaignID quarantined) (QHash quarantined))))) in
  let* _ := or_wrap "failed to update quarantine record"
    (on_db (UpdateQuarantinedFile config random (QID quarantined)
      [("reviewed_at", UTime now); ("reviewed_by", UString deletedBy); ("resolution", UString "deleted"); ("review_notes", UString reason)])) in
  ignore (on_db (DeleteCorpusFile config random fileID)).

Definition UpdateMetrics (now now' now'' : Time) (cq : CorpusQuarantine) (fileID : string) (update : CorpusFileMetrics → CorpusFileMetrics) : io World unit :=
  let* metrics := attempt (on_db (GetCorpusFileMetrics config random fileID)) in
  let metrics := update (match metrics with inl m => m | inr _ => (empty_metrics fileID) <| LastExecuted := now |> end) in
  let* _ := or_wrap "failed to update corpus file metrics" (on_db (UpdateCorpusFileMetrics config random fileID metrics)) in
  let* file := or_wrap "failed to get corpus file" (on_db (GetCorpusFile config random fileID)) in
  ignore (EvaluateFile now' now'' cq file metrics).

(** ** Facts about the database calls *)

Context (Hmax : 0 ≤ MaxRetries config).

Lemma on_db_run {A} (m : io (sql Tables) A) d f r d' : m d = (r, d') → on_db m (d, f) = (r, (d', f)).
Proof. unfold on_db. simpl. by intros ->. Qed.

(** A retried read whose query finds nothing is an error, whatever the faults,
    and changes no table. *)
Lemma read_nothing {A} (other : res A) (body : Tables → res A) (d : sql Tables) :
  (∃ e, body (tables d) = Err e) → ∃ e d', on_no_rows other (ExecuteWithRetry config random (λ _, None) (query body)) d = (Err e, d') ∧ tables d' = tables d.
Proof using Hmax.
  intros [e He]. rewrite (on_no_rows_retry _ _ Hmax).
  assert (io_keeps (on_tables (eq (tables d))) (query body)) as Hk by apply keeps_query.
  destruct (ExecuteWithRetry config random (λ _, None) (query body) d) as [r d'] eqn:E.
  pose proof (WithRetry_keeps (retry_options config) random (λ _, None) _ _ Hk d eq_refl) as Ht.
  change (on_tables (eq (tables d)) (ExecuteWithRetry config random (λ _, None) (query body) d).2) in Ht. rewrite E in Ht. simpl in Ht.
  exists (match r with Err e => e | _ => e end), d'. split; [|done]. destruct r as [a|e'|w]; [exfalso|done|exfalso].
  - destruct (WithRetry_ok _ _ _ _ _ _ _ _ Hk eq_refl E) as (d0 & Hd0 & E0). apply exec_ok in E0. unfold on_tables in Hd0. rewrite <- Hd0, He in E0. done.
  - destruct (WithRetry_panic _ _ _ _ _ _ _ _ Hk eq_refl E) as (d0 & Hd0 & E0). apply exec_panic in E0. unfold on_tables in Hd0. rewrite <- Hd0, He in E0. done.
Qed.

(** Every record is called after its file. *)
Definition quarantine_wf (t : Tables) : Prop :=
  ∀ rows q, quarantined_files t = Some rows → q ∈ rows → QID q = "quarantine-" +:+ QFileID q.

Lemma no_record t fileID : quarantine_wf t → HasPrefix fileID "quarantine-" = false →
  ∃ e, with_table "quarantined_files" (quarantined_files t) (λ rows, first_row (where_ (q_id fileID) rows)) = Err e.
Proof.
  intros Hwf Hid. unfold with_table. destruct (quarantined_files t) as [rows|] eqn:Er; [|by eexists].
  exists ErrNoRows. apply first_row_none, has_row_false. intros q Hq. apply String.eqb_neq. intros E.
  rewrite (Hwf rows q Er Hq) in E. rewrite <- E in Hid. by rewrite (HasPrefix_app_l _ _ _ (HasPrefix_self "quarantine-")) in Hid.
Qed.

Lemma get_quarantined_fails d fileID : quarantine_wf (tables d) → HasPrefix fileID "quarantine-" = false →
  ∃ e d', GetQuarantinedFile config random fileID d = (Err e, d') ∧ tables d' = tables d.
Proof using Hmax. intros Hwf Hid. by apply read_nothing, no_record. Qed.

Lemma bind_err {S A B} (m : io S A) (k : A → io S B) s e s' : m s = (Err e, s') → io_bind m k s = (Err e, s').
Proof. unfold io_bind. by intros ->. Qed.
Lemma bind_ok {S A B} (m : io S A) (k : A → io S B) s a s' : m s = (Ok a, s') → io_bind m k s = k a s'.
Proof. unfold io_bind. by intros ->. Qed.
Lemma or_wrap_err {S A} prefix (m : io S A) s e s' : m s = (Err e, s') → or_wrap prefix m s = (Err (ErrWrap prefix e), s').
Proof. unfold or_wrap. by intros ->. Qed.

(** Nobody leaves the quarantine.  In every database whose records were
    made by [QuarantineFile], restoring a file and deleting it from the
    quarantine fail for every file whose own ID does not start with
    "quarantine-", whatever the faults, and leave all tables and files as they
    were: the record is looked for under the ID of the file, but stored under
    another one. *)
Theorem quarantine_is_forever (w : World) (fileID by_ notes : string) (now : Time)
    (Hwf : quarantine_wf (tables w.1)) (Hid : HasPrefix fileID "quarantine-" = false) :
  (∃ e w', RestoreFile now fileID by_ notes w = (Err e, w') ∧ tables w'.1 = tables w.1 ∧ w'.2 = w.2) ∧
  (∃ e w', DeleteQuarantinedFile now fileID by_ notes w = (Err e, w') ∧ tables w'.1 = tables w.1 ∧ w'.2 = w.2).
Proof using Hmax.
  destruct w as [d f]. destruct (get_quarantined_fails d fileID Hwf Hid) as (e & d' & E & Ht).
  assert (or_wrap "failed to get quarantined file" (on_db (GetQuarantinedFile config random fileID)) (d, f) =
    (Err (ErrWrap "failed to get quarantined file" e), (d', f))) as Hr by (by apply or_wrap_err, on_db_run).
  split; eexists _, _; (split; [by apply bind_err|done]).
Qed.

Definition record_of (now : Time) (file : CorpusFile) (reason details by_ : string) : QuarantinedFile :=
  mkQuarantined ("quarantine-" +:+ FileID file) (FileID file) (FileCampaignID file) (FileHash file) reason details now by_ None None None.

Lemma mark_fails d f fileID now : healthy d → mark_quarantined now fileID (d, f) = (Ok tt, (d, f)).
Proof using Hmax.
  intros Hd. assert (UpdateCorpusFile config random fileID [("quarantined", UBool true); ("quarantined_at", UTime now)] d =
    (Err (exhausted (retry_options config) (no_such_column "quarantined")), d)) as E by (by apply retry_change_err).
  unfold mark_quarantined, ignore. by rewrite (on_db_run _ _ _ _ _ E).
Qed.

Lemma wp_on_files {A} (m : io F A) (Q : res A → World → Prop) d f :
  wp m (λ r f', Q r (d, Some f')) f → wp (on_files m) Q (d, Some f).
Proof. unfold wp, on_files. simpl. by destruct (m f). Qed.

Lemma wp_with_files (k : io World unit) (Q : res unit → World → Prop) d f : wp k Q (d, Some f) → wp (with_files k) Q (d, Some f).
Proof. done. Qed.

(** Moving the contents always goes through and never touches the database;
    what is away from both paths stays. *)
Lemma move_contents `{!FileStorageLaws F} (d : sql Tables) (f0 : option F) src dst :
  wp (move_to_quarantine src dst)
     (λ r w, r = Ok tt ∧ w.1 = d ∧
        ∀ f, f0 = Some f → ∃ f', w.2 = Some f' ∧ ∀ q, apart f src q → apart f dst q → stored f' q = stored f q) (d, f0).
Proof.
  destruct f0 as [f0|]; [|done].
  set (Q := λ (r : res unit) (w : World), r = Ok tt ∧ w.1 = d ∧
    ∀ f, Some f0 = Some f → ∃ f', w.2 = Some f' ∧ ∀ q, apart f src q → apart f dst q → stored f' q = stored f q).
  assert (∀ f1, (∀ q, apart f0 src q → apart f0 dst q → stored f1 q = stored f0 q) → Q (Ok tt) (d, Some f1)) as HQ.
  { intros f1 H. split_and!; [done|done|]. intros f [= <-]. eauto. }
  apply wp_with_files, wp_bind, wp_attempt, wp_on_files. eapply wp_mono; [apply read_law|].
  intros r f1 [Hr H1]. simpl. destruct Hr as [(data & -> & _)|[e ->]]; [|apply wp_ret, HQ; intros; by rewrite H1].
  apply wp_bind, wp_ignore, wp_on_files. eapply wp_mono; [apply save_law|]. intros r f2 [Hr H2]. simpl.
  assert (wp (ignore (on_files (DeleteFile src))) Q (d, Some f2)) as H; [|by destruct Hr as [[-> _]|[e ->]]].
  apply wp_ignore, wp_on_files. eapply wp_mono; [apply delete_law|]. intros r' f3 [Hr' H3]. simpl.
  assert (∀ q, apart f0 src q → apart f0 dst q → stored f3 q = stored f0 q) as Hq.
  { intros q Hs Hd. rewrite H3, H2, H1 by (by eapply apart_law). done. }
  destruct Hr' as [[-> _]|(e & -> & _)]; by apply HQ.
Qed.

(** The first step: no record is found. *)
Lemma look_up_fails d f fileID : quarantine_wf (tables d) → healthy d → HasPrefix fileID "quarantine-" = false →
  ∃ e, attempt (on_db (GetQuarantinedFile config random fileID)) (d, f) = (Ok (inr e), (d, f)).
Proof using Hmax.
  intros Hwf Hd Hid. destruct (no_record (tables d) fileID Hwf Hid) as [e He]. eexists.
  assert (GetQuarantinedFile config random fileID d = (Err (exhausted (retry_options config) e), d)) as E.
  { unfold GetQuarantinedFile. rewrite (read_row _ _ Hmax) by done. by rewrite He. }
  unfold attempt. by rewrite (on_db_run _ _ _ _ _ E).
Qed.

(** Quarantining a file.  On a healthy database with the tables and no
    record of the file, and with a file storage that keeps its interface or
    none, [QuarantineFile] succeeds and adds exactly one record; the row of the
    file stays as it was, because the columns that should mark it do not exist;
    contents at other paths stay.  A second quarantine of the file, also after
    a review, fails with the constraint on the records' IDs.  Without the
    tables, which nothing in the program creates, it always fails. *)
Theorem quarantine_file `{!FileStorageLaws F} (d : sql Tables) (f0 : option F) (file : CorpusFile) (reason details by_ : string) (now now' : Time)
    (Hd : healthy d) (Hwf : quarantine_wf (tables d)) (Hid : HasPrefix (FileID file) "quarantine-" = false) :
  let run := QuarantineFile now now' file reason details by_ (d, f0) in
  match quarantined_files (tables d) with
  | None => ∃ e, run = (Err e, (d, f0))
  | Some rows =>
      if has_row (q_id ("quarantine-" +:+ FileID file)) rows then ∃ e, run = (Err e, (d, f0))
      else run.1 = Ok tt ∧ tables run.2.1 = (tables d) <| quarantined_files := Some (rows ++ [record_of now file reason details by_]) |> ∧
           (∀ f, f0 = Some f → ∃ f', run.2.2 = Some f' ∧ ∀ q,
              apart f (getCorpusFilePath (FileCampaignID file) (FileHash file)) q →
              apart f (getQuarantineFilePath (FileCampaignID file) (FileHash file)) q → stored f' q = stored f q)
  end.
Proof using Hmax.
  intros run. unfold run, QuarantineFile. clear run.
  destruct (look_up_fails d f0 (FileID file) Hwf Hd Hid) as [e Hget]. rewrite (bind_ok _ _ _ _ _ Hget).
  fold (record_of now file reason details by_). set (add := AddQuarantinedFile config random (record_of now file reason details by_)).
  assert (∀ e' k, add d = (Err e', d) → ∃ e, (let* _ := or_wrap "failed to store quarantine record" (on_db add) in k) (d, f0) =
    (Err e, (d, f0)) :> res unit * World) as Hfail.
  { intros e' k E. eexists. apply bind_err, or_wrap_err, on_db_run. exact E. }
  destruct (quarantined_files (tables d)) as [rows|] eqn:Er.
  2:{ eapply Hfail, retry_change_err; [done|done|]. unfold with_table. by rewrite Er. }
  destruct (has_row _ rows) eqn:Eh.
  { eapply Hfail, retry_change_err; [done|done|]. unfold with_table. rewrite Er. simpl. by rewrite Eh. }
  clear Hfail. set (t1 := (tables d) <| quarantined_files := Some (rows ++ [record_of now file reason details by_]) |>).
  assert (or_wrap "failed to store quarantine record" (on_db add) (d, f0) = (Ok tt, (mkSql t1 [], f0))) as Hadd.
  { assert (add d = (Ok tt, mkSql t1 [])) as E; [|unfold or_wrap; by rewrite (on_db_run _ _ _ _ _ E)].
    apply retry_change; [done|done|]. unfold with_table. rewrite Er. simpl. by rewrite Eh. }
  rewrite (bind_ok _ _ _ _ _ Hadd).
  pose proof (move_contents (mkSql t1 []) f0 (getCorpusFilePath (FileCampaignID file) (FileHash file))
    (getQuarantineFilePath (FileCampaignID file) (FileHash file))) as Hm. unfold wp in Hm.
  destruct (move_to_quarantine _ _ (mkSql t1 [], f0)) as [r [d1 f1]] eqn:Em. simpl in Hm. destruct Hm as (-> & -> & Hf).
  rewrite (bind_ok _ _ _ _ _ Em), mark_fails by done. done.
Qed.

(** Records keep their names. *)
Lemma keeps_on_db {A} (P : Tables → Prop) (m : io (sql Tables) A) :
  io_keeps (on_tables P) m → io_keeps (λ w : World, P (tables w.1)) (on_db m).
Proof. intros Hm [d f] Hd. specialize (Hm d Hd). unfold on_db. simpl. by destruct (m d). Qed.
Lemma keeps_on_files {A} (P : Tables → Prop) (m : io F A) : io_keeps (λ w : World, P (tables w.1)) (on_files m).
Proof. intros [d [f|]] Hd; unfold on_files; simpl; [by destruct (m f)|done]. Qed.
Lemma keeps_move (P : Tables → Prop) src dst : io_keeps (λ w : World, P (tables w.1)) (move_to_quarantine src dst).
Proof.
  intros [d [f|]] Hd; [|done]. unfold move_to_quarantine, with_files. simpl.
  match goal with |- P (tables (?m _).2.1) => assert (io_keeps (λ w : World, P (tables w.1)) m) as H; [|by apply H] end.
  apply keeps_bind; [apply keeps_attempt, keeps_on_files|]. intros [data|e]; [|apply keeps_ret].
  apply keeps_bind; [apply keeps_ignore, keeps_on_files|intros _; apply keeps_ignore, keeps_on_files].
Qed.
Lemma quarantine_wf_kept now now' file reason details by_ :
  io_keeps (λ w : World, quarantine_wf (tables w.1)) (QuarantineFile now now' file reason details by_).
Proof.
  apply keeps_bind; [apply keeps_attempt, keeps_on_db, keeps_on_no_rows, WithRetry_keeps, keeps_query|].
  intros [q|e]; [apply keeps_ret|]. apply keeps_bind.
  { apply keeps_or_wrap, keeps_on_db, WithRetry_keeps, keeps_change. intros t t' Hwf. unfold with_table.
    destruct (quarantined_files t) as [rows|] eqn:Er; [|done]. destruct (has_row _ rows); [done|]. intros [= <-].
    intros rows' q' [= <-] [Hq|Hq%list_elem_of_singleton]%elem_of_app; [by eapply Hwf|by subst]. }
  intros _. apply keeps_bind; [apply keeps_move|intros _]. apply keeps_ignore, keeps_on_db, WithRetry_keeps, keeps_change.
  intros t t' Hwf E. unfold res_bind in E. repeat case_match; simplify_eq/=.
Qed.
End quarantine.

(** ** Rules and their thresholds *)

(** The verdict on a file.  The rules are asked in order and the first
    enabled one that objects decides; with the rules the program starts with
    and any thresholds, a file stays if and only if its crashes and time-outs
    are below their thresholds, its memory is not above, and it is not both
    slow and run more than ten times; crashes come before time-outs, memory
    and speed. *)
Theorem verdict_spec (show : Duration → string) (cq : Thresholds) (metrics : CorpusFileMetrics) (l : list QuarantineRule) :
  (∀ v, first_verdict cq metrics l = Some v ↔
     ∃ before r after, l = before ++ r :: after ∧ Enabled r = true ∧ Check r cq metrics = Some v ∧
       Forall (λ r', Enabled r' = true → Check r' cq metrics = None) before) ∧
  (first_verdict cq metrics (initializeRules show) = None ↔
     CrashCount metrics < crashThreshold cq ∧ TimeoutCount metrics < timeoutThreshold cq ∧
     MaxMemoryUsage metrics ≤ memoryThreshold cq ∧ ¬ (perfThreshold cq < AvgExecTime metrics ∧ 10 < MExecCount metrics)) ∧
  (fst <$> first_verdict cq metrics (initializeRules show) = Some QuarantineReasonCrashLoop ↔ crashThreshold cq ≤ CrashCount metrics).
Proof.
  split_and!.
  - induction l as [|r l IH]; intros v; cbn [first_verdict].
    { split; [done|]. by intros ([] & ? & ? & ? & _). }
    assert (first_verdict cq metrics l = Some v ∧ (Enabled r = true → Check r cq metrics = None) ↔
      ∃ before r' after, r :: l = before ++ r' :: after ∧ before ≠ [] ∧ Enabled r' = true ∧ Check r' cq metrics = Some v ∧
        Forall (λ r', Enabled r' = true → Check r' cq metrics = None) before) as Hlater.
    { rewrite IH. split.
      - intros [(before & r' & after & -> & H1 & H2 & H3) H]. exists (r :: before), r', after. split_and!; [done..|by constructor].
      - intros ([|x before] & r' & after & E & Hne & H1 & H2 & H3); [done|]. injection E as -> ->. apply Forall_cons in H3 as [Hx H3]. eauto 10. }
    assert (∀ P : Prop, (P ↔ ∃ before r' after, r :: l = before ++ r' :: after ∧ before ≠ [] ∧ Enabled r' = true ∧ Check r' cq metrics = Some v ∧
        Forall (λ r', Enabled r' = true → Check r' cq metrics = None) before) → (Enabled r = true → Check r cq metrics = Some v → False) →
      (P ↔ ∃ before r' after, r :: l = before ++ r' :: after ∧ Enabled r' = true ∧ Check r' cq metrics = Some v ∧
        Forall (λ r', Enabled r' = true → Check r' cq metrics = None) before)) as Hfirst.
    { intros P -> Hno. split; [naive_solver|]. intros ([|x before] & r' & after & E & H1 & H2 & H3); [injection E as -> ->; by destruct Hno|eauto 10]. }
    destruct (Enabled r) eqn:Ee; cbn [negb]; [|apply Hfirst; [by rewrite <- Hlater; naive_solver|done]].
    destruct (Check r cq metrics) as [v'|] eqn:Ec; [|apply Hfirst; [by rewrite <- Hlater; naive_solver|done]].
    split; [intros [= ->]; exists [], r, l; split_and!; [done..|constructor]|]. intros ([|x before] & r' & after & E & H1 & H2 & H3); [injection E as -> ->; congruence|].
    injection E as -> ->. apply Forall_cons in H3 as [Hx _]. rewrite (Hx Ee) in Ec. done.
  - cbn. destruct (Z.leb_spec (crashThreshold cq) (CrashCount metrics)); [split; [done|lia]|].
    destruct (Z.leb_spec (timeoutThreshold cq) (TimeoutCount metrics)); [split; [done|lia]|].
    destruct (Z.ltb_spec (memoryThreshold cq) (MaxMemoryUsage metrics)); [split; [done|lia]|].
    destruct (Z.ltb_spec (perfThreshold cq) (AvgExecTime metrics)), (Z.ltb_spec 10 (MExecCount metrics)); simpl; split; try done; lia.
  - cbn. destruct (Z.leb_spec (crashThreshold cq) (CrashCount metrics)); [done|]. split; [|lia].
    repeat case_match; simplify_eq/=; done.
Qed.

(** ** Concrete worlds *)

Definition with_quarantine (t : Tables) (rows : list QuarantinedFile) : Tables := t <| quarantined_files := Some rows |>.
Definition quarantine_world : sql Tables := mkSql (with_quarantine (tables one_file) []) [].
Definition the_file : CorpusFile := a_file "f1" "c1" "aa11" 3.

(** Contents can be lost.  When the copy to the quarantine fails, the old
    contents are deleted all the same: the file is then in neither place, and
    [QuarantineFile] reports success. *)
Theorem quarantine_loses_contents (data : bytes) :
  let disk := mkDisk {["/s/corpus/c1/aa/aa11" := data]} [None; None; Some (ErrNew "no space left on device", None)] in
  let '(r, (_, f)) := @QuarantineFile _ (local_storage "/s") three_retries halves 7 8 the_file "manual" "" "user" (quarantine_world, Some disk) in
  r = Ok tt ∧ ∃ disk', f = Some disk' ∧ contents disk' = ∅.
Proof. vm_compute. split; [done|]. eexists. done. Qed.

Lemma quarantine_file_witness :
  let run := @QuarantineFile _ (local_storage "/s") three_retries halves 7 8 the_file "manual" "" "user" (quarantine_world, None) in
  run.1 = Ok tt ∧ campaign_corpus_files (tables run.2.1) = campaign_corpus_files (tables quarantine_world).
Proof.
  assert (0 ≤ MaxRetries three_retries) as Hm by (simpl; lia).
  assert (quarantine_wf (tables quarantine_world)) as Hwf by (intros rows q [= <-] Hq; by apply not_elem_of_nil in Hq).
  pose proof (local_storage_laws "/s") as Hlaws.
  destruct (@quarantine_file _ (local_storage "/s") three_retries halves Hm Hlaws quarantine_world None the_file "manual" "" "user" 7 8
    eq_refl Hwf eq_refl) as (H1 & H2 & _).
  split; [exact H1|]. by rewrite H2.
Defined.

Lemma quarantine_is_forever_witness :
  let w : @World Disk := (mkSql (with_quarantine (tables one_file) [record_of 7 the_file "manual" "" "user"]) [], None) in
  ∃ e w', @RestoreFile _ (local_storage "/s") three_retries halves 9 "f1" "user" "" w = (Err e, w') ∧ tables w'.1 = tables w.1 ∧ w'.2 = w.2.
Proof.
  intros w. assert (0 ≤ MaxRetries three_retries) as Hm by (simpl; lia).
  apply (@quarantine_is_forever _ (local_storage "/s") three_retries halves Hm w "f1" "user" "" 9).
  - intros rows q [= <-] ->%list_elem_of_singleton. reflexivity.
  - reflexivity.
Defined.
