(* ===== verification/Dedup.v ===== *)
(** * Deduplication of crashes: src/pkg/service/dedup_service.go

    Frames are extracted from the text of a stack trace by regular expressions,
    hashed, and looked up among the crash groups of the campaign of the crash,
    over the SQL storage.  The hash and the fresh IDs are parameters. *)

From Stdlib Require Import Lia Strings.String Strings.Ascii.
From S2P Require Import Prelude Regex StorageRetry Sql MasterTypes CrashTypes CampaignStore CorpusStore.

(** ** Strings *)

(** [strings.Fields]. *)
Fixpoint fields_go (s acc : string) : list string :=
  match s with
  | EmptyString => if String.eqb acc "" then [] else [rev_string acc ""]
  | String c s' =>
      if ascii_space c then (if String.eqb acc "" then [] else [rev_string acc ""]) ++ fields_go s' ""
      else fields_go s' (String c acc)
  end.
Definition Fields (s : string) : list string := fields_go s "".

(** [strings.Index]: [None] for -1. *)
Fixpoint Index (s sub : string) : option nat :=
  if HasPrefix s sub then Some 0%nat
  else match s with EmptyString => None | String _ s' => S <$> Index s' sub end.

(** [strconv.Atoi] of digits, its error dropped: the largest integer when there
    are too many. *)
Fixpoint digits_value (s : string) (acc : Z) : Z :=
  match s with EmptyString => acc | String c s' => digits_value s' (acc * 10 + (Z.of_N (N_of_ascii c) - 48)) end.
Definition Atoi (s : string) : Z := Z.min (digits_value s 0) maxInt64.

(** ** Frames *)

Definition frame_head : list regex :=
  [Plus digit; Plus blank; lits "0" (lit "x"); Plus hexdigit; Plus blank; lits "i" (lit "n"); Plus blank;
   Group 1 (Plus (λ c, negb (blank c))); Plus blank].
Definition file_and_line : list regex := [Group 2 (Plus (but ":")); lit ":"; Group 3 (Plus digit)].
Definition gdbPattern : regex := seqs (lit "#") (frame_head ++ Opt (lits "at" (Plus blank)) :: file_and_line).
Definition asanPattern : regex := seqs (lit "#") (frame_head ++ file_and_line ++ [Opt (Seq (lit ":") (Plus digit))]).
Definition simplePattern : regex :=
  seqs (Group 1 (Plus (λ c, negb (blank c)))) (Plus blank :: lits "a" (lit "t") :: Plus blank :: file_and_line).

Definition frame_of (match_ : captures) : StackFrame := mkFrame (group match_ 1) (group match_ 2) (Atoi (group match_ 3)).

(** The word after the first address that has one. *)
Fixpoint after_address (parts : list string) : string :=
  match parts with
  | part :: ((next :: _) as rest) => if HasPrefix part "0x" then next else after_address rest
  | _ => ""
  end.
Definition line_function (line : string) : string :=
  match Index line " in " with
  | Some (S n) => match Fields (String.substring (S n + 4) (String.length line - (S n + 4)) line) with part :: _ => part | [] => "" end
  | _ => if Contains line "0x" then after_address (Fields line) else ""
  end.
Definition line_frames (line : string) : list StackFrame :=
  let line := TrimSpace line in
  if String.eqb line "" || HasPrefix line "==" then []
  else
    let function := line_function line in
    if negb (String.eqb function "") && negb (String.eqb function "??") && negb (String.eqb function "<unknown>")
    then [mkFrame function "" 0] else [].

Definition newline : ascii := "010"%char.
Definition extractFrames (trace : string) : list StackFrame :=
  match FindAll gdbPattern trace with
  | (_ :: _) as matches => frame_of <$> matches
  | [] =>
      match FindAll asanPattern trace with
      | (_ :: _) as matches => frame_of <$> matches
      | [] =>
          match FindAll simplePattern trace with
          | (_ :: _) as matches => frame_of <$> matches
          | [] => concat (line_frames <$> Split trace newline)
          end
      end
  end.

(** *** The second format *)

Lemma seqs_mono {X Y} l x1 a1 x2 a2 (k : string → captures → option X) (k' : string → captures → option Y) :
  (∀ s cs cs', is_Some (rmatch (seqs x1 a1) s cs k) → is_Some (rmatch (seqs x2 a2) s cs' k')) →
  ∀ r s cs cs', is_Some (rmatch (seqs r (l ++ x1 :: a1)) s cs k) → is_Some (rmatch (seqs r (l ++ x2 :: a2)) s cs' k').
Proof.
  intros H. induction l as [|y l IH]; intros r s cs cs'; cbn [app seqs rmatch]; apply rmatch_mono; intros s' c c'; [apply H|apply IH].
Qed.

Lemma asan_is_gdb s : is_Some (match_here asanPattern s) → is_Some (match_here gdbPattern s).
Proof.
  unfold match_here. set (k := λ (s' : string) (cs : captures), Some (s', (0%nat, consumed s s') :: cs)).
  assert (∀ s' cs, is_Some (k s' cs)) as Hk by (intros; by eexists). clearbody k.
  unfold asanPattern, gdbPattern. apply seqs_mono. clear s. intros s cs cs' H.
  assert (is_Some (rmatch (seqs (Group 2 (Plus (but ":"))) [lit ":"; Group 3 (Plus digit)]) s cs' k)) as [x Hx].
  { revert H. apply (seqs_mono [lit ":"] _ [_] _ []). intros s' c c'.
    apply (rmatch_mono (Group 3 (Plus digit)) _ _ s' c c' (λ s1 c1, rmatch (Opt (Seq (lit ":") (Plus digit))) s1 c1 k) k). by intros. }
  unfold file_and_line. cbn [seqs]. cbn [seqs] in Hx. set (tail := Seq (Group 2 _) _) in *. cbn [rmatch].
  match goal with |- is_Some (match ?m with _ => _ end) => destruct m end; [by eexists|].
  eapply (rmatch_mono tail); [|by exists x]. by intros.
Qed.

Lemma FindAll_mono r1 r2 s : eats r1 = true → eats r2 = true → (∀ s, is_Some (match_here r1 s) → is_Some (match_here r2 s)) →
  FindAll r2 s = [] → FindAll r1 s = [].
Proof.
  intros H1 H2 H. induction s as [|c s IH]; [done|]. rewrite !FindAll_step by done. specialize (H (String c s)).
  destruct (match_here r2 (String c s)) as [[]|]; [done|]. destruct (match_here r1 (String c s)) as [[]|]; [|done].
  destruct H as [? [=]]. by eexists.
Qed.

(** The format of the address sanitizer is never tried.  Its expression
    matches only where the one before it matches, so the frames of every trace
    are those of the first and third expression and of the lines, and the
    column of a position is cut off by the first. *)
Theorem asan_format_unused (trace : string) :
  extractFrames trace =
    match FindAll gdbPattern trace, FindAll simplePattern trace with
    | (_ :: _) as matches, _ | [], (_ :: _) as matches => frame_of <$> matches
    | [], [] => concat (line_frames <$> Split trace newline)
    end.
Proof.
  unfold extractFrames. destruct (FindAll gdbPattern trace) eqn:E; [|done].
  rewrite (FindAll_mono asanPattern gdbPattern trace) by (done || apply asan_is_gdb). done.
Qed.

(** A frame without a position swallows the next one, address included, and the
    arguments that a debugger prints become part of the file. *)
Example frames_run_together :
  extractFrames ("#0 0x55d1 in main" +:+ String newline "#1 0x7f02 in f at b.c:3") = [mkFrame "main" "#1 0x7f02 in f at b.c" 3] ∧
  extractFrames "#1 0x7f02 in f (x=7) at b.c:3" = [mkFrame "f" "(x=7) at b.c" 3].
Proof. split; vm_compute; reflexivity. Qed.

(** ** Hashes and severity *)

Definition topNFrames : Z := 5.

Definition calculateSeverity (crash : CrashResult) : string :=
  if Signal crash =? 11 then
    if Contains (Output crash) "heap" || Contains (Output crash) "buffer overflow" then "critical" else "high"
  else if Signal crash =? 6 then
    if Contains (Output crash) "double free" || Contains (Output crash) "heap corruption" then "critical" else "medium"
  else if Signal crash =? 4 then "high"
  else if Signal crash =? 8 then "medium"
  else if slice_has (CrashKind crash) ["heap_overflow"; "stack_overflow"; "use_after_free"] then "critical"
  else if slice_has (CrashKind crash) ["segfault"; "null_deref"] then "high"
  else if slice_has (CrashKind crash) ["assertion"; "timeout"] then "low"
  else "medium".

Section dedup.
(** [hex.EncodeToString(sha256.Sum256(s))]. *)
Context (sha256_hex : string → string).

Definition frame_part (frame : StackFrame) : string := Function frame +:+ "@" +:+ FrameFile frame.
Definition computeStackHash (frames : list StackFrame) (n : Z) : string :=
  let n := if Z.of_nat (length frames) <? n then Z.of_nat (length frames) else n in
  sha256_hex (Join (frame_part <$> take (Z.to_nat n) frames) "|").

Definition parseStackTrace (rawTrace : string) : StackTrace + goerror :=
  if String.eqb rawTrace "" then inr (ErrNew "empty stack trace")
  else
    let frames := extractFrames rawTrace in
    match frames with
    | [] => inr (ErrNew "no frames found in stack trace")
    | _ => inl (mkTrace frames (computeStackHash frames topNFrames) (computeStackHash frames (Z.of_nat (length frames))) rawTrace)
    end.

(** *** The hash *)

Lemma at_sign_inj a b c d : has_char "@" a = false → has_char "@" c = false → a +:+ "@" +:+ b = c +:+ "@" +:+ d → a = c ∧ b = d.
Proof.
  revert c. induction a as [|x a IH]; intros [|y c] Ha Hc; cbn [has_char] in *; rewrite ?app_cons.
  - intros E. split; [done|]. by injection E.
  - intros [= <- _]. by rewrite Ascii.eqb_refl in Hc.
  - intros [= -> _]. by rewrite Ascii.eqb_refl in Ha.
  - apply orb_false_iff in Ha as [_ Ha], Hc as [_ Hc]. intros [= -> E]. destruct (IH c Ha Hc E) as [-> ->]. done.
Qed.
Lemma has_char_app c s t : has_char c (s +:+ t) = has_char c s || has_char c t.
Proof. induction s as [|d s IH]; [done|]. rewrite app_cons. cbn [has_char]. by rewrite IH, orb_assoc. Qed.
Lemma frame_part_no_bar f : has_char "|" (Function f) = false ∧ has_char "@" (Function f) = false ∧ has_char "|" (FrameFile f) = false →
  has_char "|" (frame_part f) = false.
Proof. intros (H1 & _ & H2). unfold frame_part. rewrite !has_char_app, H1, H2. done. Qed.
Lemma elem_of_take_in {A} n (l : list A) x : x ∈ take n l → x ∈ l.
Proof. intros H. rewrite <- (take_drop n l). apply elem_of_app. by left. Qed.

(** What the hash of a stack is made of.  With a hash function without
    collisions and frames whose names have neither separator, two traces with
    at least [n] frames get the same hash of [n] frames if and only if those
    frames agree in function and file, one by one; lines and later frames do
    not count. *)
Theorem stack_hash_exact (frames1 frames2 : list StackFrame) (n : Z) (Hn : 0 ≤ n)
    (Hsha : ∀ s1 s2, sha256_hex s1 = sha256_hex s2 → s1 = s2)
    (Hl : n ≤ Z.of_nat (length frames1) ∧ n ≤ Z.of_nat (length frames2))
    (Hnames : ∀ f, f ∈ frames1 ++ frames2 → has_char "|" (Function f) = false ∧ has_char "@" (Function f) = false ∧ has_char "|" (FrameFile f) = false) :
  computeStackHash frames1 n = computeStackHash frames2 n ↔
  (λ f, (Function f, FrameFile f)) <$> take (Z.to_nat n) frames1 = (λ f, (Function f, FrameFile f)) <$> take (Z.to_nat n) frames2.
Proof.
  unfold computeStackHash. destruct Hl as [Hl1 Hl2].
  destruct (Z.ltb_spec (Z.of_nat (length frames1)) n); [lia|]. destruct (Z.ltb_spec (Z.of_nat (length frames2)) n); [lia|].
  assert (∀ l1 l2, (∀ f, f ∈ l1 ++ l2 → has_char "@" (Function f) = false) → frame_part <$> l1 = frame_part <$> l2 →
    (λ f, (Function f, FrameFile f)) <$> l1 = (λ f, (Function f, FrameFile f)) <$> l2) as Hparts.
  { induction l1 as [|f l1 IH]; intros [|g l2] Hh E; [done..|]. cbn in E. injection E as E1 E2.
    apply at_sign_inj in E1 as [E1 E3]; [|apply Hh; set_solver..]. cbn. rewrite E1, E3. f_equal. apply IH; [|done]. set_solver. }
  split.
  - intros E%Hsha. apply Hparts; [intros f Hf; apply Hnames|].
    + apply elem_of_app in Hf as [Hf|Hf]; apply elem_of_app; [left|right]; by eapply elem_of_take_in.
    + apply (Join_inj "|"); [|exact E]. intros x [(f & -> & Hf)%list_elem_of_fmap|(f & -> & Hf)%list_elem_of_fmap]%elem_of_app;
        (split; [apply frame_part_no_bar, Hnames; apply elem_of_app; eauto using elem_of_take_in|unfold frame_part; by destruct (Function f)]).
  - intros E. f_equal. f_equal. revert E. generalize (take (Z.to_nat n) frames2). induction (take (Z.to_nat n) frames1) as [|f l1 IH]; intros [|g l2] E; [done..|].
    cbn in E. injection E as E1 E2 E3. cbn. f_equal; [unfold frame_part; congruence|by apply IH].
Qed.
(** ** Processing a crash *)

Context (config : DatabaseConfig) (random : Z → float64).

(** The first campaign, in the order of the list, that has the job; the empty
    string when there is none. *)
Fixpoint campaign_of (jobID : string) (campaigns : list Campaign) : io (sql Tables) string :=
  match campaigns with
  | [] => io_ret ""
  | campaign :: rest =>
      let* jobs := attempt (GetCampaignJobs config random (CampID campaign)) in
      match jobs with
      | inr _ => campaign_of jobID rest
      | inl jobs =>
          if existsb (λ j, String.eqb (JobID j) jobID) jobs && negb (String.eqb (CampID campaign) "")
          then io_ret (CampID campaign) else campaign_of jobID rest
      end
  end.

(** [uuid] is the fresh ID, [current] the time of SQLite.  The answer is the
    group, if any, and whether the crash is unique; it is also unique when
    there is an error. *)
Definition ProcessCrash (uuid : string) (current : Time) (crash : CrashResult) : io (sql Tables) (option CrashGroup * bool) :=
  match parseStackTrace (StackText crash) with
  | inr _ => io_ret (None, true)
  | inl stackTrace =>
      let* _ := ignore (CreateStackTrace config random (CrashID crash) stackTrace) in
      let* job := or_wrap "failed to get job" (GetJob config random (CrashJobID crash)) in
      let* campaigns := or_wrap "failed to list campaigns" (ListCampaigns config random 0 0 "") in
      let* campaignID := campaign_of (JobID job) campaigns in
      if String.eqb campaignID "" then io_ret (None, true)
      else
        let* _ := ignore (UpdateCrashWithCampaign config random (CrashID crash) campaignID) in
        let* existing := attempt (GetCrashGroup config random campaignID (TopNHash stackTrace)) in
        match existing with
        | inl group =>
            let* _ := ignore (UpdateCrashGroupCount config random current (GID group)) in
            let* _ := ignore (LinkCrashToGroup config random (CrashID crash) (GID group)) in
            io_ret (Some group, false)
        | inr err =>
            if negb (is_sentinel ErrCrashGroupNotFound err) then io_err (ErrWrap "failed to check existing crash group" err)
            else
              let crashGroup := mkGroup ("group-" +:+ uuid) campaignID (TopNHash stackTrace) (CrashTimestamp crash) (CrashTimestamp crash) 1
                (calculateSeverity crash) (take (Z.to_nat (Z.min (Z.of_nat (length (Frames stackTrace))) topNFrames)) (Frames stackTrace)) (CrashID crash) in
              let* _ := or_wrap "failed to create crash group" (CreateCrashGroup config random crashGroup) in
              let* _ := ignore (LinkCrashToGroup config random (CrashID crash) (GID crashGroup)) in
              io_ret (Some crashGroup, true)
        end
  end.

Definition GetCrashGroups (campaignID : string) : io (sql Tables) (list CrashGroup) :=
  or_wrap "failed to list crash groups" (ListCrashGroups config random campaignID).
Definition GetTrace (crashID : string) : io (sql Tables) (option StackTrace) :=
  or_wrap "failed to get stack trace" (CorpusStore.GetStackTrace config random crashID).

(** ** Groups *)

Context (Hmax : 0 ≤ MaxRetries config).
Abbreviation retry := (ExecuteWithRetry config random (λ _, None)).

Definition group_keys (t : Tables) : list (string * string * string) := (λ g, (GID g, GCampaignID g, StackHash g)) <$> crash_groups t.

Lemma wp_keeps {S A} (P : S → Prop) (m : io S A) (Q : res A → S → Prop) s : io_keeps P m → P s → (∀ r s', P s' → Q r s') → wp m Q s.
Proof. intros Hm Hs HQ. apply HQ. by apply Hm. Qed.

Lemma keeps_statement (P : Tables → Prop) body : (∀ t t', P t → body t = Ok t' → P t') → io_keeps (on_tables P) (retry (change body)).
Proof. intros H. by apply WithRetry_keeps, keeps_change. Qed.
Lemma keeps_select {A} (P : Tables → Prop) (body : Tables → res A) : io_keeps (on_tables P) (retry (query body)).
Proof. apply WithRetry_keeps, keeps_query. Qed.

Lemma campaign_of_keeps (P : Tables → Prop) jobID l : io_keeps (on_tables P) (campaign_of jobID l).
Proof.
  induction l as [|c l IH]; cbn [campaign_of]; [apply keeps_ret|]. apply keeps_bind; [apply keeps_attempt, keeps_select|].
  intros [jobs|e]; [|done]. destruct (_ && _); [apply keeps_ret|done].
Qed.

(** The writes of [ProcessCrash] before and after the look-up. *)
Lemma group_keys_kept (keys : list (string * string * string)) crash st campaignID current gid :
  let P := on_tables (λ t, group_keys t = keys) in
  io_keeps P (CreateStackTrace config random crash st) ∧ io_keeps P (UpdateCrashWithCampaign config random crash campaignID) ∧
  io_keeps P (UpdateCrashGroupCount config random current gid) ∧ io_keeps P (LinkCrashToGroup config random crash gid).
Proof.
  split_and!; apply keeps_statement; intros t t' Ht E; repeat case_match; simplify_eq/=; try done.
  unfold group_keys. cbn. unfold update_where. rewrite <- list_fmap_compose. apply list_fmap_ext. intros i g _. simpl. by destruct (g_id gid g).
Qed.

(** No crash group is ever created.  Whatever the crash, the database and its
    faults, processing a crash leaves the crash groups with the IDs, campaigns
    and hashes they had, and never answers with a new group: that a group is
    missing is told by an error the storage cannot give. *)
Theorem no_group_is_created (uuid : string) (current : Time) (crash : CrashResult) (d : sql Tables) :
  let '(r, d') := ProcessCrash uuid current crash d in
  group_keys (tables d') = group_keys (tables d) ∧ ∀ g, r ≠ Ok (Some g, true).
Proof using Hmax.
  set (keys := group_keys (tables d)).
  assert (wp (ProcessCrash uuid current crash) (λ r d', group_keys (tables d') = keys ∧ ∀ g, r ≠ Ok (Some g, true)) d) as H;
    [|unfold wp in H; by destruct (ProcessCrash uuid current crash d)].
  set (P := on_tables (λ t, group_keys t = keys)). unfold ProcessCrash.
  destruct (parseStackTrace _) as [st|e]; [|by apply wp_ret]. set (Q := λ (r : res (option CrashGroup * bool)) d', _).
  assert (∀ d' e, P d' → Q (Err e) d') as HQe by done. assert (∀ d' w, P d' → Q (Panic w) d') as HQp by done.
  assert (∀ A (m : io (sql Tables) A) (k : A → io (sql Tables) (option CrashGroup * bool)) d',
    io_keeps P m → P d' → (∀ a d', P d' → wp (k a) Q d') → wp (io_bind m k) Q d') as Hstep.
  { intros A m k d' Hm Hd' Hk. apply wp_bind. eapply wp_keeps; [exact Hm|done|]. intros [a|e|w] s' Hs'; auto. }
  apply Hstep; [by apply keeps_ignore, group_keys_kept|done|]. intros _ d1 Hd1.
  apply Hstep; [by apply keeps_or_wrap, keeps_on_no_rows, keeps_select|done|]. intros job d2 Hd2.
  apply Hstep; [by apply keeps_or_wrap, keeps_select|done|]. intros campaigns d3 Hd3.
  apply Hstep; [by apply campaign_of_keeps|done|]. intros campaignID d4 Hd4.
  destruct (String.eqb campaignID ""); [by apply wp_ret|].
  apply Hstep; [by apply keeps_ignore, group_keys_kept|done|]. intros _ d5 Hd5.
  apply wp_bind, wp_attempt. unfold wp. destruct (GetCrashGroup config random campaignID (TopNHash st) d5) as [r d6] eqn:E.
  assert (P d6) as Hd6.
  { pose proof (keeps_on_no_rows _ _ _ (keeps_select (λ t, group_keys t = keys) _) d5 Hd5 : P (GetCrashGroup config random campaignID (TopNHash st) d5).2) as H.
    by rewrite E in H. }
  destruct r as [g|e|w]; cbn [fst snd]; [| |by apply HQp].
  - apply Hstep; [by apply keeps_ignore, group_keys_kept|done|]. intros _ d7 Hd7.
    apply Hstep; [by apply keeps_ignore, group_keys_kept|done|]. intros _ d8 Hd8. by apply wp_ret.
  - pose proof (f_equal fst E) as E1. cbn [fst] in E1. unfold GetCrashGroup in E1. apply (read_fails (A := CrashGroup) config random Hmax) in E1 as [e' ->].
    change (is_sentinel ErrCrashGroupNotFound (exhausted (retry_options config) e')) with false. by apply HQe.
Qed.

(** *** On a healthy database *)

Lemma ignore_statement body (d : sql Tables) : healthy d → (∀ t w, body t ≠ Panic w) →
  ignore (retry (change body)) d = (Ok tt, mkSql (match body (tables d) with Ok t => t | _ => tables d end) []).
Proof using Hmax.
  intros Hd Hp. unfold ignore. destruct (body (tables d)) as [t|e|w] eqn:E; [|  |by destruct (Hp (tables d) w)].
  - by rewrite (retry_change config random Hmax body d t).
  - rewrite (retry_change_err config random Hmax body d e) by done. by rewrite (healthy_eq d Hd).
Qed.

Definition linked (t : Tables) (jobID : string) (c : Campaign) : bool :=
  has_row (λ l, String.eqb l.1 (CampID c) && String.eqb l.2 jobID) (campaign_jobs t) && negb (String.eqb (CampID c) "").

(** The campaign is the first of the list that is linked to the job. *)
Lemma campaign_of_healthy jobID l (d : sql Tables) : healthy d → has_row (λ j, String.eqb (JobID j) jobID) (jobs (tables d)) = true →
  campaign_of jobID l d = (Ok (match where_ (linked (tables d) jobID) l with c :: _ => CampID c | [] => "" end), d).
Proof using Hmax.
  intros Hd (j & Hj & Ej%String.eqb_eq)%has_row_true. induction l as [|c l IH]; [done|]. cbn [campaign_of]. unfold io_bind, attempt.
  unfold GetCampaignJobs. erewrite (retry_query config random Hmax); [|done|reflexivity].
  set (js := scanJob <$> _). assert (existsb (λ j, String.eqb (JobID j) jobID) js =
    has_row (λ l, String.eqb l.1 (CampID c) && String.eqb l.2 jobID) (campaign_jobs (tables d))) as ->.
  { apply eq_true_iff_eq. unfold js. rewrite existsb_exists, has_row_true. setoid_rewrite <- list_elem_of_In. split.
    - intros (x & Hx & Ex%String.eqb_eq). apply list_elem_of_fmap in Hx as (y & -> & Hy). rewrite (order_desc_perm _ _) in Hy.
      apply elem_of_filter_bool in Hy as [_ (lk & Hlk & E)%has_row_true]. cbn in Ex. rewrite Ex in E. eauto.
    - intros (lk & Hlk & E). exists (scanJob j). split; [|by apply String.eqb_eq]. apply list_elem_of_fmap_2.
      rewrite (order_desc_perm _ _). apply elem_of_filter_bool. split; [done|]. apply has_row_true. exists lk. by rewrite Ej. }
  unfold where_, linked. cbn [List.filter]. destruct (_ && _); [done|]. apply IH.
Qed.

(** C22: a crash whose job and stack trace are there, on a healthy database.  The
    trace is stored; without a linked campaign the crash counts as unique; with
    one, a crash whose top frames have the hash of a group adds one to the count
    of that group and is linked to it, and a crash with another hash is an
    error instead of a new group. *)
Theorem process_crash_outcome (uuid : string) (current : Time) (crash : CrashResult) (st : StackTrace) (d : sql Tables)
    (Hd : healthy d) (Hst : parseStackTrace (StackText crash) = inl st)
    (Hjob : has_row (λ j, String.eqb (JobID j) (CrashJobID crash)) (jobs (tables d)) = true)
    (Hcrash : has_row (λ c, String.eqb (CrashID c) (CrashID crash)) (crashes (tables d)) = true) :
  let '(r, d') := ProcessCrash uuid current crash d in
  (∃ st', (CrashID crash, st') ∈ stack_traces (tables d')) ∧
  match where_ (linked (tables d) (CrashJobID crash)) (order_desc CampCreatedAt (campaigns (tables d))) with
  | [] => r = Ok (None, true) ∧ crash_groups (tables d') = crash_groups (tables d)
  | c :: _ =>
      match where_ (g_key (CampID c) (TopNHash st)) (crash_groups (tables d)) with
      | [] => (∃ e, r = Err (ErrWrap "failed to check existing crash group" e)) ∧ crash_groups (tables d') = crash_groups (tables d)
      | g :: _ => r = Ok (Some g, false) ∧ (CrashID crash, GID g) ∈ crash_groups_of (tables d') ∧
          crash_groups (tables d') =
            update_where (g_id (GID g)) (λ g, g <| GCount := wrap64 (GCount g + 1) |> <| LastSeen := current |>) (crash_groups (tables d))
      end
  end.
Proof using Hmax.
  unfold ProcessCrash. rewrite Hst. set (id := CrashID crash) in *.
  unfold CreateStackTrace. unfold io_bind at 1. rewrite ignore_statement by (done || (intros t w; by case_match)).
  set (t1 := match (if has_row _ _ then _ else _) with Ok t => t | _ => _ end).
  assert ((∃ st', (id, st') ∈ stack_traces t1) ∧ (jobs t1 = jobs (tables d) ∧ campaigns t1 = campaigns (tables d) ∧
    campaign_jobs t1 = campaign_jobs (tables d)) ∧ crash_groups t1 = crash_groups (tables d) ∧ crashes t1 = crashes (tables d)) as (Htr & (Hj & Hc & Hl) & Hg & Hcr).
  { unfold t1. destruct (has_row _ (stack_traces (tables d))) eqn:E; (split; [|done]).
    - apply has_row_true in E as ((i & st') & Hin & E%String.eqb_eq). simpl in E. subst i. eauto.
    - exists st. apply elem_of_app. right. by left. }
  clearbody t1. unfold GetJob. unfold io_bind at 1, or_wrap at 1. rewrite (read_row _ _ Hmax) by done. cbn [tables].
  rewrite Hj. destruct (first_row_found _ _ Hjob) as (j & -> & _ & Ej%String.eqb_eq).
  cbn [res_bind]. unfold ListCampaigns. unfold io_bind at 1, or_wrap at 1. erewrite (retry_query config random Hmax); [|done|reflexivity].
  unfold io_bind at 1. rewrite campaign_of_healthy; [|done|]. 2:{ cbn [tables]. rewrite Hj. change (JobID (_ <| CoverageFormat := _ |>)) with (JobID j). by rewrite Ej. }
  change (JobID ((scanJob j) <| EnableCoverage := EnableCoverage j |> <| CoverageFormat := CoverageFormat j |>)) with (JobID j).
  cbn [tables]. rewrite Ej, Hc.
  replace (linked t1) with (linked (tables d)) by (unfold linked; by rewrite Hl).
  change (0 <? 0) with false. change (String.eqb "" "") with true. cbn iota.
  destruct (where_ (linked _ _) _) as [|c rest] eqn:Ew; [by simpl|].
  assert (c ∈ where_ (linked (tables d) (CrashJobID crash)) (order_desc CampCreatedAt (campaigns (tables d)))) as Hin by (rewrite Ew; by left).
  apply elem_of_filter_bool in Hin as [_ [_ ->%negb_true_iff]%andb_prop].
  unfold UpdateCrashWithCampaign. unfold io_bind at 1. rewrite ignore_statement by (done || (intros t w; by case_match)). cbn [tables].
  rewrite Hcr, Hcrash. set (t2 := t1 <| crashes := _ |>).
  unfold GetCrashGroup. unfold io_bind at 1, attempt. rewrite (read_row _ _ Hmax) by done. cbn [tables].
  change (crash_groups t2) with (crash_groups t1). rewrite Hg.
  destruct (where_ (g_key _ _) _) as [|g grest] eqn:Eg; [by split_and!; [|eexists|]|]. cbn [first_row].
  assert (has_row (g_id (GID g)) (crash_groups t2) = true) as Hgid.
  { apply has_row_true. exists g. split; [|by apply String.eqb_refl]. change (crash_groups t2) with (crash_groups t1). rewrite Hg.
    assert (g ∈ where_ (g_key (CampID c) (TopNHash st)) (crash_groups (tables d))) as H by (rewrite Eg; by left).
    by apply elem_of_filter_bool in H as [H _]. }
  unfold UpdateCrashGroupCount. unfold io_bind at 1. rewrite ignore_statement by (done || (intros t w; by case_match)). cbn [tables]. rewrite Hgid.
  unfold LinkCrashToGroup. unfold io_bind at 1. rewrite ignore_statement by (done || (intros t w; by case_match)). cbn [tables].
  assert (has_row (λ c, String.eqb (CrashID c) id) (crashes t2) = true) as Hid.
  { apply has_row_true in Hcrash as (x & Hx & Ex). apply has_row_true. exists (x <| CrashCampaignID := CampID c |>). split; [|done].
    change (crashes t2) with (update_where (λ x, String.eqb (CrashID x) id) (λ x, x <| CrashCampaignID := CampID c |>) (crashes (tables d))).
    unfold update_where. apply list_elem_of_fmap. exists x. split; [by rewrite Ex|done]. }
  change (crashes (t2 <| crash_groups := _ |>)) with (crashes t2). rewrite Hid. unfold io_ret. cbn [tables].
  split_and!; [exact Htr|done|by left|]. change (crash_groups t2) with (crash_groups t1). by rewrite Hg.
Qed.

End dedup.

(** ** A concrete database *)

Definition plain_config : JobConfig := mkJobConfig Hour 0 0 "" [] "".
Definition job_1 : MJob :=
  mkMJob "j1" "j1" "/bin/t" "afl" "" JobStatusRunning None 1 None None 9 "" plain_config 0 None None false None 0 false "" None None None None.
Definition campaign_1 : Campaign := mkCampaign "c1" "fuzz" "" "running" "/bin/t" "" 0 0 None false 0 1 plain_config true [].
Definition crash_1 (trace : string) : CrashResult :=
  mkCrash "x1" "j1" "b1" "" "h" "" "segfault" 11 0 7 0 false [] "" "" trace false false None.
Definition crash_world (groups : list CrashGroup) (trace : string) : sql Tables :=
  mkSql (no_tables <| campaigns := [campaign_1] |> <| campaign_jobs := [("c1", "j1")] |> <| jobs := [job_1] |>
                   <| crashes := [crash_1 trace] |> <| crash_groups := groups |>) [].
Definition group_1 : CrashGroup := mkGroup "g1" "c1" "f@a.c" 3 3 1 "high" [] "x0".

Lemma no_group_is_created_witness :
  let '(r, d') := ProcessCrash id three_retries halves "u" 8 (crash_1 "f at a.c:3") (crash_world [] "f at a.c:3") in
  group_keys (tables d') = [] ∧ ∀ g, r ≠ Ok (Some g, true).
Proof. apply (no_group_is_created id three_retries halves ltac:(simpl; lia) "u" 8 (crash_1 "f at a.c:3") (crash_world [] "f at a.c:3")). Defined.

Lemma process_crash_outcome_witness :
  let '(r, d') := ProcessCrash id three_retries halves "u" 8 (crash_1 "f at a.c:3") (crash_world [group_1] "f at a.c:3") in
  r = Ok (Some group_1, false) ∧ crash_groups (tables d') = [group_1 <| GCount := 2 |> <| LastSeen := 8 |>].
Proof.
  pose proof (process_crash_outcome id three_retries halves ltac:(simpl; lia) "u" 8 (crash_1 "f at a.c:3")
    (mkTrace [mkFrame "f" "a.c" 3] "f@a.c" "f@a.c" "f at a.c:3") (crash_world [group_1] "f at a.c:3") eq_refl eq_refl eq_refl eq_refl) as H.
  destruct (ProcessCrash _ _ _ _ _ _ _) as [r d']. destruct H as [_ H].
  change (where_ (linked _ _) _) with [campaign_1] in H. cbn iota in H.
  change (where_ (g_key _ _) _) with [group_1] in H. destruct H as (H1 & _ & H2). split; [exact H1|exact H2].
Defined.

Lemma stack_hash_exact_witness :
  computeStackHash id [mkFrame "f" "a.c" 3; mkFrame "g" "b.c" 1] 1 = computeStackHash id [mkFrame "f" "a.c" 9] 1 ↔
  [("f", "a.c")] = [("f", "a.c")].
Proof.
  apply (stack_hash_exact id [mkFrame "f" "a.c" 3; mkFrame "g" "b.c" 1] [mkFrame "f" "a.c" 9] 1); [lia|done|simpl; lia|].
  intros f Hf. repeat (apply elem_of_cons in Hf as [->|Hf]; [done|]). by apply not_elem_of_nil in Hf.
Defined.
