(* ===== verification/CorpusService.v ===== *)
(** * The corpus service: src/pkg/service/corpus_service.go

    Files of a campaign's corpus, their contents, their evolution, sharing
    between campaigns and synchronisation with bots, over the SQL storage, a
    file storage behind its interface and the quarantine.  [clk] is the clock
    and [uuid] the source of fresh IDs, by the number of the reading; in a loop
    the readings of the [i]-th file are those of [clk i]. *)

From Stdlib Require Import Lia Strings.String Strings.Ascii.
From S2P Require Import Prelude StorageRetry Sql MasterTypes CrashTypes CampaignStore CorpusStore Paths FileBackend FileStorage CorpusQuarantine.

Definition NewStorageError (op : string) (err : goerror) : goerror := ErrPanda "storage" op err.

(** ** Pure parts *)

Definition prepared_file (uuid : string) (now : Time) (file : CorpusFile) : CorpusFile :=
  let file := if String.eqb (FileID file) "" then file <| FileID := "corpus-" +:+ uuid |> else file in
  if FileCreatedAt file =? zero_time then file <| FileCreatedAt := now |> else file.

(** Sums of int64 values. *)
Definition sum64 (f : CorpusFile → Z) (files : list CorpusFile) : Z := foldl (λ acc file, wrap64 (acc + f file)) 0 files.

(** The record of the corpus now, with what came after the last one. *)
Definition snapshot (campaignID : string) (now : Time) (last : option CorpusEvolution) (files : list CorpusFile) : CorpusEvolution :=
  let since := match last with
               | Some e => List.filter (λ file, EvTimestamp e <? FileCreatedAt file) files
               | None => files
               end in
  mkCorpusEvolution campaignID now (Z.of_nat (length files)) (sum64 Size files) (sum64 Coverage files)
    (Z.of_nat (length since)) (sum64 NewCoverage since).

Definition shared_file (uuid : string) (now : Time) (toCampaign : string) (file : CorpusFile) : CorpusFile :=
  mkCorpusFile ("corpus-" +:+ uuid) toCampaign (FileJobID file) (FileBotID file) (Filename file) (FileHash file) (Size file)
    (Coverage file) 0 (FileHash file) (wrap64 (Generation file + 1)) now None false.

(** [sortCorpusByCoverage]: whether the later file of two goes first. *)
Definition better (a b : CorpusFile) : bool :=
  (NewCoverage a <? NewCoverage b) || ((NewCoverage b =? NewCoverage a) && (Coverage a <? Coverage b)).
Definition sortCorpusByCoverage (files : list CorpusFile) : list CorpusFile := exchange_sort better files.

Section corpus.
Context {F : Type} `{!FileStorage F} (config : DatabaseConfig) (random : Z → float64) (scan_max : Time → res Time).
(** [CalculateFileHash]: SHA-256 in hexadecimal digits. *)
Context (CalculateFileHash : bytes → string).
Context (cq : CorpusQuarantine) (enableMetrics : bool).
Abbreviation World := (@World F).

(** ** Adding files *)

Definition trackEvolution (now : Time) (campaignID : string) : io World unit :=
  let* files := or_wrap "failed to get corpus files" (on_db (GetCorpusFiles config random campaignID)) in
  let* last := attempt (on_db (GetCorpusEvolution config random campaignID 1)) in
  let last := match last with inl (e :: _) => Some e | _ => None end in
  or_wrap "failed to record corpus evolution" (on_db (RecordCorpusEvolution config random (snapshot campaignID now last files))).

(** Is the file known to be in quarantine, and not reviewed? *)
Definition in_quarantine (fileID : string) : io World (option QuarantinedFile) :=
  let* quarantined := attempt (on_db (GetQuarantinedFile config random fileID)) in
  io_ret (match quarantined with inl q => if Resolution q is None then Some q else None | inr _ => None end).

Definition AddFile (uuid : string) (clk : nat → Time) (file : CorpusFile) : io World unit :=
  if String.eqb (FileCampaignID file) "" then io_err (ErrNew "campaign ID is required")
  else if String.eqb (Filename file) "" then io_err (ErrNew "filename is required")
  else
    let file := prepared_file uuid (clk 0%nat) file in
    let* quarantined := in_quarantine (FileID file) in
    match quarantined with
    | Some q => io_err (ErrNew ("file is quarantined: " +:+ Reason q))
    | None =>
        let* existing := attempt (on_db (GetCorpusFileByHash config random (FileHash file))) in
        if match existing with inl e => String.eqb (FileCampaignID e) (FileCampaignID file) | inr _ => false end
        then io_err ErrDuplicateCorpusFile
        else
          let* _ := or_wrap "failed to store corpus file metadata" (on_db (AddCorpusFile config random file)) in
          let* _ := if 0 <? NewCoverage file then ignore (trackEvolution (clk 1%nat) (FileCampaignID file)) else io_ret tt in
          if enableMetrics then
            ignore (UpdateMetrics config random (clk 2%nat) (clk 3%nat) (clk 4%nat) cq (FileID file)
              (λ m, m <| MFileID := FileID file |> <| LastExecuted := clk 5%nat |> <| MExecCount := 0 |>))
          else io_ret tt
    end.

(** ** Contents *)

(** [ctx] is the error of a context that is over. *)
Definition StoreFileContent (ctx : option goerror) (campaignID hash : string) (data : bytes) : io World unit :=
  match ctx with
  | Some err => io_err (ErrWrap "context cancelled" err)
  | None =>
      let* configured := io_get (λ w : World, if w.2 is Some _ then true else false) in
      if negb configured then io_err (NewStorageError "store_file_content" (ErrNew "file storage not configured"))
      else if String.eqb campaignID "" then io_err (NewValidationError "store_file_content" (ErrNew "campaign ID is required"))
      else if String.eqb hash "" then io_err (NewValidationError "store_file_content" (ErrNew "hash is required"))
      else if len data =? 0 then io_err (NewValidationError "store_file_content" (ErrNew "data is empty"))
      else
        let* saved := attempt (on_files (SaveFile (getCorpusFilePath campaignID hash) data)) in
        match saved with inl _ => io_ret tt | inr err => io_err (NewStorageError "store_file_content" err) end
  end.

Definition LoadCorpusFile (ctx : option goerror) (campaignID hash : string) : io World bytes :=
  match ctx with
  | Some err => io_err (ErrWrap "context cancelled" err)
  | None =>
      let* configured := io_get (λ w : World, if w.2 is Some _ then true else false) in
      if negb configured then io_err (NewStorageError "load_corpus_file" (ErrNew "file storage not configured"))
      else if String.eqb campaignID "" then io_err (NewValidationError "load_corpus_file" (ErrNew "campaign ID is required"))
      else if String.eqb hash "" then io_err (NewValidationError "load_corpus_file" (ErrNew "hash is required"))
      else
        let* data := attempt (on_files (ReadFile (getCorpusFilePath campaignID hash))) in
        match data with
        | inr err => io_err (NewStorageError "load_corpus_file" err)
        | inl data =>
            let actualHash := CalculateFileHash data in
            if negb (String.eqb actualHash hash)
            then io_err (NewValidationError "load_corpus_file"
                   (ErrNew ("corpus file hash mismatch: expected " +:+ hash +:+ ", got " +:+ actualHash)))
            else io_ret data
        end
  end.

(** ** Evolution, synchronisation, sharing *)

Definition GetEvolution (now : Time) (campaignID : string) : io World (list CorpusEvolution) :=
  let* evolution := or_wrap "failed to get corpus evolution" (on_db (GetCorpusEvolution config random campaignID 1000)) in
  match evolution with
  | [] =>
      let* _ := ignore (trackEvolution now campaignID) in
      on_db (GetCorpusEvolution config random campaignID 1)
  | _ => io_ret evolution
  end.

Fixpoint active_files (files : list CorpusFile) : io World (list CorpusFile) :=
  match files with
  | [] => io_ret []
  | file :: rest =>
      let* quarantined := in_quarantine (FileID file) in
      let* active := active_files rest in
      io_ret (if quarantined is None then file :: active else active)
  end.
Definition SyncCorpus (now : Time) (campaignID botID : string) : io World (list CorpusFile) :=
  let* files := or_wrap "failed to get unsynced corpus files" (on_db (GetUnsyncedCorpusFiles config random scan_max campaignID botID)) in
  match files with
  | [] => io_ret []
  | _ =>
      let* files := active_files files in
      let* _ := ignore (on_db (MarkCorpusFilesSynced config random now (FileID <$> files) botID)) in
      io_ret files
  end.

Definition findCoverageIncreasingFiles (campaignID : string) : io World (list CorpusFile) :=
  let* files := on_db (GetCorpusFiles config random campaignID) in
  io_ret (List.filter (λ file, 0 <? NewCoverage file) files).

(** The loop of [ShareCorpus]: no error ends it. *)
Fixpoint share_files (uuid : nat → string) (clk : nat → nat → Time) (toCampaign : string) (existingHashes : list string)
    (i : nat) (files : list CorpusFile) : io World unit :=
  match files with
  | [] => io_ret tt
  | file :: rest =>
      let* _ := if slice_has (FileHash file) existingHashes then io_ret tt
                else ignore (AddFile "" (clk i) (shared_file (uuid i) (clk i 6%nat) toCampaign file)) in
      share_files uuid clk toCampaign existingHashes (S i) rest
  end.
Definition ShareCorpus (uuid : nat → string) (clk : nat → nat → Time) (fromCampaign toCampaign : string) : io World unit :=
  let* _ := or_wrap "source campaign not found" (on_db (GetCampaign config random fromCampaign)) in
  let* _ := or_wrap "target campaign not found" (on_db (GetCampaign config random toCampaign)) in
  let* coverageFiles := or_wrap "failed to find coverage files" (findCoverageIncreasingFiles fromCampaign) in
  let* existingFiles := or_wrap "failed to get target campaign files" (on_db (GetCorpusFiles config random toCampaign)) in
  share_files uuid clk toCampaign (FileHash <$> existingFiles) 0 coverageFiles.

(** ** Seeds and orphans *)

(** A file that a walk over a directory finds: its path, what reading it gives,
    its size. *)
Record WalkedFile := mkWalked { WPath : string; WContent : bytes + goerror; WSize : Z }.

Definition seed_file (uuid : string) (now : Time) (campaignID : string) (w : WalkedFile) (content : bytes) : CorpusFile :=
  mkCorpusFile ("corpus-" +:+ uuid) campaignID "" "" (Base (WPath w)) (CalculateFileHash content) (WSize w) 0 0 "" 0 now None true.
Fixpoint import_seeds (uuid : nat → string) (clk : nat → nat → Time) (campaignID : string) (i : nat) (walk : list WalkedFile) : io World unit :=
  match walk with
  | [] => io_ret tt
  | w :: rest =>
      let* _ := match WContent w with
                | inr _ => io_ret tt
                | inl content => ignore (AddFile "" (clk i) (seed_file (uuid i) (clk i 6%nat) campaignID w content))
                end in
      import_seeds uuid clk campaignID (S i) rest
  end.
(** The walk gives its files, and at the end an error or not; [now] is the time
    of the snapshot. *)
Definition ImportSeedCorpus (uuid : nat → string) (clk : nat → nat → Time) (now : Time) (campaignID : string)
    (walk : list WalkedFile) (walk_error : option goerror) : io World unit :=
  let* _ := import_seeds uuid clk campaignID 0 walk in
  match walk_error with
  | Some err => io_err (ErrWrap "failed to walk seed directory" err)
  | None => ignore (trackEvolution now campaignID)
  end.

(** [walk] are the paths of the files below the directory of the campaign; the
    answer is the paths that are removed. *)
Definition CleanupOrphanedFiles (campaignID : string) (walk : list string) : io World (list string) :=
  let* configured := io_get (λ w : World, if w.2 is Some _ then true else false) in
  if negb configured then io_ret []
  else
    let* dbFiles := or_wrap "failed to get corpus files from database" (on_db (GetCorpusFiles config random campaignID)) in
    io_ret (List.filter (λ path, negb (slice_has (Base path) (FileHash <$> dbFiles))) walk).

(** ** Crashes and jobs *)

Definition NIL : string := "invalid memory address or nil pointer dereference".

(** The input of the crash, from the crash or from the file storage. *)
Definition crash_input (corpusDir : string) (crash : CrashResult) : io World bytes :=
  let* configured := io_get (λ w : World, if w.2 is Some _ then true else false) in
  match Input crash with
  | _ :: _ => io_ret (Input crash)
  | [] =>
      if configured && negb (String.eqb (FilePath crash) "")
      then or_wrap "failed to load crash input" (on_files (ReadFile (JoinPath [corpusDir; ".."; "crashes"; FilePath crash])))
      else io_err (ErrNew "crash input data not available")
  end.
Definition promoted_file (uuid : string) (now : Time) (campaignID name hash : string) (crash : CrashResult) (input : bytes) : CorpusFile :=
  mkCorpusFile ("corpus-" +:+ uuid) campaignID (CrashJobID crash) (CrashBotID crash) ("crash_" +:+ name) hash (len input) 0 0 "" 0 now None false.

(** The file that the caller gets, [None] for the nil pointer. *)
Definition PromoteCrashToCorpus (uuid : string) (clk : nat → Time) (corpusDir crashID campaignID : string) : io World (option CorpusFile) :=
  let* crash := or_wrap "failed to get crash" (on_db (GetCrash config random crashID)) in
  let* _ := or_wrap "failed to get campaign" (on_db (GetCampaign config random campaignID)) in
  match crash with
  | None => λ w, (Panic NIL, w)
  | Some crash =>
      let* input := crash_input corpusDir crash in
      let hash := CalculateFileHash input in
      let* existing := attempt (on_db (GetCorpusFileByHash config random hash)) in
      match match existing with inl e => if String.eqb (FileCampaignID e) campaignID then Some e else None | inr _ => None end with
      | Some e => io_ret (Some e)
      | None =>
          let* name := λ w, (substr (Hash crash) 0 8, w) in
          let corpusFile := promoted_file uuid (clk 6%nat) campaignID name hash crash input in
          let* _ := with_files (or_wrap "failed to store corpus file content" (on_files (SaveFile (getCorpusFilePath campaignID hash) input))) in
          let* added := attempt (AddFile "" clk corpusFile) in
          match added with
          | inr err =>
              if is_sentinel ErrDuplicateCorpusFile err then
                let* existing := attempt (on_db (GetCorpusFileByHash config random hash)) in
                io_ret (match existing with inl e => Some e | inr _ => None end)
              else io_err (ErrWrap "failed to add corpus file" err)
          | inl _ =>
              let* _ := if String.eqb (CrashCampaignID crash) "" then ignore (on_db (UpdateCrashWithCampaign config random crashID campaignID))
                        else io_ret tt in
              let* _ := ignore (trackEvolution (clk 7%nat) campaignID) in
              io_ret (Some corpusFile)
          end
      end
  end.

Definition GetCorpusForJob (jobID : string) : io World (list CorpusFile) :=
  let* job := or_wrap "failed to get job" (on_db (GetJob config random jobID)) in
  match CampaignID job with
  | None => io_ret []
  | Some campaignID =>
      if String.eqb campaignID "" then io_ret []
      else if negb (UseCampaignCorpus job) then io_ret []
      else
        let* campaignFiles := or_wrap "failed to get corpus files for campaign" (on_db (GetCorpusFiles config random campaignID)) in
        io_ret (sortCorpusByCoverage campaignFiles)
  end.

(** The files of a shared corpus are read for the log only. *)
Definition LinkJobCorpus (jobID campaignID : string) : io World unit :=
  let* _ := or_wrap "failed to get job" (on_db (GetJob config random jobID)) in
  let* campaign := or_wrap "failed to get campaign" (on_db (GetCampaign config random campaignID)) in
  let* _ := or_wrap "failed to link job to campaign" (on_db (LinkJobToCampaign config random campaignID jobID)) in
  if SharedCorpus campaign then ignore (on_db (GetCorpusFiles config random campaignID)) else io_ret tt.

(** ** Quarantine: the manager is always there *)

Definition QuarantineFile (now now' : Time) (fileID reason details : string) : io World unit :=
  let* file := or_wrap "failed to get corpus file" (on_db (GetCorpusFile config random fileID)) in
  CorpusQuarantine.QuarantineFile config random now now' file reason details "user".
Definition RestoreQuarantinedFile : Time → string → string → string → io World unit := RestoreFile config random.
Definition GetQuarantinedFiles (campaignID : string) : io World (list QuarantinedFile) :=
  on_db (CorpusStore.GetQuarantinedFiles config random campaignID).
Definition DeleteQuarantinedFile : Time → string → string → string → io World unit := CorpusQuarantine.DeleteQuarantinedFile config random.
Definition UpdateCorpusFileMetrics (now now' now'' : Time) (fileID : string) (update : CorpusFileMetrics → CorpusFileMetrics) : io World unit :=
  UpdateMetrics config random now now' now'' cq fileID update.

(** ** What the files of the corpus go through *)

Context (Hmax : 0 ≤ MaxRetries config).

Definition rows_are (rows : list CorpusFile) (w : World) : Prop := campaign_corpus_files (tables w.1) = rows.
Definition known (hash : string) (rows : list CorpusFile) : Prop := has_row (by_hash hash) rows = true.

Lemma keeps_write rows body : (∀ t t', campaign_corpus_files t = rows → body t = Ok t' → campaign_corpus_files t' = rows) →
  io_keeps (rows_are rows) (on_db (ExecuteWithRetry config random (λ _, None) (change body))).
Proof. intros H. apply (keeps_on_db (λ t, campaign_corpus_files t = rows)), WithRetry_keeps, keeps_change, H. Qed.
Lemma keeps_read {A} rows (body : Tables → res A) :
  io_keeps (rows_are rows) (on_db (ExecuteWithRetry config random (λ _, None) (query body))).
Proof. apply (keeps_on_db (λ t, campaign_corpus_files t = rows)), WithRetry_keeps, keeps_query. Qed.
Lemma keeps_read' {A} rows other (body : Tables → res A) :
  io_keeps (rows_are rows) (on_db (on_no_rows other (ExecuteWithRetry config random (λ _, None) (query body)))).
Proof. apply (keeps_on_db (λ t, campaign_corpus_files t = rows)), keeps_on_no_rows, WithRetry_keeps, keeps_query. Qed.

Lemma trackEvolution_keeps rows now campaignID : io_keeps (rows_are rows) (trackEvolution now campaignID).
Proof.
  apply keeps_bind; [apply keeps_or_wrap, keeps_read|intros files]. apply keeps_bind; [apply keeps_attempt, keeps_read|intros last].
  apply keeps_or_wrap, keeps_write. intros t t' Ht E. case_match; simplify_eq. done.
Qed.
Lemma quarantine_keeps rows now now' file reason details by_ :
  io_keeps (rows_are rows) (CorpusQuarantine.QuarantineFile config random now now' file reason details by_).
Proof.
  apply keeps_bind; [apply keeps_attempt, keeps_read'|]. intros [q|e]; [apply keeps_ret|]. apply keeps_bind.
  { apply keeps_or_wrap, keeps_write. intros t t' Ht E. unfold with_table in E. repeat case_match; simplify_eq. done. }
  intros _. apply keeps_bind; [apply (keeps_move (λ t, campaign_corpus_files t = rows))|intros _]. apply keeps_ignore, keeps_write.
  intros t t' _ E. unfold res_bind in E. repeat case_match; simplify_eq/=.
Qed.
Lemma UpdateMetrics_keeps rows now now' now'' fileID update :
  io_keeps (rows_are rows) (UpdateMetrics config random now now' now'' cq fileID update).
Proof.
  apply keeps_bind; [apply keeps_attempt, keeps_read'|intros m]. apply keeps_bind.
  { apply keeps_or_wrap, keeps_write. intros t t' Ht E. unfold with_table in E. repeat case_match; simplify_eq; done. }
  intros _. apply keeps_bind; [apply keeps_or_wrap, keeps_read'|intros file]. apply keeps_ignore. unfold EvaluateFile.
  destruct (first_verdict _ _ _) as [[reason details]|]; [apply quarantine_keeps|apply keeps_ret].
Qed.
Lemma in_quarantine_keeps rows fileID : io_keeps (rows_are rows) (in_quarantine fileID).
Proof. apply keeps_bind; [apply keeps_attempt, keeps_read'|intros q; apply keeps_ret]. Qed.

(** What follows the insertion of a file. *)
Lemma after_add_keeps rows clk file : io_keeps (rows_are rows)
  (let* _ := if 0 <? NewCoverage file then ignore (trackEvolution (clk 1%nat) (FileCampaignID file)) else io_ret tt in
   if enableMetrics then
     ignore (UpdateMetrics config random (clk 2%nat) (clk 3%nat) (clk 4%nat) cq (FileID file)
       (λ m, m <| MFileID := FileID file |> <| LastExecuted := clk 5%nat |> <| MExecCount := 0 |>))
   else io_ret tt).
Proof.
  apply keeps_bind; [destruct (0 <? _); [apply keeps_ignore, trackEvolution_keeps|apply keeps_ret]|intros _].
  destruct enableMetrics; [apply keeps_ignore, UpdateMetrics_keeps|apply keeps_ret].
Qed.

Lemma prepared_hash uuid now file : FileHash (prepared_file uuid now file) = FileHash file ∧
  FileCampaignID (prepared_file uuid now file) = FileCampaignID file ∧ NewCoverage (prepared_file uuid now file) = NewCoverage file.
Proof. unfold prepared_file. by repeat case_match. Qed.

(** A file whose contents are known is never added. *)
Lemma AddFile_known_keeps rows uuid clk file : known (FileHash file) rows → io_keeps (rows_are rows) (AddFile uuid clk file).
Proof.
  intros Hk. unfold AddFile. destruct (String.eqb (FileCampaignID file) ""); [apply keeps_err|].
  destruct (String.eqb (Filename file) ""); [apply keeps_err|]. destruct (prepared_hash uuid (clk 0%nat) file) as [Hh _].
  set (file' := prepared_file _ _ _) in *. apply keeps_bind; [apply in_quarantine_keeps|]. intros [q|]; [apply keeps_err|].
  apply keeps_bind; [apply keeps_attempt, keeps_read'|intros existing]. case_match; [apply keeps_err|].
  apply keeps_bind; [|intros _; apply after_add_keeps]. apply keeps_or_wrap, keeps_write. intros t t' Ht E. unfold insert_corpus_file in E.
  destruct (has_row (by_id _) _); [done|]. change (FileHash (file' <| SyncedAt := None |>)) with (FileHash file') in E.
  rewrite Ht, Hh, Hk in E. done.
Qed.

(** *** On a healthy database *)

Lemma on_db_healthy {A} (m : io (sql Tables) A) (d : sql Tables) (f : option F) r : m d = (r, d) → on_db m (d, f) = (r, (d, f)).
Proof. apply on_db_run. Qed.

Lemma in_quarantine_healthy fileID d (f : option F) : healthy d → ∃ q, in_quarantine fileID (d, f) = (Ok q, (d, f)).
Proof using Hmax.
  intros Hd. unfold in_quarantine, io_bind, attempt, GetQuarantinedFile.
  erewrite on_db_healthy by (by apply (read_row _ _ Hmax)). unfold with_table, first_row.
  destruct (quarantined_files (tables d)) as [rows|]; [destruct (where_ _ rows)|]; by eexists.
Qed.

(** The look-up by hash finds the row, or fails. *)
Lemma by_hash_healthy hash d (f : option F) : healthy d →
  attempt (on_db (GetCorpusFileByHash config random hash)) (d, f) =
    (Ok (match where_ (by_hash hash) (campaign_corpus_files (tables d)) with e :: _ => inl e | [] => inr (no_row config) end), (d, f)).
Proof using Hmax.
  intros Hd. unfold attempt, GetCorpusFileByHash. erewrite on_db_healthy by (by apply (read_row _ _ Hmax)).
  unfold first_row. by destruct (where_ _ _).
Qed.

Lemma AddFile_known_fails uuid clk file d (f : option F) : healthy d → known (FileHash file) (campaign_corpus_files (tables d)) →
  ∃ e, AddFile uuid clk file (d, f) = (Err e, (d, f)).
Proof using Hmax.
  intros Hd Hk. unfold AddFile. destruct (String.eqb (FileCampaignID file) ""); [by eexists|].
  destruct (String.eqb (Filename file) ""); [by eexists|]. destruct (prepared_hash uuid (clk 0%nat) file) as [Hh _].
  set (file' := prepared_file _ _ _) in *. destruct (in_quarantine_healthy (FileID file') d f Hd) as [q Hq].
  rewrite (bind_ok _ _ _ _ _ Hq). destruct q as [q|]; [by eexists|]. rewrite (bind_ok _ _ _ _ _ (by_hash_healthy _ d f Hd)).
  case_match; [by eexists|]. assert (∃ e, AddCorpusFile config random file' d = (Err e, d)) as [e He].
  { unfold AddCorpusFile, insert_corpus_file. change (FileHash (file' <| SyncedAt := None |>)) with (FileHash file').
    change (FileID (file' <| SyncedAt := None |>)) with (FileID file').
    destruct (has_row (by_id (FileID file')) (campaign_corpus_files (tables d))) eqn:Ei; eexists.
    - apply (retry_change_err config random Hmax); [done|]. by rewrite Ei.
    - apply (retry_change_err config random Hmax); [done|]. by rewrite Ei, Hh, Hk. }
  eexists. apply bind_err, or_wrap_err, on_db_run. exact He.
Qed.

(** ** Sharing *)

Definition shareable (fromCampaign : string) (rows : list CorpusFile) : list CorpusFile :=
  List.filter (λ file, 0 <? NewCoverage file) (order_desc FileCreatedAt (where_ (of_campaign fromCampaign) rows)).

Lemma shareable_known fromCampaign rows file : file ∈ shareable fromCampaign rows → known (FileHash file) rows.
Proof.
  intros [Hin _]%elem_of_filter_bool. rewrite (order_desc_perm _ _) in Hin. apply elem_of_filter_bool in Hin as [Hin _].
  apply has_row_true. exists file. split; [done|]. apply String.eqb_refl.
Qed.

Lemma share_files_keeps rows uuid clk toCampaign hashes i files : (∀ file, file ∈ files → known (FileHash file) rows) →
  io_keeps (rows_are rows) (share_files uuid clk toCampaign hashes i files).
Proof.
  revert i. induction files as [|file files IH]; intros i Hf; cbn [share_files]; [apply keeps_ret|].
  apply keeps_bind; [|intros _; apply IH; intros g Hg; apply Hf; by right].
  case_match; [apply keeps_ret|]. apply keeps_ignore, AddFile_known_keeps. apply (Hf file). by left.
Qed.
Lemma share_files_healthy uuid clk toCampaign hashes i files d (f : option F) : healthy d →
  (∀ file, file ∈ files → known (FileHash file) (campaign_corpus_files (tables d))) →
  share_files uuid clk toCampaign hashes i files (d, f) = (Ok tt, (d, f)).
Proof using Hmax.
  intros Hd. revert i. induction files as [|file files IH]; intros i Hf; cbn [share_files]; [done|].
  rewrite (bind_ok _ _ (d, f) tt (d, f)); [apply IH; intros g Hg; apply Hf; by right|].
  case_match; [done|]. unfold ignore.
  destruct (AddFile_known_fails "" (clk i) (shared_file (uuid i) (clk i 6%nat) toCampaign file) d f Hd) as [e ->]; [|done].
  apply (Hf file). by left.
Qed.

(** Nothing is ever shared.  Whatever the campaigns, the database and its
    faults, [ShareCorpus] leaves the files of the corpus of every campaign as
    they were, because a shared file would have the hash of the original; and
    on a healthy database with both campaigns it reports success all the same,
    without any effect. *)
Theorem nothing_is_shared (uuid : nat → string) (clk : nat → nat → Time) (fromCampaign toCampaign : string) (w : World) :
  let '(r, w') := ShareCorpus uuid clk fromCampaign toCampaign w in
  campaign_corpus_files (tables w'.1) = campaign_corpus_files (tables w.1) ∧
  (healthy w.1 → has_row (λ c, String.eqb (CampID c) fromCampaign) (campaigns (tables w.1)) = true →
   has_row (λ c, String.eqb (CampID c) toCampaign) (campaigns (tables w.1)) = true → r = Ok tt ∧ w' = w).
Proof using Hmax.
  destruct w as [d f]. set (rows := campaign_corpus_files (tables d)).
  assert (rows_are rows (ShareCorpus uuid clk fromCampaign toCampaign (d, f)).2) as Hk.
  { unfold ShareCorpus. set (Q := λ (_ : res unit) (w' : World), rows_are rows w').
    assert (∀ A (m : io World A) k w, io_keeps (rows_are rows) m → rows_are rows w → (∀ a w' r, m w = (r, w') → r = Ok a → rows_are rows w' → wp (k a) Q w') → wp (io_bind m k) Q w) as Hstep.
    { intros A m k w Hm Hw Hk. apply wp_bind. unfold wp. specialize (Hm w Hw). destruct (m w) as [[a|e|p] w'] eqn:E; simpl in *; [by eapply Hk|done..]. }
    apply Hstep; [apply keeps_or_wrap, keeps_read'|done|]. intros _ w1 _ _ _ H1.
    apply Hstep; [apply keeps_or_wrap, keeps_read'|done|]. intros _ w2 _ _ _ H2.
    apply Hstep; [apply keeps_or_wrap, keeps_bind; [apply keeps_read|intros; apply keeps_ret]|done|]. intros files w3 r E -> H3.
    apply Hstep; [apply keeps_or_wrap, keeps_read|done|]. intros existing w4 _ _ _ H4.
    apply share_files_keeps; [|done]. unfold or_wrap, findCoverageIncreasingFiles, io_bind, on_db, GetCorpusFiles in E.
    destruct (ExecuteWithRetry _ _ _ _ w2.1) as [[l|e|p] d'] eqn:El; [|done..]. apply read_ok in El as [[= <-] _]. injection E as <- _.
    intros file Hfile. apply (shareable_known fromCampaign). unfold rows_are in H2. by rewrite <- H2. }
  destruct (ShareCorpus uuid clk fromCampaign toCampaign (d, f)) as [r w'] eqn:E. split; [exact Hk|].
  intros Hd (c1 & E1 & _)%first_row_found (c2 & E2 & _)%first_row_found. cbn [fst] in Hd, E1, E2. unfold ShareCorpus in E.
  assert (∀ prefix id c, first_row (where_ (λ c, String.eqb (CampID c) id) (campaigns (tables d))) = Ok c →
    or_wrap prefix (on_db (GetCampaign config random id)) (d, f) = (Ok c, (d, f))) as Hc.
  { intros prefix id c Ec. unfold or_wrap, GetCampaign. erewrite on_db_healthy by (by apply (read_row _ _ Hmax)). by rewrite Ec. }
  assert (∀ id, on_db (GetCorpusFiles config random id) (d, f) = (Ok (order_desc FileCreatedAt (where_ (of_campaign id) rows)), (d, f))) as Hfiles.
  { intros id. apply on_db_healthy. by apply (retry_query config random Hmax). }
  rewrite (bind_ok _ _ _ _ _ (Hc _ _ _ E1)), (bind_ok _ _ _ _ _ (Hc _ _ _ E2)) in E.
  rewrite (bind_ok _ _ (d, f) (shareable fromCampaign rows) (d, f)) in E.
  2:{ unfold or_wrap, findCoverageIncreasingFiles. by rewrite (bind_ok _ _ _ _ _ (Hfiles _)). }
  rewrite (bind_ok _ _ (d, f) (order_desc FileCreatedAt (where_ (of_campaign toCampaign) rows)) (d, f)) in E by (unfold or_wrap; by rewrite Hfiles).
  rewrite share_files_healthy in E; [by injection E as <- <-|done|]. intros file. apply shareable_known.
Qed.

(** ** Synchronisation *)

Lemma active_files_all files d (f : option F) : healthy d → quarantine_wf (tables d) →
  (∀ file, file ∈ files → HasPrefix (FileID file) "quarantine-" = false) → active_files files (d, f) = (Ok files, (d, f)).
Proof using Hmax.
  intros Hd Hwf. induction files as [|file files IH]; intros Hids; cbn [active_files]; [done|].
  assert (in_quarantine (FileID file) (d, f) = (Ok None, (d, f))) as Hq.
  { unfold in_quarantine. destruct (look_up_fails config random Hmax d f (FileID file) Hwf Hd) as [e He]; [apply Hids; by left|].
    by rewrite (bind_ok _ _ _ _ _ He). }
  rewrite (bind_ok _ _ _ _ _ Hq), (bind_ok _ _ _ _ _ (IH (λ g Hg, Hids g (list_elem_of_further _ _ _ Hg)))). done.
Qed.

(** A bot gets the same files again and again.  On a healthy database in
    which no file is called like a copy, a synchronisation gives the files that
    are not synchronised with the bot, those in quarantine included, and
    changes nothing; so the next synchronisation gives the same files, however
    often it is repeated. *)
Theorem sync_repeats (campaignID botID : string) (last : option Time) (times : list Time) (w : World)
    (Hd : healthy w.1) (Hwf : quarantine_wf (tables w.1)) (Hno : no_copies botID (tables w.1))
    (Hids : ∀ file, file ∈ campaign_corpus_files (tables w.1) → HasPrefix (FileID file) "quarantine-" = false)
    (Hlast : last_sync scan_max campaignID botID (tables w.1) = Ok last) :
  let files := unsynced campaignID botID last (campaign_corpus_files (tables w.1)) in
  foldl (λ acc now, let '(results, w) := acc in let '(r, w') := SyncCorpus now campaignID botID w in (results ++ [r], w')) ([], w) times =
    ((λ _, Ok files) <$> times, w).
Proof using Hmax.
  intros files. destruct w as [d f]. cbn [fst] in *.
  assert (∀ file, file ∈ files → file ∈ campaign_corpus_files (tables d)) as Hin.
  { intros file Hfile. unfold files, unsynced, limit_ in Hfile.
    assert (file ∈ merge_sort best_first (where_ (λ f, of_campaign campaignID f && (0 <? NewCoverage f) &&
      (if last is Some time then time <? FileCreatedAt f else true) && negb (synced_to botID (campaign_corpus_files (tables d)) f))
      (campaign_corpus_files (tables d)))) as H.
    { rewrite <- (take_drop (Z.to_nat 100)). apply elem_of_app. by left. }
    rewrite (merge_sort_Permutation _ _) in H. by apply elem_of_filter_bool in H as [H _]. }
  assert (∀ now, SyncCorpus now campaignID botID (d, f) = (Ok files, (d, f))) as Hone.
  { intros now. unfold SyncCorpus. rewrite (bind_ok _ _ (d, f) files (d, f)).
    2:{ unfold or_wrap, on_db, GetUnsyncedCorpusFiles, on_no_rows, io_bind. cbn [fst snd]. rewrite query_healthy by done. rewrite Hlast.
        erewrite (retry_query config random Hmax); [|done|reflexivity]. done. }
    destruct files as [|g gs] eqn:Ef; [done|]. rewrite <- Ef in *.
    rewrite (bind_ok _ _ _ _ _ (active_files_all files d f Hd Hwf (λ g Hg, Hids g (Hin g Hg)))).
    destruct (sync_marks_nothing config random Hmax d now (FileID <$> files) botID Hno) as (_ & _ & Hm).
    destruct (Hm (FileID g) (FileID <$> gs)) as [c Hc]; [by rewrite Ef|done| |].
    - apply has_row_true. exists g. split; [apply Hin; rewrite Ef; by left|apply String.eqb_refl].
    - rewrite (bind_ok _ _ (d, f) tt (d, f)); [done|]. unfold ignore. by rewrite (on_db_run _ _ _ _ _ Hc). }
  assert (∀ l results, foldl (λ acc now, let '(results, w) := acc in let '(r, w') := SyncCorpus now campaignID botID w in (results ++ [r], w'))
    (results, (d, f)) l = (results ++ ((λ _, Ok files) <$> l), (d, f))) as H; [|apply (H times [])].
  induction l as [|now l IH]; intros results; cbn [foldl fmap list_fmap]; [by rewrite app_nil_r|]. rewrite Hone, IH. by rewrite <- app_assoc.
Qed.

(** ** Adding a file *)

(** C23: adding a file on a healthy database.  Its contents decide: with contents
    that the campaign has already the answer is the duplicate error, with those
    of another campaign the addition fails as well, and both leave everything
    as it was; a file with new contents and a new ID is added as the only new
    row, without a time of synchronisation, and no error is reported, whatever
    becomes of its evolution record and its metrics. *)
Theorem add_file_outcome (uuid : string) (clk : nat → Time) (file : CorpusFile) (w : World)
    (Hd : healthy w.1) (Hwf : quarantine_wf (tables w.1)) (Hc : FileCampaignID file ≠ "") (Hn : Filename file ≠ "")
    (Hid : HasPrefix (FileID (prepared_file uuid (clk 0%nat) file)) "quarantine-" = false) :
  let file' := prepared_file uuid (clk 0%nat) file in
  let rows := campaign_corpus_files (tables w.1) in
  let run := AddFile uuid clk file w in
  match where_ (by_hash (FileHash file)) rows with
  | e :: _ =>
      if String.eqb (FileCampaignID e) (FileCampaignID file) then run = (Err ErrDuplicateCorpusFile, w)
      else ∃ err, run = (Err (ErrWrap "failed to store corpus file metadata" err), w)
  | [] =>
      if has_row (by_id (FileID file')) rows then ∃ err, run = (Err (ErrWrap "failed to store corpus file metadata" err), w)
      else campaign_corpus_files (tables run.2.1) = rows ++ [file' <| SyncedAt := None |>] ∧ ∀ err, run.1 ≠ Err err
  end.
Proof using Hmax.
  intros file' rows run. destruct w as [d f]. cbn [fst snd] in *. unfold run, AddFile. fold file'.
  destruct (prepared_hash uuid (clk 0%nat) file) as (Hh & Hcamp & _). fold file' in Hh, Hcamp.
  apply String.eqb_neq in Hc as ->. apply String.eqb_neq in Hn as ->.
  assert (in_quarantine (FileID file') (d, f) = (Ok None, (d, f))) as Hq.
  { unfold in_quarantine. destruct (look_up_fails config random Hmax d f (FileID file') Hwf Hd Hid) as [e He].
    by rewrite (bind_ok _ _ _ _ _ He). }
  rewrite (bind_ok _ _ _ _ _ Hq), (bind_ok _ _ _ _ _ (by_hash_healthy _ d f Hd)), Hh, Hcamp. fold rows.
  set (add := AddCorpusFile config random file').
  assert (∀ e (k : unit → io World unit), add d = (Err e, d) → ∃ err, (let* x := or_wrap "failed to store corpus file metadata" (on_db add) in k x) (d, f) =
    (Err (ErrWrap "failed to store corpus file metadata" err), (d, f))) as Hfail.
  { intros e k E. eexists. by apply bind_err, or_wrap_err, on_db_run. }
  assert (insert_corpus_file (file' <| SyncedAt := None |>) (tables d) =
    (if has_row (by_id (FileID file')) rows then Err (constraint_primary "campaign_corpus_files.id")
     else if has_row (by_hash (FileHash file)) rows then Err (constraint_unique "campaign_corpus_files.hash")
     else Ok ((tables d) <| campaign_corpus_files := rows ++ [file' <| SyncedAt := None |>] |>))) as Hins by (rewrite <- Hh; done).
  assert (∀ e, insert_corpus_file (file' <| SyncedAt := None |>) (tables d) = Err e → ∃ e', add d = (Err e', d)) as Herr.
  { intros e E. eexists. by apply (retry_change_err config random Hmax). }
  destruct (where_ (by_hash (FileHash file)) rows) as [|e l] eqn:Ew.
  - assert (has_row (by_hash (FileHash file)) rows = false) as Hr.
    { apply not_true_iff_false. intros (a & Ha & _)%first_row_found. by rewrite Ew in Ha. }
    rewrite Hr in Hins. destruct (has_row (by_id (FileID file')) rows).
    { destruct (Herr _ Hins) as [e' He]. by eapply Hfail. }
    set (rows' := rows ++ [file' <| SyncedAt := None |>]) in *.
    rewrite (bind_ok _ _ (d, f) tt (mkSql ((tables d) <| campaign_corpus_files := rows' |>) [], f)).
    2:{ assert (add d = (Ok tt, mkSql ((tables d) <| campaign_corpus_files := rows' |>) [])) as E.
        { by apply (retry_change config random Hmax). }
        unfold or_wrap. by rewrite (on_db_run _ _ _ _ _ E). }
    pose proof (after_add_keeps rows' clk file' (mkSql ((tables d) <| campaign_corpus_files := rows' |>) [], f) eq_refl) as Hk.
    rewrite <- Hcamp. split; [exact Hk|]. unfold io_bind, io_ret, ignore. intros err.
    destruct (if 0 <? NewCoverage file' then _ else _) as [[[]|e|p] w1] eqn:E1; [|exfalso|done].
    + destruct enableMetrics; [|done]. by destruct (UpdateMetrics _ _ _ _ _ _ _ _ w1) as [[]].
    + destruct (0 <? NewCoverage file'); [|done]. by destruct (trackEvolution _ _ _) as [[]].
  - destruct (String.eqb (FileCampaignID e) (FileCampaignID file)); [done|].
    assert (has_row (by_hash (FileHash file)) rows = true) as Hr.
    { apply has_row_true. exists e. apply elem_of_filter_bool. unfold where_ in Ew. rewrite Ew. by left. }
    rewrite Hr in Hins. destruct (has_row (by_id (FileID file')) rows); destruct (Herr _ Hins) as [e' He]; by eapply Hfail.
Qed.

(** ** Contents, jobs, crashes *)

Lemma load_ok `{!FileStorageLaws F} campaignID hash (w w' : World) data : LoadCorpusFile None campaignID hash w = (Ok data, w') →
  CalculateFileHash data = hash ∧ ∃ f, w.2 = Some f ∧ stored f (getCorpusFilePath campaignID hash) = Some data.
Proof.
  destruct w as [d [f|]]; [|done]. unfold LoadCorpusFile, io_bind, io_get, attempt, on_files, io_err, io_ret. cbn.
  destruct (String.eqb campaignID ""); [done|]. destruct (String.eqb hash ""); [done|].
  cbn. destruct (ReadFile _ f) as [[b|e|p] f'] eqn:Er; cbn; [|done..].
  pose proof (wp_elim _ _ _ _ _ (read_law _ _) Er) as Hr. destruct Hr as [[(b' & [= <-] & Hs)|[e [=]]] _].
  destruct (String.eqb_spec (CalculateFileHash b) hash) as [Hh|]; [|done]. intros [= <- _]. eauto.
Qed.
Lemma store_ok `{!FileStorageLaws F} campaignID hash data (w w' : World) r f :
  StoreFileContent None campaignID hash data w = (r, w') → w.2 = Some f →
  ∃ f', w'.2 = Some f' ∧ (r = Ok tt → stored f' (getCorpusFilePath campaignID hash) = Some data) ∧
    ∀ q, apart f (getCorpusFilePath campaignID hash) q → stored f' q = stored f q.
Proof.
  destruct w as [d o]. intros E [= ->]. unfold StoreFileContent, io_bind, io_get, attempt, on_files, io_err, io_ret in E. cbn in E.
  destruct (String.eqb campaignID ""); [injection E as <- <-; exists f; by split_and!|].
  destruct (String.eqb hash ""); [injection E as <- <-; exists f; by split_and!|].
  destruct (len data =? 0); [injection E as <- <-; exists f; by split_and!|].
  cbn in E. destruct (SaveFile _ data f) as [[[]|e|p] f'] eqn:Es; cbn in E; injection E as <- <-; exists f';
    pose proof (wp_elim _ _ _ _ _ (save_law _ _ _) Es) as Hs.
  - destruct Hs as [[[_ Hs]|[e [=]]] Hq]. by split_and!.
  - destruct Hs as [_ Hq]. by split_and!.
  - destruct Hs as [_ Hq]. by split_and!.
Qed.

(** Contents survive.  With a file storage that keeps its interface, and any
    faults: when storing contents under their hash succeeds, loading them
    gives an error or exactly these contents, also after other contents of
    paths apart from theirs were stored; and contents that load have the hash
    they were asked by. *)
Theorem content_round_trip `{!FileStorageLaws F} (campaignID hash : string) (data : bytes) (others : list (string * string * bytes)) (w : World)
    (Hothers : ∀ f c h b, (c, h, b) ∈ others → apart f (getCorpusFilePath c h) (getCorpusFilePath campaignID hash)) :
  let '(r, w1) := StoreFileContent None campaignID hash data w in
  let w2 := foldl (λ w o, (StoreFileContent None o.1.1 o.1.2 o.2 w).2) w1 others in
  let '(r', w3) := LoadCorpusFile None campaignID hash w2 in
  (r = Ok tt → ∀ data', r' = Ok data' → data' = data) ∧ (∀ data', r' = Ok data' → CalculateFileHash data' = hash).
Proof.
  destruct (StoreFileContent None campaignID hash data w) as [r w1] eqn:E1. intros w2.
  destruct (LoadCorpusFile None campaignID hash w2) as [r' w3] eqn:E3. split; [|by intros data' ->; by apply load_ok in E3 as [H _]].
  intros -> data' ->. apply load_ok in E3 as (_ & f2 & Hw2 & Hs2). set (path := getCorpusFilePath campaignID hash) in *.
  assert (∃ f1, w1.2 = Some f1 ∧ stored f1 path = Some data) as (f1 & Hw1 & Hs1).
  { destruct (w.2) as [f|] eqn:Ew; [|unfold StoreFileContent, io_bind, io_get in E1; by rewrite Ew in E1].
    destruct (store_ok _ _ _ _ _ _ _ E1 Ew) as (f' & H1 & H2 & _). eauto. }
  assert (∃ f, w2.2 = Some f ∧ stored f path = Some data) as (f & Hw & Hs); [|congruence].
  unfold w2. clear w2 Hw2 Hs2 E1. revert w1 f1 Hw1 Hs1. induction others as [|[[c h] b] others IH]; intros w1 f1 Hw1 Hs1; cbn [foldl]; [eauto|].
  destruct (StoreFileContent None c h b w1) as [r1 w2] eqn:E. destruct (store_ok _ _ _ _ _ _ _ E Hw1) as (f' & Hw2 & _ & Hq).
  cbn [fst snd]. rewrite E. apply (IH (λ f c h b H, Hothers f c h b (list_elem_of_further _ _ _ H)) w2 f'); [done|]. rewrite Hq; [done|].
  eapply Hothers. by left.
Qed.

(** Jobs never get the corpus of their campaign.  Whatever the database and
    its faults, the corpus for a job is empty or an error: the storage does not
    read the campaign of a job. *)
Theorem job_corpus_is_empty (jobID : string) (w : World) (file : CorpusFile) (files : list CorpusFile) :
  (GetCorpusForJob jobID w).1 ≠ Ok (file :: files).
Proof using Hmax.
  unfold GetCorpusForJob, io_bind, or_wrap, on_db, GetJob. rewrite (on_no_rows_retry _ _ Hmax).
  destruct (ExecuteWithRetry _ _ _ _ w.1) as [[j|e|p] d] eqn:E; [|done..]. apply read_ok in E as [E _].
  destruct (first_row _) as [j'|e|p]; [|done..]. cbn [res_bind] in E. injection E as <-. done.
Qed.

Lemma GetCrash_healthy crashID (d : sql Tables) : healthy d → GetCrash config random crashID d =
  (Ok (match head (where_ (λ c, String.eqb (CrashID c) crashID) (crashes (tables d))) with
       | None => None
       | Some c => Some (match snd <$> head (where_ (λ r, String.eqb r.1 (CrashID c)) (crash_inputs (tables d))) with
                         | Some b => (scanCrash c) <| Input := b |> | None => scanCrash c end)
       end), d).
Proof using Hmax.
  intros Hd. unfold GetCrash. apply execute_ok; [done|]. unfold io_bind at 1. rewrite query_healthy by done.
  destruct (head _) as [c|]; [|done]. unfold io_bind, attempt, GetCrashInput.
  erewrite (retry_query config random Hmax); [|done|reflexivity]. done.
Qed.

(** A promotion that panics.  On a healthy database with the campaign,
    promoting a crash that is not there ends in a run-time panic, and so does
    the promotion of a crash whose hash has less than eight characters, when its
    input is stored and new to the corpus; nothing has changed by then. *)
Theorem promotion_panics (uuid : string) (clk : nat → Time) (corpusDir crashID campaignID : string) (w : World)
    (Hd : healthy w.1) (Hcamp : has_row (λ c, String.eqb (CampID c) campaignID) (campaigns (tables w.1)) = true) :
  match head (where_ (λ c, String.eqb (CrashID c) crashID) (crashes (tables w.1))) with
  | None => PromoteCrashToCorpus uuid clk corpusDir crashID campaignID w = (Panic NIL, w)
  | Some c =>
      ∀ b input, head (where_ (λ r, String.eqb r.1 (CrashID c)) (crash_inputs (tables w.1))) = Some (CrashID c, b :: input) →
        has_row (by_hash (CalculateFileHash (b :: input))) (campaign_corpus_files (tables w.1)) = false → (String.length (Hash c) < 8)%nat →
        ∃ msg, PromoteCrashToCorpus uuid clk corpusDir crashID campaignID w = (Panic msg, w)
  end.
Proof using Hmax.
  destruct w as [d f]. cbn [fst] in *. apply first_row_found in Hcamp as (camp & Ec & _). unfold PromoteCrashToCorpus.
  assert (∀ prefix, or_wrap prefix (on_db (GetCampaign config random campaignID)) (d, f) = (Ok camp, (d, f))) as Hc.
  { intros prefix. unfold or_wrap, GetCampaign. erewrite on_db_healthy by (by apply (read_row _ _ Hmax)). by rewrite Ec. }
  pose proof (on_db_healthy _ d f _ (GetCrash_healthy crashID d Hd)) as Hcr.
  assert (∀ prefix, or_wrap prefix (on_db (GetCrash config random crashID)) (d, f) = on_db (GetCrash config random crashID) (d, f)) as Hw.
  { intros prefix. unfold or_wrap. by rewrite Hcr. }
  rewrite Hcr in Hw. destruct (head (where_ _ (crashes (tables d)))) as [c|].
  - intros b input Hin Hnew Hlen. rewrite Hin in Hw. cbn [fmap option_fmap option_map snd] in Hw.
    rewrite (bind_ok _ _ _ _ _ (Hw _)), (bind_ok _ _ _ _ _ (Hc _)).
    rewrite (bind_ok _ _ (d, f) (b :: input) (d, f)) by done. rewrite (bind_ok _ _ _ _ _ (by_hash_healthy _ d f Hd)).
    apply where_nil in Hnew as ->. cbn iota.
    assert (substr (Hash ((scanCrash c) <| Input := b :: input |>)) 0 8 = Panic (match substr (Hash c) 0 8 with Panic m => m | _ => "" end)) as Hs.
    { change (Hash ((scanCrash c) <| Input := b :: input |>)) with (Hash c). unfold substr.
      destruct (Z.leb_spec 8 (Z.of_nat (String.length (Hash c)))); [lia|]. done. }
    eexists. unfold io_bind at 1. rewrite Hs. done.
  - by rewrite (bind_ok _ _ _ _ _ (Hw _)), (bind_ok _ _ _ _ _ (Hc _)).
Qed.

(** ** Evolution and order *)

(** The record of the evolution.  Tracking on a healthy database adds one
    record of the time of the tracking, unless there is one: it counts the
    files of the campaign and, since the latest record, the new ones. *)
Theorem evolution_tracked (now : Time) (campaignID : string) (w : World) (Hd : healthy w.1) :
  let files := order_desc FileCreatedAt (where_ (of_campaign campaignID) (campaign_corpus_files (tables w.1))) in
  let last := head (order_desc EvTimestamp (where_ (λ e, String.eqb (EvCampaignID e) campaignID) (corpus_evolution (tables w.1)))) in
  let '(r, w') := trackEvolution now campaignID w in
  if has_row (λ e, String.eqb (EvCampaignID e) campaignID && (EvTimestamp e =? now)) (corpus_evolution (tables w.1))
  then (∃ e, r = Err e) ∧ w' = w
  else r = Ok tt ∧ w'.2 = w.2 ∧ corpus_evolution (tables w'.1) = corpus_evolution (tables w.1) ++ [snapshot campaignID now last files].
Proof using Hmax.
  destruct w as [d f]. intros files last. cbn [fst] in Hd.
  assert (on_db (GetCorpusFiles config random campaignID) (d, f) = (Ok files, (d, f))) as E1.
  { apply on_db_healthy. by apply (retry_query config random Hmax). }
  assert (attempt (on_db (GetCorpusEvolution config random campaignID 1)) (d, f) = (Ok (inl (match last with Some e => [e] | None => [] end)), (d, f))) as E2.
  { unfold attempt, GetCorpusEvolution. erewrite on_db_healthy by (by apply (retry_query config random Hmax)). unfold last, limit_.
    cbn [fst]. change (0 <? 1) with true. cbn iota. destruct (order_desc EvTimestamp _) as [|e0 l0]; reflexivity. }
  unfold trackEvolution. rewrite (bind_ok _ _ (d, f) files (d, f)) by (unfold or_wrap; by rewrite E1). rewrite (bind_ok _ _ _ _ _ E2).
  set (record := snapshot campaignID now _ files). assert (record = snapshot campaignID now last files) as -> by (by destruct last).
  set (has := has_row _ _). unfold or_wrap. destruct has eqn:Eh.
  - assert (RecordCorpusEvolution config random (snapshot campaignID now last files) d = (Err (exhausted (retry_options config)
      (constraint_primary "corpus_evolution.campaign_id, corpus_evolution.timestamp")), d)) as E.
    { apply (retry_change_err config random Hmax); [done|]. unfold has in Eh. cbn [fst] in Eh. cbn [EvCampaignID EvTimestamp snapshot]. by rewrite Eh. }
    rewrite (on_db_run _ _ _ _ _ E). eauto.
  - assert (RecordCorpusEvolution config random (snapshot campaignID now last files) d = (Ok tt,
      mkSql ((tables d) <| corpus_evolution := corpus_evolution (tables d) ++ [snapshot campaignID now last files] |>) [])) as E.
    { apply (retry_change config random Hmax); [done|]. unfold has in Eh. cbn [fst] in Eh. cbn [EvCampaignID EvTimestamp snapshot]. by rewrite Eh. }
    rewrite (on_db_run _ _ _ _ _ E). done.
Qed.
End corpus.

(** The exchange sort puts the files with the most new coverage first, and among
    these the ones with the most coverage. *)
Lemma sort_by_coverage files :
  sortCorpusByCoverage files ≡ₚ files ∧
  StronglySorted (λ a b, NewCoverage b < NewCoverage a ∨ (NewCoverage a = NewCoverage b ∧ Coverage b ≤ Coverage a)) (sortCorpusByCoverage files).
Proof.
  assert (∀ a b, better a b = false ↔ NewCoverage b < NewCoverage a ∨ (NewCoverage a = NewCoverage b ∧ Coverage b ≤ Coverage a)) as Hb.
  { intros a b. unfold better. rewrite orb_false_iff, andb_false_iff, Z.ltb_ge, Z.eqb_neq, Z.ltb_ge. lia. }
  destruct (exchange_sort_sorted better) with (l := files) as [H1 H2].
  - intros a b H. apply Hb. unfold better in H. apply orb_true_iff in H as [H%Z.ltb_lt|[H1%Z.eqb_eq H2%Z.ltb_lt]%andb_prop]; lia.
  - intros a b c. rewrite !Hb. lia.
  - split; [exact H1|]. unfold sortCorpusByCoverage. clear H1. induction H2 as [|a l Hl IH Ha]; constructor; [done|].
    eapply Forall_impl; [exact Ha|]. intros b. apply Hb.
Qed.

(** ** Concrete worlds *)

Definition times (i : nat) : Time := 100 + Z.of_nat i.
Definition two_campaigns (t : Tables) : Tables :=
  t <| campaigns := [mkCampaign "c1" "a" "" "running" "/b" "" 0 0 None false 0 1 (mkJobConfig 0 0 0 "" [] "") true [];
                     mkCampaign "c2" "b" "" "running" "/b" "" 0 0 None false 0 1 (mkJobConfig 0 0 0 "" [] "") true []] |>.
Definition corpus_world : @World Disk := (mkSql (two_campaigns (tables one_file)) [], None).
Definition quarantine_rules : CorpusQuarantine := NewCorpusQuarantine (λ _, "").
Definition hash_of (b : bytes) : string := string_of_list_byte b.
#[local] Instance disk_storage : FileStorage Disk := local_storage "/s".

Lemma nothing_is_shared_witness :
  ShareCorpus three_retries halves quarantine_rules true (λ _, "u") (λ _, times) "c1" "c2" corpus_world = (Ok tt, corpus_world).
Proof.
  pose proof (nothing_is_shared three_retries halves quarantine_rules true ltac:(simpl; lia)
    (λ _, "u") (λ _, times) "c1" "c2" corpus_world) as H.
  destruct (ShareCorpus _ _ _ _ _ _ _ _ _) as [r w']. destruct H as [_ H]. destruct H as [-> ->]; [done|by vm_compute..|done].
Defined.

Lemma sync_repeats_witness :
  let files := unsynced "c1" "b2" None (campaign_corpus_files (tables corpus_world.1)) in
  files = [a_file "f1" "c1" "aa11" 3] ∧
  foldl (λ acc now, let '(results, w) := acc in
      let '(r, w') := SyncCorpus three_retries halves Ok now "c1" "b2" w in (results ++ [r], w')) ([], corpus_world) [7; 8; 9] =
    ([Ok files; Ok files; Ok files], corpus_world).
Proof.
  split; [by vm_compute|].
  apply (sync_repeats three_retries halves Ok ltac:(simpl; lia) "c1" "b2" None [7; 8; 9] corpus_world).
  - done.
  - intros rows q [=].
  - intros f g ->%list_elem_of_singleton ->%list_elem_of_singleton. by vm_compute.
  - intros f ->%list_elem_of_singleton. by vm_compute.
  - by vm_compute.
Defined.

Lemma add_file_outcome_witness :
  let file := a_file "f2" "c1" "bb22" 4 in
  let run := AddFile three_retries halves quarantine_rules true "u" times file corpus_world in
  campaign_corpus_files (tables run.2.1) = [a_file "f1" "c1" "aa11" 3; file] ∧ ∀ err, run.1 ≠ Err err.
Proof.
  apply (add_file_outcome three_retries halves quarantine_rules true ltac:(simpl; lia) "u" times
    (a_file "f2" "c1" "bb22" 4) corpus_world); done.
Defined.

Lemma content_round_trip_witness :
  let '(r, w1) := StoreFileContent None "c1" "health-check" testData (corpus_world.1, Some (mkDisk ∅ [])) in
  let '(r', w3) := LoadCorpusFile hash_of None "c1" "health-check" w1 in
  (r = Ok tt → ∀ data', r' = Ok data' → data' = testData) ∧ (∀ data', r' = Ok data' → hash_of data' = "health-check").
Proof.
  pose proof (local_storage_laws "/s" : FileStorageLaws Disk) as Hlaws.
  apply (content_round_trip hash_of "c1" "health-check" testData [] (corpus_world.1, Some (mkDisk ∅ []))).
  intros f c h b H. by apply not_elem_of_nil in H.
Defined.

Lemma promotion_panics_witness :
  PromoteCrashToCorpus three_retries halves hash_of quarantine_rules true "u" times "/s" "x9" "c1" corpus_world =
    (Panic NIL, corpus_world).
Proof.
  apply (promotion_panics three_retries halves hash_of quarantine_rules true ltac:(simpl; lia) "u" times "/s" "x9" "c1" corpus_world);
    [done|by vm_compute].
Defined.

Lemma job_corpus_is_empty_witness : (GetCorpusForJob three_retries halves "j1" corpus_world).1 ≠ Ok [a_file "f1" "c1" "aa11" 3].
Proof. apply (job_corpus_is_empty three_retries halves ltac:(simpl; lia)). Defined.

Lemma evolution_tracked_witness :
  let '(r, w') := trackEvolution (F := Disk) three_retries halves 50 "c1" corpus_world in
  r = Ok tt ∧ w'.2 = corpus_world.2 ∧ corpus_evolution (tables w'.1) = [mkCorpusEvolution "c1" 50 1 10 100 1 3].
Proof. apply (evolution_tracked three_retries halves ltac:(simpl; lia) 50 "c1" corpus_world). done. Defined.
