(* ===== verification/CorpusSync.v ===== *)
(** * Corpus synchronisation of a bot: src/pkg/bot/corpus_sync.go

    A client downloads the corpus of its campaign into a directory, and uploads
    what it finds: every report starts a goroutine that takes the pending files
    and sends them one by one.  The replies of the master are arguments.  The
    operations are calls over the state of the client; [step] interleaves the
    reports, the goroutines and the downloads. *)

From Stdlib Require Import Lia Strings.String Strings.Ascii.
From S2P Require Import Prelude Regex MasterTypes CrashTypes CorpusStore Paths FileBackend.

(** What happened, the latest last. *)
Inductive event :=
  | Reported (file : CorpusFile)
  | Uploaded (file : CorpusFile)
  | Downloaded (hash path : string) (content : bytes).

(** [uploads] are the goroutines of [uploadPendingFiles]: [None] has not taken
    the pending files yet, [Some l] has [l] left to send. *)
Record CorpusSyncClient := mkSync {
  disk : Disk; syncedFiles : gset string; pendingFiles : list CorpusFile; lastSync : Time;
  uploads : list (option (list CorpusFile)); log : list event }.
#[export] Instance CorpusSyncClient_eta : Eta CorpusSyncClient := fun c =>
  mkSync (disk c) (syncedFiles c) (pendingFiles c) (lastSync c) (uploads c) (log c).

(** An HTTP exchange: an error of the transport, or the status and what can be
    read of the body before it ends or breaks off. *)
Definition reply : Type := (Z * (bytes * option goerror)) + goerror.

Definition body_text (body : bytes * option goerror) : string := string_of_list_byte body.1.

Definition StatusOK : Z := 200.
Definition StatusCreated : Z := 201.
Definition StatusNotFound : Z := 404.

Set Default Proof Using "Type".
Section sync.
Context (calculateFileHash : bytes → string) (syncDir : string).
(** The list of files in the body of a JSON answer, and the status line of an
    answer. *)
Context (decode : bytes → list CorpusFile + goerror) (status_line : Z → string).

Definition on_disk {A} (m : io Disk A) : io CorpusSyncClient A := λ c, let '(r, d) := m (disk c) in (r, c <| disk := d |>).
Definition mark (hash : string) : io CorpusSyncClient unit := io_set (λ c, c <| syncedFiles := {[hash]} ∪ syncedFiles c |>).
Definition note (e : event) : io CorpusSyncClient unit := io_set (λ c, c <| log := log c ++ [e] |>).

(** The body of an answer with status 200. *)
Definition fetched (answer : reply) : bytes + goerror :=
  match answer with
  | inr err => inr (ErrWrap "failed to download file" err)
  | inl (status, body) =>
      if negb (status =? StatusOK) then inr (ErrNew ("download failed with status " +:+ pretty status))
      else match body.2 with None => inl body.1 | Some err => inr (ErrWrap "failed to read file content" err) end
  end.

(** ** Downloads *)

Definition downloadCorpusFile (answer : reply) (file : CorpusFile) : io CorpusSyncClient unit :=
  let* synced := io_get syncedFiles in
  if bool_decide (FileHash file ∈ synced) then io_ret tt
  else
    match fetched answer with
    | inr err => io_err err
    | inl content =>
        let filePath := JoinPath [syncDir; Filename file] in
        let* _ := or_wrap "failed to save file" (on_disk (WriteFile filePath content)) in
        note (Downloaded (FileHash file) filePath content)
    end.

(** The body of the loop: an error is only logged. *)
Definition download_one (answer : reply) (file : CorpusFile) : io CorpusSyncClient unit :=
  let* r := attempt (downloadCorpusFile answer file) in
  match r with inr _ => io_ret tt | inl _ => mark (FileHash file) end.
Fixpoint download_all (serve : CorpusFile → reply) (files : list CorpusFile) : io CorpusSyncClient unit :=
  match files with
  | [] => io_ret tt
  | file :: rest => let* _ := download_one (serve file) file in download_all serve rest
  end.

(** The files in an answer, whose body may break off. *)
Definition decoded (what : string) (body : bytes * option goerror) : list CorpusFile + goerror :=
  match body.2 with
  | Some err => inr (ErrWrap what err)
  | None => match decode body.1 with inl files => inl files | inr err => inr (ErrWrap what err) end
  end.
Definition downloadNewFiles (answer : reply) (serve : CorpusFile → reply) (now : Time) : io CorpusSyncClient unit :=
  match answer with
  | inr err => io_err (ErrWrap "failed to sync corpus" err)
  | inl (status, body) =>
      if negb (status =? StatusOK) then io_err (ErrNew ("sync failed with status " +:+ pretty status +:+ ": " +:+ body_text body))
      else
        match decoded "failed to decode sync response" body with
        | inr err => io_err err
        | inl files =>
            let* _ := download_all serve files in
            io_set (λ c, c <| lastSync := now |>)
        end
  end.

(** ** Uploads *)

Definition reportNewCoverage (campaignID botID filename : string) (coverage : Z) (now : Time) : io CorpusSyncClient unit :=
  let* content := or_wrap "failed to read file" (on_disk (ReadDisk (JoinPath [syncDir; filename]))) in
  let hash := calculateFileHash content in
  let* synced := io_get syncedFiles in
  if bool_decide (hash ∈ synced) then io_ret tt
  else
    let file := mkCorpusFile "" campaignID "" botID filename hash (len content) coverage coverage "" 0 now None false in
    let* _ := io_set (λ c, c <| pendingFiles := pendingFiles c ++ [file] |>) in
    let* _ := note (Reported file) in
    io_set (λ c, c <| uploads := uploads c ++ [None] |>).

Definition uploadCorpusFile (answer : reply) : option goerror :=
  match answer with
  | inr err => Some (ErrWrap "failed to upload corpus file" err)
  | inl (status, body) =>
      if negb (status =? StatusOK) && negb (status =? StatusCreated)
      then Some (ErrNew ("upload failed with status " +:+ pretty status +:+ ": " +:+ body_text body))
      else None
  end.

(** The two critical sections of [uploadPendingFiles], of goroutine [i]. *)
Definition take_pending (i : nat) (c : CorpusSyncClient) : option CorpusSyncClient :=
  match uploads c !! i with
  | Some None => Some (c <| uploads := <[i := Some (pendingFiles c)]> (uploads c) |> <| pendingFiles := [] |>)
  | _ => None
  end.
Definition upload_next (i : nat) (answer : reply) (c : CorpusSyncClient) : option CorpusSyncClient :=
  match uploads c !! i with
  | Some (Some (file :: rest)) =>
      let c := c <| uploads := <[i := Some rest]> (uploads c) |> in
      Some (match uploadCorpusFile answer with
            | Some _ => c <| pendingFiles := pendingFiles c ++ [file] |>
            | None => c <| syncedFiles := {[FileHash file]} ∪ syncedFiles c |> <| log := log c ++ [Uploaded file] |>
            end)
  | _ => None
  end.

Definition GetSyncedCount (c : CorpusSyncClient) : Z := Z.of_nat (size (syncedFiles c)).
Definition GetPendingCount (c : CorpusSyncClient) : Z := Z.of_nat (length (pendingFiles c)).
Definition GetLastSyncTime (c : CorpusSyncClient) : Time := lastSync c.

(** ** Interleavings *)

Inductive label :=
  | LReport (campaignID botID filename : string) (coverage : Z) (now : Time)
  | LTake (i : nat)
  | LUpload (i : nat) (answer : reply)
  | LDownload (answer : reply) (file : CorpusFile)
  | LSynced (now : Time).

Definition step (l : label) (c : CorpusSyncClient) : option CorpusSyncClient :=
  match l with
  | LReport campaignID botID filename coverage now => Some (reportNewCoverage campaignID botID filename coverage now c).2
  | LTake i => take_pending i c
  | LUpload i answer => upload_next i answer c
  | LDownload answer file => Some (download_one answer file c).2
  | LSynced now => Some (c <| lastSync := now |>)
  end.
Fixpoint run (ls : list label) (c : CorpusSyncClient) : option CorpusSyncClient :=
  match ls with
  | [] => Some c
  | l :: ls => match step l c with Some c' => run ls c' | None => None end
  end.

Definition NewCorpusSyncClient (d : Disk) : CorpusSyncClient := mkSync d ∅ [] zero_time [] [].

(** ** The corpus of a job *)

Definition downloadJobCorpusFile (answer : reply) (targetDir : string) (file : CorpusFile) : io CorpusSyncClient unit :=
  match fetched answer with
  | inr err => io_err err
  | inl content =>
      let actualHash := calculateFileHash content in
      if negb (String.eqb actualHash (FileHash file))
      then io_err (ErrNew ("hash mismatch: expected " +:+ FileHash file +:+ ", got " +:+ actualHash))
      else or_wrap "failed to save file" (on_disk (WriteFile (JoinPath [targetDir; Filename file]) content))
  end.
Fixpoint download_job_files (serve : CorpusFile → reply) (targetDir : string) (files : list CorpusFile) : io CorpusSyncClient unit :=
  match files with
  | [] => io_ret tt
  | file :: rest =>
      let* _ := ignore (downloadJobCorpusFile (serve file) targetDir file) in download_job_files serve targetDir rest
  end.
Definition InitializeJobCorpus (answer : reply) (serve : CorpusFile → reply)
    (job : MJob) (targetDir : string) : io CorpusSyncClient unit :=
  if negb (UseCampaignCorpus job) || match CampaignID job with Some id => String.eqb id "" | None => true end then io_ret tt
  else
    let* _ := or_wrap "failed to create corpus directory" (on_disk (MkdirAll targetDir)) in
    match answer with
    | inr err => io_err (ErrWrap "failed to get corpus files" err)
    | inl (status, body) =>
        if status =? StatusNotFound then io_ret tt
        else if negb (status =? StatusOK)
        then io_err (ErrNew ("failed to get corpus files with status " +:+ pretty status +:+ ": " +:+ body_text body))
        else
          match decoded "failed to decode corpus files response" body with
          | inr err => io_err err
          | inl files => download_job_files serve targetDir files
          end
    end.

(** ** Presigned URLs *)

(** [S3CorpusSyncer.downloadFile] and [downloadFileToPath]; the first does not
    look at the hash. *)
Definition s3_fetched (answer : reply) : bytes + goerror :=
  match answer with
  | inr err => inr err
  | inl (status, body) =>
      if negb (status =? StatusOK) then inr (ErrNew ("download failed: " +:+ status_line status))
      else match body.2 with None => inl body.1 | Some err => inr (ErrWrap "failed to read response body" err) end
  end.
Definition downloadFile (localStorage hash : string) (answer : reply) : io Disk unit :=
  match answer with
  | inr err => io_err err
  | inl (status, body) =>
      if negb (status =? StatusOK) then io_err (ErrNew ("download failed: " +:+ status_line status))
      else
        let localPath := JoinPath [localStorage; hash] in
        let tempPath := localPath +:+ ".tmp" in
        let* _ := or_wrap "failed to create storage directory" (MkdirAll localStorage) in
        let* _ := Create tempPath in
        let* copied := attempt (Copy tempPath body) in
        match copied with
        | inr err => let* _ := ignore (Remove tempPath) in io_err err
        | inl _ => Rename tempPath localPath
        end
  end.
Definition downloadFileToPath (answer : reply) (targetPath expectedHash : string) : io Disk unit :=
  match s3_fetched answer with
  | inr err => io_err err
  | inl content =>
      let actualHash := calculateFileHash content in
      if negb (String.eqb actualHash expectedHash)
      then io_err (ErrNew ("hash mismatch: expected " +:+ expectedHash +:+ ", got " +:+ actualHash))
      else
        let tempPath := targetPath +:+ ".tmp" in
        let* _ := or_wrap "failed to write file" (WriteFile tempPath content) in
        Rename tempPath targetPath
  end.

(** ** Reports are neither lost nor sent twice *)

Definition reported (c : CorpusSyncClient) : list CorpusFile := omap (λ e, if e is Reported f then Some f else None) (log c).
Definition uploaded (c : CorpusSyncClient) : list CorpusFile := omap (λ e, if e is Uploaded f then Some f else None) (log c).
Definition in_flight (c : CorpusSyncClient) : list CorpusFile := concat (default [] <$> uploads c).
Definition evidence (hash : string) (e : event) : Prop :=
  match e with Uploaded f => FileHash f = hash | Downloaded h _ _ => h = hash | Reported _ => False end.

Record sync_wf (c : CorpusSyncClient) : Prop := mk_sync_wf {
  wf_conserved : reported c ≡ₚ uploaded c ++ pendingFiles c ++ in_flight c;
  wf_synced : ∀ hash, hash ∈ syncedFiles c ↔ ∃ e, e ∈ log c ∧ evidence hash e }.

Lemma in_flight_insert c i o l : uploads c !! i = Some o →
  in_flight (c <| uploads := <[i := l]> (uploads c) |>) ++ default [] o ≡ₚ in_flight c ++ default [] l.
Proof.
  intros Hi. unfold in_flight. cbn. pose proof (lookup_lt_Some _ _ _ Hi) as Hl.
  rewrite <- (take_drop_middle (uploads c) i o Hi) at 2. rewrite insert_take_drop by done.
  rewrite !fmap_app, !fmap_cons, !concat_app. cbn [concat]. solve_Permutation.
Qed.

(** What a step adds to the log, and what it does to the marks. *)
Lemma synced_log hash l1 l2 : (∃ e, e ∈ l1 ++ l2 ∧ evidence hash e) ↔ (∃ e, e ∈ l1 ∧ evidence hash e) ∨ (∃ e, e ∈ l2 ∧ evidence hash e).
Proof. setoid_rewrite elem_of_app. naive_solver. Qed.

Lemma downloadCorpusFile_cases answer file c r c' : downloadCorpusFile answer file c = (r, c') →
  (∃ d, c' = c <| disk := d |> ∧ (r = Ok tt → FileHash file ∈ syncedFiles c)) ∨
  (∃ d p b, r = Ok tt ∧ c' = c <| disk := d |> <| log := log c ++ [Downloaded (FileHash file) p b] |>).
Proof.
  unfold downloadCorpusFile, io_bind, io_get. destruct (bool_decide _) eqn:Eb.
  { apply bool_decide_eq_true_1 in Eb. intros [= <- <-]. left. exists (disk c). split; [by destruct c|done]. }
  destruct (fetched answer) as [b|e].
  - unfold or_wrap, on_disk. destruct (WriteFile _ _ _) as [[[]|e|p] d] eqn:Ew.
    + intros [= <- <-]. right. eexists d, _, b. done.
    + intros [= <- <-]. left. by exists d.
    + intros [= <- <-]. left. by exists d.
  - intros [= <- <-]. left. exists (disk c). by destruct c.
Qed.

Lemma download_one_wf answer file c : sync_wf c → sync_wf (download_one answer file c).2.
Proof.
  intros [H1 H2]. unfold download_one, io_bind, attempt. destruct (downloadCorpusFile answer file c) as [r c'] eqn:E.
  apply downloadCorpusFile_cases in E as [(d & -> & Hr)|(d & p & b & -> & ->)].
  - destruct r as [[]|e|w]; [|by split..]. split; [exact H1|]. intros hash. cbn. rewrite elem_of_union, H2, elem_of_singleton.
    split; [|by right]. intros [->|]; [|done]. by apply H2, Hr.
  - split; cbn.
    + unfold reported, uploaded, in_flight in *. cbn. rewrite !omap_app. cbn. by rewrite !app_nil_r.
    + intros hash. rewrite elem_of_union, elem_of_singleton, H2, synced_log. split.
      * intros [->|]; [|by left]. right. eexists. split; [by left|done].
      * intros [|(e & ->%list_elem_of_singleton & <-)]; [by right|by left].
Qed.

Lemma step_wf l c c' : sync_wf c → step l c = Some c' → sync_wf c'.
Proof.
  intros Hwf. destruct l as [cid bid fn cov now|i|i answer|answer file|now]; cbn [step].
  - intros [= <-]. unfold reportNewCoverage, io_bind, or_wrap, on_disk, io_get. destruct (ReadDisk _ (disk c)) as [[b|e|p] d].
    2,3: by destruct Hwf. cbn. destruct (bool_decide _); [by destruct Hwf|]. destruct Hwf as [H1 H2]. split; cbn.
    + unfold reported, uploaded, in_flight in *. cbn. rewrite !omap_app, fmap_app, concat_app. cbn. rewrite app_nil_r, H1. solve_Permutation.
    + intros hash. rewrite synced_log, H2. split; [by left|]. intros [|(e & ->%list_elem_of_singleton & [])]. done.
  - unfold take_pending. destruct (uploads c !! i) as [[l|]|] eqn:Ei; [done| |done]. intros [= <-]. destruct Hwf as [H1 H2]. split; [|exact H2].
    pose proof (in_flight_insert c i None (Some (pendingFiles c)) Ei) as Hf. cbn [default] in Hf. rewrite app_nil_r in Hf.
    change (reported c ≡ₚ uploaded c ++ [] ++ in_flight (c <| uploads := <[i := Some (pendingFiles c)]> (uploads c) |>)).
    rewrite H1, Hf. cbn [id]. solve_Permutation.
  - unfold upload_next. destruct (uploads c !! i) as [[[|file rest]|]|] eqn:Ei; [done| |done..]. intros [= <-]. destruct Hwf as [H1 H2].
    pose proof (in_flight_insert c i (Some (file :: rest)) (Some rest) Ei) as Hf. cbn [default id] in Hf.
    set (c1 := c <| uploads := <[i := Some rest]> (uploads c) |>) in *.
    assert (file :: in_flight c1 ≡ₚ in_flight c) as Hc.
    { apply (Permutation_app_inv_r rest). rewrite <- Hf. solve_Permutation. }
    destruct (uploadCorpusFile answer).
    + split; [|exact H2].
      change (reported c ≡ₚ uploaded c ++ (pendingFiles c ++ [file]) ++ in_flight c1). rewrite H1, <- Hc. solve_Permutation.
    + split; cbn.
      * unfold reported, uploaded. cbn. rewrite !omap_app. cbn. rewrite app_nil_r. fold (reported c) (uploaded c).
        change (reported c ≡ₚ (uploaded c ++ [file]) ++ pendingFiles c ++ in_flight c1). rewrite H1, <- Hc. solve_Permutation.
      * intros hash. rewrite elem_of_union, elem_of_singleton, H2, synced_log. split.
        -- intros [->|]; [|by left]. right. eexists. split; [by left|done].
        -- intros [|(e & ->%list_elem_of_singleton & <-)]; [by right|by left].
  - intros [= <-]. by apply download_one_wf.
  - intros [= <-]. by destruct Hwf.
Qed.

(** C24: what is reported is uploaded exactly once.  However reports, uploads and
    downloads interleave and whatever the master answers, each report is either
    uploaded once, or pending, or with a goroutine that still sends it; and a
    hash counts as synchronised exactly if a file with it was uploaded or
    downloaded. *)
Theorem uploads_conserved (d : Disk) (ls : list label) (c : CorpusSyncClient) (Hrun : run ls (NewCorpusSyncClient d) = Some c) : sync_wf c.
Proof.
  assert (sync_wf (NewCorpusSyncClient d)) as H0.
  { split; [done|]. intros hash. cbn. split; [by intros ?%elem_of_empty|]. by intros (e & ?%not_elem_of_nil & _). }
  revert H0 Hrun. generalize (NewCorpusSyncClient d). induction ls as [|l ls IH]; intros c0 Hc; cbn [run]; [by intros [= <-]|].
  destruct (step l c0) as [c1|] eqn:E; [|done]. apply IH. by eapply step_wf.
Qed.

(** ** A failed upload *)

Definition is_report (l : label) : bool := if l is LReport _ _ _ _ _ then true else false.
Definition all_taken (c : CorpusSyncClient) : Prop := ∀ i, uploads c !! i ≠ Some None.

(** A failed upload waits for the next report.  When every goroutine has taken
    its files and no report comes, no run, however long, sends a pending file:
    those of failed uploads stay pending, in their order. *)
Theorem failed_upload_waits (ls : list label) (c c' : CorpusSyncClient) (Htaken : all_taken c)
    (Hls : existsb is_report ls = false) (Hrun : run ls c = Some c') :
  pendingFiles c `prefix_of` pendingFiles c' ∧ all_taken c'.
Proof.
  revert c Htaken Hrun. induction ls as [|l ls IH]; intros c Ht Hr; cbn [run] in Hr; [by simplify_eq|].
  apply orb_false_iff in Hls as [Hl Hls]. destruct (step l c) as [c1|] eqn:E; [|done].
  assert (pendingFiles c `prefix_of` pendingFiles c1 ∧ all_taken c1) as [H1 H2].
  { destruct l as [|i|i answer|answer file|now]; cbn [step] in E; [done| | | |by injection E as <-].
    - unfold take_pending in E. destruct (uploads c !! i) as [[|]|] eqn:Ei; [done| |done]. by destruct (Ht i).
    - unfold upload_next in E. destruct (uploads c !! i) as [[[|file rest]|]|] eqn:Ei; [done| |done..]. injection E as <-.
      destruct (uploadCorpusFile answer); cbn; (split; [by (apply prefix_app_r || idtac)|]); intros k; cbn;
        (destruct (decide (k = i)) as [->|Hk]; [rewrite list_lookup_insert_eq by (by eapply lookup_lt_Some)|rewrite list_lookup_insert_ne by done]; [done|apply Ht]).
    - injection E as <-. unfold download_one, io_bind, attempt. destruct (downloadCorpusFile answer file c) as [r c2] eqn:Ed.
      apply downloadCorpusFile_cases in Ed as [(d & -> & _)|(d & p & b & -> & ->)]; [destruct r|]; by split. }
  destruct (IH Hls c1 H2 Hr) as [H3 H4]. split; [by etrans|done].
Qed.

(** ** Downloads on a disk without faults *)

Definition fault_free (c : CorpusSyncClient) : Prop := disk_faults (disk c) = [].

(** What one file of the list does. *)
Lemma download_one_exact answer file c : fault_free c →
  download_one answer file c =
    (Ok tt,
     if bool_decide (FileHash file ∈ syncedFiles c) then c <| syncedFiles := {[FileHash file]} ∪ syncedFiles c |>
     else match fetched answer with
          | inr _ => c
          | inl b => c <| disk := mkDisk (<[JoinPath [syncDir; Filename file] := b]> (contents (disk c))) [] |>
                       <| log := log c ++ [Downloaded (FileHash file) (JoinPath [syncDir; Filename file]) b] |>
                       <| syncedFiles := {[FileHash file]} ∪ syncedFiles c |>
          end).
Proof.
  intros Hf. unfold download_one, downloadCorpusFile, io_bind, attempt, io_get. destruct (bool_decide _); [done|].
  destruct (fetched answer) as [b|e]; [|done]. unfold or_wrap, on_disk, WriteFile, sys. by rewrite Hf.
Qed.

Lemma download_all_synced serve files c : (∀ file, file ∈ files → FileHash file ∈ syncedFiles c) → fault_free c →
  download_all serve files c = (Ok tt, c).
Proof.
  intros Hs Hf. induction files as [|file files IH]; cbn [download_all]; [done|]. unfold io_bind at 1. rewrite download_one_exact by done.
  rewrite bool_decide_eq_true_2 by (apply Hs; by left). assert (c <| syncedFiles := {[FileHash file]} ∪ syncedFiles c |> = c) as ->.
  { assert ({[FileHash file]} ∪ syncedFiles c = syncedFiles c) as E by (specialize (Hs file ltac:(by left)); set_solver). destruct c. cbn in *. by rewrite E. }
  apply IH. intros g Hg. apply Hs. by right.
Qed.
Lemma download_all_marks serve files c : fault_free c → (∀ file, file ∈ files → ∃ b, fetched (serve file) = inl b) →
  let c' := (download_all serve files c).2 in
  download_all serve files c = (Ok tt, c') ∧ fault_free c' ∧ syncedFiles c ⊆ syncedFiles c' ∧ ∀ file, file ∈ files → FileHash file ∈ syncedFiles c'.
Proof.
  clear calculateFileHash decode.
  revert c. induction files as [|file files IH]; intros c Hf Hs; cbn [download_all]; [split_and!; [done..|by intros ? ?%not_elem_of_nil]|].
  unfold io_bind. rewrite download_one_exact by done. destruct (Hs file ltac:(by left)) as [b Hb]. rewrite Hb.
  set (c1 := if bool_decide _ then _ else _).
  assert (fault_free c1 ∧ FileHash file ∈ syncedFiles c1 ∧ syncedFiles c ⊆ syncedFiles c1) as (H1 & H2 & H3).
  { unfold c1. destruct (bool_decide _); cbn; split_and!; try done; set_solver. }
  destruct (IH c1 H1 (λ g Hg, Hs g (list_elem_of_further _ _ _ Hg))) as (E & H4 & H5 & H6). rewrite E in *. cbn [snd] in *.
  split_and!; [done|done|set_solver|]. intros g [->|Hg]%elem_of_cons; [set_solver|by apply H6].
Qed.

(** A repeated synchronisation is harmless.  On a disk without faults, when
    every file of the list can be fetched, a second pass over the same list
    finds every file marked and changes nothing, whatever the master would
    serve then. *)
Theorem second_pass_is_idle (serve serve' : CorpusFile → reply) (files : list CorpusFile) (c : CorpusSyncClient)
    (Hf : fault_free c) (Hs : ∀ file, file ∈ files → ∃ b, fetched (serve file) = inl b) :
  let c' := (download_all serve files c).2 in (download_all serve' files c' = (Ok tt, c')).
Proof. destruct (download_all_marks serve files c Hf Hs) as (_ & H1 & _ & H2). by apply download_all_synced. Qed.

(** Files of one name overwrite each other.  Of two new files with the same
    name and different hashes both are marked as synchronised, but the directory
    has only the second, and no later pass brings the first one back. *)
Theorem same_name_is_lost (serve serve' : CorpusFile → reply) (file1 file2 : CorpusFile) (b1 b2 : bytes) (c : CorpusSyncClient)
    (Hf : fault_free c) (Hname : Filename file1 = Filename file2) (Hhash : FileHash file1 ≠ FileHash file2)
    (Hnew : (FileHash file1 ∉ syncedFiles c) ∧ (FileHash file2 ∉ syncedFiles c))
    (Hb1 : fetched (serve file1) = inl b1) (Hb2 : fetched (serve file2) = inl b2) :
  let c' := (download_all serve [file1; file2] c).2 in
  contents (disk c') !! JoinPath [syncDir; Filename file1] = Some b2 ∧
  FileHash file1 ∈ syncedFiles c' ∧ FileHash file2 ∈ syncedFiles c' ∧ (download_all serve' [file1; file2] c').2 = c'.
Proof.
  clear calculateFileHash decode.
  assert (∀ file, file ∈ [file1; file2] → ∃ b, fetched (serve file) = inl b) as Hs.
  { intros file Hin. apply elem_of_cons in Hin as [ -> |Hin]; [eauto|apply list_elem_of_singleton in Hin as ->; eauto]. }
  intros c'. destruct (download_all_marks serve [file1; file2] c Hf Hs) as (_ & H1 & _ & H2). fold c' in H1, H2.
  split_and!; [|apply H2; set_solver..|by rewrite download_all_synced].
  unfold c'. cbn [download_all]. unfold io_bind. rewrite download_one_exact by done. rewrite bool_decide_eq_false_2 by apply Hnew. rewrite Hb1.
  rewrite download_one_exact by done. rewrite bool_decide_eq_false_2 by (cbn; set_solver). rewrite Hb2. cbn. rewrite Hname. by rewrite lookup_insert_eq.
Qed.

(** The name of a file is not checked: it can lead out of the directory. *)
Example name_leads_out : JoinPath ["/var/fuzz/sync"; "../../../etc/cron.d/job"] = "/etc/cron.d/job".
Proof. vm_compute. reflexivity. Qed.

(** ** Verified downloads *)

(** A file for a job is verified.  Whatever the master serves, on a disk
    without faults every file that the initialisation of a job writes is in the
    list, at the place of its name, with contents of its hash. *)
Theorem job_files_verified (serve : CorpusFile → reply) (targetDir : string) (files : list CorpusFile) (c : CorpusSyncClient) (Hf : fault_free c) :
  let c' := (download_job_files serve targetDir files c).2 in
  ∀ path, contents (disk c') !! path = contents (disk c) !! path ∨
    ∃ file b, file ∈ files ∧ path = JoinPath [targetDir; Filename file] ∧ contents (disk c') !! path = Some b ∧ calculateFileHash b = FileHash file.
Proof.
  revert c Hf. induction files as [|file files IH]; intros c Hf c' path; [by left|]. unfold c'. cbn [download_job_files]. unfold io_bind.
  assert (∃ c1, ignore (downloadJobCorpusFile (serve file) targetDir file) c = (Ok tt, c1) ∧ fault_free c1 ∧
    (contents (disk c1) !! path = contents (disk c) !! path ∨
     ∃ b, path = JoinPath [targetDir; Filename file] ∧ contents (disk c1) !! path = Some b ∧ calculateFileHash b = FileHash file)) as (c1 & -> & H1 & H2).
  { unfold downloadJobCorpusFile, ignore. destruct (fetched (serve file)) as [b|e]; [|exists c; split_and!; [done|done|by left]].
    destruct (String.eqb_spec (calculateFileHash b) (FileHash file)) as [Hh|]; cbn [negb]; [|exists c; split_and!; [done|done|by left]].
    unfold or_wrap, on_disk, WriteFile, sys. rewrite Hf. eexists. split_and!; [done|done|]. cbn.
    destruct (decide (path = JoinPath [targetDir; Filename file])) as [->|Hp].
    - right. exists b. by rewrite lookup_insert_eq.
    - left. by rewrite lookup_insert_ne by done. }
  destruct (IH c1 H1 path) as [H3|(g & b & Hg & H3)]; [|right; exists g, b; split; [by right|done]].
  destruct H2 as [H2|(b & Hp & H2 & Hh)]; [left; congruence|right]. exists file, b. split_and!; [by left|done|congruence|done].
Qed.

(** C25: a file from a presigned URL is put in place whole.  Whatever is served and
    whatever calls fail, the target keeps what it had, or has contents with the
    expected hash; success means the latter. *)
Theorem presigned_file_atomic (answer : reply) (targetPath expectedHash : string) (d : Disk) :
  let '(r, d') := downloadFileToPath answer targetPath expectedHash d in
  (r = Ok tt ∧ ∃ b, contents d' !! targetPath = Some b ∧ calculateFileHash b = expectedHash) ∨
  (∃ e, r = Err e ∧ contents d' !! targetPath = contents d !! targetPath).
Proof.
  set (Q := λ (r : res unit) (d' : Disk), (r = Ok tt ∧ ∃ b, contents d' !! targetPath = Some b ∧ calculateFileHash b = expectedHash) ∨
    (∃ e, r = Err e ∧ contents d' !! targetPath = contents d !! targetPath)).
  assert (wp (downloadFileToPath answer targetPath expectedHash) Q d) as H; [|unfold wp in H; by destruct (downloadFileToPath _ _ _ d)].
  unfold downloadFileToPath. destruct (s3_fetched answer) as [b|e]; [|apply wp_err; right; by eexists].
  destruct (String.eqb_spec (calculateFileHash b) expectedHash) as [Hh|]; cbn [negb]; [|apply wp_err; right; by eexists].
  assert (targetPath +:+ ".tmp" ≠ targetPath) as Hne by (by apply string_app_neq).
  apply wp_bind, wp_or_wrap, wp_sys; intros; cbn.
  - right. by eexists.
  - right. eexists. split; [done|]. cbn. by rewrite lookup_insert_ne.
  - apply wp_sys; intros; cbn; rewrite ?lookup_insert_eq; cbn.
    + right. eexists. split; [done|]. cbn. by rewrite lookup_insert_ne.
    + right. eexists. split; [done|]. cbn. by rewrite lookup_insert_ne.
    + left. split; [done|]. exists b. cbn. by rewrite lookup_insert_eq.
Qed.
End sync.

(** ** A concrete client *)

Definition bot_client : CorpusSyncClient := NewCorpusSyncClient (mkDisk {["/sync/id_0" := testData]} []).
Definition hash_text (b : bytes) : string := string_of_list_byte b.
Definition served (_ : CorpusFile) : reply := inl (StatusOK, (testData, None)).
Definition one_report : list label :=
  [LReport "c1" "b1" "id_0" 7 5; LTake 0; LUpload 0 (inr (ErrNew "connection refused")); LDownload (served (a_file "f1" "c1" "aa11" 3)) (a_file "f1" "c1" "aa11" 3)].

Definition after_report : CorpusSyncClient := default bot_client (run hash_text "/sync" one_report bot_client).

Lemma uploads_conserved_witness : run hash_text "/sync" one_report bot_client = Some after_report ∧ sync_wf after_report.
Proof.
  assert (run hash_text "/sync" one_report bot_client = Some after_report) as H by (vm_compute; reflexivity). split; [exact H|].
  exact (uploads_conserved hash_text "/sync" (mkDisk {["/sync/id_0" := testData]} []) one_report after_report H).
Defined.

Lemma failed_upload_waits_witness : FileHash <$> pendingFiles after_report = [hash_text testData] ∧
  pendingFiles after_report `prefix_of` pendingFiles (after_report <| lastSync := 9 |> <| lastSync := 10 |>).
Proof.
  split; [vm_compute; reflexivity|].
  apply (failed_upload_waits hash_text "/sync" [LSynced 9; LSynced 10]); [|reflexivity|reflexivity].
  intros [|i]; [vm_compute; discriminate|vm_compute; by destruct i].
Defined.

Lemma second_pass_is_idle_witness :
  let c' := (download_all "/sync" served [a_file "f1" "c1" "aa11" 3; a_file "f2" "c1" "bb22" 3] bot_client).2 in
  download_all "/sync" (λ _, inr (ErrNew "unreachable")) [a_file "f1" "c1" "aa11" 3; a_file "f2" "c1" "bb22" 3] c' = (Ok tt, c').
Proof. apply (second_pass_is_idle "/sync" served); [reflexivity|]. intros file _. by exists testData. Defined.

Lemma same_name_is_lost_witness :
  let c' := (download_all "/sync" served [a_file "f1" "c1" "aa11" 3; a_file "f2" "c1" "bb22" 3] bot_client).2 in
  contents (disk c') !! "/sync/seed" = Some testData ∧ "aa11" ∈ syncedFiles c'.
Proof.
  destruct (same_name_is_lost "/sync" served served (a_file "f1" "c1" "aa11" 3) (a_file "f2" "c1" "bb22" 3) testData testData bot_client)
    as (H1 & H2 & _); [reflexivity|reflexivity|discriminate|split; apply not_elem_of_empty|reflexivity|reflexivity|].
  split; [exact H1|exact H2].
Defined.

Lemma job_files_verified_witness :
  let c' := (download_job_files hash_text served "/job" [a_file "f1" "c1" "health-check" 3] bot_client).2 in
  contents (disk c') !! "/job/seed" = contents (disk bot_client) !! "/job/seed" ∨
  ∃ file b, file ∈ [a_file "f1" "c1" "health-check" 3] ∧ "/job/seed" = JoinPath ["/job"; Filename file] ∧
    contents (disk c') !! "/job/seed" = Some b ∧ hash_text b = FileHash file.
Proof. apply (job_files_verified hash_text served "/job" [a_file "f1" "c1" "health-check" 3] bot_client). reflexivity. Defined.
