(* ===== verification/CleanupManager.v ===== *)
(** * The cleanup manager of a bot: src/pkg/bot/cleanup_manager.go

    A run removes old job directories, old crash files and logs, and the oldest
    files of corpora over their limit, from the tree under the work directory.
    The tree is a list of its entries in the order of filepath.Walk.  A timer
    starts runs from a goroutine; [step] interleaves it with the calls. *)

From Stdlib Require Import Lia Sorting.Sorted Strings.String Strings.Ascii.
From S2P Require Import Prelude MasterTypes Regex Paths.

(** A path below the work directory: its components. *)
Abbreviation relpath := (list string) (only parsing).
Record entry := mkEntry { epath : relpath; IsDir : bool; Size : Z; ModTime : Time }.
#[export] Instance entry_eta : Eta entry := fun e => mkEntry (epath e) (IsDir e) (Size e) (ModTime e).

Record CleanupPolicy := mkPolicy {
  MaxJobAge : Duration; MaxCrashAge : Duration; MaxCorpusSize : Z; MaxDiskUsage : Z; CleanupInterval : Duration }.
Record CleanupStats := mkStats {
  LastRun : Time; JobsCleaned : Z; CrashFilesCleaned : Z; CorpusFilesCleaned : Z; LogsCleaned : Z; BytesFreed : Z; Errors : Z }.
#[export] Instance CleanupStats_eta : Eta CleanupStats := fun s =>
  mkStats (LastRun s) (JobsCleaned s) (CrashFilesCleaned s) (CorpusFilesCleaned s) (LogsCleaned s) (BytesFreed s) (Errors s).

(** The goroutine of [ScheduleCleanup]: [deferred] is the ticker it stops at its
    end, [on] the one whose channel it waits for. *)
Inductive worker_state :=
  | NotStarted
  | Starting
  | Selecting (deferred : nat)
  | Waiting (deferred on : nat)
  | Cleaning (deferred : nat)
  | Exited.

(** A context: how many more looks at it find it alive (for ever by default), and
    whether it ends by its deadline. *)
Record context := mkContext { alive : option nat; by_deadline : bool }.
Definition background : context := mkContext None false.

(** The manager, the tree, and the tickers by their number: those that were
    stopped, and those with a tick in their channel. *)
Record JobCleanupManager := mkManager {
  policy : CleanupPolicy; stats : CleanupStats; tree : list entry; ctx : context;
  ticker : option nat; tickers : nat; stopped : gset nat; ticked : gset nat; worker : worker_state; cancelled : bool }.
#[export] Instance JobCleanupManager_eta : Eta JobCleanupManager := fun m =>
  mkManager (policy m) (stats m) (tree m) (ctx m) (ticker m) (tickers m) (stopped m) (ticked m) (worker m) (cancelled m).

Definition ErrCanceled : goerror := ErrNew "context canceled".
Definition ErrDeadline : goerror := ErrNet "context deadline exceeded" true true.
Definition is_canceled (e : goerror) : bool := if e is ErrNew m then String.eqb m "context canceled" else false.
Definition NewStorageError (op : string) (err : goerror) : goerror := ErrPanda "storage" op err.

(** [filepath.Ext] of a name without slashes. *)
Fixpoint Ext (name : string) : string :=
  match name with
  | "" => ""
  | String c rest => if has_char "." rest then Ext rest else if Ascii.eqb c "." then name else ""
  end%string.

Section cleanup.
(** The work directory, and the entries that the operating system does not let
    the bot remove. *)
Context (workDir : string) (locked : relpath → bool).

Definition under (p q : relpath) : bool := bool_decide (p `prefix_of` q).
Definition at_path (p : relpath) (t : list entry) : option entry := List.find (λ e, bool_decide (epath e = p)) t.
Definition name (e : entry) : string := List.last (epath e) (Base workDir).
Definition parent (p : relpath) : relpath := removelast p.

(** ** System calls *)

(** Directories that lost an entry are modified now. *)
Definition touch (now : Time) (gone : list entry) (t : list entry) : list entry :=
  (λ e, if IsDir e && existsb (λ g, bool_decide (parent (epath g) = epath e)) gone then e <| ModTime := now |> else e) <$> t.

(** [os.Remove] of a file, and [os.RemoveAll], which removes what it can. *)
Definition Remove (now : Time) (p : relpath) : io JobCleanupManager unit := λ m,
  match at_path p (tree m) with
  | None => (Err (ErrErrno 2 "no such file or directory"), m)
  | Some e =>
      if locked p then (Err (ErrErrno 1 "operation not permitted"), m)
      else (Ok tt, m <| tree := touch now [e] (List.filter (λ x, negb (bool_decide (epath x = p))) (tree m)) |>)
  end.
Definition stuck (t : list entry) (e : entry) : bool := existsb (λ g, locked (epath g) && under (epath e) (epath g)) t.
Definition RemoveAll (now : Time) (p : relpath) : io JobCleanupManager unit := λ m,
  let goes := λ e, under p (epath e) && negb (stuck (tree m) e) in
  let left := touch now (List.filter goes (tree m)) (List.filter (λ e, negb (goes e)) (tree m)) in
  (if existsb (λ e, under p (epath e)) left then Err (ErrErrno 1 "operation not permitted") else Ok tt, m <| tree := left |>).

(** A look at the context. *)
Definition ctx_done : io JobCleanupManager (option goerror) := λ m,
  match alive (ctx m) with
  | None => (Ok None, m)
  | Some (S n) => (Ok None, m <| ctx := mkContext (Some n) (by_deadline (ctx m)) |>)
  | Some O => (Ok (Some (if by_deadline (ctx m) then ErrDeadline else ErrCanceled)), m)
  end.

(** [filepath.Walk]: the entries below [p] that are still there when it comes to
    them; an error of [visit] ends it. *)
Fixpoint walk {A} (visit : A → entry → io JobCleanupManager (A * option goerror)) (paths : list relpath) (acc : A) :
    io JobCleanupManager (A * option goerror) :=
  match paths with
  | [] => io_ret (acc, None)
  | p :: rest =>
      let* found := io_get (λ m, at_path p (tree m)) in
      match found with
      | None => walk visit rest acc
      | Some e =>
          let* r := visit acc e in
          match r with (acc, Some err) => io_ret (acc, Some err) | (acc, None) => walk visit rest acc end
      end
  end.
Definition paths_under (p : relpath) (t : list entry) : list relpath := epath <$> List.filter (λ e, under p (epath e)) t.
Definition Walk {A} (p : relpath) (visit : A → entry → io JobCleanupManager (A * option goerror)) (acc : A) :
    io JobCleanupManager (A * option goerror) :=
  let* t := io_get tree in walk visit (paths_under p t) acc.

(** ** Sizes *)

Definition files_under (p : relpath) (t : list entry) : list entry := List.filter (λ e, under p (epath e) && negb (IsDir e)) t.
Definition add_sizes (acc : Z) (es : list entry) : Z := foldl (λ acc e, wrap64 (acc + Size e)) acc es.
Definition getDirectorySize (p : relpath) (t : list entry) : Z := add_sizes 0 (files_under p t).
Definition CheckDiskUsage (m : JobCleanupManager) : bool * Z :=
  if String.eqb workDir "" then (false, 0)
  else let size := getDirectorySize [] (tree m) in (MaxDiskUsage (policy m) <? size, size).

(** ** The four cleanups *)

Fixpoint clean_jobs (now cutoff : Time) (dirs : list entry) (freed cleaned : Z) : io JobCleanupManager (Z * Z) :=
  match dirs with
  | [] => io_ret (freed, cleaned)
  | d :: rest =>
      let* done_ := ctx_done in
      match done_ with
      | Some err => io_err err
      | None =>
          if negb (IsDir d) then clean_jobs now cutoff rest freed cleaned
          else if time_before (ModTime d) cutoff then
            let* t := io_get tree in
            let size := getDirectorySize (epath d) t in
            let* r := attempt (RemoveAll now (epath d)) in
            match r with
            | inr _ => clean_jobs now cutoff rest freed cleaned
            | inl _ => clean_jobs now cutoff rest (wrap64 (freed + size)) (wrap64 (cleaned + 1))
            end
          else clean_jobs now cutoff rest freed cleaned
      end
  end.
Definition is_child (e : entry) : bool := (length (epath e) =? 1)%nat.
Definition cleanJobDirectories (now : Time) : io JobCleanupManager Z :=
  if String.eqb workDir "" then io_ret 0
  else
    let* m := io_get id in
    let cutoffTime := time_add now (- MaxJobAge (policy m)) in
    match at_path [] (tree m) with
    | None => io_ret 0
    | Some root =>
        if negb (IsDir root) then io_err (NewStorageError "read_work_dir" (ErrErrno 20 "not a directory"))
        else
          let* r := clean_jobs now cutoffTime (List.filter is_child (tree m)) 0 0 in
          let* _ := io_set (λ m, m <| stats := (stats m) <| JobsCleaned := wrap64 (JobsCleaned (stats m) + r.2) |> |>) in
          io_ret r.1
    end.

(** What the visits of [cleanCrashFiles] and [cleanLogs] share: whether the file
    is one of those, its removal, and the sums. *)
Definition remove_file (now : Time) (e : entry) (acc : Z * Z) : io JobCleanupManager ((Z * Z) * option goerror) :=
  let* r := attempt (Remove now (epath e)) in
  match r with
  | inr _ => io_ret (acc, None)
  | inl _ => io_ret ((wrap64 (acc.1 + Size e), wrap64 (acc.2 + 1)), None)
  end.
Definition visit_crash (now cutoffTime : Time) (acc : Z * Z) (e : entry) : io JobCleanupManager ((Z * Z) * option goerror) :=
  let* done_ := ctx_done in
  match done_ with
  | Some err => io_ret (acc, Some err)
  | None =>
      if IsDir e then io_ret (acc, None)
      else
        match substr (name e) 0 6 with
        | Panic w => λ m, (Panic w, m)
        | Err err => io_err err
        | Ok prefix =>
            if String.eqb prefix "crash-" && time_before (ModTime e) cutoffTime then remove_file now e acc else io_ret (acc, None)
        end
  end.
Definition visit_log (now cutoffTime : Time) (acc : Z * Z) (e : entry) : io JobCleanupManager ((Z * Z) * option goerror) :=
  let* done_ := ctx_done in
  match done_ with
  | Some err => io_ret (acc, Some err)
  | None =>
      if negb (IsDir e) && String.eqb (Ext (name e)) ".log" && time_before (ModTime e) cutoffTime
      then remove_file now e acc else io_ret (acc, None)
  end.

(** The end of a walk: every error but a cancellation is one of the operation. *)
Definition finish_walk (op : string) (count : Z → CleanupStats → CleanupStats) (r : (Z * Z) * option goerror) : io JobCleanupManager Z :=
  match r with
  | ((freed, cleaned), Some err) =>
      if is_canceled err then let* _ := io_set (λ m, m <| stats := count cleaned (stats m) |>) in io_ret freed
      else io_err (NewStorageError op err)
  | ((freed, cleaned), None) => let* _ := io_set (λ m, m <| stats := count cleaned (stats m) |>) in io_ret freed
  end.
Definition cleanCrashFiles (now : Time) : io JobCleanupManager Z :=
  if String.eqb workDir "" then io_ret 0
  else
    let* p := io_get policy in
    let* r := Walk [] (visit_crash now (time_add now (- MaxCrashAge p))) (0, 0) in
    finish_walk "walk_crash_files" (λ n s, s <| CrashFilesCleaned := wrap64 (CrashFilesCleaned s + n) |>) r.
Definition cleanLogs (now : Time) : io JobCleanupManager Z :=
  if String.eqb workDir "" then io_ret 0
  else
    let* p := io_get policy in
    let* r := Walk [] (visit_log now (time_add now (- MaxJobAge p))) (0, 0) in
    finish_walk "walk_log_files" (λ n s, s <| LogsCleaned := wrap64 (LogsCleaned s + n) |>) r.

(** Oldest first, by exchanges. *)
Definition newer (a b : entry) : bool := time_after (ModTime a) (ModTime b).
Definition by_age (files : list entry) : list entry := exchange_sort newer files.
Fixpoint trim_loop (now : Time) (targetSize : Z) (files : list entry) (freedSpace : Z) : io JobCleanupManager Z :=
  match files with
  | [] => io_ret freedSpace
  | f :: rest =>
      let* done_ := ctx_done in
      match done_ with
      | Some err => io_err err
      | None =>
          if targetSize <=? freedSpace then io_ret freedSpace
          else
            let* r := attempt (Remove now (epath f)) in
            match r with
            | inr _ => trim_loop now targetSize rest freedSpace
            | inl _ => trim_loop now targetSize rest (wrap64 (freedSpace + Size f))
            end
      end
  end.
Definition trimCorpusDirectory (now : Time) (corpusDir : relpath) (maxSize : Z) : io JobCleanupManager Z :=
  let* t := io_get tree in
  let files := files_under corpusDir t in
  let totalSize := add_sizes 0 files in
  if totalSize <=? maxSize then io_ret 0
  else trim_loop now (wrap64 (totalSize - maxSize)) (by_age files) 0.
Definition visit_corpus (now : Time) (limit : Z) (acc : Z * Z) (e : entry) : io JobCleanupManager ((Z * Z) * option goerror) :=
  let* done_ := ctx_done in
  match done_ with
  | Some err => io_ret (acc, Some err)
  | None =>
      if IsDir e && String.eqb (name e) "corpus" then
        let* t := io_get tree in
        if limit <? getDirectorySize (epath e) t then
          let* r := attempt (trimCorpusDirectory now (epath e) limit) in
          match r with
          | inr _ => io_ret (acc, None)
          | inl freed => io_ret ((wrap64 (acc.1 + freed), wrap64 (acc.2 + 1)), None)
          end
        else io_ret (acc, None)
      else io_ret (acc, None)
  end.
Definition cleanCorpusFiles (now : Time) : io JobCleanupManager Z :=
  if String.eqb workDir "" then io_ret 0
  else
    let* p := io_get policy in
    let* r := Walk [] (visit_corpus now (MaxCorpusSize p)) (0, 0) in
    finish_walk "walk_corpus_dirs" (λ n s, s <| CorpusFilesCleaned := wrap64 (CorpusFilesCleaned s + n) |>) r.

(** One of the four, with the bytes freed and the errors so far. *)
Definition tally (clean : io JobCleanupManager Z) (acc : Z * Z) : io JobCleanupManager (Z * Z) :=
  let* r := attempt clean in
  match r with inl freed => io_ret (wrap64 (acc.1 + freed), acc.2) | inr _ => io_ret (acc.1, acc.2 + 1) end.
Definition RunCleanup (now : Time) : io JobCleanupManager unit :=
  let* _ := io_set (λ m, m <| stats := (stats m) <| LastRun := now |> |>) in
  let* acc := tally (cleanJobDirectories now) (0, 0) in
  let* acc := tally (cleanCrashFiles now) acc in
  let* acc := tally (cleanCorpusFiles now) acc in
  let* acc := tally (cleanLogs now) acc in
  let* _ := io_set (λ m, m <| stats := (stats m) <| BytesFreed := wrap64 (BytesFreed (stats m) + acc.1) |>
                                              <| Errors := wrap64 (Errors (stats m) + acc.2) |> |>) in
  if 0 <? acc.2 then io_err (NewSystemError "cleanup_operation" (ErrNew ("cleanup completed with " +:+ pretty acc.2 +:+ " errors")))
  else io_ret tt.

(** ** The schedule *)

Definition NewCleanupManager (t : list entry) : JobCleanupManager :=
  mkManager (mkPolicy (24 * Hour) (7 * 24 * Hour) (1024 * 1024 * 1024) (10 * 1024 * 1024 * 1024) (1 * Hour))
    (mkStats zero_time 0 0 0 0 0 0) t background None 0 ∅ ∅ NotStarted false.

(** [time.NewTicker]. *)
Definition NewTicker (d : Duration) : io JobCleanupManager unit := λ m,
  if d <=? 0 then (Panic "non-positive interval for NewTicker", m)
  else (Ok tt, m <| ticker := Some (tickers m) |> <| tickers := S (tickers m) |>).

Definition SetPolicy (p : option CleanupPolicy) : io JobCleanupManager unit :=
  let invalid text := io_err (NewValidationError "set_cleanup_policy" (ErrNew text)) in
  match p with
  | None => invalid "policy cannot be nil"
  | Some p =>
      if MaxJobAge p <=? 0 then invalid "max job age must be positive"
      else if MaxCrashAge p <=? 0 then invalid "max crash age must be positive"
      else if MaxCorpusSize p <=? 0 then invalid "max corpus size must be positive"
      else if MaxDiskUsage p <=? 0 then invalid "max disk usage must be positive"
      else if CleanupInterval p <=? 0 then invalid "cleanup interval must be positive"
      else
        let* _ := io_set (λ m, m <| policy := p |>) in
        let* running := io_get ticker in
        match running with
        | None => io_ret tt
        | Some t =>
            let* _ := io_set (λ m, m <| stopped := {[t]} ∪ stopped m |>) in
            NewTicker (CleanupInterval p)
        end
  end.
Definition ScheduleCleanup : io JobCleanupManager unit :=
  let* running := io_get ticker in
  match running with
  | Some _ => io_err (NewSystemError "schedule_cleanup" (ErrNew "cleanup already scheduled"))
  | None =>
      let* p := io_get policy in
      let* _ := NewTicker (CleanupInterval p) in
      io_set (λ m, m <| worker := Starting |>)
  end.
Definition GetStats (m : JobCleanupManager) : CleanupStats := stats m.

(** The steps: the calls, the goroutine, the ticks of the runtime. *)
Inductive label :=
  | LSetPolicy (p : option CleanupPolicy)
  | LSchedule
  | LStop
  | LStart
  | LSelect
  | LTick (t : nat)
  | LFire
  | LClean (now : Time) (c : context)
  | LExit.

Definition step (l : label) (m : JobCleanupManager) : option (res unit * JobCleanupManager) :=
  match l, worker m with
  | LSetPolicy p, _ => Some (SetPolicy p m)
  | LSchedule, _ => Some (ScheduleCleanup m)
  | LStop, _ => Some (Ok tt, m <| cancelled := true |>)
  | LStart, Starting => t ← ticker m; Some (Ok tt, m <| worker := Selecting t |>)
  | LSelect, Selecting d => t ← ticker m; Some (Ok tt, m <| worker := Waiting d t |>)
  | LTick t, _ =>
      if (t <? tickers m)%nat && negb (bool_decide (t ∈ stopped m)) then Some (Ok tt, m <| ticked := {[t]} ∪ ticked m |>) else None
  | LFire, Waiting d t => if bool_decide (t ∈ ticked m) then Some (Ok tt, m <| ticked := ticked m ∖ {[t]} |> <| worker := Cleaning d |>) else None
  | LClean now c, Cleaning d =>
      Some (let '(r, m') := RunCleanup now (m <| ctx := c |>) in
            (match r with Panic w => Panic w | _ => Ok tt end, m' <| worker := Selecting d |>))
  | LExit, Waiting d t => if cancelled m then Some (Ok tt, m <| worker := Exited |> <| stopped := {[d]} ∪ stopped m |>) else None
  | _, _ => None
  end.
(** A panic is the end of the process. *)
Fixpoint run (ls : list label) (m : JobCleanupManager) : option JobCleanupManager :=
  match ls with
  | [] => Some m
  | l :: ls => match step l m with Some (Ok _, m') | Some (Err _, m') => run ls m' | _ => None end
  end.

(** ** The tree *)

Record tree_wf (t : list entry) : Prop := mk_tree_wf { wf_paths : NoDup (epath <$> t); wf_sizes : ∀ e, e ∈ t → 0 ≤ Size e }.
Fixpoint total (es : list entry) : Z := match es with [] => 0 | e :: es => Size e + total es end.
Definition unlink (now : Time) (t : list entry) (f : entry) : list entry :=
  touch now [f] (List.filter (λ x, negb (bool_decide (epath x = epath f))) t).
Definition among (l : list entry) (e : entry) : bool := existsb (λ f, bool_decide (epath e = epath f)) l.

Lemma among_spec l e : among l e = true ↔ epath e ∈ epath <$> l.
Proof.
  unfold among. rewrite existsb_exists, list_elem_of_fmap. setoid_rewrite bool_decide_eq_true. setoid_rewrite <- list_elem_of_In. naive_solver.
Qed.
Lemma total_app l1 l2 : total (l1 ++ l2) = total l1 + total l2.
Proof. induction l1; cbn; lia. Qed.
#[export] Instance total_perm : Proper ((≡ₚ) ==> eq) total.
Proof. intros l1 l2 H. induction H; cbn; lia. Qed.
Lemma total_nonneg l : (∀ e, e ∈ l → 0 ≤ Size e) → 0 ≤ total l.
Proof. induction l as [|e l IH]; cbn; [lia|]. intros H. pose proof (H e ltac:(by left)). assert (0 ≤ total l); [|lia]. apply IH. intros x Hx. apply H. by right. Qed.
Lemma filter_split (q : entry → bool) l : l ≡ₚ List.filter q l ++ List.filter (λ e, negb (q e)) l.
Proof. induction l as [|e l IH]; cbn; [done|]. destruct (q e); cbn; rewrite IH at 1; [done|by rewrite Permutation_middle]. Qed.
Lemma filter_true (q : entry → bool) l : (∀ e, e ∈ l → q e = true) → List.filter q l = l.
Proof. intros H. induction l as [|e l IH]; cbn; [done|]. rewrite H by (by left). rewrite IH; [done|]. intros x Hx. apply H. by right. Qed.
Lemma filter_filter_and (q r : entry → bool) l : List.filter q (List.filter r l) = List.filter (λ e, r e && q e) l.
Proof. induction l as [|e l IH]; cbn; [done|]. destruct (r e); cbn; by rewrite IH. Qed.
Lemma filter_filter_comm (q r : entry → bool) l : List.filter q (List.filter r l) = List.filter r (List.filter q l).
Proof. induction l as [|e l IH]; cbn; [done|]. destruct (q e) eqn:Eq, (r e) eqn:Er; cbn; rewrite ?Eq, ?Er, IH; done. Qed.
Lemma filter_bool_perm (q : entry → bool) l1 l2 : l1 ≡ₚ l2 → List.filter q l1 ≡ₚ List.filter q l2.
Proof.
  induction 1 as [|x l1 l2 _ IH|x y l|l1 l2 l3 _ IH1 _ IH2]; cbn; [done|by destruct (q x); rewrite IH|destruct (q x), (q y); try done; apply Permutation_swap|by etrans].
Qed.
Lemma total_split (q : entry → bool) l : total l = total (List.filter q l) + total (List.filter (λ e, negb (q e)) l).
Proof. rewrite <- total_app. apply total_perm, filter_split. Qed.

Lemma add_sizes_total acc es : add_sizes (wrap64 acc) es = wrap64 (acc + total es).
Proof.
  revert acc. induction es as [|e es IH]; intros acc; cbn; [by rewrite Z.add_0_r|]. rewrite wrap64_add, IH. f_equal. lia.
Qed.

Lemma add_sizes_exact es : add_sizes 0 es = wrap64 (total es).
Proof. change 0 with (wrap64 0) at 1. apply add_sizes_total. Qed.

(** The files do not see a touch. *)
Lemma touch_paths now gone t : epath <$> touch now gone t = epath <$> t.
Proof. unfold touch. rewrite <- list_fmap_compose. apply list_fmap_ext. intros i e _. cbn. by destruct (_ && _). Qed.
Lemma files_touch p now gone t : files_under p (touch now gone t) = files_under p t.
Proof.
  unfold files_under, touch. induction t as [|e t IH]; [done|]. rewrite fmap_cons. cbn [List.filter]. rewrite IH. clear IH.
  destruct (IsDir e) eqn:Ed; cbn [andb]; [|by rewrite Ed]. destruct (existsb _ _); cbn [IsDir epath set_field]; by rewrite Ed, !andb_false_r.
Qed.
Lemma touch_wf now gone t : tree_wf t → tree_wf (touch now gone t).
Proof.
  intros [H1 H2]. split; [by rewrite touch_paths|]. intros e. unfold touch. rewrite list_elem_of_fmap. intros (x & -> & Hx).
  specialize (H2 x Hx). by destruct (_ && _).
Qed.
Lemma filter_wf (q : entry → bool) t : tree_wf t → tree_wf (List.filter q t).
Proof.
  intros [H1 H2]. split; [by apply NoDup_fmap_filter|]. intros e [He _]%elem_of_filter_bool. by apply H2.
Qed.
Lemma unlink_wf now t f : tree_wf t → tree_wf (unlink now t f).
Proof. intros. by apply touch_wf, filter_wf. Qed.
Lemma files_unlink p now t f : files_under p (unlink now t f) = List.filter (λ e, negb (bool_decide (epath e = epath f))) (files_under p t).
Proof. unfold unlink. rewrite files_touch. apply filter_filter_comm. Qed.
Lemma files_unlinks p now t l : files_under p (foldl (unlink now) t l) = List.filter (λ e, negb (among l e)) (files_under p t).
Proof.
  revert t. induction l as [|f l IH]; intros t; cbn [foldl].
  - by rewrite filter_true.
  - rewrite IH, files_unlink, filter_filter_and. apply List.filter_ext. intros e. unfold among at 2. cbn. by rewrite negb_orb.
Qed.
Lemma unlinks_wf now t l : tree_wf t → tree_wf (foldl (unlink now) t l).
Proof. revert t. induction l; cbn; [done|]. auto using unlink_wf. Qed.

(** Looking up. *)
Lemma at_path_in p t e : at_path p t = Some e → e ∈ t ∧ epath e = p.
Proof. intros H. apply List.find_some in H as [H1 H2]. apply list_elem_of_In in H1. by apply bool_decide_eq_true_1 in H2. Qed.
Lemma at_path_of t e : tree_wf t → e ∈ t → at_path (epath e) t = Some e.
Proof.
  intros [Hnd _] He. induction t as [|x t IH]; [by apply not_elem_of_nil in He|]. cbn in *. apply NoDup_cons in Hnd as [Hx Hnd].
  apply elem_of_cons in He as [->|He]; [by rewrite bool_decide_eq_true_2|].
  rewrite bool_decide_eq_false_2; [by apply IH|]. intros E. apply Hx. rewrite E. by apply list_elem_of_fmap_2.
Qed.
Lemma elem_of_files p t e : e ∈ files_under p t ↔ e ∈ t ∧ p `prefix_of` epath e ∧ IsDir e = false.
Proof.
  unfold files_under, under. rewrite elem_of_filter_bool, andb_true_iff, bool_decide_eq_true, negb_true_iff. naive_solver.
Qed.

(** ** Calls with a live context *)

Definition live (m : JobCleanupManager) : Prop := alive (ctx m) = None.
Definition files (m : JobCleanupManager) : list entry := files_under [] (tree m).

Lemma ctx_done_live m : live m → ctx_done m = (Ok None, m).
Proof. intros H. unfold ctx_done. by rewrite H. Qed.
Lemma Remove_exact now f m : tree_wf (tree m) → f ∈ files m →
  attempt (Remove now (epath f)) m =
    if locked (epath f) then (Ok (inr (ErrErrno 1 "operation not permitted")), m)
    else (Ok (inl tt), m <| tree := unlink now (tree m) f |>).
Proof.
  intros Hwf [Hf _]%elem_of_files. unfold attempt, Remove. rewrite at_path_of by done. by destruct (locked _).
Qed.
Lemma files_kept now f g m : g ∈ files m → epath g ≠ epath f → g ∈ files (m <| tree := unlink now (tree m) f |>).
Proof. intros Hg Hne. change (g ∈ files_under [] (unlink now (tree m) f)). rewrite files_unlink. apply elem_of_filter_bool. by rewrite bool_decide_eq_false_2. Qed.

(** ** Trimming a corpus *)

(** The files that the loop removes. *)
Fixpoint pick (targetSize : Z) (fs : list entry) (freed : Z) : list entry :=
  match fs with
  | [] => []
  | f :: rest =>
      if targetSize <=? freed then []
      else if locked (epath f) then pick targetSize rest freed
      else f :: pick targetSize rest (freed + Size f)
  end.

Lemma trim_loop_pick now target fs freed m : live m → tree_wf (tree m) → (∀ f, f ∈ fs → f ∈ files m) → NoDup (epath <$> fs) →
  0 ≤ freed → freed + total fs ≤ maxInt64 →
  trim_loop now target fs freed m =
    (Ok (freed + total (pick target fs freed)), m <| tree := foldl (unlink now) (tree m) (pick target fs freed) |>).
Proof.
  revert freed m. induction fs as [|f fs IH]; intros freed m Hl Hwf Hin Hnd Hf Hfit; cbn [trim_loop pick].
  { cbn. rewrite Z.add_0_r. by destruct m. }
  unfold io_bind. rewrite ctx_done_live by done. destruct (target <=? freed); cbn [total foldl].
  { rewrite Z.add_0_r. by destruct m. }
  apply NoDup_cons in Hnd as [Hnf Hnd]. pose proof (Hin f ltac:(by left)) as Hff.
  assert (0 ≤ Size f) by (apply elem_of_files in Hff as [? _]; by eapply wf_sizes).
  assert (0 ≤ total fs) by (apply total_nonneg; intros g Hg; eapply wf_sizes; [done|]; by apply elem_of_files with [], Hin; right).
  cbn [total] in Hfit. rewrite Remove_exact by done. destruct (locked (epath f)).
  { apply IH; try done; [|lia]. intros g Hg. apply Hin. by right. }
  rewrite wrap64_id by (unfold in_int64, minInt64; lia). rewrite IH; cbn [total foldl]; try done; try lia.
  - f_equal. f_equal. lia.
  - by apply unlink_wf.
  - intros g Hg. apply files_kept; [apply Hin; by right|]. intros E. apply Hnf. rewrite <- E. by apply list_elem_of_fmap_2.
Qed.

Lemma pick_sub target fs freed f : f ∈ pick target fs freed → f ∈ fs ∧ locked (epath f) = false.
Proof.
  revert freed. induction fs as [|g fs IH]; intros freed; cbn; [by intros ?%not_elem_of_nil|].
  destruct (target <=? freed); [by intros ?%not_elem_of_nil|]. destruct (locked (epath g)) eqn:El.
  - intros H%IH. split; [right|]; apply H.
  - intros [->|H%IH]%elem_of_cons; [split; [by left|done]|split; [right|]; apply H].
Qed.
Lemma pick_enough target fs freed :
  target ≤ freed + total (pick target fs freed) ∨ (∀ f, f ∈ fs → locked (epath f) = false → f ∈ pick target fs freed).
Proof.
  revert freed. induction fs as [|g fs IH]; intros freed; cbn [pick]; [right; by intros f ?%not_elem_of_nil|].
  destruct (target <=? freed) eqn:Et; [left; cbn; lia|]. destruct (locked (epath g)) eqn:El.
  - destruct (IH freed) as [H|H]; [by left|right]. intros f [->|Hf]%elem_of_cons ?; [congruence|by apply H].
  - destruct (IH (freed + Size g)) as [H|H]; [left; cbn; lia|right]. intros f [->|Hf]%elem_of_cons ?; [by left|right; by apply H].
Qed.
Lemma pick_oldest target fs freed f g : StronglySorted (λ a b, ModTime a ≤ ModTime b) fs →
  f ∈ pick target fs freed → g ∈ fs → g ∉ pick target fs freed → locked (epath g) = false → ModTime f ≤ ModTime g.
Proof.
  revert freed. induction fs as [|x fs IH]; intros freed Hs; cbn [pick]; [by intros ?%not_elem_of_nil|].
  destruct (target <=? freed); [by intros ?%not_elem_of_nil|]. apply StronglySorted_inv in Hs as [Hs Hx]. rewrite Forall_forall in Hx.
  destruct (locked (epath x)) eqn:El.
  - intros Hf [->|Hg]%elem_of_cons Hn Hl; [congruence|by eapply IH].
  - intros [->|Hf]%elem_of_cons Hg Hn Hl; apply elem_of_cons in Hg as [->|Hg].
    + lia.
    + by apply Hx.
    + destruct Hn. by left.
    + eapply IH; [done|exact Hf|done| |done]. intros H. apply Hn. by right.
Qed.
Lemma pick_needed target fs freed l r : (∀ f, f ∈ fs → 0 ≤ Size f) → pick target fs freed = l ++ [r] → freed + total l < target.
Proof.
  revert freed l. induction fs as [|x fs IH]; intros freed l Hs; cbn [pick]; [by destruct l|].
  assert (∀ f, f ∈ fs → 0 ≤ Size f) as Hs' by (intros f Hf; apply Hs; by right).
  destruct (target <=? freed) eqn:Et; [by destruct l|]. destruct (locked (epath x)); [by apply IH|].
  destruct l as [|y l]; cbn; [lia|]. intros [= -> H]. apply IH in H; [lia|done].
Qed.

Lemma perm_without gone fs : gone `sublist_of` fs → NoDup (epath <$> fs) → fs ≡ₚ gone ++ List.filter (λ e, negb (among gone e)) fs.
Proof.
  induction 1 as [|x gone fs Hs IH|x gone fs Hs IH]; [done|intros [Hx Hnd]%NoDup_cons..]; cbn [List.filter app].
  - assert (among (x :: gone) x = true) as -> by (apply among_spec; by left). cbn [negb]. f_equiv. rewrite (IH Hnd) at 1. f_equiv.
    apply reflexive_eq, filter_ext_in. intros e He%list_elem_of_In. unfold among. cbn.
    rewrite bool_decide_eq_false_2; [done|]. intros E. apply Hx. rewrite <- E. by apply list_elem_of_fmap_2.
  - assert (among gone x = false) as ->.
    { apply not_true_is_false. rewrite among_spec. intros (y & E & Hy)%list_elem_of_fmap. apply Hx. rewrite E. apply list_elem_of_fmap_2.
      by eapply elem_of_submseteq, sublist_submseteq. }
    cbn [negb]. by rewrite <- Permutation_middle, <- IH.
Qed.
Lemma pick_sublist target fs freed : pick target fs freed `sublist_of` fs.
Proof.
  revert freed. induction fs as [|f fs IH]; intros freed; cbn [pick]; [done|]. destruct (target <=? freed); [apply sublist_nil_l|].
  destruct (locked _); [by apply sublist_cons|by apply sublist_skip].
Qed.
Lemma by_age_sorted fs : by_age fs ≡ₚ fs ∧ StronglySorted (λ a b, ModTime a ≤ ModTime b) (by_age fs).
Proof. apply (proj1 (exchange_sort_key ModTime fs)). Qed.
Lemma files_under_files p m f : f ∈ files_under p (tree m) → f ∈ files m.
Proof. intros (H1 & _ & H2)%elem_of_files. apply elem_of_files. split_and!; [done|apply prefix_nil|done]. Qed.

(** What trimming removes, and what it leaves. *)
Definition trimmed (maxSize : Z) (fs : list entry) : list entry :=
  if total fs <=? maxSize then [] else pick (total fs - maxSize) (by_age fs) 0.
Lemma trim_result now dir maxSize m : live m → tree_wf (tree m) → total (files_under dir (tree m)) ≤ maxInt64 → 0 ≤ maxSize →
  let gone := trimmed maxSize (files_under dir (tree m)) in
  trimCorpusDirectory now dir maxSize m = (Ok (total gone), m <| tree := foldl (unlink now) (tree m) gone |>).
Proof.
  intros Hl Hwf Hfit Hmax. unfold trimCorpusDirectory, trimmed, io_bind, io_get. set (fs := files_under dir (tree m)) in *.
  assert (∀ f, f ∈ fs → 0 ≤ Size f) as Hpos by (intros f [? _]%elem_of_files; by eapply wf_sizes).
  pose proof (total_nonneg fs Hpos). rewrite add_sizes_exact, wrap64_id by (unfold in_int64, minInt64; lia).
  destruct (total fs <=? maxSize) eqn:Em; cbn [total foldl]; [by destruct m|].
  destruct (by_age_sorted fs) as [Hp _]. rewrite wrap64_id by (unfold in_int64, minInt64; lia). apply trim_loop_pick; [done|done| |..].
  - intros f. rewrite Hp. apply files_under_files.
  - rewrite Hp. by apply NoDup_fmap_filter, wf_paths.
  - lia.
  - rewrite Hp. lia.
Qed.

(** A corpus over its limit loses its oldest files.  When the context stays
    alive, trimming a directory removes files that can be removed, each no newer
    than any such file that it leaves, and none that was not needed to get below
    the limit; then the limit holds, or nothing is left that can be removed, and
    the result is the size of what went. *)
Theorem trim_exact (now : Time) (dir : relpath) (maxSize : Z) (m : JobCleanupManager) (Hlive : live m) (Hwf : tree_wf (tree m))
    (Hfit : total (files_under dir (tree m)) ≤ maxInt64) (Hmax : 0 ≤ maxSize) :
  ∃ gone m', trimCorpusDirectory now dir maxSize m = (Ok (total gone), m') ∧
    files_under dir (tree m) ≡ₚ gone ++ files_under dir (tree m') ∧
    (∀ f, f ∈ gone → locked (epath f) = false ∧ ∀ g, g ∈ files_under dir (tree m') → locked (epath g) = false → ModTime f ≤ ModTime g) ∧
    (∀ l f, gone = l ++ [f] → maxSize < total (files_under dir (tree m)) - total l) ∧
    (total (files_under dir (tree m')) ≤ maxSize ∨ ∀ g, g ∈ files_under dir (tree m') → locked (epath g) = true).
Proof.
  eexists _, _. split; [by apply trim_result|]. cbn [tree set_field]. set (fs := files_under dir (tree m)) in *.
  rewrite files_unlinks. fold fs. unfold trimmed. destruct (total fs <=? maxSize) eqn:Em.
  { rewrite filter_true by done. split_and!; [done|by intros f ?%not_elem_of_nil|by intros [] ?|left; lia]. }
  destruct (by_age_sorted fs) as [Hp Hs]. set (sorted := by_age fs) in *. set (gone := pick _ _ _).
  assert (NoDup (epath <$> sorted)) as Hnd by (rewrite Hp; by apply NoDup_fmap_filter, wf_paths).
  assert (fs ≡ₚ gone ++ List.filter (λ e, negb (among gone e)) fs) as Hperm.
  { rewrite <- Hp at 1. rewrite (perm_without gone sorted) by (done || apply pick_sublist). f_equiv. by apply filter_bool_perm. }
  assert (∀ g, g ∈ List.filter (λ e, negb (among gone e)) fs → g ∈ sorted ∧ g ∉ gone) as Hleft.
  { intros g [Hg Ha%negb_true_iff]%elem_of_filter_bool. split; [by rewrite Hp|]. intros H.
    apply not_true_iff_false in Ha. apply Ha, among_spec. by apply list_elem_of_fmap_2. }
  split_and!; [exact Hperm|..].
  - intros f Hf. split; [by eapply pick_sub|]. intros g [Hg1 Hg2]%Hleft Hl. by eapply pick_oldest.
  - intros l f E. apply pick_needed in E; [lia|]. intros g. rewrite Hp. intros [? _]%elem_of_files. by eapply wf_sizes.
  - destruct (pick_enough (total fs - maxSize) sorted 0) as [H|H].
    + left. fold gone in H. rewrite Hperm, total_app in H at 1. lia.
    + right. intros g [Hg1 Hg2]%Hleft. destruct (locked (epath g)) eqn:El; [done|]. destruct Hg2. by apply H.
Qed.

(** ** Removing files on a walk *)

(** A visit that panics at [bad] files and removes the [test] ones. *)
Definition sweeps (now : Time) (bad test : entry → bool) (why : string)
    (visit : Z * Z → entry → io JobCleanupManager ((Z * Z) * option goerror)) : Prop :=
  (∀ e, IsDir e = true → bad e = false ∧ test e = false) ∧
  ∀ acc e m, live m → visit acc e m =
    if bad e then (Panic why, m) else if test e then remove_file now e acc m else (Ok (acc, None), m).
Definition swept (test : entry → bool) (es : list entry) : list entry := List.filter (λ e, test e && negb (locked (epath e))) es.

(** What the listing says still holds. *)
Definition seen (m : JobCleanupManager) (e : entry) : Prop :=
  if IsDir e then ∀ x, x ∈ tree m → epath x = epath e → IsDir x = true else e ∈ files m.

Lemma touch_elem now gone t x : x ∈ touch now gone t → ∃ y, y ∈ t ∧ epath y = epath x ∧ IsDir y = IsDir x.
Proof. unfold touch. rewrite list_elem_of_fmap. intros (y & -> & Hy). exists y. by destruct (_ && _). Qed.
Lemma seen_unlink now f e m : seen m e → epath e ≠ epath f → seen (m <| tree := unlink now (tree m) f |>) e.
Proof.
  unfold seen. destruct (IsDir e); [|by apply files_kept]. intros H Hne x Hx Hp.
  apply touch_elem in Hx as (y & [Hy _]%elem_of_filter_bool & E1 & E2). rewrite <- E2. apply H; congruence.
Qed.

Lemma walk_sweep_step now bad test why visit e ps a b m : sweeps now bad test why visit → live m → tree_wf (tree m) → seen m e →
  walk visit (epath e :: ps) (wrap64 a, wrap64 b) m =
    if bad e then (Panic why, m)
    else if test e && negb (locked (epath e))
    then walk visit ps (wrap64 (a + Size e), wrap64 (b + 1)) (m <| tree := unlink now (tree m) e |>)
    else walk visit ps (wrap64 a, wrap64 b) m.
Proof.
  intros [Hd Hv] Hl Hwf He. cbn [walk]. unfold io_bind, io_get. unfold seen in He. destruct (IsDir e) eqn:Ed.
  - destruct (Hd e Ed) as [-> ->]. cbn [andb]. destruct (at_path (epath e) (tree m)) as [x|] eqn:Ex; [|done].
    apply at_path_in in Ex as [Hx1 Hx2]. destruct (Hd x (He x Hx1 Hx2)) as [Eb Et]. by rewrite Hv, Eb, Et by done.
  - rewrite (at_path_of _ e Hwf) by (by apply elem_of_files in He as [? _]). rewrite Hv by done.
    destruct (bad e); [done|]. destruct (test e); cbn [andb]; [|done].
    unfold remove_file, io_bind. rewrite Remove_exact by done. destruct (locked (epath e)); cbn [negb]; [done|].
    cbn [fst snd io_ret]. by rewrite !wrap64_add.
Qed.
Lemma walk_sweep now bad test why visit es a b m : sweeps now bad test why visit → live m → tree_wf (tree m) →
  NoDup (epath <$> es) → (∀ e, e ∈ es → seen m e) →
  if existsb bad es then ∃ m', walk visit (epath <$> es) (wrap64 a, wrap64 b) m = (Panic why, m')
  else walk visit (epath <$> es) (wrap64 a, wrap64 b) m =
    (Ok ((wrap64 (a + total (swept test es)), wrap64 (b + Z.of_nat (length (swept test es)))), None),
     m <| tree := foldl (unlink now) (tree m) (swept test es) |>).
Proof.
  intros Hs. revert a b m. induction es as [|e es IH]; intros a b m Hl Hwf Hnd Hseen.
  { cbn. rewrite !Z.add_0_r. by destruct m. }
  rewrite fmap_cons in *. apply NoDup_cons in Hnd as [Hne Hnd]. rewrite (walk_sweep_step now bad test why) by (done || apply Hseen; by left).
  assert (∀ x, x ∈ es → seen m x) as Hrest by (intros x Hx; apply Hseen; by right).
  unfold swept. cbn [existsb List.filter]. destruct (bad e); cbn [orb]; [by eexists|].
  destruct (test e && negb (locked (epath e))); [|by apply IH].
  cbn [total length foldl]. rewrite Nat2Z.inj_succ, Z.add_assoc. fold (swept test es).
  replace (b + Z.succ (Z.of_nat (length (swept test es)))) with (b + 1 + Z.of_nat (length (swept test es))) by lia.
  specialize (IH (a + Size e) (b + 1) (m <| tree := unlink now (tree m) e |>)).
  pose proof (unlink_wf now _ e Hwf) as Hwf'.
  assert (∀ x, x ∈ es → seen (m <| tree := unlink now (tree m) e |>) x) as Hseen'.
  { intros x Hin. apply seen_unlink; [by apply Hrest|]. intros E. apply Hne. rewrite <- E. by apply list_elem_of_fmap_2. }
  destruct (existsb bad es); by apply IH.
Qed.

(** ** Old crash files *)

Definition short_name (e : entry) : bool := negb (IsDir e) && (String.length (name e) <? 6)%nat.
Definition old_crash (cutoffTime : Time) (e : entry) : bool :=
  negb (IsDir e) && String.eqb (String.substring 0 6 (name e)) "crash-" && time_before (ModTime e) cutoffTime.
Definition old_log (cutoffTime : Time) (e : entry) : bool :=
  negb (IsDir e) && String.eqb (Ext (name e)) ".log" && time_before (ModTime e) cutoffTime.
Definition bounds_panic : string := "slice bounds out of range".

Lemma crash_sweeps now cutoff : sweeps now short_name (old_crash cutoff) bounds_panic (visit_crash now cutoff).
Proof.
  split; [by intros e He; unfold short_name, old_crash; rewrite He|]. intros acc e m Hl. unfold visit_crash, io_bind. rewrite ctx_done_live by done.
  unfold short_name, old_crash. destruct (IsDir e); [done|]. unfold substr. cbn [negb andb Z.leb].
  destruct (Nat.ltb_spec (String.length (name e)) 6) as [Hn|Hn].
  - replace (6 <=? Z.of_nat (String.length (name e))) with false by lia. done.
  - replace (6 <=? Z.of_nat (String.length (name e))) with true by lia. change (Z.to_nat 0) with 0%nat. change (Z.to_nat (6 - 0)) with 6%nat. change ((0 <=? 0) && (0 <=? 6) && true) with true. cbv iota. by destruct (String.eqb _ _ && _).
Qed.
Lemma log_sweeps now cutoff : sweeps now (λ _, false) (old_log cutoff) "" (visit_log now cutoff).
Proof.
  split; [by intros e He; unfold old_log; rewrite He|]. intros acc e m Hl. unfold visit_log, io_bind, old_log. rewrite ctx_done_live by done. by destruct (_ && _).
Qed.
Lemma seen_all m e : tree_wf (tree m) → e ∈ tree m → seen m e.
Proof.
  intros Hwf He. unfold seen. destruct (IsDir e) eqn:Ed; [|apply elem_of_files; split_and!; [done|apply prefix_nil|done]].
  intros x Hx Ep. pose proof (at_path_of _ _ Hwf Hx) as H1. rewrite Ep, (at_path_of _ _ Hwf He) in H1. by injection H1 as <-.
Qed.
Lemma paths_all t : paths_under [] t = epath <$> t.
Proof. unfold paths_under. rewrite filter_true; [done|]. intros e _. by apply bool_decide_eq_true_2, prefix_nil. Qed.

(** A short file name is the end of the bot.  When the context stays alive,
    the removal of old crash files panics if any file in the tree has a name of
    less than six characters; otherwise it removes exactly the old crash files
    that can be removed, and returns their size. *)
Theorem crash_cleanup_exact (now : Time) (m : JobCleanupManager) (Hdir : workDir ≠ "") (Hlive : live m) (Hwf : tree_wf (tree m)) :
  let gone := swept (old_crash (time_add now (- MaxCrashAge (policy m)))) (tree m) in
  if existsb short_name (tree m) then ∃ m', cleanCrashFiles now m = (Panic bounds_panic, m')
  else ∃ m', cleanCrashFiles now m = (Ok (wrap64 (total gone)), m') ∧
    files m' = List.filter (λ e, negb (among gone e)) (files m) ∧
    CrashFilesCleaned (stats m') = wrap64 (CrashFilesCleaned (stats m) + wrap64 (Z.of_nat (length gone))).
Proof.
  intros gone. unfold cleanCrashFiles. destruct (String.eqb_spec workDir ""); [done|]. unfold Walk, io_bind, io_get. rewrite paths_all.
  pose proof (walk_sweep now _ _ _ _ (tree m) 0 0 m (crash_sweeps now (time_add now (- MaxCrashAge (policy m)))) Hlive Hwf (wf_paths _ Hwf) (λ e, seen_all m e Hwf)) as H.
  fold gone in H. change (wrap64 0) with 0 in H. destruct (existsb short_name (tree m)).
  - destruct H as [m' H]. exists m'. by rewrite H.
  - rewrite H. eexists. split; [reflexivity|]. split; [|done]. apply files_unlinks.
Qed.

(** ** Whole runs *)

Definition frame (m m' : JobCleanupManager) : Prop :=
  policy m' = policy m ∧ ctx m' = ctx m ∧ BytesFreed (stats m') = BytesFreed (stats m).
Record healthy (m : JobCleanupManager) : Prop := mk_healthy {
  h_live : live m; h_wf : tree_wf (tree m); h_fit : total (files m) ≤ maxInt64; h_max : 0 ≤ MaxCorpusSize (policy m) }.
Definition open_tree : Prop := ∀ p, locked p = false.

Lemma files_nonneg m : tree_wf (tree m) → ∀ e, e ∈ files m → 0 ≤ Size e.
Proof. intros Hwf e [He _]%elem_of_files. by eapply wf_sizes. Qed.
Lemma files_total m : healthy m → 0 ≤ total (files m) ≤ maxInt64.
Proof. intros [_ Hwf Hfit _]. split; [|done]. apply total_nonneg. by apply files_nonneg. Qed.

Lemma RemoveAll_cases now p m : tree_wf (tree m) → ∃ r t', RemoveAll now p m = (r, m <| tree := t' |>) ∧ tree_wf t' ∧
  (open_tree → r = Ok tt) ∧ (r = Ok tt ∧ (∀ e, e ∈ t' → under p (epath e) = false) ∨ ∃ e, r = Err e) ∧
  files_under [] t' = List.filter (λ e, negb (under p (epath e) && negb (stuck (tree m) e))) (files m).
Proof.
  intros Hwf. eexists _, _. split; [reflexivity|]. split_and!.
  - by apply touch_wf, filter_wf.
  - intros Ho. match goal with |- (if ?b then _ else _) = _ => assert (b = false) as ->; [|done] end.
    apply not_true_iff_false. rewrite existsb_exists. intros (x & Hx & Hu). apply list_elem_of_In, touch_elem in Hx as (y & [_ Hy]%elem_of_filter_bool & E & _).
    rewrite E, Hu in Hy. apply negb_true_iff in Hy. cbn in Hy. apply negb_false_iff in Hy.
    unfold stuck in Hy. apply existsb_exists in Hy as (z & _ & Hz). by rewrite Ho in Hz.
  - destruct (existsb _ _) eqn:Ex; [right; by eexists|left; split; [done|]]. intros e He. apply not_true_iff_false. intros Hu.
    apply not_true_iff_false in Ex. apply Ex, existsb_exists. exists e. by rewrite <- list_elem_of_In.
  - rewrite files_touch. apply filter_filter_comm.
Qed.

Lemma total_removed p m t' : healthy m → (∀ e, e ∈ t' → under p (epath e) = false) →
  files_under [] t' = List.filter (λ e, negb (under p (epath e) && negb (stuck (tree m) e))) (files m) →
  getDirectorySize p (tree m) + total (files_under [] t') = total (files m) ∧ 0 ≤ getDirectorySize p (tree m).
Proof.
  intros Hh Hno E. assert (files_under p (tree m) = List.filter (λ e, under p (epath e)) (files m)) as Hp.
  { unfold files, files_under. rewrite filter_filter_and. apply List.filter_ext. intros e. unfold under at 2. rewrite bool_decide_eq_true_2 by apply prefix_nil.
    cbn. by rewrite andb_comm. }
  assert (files_under [] t' = List.filter (λ e, negb (under p (epath e))) (files m)) as E'.
  { rewrite E. apply filter_ext_in. intros e He%list_elem_of_In. destruct (under p (epath e)) eqn:Hu; [|done]. cbn.
    destruct (stuck (tree m) e) eqn:Es; [|done]. assert (e ∈ files_under [] t') as [Ht _]%elem_of_files.
    { rewrite E. apply elem_of_filter_bool. by rewrite Hu, Es. } specialize (Hno e Ht). congruence. }
  pose proof (total_split (λ e, under p (epath e)) (files m)) as Ht. rewrite <- Hp, <- E' in Ht. cbv beta in Ht.
  pose proof (files_total m Hh). assert (0 ≤ total (files_under p (tree m))) by (apply total_nonneg; intros e [? _]%elem_of_files; eapply wf_sizes; [apply Hh|done]).
  assert (0 ≤ total (files_under [] t')).
  { apply total_nonneg. intros e. rewrite E'. intros [? _]%elem_of_filter_bool. by eapply files_nonneg; [apply Hh|]. }
  unfold getDirectorySize. rewrite add_sizes_exact, wrap64_id by (unfold in_int64, minInt64; lia). lia.
Qed.
Lemma healthy_fewer m t' : healthy m → tree_wf t' → total (files_under [] t') ≤ total (files m) → healthy (m <| tree := t' |>).
Proof. intros Hh Hwf Hle. split; [apply Hh|exact Hwf| |apply Hh]. change (total (files_under [] t') ≤ maxInt64). pose proof (h_fit _ Hh). lia. Qed.

Definition old_dir (cutoff : Time) (d : entry) : bool := IsDir d && time_before (ModTime d) cutoff.
Lemma clean_jobs_ok now cutoff dirs freed n m : healthy m → 0 ≤ freed → freed + total (files m) ≤ maxInt64 →
  ∃ freed' n' t', clean_jobs now cutoff dirs freed n m = (Ok (freed', n'), m <| tree := t' |>) ∧ tree_wf t' ∧
    (∀ e, e ∈ files m → existsb (λ d, old_dir cutoff d && under (epath d) (epath e)) dirs = false → e ∈ files_under [] t') ∧
    total (files_under [] t') ≤ total (files m) ∧ 0 ≤ freed' ∧ freed' + total (files_under [] t') ≤ freed + total (files m) ∧
    (open_tree → freed' + total (files_under [] t') = freed + total (files m)).
Proof.
  revert freed n m. induction dirs as [|d dirs IH]; intros freed n m Hh Hf Hfit; cbn [clean_jobs existsb].
  { exists freed, n, (tree m). destruct m; split_and!; [done|apply Hh|done|cbn; lia..]. }
  unfold io_bind. rewrite ctx_done_live by apply Hh. unfold old_dir. destruct (IsDir d); cbn [negb andb]; [|by apply IH].
  destruct (time_before (ModTime d) cutoff); [|by apply IH]. unfold io_get, attempt.
  destruct (RemoveAll_cases now (epath d) m (h_wf _ Hh)) as (r & t1 & E & Hwf1 & Ho & Hr & Ef). rewrite E.
  assert (total (files_under [] t1) ≤ total (files m)) as Hle.
  { pose proof (total_split (λ e, under (epath d) (epath e) && negb (stuck (tree m) e)) (files m)) as Ht. cbv beta in Ht. rewrite <- Ef in Ht.
    pose proof (total_nonneg (List.filter (λ e, under (epath d) (epath e) && negb (stuck (tree m) e)) (files m))) as Hn. cbv beta in Hn.
    enough (0 ≤ total (List.filter (λ e, under (epath d) (epath e) && negb (stuck (tree m) e)) (files m))) by lia.
    apply Hn. intros e [? _]%elem_of_filter_bool. by eapply files_nonneg; [apply Hh|]. }
  assert (∀ e, e ∈ files m → under (epath d) (epath e) = false → e ∈ files_under [] t1) as Hkeep.
  { intros e He Hu. rewrite Ef. apply elem_of_filter_bool. by rewrite Hu. }
  pose proof (healthy_fewer m t1 Hh Hwf1 Hle) as Hh1.
  assert (∀ freed1 n1, 0 ≤ freed1 → freed1 + total (files_under [] t1) ≤ freed + total (files m) →
    (open_tree → freed1 + total (files_under [] t1) = freed + total (files m)) → ∃ freed' n' t',
    clean_jobs now cutoff dirs freed1 n1 (m <| tree := t1 |>) = (Ok (freed', n'), m <| tree := t' |>) ∧ tree_wf t' ∧
    (∀ e, e ∈ files m → under (epath d) (epath e) || existsb (λ d, old_dir cutoff d && under (epath d) (epath e)) dirs = false → e ∈ files_under [] t') ∧
    total (files_under [] t') ≤ total (files m) ∧ 0 ≤ freed' ∧ freed' + total (files_under [] t') ≤ freed + total (files m) ∧
    (open_tree → freed' + total (files_under [] t') = freed + total (files m))) as Hgo.
  { intros freed1 n1 H1 H2 H3. change (files_under [] t1) with (files (m <| tree := t1 |>)) in *.
    destruct (IH freed1 n1 (m <| tree := t1 |>) Hh1 H1) as (freed' & n' & t' & -> & H5 & H6 & H7 & H8 & H9 & H10); [lia|].
    exists freed', n', t'. split_and!; [done|done| |lia|done|lia|intros Hop; specialize (H3 Hop); specialize (H10 Hop); lia].
    intros e He [Hu Hd]%orb_false_iff. apply H6; [by apply Hkeep|done]. }
  destruct Hr as [[-> Hno]|[e ->]].
  - destruct (total_removed (epath d) m t1 Hh Hno Ef) as [Ht Hs]. pose proof (files_total m Hh).
    assert (0 ≤ total (files_under [] t1)) by (apply total_nonneg; intros x [? _]%elem_of_files; by eapply wf_sizes).
    rewrite (wrap64_id (freed + _)) by (unfold in_int64, minInt64; lia). apply Hgo; lia.
  - apply Hgo; [done|lia|]. intros Hop. discriminate (Ho Hop).
Qed.

(** What a cleanup promises: the bytes it says it freed are gone; and when
    everything can be removed, no more are. *)
Definition accounted (m m' : JobCleanupManager) (freed : Z) : Prop :=
  healthy m' ∧ frame m m' ∧ 0 ≤ freed ∧ freed + total (files m') ≤ total (files m) ∧
  (open_tree → freed + total (files m') = total (files m)).
Definition accounts (clean : io JobCleanupManager Z) : Prop := ∀ m, healthy m →
  wp clean (λ r m', match r with Ok freed => accounted m m' freed | Err _ => accounted m m' 0 | Panic _ => True end) m.

Lemma accounted_none m : healthy m → accounted m m 0.
Proof. intros H. split_and!; [done|done..|lia|lia|lia]. Qed.
Lemma accounted_stats m t' s freed : accounted m (m <| tree := t' |>) freed → BytesFreed s = BytesFreed (stats m) →
  accounted m (m <| tree := t' |> <| stats := s |>) freed.
Proof. intros ([H1 H2 H3 H4] & (H5 & H6 & _) & H7) Hs. split; [by split|]. split; [by split_and!|done]. Qed.

Lemma jobs_ok now m : healthy m → ∃ r m', cleanJobDirectories now m = (r, m') ∧
  match r with Ok freed => accounted m m' freed | Err _ => accounted m m' 0 | Panic _ => False end ∧ policy m' = policy m ∧
  (∀ e, e ∈ files m → existsb (λ d, is_child d && old_dir (time_add now (- MaxJobAge (policy m))) d && under (epath d) (epath e)) (tree m) = false →
     e ∈ files m').
Proof.
  intros Hh. unfold cleanJobDirectories. destruct (String.eqb workDir ""); [eexists _, m; split_and!; [done|by apply accounted_none|done..]|].
  unfold io_bind, io_get. cbn [id]. destruct (at_path [] (tree m)) as [root|]; [|eexists _, m; split_and!; [done|by apply accounted_none|done..]].
  destruct (negb (IsDir root)); [eexists _, m; split_and!; [done|by apply accounted_none|done..]|].
  pose proof (files_total m Hh).
  destruct (clean_jobs_ok now (time_add now (- MaxJobAge (policy m))) (List.filter is_child (tree m)) 0 0 m Hh) as (freed & n & t' & E & H1 & H2 & H3 & H4 & H5 & H6); [lia|lia|].
  cbn [id]. unfold id. rewrite E. eexists _, _. split_and!; [done| |done|].
  - apply accounted_stats; [|done]. split; [by apply healthy_fewer|]. split_and!; [done..|]. intros Ho. by rewrite <- (Z.add_0_l (total (files m))), <- H6.
  - intros e He Hx. apply H2; [done|]. clear -Hx. induction (tree m) as [|d t IH]; cbn in *; [done|].
    apply orb_false_iff in Hx as [Hd Hx]. destruct (is_child d); cbn in *; [apply orb_false_iff; split|]; auto.
Qed.

Lemma total_unlinks now m gone fs : gone `sublist_of` fs → fs ≡ₚ files m → tree_wf (tree m) →
  total (files m) = total gone + total (files_under [] (foldl (unlink now) (tree m) gone)).
Proof.
  intros Hs Hp Hwf. rewrite files_unlinks, <- (filter_bool_perm _ fs) by done. rewrite <- Hp, <- total_app. apply total_perm, perm_without; [done|].
  rewrite Hp. by apply NoDup_fmap_filter, wf_paths.
Qed.
Lemma unlinks_healthy now m gone fs : gone `sublist_of` fs → fs ≡ₚ files m → healthy m →
  healthy (m <| tree := foldl (unlink now) (tree m) gone |>) ∧
  total gone + total (files (m <| tree := foldl (unlink now) (tree m) gone |>)) = total (files m) ∧ 0 ≤ total gone.
Proof.
  intros Hs Hp Hh. pose proof (total_unlinks now m gone fs Hs Hp (h_wf _ Hh)) as Ht.
  assert (0 ≤ total gone).
  { apply total_nonneg. intros e He. eapply files_nonneg; [apply Hh|]. rewrite <- Hp. by eapply elem_of_submseteq, sublist_submseteq. }
  split; [|split; [symmetry; exact Ht|done]]. apply healthy_fewer; [done|apply unlinks_wf, Hh|lia].
Qed.
Lemma swept_sublist m test : (∀ e, IsDir e = true → test e = false) → swept test (tree m) `sublist_of` files m.
Proof.
  intros Ht. unfold swept, files, files_under, under. induction (tree m) as [|e t IH]; cbn [List.filter]; [done|].
  rewrite bool_decide_eq_true_2 by apply prefix_nil. cbn [andb]. destruct (IsDir e) eqn:Ed; cbn [negb].
  - by rewrite (Ht e Ed).
  - destruct (test e && _); [by apply sublist_skip|by apply sublist_cons].
Qed.

(** The two removals by file name. *)
Lemma sweep_accounts now op count bad test why visit m : sweeps now bad test why visit →
  (∀ n s, BytesFreed (count n s) = BytesFreed s) → healthy m →
  wp (let* r := Walk [] visit (0, 0) in finish_walk op count r)
     (λ r m', match r with Ok freed => accounted m m' freed | Err _ => accounted m m' 0 | Panic _ => True end) m.
Proof.
  intros Hs Hc Hh. unfold wp, Walk, io_bind, io_get. rewrite paths_all.
  pose proof (walk_sweep now bad test why visit (tree m) 0 0 m Hs (h_live _ Hh) (h_wf _ Hh) (wf_paths _ (h_wf _ Hh)) (λ e, seen_all m e (h_wf _ Hh))) as H.
  change (wrap64 0) with 0 in H. destruct (existsb bad (tree m)); [by destruct H as [m' ->]|]. rewrite H.
  destruct (unlinks_healthy now m (swept test (tree m)) (files m)) as (H1 & H2 & H3); [apply swept_sublist; by apply Hs|done|done|].
  pose proof (files_total m Hh). pose proof (files_total _ H1). rewrite Z.add_0_l, wrap64_id by (unfold in_int64, minInt64; lia).
  cbn. apply accounted_stats; [|by rewrite Hc]. split; [done|]. split_and!; [done..|apply Z.eq_le_incl, H2|intros _; exact H2].
Qed.
Lemma crash_accounts now : accounts (cleanCrashFiles now).
Proof.
  intros m Hh. unfold cleanCrashFiles. destruct (String.eqb workDir ""); [by apply wp_ret, accounted_none|].
  apply wp_bind. unfold wp at 1. cbn. eapply sweep_accounts; [apply crash_sweeps|done|done].
Qed.
Lemma log_accounts now : accounts (cleanLogs now).
Proof.
  intros m Hh. unfold cleanLogs. destruct (String.eqb workDir ""); [by apply wp_ret, accounted_none|].
  apply wp_bind. unfold wp at 1. cbn. eapply sweep_accounts; [apply log_sweeps|done|done].
Qed.

Lemma accounted_trans m m1 m2 f1 f2 : accounted m m1 f1 → accounted m1 m2 f2 → accounted m m2 (f1 + f2).
Proof.
  intros (_ & (H1 & H2 & H3) & H4 & H5 & H6) (H7 & (H8 & H9 & H10) & H11 & H12 & H13). split; [done|]. split; [split_and!; congruence|].
  split_and!; [lia|lia|]. intros Ho. specialize (H6 Ho). specialize (H13 Ho). lia.
Qed.
Lemma accounted_wrap m m' freed : accounted m m' freed → healthy m → wrap64 freed = freed.
Proof. intros (H1 & _ & H2 & H3 & _) Hh. pose proof (files_total m Hh). pose proof (files_total m' H1). apply wrap64_id. unfold in_int64, minInt64. lia. Qed.

Lemma trim_accounted now dir m : healthy m → ∃ freed m',
  trimCorpusDirectory now dir (MaxCorpusSize (policy m)) m = (Ok freed, m') ∧ accounted m m' freed.
Proof.
  intros Hh. set (fs := files_under dir (tree m)).
  assert (∃ fs', fs' ≡ₚ files m ∧ trimmed (MaxCorpusSize (policy m)) fs `sublist_of` fs' ∧ total fs ≤ total fs') as (fs' & Hp & Hs & Hle).
  { destruct (by_age_sorted fs) as [Hb _]. exists (by_age fs ++ List.filter (λ e, negb (under dir (epath e))) (files m)).
    assert (fs = List.filter (λ e, under dir (epath e)) (files m)) as Hf.
    { unfold fs, files, files_under. rewrite filter_filter_and. apply List.filter_ext. intros e. unfold under at 2.
      rewrite bool_decide_eq_true_2 by apply prefix_nil. cbn. by rewrite andb_comm. }
    split_and!.
    - rewrite Hb, Hf. symmetry. apply filter_split.
    - unfold trimmed. destruct (_ <=? _); [apply sublist_nil_l|]. apply sublist_inserts_r, pick_sublist.
    - rewrite total_app, Hb. enough (0 ≤ total (List.filter (λ e, negb (under dir (epath e))) (files m))) by lia.
      apply total_nonneg. intros e [? _]%elem_of_filter_bool. by eapply files_nonneg; [apply Hh|]. }
  destruct (unlinks_healthy now m _ fs' Hs Hp Hh) as (H1 & H2 & H3). eexists _, _. split.
  - apply trim_result; try apply Hh. pose proof (h_fit _ Hh). rewrite Hp in Hle. fold fs. lia.
  - split; [done|]. split_and!; [done..|by apply Z.eq_le_incl|by intros _].
Qed.
Lemma walk_corpora now m0 ps acc m : healthy m0 → accounted m0 m acc.1 →
  match walk (visit_corpus now (MaxCorpusSize (policy m0))) ps acc m with
  | (Ok (acc', None), m') => accounted m0 m' acc'.1
  | _ => False
  end.
Proof.
  intros Hh. revert acc m. induction ps as [|p ps IH]; intros acc m Ha; cbn [walk]; [done|]. unfold io_bind at 1, io_get.
  destruct (at_path p (tree m)) as [e|]; [|by apply IH]. unfold io_bind at 1, visit_corpus. unfold io_bind at 1.
  rewrite ctx_done_live by apply Ha. destruct (IsDir e && String.eqb (name e) "corpus"); [|by apply IH].
  unfold io_bind at 1, io_get. destruct (MaxCorpusSize (policy m0) <? _); [|by apply IH]. unfold io_bind, attempt.
  assert (policy m = policy m0) as Hpol by apply Ha. rewrite <- Hpol.
  destruct (trim_accounted now (epath e) m) as (freed & m' & -> & Hf); [apply Ha|]. rewrite Hpol. cbn [io_ret]. apply IH.
  pose proof (accounted_trans _ _ _ _ _ Ha Hf) as Hs. cbn [fst]. by rewrite (accounted_wrap _ _ _ Hs).
Qed.
Lemma corpus_accounts now : accounts (cleanCorpusFiles now).
Proof.
  intros m Hh. unfold cleanCorpusFiles. destruct (String.eqb workDir ""); [by apply wp_ret, accounted_none|].
  unfold wp, Walk, io_bind, io_get. pose proof (walk_corpora now m (paths_under [] (tree m)) (0, 0) m Hh (accounted_none m Hh)) as H.
  destruct (walk _ _ _ _) as [[[[freed n] [err|]]|e|w] m']; [done| |done..]. cbn [finish_walk]. unfold io_bind, io_set. cbn.
  replace m' with (m' <| tree := tree m' |>) in H by (by destruct m'). 
  destruct H as ([H1 H2 H3 H4] & (H5 & H6 & H7) & H8). split; [by split|]. split; [by split_and!|done].
Qed.

Lemma tally_accounted clean m0 acc m : accounts clean → healthy m0 → accounted m0 m acc.1 →
  wp (tally clean acc) (λ r m', match r with Ok acc' => accounted m0 m' acc'.1 | Err _ => False | Panic _ => True end) m.
Proof.
  intros Hc Hh Ha. unfold tally. apply wp_bind, wp_attempt. eapply wp_mono; [apply Hc, Ha|]. intros [freed|e|w] m' H; [| |done].
  - pose proof (accounted_trans _ _ _ _ _ Ha H) as Hs. apply wp_ret. cbn [fst]. by rewrite (accounted_wrap _ _ _ Hs).
  - pose proof (accounted_trans _ _ _ _ _ Ha H) as Hs. apply wp_ret. cbn [fst]. by rewrite Z.add_0_r in Hs.
Qed.

(** C28: the bytes that a run reports as freed are gone.  When the context stays
    alive, a run that does not panic adds to its statistics a number of bytes by
    which the files in the tree got smaller at least, and exactly by that when
    nothing in the tree resists its removal. *)
Theorem run_accounted (now : Time) (m : JobCleanupManager) (Hh : healthy m) :
  let '(r, m') := RunCleanup now m in
  (∃ w, r = Panic w) ∨
  ∃ freed, BytesFreed (stats m') = wrap64 (BytesFreed (stats m) + freed) ∧ 0 ≤ freed ∧
    freed + total (files m') ≤ total (files m) ∧ (open_tree → freed + total (files m') = total (files m)).
Proof.
  set (Q := λ (r : res unit) (m' : JobCleanupManager), (∃ w, r = Panic w) ∨
    ∃ freed, BytesFreed (stats m') = wrap64 (BytesFreed (stats m) + freed) ∧ 0 ≤ freed ∧
      freed + total (files m') ≤ total (files m) ∧ (open_tree → freed + total (files m') = total (files m))).
  enough (wp (RunCleanup now) Q m) as H by (unfold wp in H; by destruct (RunCleanup now m)).
  unfold RunCleanup. apply wp_bind. unfold wp at 1, io_set. cbn [fst snd]. set (m0 := m <| stats := (stats m) <| LastRun := now |> |>).
  assert (healthy m0) as H0 by (by destruct Hh). assert (accounts (cleanJobDirectories now)) as Hj.
  { intros m1 H1. unfold wp. destruct (jobs_ok now m1 H1) as (r & m1' & -> & H & _). by destruct r. }
  assert (∀ clean (k : Z * Z → io JobCleanupManager unit) acc m1, accounts clean → accounted m0 m1 acc.1 →
    (∀ acc m2, accounted m0 m2 acc.1 → wp (k acc) Q m2) → wp (io_bind (tally clean acc) k) Q m1) as Hstep.
  { intros clean k acc m1 Hc Ha Hk. apply wp_bind. eapply wp_mono; [by apply tally_accounted|]. intros [acc'|e|w] m2 H; [by apply Hk|done|left; by eexists]. }
  apply Hstep; [done|by apply accounted_none|]. intros acc1 m1 H1. apply Hstep; [apply crash_accounts|done|]. intros acc2 m2 H2.
  apply Hstep; [apply corpus_accounts|done|]. intros acc3 m3 H3. apply Hstep; [apply log_accounts|done|]. intros acc4 m4 H4.
  destruct H4 as (_ & (_ & _ & Hb) & H4). assert (∀ (m5 : JobCleanupManager) (k : io JobCleanupManager unit), (∃ r, k m5 = (r, m5)) → Q (Ok tt) m5 → (∀ e, Q (Err e) m5) → (∀ w, Q (Panic w) m5) → wp k Q m5) as Hend.
  { intros m5 k [[[]|e|w] E] ? ? ?; unfold wp; rewrite E; cbn; auto. }
  apply wp_bind. unfold wp at 1, io_set. cbn [fst snd]. apply Hend; [destruct (0 <? acc4.2); by eexists|..]; intros; right; exists acc4.1; cbn; rewrite Hb; (split; [done|exact H4]).
Qed.

(** C27: a run is the end of the bot when a file has a short name.  When the
    context stays alive and a file outside the directories of old jobs has a
    name of less than six characters, a run panics, and nothing recovers it. *)
Theorem short_name_ends_bot (now : Time) (m : JobCleanupManager) (e : entry) (Hdir : workDir ≠ "") (Hh : healthy m)
    (He : e ∈ files m) (Hshort : (String.length (name e) < 6)%nat)
    (Hyoung : existsb (λ d, is_child d && old_dir (time_add now (- MaxJobAge (policy m))) d && under (epath d) (epath e)) (tree m) = false) :
  ∃ m', RunCleanup now m = (Panic bounds_panic, m').
Proof.
  unfold RunCleanup, io_bind at 1, io_set. set (m0 := m <| stats := (stats m) <| LastRun := now |> |>).
  assert (healthy m0) as H0 by (by destruct Hh). destruct (jobs_ok now m0 H0) as (r & m1 & E & H1 & _ & H2).
  unfold io_bind at 1, tally at 1, io_bind at 1, attempt. rewrite E. specialize (H2 e He Hyoung).
  assert (∃ m2, cleanCrashFiles now m1 = (Panic bounds_panic, m2)) as [m2 E2].
  { assert (healthy m1) as [Hl Hwf _ _] by (destruct r; by (done || apply H1)). pose proof (crash_cleanup_exact now m1 Hdir Hl Hwf) as Hc.
    assert (existsb short_name (tree m1) = true) as Hb; [|by rewrite Hb in Hc]. apply elem_of_files in H2 as (H2 & _ & H3).
    apply existsb_exists. exists e. split; [by apply list_elem_of_In|]. unfold short_name. rewrite H3. by apply Nat.ltb_lt. }
  destruct r as [freed|err|w]; [..|done]; cbn [io_ret]; unfold tally at 1, io_bind, attempt; rewrite E2; by eexists.
Qed.

(** ** The schedule after a change of the policy *)

(** The goroutine waits for a ticker that was stopped and has no tick left, and
    the manager has one: for it a cleanup is scheduled. *)
Definition deaf (m : JobCleanupManager) : Prop :=
  (∃ d t, worker m = Waiting d t ∧ t ∈ stopped m ∧ t ∉ ticked m) ∨ worker m = Exited.
Definition ticking (m : JobCleanupManager) : Prop := ∃ t, ticker m = Some t.

Lemma SetPolicy_effect p m r m' : SetPolicy p m = (r, m') → worker m' = worker m ∧ stats m' = stats m ∧ tree m' = tree m ∧ ticked m' = ticked m ∧
  stopped m ⊆ stopped m' ∧ (ticking m → ticking m') ∧ (∀ t, ticker m = Some t → r = Ok tt → t ∈ stopped m').
Proof.
  unfold SetPolicy, io_err. destruct p as [p|]; [|by intros [= <- <-]].
  do 5 (match goal with |- context [if ?b then _ else _] => destruct b eqn:? end; [by intros [= <- <-]|]).
  unfold io_bind, io_get, io_set, NewTicker. cbn. destruct (ticker m) as [t|] eqn:Et; [|intros [= <- <-]; split_and!; try done; by intros [t Ht]; congruence].
  match goal with |- context [if ?b then _ else _] => destruct b eqn:? end; [lia|]. intros [= <- <-]. cbn. split_and!; try done; [set_solver|by eexists|].
  intros t' [= ->] _. set_solver.
Qed.

Lemma deaf_step l m r m' : deaf m → ticking m → step l m = Some (r, m') → deaf m' ∧ ticking m' ∧ stats m' = stats m ∧ tree m' = tree m ∧
  (l = LSchedule → ∃ e, r = Err e).
Proof.
  intros Hd Ht. destruct l; cbn [step].
  - intros [= H]. apply SetPolicy_effect in H as (H1 & H2 & H3 & H4 & H5 & H6 & _). split_and!; [|by apply H6|done..].
    destruct Hd as [(d & t & Hw & Hs & Hk)|Hw]; [left; exists d, t; split_and!; [congruence|set_solver|congruence]|right; congruence].
  - destruct Ht as [t Ht]. unfold ScheduleCleanup, io_bind, io_get. rewrite Ht. intros [= <- <-]. split_and!; [done|by eexists|done..|by eexists].
  - intros [= <- <-]. done.
  - destruct Hd as [(d & t & Hw & _)|Hw]; by rewrite Hw.
  - destruct Hd as [(d & t & Hw & _)|Hw]; by rewrite Hw.
  - destruct (_ && _) eqn:E; [|done]. apply andb_true_iff in E as [_ E%negb_true_iff%bool_decide_eq_false_1].
    intros [= <- <-]. split_and!; try done. destruct Hd as [(d & t' & Hw & Hs & Hk)|Hw]; [left; exists d, t'; split_and!; [done|done|]; cbn; set_solver|by right].
  - destruct Hd as [(d & t & Hw & Hs & Hk)|Hw]; rewrite Hw; [|done]. by rewrite bool_decide_eq_false_2.
  - destruct Hd as [(d & t & Hw & _)|Hw]; by rewrite Hw.
  - destruct Hd as [(d & t & Hw & Hs & Hk)|Hw]; rewrite Hw; [|done]. destruct (cancelled m); [|done]. intros [= <- <-]. split_and!; try done. by right.
Qed.

(** C26: changing the policy ends the scheduled cleanups.  When the goroutine waits
    for a tick and a valid policy is set, no run, however long, cleans anything
    again, whatever ticks, policies and calls follow: the goroutine waits for the
    old ticker, which is stopped.  Scheduling again is refused. *)
Theorem set_policy_ends_schedule (p : option CleanupPolicy) (d t : nat) (m m' m'' : JobCleanupManager) (ls : list label)
    (Hwait : worker m = Waiting d t) (Hticker : ticker m = Some t) (Hquiet : t ∉ ticked m)
    (Hset : SetPolicy p m = (Ok tt, m')) (Hrun : run ls m' = Some m'') :
  stats m'' = stats m ∧ tree m'' = tree m ∧ (∀ now c, LClean now c ∉ ls) ∧ ∃ e, ScheduleCleanup m'' = (Err e, m'').
Proof.
  apply SetPolicy_effect in Hset as (H1 & H2 & H3 & H4 & _ & H5 & H6). rewrite <- H2, <- H3.
  assert (deaf m' ∧ ticking m') as [Hd Ht].
  { split; [left; exists d, t; split_and!; [congruence|by apply H6|congruence]|apply H5; by eexists]. }
  clear -Hd Ht Hrun. revert m' Hd Ht Hrun. induction ls as [|l ls IH]; intros m Hd Ht; cbn [run].
  - intros [= <-]. split_and!; [done|done|by intros ? ? ?%not_elem_of_nil|]. destruct Ht as [t Ht]. unfold ScheduleCleanup, io_bind, io_get. rewrite Ht. by eexists.
  - destruct (step l m) as [[r m1]|] eqn:E; [|done]. destruct (deaf_step _ _ _ _ Hd Ht E) as (Hd1 & Ht1 & Hs & Htr & _).
    assert (∀ now c, l ≠ LClean now c) as Hl.
    { intros now c ->. cbn [step] in E. destruct Hd as [(d & t & Hw & _)|Hw]; by rewrite Hw in E. }
    intros Hr. destruct (IH m1 Hd1 Ht1) as (H1 & H2 & H3 & H4); [by destruct r|]. split_and!; [congruence|congruence| |done].
    intros now c [E'|Hc]%elem_of_cons; [by apply (Hl now c)|by apply (H3 now c)].
Qed.

(** ** The policy *)

Definition valid_policy (p : CleanupPolicy) : Prop :=
  0 < MaxJobAge p ∧ 0 < MaxCrashAge p ∧ 0 < MaxCorpusSize p ∧ 0 < MaxDiskUsage p ∧ 0 < CleanupInterval p.
Lemma SetPolicy_valid p m r m' : valid_policy (policy m) → SetPolicy p m = (r, m') → valid_policy (policy m') ∧ ∀ w, r ≠ Panic w.
Proof.
  intros Hv. unfold SetPolicy, io_err. destruct p as [p|]; [|by intros [= <- <-]].
  do 5 (match goal with |- context [if ?b then _ else _] => destruct b eqn:? end; [by intros [= <- <-]|]).
  assert (valid_policy p) as Hp by (unfold valid_policy; lia).
  unfold io_bind, io_get, io_set, NewTicker. cbn. destruct (ticker m) as [t|]; [|by intros [= <- <-]].
  match goal with |- context [if ?b then _ else _] => destruct b eqn:? end; [lia|]. by intros [= <- <-].
Qed.

Definition keeps_policy {A} (c : io JobCleanupManager A) : Prop := ∀ p, io_keeps (λ m, policy m = p) c.
Lemma keeps_policy_bind {A B} (c : io JobCleanupManager A) (k : A → io JobCleanupManager B) :
  keeps_policy c → (∀ a, keeps_policy (k a)) → keeps_policy (io_bind c k).
Proof. intros H1 H2 p. apply keeps_bind; [apply H1|intros a; apply H2]. Qed.
Lemma keeps_policy_attempt {A} (c : io JobCleanupManager A) : keeps_policy c → keeps_policy (attempt c).
Proof. intros H p. apply keeps_attempt, H. Qed.
Lemma keeps_policy_get {A} (f : JobCleanupManager → A) : keeps_policy (io_get f).
Proof. intros p m H. exact H. Qed.
Lemma keeps_policy_ret {A} (a : A) : keeps_policy (io_ret a).
Proof. intros p m H. exact H. Qed.
Lemma keeps_policy_err {A} e : keeps_policy (A := A) (io_err e).
Proof. intros p m H. exact H. Qed.
Lemma keeps_policy_stats (f : JobCleanupManager → CleanupStats) : keeps_policy (io_set (λ m, m <| stats := f m |>)).
Proof. intros p m H. exact H. Qed.
Lemma keeps_policy_ctx : keeps_policy ctx_done.
Proof. intros p m H. unfold ctx_done. by destruct (alive (ctx m)) as [[]|]. Qed.
Lemma keeps_policy_remove now p : keeps_policy (Remove now p).
Proof. intros q m H. unfold Remove. destruct (at_path p (tree m)); [|done]. by destruct (locked p). Qed.
Lemma keeps_policy_remove_all now p : keeps_policy (RemoveAll now p).
Proof. intros q m H. exact H. Qed.
Create HintDb policy.
#[local] Hint Resolve keeps_policy_attempt keeps_policy_get keeps_policy_ret keeps_policy_err keeps_policy_stats keeps_policy_ctx
  keeps_policy_remove keeps_policy_remove_all : policy.
Ltac policy := repeat first [ progress intros | apply keeps_policy_bind | by auto with policy | case_match ].
Lemma keeps_policy_walk {A} (visit : A → entry → io JobCleanupManager (A * option goerror)) ps acc :
  (∀ acc e, keeps_policy (visit acc e)) → keeps_policy (walk visit ps acc).
Proof. intros Hv. revert acc. induction ps as [|p ps IH]; intros acc; cbn [walk]; policy. Qed.
Lemma keeps_policy_jobs now cutoff dirs freed n : keeps_policy (clean_jobs now cutoff dirs freed n).
Proof. revert freed n. induction dirs as [|d dirs IH]; intros freed n; cbn [clean_jobs]; policy. Qed.
Lemma keeps_policy_trim now target fs freed : keeps_policy (trim_loop now target fs freed).
Proof. revert freed. induction fs as [|f fs IH]; intros freed; cbn [trim_loop]; policy. Qed.
Lemma keeps_policy_finish op count r : keeps_policy (finish_walk op count r).
Proof. unfold finish_walk. policy. Qed.
#[local] Hint Resolve keeps_policy_jobs keeps_policy_trim keeps_policy_finish : policy.
Lemma keeps_policy_run now : keeps_policy (RunCleanup now).
Proof.
  assert (∀ acc e, keeps_policy (remove_file now e acc)) as Hr by (intros; unfold remove_file; policy).
  assert (∀ dir max, keeps_policy (trimCorpusDirectory now dir max)) as Ht by (intros; unfold trimCorpusDirectory; policy).
  assert (∀ c acc, keeps_policy c → keeps_policy (tally c acc)) as Hy by (intros; unfold tally; policy).
  assert (keeps_policy (cleanJobDirectories now)) by (unfold cleanJobDirectories; policy).
  assert (keeps_policy (cleanCrashFiles now)).
  { unfold cleanCrashFiles, Walk. policy. apply keeps_policy_walk. unfold visit_crash. policy. by intros q m1 Hm. }
  assert (keeps_policy (cleanCorpusFiles now)) by (unfold cleanCorpusFiles, Walk; policy; apply keeps_policy_walk; unfold visit_corpus; policy).
  assert (keeps_policy (cleanLogs now)) by (unfold cleanLogs, Walk; policy; apply keeps_policy_walk; unfold visit_log; policy).
  unfold RunCleanup. policy.
Qed.

Lemma step_policy l m r m' : valid_policy (policy m) → step l m = Some (r, m') →
  valid_policy (policy m') ∧ (∀ w, r = Panic w → ∃ now c, l = LClean now c).
Proof.
  intros Hv. destruct l; cbn [step].
  - intros [= H]. apply SetPolicy_valid in H as [H1 H2]; [|done]. split; [done|]. intros w Hw. by destruct (H2 w).
  - unfold ScheduleCleanup, io_bind, io_get, NewTicker. destruct (ticker m); [by intros [= <- <-]|].
    assert ((CleanupInterval (policy m) <=? 0) = false) as -> by (unfold valid_policy in Hv; lia). by intros [= <- <-].
  - by intros [= <- <-].
  - destruct (worker m), (ticker m); try done; cbn; by intros [= <- <-].
  - destruct (worker m), (ticker m); try done; cbn; by intros [= <- <-].
  - destruct (_ && _); [|done]. by intros [= <- <-].
  - destruct (worker m); try done. destruct (bool_decide _); [|done]. by intros [= <- <-].
  - destruct (worker m); try done. intros H. split; [|intros; by eexists _, _].
    assert (policy (RunCleanup now (m <| ctx := c |>)).2 = policy m) as Hp by (by apply (keeps_policy_run now (policy m))). destruct (RunCleanup now (m <| ctx := c |>)) as [r1 m1]. injection H as _ <-.
    change (valid_policy (policy m1)). cbn [snd] in Hp. by rewrite Hp.
  - destruct (worker m); try done. destruct (cancelled m); [|done]. by intros [= <- <-].
Qed.

(** The policy is always valid, so that no call on the schedule panics: in
    every state that a run can reach every limit is positive, and only a cleanup
    itself can panic. *)
Theorem policy_stays_valid (t : list entry) (ls : list label) (m : JobCleanupManager) (Hrun : run ls (NewCleanupManager t) = Some m) :
  valid_policy (policy m) ∧ ∀ l w m', step l m = Some (Panic w, m') → ∃ now c, l = LClean now c.
Proof.
  assert (valid_policy (policy (NewCleanupManager t))) as H0 by done. revert H0 Hrun. generalize (NewCleanupManager t).
  induction ls as [|l ls IH]; intros m0 Hv; cbn [run].
  - intros [= <-]. split; [done|]. intros l w m' H. by eapply step_policy.
  - destruct (step l m0) as [[r m1]|] eqn:E; [|done]. apply step_policy in E as [E _]; [|done]. destruct r; [by apply IH|by apply IH|done].
Qed.
End cleanup.

(** ** A concrete bot *)

Definition bot_tree (age : Duration) : list entry :=
  [mkEntry [] true 4096 0; mkEntry ["job-1"] true 4096 0; mkEntry ["job-1"; "corpus"] true 4096 0;
   mkEntry ["job-1"; "corpus"; "id_000001"] false 700 10; mkEntry ["job-1"; "corpus"; "id_000002"] false 700 5;
   mkEntry ["job-1"; "crash-1"] false 20 0; mkEntry ["job-2"] true 4096 age; mkEntry ["job-2"; "seed"] false 8 age]%string.
Definition nothing_locked (_ : list string) : bool := false.
Definition bot_manager : JobCleanupManager := NewCleanupManager (bot_tree (30 * Hour)).

Lemma bot_tree_wf age : tree_wf (bot_tree age).
Proof.
  split; [change (NoDup (epath <$> bot_tree 0)); apply (bool_decide_eq_true_1 (NoDup (epath <$> bot_tree 0))); vm_compute; reflexivity|].
  intros e He. rewrite list_elem_of_In in He. cbn in He. destruct He as [<-|[<-|[<-|[<-|[<-|[<-|[<-|[<-|[]]]]]]]]]; cbn; lia.
Qed.
Lemma bot_healthy : healthy bot_manager.
Proof. split; [done|apply bot_tree_wf|by vm_compute|by vm_compute]. Qed.

Lemma trim_exact_witness : ∃ gone m', trimCorpusDirectory nothing_locked 100 ["job-1"; "corpus"]%string 1000 bot_manager = (Ok (total gone), m') ∧
  files_under ["job-1"; "corpus"]%string (tree bot_manager) ≡ₚ gone ++ files_under ["job-1"; "corpus"]%string (tree m').
Proof.
  destruct (trim_exact nothing_locked 100 ["job-1"; "corpus"]%string 1000 bot_manager) as (gone & m' & H1 & H2 & _);
    [reflexivity|apply bot_tree_wf|vm_compute; discriminate|lia|]. exists gone, m'. split; [exact H1|exact H2].
Defined.

Lemma crash_cleanup_exact_witness : ∃ m', cleanCrashFiles "/work" nothing_locked 100 bot_manager = (Panic bounds_panic, m').
Proof. apply (crash_cleanup_exact "/work" nothing_locked 100 bot_manager); [discriminate|reflexivity|apply bot_tree_wf]. Defined.

Lemma run_accounted_witness : healthy bot_manager ∧ ∃ m', RunCleanup "" nothing_locked 100 bot_manager = (Ok tt, m') ∧ 0 ≤ BytesFreed (stats m').
Proof.
  split; [exact bot_healthy|]. eexists. split; [reflexivity|].
  destruct (run_accounted "" nothing_locked 100 bot_manager bot_healthy) as [[w H]|(freed & H & _)]; [discriminate H|vm_compute; discriminate].
Defined.

Lemma short_name_ends_bot_witness : ∃ m', RunCleanup "/work" nothing_locked (40 * Hour) bot_manager = (Panic bounds_panic, m').
Proof.
  apply (short_name_ends_bot "/work" nothing_locked (40 * Hour) bot_manager (mkEntry ["job-2"; "seed"]%string false 8 (30 * Hour)));
    [discriminate|exact bot_healthy| |vm_compute; lia|vm_compute; reflexivity].
  rewrite list_elem_of_In. cbn. do 3 right. left. reflexivity.
Defined.

Definition waiting_manager : option JobCleanupManager := run "/work" nothing_locked [LSchedule; LStart; LSelect] bot_manager.
Definition new_policy : CleanupPolicy := mkPolicy Hour Hour 100 1000 Minute.

Lemma set_policy_ends_schedule_witness : ∃ m m' m'', waiting_manager = Some m ∧ SetPolicy (Some new_policy) m = (Ok tt, m') ∧
  run "/work" nothing_locked [LTick 1; LSetPolicy None; LSchedule] m' = Some m'' ∧ stats m'' = stats m.
Proof.
  eexists _, _, _. split; [reflexivity|]. split; [reflexivity|]. split; [vm_compute; reflexivity|].
  eapply (set_policy_ends_schedule "/work" nothing_locked (Some new_policy) 0 0) with (ls := [LTick 1; LSetPolicy None; LSchedule]);
    [reflexivity|reflexivity| |reflexivity|vm_compute; reflexivity]. by vm_compute.
Defined.

Lemma policy_stays_valid_witness : ∃ m, waiting_manager = Some m ∧ valid_policy (policy m).
Proof.
  eexists. split; [reflexivity|]. apply (policy_stays_valid "/work" nothing_locked (bot_tree (30 * Hour)) [LSchedule; LStart; LSelect]). reflexivity.
Defined.
