(* ===== verification/JobOutcome.v ===== *)
(** * The outcome of a job on a bot: src/pkg/bot/job_status_classifier.go

    The rules by which the text of an error and the crashes found make a job a
    success or a failure. *)

From Stdlib Require Import Lia Strings.String Strings.Ascii.
From S2P Require Import Prelude.

Record JobOutcome := mkOutcome { Success : bool; Message : string; Reason : string }.

Definition expectedSignals : list string :=
  ["signal: killed"; "signal: terminated"; "signal: interrupt"; "sigterm"; "sigint"; "cancelled";
   "context deadline exceeded"; "timeout"; "duration reached"; "user requested"].
Definition crashIndicators : list string :=
  ["segmentation fault"; "sigsegv"; "sigabrt"; "sigbus"; "sigfpe"; "sigill"; "core dumped"; "assertion failed"].

(** The loop over the signals: [return true] at the first that is contained, on
    both ways. *)
Fixpoint signal_loop (signals : list string) (errLower : string) (duration expectedDuration : Duration) : bool :=
  match signals with
  | [] => false
  | signal :: rest =>
      if Contains errLower signal then
        if (0 <? expectedDuration) && (wrap64 (expectedDuration - 5 * Second) <=? duration) then true else true
      else signal_loop rest errLower duration expectedDuration
  end.
Definition isExpectedTermination (errLower : string) (duration expectedDuration : Duration) : bool :=
  if signal_loop expectedSignals errLower duration expectedDuration then true
  else if Contains errLower "afl++" && Contains errLower "completed" then true
  else false.

Fixpoint crash_loop (indicators : list string) (errLower : string) (duration : Duration) : bool :=
  match indicators with
  | [] => false
  | indicator :: rest =>
      if Contains errLower indicator then
        if duration <? 5 * Second then true
        else if Contains errLower "libfuzzer" && (duration <? Second) then true
        else crash_loop rest errLower duration
      else crash_loop rest errLower duration
  end.
Definition isHarnessCrash (errLower : string) (duration : Duration) : bool :=
  if crash_loop crashIndicators errLower duration then true
  else if Contains errLower "no such file" || Contains errLower "permission denied" || Contains errLower "cannot execute" then true
  else false.

Definition ClassifyJobOutcome (executionError : option goerror) (duration : Duration) (crashesFound : Z) (expectedDuration : Duration) : JobOutcome :=
  if 0 <? crashesFound then
    mkOutcome true ("Fuzzing completed successfully - found " +:+ pretty crashesFound +:+ " crashes") "crashes_found"
  else
    match executionError with
    | None => mkOutcome true "Fuzzing completed successfully" "clean_exit"
    | Some err =>
        let errLower := ToLower (Error err) in
        if isExpectedTermination errLower duration expectedDuration
        then mkOutcome true "Fuzzing completed (duration reached)" "expected_termination"
        else if isHarnessCrash errLower duration
        then mkOutcome false ("Fuzzer harness failed: " +:+ Error err) "harness_crash"
        else mkOutcome false ("Job failed: " +:+ Error err) "unknown_error"
    end.

(** ** What the rules come to *)

Definition stopped_text (text : string) : bool :=
  contains_any text expectedSignals || (Contains text "afl++" && Contains text "completed").
Definition harness_text (text : string) (duration : Duration) : bool :=
  (contains_any text crashIndicators && (duration <? 5 * Second)) || contains_any text ["no such file"; "permission denied"; "cannot execute"].

Lemma expected_spec text duration expected : isExpectedTermination text duration expected = stopped_text text.
Proof.
  unfold isExpectedTermination, stopped_text, contains_any.
  assert (signal_loop expectedSignals text duration expected = existsb (Contains text) expectedSignals) as ->.
  { generalize expectedSignals. intros l. induction l as [|x l IH]; cbn [signal_loop existsb]; [done|].
    destruct (Contains text x); [by destruct (_ && _)|done]. }
  destruct (existsb _ _); [done|]. cbn [orb]. by destruct (_ && _).
Qed.
Lemma harness_spec text duration : isHarnessCrash text duration = harness_text text duration.
Proof.
  unfold isHarnessCrash, harness_text, contains_any.
  assert (crash_loop crashIndicators text duration = existsb (Contains text) crashIndicators && (duration <? 5 * Second)) as ->.
  { generalize crashIndicators. intros l. induction l as [|x l IH]; cbn [crash_loop existsb]; [done|].
    destruct (Contains text x); cbn [orb andb]; [|done]. destruct (duration <? 5 * Second) eqn:Ed; [done|]. rewrite IH, andb_false_r.
    destruct (Contains text "libfuzzer"); cbn [andb]; [|done]. destruct (duration <? Second) eqn:E1; [|done]. unfold Second in *. lia. }
  destruct (_ && _); [done|]. cbn [existsb orb]. rewrite orb_false_r, orb_assoc. by destruct (_ || _).
Qed.

(** A job succeeds exactly if it found crashes, ended without an error, or the
    text of the error names a stop.  How long it ran, or should have run, never
    matters for that; the durations only tell one kind of failure from another. *)
Theorem outcome_exact (err : option goerror) (duration expected crashes : Z) :
  let o := ClassifyJobOutcome err duration crashes expected in
  Success o = (0 <? crashes) || match err with None => true | Some e => stopped_text (ToLower (Error e)) end ∧
  Reason o = (if 0 <? crashes then "crashes_found"
              else match err with
                   | None => "clean_exit"
                   | Some e => if stopped_text (ToLower (Error e)) then "expected_termination"
                               else if harness_text (ToLower (Error e)) duration then "harness_crash" else "unknown_error"
                   end).
Proof.
  unfold ClassifyJobOutcome. destruct (0 <? crashes); [done|]. destruct err as [e|]; [|done]. rewrite expected_spec, harness_spec.
  destruct (stopped_text _); [done|]. by destruct (harness_text _ _).
Qed.

(** A target that cannot even be started counts as completed when its path
    contains one of the words. *)
Example missing_target_succeeds :
  ClassifyJobOutcome (Some (ErrNew "fork/exec /targets/timeout_parser: no such file or directory")) 0 0 (30 * Minute) =
  mkOutcome true "Fuzzing completed (duration reached)" "expected_termination".
Proof. vm_compute. reflexivity. Qed.
