(* ===== verification/Http.v ===== *)
(** * HTTP requests, responses and handlers of the API

    What the middleware of src/pkg/api/v1/middleware uses of net/http, and the
    error responses of src/pkg/api/v1/errors/handlers.go.  Header names are kept in
    lower case: the library makes them canonical on both sides. *)

From Stdlib Require Import Lia Strings.String Strings.Ascii.
From S2P Require Import Prelude CrashTypes Regex.

(** What authentication puts into the context of a request (middleware/auth.go). *)
Record Claims := mkClaims {
  UserID : string; Username : string; ClaimPermissions : list string; Role : string;
  IssuedAt : Z; ExpiresAt : Z; Issuer : string; Subject : string }.
Record APIKeyInfo := mkAPIKeyInfo {
  KeyID : string; KeyName : string; KeyPermissions : list string; KeyRateLimit : Z; KeyCreatedAt : Time }.

(** A header: the values of each name. *)
Abbreviation Headers := (gmap string (list string)) (only parsing).
Definition HeaderGet (h : Headers) (name : string) : string :=
  match h !! ToLower name with Some (v :: _) => v | _ => "" end.
Definition HeaderSet (name value : string) (h : Headers) : Headers := <[ToLower name := [value]]> h.
Definition HeaderAdd (name value : string) (h : Headers) : Headers := <[ToLower name := default [] (h !! ToLower name) ++ [value]]> h.

(** A request; the three values are those of its context under [ClaimsContextKey],
    [APIKeyContextKey] and [UserContextKey]. *)
Record Request := mkRequest {
  Method : string; Path : string; RequestHeader : Headers; RemoteAddr : string; ContentLength : Z;
  Query : gmap string (list string); Body : bytes * option goerror;
  CtxClaims : option Claims; CtxKey : option APIKeyInfo; CtxUser : option string }.
#[export] Instance Request_eta : Eta Request := fun r =>
  mkRequest (Method r) (Path r) (RequestHeader r) (RemoteAddr r) (ContentLength r) (Query r) (Body r) (CtxClaims r) (CtxKey r) (CtxUser r).
Definition header_of (r : Request) (name : string) : string := HeaderGet (RequestHeader r) name.

(** ** Error responses *)

Record Problem := mkProblem {
  ProblemType : string; Title : string; Status : Z; Detail : string; Extensions : gmap string goany }.

Definition getTypeForStatus (statusCode : Z) : string :=
  if statusCode =? 400 then "https://pandafuzz.io/problems/bad-request"
  else if statusCode =? 401 then "https://pandafuzz.io/problems/unauthorized"
  else if statusCode =? 403 then "https://pandafuzz.io/problems/forbidden"
  else if statusCode =? 404 then "https://pandafuzz.io/problems/not-found"
  else if statusCode =? 409 then "https://pandafuzz.io/problems/conflict"
  else if statusCode =? 429 then "https://pandafuzz.io/problems/rate-limit"
  else if statusCode =? 500 then "https://pandafuzz.io/problems/internal-error"
  else if statusCode =? 503 then "https://pandafuzz.io/problems/service-unavailable"
  else "about:blank".
(** [http.StatusText], for the codes of the middleware. *)
Definition StatusText (statusCode : Z) : string :=
  if statusCode =? 400 then "Bad Request" else if statusCode =? 401 then "Unauthorized" else if statusCode =? 403 then "Forbidden"
  else if statusCode =? 413 then "Request Entity Too Large" else if statusCode =? 415 then "Unsupported Media Type"
  else if statusCode =? 429 then "Too Many Requests" else if statusCode =? 500 then "Internal Server Error" else "".

(** ** Responses *)

(** The headers so far; the status and the headers that were sent with it; and
    the problems written as JSON. *)
Record ResponseWriter := mkWriter { header : Headers; sent : option (Z * Headers); written : list Problem }.
#[export] Instance ResponseWriter_eta : Eta ResponseWriter := fun w => mkWriter (header w) (sent w) (written w).
Definition new_writer : ResponseWriter := mkWriter ∅ None [].

(** The first status counts. *)
Definition WriteHeader (statusCode : Z) (w : ResponseWriter) : ResponseWriter :=
  match sent w with Some _ => w | None => w <| sent := Some (statusCode, header w) |> end.
Definition write_problem (p : Problem) (w : ResponseWriter) : ResponseWriter := w <| written := written w ++ [p] |>.
Definition on_header (f : Headers → Headers) (w : ResponseWriter) : ResponseWriter := w <| header := f (header w) |>.

Definition respond (problem : Problem) (w : ResponseWriter) : ResponseWriter :=
  write_problem problem (WriteHeader (Status problem) (on_header (HeaderSet "Content-Type" "application/problem+json") w)).
Definition WriteErrorSimple (statusCode : Z) (detail : string) : ResponseWriter → ResponseWriter :=
  respond (mkProblem (getTypeForStatus statusCode) (StatusText statusCode) statusCode detail ∅).
Definition WriteErrorWithDetails (statusCode : Z) (detail : string) (details : gmap string goany) : ResponseWriter → ResponseWriter :=
  respond (mkProblem (getTypeForStatus statusCode) (StatusText statusCode) statusCode detail details).

(** ** Handlers

    A handler serves a request: it changes the response and a state [S] of the
    server.  It returns nothing, but can panic. *)
Definition Handler (S : Type) : Type := Request → io (ResponseWriter * S) unit.
Definition Middleware (S : Type) : Type := Handler S → Handler S.
Definition reply {S} (f : ResponseWriter → ResponseWriter) : io (ResponseWriter * S) unit := io_set (λ '(w, s), (f w, s)).

(** The loops over [SkipPaths]. *)
Definition skipped (skipPaths : list string) (path : string) : bool := existsb (HasPrefix path) skipPaths.

(** [strings.EqualFold], on ASCII text. *)
Definition EqualFold (s t : string) : bool := String.eqb (ToLower s) (ToLower t).

Definition status_of (w : ResponseWriter) : option Z := fst <$> sent w.
Lemma respond_status p w : sent w = None → status_of (respond p w) = Some (Status p).
Proof. intros H. unfold respond, status_of, WriteHeader, on_header. cbn. by rewrite H. Qed.
Lemma reply_run {S} f (w : ResponseWriter) (s : S) : reply f (w, s) = (Ok tt, (f w, s)).
Proof. done. Qed.
