(* ===== verification/HttpAuth.v ===== *)
(** * Authentication and permissions: src/pkg/api/v1/middleware/auth.go

    Tokens, the two authenticating middlewares and the check of permissions.
    HMAC-SHA256 and encoding/json are given by a class with their laws. *)

From Stdlib Require Import Lia Strings.String Strings.Ascii Strings.Byte.
From S2P Require Import Prelude CrashTypes Regex Paths Base64 Http.

(** What a token is made with: the JSON of the header and of claims, and the
    message authentication code of a message under a secret. *)
Class TokenLib := {
  MarshalHeader : bytes;
  UnmarshalHeader : bytes → string * string + goerror;        (* alg and typ *)
  MarshalClaims : Claims → bytes;
  UnmarshalClaims : bytes → Claims + goerror;
  HmacSha256 : string → string → bytes }.
(** JSON reads back what it wrote, of claims whose texts are valid. *)
Class TokenLibLaws (L : TokenLib) (valid : Claims → Prop) := {
  header_round_trip : UnmarshalHeader MarshalHeader = inl ("HS256", "JWT")%string;
  claims_round_trip c : valid c → UnmarshalClaims (MarshalClaims c) = inl c }.

Record AuthConfig := mkAuthConfig {
  JWTSecret : string; APIKeyValidator : option (string → option APIKeyInfo + goerror); AuthSkipPaths : list string }.

Section auth.
Context {L : TokenLib}.

(** ** Tokens *)

Definition dot : ascii := ".".
Definition illegal : goerror := ErrNew "illegal base64 data".
Definition validateJWT (token secret : string) : Claims + goerror :=
  match Split token dot with
  | [p0; p1; p2] =>
      match RawURLDecodeString p0 with
      | None => inr (ErrWrap "invalid header encoding" illegal)
      | Some headerBytes =>
          match UnmarshalHeader headerBytes with
          | inr err => inr (ErrWrap "invalid header format" err)
          | inl (alg, _) =>
              if negb (String.eqb alg "HS256") then inr (ErrNew ("unsupported algorithm: " +:+ alg))
              else
                match RawURLDecodeString p1 with
                | None => inr (ErrWrap "invalid payload encoding" illegal)
                | Some payloadBytes =>
                    match UnmarshalClaims payloadBytes with
                    | inr err => inr (ErrWrap "invalid payload format" err)
                    | inl claims =>
                        let message := p0 +:+ "." +:+ p1 in
                        match RawURLDecodeString p2 with
                        | None => inr (ErrWrap "invalid signature encoding" illegal)
                        | Some signature =>
                            if negb (bool_decide (signature = HmacSha256 secret message)) then inr (ErrNew "invalid signature")
                            else inl claims
                        end
                    end
                end
          end
      end
  | _ => inr (ErrNew "invalid token format")
  end.

Definition GenerateJWT (claims : Claims) (secret : string) : string :=
  let headerEncoded := RawURLEncodeToString MarshalHeader in
  let payloadEncoded := RawURLEncodeToString (MarshalClaims claims) in
  let message := headerEncoded +:+ "." +:+ payloadEncoded in
  message +:+ "." +:+ RawURLEncodeToString (HmacSha256 secret message).

(** ** Middleware *)

Definition expired (claims : Claims) (now : Time) : bool := (0 <? ExpiresAt claims) && (ExpiresAt claims <? now / Second).

Definition JWTAuthWithConfig {S} (config : AuthConfig) (now : Time) : Middleware S := λ next r,
  if skipped (AuthSkipPaths config) (Path r) then next r
  else
    let authHeader := header_of r "Authorization" in
    if String.eqb authHeader "" then reply (WriteErrorSimple 401 "Missing Authorization header")
    else if negb (HasPrefix authHeader "Bearer ") then reply (WriteErrorSimple 401 "Invalid Authorization header format")
    else
      let token := TrimPrefix authHeader "Bearer " in
      match validateJWT token (JWTSecret config) with
      | inr _ => reply (WriteErrorSimple 401 "Invalid or expired token")
      | inl claims =>
          if expired claims now then reply (WriteErrorSimple 401 "Token has expired")
          else next (r <| CtxClaims := Some claims |> <| CtxUser := Some (UserID claims) |>)
      end.

(** A validator that gives no key and no error is dereferenced. *)
Definition APIKeyAuthWithConfig {S} (config : AuthConfig) : Middleware S := λ next r,
  if skipped (AuthSkipPaths config) (Path r) then next r
  else
    let apiKey :=
      let k := header_of r "X-API-Key" in
      if String.eqb k "" then
        let authHeader := header_of r "Authorization" in
        if HasPrefix authHeader "ApiKey " then TrimPrefix authHeader "ApiKey " else k
      else k in
    if String.eqb apiKey "" then reply (WriteErrorSimple 401 "Missing API key")
    else
      match APIKeyValidator config with
      | None => reply (WriteErrorSimple 500 "Authentication not properly configured")
      | Some validator =>
          match validator apiKey with
          | inr _ => reply (WriteErrorSimple 401 "Invalid API key")
          | inl None => λ c, (Panic "nil pointer dereference", c)
          | inl (Some keyInfo) => next (r <| CtxKey := Some keyInfo |> <| CtxUser := Some (KeyID keyInfo) |>)
          end
      end.

Definition hasPermission (permissions : list string) (required : string) : bool :=
  existsb (λ perm, String.eqb perm required || String.eqb perm "*") permissions.
(** Claims come first: a key is looked at only without claims. *)
Definition RequirePermissionWithConfig {S} (permission : string) : Middleware S := λ next r,
  let refuse := reply (WriteErrorWithDetails 403 "Insufficient permissions" {["required_permission" := AString permission]}) in
  match CtxClaims r, CtxKey r with
  | Some claims, _ => if hasPermission (ClaimPermissions claims) permission then next r else refuse
  | None, Some keyInfo => if hasPermission (KeyPermissions keyInfo) permission then next r else refuse
  | None, None => refuse
  end.

Definition ExtractClaims (r : Request) : Claims + goerror :=
  match CtxClaims r with Some c => inl c | None => inr (ErrNew "no JWT claims found in context") end.
Definition ExtractAPIKeyInfo (r : Request) : APIKeyInfo + goerror :=
  match CtxKey r with Some k => inl k | None => inr (ErrNew "no API key info found in context") end.
Definition ExtractUserID (r : Request) : string + goerror :=
  match CtxUser r with Some u => inl u | None => inr (ErrNew "no user ID found in context") end.

(** ** Tokens are read back *)

Lemma split_go_plain s acc : (∀ c, c ∈ list_ascii_of_string s → Ascii.eqb c dot = false) → split_go dot s acc = [rev_string acc s].
Proof.
  revert acc. induction s as [|c s IH]; intros acc H; cbn [split_go]; [done|].
  rewrite (H c) by (by left). rewrite IH by (intros d Hd; apply H; by right). done.
Qed.
Lemma split_go_dot s t acc : (∀ c, c ∈ list_ascii_of_string s → Ascii.eqb c dot = false) →
  split_go dot (s +:+ "." +:+ t) acc = rev_string acc s :: split_go dot t "".
Proof.
  revert acc. induction s as [|c s IH]; intros acc H; [done|]. rewrite app_cons. cbn [split_go].
  rewrite (H c) by (by left). rewrite IH by (intros d Hd; apply H; by right). done.
Qed.
Lemma split_token a b c : (∀ x, x ∈ list_ascii_of_string a → Ascii.eqb x dot = false) → (∀ x, x ∈ list_ascii_of_string b → Ascii.eqb x dot = false) →
  (∀ x, x ∈ list_ascii_of_string c → Ascii.eqb x dot = false) → Split ((a +:+ "." +:+ b) +:+ "." +:+ c) dot = [a; b; c].
Proof.
  intros Ha Hb Hc. assert ((a +:+ "." +:+ b) +:+ "." +:+ c = a +:+ "." +:+ (b +:+ "." +:+ c)) as -> by (by rewrite <- !string_app_assoc).
  unfold Split. rewrite split_go_dot, split_go_dot, split_go_plain by done. done.
Qed.

(** C30: a generated token is accepted.  Under the secret that it was made with, a
    token is valid and gives the claims back; and a valid token, whoever made it,
    has three parts of which the last is the code of the first two under the
    secret, and the second the claims. *)
Theorem token_round_trip {valid : Claims → Prop} {Laws : TokenLibLaws L valid} (secret : string) :
  (∀ claims, valid claims → validateJWT (GenerateJWT claims secret) secret = inl claims) ∧
  (∀ token claims, validateJWT token secret = inl claims → ∃ p0 p1 p2 payload,
     Split token dot = [p0; p1; p2] ∧ RawURLDecodeString p2 = Some (HmacSha256 secret (p0 +:+ "." +:+ p1)) ∧
     RawURLDecodeString p1 = Some payload ∧ UnmarshalClaims payload = inl claims).
Proof.
  split.
  - intros claims Hv. unfold validateJWT, GenerateJWT. rewrite split_token by apply raw_encode_no_dot.
    rewrite !raw_decode_encode, header_round_trip, claims_round_trip by done. cbn [String.eqb negb]. by rewrite bool_decide_eq_true_2.
  - intros token claims. unfold validateJWT. destruct (Split token dot) as [|p0 [|p1 [|p2 [|]]]] eqn:Es; try done.
    destruct (RawURLDecodeString p0); [|done]. destruct (UnmarshalHeader _) as [[alg typ]|]; [|done]. destruct (negb _); [done|].
    destruct (RawURLDecodeString p1) as [payload|] eqn:E1; [|done]. destruct (UnmarshalClaims payload) as [cl|] eqn:Ec; [|done].
    destruct (RawURLDecodeString p2) as [sig|] eqn:E2; [|done]. destruct (bool_decide _) eqn:Eb; [|done]. intros [= ->].
    apply bool_decide_eq_true_1 in Eb as ->. by exists p0, p1, p2, payload.
Qed.

(** What lets a request past the token check, and as which request it goes on. *)
Definition authorised (config : AuthConfig) (now : Time) (r r' : Request) : Prop :=
  (skipped (AuthSkipPaths config) (Path r) = true ∧ r' = r) ∨
  ∃ token claims, header_of r "Authorization" = "Bearer " +:+ token ∧ validateJWT token (JWTSecret config) = inl claims ∧
    expired claims now = false ∧ r' = r <| CtxClaims := Some claims |> <| CtxUser := Some (UserID claims) |>.

(** No request passes without a token.  The token check either hands the
    request on, when its path starts with one of the exempt ones or it brings a
    valid, unexpired token, whose claims then are in its context; or it answers
    401 itself, and nothing of the server is touched. *)
Theorem token_check {S} (config : AuthConfig) (now : Time) (next : Handler S) (r : Request) (w : ResponseWriter) (s : S) :
  (∃ r', authorised config now r r' ∧ JWTAuthWithConfig config now next r (w, s) = next r' (w, s)) ∨
  (¬ (∃ r', authorised config now r r') ∧ ∃ detail, JWTAuthWithConfig config now next r (w, s) = (Ok tt, (WriteErrorSimple 401 detail w, s))).
Proof.
  unfold JWTAuthWithConfig, authorised. destruct (skipped _ _) eqn:Es; [left; exists r; auto|].
  destruct (String.eqb_spec (header_of r "Authorization") "") as [E|_].
  { right. split; [|by eexists]. intros [r' [[]|(token & claims & H & _)]]; [done|]. rewrite E in H. discriminate H. }
  destruct (HasPrefix (header_of r "Authorization") "Bearer ") eqn:Ep; cbn [negb].
  2:{ right. split; [|by eexists]. intros [r' [[]|(token & claims & H & _)]]; [done|]. rewrite H in Ep.
      rewrite (HasPrefix_app_l "Bearer " "Bearer " token) in Ep by reflexivity. done. }
  pose proof (HasPrefix_split _ _ Ep) as Eh. set (token := TrimPrefix _ _) in *.
  assert (∀ t, header_of r "Authorization" = "Bearer " +:+ t → t = token) as Ht.
  { intros t H. unfold token. by rewrite H, TrimPrefix_app. }
  destruct (validateJWT token (JWTSecret config)) as [claims|e] eqn:Ev.
  - destruct (expired claims now) eqn:Ex; [|left; eexists; split; [right; by exists token, claims|done]].
    right. split; [|by eexists]. intros [r' [[]|(t & c & H1%Ht & H2 & H3 & _)]]; [done|]. congruence.
  - right. split; [|by eexists]. intros [r' [[]|(t & c & H1%Ht & H2 & _)]]; [done|]. congruence.
Qed.

(** The same for the permissions of a request. *)
Definition permitted (permission : string) (r : Request) : bool :=
  match CtxClaims r, CtxKey r with
  | Some claims, _ => hasPermission (ClaimPermissions claims) permission
  | None, Some keyInfo => hasPermission (KeyPermissions keyInfo) permission
  | None, None => false
  end.
Lemma permission_check {S} permission (next : Handler S) r w s :
  RequirePermissionWithConfig permission next r (w, s) =
    if permitted permission r then next r (w, s)
    else (Ok tt, (WriteErrorWithDetails 403 "Insufficient permissions" {["required_permission" := AString permission]} w, s)).
Proof.
  unfold RequirePermissionWithConfig, permitted. destruct (CtxClaims r); [by destruct (hasPermission _ _)|]. destruct (CtxKey r); [|done]. by destruct (hasPermission _ _).
Qed.
Lemma hasPermission_spec permissions required : hasPermission permissions required = true ↔ required ∈ permissions ∨ "*" ∈ permissions.
Proof.
  unfold hasPermission. rewrite existsb_exists. setoid_rewrite orb_true_iff. setoid_rewrite String.eqb_eq. setoid_rewrite <- list_elem_of_In. naive_solver.
Qed.

(** A guarded handler runs only with its permission.  Behind the token check
    and a check of a permission, on a path that is not exempt and with no
    authentication before, a handler is called exactly for an unexpired token,
    signed with the secret, whose claims list the permission or [*]; every
    other request gets 401 or 403 and leaves the server as it was. *)
Theorem guarded_handler {S} (config : AuthConfig) (permission : string) (now : Time) (next : Handler S) (r : Request) (s : S)
    (Hpath : skipped (AuthSkipPaths config) (Path r) = false) :
  let '(res, (w', s')) := JWTAuthWithConfig config now (RequirePermissionWithConfig permission next) r (new_writer, s) in
  (∃ token claims, header_of r "Authorization" = "Bearer " +:+ token ∧ validateJWT token (JWTSecret config) = inl claims ∧
     expired claims now = false ∧ (permission ∈ ClaimPermissions claims ∨ "*" ∈ ClaimPermissions claims) ∧
     (res, (w', s')) = next (r <| CtxClaims := Some claims |> <| CtxUser := Some (UserID claims) |>) (new_writer, s)) ∨
  (res = Ok tt ∧ s' = s ∧ (status_of w' = Some 401 ∨ status_of w' = Some 403)).
Proof.
  destruct (token_check config now (RequirePermissionWithConfig permission next) r new_writer s) as [(r' & Ha & ->)|(_ & detail & ->)];
    [|right; split_and!; [done|done|by left]].
  destruct Ha as [[H _]|(token & claims & H1 & H2 & H3 & ->)]; [congruence|]. rewrite permission_check. unfold permitted. cbn [CtxClaims set_field].
  destruct (hasPermission (ClaimPermissions claims) permission) eqn:Eh.
  - destruct (next _ _) as [res [w' s']] eqn:En. left. exists token, claims. split_and!; [done|done|done|by apply hasPermission_spec|done].
  - right. split_and!; [done|done|by right].
Qed.
End auth.

(** ** A concrete token library *)

Definition test_claims : Claims := mkClaims "u1" "ann" ["jobs:read"]%string "user" 0 0 "" "u1".
#[export] Instance test_tokens : TokenLib := {|
  MarshalHeader := [x01; x02];
  UnmarshalHeader b := if bool_decide (b = [x01; x02]) then inl ("HS256", "JWT")%string else inr (ErrNew "unexpected end of JSON input");
  MarshalClaims _ := [x03];
  UnmarshalClaims b := if bool_decide (b = [x03]) then inl test_claims else inr (ErrNew "unexpected end of JSON input");
  HmacSha256 secret message := list_byte_of_string (secret +:+ message) |}.
#[export] Instance test_tokens_laws : TokenLibLaws test_tokens (eq test_claims).
Proof. split; [reflexivity|]. by intros c <-. Qed.

Lemma token_round_trip_witness : validateJWT (GenerateJWT test_claims "k") "k" = inl test_claims.
Proof. apply (token_round_trip (L := test_tokens) (valid := eq test_claims) "k"). reflexivity. Defined.

Definition auth_config : AuthConfig := mkAuthConfig "k" None ["/health"; "/ready"; "/metrics"]%string.
Definition jobs_request (token : string) : Request :=
  mkRequest "GET" "/api/v1/jobs" {["authorization" := ["Bearer " +:+ token]]} "10.0.0.9:4711" 0 ∅ ([], None) None None None.
Definition count_calls : Handler nat := λ _, io_set (λ '(w, n), (WriteHeader 200 w, S n)).

Definition good_request : Request := jobs_request (GenerateJWT test_claims "k").

Lemma guarded_handler_witness : skipped (AuthSkipPaths auth_config) (Path good_request) = false ∧
  ∃ token claims, header_of good_request "Authorization" = "Bearer " +:+ token ∧ validateJWT token "k" = inl claims ∧
    ("jobs:read"%string ∈ ClaimPermissions claims ∨ "*"%string ∈ ClaimPermissions claims).
Proof.
  split; [reflexivity|]. pose proof (guarded_handler auth_config "jobs:read" 5 count_calls good_request 0%nat eq_refl) as H.
  assert (JWTAuthWithConfig auth_config 5 (RequirePermissionWithConfig "jobs:read" count_calls) good_request (new_writer, 0%nat) =
    (Ok tt, (WriteHeader 200 new_writer, 1%nat))) as E by (vm_compute; reflexivity).
  rewrite E in H. destruct H as [(token & claims & H1 & H2 & _ & H3 & _)|(_ & H & _)]; [|discriminate H].
  exists token, claims. split; [exact H1|]. split; [exact H2|exact H3].
Defined.
