(* ===== verification/HttpCors.v ===== *)
(** * Cross-origin requests: src/pkg/api/v1/middleware/cors.go *)

From Stdlib Require Import Lia Strings.String Strings.Ascii.
From S2P Require Import Prelude CrashTypes Regex Http.

Record CORSConfig := mkCORS {
  AllowedOrigins : list string; AllowedMethods : list string; AllowedHeaders : list string; ExposedHeaders : list string;
  AllowCredentials : bool; MaxAge : Z; OptionsPassthrough : bool; CORSSkipPaths : list string }.
#[export] Instance CORSConfig_eta : Eta CORSConfig := fun c =>
  mkCORS (AllowedOrigins c) (AllowedMethods c) (AllowedHeaders c) (ExposedHeaders c) (AllowCredentials c) (MaxAge c) (OptionsPassthrough c) (CORSSkipPaths c).

Definition all_methods : list string := ["GET"; "POST"; "PUT"; "PATCH"; "DELETE"; "HEAD"; "OPTIONS"].
Definition DefaultCORSConfig : CORSConfig :=
  mkCORS ["*"] all_methods
    ["Accept"; "Authorization"; "Content-Type"; "X-CSRF-Token"; "X-API-Key"; "X-Requested-With"; "X-Real-IP"; "X-Forwarded-For"; "X-Forwarded-Proto"]
    ["X-RateLimit-Limit"; "X-RateLimit-Remaining"; "X-RateLimit-Reset"; "X-Request-ID"] false 86400 false [].
Definition SecureCORS (allowedOrigins : list string) : CORSConfig :=
  mkCORS allowedOrigins ["GET"; "POST"; "PUT"; "PATCH"; "DELETE"; "HEAD"]
    ["Accept"; "Authorization"; "Content-Type"; "X-API-Key"; "X-Requested-With"]
    ["X-RateLimit-Limit"; "X-RateLimit-Remaining"; "X-RateLimit-Reset"; "X-Request-ID"] true 3600 false [].
Definition DevelopmentCORS : CORSConfig := mkCORS ["*"] all_methods ["*"] ["*"] false 86400 false [].

Definition ValidateConfig (config : CORSConfig) : option goerror :=
  if AllowCredentials config && existsb (String.eqb "*") (AllowedOrigins config)
  then Some (ErrNew "cannot use wildcard origin with credentials") else None.

(** The defaults of [CORSWithConfig]. *)
Definition or_list (l d : list string) : list string := match l with [] => d | _ => l end.
Definition cors_defaults (config : CORSConfig) : CORSConfig :=
  config <| AllowedOrigins := or_list (AllowedOrigins config) ["*"] |>
         <| AllowedMethods := or_list (AllowedMethods config) all_methods |>
         <| AllowedHeaders := or_list (AllowedHeaders config) ["Accept"; "Authorization"; "Content-Type"; "X-CSRF-Token"; "X-API-Key"] |>
         <| MaxAge := if MaxAge config =? 0 then 86400 else MaxAge config |>.

Definition allowAllOrigins (config : CORSConfig) : bool := match AllowedOrigins config with [o] => String.eqb o "*" | _ => false end.
Definition allowed_origin (config : CORSConfig) (origin : string) : bool := existsb (String.eqb origin) (AllowedOrigins config).

Definition isMethodAllowed (method : string) (allowedMethods : list string) : bool := existsb (EqualFold method) allowedMethods.
Definition areHeadersAllowed (requestedHeaders : string) (allowedHeaders : list string) : bool :=
  let allowedMap := (λ h, ToLower (TrimSpace h)) <$> allowedHeaders in
  forallb (λ h, let normalized := ToLower (TrimSpace h) in String.eqb normalized "" || existsb (String.eqb normalized) allowedMap)
    (Split requestedHeaders ",").

(** The first lines of both: the origin that is let in. *)
Definition set_origin (config : CORSConfig) (origin : string) (h : Headers) : Headers :=
  if negb (String.eqb origin "") && (allowAllOrigins config || allowed_origin config origin)
  then HeaderSet "Access-Control-Allow-Origin" origin h
  else if allowAllOrigins config then HeaderSet "Access-Control-Allow-Origin" "*" h else h.
Definition set_if (b : bool) (name value : string) (h : Headers) : Headers := if b then HeaderSet name value h else h.

Definition handlePreflightRequest (r : Request) (config : CORSConfig) (origin : string) (w : ResponseWriter) : ResponseWriter :=
  let requestedMethod := header_of r "Access-Control-Request-Method" in
  let requestedHeaders := header_of r "Access-Control-Request-Headers" in
  let h := set_origin config origin (header w) in
  let h := set_if (String.eqb requestedMethod "" || isMethodAllowed requestedMethod (AllowedMethods config))
             "Access-Control-Allow-Methods" (Join (AllowedMethods config) ", ") h in
  let h := set_if (String.eqb requestedHeaders "" || areHeadersAllowed requestedHeaders (AllowedHeaders config))
             "Access-Control-Allow-Headers" (Join (AllowedHeaders config) ", ") h in
  let h := set_if (AllowCredentials config) "Access-Control-Allow-Credentials" "true" h in
  let h := HeaderSet "Access-Control-Max-Age" (pretty (MaxAge config)) h in
  let h := HeaderAdd "Vary" "Origin" h in
  let h := HeaderAdd "Vary" "Access-Control-Request-Method" h in
  let h := HeaderAdd "Vary" "Access-Control-Request-Headers" h in
  WriteHeader 204 (w <| header := h |>).

Definition handleActualRequest (config : CORSConfig) (origin : string) (w : ResponseWriter) : ResponseWriter :=
  let exposedHeadersStr := Join (ExposedHeaders config) ", " in
  let h := set_origin config origin (header w) in
  let h := set_if (AllowCredentials config && negb (String.eqb origin "") && negb (allowAllOrigins config)) "Access-Control-Allow-Credentials" "true" h in
  let h := set_if (negb (String.eqb exposedHeadersStr "")) "Access-Control-Expose-Headers" exposedHeadersStr h in
  w <| header := HeaderAdd "Vary" "Origin" h |>.

Definition CORSWithConfig {S} (config : CORSConfig) : Middleware S := λ next r,
  let config := cors_defaults config in
  if skipped (CORSSkipPaths config) (Path r) then next r
  else
    let origin := header_of r "Origin" in
    if String.eqb (Method r) "OPTIONS" then
      let* _ := reply (handlePreflightRequest r config origin) in
      if negb (OptionsPassthrough config) then io_ret tt
      else let* _ := reply (handleActualRequest config origin) in next r
    else let* _ := reply (handleActualRequest config origin) in next r.

(** ** Whom a response lets in *)






(** The response to a preflight request, and the headers before a handler runs. *)
Definition preflight (config : CORSConfig) (r : Request) : ResponseWriter :=
  handlePreflightRequest r (cors_defaults config) (header_of r "Origin") new_writer.
Definition actual (config : CORSConfig) (r : Request) : ResponseWriter :=
  handleActualRequest (cors_defaults config) (header_of r "Origin") new_writer.


(** The server's own configuration is one that [ValidateConfig], which nothing
    calls, refuses: a preflight from any origin gets credentials. *)
Definition stack_cors : CORSConfig :=
  mkCORS ["*"] ["GET"; "POST"; "PUT"; "DELETE"; "OPTIONS"; "PATCH"] ["Accept"; "Authorization"; "Content-Type"; "X-Request-ID"]
    ["X-Request-ID"; "X-Total-Count"] true 300 false [].
Lemma default_refused : ValidateConfig stack_cors = Some (ErrNew "cannot use wildcard origin with credentials").
Proof. reflexivity. Qed.

(** The middleware adds headers and keeps the rest.  A preflight ends with its
    answer, any other request goes on as it came, and only the response headers
    have changed. *)
Theorem cors_transparent {S} (config : CORSConfig) (next : Handler S) (r : Request) (s : S) (Hskip : skipped (CORSSkipPaths config) (Path r) = false) :
  CORSWithConfig config next r (new_writer, s) =
    if String.eqb (Method r) "OPTIONS" && negb (OptionsPassthrough config) then (Ok tt, (preflight config r, s))
    else next r (if String.eqb (Method r) "OPTIONS" then handleActualRequest (cors_defaults config) (header_of r "Origin") (preflight config r)
                 else actual config r, s).
Proof.
  unfold CORSWithConfig. change (CORSSkipPaths (cors_defaults config)) with (CORSSkipPaths config). rewrite Hskip.
  change (OptionsPassthrough (cors_defaults config)) with (OptionsPassthrough config).
  destruct (String.eqb (Method r) "OPTIONS"); [|done]. unfold io_bind at 1. rewrite reply_run. by destruct (OptionsPassthrough config).
Qed.

(** [*] in the list of headers stands for itself: no requested header gets in. *)
Lemma star_is_no_wildcard : areHeadersAllowed "X-API-Key" (AllowedHeaders DevelopmentCORS) = false.
Proof. vm_compute. reflexivity. Qed.
Lemma cors_transparent_witness :
  CORSWithConfig stack_cors (λ _ : Request, io_ret tt) (mkRequest "OPTIONS" "/api/v1/jobs" ∅ "" 0 ∅ ([], None) None None None) (new_writer, 0%nat) =
    (Ok tt, (preflight stack_cors (mkRequest "OPTIONS" "/api/v1/jobs" ∅ "" 0 ∅ ([], None) None None None), 0%nat)).
Proof.
  apply (cors_transparent stack_cors (λ _ : Request, io_ret tt) (mkRequest "OPTIONS" "/api/v1/jobs" ∅ "" 0 ∅ ([], None) None None None) 0%nat). reflexivity.
Defined.
