(* ===== verification/HttpValidation.v ===== *)
(** * Request validation: src/pkg/api/v1/middleware/validation.go

    The middleware, the checks of query and path parameters, and the strict check
    of JSON documents.  The decoder of encoding/json is an argument. *)

From Stdlib Require Import Lia Strings.String Strings.Ascii.
From S2P Require Import Prelude CrashTypes Regex Http.

Record ValidationConfig := mkValidation {
  MaxRequestSize : Z; RequiredContentTypes : list string; ValSkipPaths : list string; SkipMethods : list string;
  StrictMode : bool; AllowUnknownFields : bool }.
Record ValidationError := mkValidationError { Field : string; Tag : string; Value : string; VMessage : string; Param : string }.

Definition DefaultValidationConfig : ValidationConfig :=
  mkValidation (100 * 1024 * 1024) ["application/json"; "application/octet-stream"; "application/x-www-form-urlencoded"; "multipart/form-data"]
    [] ["GET"; "HEAD"; "OPTIONS"] false true.

(** ** Parameters *)

(** [strconv.Atoi]. *)
Fixpoint digits_to (s : string) (acc : Z) : option Z :=
  match s with
  | "" => Some acc
  | String c s => if digit c then digits_to s (acc * 10 + (Z.of_N (N_of_ascii c) - 48)) else None
  end%string.
Definition Atoi (s : string) : option Z :=
  let unsigned := match s with String "-" t | String "+" t => t | _ => s end%char in
  let negative := HasPrefix s "-" in
  if String.eqb unsigned "" then None
  else
    n ← digits_to unsigned 0;
    let v := if negative then - n else n in
    if (minInt64 <=? v) && (v <=? maxInt64) then Some v else None.

Definition contains (slice : list string) (item : string) : bool := existsb (λ s, EqualFold s item) slice.
Definition query_of (r : Request) (key : string) : string := match Query r !! key with Some (v :: _) => v | _ => "" end.

Definition validSortFields : list string := ["id"; "name"; "created_at"; "updated_at"; "status"].
Definition limit_errors (limit : string) : list ValidationError :=
  if String.eqb limit "" then []
  else
    let bad := [mkValidationError "limit" "range" limit "limit must be between 1 and 1000" "1-1000"] in
    match Atoi limit with None => bad | Some val => if (val <? 1) || (1000 <? val) then bad else [] end.
Definition offset_errors (offset : string) : list ValidationError :=
  if String.eqb offset "" then []
  else
    let bad := [mkValidationError "offset" "min" offset "offset must be non-negative" "0"] in
    match Atoi offset with None => bad | Some val => if val <? 0 then bad else [] end.
Definition sort_errors (sort : string) : list ValidationError :=
  if String.eqb sort "" then []
  else if negb (contains validSortFields (TrimPrefix sort "-"))
  then [mkValidationError "sort" "oneof" sort ("sort field must be one of: " +:+ Join validSortFields ", ") ""] else [].
Definition validateQueryParams (r : Request) : list ValidationError :=
  limit_errors (query_of r "limit") ++ offset_errors (query_of r "offset") ++ sort_errors (query_of r "sort").

Fixpoint count_char (c : ascii) (s : string) : nat :=
  match s with "" => 0%nat | String d s => ((if Ascii.eqb d c then 1 else 0) + count_char c s)%nat end%string.
Definition isLikelyUUID (s : string) : bool := (String.length s =? 36)%nat && (count_char "-" s =? 4)%nat.
Fixpoint uuid_chars (i : nat) (s : string) : bool :=
  match s with
  | "" => true
  | String c s =>
      (if ((i =? 8) || (i =? 13) || (i =? 18) || (i =? 23))%nat then Ascii.eqb c "-" else hexdigit c) && uuid_chars (S i) s
  end%string.
Definition isValidUUID (s : string) : bool := (String.length s =? 36)%nat && uuid_chars 0 s.

(** [strings.Trim(s, slash)]. *)
Fixpoint trim_left_char (c : ascii) (s : string) : string :=
  match s with "" => "" | String d t => if Ascii.eqb d c then trim_left_char c t else s end%string.
Definition trim_char (c : ascii) (s : string) : string := rev_string (trim_left_char c (rev_string (trim_left_char c s) "")) "".
Definition path_segments (path : string) : list string := Split (trim_char "/" path) "/".
Definition validatePathParams (r : Request) : list ValidationError :=
  concat (imap (λ i segment,
    if isLikelyUUID segment && negb (isValidUUID segment)
    then [mkValidationError ("path_param_" +:+ pretty (Z.of_nat i)) "uuid" segment "invalid UUID format" ""] else []) (path_segments (Path r))).

(** ** JSON documents *)

(** [getObjectDepth]: only objects that are a field, or in an array that is a
    field, count. *)
Fixpoint getObjectDepth (j : json) : nat :=
  match j with
  | JObject fields =>
      (fix go (l : list (string * json)) : nat :=
         match l with
         | [] => 0
         | (_, value) :: l =>
             Nat.max
               (match value with
                | JObject _ => 1 + getObjectDepth value
                | JArray arr =>
                    (fix items (a : list json) : nat :=
                       match a with
                       | [] => 1
                       | item :: a => Nat.max (match item with JObject _ => 1 + getObjectDepth item | _ => 1 end) (items a)
                       end) arr
                | _ => 1
                end) (go l)
         end) fields
  | _ => 0
  end%nat.

(** The errors in the order of the fields; Go's order of a map is another. *)
Fixpoint validateJSONStructure (j : json) : option goerror :=
  match j with
  | JObject fields =>
      if (10 <? getObjectDepth j)%nat then Some (ErrNew "JSON object nesting too deep (max 10 levels)")
      else if (100 <? length fields)%nat then Some (ErrNew "JSON object has too many fields (max 100)")
      else
        (fix go (l : list (string * json)) : option goerror :=
           match l with
           | [] => None
           | (key, value) :: l =>
               if (100 <? String.length key)%nat then Some (ErrNew ("JSON field name too long: " +:+ key))
               else match validateJSONStructure value with Some err => Some err | None => go l end
           end) fields
  | JArray arr =>
      if (1000 <? length arr)%nat then Some (ErrNew "JSON array too large (max 1000 elements)")
      else
        (fix go (l : list json) : option goerror :=
           match l with
           | [] => None
           | item :: l => match validateJSONStructure item with Some err => Some err | None => go l end
           end) arr
  | _ => None
  end.

(** ** The middleware *)

Section validation.
Context (decode : bytes → json + goerror).

Definition isAllowedContentType (config : ValidationConfig) (contentType : string) : bool :=
  let mainType := TrimSpace (match Split contentType ";" with m :: _ => m | [] => "" end) in
  existsb (EqualFold mainType) (RequiredContentTypes config).

(** What [io.LimitReader] lets through, and the read error within it. *)
Definition limited (body : bytes * option goerror) (n : Z) : bytes * option goerror :=
  (take (Z.to_nat n) body.1, if len body.1 <? n then body.2 else None).

(** A refusal, or the request with its body read. *)
Definition validateJSONBody (config : ValidationConfig) (r : Request) : Request + (ResponseWriter → ResponseWriter) :=
  match limited (Body r) (MaxRequestSize config) with
  | (_, Some _) => inr (WriteErrorSimple 400 "Failed to read request body")
  | (body, None) =>
      let r := r <| Body := (body, None) |> in
      if (length body =? 0)%nat then inl r
      else
        match decode body with
        | inr err =>
            let details :=
              if Contains (Error err) "unknown field"
              then {["error" := AString "Unknown fields are not allowed"; "hint" := AString "Remove any extra fields from your JSON request"]}
              else {["error" := AString (Error err)]} in
            inr (WriteErrorWithDetails 400 "Invalid JSON format" details)
        | inl jsonData =>
            if StrictMode config then
              match validateJSONStructure jsonData with
              | Some err => inr (WriteErrorWithDetails 400 "Invalid JSON structure" {["validation_errors" := AString (Error err)]})
              | None => inl r
              end
            else inl r
        end
  end.

Definition error_value (e : ValidationError) : goany :=
  AStruct ["field"; "tag"; "value"; "message"; "param"] [AString (Field e); AString (Tag e); AString (Value e); AString (VMessage e); AString (Param e)].

Definition ValidateRequestWithConfig {S} (config : ValidationConfig) : Middleware S := λ next r,
  if skipped (ValSkipPaths config) (Path r) then next r
  else if existsb (EqualFold (Method r)) (SkipMethods config) then next r
  else if MaxRequestSize config <? ContentLength r then
    reply (WriteErrorWithDetails 413 "Request body too large"
             {["max_size_bytes" := AInt (MaxRequestSize config); "received_bytes" := AInt (ContentLength r)]})
  else
    let contentType := header_of r "Content-Type" in
    if ((0 <? ContentLength r) || String.eqb (header_of r "Transfer-Encoding") "chunked") &&
       (negb (String.eqb contentType "") && negb (isAllowedContentType config contentType)) then
      reply (WriteErrorWithDetails 415 "Unsupported content type"
               {["received" := AString contentType; "allowed_types" := AList (AString <$> RequiredContentTypes config)]})
    else
      match validateQueryParams r, validatePathParams r with
      | (_ :: _) as errs, _ => reply (WriteErrorWithDetails 400 "Invalid query parameters" {["validation_errors" := AList (error_value <$> errs)]})
      | [], (_ :: _) as errs => reply (WriteErrorWithDetails 400 "Invalid path parameters" {["validation_errors" := AList (error_value <$> errs)]})
      | [], [] =>
          if Contains contentType "application/json" && (0 <? ContentLength r) then
            match validateJSONBody config r with inl r => next r | inr refuse => reply refuse end
          else next r
      end.
End validation.

(** ** What strict mode accepts *)

Lemma json_nested_ind (P : json → Prop) :
  P JNull → (∀ b, P (JBool b)) → (∀ z, P (JInt z)) → (∀ f, P (JFloat f)) → (∀ s, P (JString s)) → (∀ t, P (JTime t)) →
  (∀ arr, Forall P arr → P (JArray arr)) → (∀ fields, Forall (λ kv, P kv.2) fields → P (JObject fields)) → ∀ j, P j.
Proof.
  intros H1 H2 H3 H4 H5 H6 Ha Ho. fix IH 1. intros [|b|z|f|s|t|arr|fields]; [done|done|done|done|done|done|..].
  - apply Ha. induction arr as [|x arr IHa]; constructor; [apply IH|exact IHa].
  - apply Ho. induction fields as [|[k v] fields IHf]; constructor; [apply IH|exact IHf].
Qed.

(** The documents inside a document, itself included. *)
Inductive subdoc : json → json → Prop :=
  | sub_self j : subdoc j j
  | sub_field d k v fields : (k, v) ∈ fields → subdoc d v → subdoc d (JObject fields)
  | sub_item d v arr : v ∈ arr → subdoc d v → subdoc d (JArray arr).
(** What a field holds: its value, and the items of its value if that is an array. *)
Inductive holds (fields : list (string * json)) : json → Prop :=
  | holds_value k v : (k, v) ∈ fields → holds fields v
  | holds_item k v arr : (k, JArray arr) ∈ fields → v ∈ arr → holds fields v.
(** A path of [n] fields down from an object, each but the first a field of an
    object that the one before holds. *)
Inductive path : json → nat → Prop :=
  | path_field fields v : holds fields v → path (JObject fields) 1
  | path_below fields inner n : holds fields (JObject inner) → path (JObject inner) n → path (JObject fields) (S n).
(** The limits on one document. *)
Definition within_limits (d : json) : Prop :=
  match d with
  | JObject fields => (∀ n, path d n → (n ≤ 10)%nat) ∧ (length fields ≤ 100)%nat ∧ ∀ k v, (k, v) ∈ fields → (String.length k ≤ 100)%nat
  | JArray arr => (length arr ≤ 1000)%nat
  | _ => True
  end.

(** [getObjectDepth] is the length of the longest path. *)
Definition item_depth (v : json) : nat := match v with JObject _ => 1 + getObjectDepth v | _ => 1 end.
Fixpoint items_depth (l : list json) : nat := match l with [] => 1 | v :: l => Nat.max (item_depth v) (items_depth l) end.
Definition value_depth (v : json) : nat := match v with JObject _ => 1 + getObjectDepth v | JArray arr => items_depth arr | _ => 1 end.
Fixpoint fields_depth (l : list (string * json)) : nat := match l with [] => 0 | (_, v) :: l => Nat.max (value_depth v) (fields_depth l) end.
Lemma object_depth fields : getObjectDepth (JObject fields) = fields_depth fields.
Proof.
  cbn [getObjectDepth]. induction fields as [|[k v] l IH]; [done|]. cbn [fields_depth]. by rewrite IH.
Qed.
Lemma items_depth_le arr m : (items_depth arr ≤ m)%nat ↔ (1 ≤ m)%nat ∧ ∀ v, v ∈ arr → (item_depth v ≤ m)%nat.
Proof.
  induction arr as [|v arr IH]; cbn [items_depth]; [split; [intros H; split; [done|by intros v ?%not_elem_of_nil]|by intros [? _]]|].
  rewrite Nat.max_lub_iff, IH. setoid_rewrite elem_of_cons. split; [intros (H1 & H2 & H3); split; [done|]; intros w [->|Hw]; auto|].
  intros [H1 H2]. split_and!; auto.
Qed.
Lemma fields_depth_le fields m : (fields_depth fields ≤ m)%nat ↔ ∀ k v, (k, v) ∈ fields → (value_depth v ≤ m)%nat.
Proof.
  induction fields as [|[k v] l IH]; cbn [fields_depth]; [split; [by intros _ k v ?%not_elem_of_nil|lia]|].
  rewrite Nat.max_lub_iff, IH. setoid_rewrite elem_of_cons. split; [intros [H1 H2] k' v' [[= -> ->]|Hin]; [done|by eapply H2]|].
  intros H. split; [apply (H k v); by left|]. intros k' v' Hin. apply (H k' v'). by right.
Qed.
Lemma holds_depth fields m : (fields_depth fields ≤ m)%nat ↔ ∀ w, holds fields w → (item_depth w ≤ m)%nat.
Proof.
  rewrite fields_depth_le. split.
  - intros H w [k v Hin|k v arr Hin Hv]; apply H in Hin; cbn [value_depth] in Hin; [|by apply items_depth_le in Hin as [_ Hi]; apply Hi].
    destruct v as [| | | | | |arr|]; try done. by apply items_depth_le in Hin as [H1 _].
  - intros H k v Hin. pose proof (H v (holds_value _ _ _ Hin)) as Hv. destruct v as [| | | | | |arr|]; try done.
    cbn [value_depth]. apply items_depth_le. split; [exact Hv|]. intros w Hw. apply H. by eapply holds_item.
Qed.
Lemma depth_path j m : (getObjectDepth j ≤ m)%nat ↔ ∀ n, path j n → (n ≤ m)%nat.
Proof.
  assert (∀ w, (w = j ∨ ∃ arr, j = JArray arr ∧ w ∈ arr) → ∀ m, (getObjectDepth w ≤ m)%nat ↔ ∀ n, path w n → (n ≤ m)%nat) as H;
    [|by apply H; left]. clear m.
  induction j as [|b|z|f|s|t|arr IH|fields IH] using json_nested_ind; intros w [->|(arr' & Earr & Hw)] m; try done;
    try (split; [intros _ n Hp; by inversion Hp | cbn; lia]).
  - injection Earr as <-. rewrite Forall_forall in IH. apply (IH w Hw). by left.
  - rewrite Forall_forall in IH. rewrite object_depth, holds_depth.
    assert (∀ inner, holds fields (JObject inner) → ∀ m, (getObjectDepth (JObject inner) ≤ m)%nat ↔ ∀ n, path (JObject inner) n → (n ≤ m)%nat) as Hin.
    { intros inner Hh. inversion Hh as [k v Hkv|k v arr Hkv Hv]; subst; apply (IH _ Hkv); [by left|]. right. by exists arr. }
    split.
    + intros H n Hp. inversion Hp as [? v Hh|? inner n' Hh Hp']; subst.
      * specialize (H v Hh). destruct v; cbn [item_depth] in H; lia.
      * specialize (H _ Hh). cbn [item_depth] in H. destruct m as [|m]; [lia|].
        pose proof (proj1 (Hin inner Hh m) ltac:(lia) n' Hp'). lia.
    + intros H v Hh. pose proof (H 1%nat (path_field _ _ Hh)) as H1. destruct v as [| | | | | | |inner]; try exact H1. cbn [item_depth].
      destruct m as [|m]; [lia|]. apply le_n_S, (Hin inner Hh m). intros n Hp. pose proof (H (S n) (path_below _ _ _ Hh Hp)). lia.
Qed.

Definition check_fields (l : list (string * json)) : option goerror :=
  (fix go (l : list (string * json)) : option goerror :=
     match l with
     | [] => None
     | (key, value) :: l =>
         if (100 <? String.length key)%nat then Some (ErrNew ("JSON field name too long: " +:+ key))
         else match validateJSONStructure value with Some err => Some err | None => go l end
     end) l.
Definition check_items (l : list json) : option goerror :=
  (fix go (l : list json) : option goerror :=
     match l with
     | [] => None
     | item :: l => match validateJSONStructure item with Some err => Some err | None => go l end
     end) l.
Lemma check_fields_none l : check_fields l = None ↔ ∀ k v, (k, v) ∈ l → (String.length k ≤ 100)%nat ∧ validateJSONStructure v = None.
Proof.
  induction l as [|[k v] l IH]; [split; [by intros _ ? ? ?%not_elem_of_nil|done]|].
  change (check_fields ((k, v) :: l)) with (if (100 <? String.length k)%nat then Some (ErrNew ("JSON field name too long: " +:+ k))
    else match validateJSONStructure v with Some err => Some err | None => check_fields l end).
  setoid_rewrite elem_of_cons. destruct (Nat.ltb_spec 100 (String.length k)); [split; [done|intros H0; destruct (H0 k v); [by left|lia]]|].
  destruct (validateJSONStructure v) eqn:E; [split; [done|intros H0; destruct (H0 k v); [by left|congruence]]|]. rewrite IH. split.
  - intros H0 k' v' [[= -> ->]|Hin]; [done|by apply H0].
  - intros H0 k' v' Hin. apply H0. by right.
Qed.
Lemma check_items_none l : check_items l = None ↔ ∀ v, v ∈ l → validateJSONStructure v = None.
Proof.
  induction l as [|v l IH]; [split; [by intros _ ? ?%not_elem_of_nil|done]|].
  change (check_items (v :: l)) with (match validateJSONStructure v with Some err => Some err | None => check_items l end).
  setoid_rewrite elem_of_cons. destruct (validateJSONStructure v) eqn:E; [split; [done|intros H0; specialize (H0 v ltac:(by left)); congruence]|].
  rewrite IH. split; [intros H0 v' [->|Hin]; auto|]. intros H0 v' Hin. apply H0. by right.
Qed.

(** C32: what strict mode accepts.  A document is accepted exactly if every
    document in it is within the limits: no array has more than 1000 elements, no
    object has more than 100 fields or a name of more than 100 bytes, and no path
    of more than 10 fields leads down from an object, where a path goes on only
    in an object that is a field, or an item of an array that is a field. *)
Theorem strict_exact (j : json) : validateJSONStructure j = None ↔ ∀ d, subdoc d j → within_limits d.
Proof.
  assert (∀ a, (∀ arr, a ≠ JArray arr) → (∀ fields, a ≠ JObject fields) → ∀ d, subdoc d a → d = a) as Hleaf.
  { intros a H1 H2 d Hd. inversion Hd; subst; [done|by edestruct H2|by edestruct H1]. }
  induction j as [|b|z|f|s|t|arr IH|fields IH] using json_nested_ind;
    try (split; [intros _ d ->%Hleaf; done|done]).
  - rewrite Forall_forall in IH. cbn [validateJSONStructure]. fold (check_items arr). destruct (Nat.ltb_spec 1000 (length arr)) as [Hl|Hl].
    { split; [done|]. intros H. specialize (H _ (sub_self _)). cbn in H. lia. }
    rewrite check_items_none. split.
    + intros H d Hd. inversion Hd as [|? ? ? ? Hin Hs|? v ? Hin Hs]; subst; [done|]. apply (IH v Hin); [by apply H|done].
    + intros H v Hin. apply (IH v Hin). intros d Hd. apply H. by eapply sub_item.
  - rewrite Forall_forall in IH. cbn [validateJSONStructure]. fold (check_fields fields). destruct (Nat.ltb_spec 10 (getObjectDepth (JObject fields))) as [Hd|Hd].
    { split; [done|]. intros H. destruct (H _ (sub_self _)) as [Hpath _]. apply (proj2 (depth_path _ _)) in Hpath. lia. }
    destruct (Nat.ltb_spec 100 (length fields)) as [Hl|Hl].
    { split; [done|]. intros H. specialize (H _ (sub_self _)). cbn [within_limits] in H. lia. }
    rewrite check_fields_none. split.
    + intros H d Hsub. inversion Hsub as [|? k v ? Hin Hs|]; subst.
      * split_and!; [by apply depth_path|done|]. intros k v Hin. by apply (H k v Hin).
      * apply (IH (k, v) Hin); [by apply (H k v Hin)|done].
    + intros H k v Hin. split; [by apply (proj2 (proj2 (H _ (sub_self _))) k v)|]. apply (IH (k, v) Hin). intros d Hs. apply H. by eapply sub_field.
Qed.

(** How deep objects really nest. *)
Fixpoint nesting (j : json) : nat :=
  match j with
  | JObject fields => S ((fix go (l : list (string * json)) := match l with [] => 0 | (_, v) :: l => Nat.max (nesting v) (go l) end) fields)
  | JArray arr => (fix go (l : list json) := match l with [] => 0 | v :: l => Nat.max (nesting v) (go l) end) arr
  | _ => 0
  end%nat.
Fixpoint hidden (n : nat) : json := match n with O => JNull | S n => JObject [("a"%string, JArray [JArray [hidden n]])] end.

(** The limit on the depth can be passed.  For every number there is a document
    that strict mode accepts in which that many objects nest: an array in an array
    hides what it holds. *)
Theorem depth_unlimited (n : nat) : ∃ j, nesting j = n ∧ validateJSONStructure j = None.
Proof.
  exists (hidden n). split; [induction n as [|n IH]; cbn; [done|by rewrite IH, !Nat.max_0_r]|].
  induction n as [|n IH]; cbn; [done|by rewrite IH].
Qed.

(** ** What the middleware lets through *)

Section checks.
Context (decode : bytes → json + goerror).

(** The ways a request goes on: unchecked, or with its checks passed and its JSON
    body, if it has one, read again. *)
Definition accepted (config : ValidationConfig) (r r' : Request) : Prop :=
  r' = r ∨ validateJSONBody decode config r = inl r'.
Lemma json_body_request config r r' : validateJSONBody decode config r = inl r' →
  r' = r <| Body := (take (Z.to_nat (MaxRequestSize config)) (Body r).1, None) |>.
Proof.
  unfold validateJSONBody, limited. destruct (if len (Body r).1 <? _ then _ else _); [done|].
  destruct (length _ =? 0)%nat; [by intros [= <-]|]. destruct (decode _) as [j|e]; [|done].
  destruct (StrictMode config); [destruct (validateJSONStructure j); [done|]|]; by intros [= <-].
Qed.

(** A request goes on as it came, or is refused.  The handler behind gets the
    request itself, or the request with its body read into memory, up to the
    limit; or the answer is 400, 413 or 415 and the server is not touched.  A
    body that is read is within the limit as long as its length is announced
    truly, so that it goes on unchanged. *)
Theorem validation_transparent {S} (config : ValidationConfig) (next : Handler S) (r : Request) (s : S)
    (Hlen : len (Body r).1 ≤ MaxRequestSize config) (Herr : (Body r).2 = None) :
  ValidateRequestWithConfig decode config next r (new_writer, s) = next r (new_writer, s) ∨
  ∃ w', ValidateRequestWithConfig decode config next r (new_writer, s) = (Ok tt, (w', s)) ∧
    (status_of w' = Some 400 ∨ status_of w' = Some 413 ∨ status_of w' = Some 415).
Proof.
  unfold ValidateRequestWithConfig. destruct (skipped _ _); [by left|]. destruct (existsb _ (SkipMethods config)); [by left|].
  destruct (_ <? _); [right; eexists; split; [reflexivity|by right; left]|].
  destruct (_ && (_ && _)); [right; eexists; split; [reflexivity|by right; right]|].
  destruct (validateQueryParams r); [|right; eexists; split; [reflexivity|by left]]. destruct (validatePathParams r); [|right; eexists; split; [reflexivity|by left]].
  destruct (_ && _); [|by left]. destruct (validateJSONBody decode config r) as [r'|refuse] eqn:E.
  - left. apply json_body_request in E as ->. rewrite take_ge by (unfold len in Hlen; lia). f_equal. destruct r as [m p h a c q [b e] x y z]. cbn in *. by subst e.
  - right. eexists. split; [reflexivity|]. left. revert E. unfold validateJSONBody. destruct (limited _ _) as [b [e|]]; [by intros [= <-]|].
    destruct (length b =? 0)%nat; [done|]. destruct (decode b) as [j|e]; [|by intros [= <-]]. destruct (StrictMode config); [|done].
    destruct (validateJSONStructure j); [by intros [= <-]|done].
Qed.

(** A chunked body is not validated.  net/http takes the transfer encoding out of
    the headers and gives the length as -1; such a request goes on whatever its
    size, its type and its contents, when its parameters are well formed. *)
Theorem chunked_unchecked {S} (config : ValidationConfig) (next : Handler S) (r : Request) (w : ResponseWriter) (s : S)
    (Hlen : ContentLength r = -1) (Hte : header_of r "Transfer-Encoding" = "") (Hmax : 0 ≤ MaxRequestSize config)
    (Hparams : validateQueryParams r = [] ∧ validatePathParams r = []) :
  ValidateRequestWithConfig decode config next r (w, s) = next r (w, s).
Proof.
  unfold ValidateRequestWithConfig. rewrite Hlen, Hte, (proj1 Hparams), (proj2 Hparams).
  assert ((MaxRequestSize config <? -1) = false) as -> by lia. cbn [Z.ltb Z.compare orb andb String.eqb]. rewrite andb_false_r.
  destruct (skipped _ _); [done|]. by destruct (existsb _ _).
Qed.
End checks.

Definition no_json (_ : bytes) : json + goerror := inr (ErrNew "unexpected end of JSON input").
Definition post_request (n : Z) (body : bytes) : Request :=
  mkRequest "POST" "/api/v1/jobs" {["content-type" := ["text/html"]]} "10.0.0.9:4711" n ∅ (body, None) None None None.

Lemma validation_transparent_witness : ∃ w', ValidateRequestWithConfig no_json DefaultValidationConfig (λ _, io_ret tt) (post_request 3 [Byte.x01]) (new_writer, 0%nat) = (Ok tt, (w', 0%nat)).
Proof.
  destruct (validation_transparent no_json DefaultValidationConfig (λ _, io_ret tt) (post_request 3 [Byte.x01]) 0%nat) as [H|(w' & H & _)];
    [vm_compute; discriminate|reflexivity|exists new_writer; exact H|exists w'; exact H].
Defined.
Lemma chunked_unchecked_witness :
  ValidateRequestWithConfig no_json DefaultValidationConfig (λ _, io_ret tt) (post_request (-1) [Byte.x01]) (new_writer, 0%nat) = (Ok tt, (new_writer, 0%nat)).
Proof.
  apply (chunked_unchecked no_json DefaultValidationConfig (λ _, io_ret tt) (post_request (-1) [Byte.x01]) new_writer 0%nat);
    [reflexivity|reflexivity|vm_compute; discriminate|split; vm_compute; reflexivity].
Defined.
