(* ===== verification/RateLimit.v ===== *)
(** * Rate limits: src/pkg/api/v1/middleware/ratelimit.go

    The limiters of golang.org/x/time/rate and the Redis client are given by
    classes, the first with what its documentation promises.  A server keeps the
    in-memory limiters that were made, and how many goroutines clean them. *)

From Stdlib Require Import Lia Strings.String Strings.Ascii.
From S2P Require Import Prelude CrashTypes Regex Http HttpAuth.

(** ** The libraries *)

(** A token bucket: [AllowN] at a time, and whether it is full then. *)
Class Rate (L : Type) := {
  NewLimiter : Z → Z → L;
  LimiterAllowN : L → Time → Z → bool * L;
  TokensAtBurst : L → Time → bool }.
(** [same] limiters answer alike; [limiter_of] are those made with a rate and a
    burst.  A full one answers like a new one from then on, and a new one lets
    its burst through. *)
Class RateLaws (L : Type) `{Rate L} (same : L → L → Prop) (limiter_of : Z → Z → L → Prop) := {
  same_equivalence :: Equivalence same;
  same_allow l l' t n : same l l' → (LimiterAllowN l t n).1 = (LimiterAllowN l' t n).1 ∧ same (LimiterAllowN l t n).2 (LimiterAllowN l' t n).2;
  new_of r b : limiter_of r b (NewLimiter r b);
  allow_of r b l t n : limiter_of r b l → limiter_of r b (LimiterAllowN l t n).2;
  full_is_new r b l t t' n : limiter_of r b l → TokensAtBurst l t = true → t ≤ t' →
    (LimiterAllowN l t' n).1 = (LimiterAllowN (NewLimiter r b) t' n).1 ∧ same (LimiterAllowN l t' n).2 (LimiterAllowN (NewLimiter r b) t' n).2;
  new_allows r b t n : 0 < r → n ≤ b → (LimiterAllowN (NewLimiter r b) t n).1 = true }.

(** The commands of the Redis limiter; a pipeline gives a number for each. *)
Inductive command :=
  | ZRemRangeByScore (key : string) (min max : Z)
  | ZCard (key : string)
  | ZAdd (key : string) (score : Z) (member : string)
  | Expire (key : string) (d : Duration)
  | ZRem (key member : string).
Class Redis (R : Type) := { Exec : list command → R → (list Z + goerror) * R }.

(** ** Limiters *)

Record RateLimiter (L : Type) := mkRateLimiter { limiters : gmap string L; limit : Z; burst : Z; ttl : Duration }.
Arguments mkRateLimiter {L}.
Arguments limiters {L}.
Arguments limit {L}.
Arguments burst {L}.
Arguments ttl {L}.

Section limiter.
Context {L : Type} `{Rate L}.

Definition NewRateLimiter (rateLimit burst : Z) : RateLimiter L := mkRateLimiter ∅ rateLimit burst (5 * Minute).
Definition with_limiters (m : gmap string L) (rl : RateLimiter L) : RateLimiter L := mkRateLimiter m (limit rl) (burst rl) (ttl rl).

(** The limiter of a key, made when there is none. *)
Definition limiter_for (key : string) (rl : RateLimiter L) : L :=
  match limiters rl !! key with Some limiter => limiter | None => NewLimiter (limit rl) (burst rl) end.
Definition AllowN (key : string) (n : Z) (now : Time) (rl : RateLimiter L) : bool * RateLimiter L :=
  let '(allowed, limiter) := LimiterAllowN (limiter_for key rl) now n in
  (allowed, with_limiters (<[key := limiter]> (limiters rl)) rl).
Definition Allow (key : string) (now : Time) (rl : RateLimiter L) : bool * RateLimiter L := AllowN key 1 now rl.

(** One round of [cleanup]: full limiters are dropped. *)
Definition cleanup (now : Time) (rl : RateLimiter L) : RateLimiter L :=
  with_limiters (filter (λ kv, TokensAtBurst kv.2 now = false) (limiters rl)) rl.

(** ** The limiters of the keys *)

Inductive use := UAllow (key : string) (n : Z) | UCleanup.
(** The answers to a sequence of uses, each at its time. *)
Fixpoint answers (us : list (Time * use)) (rl : RateLimiter L) : list bool :=
  match us with
  | [] => []
  | (now, UAllow key n) :: us => let '(allowed, rl) := AllowN key n now rl in allowed :: answers us rl
  | (now, UCleanup) :: us => answers us (cleanup now rl)
  end.
(** The specification: every key has a limiter of its own, for ever. *)
Fixpoint own_answers (us : list (Time * use)) (own : string → L) : list bool :=
  match us with
  | [] => []
  | (now, UAllow key n) :: us =>
      let '(allowed, limiter) := LimiterAllowN (own key) now n in
      allowed :: own_answers us (λ k, if String.eqb k key then limiter else own k)
  | (now, UCleanup) :: us => own_answers us own
  end.

Context {same : L → L → Prop} {limiter_of : Z → Z → L → Prop} `{!RateLaws L same limiter_of}.

(** What the map has of a limiter at a time: the limiter, or nothing if a new one
    would answer alike from then on. *)
Definition stands_for (r b : Z) (now : Time) (l : L) (o : option L) : Prop :=
  limiter_of r b l ∧
  match o with
  | Some l' => limiter_of r b l' ∧ same l l'
  | None => ∀ t n, now ≤ t → (LimiterAllowN l t n).1 = (LimiterAllowN (NewLimiter r b) t n).1 ∧
              same (LimiterAllowN l t n).2 (LimiterAllowN (NewLimiter r b) t n).2
  end.
Definition stand_for (now : Time) (own : string → L) (rl : RateLimiter L) : Prop :=
  ∀ key, stands_for (limit rl) (burst rl) now (own key) (limiters rl !! key).

Lemma stands_later r b now now' l o : now ≤ now' → stands_for r b now l o → stands_for r b now' l o.
Proof. intros Hle [H1 H2]. split; [done|]. destruct o; [done|]. intros t n Ht. apply H2. lia. Qed.

Lemma allow_refines key n now own rl : stand_for now own rl →
  let '(allowed, rl') := AllowN key n now rl in let '(allowed', l') := LimiterAllowN (own key) now n in
  allowed = allowed' ∧ stand_for now (λ k, if String.eqb k key then l' else own k) rl'.
Proof.
  intros Hs. unfold AllowN, limiter_for. pose proof (Hs key) as [Ho Hk].
  assert (∃ l, (match limiters rl !! key with Some l => l | None => NewLimiter (limit rl) (burst rl) end) = l ∧ limiter_of (limit rl) (burst rl) l ∧
    (LimiterAllowN (own key) now n).1 = (LimiterAllowN l now n).1 ∧ same (LimiterAllowN (own key) now n).2 (LimiterAllowN l now n).2) as (l & -> & H1 & H2 & H3).
  { destruct (limiters rl !! key) as [l|]; eexists; (split; [done|]).
    - destruct Hk as [Hl Hk]. split; [done|]. by apply same_allow.
    - split; [apply new_of|]. by apply Hk. }
  pose proof (allow_of _ _ l now n H1) as H4. pose proof (allow_of _ _ (own key) now n Ho) as H5.
  destruct (LimiterAllowN l now n) as [a l1], (LimiterAllowN (own key) now n) as [a' l1']. cbn [fst snd] in *. split; [done|].
  intros k. cbn [limiters with_limiters limit burst]. destruct (String.eqb_spec k key) as [->|Hne].
  - rewrite lookup_insert_eq. by split.
  - rewrite lookup_insert_ne by done. apply Hs.
Qed.
Lemma cleanup_refines now own rl : stand_for now own rl → stand_for now own (cleanup now rl).
Proof.
  intros Hs key. destruct (Hs key) as [Ho Hk]. split; [done|]. cbn [limiters with_limiters cleanup limit burst].
  destruct (limiters rl !! key) as [l|] eqn:El.
  - destruct Hk as [Hl Hk]. destruct (TokensAtBurst l now) eqn:Et.
    + rewrite map_lookup_filter_None_2 by (right; intros l' E; cbn; congruence). intros t n Ht.
      destruct (same_allow (own key) l t n Hk) as [E1 E2]. destruct (full_is_new _ _ l now t n Hl Et Ht) as [E3 E4]. split; [congruence|]. by etrans.
    + rewrite (map_lookup_filter_Some_2 _ _ _ l) by done. done.
  - by rewrite map_lookup_filter_None_2 by (left; done).
Qed.

(** C33: every key has its own limit, and the cleaning is invisible.  For uses in the
    order of time, with cleanings at any points between them, the answers are those
    of a separate limiter for each key that is never thrown away. *)
Theorem limits_per_key (rateLimit burst : Z) (us : list (Time * use)) (Htime : StronglySorted Z.le (us.*1)) :
  answers us (NewRateLimiter rateLimit burst) = own_answers us (λ _, NewLimiter rateLimit burst).
Proof.
  assert (∀ now own rl, Forall (Z.le now) (us.*1) → stand_for now own rl → answers us rl = own_answers us own) as Hgo.
  { induction us as [|[now u] us IH]; intros t own rl Hle Hs; [done|]. cbn [fmap list_fmap fst] in *.
    apply StronglySorted_inv in Htime as [Htime Hall]. apply Forall_cons in Hle as [Ht _].
    assert (stand_for now own rl) as Hn by (intros key; by eapply stands_later). destruct u as [key n|]; cbn [answers own_answers].
    - pose proof (allow_refines key n now own rl Hn) as Ha. destruct (AllowN key n now rl) as [a rl'], (LimiterAllowN (own key) now n) as [a' l'].
      destruct Ha as [-> Ha]. f_equal. by apply (IH Htime now).
    - apply (IH Htime now); [done|]. by apply cleanup_refines. }
  destruct us as [|[now u] us']; [done|]. apply (Hgo now).
  - cbn. constructor; [lia|]. by apply StronglySorted_inv in Htime as [_ ?].
  - intros key. change (stands_for rateLimit burst now (NewLimiter rateLimit burst) None). split; [apply new_of|]. intros t n _. split; [done|]. reflexivity.
Qed.
End limiter.

(** ** The middleware *)

Record RateLimitConfig := mkRateConfig {
  ConfigRate : Z; ConfigBurst : Z; ConfigTTL : Duration; KeyExtractor : option (Request → string); RateSkipPaths : list string; UseRedis : bool }.

(** The limiters that were made, by their number, the goroutines that clean them,
    the Redis server, and the rest. *)
Record Server (L R A : Type) := mkServer { made : list (RateLimiter L); cleaners : nat; redis : R; app : A }.
Arguments mkServer {L R A}.
Arguments made {L R A}.
Arguments cleaners {L R A}.
Arguments redis {L R A}.
Arguments app {L R A}.

Section middleware.
Context {L R A : Type} `{Rate L} `{Redis R}.
(** [net.ParseIP] succeeds, and the host of [net.SplitHostPort]. *)
Context (ParseIP : string → bool) (SplitHostPort : string → option string).
Abbreviation server := (Server L R A) (only parsing).
Abbreviation conn := (ResponseWriter * Server L R A)%type (only parsing).

Definition splitHeader (hdr : string) : list string := List.filter (λ p, negb (String.eqb p "")) (TrimSpace <$> Split hdr ",").
Definition parseXForwardedFor (hdr : string) : list string := List.filter ParseIP (splitHeader hdr).
Definition defaultKeyExtractor (r : Request) : string :=
  let xRealIP := header_of r "X-Real-IP" in
  if negb (String.eqb xRealIP "") then xRealIP
  else
    let remote := match SplitHostPort (RemoteAddr r) with Some ip => ip | None => RemoteAddr r end in
    let xForwardedFor := header_of r "X-Forwarded-For" in
    if negb (String.eqb xForwardedFor "") then match parseXForwardedFor xForwardedFor with ip :: _ => ip | [] => remote end else remote.

(** [RateLimiter.Allow] of limiter [i], and [RedisRateLimiter.Allow]. *)
Definition memory_allow (i : nat) (key : string) (now : Time) : io conn bool := λ '(w, s),
  match made s !! i with
  | Some rl => let '(allowed, rl) := Allow key now rl in (Ok allowed, (w, mkServer (<[i := rl]> (made s)) (cleaners s) (redis s) (app s)))
  | None => (Panic "nil pointer dereference", (w, s))
  end.
Definition exec (cmds : list command) : io conn (list Z + goerror) := λ '(w, s),
  let '(r, rs) := Exec cmds (redis s) in (Ok r, (w, mkServer (made s) (cleaners s) rs (app s))).
Definition redis_allow (rate : Z) (window : Duration) (key : string) (now : Time) : io conn bool :=
  let* r := exec [ZRemRangeByScore key 0 (now - window); ZCard key; ZAdd key now (pretty now); Expire key (wrap64 (window + Minute))] in
  match r with
  | inr err => io_err (ErrWrap "redis pipeline failed" err)
  | inl results =>
      match results !! 1%nat with
      | None => λ c, (Panic "index out of range", c)
      | Some count =>
          let allowed := count <? rate in
          if negb allowed then let* _ := exec [ZRem key (pretty now)] in io_ret allowed else io_ret allowed
      end
  end.

(** The defaults of [RateLimitWithConfig]. *)
Definition rate_defaults (config : RateLimitConfig) : RateLimitConfig :=
  let rate := if ConfigRate config <=? 0 then 100 else ConfigRate config in
  mkRateConfig rate (if ConfigBurst config <=? 0 then wrap64 (rate * 2) else ConfigBurst config) (ConfigTTL config)
    (Some (default defaultKeyExtractor (KeyExtractor config))) (RateSkipPaths config) (UseRedis config).
(** [NewRateLimiterWithConfig], with its goroutine. *)
Definition new_limiter (config : RateLimitConfig) : io conn nat := λ '(w, s),
  let ttl := if ConfigTTL config =? 0 then 5 * Minute else ConfigTTL config in
  (Ok (length (made s)), (w, mkServer (made s ++ [mkRateLimiter ∅ (ConfigRate config) (ConfigBurst config) ttl]) (S (cleaners s)) (redis s) (app s))).

(** The handler over limiter [i], or over Redis. *)
Definition limited_handler (config : RateLimitConfig) (i : option nat) (now : Time) : Middleware server := λ next r,
  if existsb (String.eqb (Path r)) (RateSkipPaths config) then next r
  else
    let key := default defaultKeyExtractor (KeyExtractor config) r in
    let* answer := attempt (match i with Some i => memory_allow i key now | None => redis_allow (ConfigRate config) Second key now end) in
    let allowed := match answer with inl allowed => allowed | inr _ => true end in
    if negb allowed then
      let retryAfter := Z.quot Second (ConfigRate config) in
      let* _ := reply (on_header (HeaderSet "Retry-After" (pretty (Z.quot retryAfter Second)))) in
      let* _ := reply (on_header (HeaderSet "X-RateLimit-Limit" (pretty (ConfigRate config)))) in
      let* _ := reply (on_header (HeaderSet "X-RateLimit-Remaining" "0")) in
      let* _ := reply (on_header (HeaderSet "X-RateLimit-Reset" (pretty ((now + retryAfter) / Second)))) in
      reply (WriteErrorWithDetails 429 "Rate limit exceeded"
               {["retry_after_seconds" := AInt (Z.quot retryAfter Second); "limit_per_second" := AInt (ConfigRate config)]})
    else
      let* _ := reply (on_header (HeaderSet "X-RateLimit-Limit" (pretty (ConfigRate config)))) in
      let* _ := match i with Some _ => reply (on_header (HeaderSet "X-RateLimit-Remaining" (pretty (ConfigBurst config)))) | None => io_ret tt end in
      next r.
(** What [RateLimitWithConfig] does when it is called: it gives the limiter of its
    handlers. *)
Definition RateLimitWithConfig (config : RateLimitConfig) : io conn (option nat) :=
  let config := rate_defaults config in
  if UseRedis config then io_ret None else let* i := new_limiter config in io_ret (Some i).

(** A limit per key of the API: the middleware is made for each request. *)
Definition key_config (r : Request) : RateLimitConfig :=
  match ExtractAPIKeyInfo r with
  | inr _ => mkRateConfig 100 200 0 (Some defaultKeyExtractor) [] false
  | inl keyInfo =>
      let rateLimit := if KeyRateLimit keyInfo <=? 0 then 1000 else KeyRateLimit keyInfo in
      mkRateConfig rateLimit (wrap64 (rateLimit * 2)) 0 (Some (λ _, "api_key:" +:+ KeyID keyInfo)) [] false
  end.
Definition PerAPIKeyRateLimit (now : Time) : Middleware server := λ next r,
  let* i := RateLimitWithConfig (key_config r) in
  limited_handler (rate_defaults (key_config r)) i now next r.

(** ** What limits and what does not *)

Context {same : L → L → Prop} {limiter_of : Z → Z → L → Prop} `{!RateLaws L same limiter_of}.

(** The headers of a request that is let through. *)
Definition limit_headers (config : RateLimitConfig) (w : ResponseWriter) : ResponseWriter :=
  on_header (HeaderSet "X-RateLimit-Remaining" (pretty (ConfigBurst config))) (on_header (HeaderSet "X-RateLimit-Limit" (pretty (ConfigRate config))) w).

(** A request is let through or refused as its limiter says.  Behind a limiter in
    memory, a request whose path is not exempt is handed on if the limiter of its
    key allows it, with two headers set; otherwise the answer is 429; and only that
    limiter has changed. *)
Theorem limited_exact (config : RateLimitConfig) (i : nat) (rl : RateLimiter L) (now : Time) (next : Handler server) (r : Request) (w : ResponseWriter) (s : server)
    (Hi : made s !! i = Some rl) (Hpath : existsb (String.eqb (Path r)) (RateSkipPaths config) = false) (Hw : sent w = None) :
  let key := default defaultKeyExtractor (KeyExtractor config) r in
  let '(allowed, rl') := Allow key now rl in
  let s' := mkServer (<[i := rl']> (made s)) (cleaners s) (redis s) (app s) in
  if allowed then limited_handler config (Some i) now next r (w, s) = next r (limit_headers config w, s')
  else ∃ w', limited_handler config (Some i) now next r (w, s) = (Ok tt, (w', s')) ∧ status_of w' = Some 429.
Proof.
  intros key. destruct (Allow key now rl) as [allowed rl'] eqn:Ea. cbv zeta.
  assert (∀ B (k : bool + goerror → io conn B), io_bind (attempt (memory_allow i key now)) k (w, s) =
    k (inl allowed) (w, mkServer (<[i := rl']> (made s)) (cleaners s) (redis s) (app s))) as Hk.
  { intros B k. unfold io_bind, attempt, memory_allow. by rewrite Hi, Ea. }
  unfold limited_handler. rewrite Hpath. fold key. rewrite Hk. destruct allowed; cbn [negb]; [done|]. eexists. split; [reflexivity|].
  unfold status_of, WriteErrorWithDetails, respond, WriteHeader, on_header. cbn. by rewrite Hw.
Qed.

(** A limit per API key limits nothing.  Every request passes, however many came
    before it, because each is counted by a limiter of its own; and each leaves a
    limiter and a goroutine behind. *)
Theorem per_key_never_limits (now : Time) (next : Handler server) (r : Request) (w : ResponseWriter) (s : server)
    (Hrate : ∀ k, CtxKey r = Some k → KeyRateLimit k ≤ 2 ^ 62 - 1) :
  ∃ w' rl, PerAPIKeyRateLimit now next r (w, s) = next r (w', mkServer (made s ++ [rl]) (S (cleaners s)) (redis s) (app s)) ∧
    sent w' = sent w ∧ written w' = written w.
Proof.
  assert (∃ rate key, key_config r = mkRateConfig rate (rate * 2) 0 (Some key) [] false ∧ 0 < rate) as (rate & key & E & Hpos).
  { unfold key_config, ExtractAPIKeyInfo. destruct (CtxKey r) as [k|]; [|by exists 100, defaultKeyExtractor]. specialize (Hrate k eq_refl).
    exists (if KeyRateLimit k <=? 0 then 1000 else KeyRateLimit k), (λ _, "api_key:" +:+ KeyID k). cbv zeta. destruct (KeyRateLimit k <=? 0) eqn:Ek; [done|].
    rewrite wrap64_id by (unfold in_int64, minInt64, maxInt64; lia). split; [done|lia]. }
  unfold PerAPIKeyRateLimit. rewrite E.
  unfold RateLimitWithConfig, rate_defaults. cbn [ConfigRate ConfigBurst ConfigTTL KeyExtractor RateSkipPaths UseRedis default].
  rewrite (proj2 (Z.leb_gt rate 0)), (proj2 (Z.leb_gt (rate * 2) 0)) by lia.
  unfold io_bind at 1 2, new_limiter. cbn [ConfigRate ConfigBurst ConfigTTL io_ret]. set (config := mkRateConfig _ _ _ _ _ _). set (rl := mkRateLimiter _ _ _ _).
  set (s1 := mkServer _ _ _ _).
  unfold limited_handler, io_bind at 1, attempt, memory_allow. cbn [RateSkipPaths config existsb default KeyExtractor].
  unfold s1. cbn [made cleaners redis app]. rewrite list_lookup_middle by done. unfold Allow, AllowN, limiter_for. cbn [limiters limit burst rl]. rewrite lookup_empty.
  pose proof (new_allows rate (rate * 2) now 1 Hpos ltac:(lia)) as Ha. destruct (LimiterAllowN _ now 1) as [a l]. cbn [fst] in Ha. subst a. cbn [negb].
  exists (limit_headers config w), (with_limiters (<[key r := l]> ∅) rl). split; [|split; reflexivity].
  unfold io_bind. rewrite !reply_run. unfold limit_headers. cbn [ConfigRate ConfigBurst config]. do 3 f_equal.
  rewrite insert_app_r_alt by done. by rewrite Nat.sub_diag.
Qed.

(** A client chooses its limit.  A request with a new value in X-Real-IP passes
    a limiter in memory, whatever has been refused before. *)
Theorem fresh_ip_passes (config : RateLimitConfig) (i : nat) (rl : RateLimiter L) (now : Time) (next : Handler server) (r : Request) (w : ResponseWriter) (s : server) (ip : string)
    (Hi : made s !! i = Some rl) (Hdefault : KeyExtractor config = None) (Hip : header_of r "X-Real-IP" = ip) (Hne : ip ≠ "")
    (Hfresh : limiters rl !! ip = None) (Hlimit : 0 < limit rl ∧ 1 ≤ burst rl) :
  ∃ w' s', limited_handler config (Some i) now next r (w, s) = next r (w', s') ∧ app s' = app s.
Proof.
  destruct (existsb (String.eqb (Path r)) (RateSkipPaths config)) eqn:Ep; [exists w, s; unfold limited_handler; by rewrite Ep|].
  assert (default defaultKeyExtractor (KeyExtractor config) r = ip) as Hk.
  { rewrite Hdefault. cbn [default]. unfold defaultKeyExtractor. rewrite Hip. by rewrite (proj2 (String.eqb_neq ip "") Hne). }
  unfold limited_handler. rewrite Ep, Hk. unfold io_bind at 1, attempt, memory_allow. rewrite Hi. unfold Allow, AllowN, limiter_for. rewrite Hfresh.
  pose proof (new_allows (limit rl) (burst rl) now 1 (proj1 Hlimit) (proj2 Hlimit)) as Ha. destruct (LimiterAllowN _ now 1) as [a l]. cbn [fst] in Ha. subst a. cbn [negb].
  unfold io_bind. rewrite !reply_run. eexists _, _. split; [reflexivity|done].
Qed.

(** Without Redis there is no limit. *)
Lemma redis_fails_open config now next r w (s : server) e rs : UseRedis config = true → existsb (String.eqb (Path r)) (RateSkipPaths config) = false →
  (∀ cmds, Exec cmds (redis s) = (inr e, rs)) →
  limited_handler config None now next r (w, s) =
    next r (on_header (HeaderSet "X-RateLimit-Limit" (pretty (ConfigRate config))) w, mkServer (made s) (cleaners s) rs (app s)).
Proof.
  intros _ Hp He. unfold limited_handler. rewrite Hp. unfold io_bind at 1, attempt, redis_allow, io_bind at 1, exec. by rewrite He.
Qed.
(** A refused client is told to come back after no time, at every rate above one. *)
Lemma retry_after_zero rate : 1 < rate → Z.quot (Z.quot Second rate) Second = 0.
Proof. intros Hr. apply Z.quot_small. split; [apply Z.quot_pos; unfold Second; lia|apply Z.quot_lt; unfold Second; lia]. Qed.
End middleware.

(** ** A token bucket *)

(** Tokens in units of a billionth, filled at a time. *)
Record bucket := mkBucket { bucket_rate : Z; bucket_burst : Z; tokens : Z; filled : option Time }.
Definition advance (l : bucket) (t : Time) : Z :=
  match filled l with
  | None => bucket_burst l * Second
  | Some u => Z.min (bucket_burst l * Second) (tokens l + Z.max 0 (t - u) * bucket_rate l)
  end.
#[export] Instance bucket_rate_lib : Rate bucket := {|
  NewLimiter r b := mkBucket r b 0 None;
  LimiterAllowN l t n :=
    let have := advance l t in
    let ok := n * Second <=? have in
    (ok, mkBucket (bucket_rate l) (bucket_burst l) (if ok then have - n * Second else have) (Some t));
  TokensAtBurst l t := (advance l t =? bucket_burst l * Second) && (0 <=? bucket_rate l) |}.
#[export] Instance bucket_laws : RateLaws bucket eq (λ r b l, bucket_rate l = r ∧ bucket_burst l = b).
Proof.
  split.
  - apply _.
  - by intros l l' t n ->.
  - done.
  - intros r b l t n [<- <-]. done.
  - intros r b l t t' n [<- <-] Hf Hle. cbn in Hf. apply andb_true_iff in Hf as [Hf%Z.eqb_eq Hr%Z.leb_le].
    assert (advance l t' = bucket_burst l * Second) as E.
    { revert Hf. unfold advance. destruct (filled l) as [u|]; [|done]. intros Hf. assert (Z.max 0 (t - u) * bucket_rate l ≤ Z.max 0 (t' - u) * bucket_rate l) by (apply Z.mul_le_mono_nonneg_r; lia). lia. }
    cbn. rewrite E. done.
  - intros r b t n Hr Hn. cbn. apply Z.leb_le. unfold Second. lia.
Qed.
#[export] Instance no_redis : Redis unit := {| Exec _ s := (inr (ErrNew "connection refused"), s) |}.

Definition some_uses : list (Time * use) := [(0, UAllow "a" 1); (1, UAllow "b" 1); (2, UAllow "a" 1); (3, UCleanup); (4, UAllow "a" 1)].
Lemma limits_per_key_witness : answers some_uses (NewRateLimiter (L := bucket) 1 2) = [true; true; true; false].
Proof.
  rewrite (limits_per_key (L := bucket) 1 2 some_uses); [vm_compute; reflexivity|].
  unfold some_uses. cbn [fmap list_fmap fst]. repeat (constructor; try lia).
Defined.

Definition a_request : Request :=
  mkRequest "GET" "/api/v1/jobs" {["x-real-ip" := ["1.2.3.4"]]} "10.0.0.9:4711" 0 ∅ ([], None) None (Some (mkAPIKeyInfo "k1" "ci" [] 5 0)) None.
Definition fresh_server : Server bucket unit nat := mkServer [NewRateLimiter 1 1] 1 tt 0%nat.
Definition counter : Handler (Server bucket unit nat) := λ _, io_set (λ '(w, s), (WriteHeader 200 w, mkServer (made s) (cleaners s) (redis s) (S (app s)))).
Definition a_config : RateLimitConfig := mkRateConfig 1 1 0 None ["/health"]%string false.

Lemma limited_exact_witness : ∃ w' s', limited_handler (λ _, true) Some a_config (Some 0%nat) 0 counter a_request (new_writer, fresh_server) = counter a_request (w', s').
Proof.
  eexists _, _.
  exact (limited_exact (λ _, true) Some a_config 0 (NewRateLimiter 1 1) 0 counter a_request new_writer fresh_server eq_refl eq_refl eq_refl).
Defined.
Lemma per_key_never_limits_witness : ∃ w' rl, PerAPIKeyRateLimit (λ _, true) Some 0 counter a_request (new_writer, fresh_server) =
  counter a_request (w', mkServer (made fresh_server ++ [rl]) 2 tt 0%nat).
Proof.
  destruct (per_key_never_limits (λ _, true) Some 0 counter a_request new_writer fresh_server) as (w' & rl & H & _); [by intros k [= <-]|].
  exists w', rl. exact H.
Defined.
Lemma fresh_ip_passes_witness : ∃ w' s', limited_handler (λ _, true) Some a_config (Some 0%nat) 0 counter a_request (new_writer, fresh_server) = counter a_request (w', s').
Proof.
  destruct (fresh_ip_passes (λ _, true) Some a_config 0 (NewRateLimiter 1 1) 0 counter a_request new_writer fresh_server "1.2.3.4") as (w' & s' & H & _);
    [reflexivity|reflexivity|reflexivity|discriminate|reflexivity|split; [vm_compute; reflexivity|vm_compute; discriminate]|]. exists w', s'. exact H.
Defined.
