(* ===== verification/HttpStack.v ===== *)
(** * The middleware stack: src/pkg/api/v1/middleware/stack.go and recovery.go,
    with [buildMiddlewareStack] of api.go and the order of handlers/handlers.go

    Logging, tracing and metrics, which only observe, are left out of the chain. *)

From Stdlib Require Import Lia Strings.String Strings.Ascii.
From S2P Require Import Prelude CrashTypes Regex Http HttpAuth HttpCors HttpValidation RateLimit.

(** The settings of the API that the stack is built from (config of api.go). *)
Record APIConfig := mkAPIConfig {
  EnableCORS : bool; CORSOrigins : list string; CORSAllowMethods : list string; CORSAllowHeaders : list string;
  APIRateLimit : Z; RateLimitBurst : Z; RateLimitWindow : Duration;
  EnableSchemaValidation : bool; APIMaxRequestSize : Z; EnableAuth : bool; APIJWTSecret : string }.

Record Stack := mkStack {
  authConfig : option AuthConfig; corsConfig : option CORSConfig; rateLimitConfig : option RateLimitConfig; validationConfig : option ValidationConfig }.
#[export] Instance Stack_eta : Eta Stack := fun s => mkStack (authConfig s) (corsConfig s) (rateLimitConfig s) (validationConfig s).

Definition default_secret : string := "default-secret-key".
Definition exempt_paths : list string := ["/health"; "/ready"; "/metrics"].
Definition NewStack : Stack :=
  mkStack (Some (mkAuthConfig default_secret None exempt_paths))
    (Some (mkCORS ["*"] ["GET"; "POST"; "PUT"; "DELETE"; "OPTIONS"; "PATCH"] ["Accept"; "Authorization"; "Content-Type"; "X-Request-ID"]
             ["X-Request-ID"; "X-Total-Count"] true 300 false []))
    (Some (mkRateConfig 100 10 Minute None ["/health"; "/ready"] false))
    (Some (mkValidation (100 * 1024 * 1024) ["application/json"; "application/octet-stream"; "multipart/form-data"] ["/health"; "/ready"] [] false false)).

Definition buildMiddlewareStack (config : APIConfig) : Stack :=
  let stack := NewStack in
  let stack :=
    if EnableCORS config
    then stack <| corsConfig := Some (mkCORS (CORSOrigins config) (CORSAllowMethods config) (CORSAllowHeaders config)
                                        ["X-Request-ID"; "X-Total-Count"] true 300 false []) |>
    else stack in
  let stack :=
    if 0 <? APIRateLimit config
    then stack <| rateLimitConfig := Some (mkRateConfig (APIRateLimit config) (RateLimitBurst config) (RateLimitWindow config) None ["/health"; "/ready"] false) |>
    else stack in
  let stack :=
    if EnableSchemaValidation config
    then stack <| validationConfig := Some (mkValidation (APIMaxRequestSize config)
                    ["application/json"; "application/octet-stream"; "multipart/form-data"; "text/plain"] ["/health"; "/ready"] [] false false) |>
    else stack in
  if EnableAuth config && negb (String.eqb (APIJWTSecret config) "")
  then stack <| authConfig := Some (mkAuthConfig (APIJWTSecret config) None exempt_paths) |>
  else stack.

Section stack.
Context {L R A : Type} {RL : Rate L} {RR : Redis R} {TL : TokenLib}.
Context (ParseIP : string → bool) (SplitHostPort : string → option string) (decode : bytes → json + goerror).
Abbreviation server := (Server L R A) (only parsing).

(** ** The methods of the stack *)

Definition stack_CORS (s : Stack) : Middleware server :=
  match corsConfig s with Some config => CORSWithConfig config | None => CORSWithConfig DefaultCORSConfig end.
Definition stack_rate_config (s : Stack) : RateLimitConfig :=
  match rateLimitConfig s with Some config => config | None => mkRateConfig 100 200 0 None [] false end.
Definition stack_ValidateRequest (s : Stack) : Middleware server :=
  match validationConfig s with
  | Some config => ValidateRequestWithConfig decode config
  | None => ValidateRequestWithConfig decode DefaultValidationConfig
  end.
Definition stack_JWTAuth (s : Stack) (now : Time) : Middleware server :=
  match authConfig s with
  | Some config =>
      if negb (String.eqb (JWTSecret config) "") && negb (String.eqb (JWTSecret config) default_secret)
      then JWTAuthWithConfig config now else λ next, next
  | None => λ next, next
  end.

(** [RecoveryWithConfig], with the correlation ID and the time stamp of the
    response; the details of the panic are in it on demand. *)
Definition handlePanic (why correlationID timestamp : string) (detailed : option (list string)) (w : ResponseWriter) : ResponseWriter :=
  let w := on_header (HeaderSet "Content-Type" "application/json") w in
  let w := on_header (HeaderSet "X-Correlation-ID" correlationID) w in
  let details := {["request_id" := AString correlationID; "timestamp" := AString timestamp]} in
  let details := match detailed with
                 | Some stack => <["panic_value" := AString why]> (<["stack_trace" := AList (AString <$> stack)]> details)
                 | None => details
                 end in
  WriteErrorWithDetails 500 "Internal server error" details w.
Definition RecoveryWithConfig (correlationID timestamp : string) (detailed : option (list string)) : Middleware server := λ next r c,
  match next r c with
  | (Panic why, (w, s)) => (Ok tt, (handlePanic why correlationID timestamp detailed w, s))
  | done_ => done_
  end.

(** The chain of [RegisterRoutes] in front of the handlers; the limiter [i] was made
    when the chain was. *)
Definition api_chain (s : Stack) (i : option nat) (now : Time) (correlationID timestamp : string) : Middleware server := λ next,
  RecoveryWithConfig correlationID timestamp None
    (stack_CORS s
      (limited_handler ParseIP SplitHostPort (rate_defaults ParseIP SplitHostPort (stack_rate_config s)) i now
        (stack_ValidateRequest s (stack_JWTAuth s now next)))).

(** ** What stands in front of every handler *)

(** A middleware that hands a request on, with its path and headers, or answers
    without touching the application. *)
Definition passive (mw : Middleware server) : Prop := ∀ next r w s,
  (∃ r' w' s', mw next r (w, s) = next r' (w', s') ∧ app s' = app s ∧ Path r' = Path r ∧ RequestHeader r' = RequestHeader r) ∨
  app (mw next r (w, s)).2.2 = app s.

Lemma passive_compose mw1 mw2 : passive mw1 → passive mw2 → passive (λ next, mw1 (mw2 next)).
Proof.
  intros H1 H2 next r w s. destruct (H1 (mw2 next) r w s) as [(r1 & w1 & s1 & -> & E1 & E2 & E3)|?]; [|by right].
  destruct (H2 next r1 w1 s1) as [(r2 & w2 & s2 & -> & E4 & E5 & E6)|E]; [left|right; congruence].
  exists r2, w2, s2. split_and!; [done|congruence..].
Qed.
Ltac hands_on := left; eexists _, _, _; split_and!; [reflexivity|done|done|done].

Lemma cors_passive config : passive (CORSWithConfig config).
Proof.
  intros next r w s. unfold CORSWithConfig. destruct (skipped _ _); [hands_on|].
  destruct (String.eqb (Method r) "OPTIONS"); [|hands_on]. destruct (negb _); [by right|hands_on].
Qed.
Lemma validation_passive config : passive (ValidateRequestWithConfig decode config).
Proof.
  intros next r w s. unfold ValidateRequestWithConfig. destruct (skipped _ _); [hands_on|]. destruct (existsb _ _); [hands_on|].
  destruct (_ <? _); [by right|]. destruct (_ && (_ && _)); [by right|]. destruct (validateQueryParams r); [|by right].
  destruct (validatePathParams r); [|by right]. destruct (_ && _); [|hands_on]. destruct (validateJSONBody decode config r) as [r'|] eqn:E; [|by right].
  apply json_body_request in E as ->. hands_on.
Qed.
Lemma bind_attempt {S X B} (m : io S X) (k : X + goerror → io S B) c out c' : m c = (out, c') →
  (let* a := attempt m in k a) c = match out with Ok a => k (inl a) c' | Err e => k (inr e) c' | Panic why => (Panic why, c') end.
Proof. intros E. unfold io_bind, attempt. rewrite E. by destruct out. Qed.
Lemma limit_passive config i now : passive (limited_handler ParseIP SplitHostPort config i now).
Proof.
  intros next r w s. unfold limited_handler. destruct (existsb _ _); [hands_on|]. set (key := default _ _ r).
  set (ask := match i with Some i => memory_allow i key now | None => redis_allow (ConfigRate config) Second key now end).
  assert (∃ res s', ask (w, s) = (res, (w, s')) ∧ app s' = app s) as (res & s' & E & Es).
  { unfold ask. destruct i as [i|].
    - unfold memory_allow. destruct (made s !! i); [|by eexists _, _]. destruct (Allow _ _ _). by eexists _, _.
    - unfold redis_allow, io_bind, exec. destruct (Exec _ (redis s)) as [[results|e] rs]; [|by eexists _, _].
      destruct (results !! 1%nat); [|by eexists _, _]. destruct (negb _); [|by eexists _, _]. cbn [redis]. destruct (Exec _ rs). by eexists _, _. }
  assert (∀ f g : ResponseWriter → ResponseWriter, ∃ r' w' s1, (let* _ := reply f in let* _ := match i with Some _ => reply g | None => io_ret tt end in next r) (w, s') =
    next r' (w', s1) ∧ app s1 = app s ∧ Path r' = Path r ∧ RequestHeader r' = RequestHeader r) as Hgo.
  { intros f g. destruct i; eexists _, _, _; (split_and!; [reflexivity|done..]). }
  rewrite (bind_attempt _ _ _ _ _ E). destruct res as [[]|e|why]; cbn [negb]; [left; apply Hgo|right; exact Es|left; apply Hgo|right; exact Es].
Qed.

(** Serving through the chain: the application is untouched, or the handler was
    called once, behind the token check. *)
Definition guarded (secret : string) (now : Time) (next : Handler server) (r : Request) (s : server) (s' : server) : Prop :=
  ∃ token claims r' w1 s1,
    header_of r "Authorization" = "Bearer " +:+ token ∧ validateJWT token secret = inl claims ∧ expired claims now = false ∧
    Path r' = Path r ∧ CtxClaims r' = Some claims ∧ app s1 = app s ∧ app s' = app (next r' (w1, s1)).2.2.

Lemma jwt_guarded (config : AuthConfig) now next r w s (Hpath : skipped (AuthSkipPaths config) (Path r) = false) :
  let '(res, (_, s')) := JWTAuthWithConfig config now next r (w, s) in app s' = app s ∨ guarded (JWTSecret config) now next r s s'.
Proof.
  destruct (token_check config now next r w s) as [(r' & Ha & ->)|(_ & d & ->)]; [|by left].
  destruct Ha as [[H _]|(token & claims & H1 & H2 & H3 & ->)]; [congruence|]. destruct (next _ _) as [res [w' s']] eqn:En. right.
  exists token, claims, (r <| CtxClaims := Some claims |> <| CtxUser := Some (UserID claims) |>), w, s. split_and!; [done..|]. by rewrite En.
Qed.

(** What the outer middlewares let through is guarded as the token check guards it. *)
Lemma passive_guarded (mw : Middleware server) config now next r w s (Hmw : passive mw) (Hpath : skipped (AuthSkipPaths config) (Path r) = false) :
  let s' := (mw (JWTAuthWithConfig config now next) r (w, s)).2.2 in app s' = app s ∨ guarded (JWTSecret config) now next r s s'.
Proof.
  destruct (Hmw (JWTAuthWithConfig config now next) r w s) as [(r1 & w1 & s1 & -> & E1 & E2 & E3)|E]; [|by left].
  pose proof (jwt_guarded config now next r1 w1 s1) as H. rewrite E2 in H. specialize (H Hpath).
  destruct (JWTAuthWithConfig _ _ _ _ _) as [res [w' s']]. destruct H as [H|(token & claims & r' & w2 & s2 & H1 & H2 & H3 & H4 & H5 & H6 & H7)]; [left; cbn; congruence|].
  right. exists token, claims, r', w2, s2. unfold header_of in *. rewrite E3 in H1. split_and!; [done..|congruence|done|congruence|done].
Qed.

(** C29: every handler of the API stands behind a token.  With authentication on
    and a secret of its own, a request to a path that is not exempt ends without
    a panic, and either leaves the application as it was or brought a token that
    is signed with the secret and not expired, and the handler was called with
    its claims; nothing else changed the application before or after. *)
Theorem api_guard (config : APIConfig) (i : option nat) (now : Time) (correlationID timestamp : string)
    (next : Handler server) (r : Request) (w : ResponseWriter) (s : server)
    (Hauth : EnableAuth config = true) (Hsecret : APIJWTSecret config ≠ "" ∧ APIJWTSecret config ≠ default_secret)
    (Hpath : skipped exempt_paths (Path r) = false) :
  let '(res, (_, s')) := api_chain (buildMiddlewareStack config) i now correlationID timestamp next r (w, s) in
  (∀ why, res ≠ Panic why) ∧ (app s' = app s ∨ guarded (APIJWTSecret config) now next r s s').
Proof.
  destruct Hsecret as [Hs1%String.eqb_neq Hs2%String.eqb_neq]. set (st := buildMiddlewareStack config).
  assert (authConfig st = Some (mkAuthConfig (APIJWTSecret config) None exempt_paths)) as Ec.
  { unfold st, buildMiddlewareStack. rewrite Hauth, Hs1. done. }
  assert (stack_JWTAuth st now = JWTAuthWithConfig (mkAuthConfig (APIJWTSecret config) None exempt_paths) now) as Ej.
  { unfold stack_JWTAuth. rewrite Ec. cbn [JWTSecret]. by rewrite Hs1, Hs2. }
  unfold api_chain, RecoveryWithConfig. rewrite Ej.
  set (mw := λ n : Handler server, stack_CORS st (limited_handler ParseIP SplitHostPort (rate_defaults ParseIP SplitHostPort (stack_rate_config st)) i now (stack_ValidateRequest st n))).
  assert (passive mw) as Hmw.
  { unfold mw. apply (passive_compose (stack_CORS st)); [unfold stack_CORS; destruct (corsConfig st); apply cors_passive|].
    apply (passive_compose (limited_handler _ _ _ i now)); [apply limit_passive|].
    unfold stack_ValidateRequest. destruct (validationConfig st); apply validation_passive. }
  pose proof (passive_guarded mw (mkAuthConfig (APIJWTSecret config) None exempt_paths) now next r w s Hmw Hpath) as H. fold (mw (JWTAuthWithConfig (mkAuthConfig (APIJWTSecret config) None exempt_paths) now next)).
  destruct (mw _ r (w, s)) as [[[]|e|why] [w' s']]; by split.
Qed.

(** The placeholder, or no secret, leaves the API open. *)
Lemma default_secret_open (config : APIConfig) (now : Time) (next : Handler server) :
  EnableAuth config = false ∨ APIJWTSecret config = "" ∨ APIJWTSecret config = default_secret →
  stack_JWTAuth (buildMiddlewareStack config) now next = next.
Proof.
  intros H. unfold stack_JWTAuth, buildMiddlewareStack. destruct (EnableCORS config), (0 <? APIRateLimit config), (EnableSchemaValidation config);
    destruct H as [->|[->| ->]]; cbn; try done; by rewrite ?andb_false_r; destruct (EnableAuth config).
Qed.
End stack.

(** Exempt is what starts with an exempt path; under the prefix of the API the
    health endpoints are not. *)
Example exempt_examples : skipped exempt_paths "/healthy-jobs" = true ∧ skipped exempt_paths "/api/v1/health" = false.
Proof. split; reflexivity. Qed.

Definition test_config : APIConfig := mkAPIConfig true ["https://fuzz.example"] ["GET"] [] 100 10 Minute true 1024 true "k".
Definition count_jobs : Handler (Server bucket unit nat) := λ _, io_set (λ '(w, s), (WriteHeader 200 w, mkServer (made s) (cleaners s) (redis s) (S (app s)))).
Definition test_server : Server bucket unit nat := mkServer [mkRateLimiter ∅ 100 10 Minute] 1 tt 0%nat.
Definition serve (r : Request) : res unit * (ResponseWriter * Server bucket unit nat) :=
  api_chain (λ _, true) (λ _, None) no_json (buildMiddlewareStack test_config) (Some 0%nat) 5 "c" "t" count_jobs r (new_writer, test_server).
Example serves : app (serve good_request).2.2 = 1%nat ∧ app (serve (jobs_request "x")).2.2 = 0%nat.
Proof. vm_compute. done. Qed.
Lemma api_guard_witness : ∃ token claims, header_of good_request "Authorization" = "Bearer " +:+ token ∧ validateJWT token "k" = inl claims.
Proof.
  pose proof (api_guard (A := nat) (λ _, true) (λ _, None) no_json test_config (Some 0%nat) 5 "c" "t" count_jobs good_request new_writer test_server
    eq_refl ltac:(split; discriminate) eq_refl) as H.
  assert (serve good_request = (Ok tt, (serve good_request).2)) as E by (vm_compute; reflexivity).
  unfold serve in E. rewrite E in H. clear E.
  assert (app (serve good_request).2.2 = 1%nat) as E by (vm_compute; reflexivity). unfold serve in E.
  destruct (api_chain _ _ _ _ _ _ _ _ _ _ _) as [x [y s']]. cbn [snd] in H, E.
  destruct H as [_ [H|(token & claims & r' & w1 & s1 & H1 & H2 & _)]]; [rewrite E in H; discriminate H|].
  exists token, claims. split; [exact H1|exact H2].
Defined.
