(* ===== verification/ReproScorer.v ===== *)
(** * Scores of reproducibility: src/pkg/service/reproducibility_scorer.go

    The score of a crash from the results of its reproductions, with its cache.
    Go iterates maps in any order: the order is an argument.  The storage is a
    class, [ReproStorage], with what the service asks of it. *)

From Stdlib Require Import Lia Strings.String Strings.Ascii.
From S2P Require Import Prelude CrashTypes.

(** ** The types of src/pkg/common/crash.go *)

Abbreviation ReproducibilityStatus := string (only parsing).
Definition StatusUnknown : ReproducibilityStatus := "unknown".
Definition StatusTesting : ReproducibilityStatus := "testing".
Definition StatusConfirmed : ReproducibilityStatus := "confirmed".
Definition StatusFlaky : ReproducibilityStatus := "flaky".
Definition StatusFailed : ReproducibilityStatus := "failed".

Record ReproductionResult := mkResult {
  ResultID : string; ResultRequestID : string; ResultCrashID : string; ResultBotID : string; AttemptNumber : Z;
  ResultStatus : ReproducibilityStatus; Reproduced : bool; ExecutionTime : Duration; ResultSignal : Z; ResultExitCode : Z;
  ResultOutput : string; StackTrace : string; StackHash : string; MatchesOriginal : bool;
  EnvironmentInfo : gmap string string; Timestamp : Time }.

(** What the service asks of the storage; a result can be refused. *)
Class ReproStorage (D : Type) := {
  GetCrash : string → D → option CrashResult + goerror;
  CreateReproductionResult : ReproductionResult → D → option goerror * D;
  GetReproductionResults : string → D → list ReproductionResult + goerror }.

(** ** Numbers *)

Definition f64_sub : float64 → float64 → float64 := SFsub f64_prec f64_emax.
Definition f64_sqrt : float64 → float64 := SFsqrt f64_prec f64_emax.
Definition signbit (x : float64) : bool :=
  match x with S754_zero s | S754_infinity s | S754_finite s _ _ => s | S754_nan => false end.
(** [math.Min] and [math.Max]. *)
Definition f64_min (x y : float64) : float64 :=
  match x, y with
  | S754_infinity true, _ | _, S754_infinity true => S754_infinity true
  | S754_nan, _ | _, S754_nan => S754_nan
  | S754_zero s, S754_zero _ => if s then x else y
  | _, _ => if f64_lt x y then x else y
  end.
Definition f64_max (x y : float64) : float64 :=
  match x, y with
  | S754_infinity false, _ | _, S754_infinity false => S754_infinity false
  | S754_nan, _ | _, S754_nan => S754_nan
  | S754_zero s, S754_zero _ => if s then y else x
  | _, _ => if f64_gt x y then x else y
  end.
(** [math.Pow(x, 2)]: the square, rounded once. *)
Definition square (x : float64) : float64 := f64_mul x x.
(** [Duration.Seconds] and [Duration.Hours]. *)
Definition in_units (u : Duration) (d : Duration) : float64 :=
  f64_add (f64_of_Z (Z.quot d u)) (f64_div (f64_of_Z (Z.rem d u)) (f64_of_Z u)).
Definition Seconds : Duration → float64 := in_units Second.
Definition Hours : Duration → float64 := in_units Hour.
Definition hundred : float64 := f64_of_Z 100.
Definition len_f64 {A} (l : list A) : float64 := f64_of_Z (Z.of_nat (length l)).

(** ** Scores *)

Record PlatformScore := mkPlatform {
  Platform : string; Attempts : Z; Successes : Z; AverageTime : float64; SuccessRate : float64; LastAttempt : Time; ConsistentOutput : bool }.
Record ScoreComponents := mkComponents {
  ReproductionRate : float64; ConsistencyScore : float64; TimeReliability : float64; CrossPlatformScore : float64; EnvironmentStability : float64 }.
Record ScoreMetadata := mkMetadata { total_attempts : nat; unique_platforms : nat; first_attempt : Time; last_attempt : Time }.
Record ReproducibilityScore := mkScore {
  ScoreCrashID : string; BaseScore : float64; ScoreConfidence : float64; Components : ScoreComponents;
  PlatformScores : gmap string PlatformScore; ScoreStatus : ReproducibilityStatus; LastUpdated : Time; Metadata : option ScoreMetadata }.

Record reproducibilityScorer := mkScorer {
  scoreCache : gmap string ReproducibilityScore; cacheTimeout : Duration; minAttempts : nat;
  confidenceThreshold : float64; crossPlatformWeight : float64; consistencyWeight : float64 }.
#[export] Instance scorer_eta : Eta reproducibilityScorer := fun s =>
  mkScorer (scoreCache s) (cacheTimeout s) (minAttempts s) (confidenceThreshold s) (crossPlatformWeight s) (consistencyWeight s).
Definition NewReproducibilityScorer : reproducibilityScorer := mkScorer ∅ (5 * Minute) 3 (f64_of_Z 70) (f64_lit 3 10) (f64_lit 2 10).

Definition getPlatformKey (envInfo : gmap string string) : string :=
  let os := default "" (envInfo !! "os"%string) in
  let arch := default "" (envInfo !! "arch"%string) in
  (if String.eqb os "" then "unknown" else os) +:+ "/" +:+ (if String.eqb arch "" then "unknown" else arch).
Definition success (r : ReproductionResult) : bool := Reproduced r && MatchesOriginal r.

Definition getFirstAttemptTime (results : list ReproductionResult) : Time :=
  match results with
  | [] => zero_time
  | r :: rest => fold_left (λ earliest r, if time_before (Timestamp r) earliest then Timestamp r else earliest) rest (Timestamp r)
  end.
Definition getLastAttemptTime (results : list ReproductionResult) : Time :=
  match results with
  | [] => zero_time
  | r :: rest => fold_left (λ latest r, if time_after (Timestamp r) latest then Timestamp r else latest) rest (Timestamp r)
  end.
Definition getTimeSpan (results : list ReproductionResult) : Duration :=
  if (length results <? 2)%nat then 0 else time_sub (getLastAttemptTime results) (getFirstAttemptTime results).

(** One round of the loop over the results. *)
Definition count_platform (platformMap : gmap string PlatformScore) (result : ReproductionResult) : gmap string PlatformScore :=
  let platform := getPlatformKey (EnvironmentInfo result) in
  let ps := default (mkPlatform platform 0 0 f64_zero f64_zero zero_time false) (platformMap !! platform) in
  let attempts := Attempts ps + 1 in
  <[platform := mkPlatform platform attempts (if success result then Successes ps + 1 else Successes ps)
     (f64_div (f64_add (f64_mul (AverageTime ps) (f64_of_Z (attempts - 1))) (Seconds (ExecutionTime result))) (f64_of_Z attempts))
     (SuccessRate ps) (Timestamp result)
     (ConsistentOutput ps || ((1 <? attempts) && negb (String.eqb (StackHash result) "")))]> platformMap.
Definition with_rate (ps : PlatformScore) : PlatformScore :=
  mkPlatform (Platform ps) (Attempts ps) (Successes ps) (AverageTime ps)
    (f64_mul (f64_div (f64_of_Z (Successes ps)) (f64_of_Z (Attempts ps))) hundred) (LastAttempt ps) (ConsistentOutput ps).
Definition calculatePlatformScores (results : list ReproductionResult) : gmap string PlatformScore :=
  with_rate <$> fold_left count_platform results ∅.

(** ** Components *)

Section components.
(** The order of an iteration. *)
Context (order : ∀ V, gmap string V → list V).

Definition count_hash (stackHashes : gmap string Z) (result : ReproductionResult) : gmap string Z :=
  if Reproduced result && negb (String.eqb (StackHash result) "")
  then <[StackHash result := default 0 (stackHashes !! StackHash result) + 1]> stackHashes else stackHashes.
Definition calculateConsistencyScore (results : list ReproductionResult) : float64 :=
  if (length results <? 2)%nat then hundred
  else
    let stackHashes := fold_left count_hash results ∅ in
    let reproducedCount := length (List.filter Reproduced results) in
    if (reproducedCount =? 0)%nat then f64_zero
    else
      let maxCount := fold_left (λ m count, if m <? count then count else m) (order Z stackHashes) 0 in
      f64_mul (f64_div (f64_of_Z maxCount) (f64_of_Z (Z.of_nat reproducedCount))) hundred.

Definition calculateTimeReliability (times : list float64) : float64 :=
  if (length times <? 2)%nat then hundred
  else
    let mean := f64_div (fold_left f64_add times f64_zero) (len_f64 times) in
    let variance := f64_div (fold_left (λ v t, f64_add v (square (f64_sub t mean))) times f64_zero) (len_f64 times) in
    let stdDev := f64_sqrt variance in
    if SFeqb mean f64_zero then hundred
    else f64_max f64_zero (f64_mul hundred (f64_sub (f64_of_Z 1) (f64_div stdDev mean))).

Definition calculateCrossPlatformScore (platformScores : gmap string PlatformScore) : float64 :=
  match order PlatformScore platformScores with
  | [] => f64_zero
  | [ps] => f64_mul (SuccessRate ps) (f64_lit 7 10)
  | pss =>
      let totalScore := fold_left (λ t ps, f64_add t (f64_mul (SuccessRate ps) (f64_of_Z (Attempts ps)))) pss f64_zero in
      let totalAttempts := fold_left (λ t ps, t + Attempts ps) pss 0 in
      let successfulPlatforms := length (List.filter (λ ps, f64_gt (SuccessRate ps) (f64_of_Z 50)) pss) in
      if totalAttempts =? 0 then f64_zero
      else
        f64_min hundred (f64_add (f64_div totalScore (f64_of_Z totalAttempts))
          (f64_mul (f64_div (f64_of_Z (Z.of_nat successfulPlatforms)) (len_f64 pss)) (f64_of_Z 20)))
  end.

Fixpoint transitions (l : list bool) : nat :=
  match l with x :: (y :: _) as t => ((if Bool.eqb x y then 0 else 1) + transitions t)%nat | _ => 0%nat end.
Definition count_bot (botResults : gmap string (list bool)) (result : ReproductionResult) : gmap string (list bool) :=
  <[ResultBotID result := default [] (botResults !! ResultBotID result) ++ [success result]]> botResults.
Definition calculateEnvironmentStability (results : list ReproductionResult) : float64 :=
  let enough := List.filter (λ l : list bool, negb (length l <? 2)%nat) (order (list bool) (fold_left count_bot results ∅)) in
  let totalConsistency := fold_left (λ t l, f64_add t (f64_sub (f64_of_Z 1)
      (f64_div (f64_of_Z (Z.of_nat (transitions l))) (f64_of_Z (Z.of_nat (length l) - 1))))) enough f64_zero in
  match enough with [] => hundred | _ => f64_mul (f64_div totalConsistency (len_f64 enough)) hundred end.

Definition calculateComponents (results : list ReproductionResult) (platformScores : gmap string PlatformScore) : ScoreComponents :=
  mkComponents (f64_mul (f64_div (len_f64 (List.filter success results)) (len_f64 results)) hundred)
    (calculateConsistencyScore results) (calculateTimeReliability ((λ r, Seconds (ExecutionTime r)) <$> results))
    (calculateCrossPlatformScore platformScores) (calculateEnvironmentStability results).

(** ** The score *)

Definition clamp (x : float64) : float64 := f64_min hundred (f64_max f64_zero x).
Definition calculateBaseScore (s : reproducibilityScorer) (c : ScoreComponents) : float64 :=
  let score :=
    f64_add (f64_add (f64_add (f64_add
      (f64_mul (ReproductionRate c) (f64_lit 4 10))
      (f64_mul (ConsistencyScore c) (consistencyWeight s)))
      (f64_mul (TimeReliability c) (f64_lit 1 10)))
      (f64_mul (CrossPlatformScore c) (crossPlatformWeight s)))
      (f64_mul (EnvironmentStability c) (f64_lit 1 10)) in
  clamp score.

Definition calculateConfidence (s : reproducibilityScorer) (now : Time) (results : list ReproductionResult)
    (platformScores : gmap string PlatformScore) : float64 :=
  let attemptConfidence := f64_min hundred (f64_mul (f64_div (len_f64 results) (f64_of_Z (Z.of_nat (minAttempts s) * 3))) hundred) in
  let platformConfidence := f64_min hundred (f64_mul (f64_of_Z (Z.of_nat (size platformScores))) (f64_lit 3333 100)) in
  let timeConfidence := f64_min hundred (f64_mul (f64_div (Hours (getTimeSpan results)) (f64_of_Z 24)) (f64_of_Z 20)) in
  let recencyConfidence :=
    match results with
    | [] => hundred
    | _ => f64_max f64_zero (f64_sub hundred (f64_mul (Hours (time_sub now (getLastAttemptTime results))) (f64_of_Z 2)))
    end in
  clamp (f64_add (f64_add (f64_add (f64_mul attemptConfidence (f64_lit 3 10)) (f64_mul platformConfidence (f64_lit 3 10)))
                    (f64_mul timeConfidence (f64_lit 2 10))) (f64_mul recencyConfidence (f64_lit 2 10))).

Definition determineStatus (s : reproducibilityScorer) (score confidence : float64) (attempts : nat) : ReproducibilityStatus :=
  if (attempts <? minAttempts s)%nat then StatusTesting
  else if f64_lt confidence (confidenceThreshold s) then StatusTesting
  else if f64_ge score (f64_of_Z 80) then StatusConfirmed
  else if f64_ge score (f64_of_Z 50) then StatusFlaky
  else StatusFailed.

Context {D : Type} `{ReproStorage D}.

Definition no_score (crashID : string) (now : Time) : ReproducibilityScore :=
  mkScore crashID f64_zero f64_zero (mkComponents f64_zero f64_zero f64_zero f64_zero f64_zero) ∅ StatusUnknown now None.
(** The score of a crash that has results; the clock is read for the confidence and
    again for the time of the score. *)
Definition score_of (s : reproducibilityScorer) (crashID : string) (now2 now3 : Time) (results : list ReproductionResult) : ReproducibilityScore :=
  let platformScores := calculatePlatformScores results in
  let components := calculateComponents results platformScores in
  let baseScore := calculateBaseScore s components in
  let confidence := calculateConfidence s now2 results platformScores in
  mkScore crashID baseScore confidence components platformScores (determineStatus s baseScore confidence (length results)) now3
    (Some (mkMetadata (length results) (size platformScores) (getFirstAttemptTime results) (getLastAttemptTime results))).
Definition fresh (s : reproducibilityScorer) (crashID : string) (now : Time) : option ReproducibilityScore :=
  match scoreCache s !! crashID with
  | Some cached => if time_sub now (LastUpdated cached) <? cacheTimeout s then Some cached else None
  | None => None
  end.
Definition CalculateScore (crashID : string) (now1 now2 now3 : Time) (db : D) : io reproducibilityScorer ReproducibilityScore := λ s,
  match fresh s crashID now1 with
  | Some cached => (Ok cached, s)
  | None =>
      match GetReproductionResults crashID db with
      | inr err => (Err (ErrWrap "failed to get reproduction results" err), s)
      | inl [] => (Ok (no_score crashID now3), s)
      | inl results => let score := score_of s crashID now2 now3 results in (Ok score, s <| scoreCache := <[crashID := score]> (scoreCache s) |>)
      end
  end.

(** ** Trends *)

Record Trend := mkTrend { trend : string; data_points : nat; daily_stats : gmap string (Z * Z); success_rates : list float64 }.
Context (day : Time → string).                       (* [Format("2006-01-02")] *)

Definition count_day (dailyStats : gmap string (Z * Z)) (result : ReproductionResult) : gmap string (Z * Z) :=
  let '(attempts, successes) := default (0, 0) (dailyStats !! day (Timestamp result)) in
  <[day (Timestamp result) := (attempts + 1, if success result then successes + 1 else successes)]> dailyStats.
Fixpoint rises (less : float64 → float64 → bool) (rates : list float64) : nat :=
  match rates with x :: (y :: _) as t => ((if less x y then 1 else 0) + rises less t)%nat | _ => 0%nat end.
Definition trend_of (rates : list float64) : string :=
  if (length rates <? 3)%nat then "stable"
  else
    let increasing := rises f64_lt rates in
    let decreasing := rises f64_gt rates in
    if ((decreasing <? increasing) && (length rates / 2 <? increasing))%nat then "improving"
    else if ((increasing <? decreasing) && (length rates / 2 <? decreasing))%nat then "degrading" else "stable".
Definition GetTrendAnalysis (crashID : string) (db : D) : Trend + goerror :=
  match GetReproductionResults crashID db with
  | inr err => inr (ErrWrap "failed to get reproduction results" err)
  | inl results =>
      if (length results <? 2)%nat then inl (mkTrend "insufficient_data" (length results) ∅ [])
      else
        let dailyStats := fold_left count_day results ∅ in
        let rates := (λ '(a, n), f64_div (f64_of_Z n) (f64_of_Z a)) <$> order (Z * Z) dailyStats in
        inl (mkTrend (trend_of rates) (length results) dailyStats rates)
  end.
End components.

(** ** Verification of fixes *)

Record FixVerification := mkFix {
  FixID : string; FixCrashID : string; FixCommit : string; VerificationJob : string; FixStatus : string; FixReproduced : bool; TestedAt : Time; FixResult : string }.
Definition scorer_VerifyFix (crashID fixCommit : string) (now1 now2 : Time) : FixVerification :=
  mkFix ("fix-" +:+ crashID +:+ "-" +:+ pretty (now1 / Second)) crashID fixCommit "" "pending" false now2 "".

(** ** What the scores say *)

Lemma count_platform_at m r p : getPlatformKey (EnvironmentInfo r) = p →
  let ps := default (mkPlatform p 0 0 f64_zero f64_zero zero_time false) (m !! p) in ∃ average consistent,
  count_platform m r !! p =
    Some (mkPlatform p (Attempts ps + 1) (if success r then Successes ps + 1 else Successes ps) average (SuccessRate ps) (Timestamp r) consistent).
Proof. intros <-. unfold count_platform. rewrite lookup_insert_eq. by eexists _, _. Qed.
Lemma count_platform_ne m r p : getPlatformKey (EnvironmentInfo r) ≠ p → count_platform m r !! p = m !! p.
Proof. intros E. unfold count_platform. by rewrite lookup_insert_ne. Qed.

Definition on_platform (p : string) (results : list ReproductionResult) : list ReproductionResult :=
  filter (λ r, getPlatformKey (EnvironmentInfo r) = p) results.

Lemma on_platform_snoc p rs r :
  on_platform p (rs ++ [r]) = on_platform p rs ++ if decide (getPlatformKey (EnvironmentInfo r) = p) then [r] else [].
Proof. unfold on_platform. by rewrite filter_app, filter_cons, filter_nil. Qed.
Definition successes (l : list ReproductionResult) : nat := length (filter (λ r, success r = true) l).
Lemma successes_snoc l r : successes (l ++ [r]) = (successes l + if success r then 1 else 0)%nat.
Proof. unfold successes. rewrite filter_app, length_app, filter_cons, filter_nil. case_decide as E; destruct (success r); done. Qed.

(** Platform scores count exactly the results of their platform.  A platform has a
    score exactly if a result is of it; the score counts its attempts and its
    successes, and its last attempt is the last one in the order of the results. *)
Theorem platform_scores_exact (results : list ReproductionResult) (p : string) :
  match calculatePlatformScores results !! p with
  | None => on_platform p results = []
  | Some ps => Platform ps = p ∧ Attempts ps = Z.of_nat (length (on_platform p results)) ∧ 0 < Attempts ps ∧
      Successes ps = Z.of_nat (successes (on_platform p results)) ∧
      ∃ r, last (on_platform p results) = Some r ∧ LastAttempt ps = Timestamp r
  end.
Proof.
  unfold calculatePlatformScores. rewrite lookup_fmap.
  assert (match fold_left count_platform results ∅ !! p with
    | None => on_platform p results = []
    | Some ps => Platform ps = p ∧ Attempts ps = Z.of_nat (length (on_platform p results)) ∧ 0 < Attempts ps ∧
        Successes ps = Z.of_nat (successes (on_platform p results)) ∧
        ∃ r, last (on_platform p results) = Some r ∧ LastAttempt ps = Timestamp r
    end) as H.
  { induction results as [|r rs IH] using rev_ind; [done|]. rewrite fold_left_app. cbn [fold_left].
    rewrite on_platform_snoc. case_decide as E; [|by rewrite count_platform_ne, app_nil_r].
    destruct (count_platform_at (fold_left count_platform rs ∅) r p E) as (average & consistent & ->). cbn [Platform Attempts Successes LastAttempt].
    rewrite successes_snoc, length_app, last_snoc. destruct (fold_left count_platform rs ∅ !! p) as [ps|]; cbn [default id].
    - destruct IH as (H1 & H2 & H3 & H4 & _). cbn [length]. split_and!; [done|lia|lia|destruct (success r); lia|by exists r].
    - rewrite IH. cbn [length Attempts Successes]. split_and!; [done|done|done|by destruct (success r)|by exists r]. }
  destruct (fold_left count_platform results ∅ !! p) as [ps|]; exact H.
Qed.

(** A result that was scored within the last five minutes is not looked at again. *)
Lemma cached_score {D} `{ReproStorage D} (order : ∀ V, gmap string V → list V) crashID now1 now2 now3 (db : D) s cached :
  fresh s crashID now1 = Some cached → CalculateScore order crashID now1 now2 now3 db s = (Ok cached, s).
Proof. intros E. unfold CalculateScore. by rewrite E. Qed.

(** ** Trends depend on the order of a map *)

Definition days_result (day : Z) (ok : bool) : ReproductionResult :=
  mkResult "" "" "c" "" 1 StatusTesting ok 0 0 0 "" "" "" ok ∅ day.
Definition three_days : list ReproductionResult := [days_result 2 false; days_result 1 true; days_result 1 false; days_result 3 true].
Definition test_crash (crashID : string) : CrashResult :=
  mkCrash crashID "job" "bot" "campaign" "hash" "" "segv" 11 (-1) 0 0 true [] "" "" "" true false None.
#[export] Instance results_storage : ReproStorage (list ReproductionResult) := {|
  GetCrash c _ := inl (Some (test_crash c)); CreateReproductionResult r d := (None, d ++ [r]);
  GetReproductionResults c d := inl (List.filter (λ r, String.eqb (ResultCrashID r) c) d) |}.
Definition forwards (V : Type) (m : gmap string V) : list V := (map_to_list m).*2.
Definition backwards (V : Type) (m : gmap string V) : list V := reverse (forwards V m).

Definition trend_with (order : ∀ V, gmap string V → list V) : option string :=
  match GetTrendAnalysis order (pretty (A := Z)) "c" three_days with inl t => Some (trend t) | inr _ => None end.

(** A trend is chance.  The days come in the order of a map, so the same results
    are improving in one order of it and degrading in another. *)
Theorem trend_by_chance : (∀ V m, backwards V m ≡ₚ forwards V m) ∧
  trend_with forwards = Some "degrading" ∧ trend_with backwards = Some "improving".
Proof. split; [intros V m; apply reverse_Permutation|]. by vm_compute. Qed.
