(* ===== verification/ReproService.v ===== *)
(** * Reproduction requests: src/pkg/service/reproducibility_service.go

    A priority queue of requests, a channel of work, the workers and the status
    of requests.  Requests are reached through pointers (positions in
    [requests]), because the queue, a worker and the status share them; the two
    fields that order the queue never change and are kept by value.  The
    goroutines are interleaved steps. *)

From Stdlib Require Import Lia Strings.String Strings.Ascii.
From S2P Require Import Prelude GoHeap AppErrors CrashTypes ReproScorer.

Record ReproductionRequest := mkRequest {
  RequestID : string; RequestCrashID : string; RequestCampaignID : string; RequestJobID : string; RequestStatus : ReproducibilityStatus;
  RequestPriority : Z; AttemptCount : Z; MaxAttempts : Z; RequestedAt : Time; StartedAt : option Time; CompletedAt : option Time; TimeoutAt : Time }.
#[export] Instance ReproductionRequest_eta : Eta ReproductionRequest := fun r =>
  mkRequest (RequestID r) (RequestCrashID r) (RequestCampaignID r) (RequestJobID r) (RequestStatus r) (RequestPriority r) (AttemptCount r)
    (MaxAttempts r) (RequestedAt r) (StartedAt r) (CompletedAt r) (TimeoutAt r).

(** ** The queue *)

Record reproductionRequest := mkQueued { pointer : nat; queued_priority : Z; queued_at : Time; heap_index : Z }.
Definition requestLess (a b : reproductionRequest) : bool :=
  if negb (queued_priority a =? queued_priority b) then queued_priority b <? queued_priority a else time_before (queued_at a) (queued_at b).
Definition set_heap_index (i : nat) (x : reproductionRequest) : reproductionRequest :=
  mkQueued (pointer x) (queued_priority x) (queued_at x) (Z.of_nat i).
Definition push_request := heap_push requestLess set_heap_index.
Definition pop_request := heap_pop requestLess set_heap_index.

(** ** The queue is a heap *)

Definition queue_entry (x : reproductionRequest) : nat * Z * Time := (pointer x, queued_priority x, queued_at x).
Definition entry_before (a b : nat * Z * Time) : bool :=
  if negb (a.1.2 =? b.1.2) then b.1.2 <? a.1.2 else a.2 <? b.2.
#[export] Instance entry_before_strict : StrictWeak entry_before.
Proof.
  split; unfold entry_before.
  - intros [[n p] t] [[n' p'] t']; simpl. destruct (Z.eqb_spec p p'), (Z.eqb_spec p' p); simpl; rewrite ?Z.ltb_lt, ?Z.ltb_ge; lia.
  - intros [[n p] t] [[n' p'] t'] [[n'' p''] t'']; simpl.
    destruct (Z.eqb_spec p p'), (Z.eqb_spec p' p''), (Z.eqb_spec p p''); simpl; rewrite ?Z.ltb_ge; lia.
Qed.
Definition heap_ok (h : list reproductionRequest) : Prop := is_heap entry_before (queue_entry <$> h).
Abbreviation pointers := (fmap (M := list) pointer).

Lemma pointers_entries h : pointers h = (λ e, e.1.1) <$> (queue_entry <$> h).
Proof. by rewrite <- list_fmap_compose. Qed.
Lemma all_true (h : list reproductionRequest) : Forall (λ _, True) h.
Proof. by apply Forall_true. Qed.

Lemma push_ok h x : heap_ok h → heap_ok (push_request h x) ∧ pointers (push_request h x) ≡ₚ pointer x :: pointers h.
Proof.
  intros Hh. destruct (heap_push_val queue_entry entry_before requestLess set_heap_index (λ _, True) ltac:(done) ltac:(done) ltac:(done) h x (all_true h) I) as [Hv _].
  destruct (heap_push_spec entry_before _ (queue_entry x) Hh) as [H1 H2]. rewrite <- Hv in H1, H2. split; [done|].
  rewrite !pointers_entries. unfold push_request. by rewrite H2.
Qed.
Lemma pop_ok h : heap_ok h → h ≠ [] →
  ∃ x h', pop_request h = Some (x, h') ∧ heap_ok h' ∧ pointer x :: pointers h' ≡ₚ pointers h ∧ (∀ y, y ∈ h → requestLess y x = false) ∧ S (length h') = length h.
Proof.
  intros Hh Hne. destruct (heap_pop_val queue_entry entry_before requestLess set_heap_index (λ _, True) ltac:(done) ltac:(done) ltac:(done) h (all_true h)) as [Hv _].
  destruct (heap_pop_spec entry_before _ Hh) as (e & h1 & He & H0 & Hp & Hh1 & Hmin); [by destruct h|].
  rewrite He in Hv. unfold pop_request. destruct (heap_pop requestLess set_heap_index h) as [[x h']|]; [|done]. cbn in Hv. injection Hv as <- <-.
  exists x, h'. split_and!; [done|exact Hh1| |..].
  - rewrite (pointers_entries h), <- Hp, pointers_entries. done.
  - intros y Hy. apply (Hmin (queue_entry y)). by apply list_elem_of_fmap_2.
  - apply Permutation_length in Hp. cbn in Hp. rewrite !length_fmap in Hp. done.
Qed.
Lemma pop_empty : pop_request [] = None.
Proof. reflexivity. Qed.

(** ** The service *)

Record reproducibilityService (D : Type) := mkService {
  requests : list ReproductionRequest; priorityQueue : list reproductionRequest; requestQueue : list nat; workers : nat; busy : list nat;
  requestStatus : gmap string nat; service_scorer : reproducibilityScorer; storage : D; stopped : bool }.
Arguments mkService {D}.
Arguments requests {D}.
Arguments priorityQueue {D}.
Arguments requestQueue {D}.
Arguments workers {D}.
Arguments busy {D}.
Arguments requestStatus {D}.
Arguments service_scorer {D}.
Arguments storage {D}.
Arguments stopped {D}.
#[export] Instance service_eta {D} : Eta (reproducibilityService D) := fun s =>
  mkService (requests s) (priorityQueue s) (requestQueue s) (workers s) (busy s) (requestStatus s) (service_scorer s) (storage s) (stopped s).

(** With a positive execution time-out in the configuration there are ten workers. *)
Definition NewReproducibilityService {D} (jobExecution : option Duration) (storage : D) : reproducibilityService D :=
  mkService [] [] [] (match jobExecution with Some d => if 0 <? d then 10 else 5 | None => 5 end) [] ∅ NewReproducibilityScorer storage false.

Section service.
Context {D : Type} `{ReproStorage D} (order : ∀ V, gmap string V → list V).
Abbreviation service := (reproducibilityService D) (only parsing).

Definition on_request (p : nat) (f : ReproductionRequest → ReproductionRequest) (s : service) : service :=
  match requests s !! p with Some r => s <| requests := <[p := f r]> (requests s) |> | None => s end.

Definition QueueReproduction (crashID : string) (priority : Z) (id : string) (now1 now2 : Time) : io service unit := λ s,
  if String.eqb crashID "" then (Err (errors.NewValidationError "queue_reproduction" "Crash ID is required"), s)
  else
    match GetCrash crashID (storage s) with
    | inr err => (Err (ErrWrap "failed to get crash" err), s)
    | inl None => (Err (errors.NewNotFoundError "crash" crashID), s)
    | inl (Some crash) =>
        let request := mkRequest id crashID (CrashCampaignID crash) (CrashJobID crash) StatusTesting priority 0 3 now1 None None (now2 + 30 * Minute) in
        let p := length (requests s) in
        (Ok tt, s <| requests := requests s ++ [request] |> <| requestStatus := <[crashID := p]> (requestStatus s) |>
                  <| priorityQueue := push_request (priorityQueue s) (mkQueued p priority now1 0) |>)
    end.

Definition GetReproductionStatus (crashID : string) (s : service) : option ReproductionRequest + goerror :=
  match requestStatus s !! crashID with
  | Some p => inl (requests s !! p)
  | None => inr (errors.NewNotFoundError "reproduction_request" crashID)
  end.

(** The clock, where it is read. *)
Record Clocks := mkClocks { at_cache : Time; at_confidence : Time; at_score : Time; at_end : Time }.

Definition score (crashID : string) (c : Clocks) : io service ReproducibilityScore := λ s,
  let '(res, scorer) := CalculateScore order crashID (at_cache c) (at_confidence c) (at_score c) (storage s) (service_scorer s) in
  (res, s <| service_scorer := scorer |>).
(** The request after one more attempt. *)
Definition attempted (status : option ReproducibilityStatus) (now : Time) (request : ReproductionRequest) : ReproductionRequest :=
  let request := request <| AttemptCount := AttemptCount request + 1 |> in
  let request := match status with Some st => request <| RequestStatus := st |> | None => request end in
  if (MaxAttempts request <=? AttemptCount request) || String.eqb (RequestStatus request) StatusConfirmed
  then request <| CompletedAt := Some now |> else request.

Definition RecordReproductionResult (result : option ReproductionResult) (c : Clocks) : io service unit := λ s,
  match result with
  | None => (Err (errors.NewValidationError "record_result" "Result is required"), s)
  | Some result =>
      match CreateReproductionResult result (storage s) with
      | (Some err, db) => (Err (ErrWrap "failed to store reproduction result" err), s <| storage := db |>)
      | (None, db) =>
          let s := s <| storage := db |> in
          match requestStatus s !! ResultCrashID result with
          | None => (Ok tt, s)
          | Some p =>
              let '(answer, s) := score (ResultCrashID result) c s in
              match answer with
              | Panic why => (Panic why, s)
              | Ok sc => (Ok tt, on_request p (attempted (Some (ScoreStatus sc)) (at_end c)) s)
              | Err _ => (Ok tt, on_request p (attempted None (at_end c)) s)
              end
          end
      end
  end.

Definition CalculateReproducibilityScore (crashID : string) (c : Clocks) : io service float64 :=
  let* sc := score crashID c in io_ret (BaseScore sc).
Definition GetDetailedScore (crashID : string) (c : Clocks) : io service ReproducibilityScore := score crashID c.
Definition GetPlatformAnalysis (crashID : string) (c : Clocks) : io service (gmap string PlatformScore) :=
  let* sc := score crashID c in io_ret (PlatformScores sc).
Definition VerifyFix (crashID fixCommit id : string) (now1 now2 now3 now4 : Time) : io service unit :=
  let _ := scorer_VerifyFix crashID fixCommit now1 now2 in
  or_wrap "failed to queue fix verification" (QueueReproduction crashID 100 id now3 now4).

(** ** Processing *)

(** A worker has a request: its start, under the lock of the status. *)
Definition start_processing (p : nat) (now : Time) : io service unit := λ s,
  match requests s !! p with
  | None => (Panic "nil pointer dereference", s)
  | Some r => (Ok tt, on_request p (λ r, r <| StartedAt := Some now |>) (s <| requestStatus := <[RequestCrashID r := p]> (requestStatus s) |>))
  end.
(** The simulated result. *)
Definition simulated (req : ReproductionRequest) (id : string) (now : Time) : ReproductionResult :=
  let n := AttemptCount req in
  let '(os, arch) := if Z.rem n 3 =? 0 then ("darwin", "arm64") else if Z.rem n 3 =? 1 then ("windows", "amd64") else ("linux", "amd64") in
  let reproduced := (Z.rem n 2 =? 0) || (Z.rem n 3 =? 0) in
  let stackHash := if reproduced && (Z.rem n 4 =? 0) then "def456" else "abc123" in
  mkResult id (RequestID req) (RequestCrashID req) ("bot-" +:+ os +:+ "-" +:+ arch) (n + 1) StatusTesting reproduced
    ((3 + Z.rem n 5) * Second) 11 (-1) ("Reproduction output on " +:+ os +:+ "/" +:+ arch)
    ("Stack trace from " +:+ os +:+ "/" +:+ arch +:+ String (ascii_of_nat 10) ("#0 0x1234 in vulnerable_function" +:+ String (ascii_of_nat 10) "#1 0x5678 in main"))
    stackHash (reproduced && String.eqb stackHash "abc123")
    {["os" := os; "arch" := arch; "fuzzer" := "libfuzzer"; "version" := "1.0.0"; "compiler" := "clang-12"]} now.
(** The rest of [processReproductionRequest]: an error of recording is only logged. *)
Definition finish_processing (p : nat) (id : string) (now : Time) (c : Clocks) : io service unit := λ s,
  match requests s !! p with
  | None => (Panic "nil pointer dereference", s)
  | Some r => ignore (RecordReproductionResult (Some (simulated r id now)) c) s
  end.
Definition processReproductionRequest (p : nat) (id : string) (now1 now2 : Time) (c : Clocks) : io service unit :=
  let* _ := start_processing p now1 in finish_processing p id now2 c.

Fixpoint QueueBatch_loop (crashIDs : list (string * string * Time * Time)) (priority : Z) (failed : nat) : io service nat :=
  match crashIDs with
  | [] => io_ret failed
  | (crashID, id, now1, now2) :: rest =>
      let* r := attempt (QueueReproduction crashID priority id now1 now2) in
      QueueBatch_loop rest priority (match r with inl _ => failed | inr _ => S failed end)
  end.
Definition QueueBatchReproduction (crashIDs : list (string * string * Time * Time)) (priority : Z) : io service unit :=
  let* failed := QueueBatch_loop crashIDs priority 0 in
  if (failed =? 0)%nat then io_ret tt else io_err (ErrNew ("failed to queue " +:+ pretty (Z.of_nat failed) +:+ " crashes")).

Record QueueStatus := mkQueueStatus {
  work_queue_size : nat; priority_queue_size : nat; active_requests : nat; pending_count : nat; testing_count : nat; completed_count : nat; status_workers : nat }.
Definition counts (s : service) (f : ReproducibilityStatus → bool) : nat :=
  length (List.filter (λ p, match requests s !! p with Some r => f (RequestStatus r) | None => false end) (map_to_list (requestStatus s)).*2).
Definition completed_status (st : ReproducibilityStatus) : bool :=
  String.eqb st StatusConfirmed || String.eqb st StatusFailed || String.eqb st StatusFlaky.
Definition GetQueueStatus (s : service) : QueueStatus :=
  mkQueueStatus (length (requestQueue s)) (length (priorityQueue s)) (size (requestStatus s))
    (counts s (λ st, negb (String.eqb st StatusTesting) && negb (completed_status st)))
    (counts s (String.eqb StatusTesting)) (counts s completed_status) (workers s).

(** ** The goroutines *)

(** One tick of [queueManager].  The operand of the send is evaluated before the
    select chooses: the request has left the queue when the channel is full. *)
Definition queue_tick : io service unit := λ s,
  match priorityQueue s with
  | [] => (Ok tt, s)
  | _ =>
      match pop_request (priorityQueue s) with
      | None => (Panic "index out of range", s)
      | Some (x, queue) =>
          let s := s <| priorityQueue := queue |> in
          if stopped s then (Panic "send on closed channel", s)
          else if (length (requestQueue s) <? workers s)%nat then (Ok tt, s <| requestQueue := requestQueue s ++ [pointer x] |>)
          else
            match pop_request queue with
            | None => (Panic "index out of range", s)
            | Some (item, queue) => (Ok tt, s <| priorityQueue := push_request queue item |>)
            end
      end
  end.

(** A free worker receives a request. *)
Definition worker_receives (now : Time) : io service unit := λ s,
  match requestQueue s with
  | p :: rest => if (length (busy s) <? workers s)%nat then start_processing p now (s <| requestQueue := rest |> <| busy := busy s ++ [p] |>) else (Ok tt, s)
  | [] => (Ok tt, s)
  end.
Definition worker_finishes (i : nat) (id : string) (now : Time) (c : Clocks) : io service unit := λ s,
  match busy s !! i with
  | Some p => finish_processing p id now c (s <| busy := delete i (busy s) |>)
  | None => (Ok tt, s)
  end.
Definition Stop : io service unit := λ s, if stopped s then (Panic "close of closed channel", s) else (Ok tt, s <| stopped := true |>).

Inductive label :=
  | LQueue (crashID : string) (priority : Z) (id : string) (now1 now2 : Time)
  | LRecord (result : option ReproductionResult) (c : Clocks)
  | LTick
  | LReceive (now : Time)
  | LFinish (i : nat) (id : string) (now : Time) (c : Clocks)
  | LStop.
Definition step (l : label) : io service unit :=
  match l with
  | LQueue crashID priority id now1 now2 => ignore (QueueReproduction crashID priority id now1 now2)
  | LRecord result c => ignore (RecordReproductionResult result c)
  | LTick => queue_tick
  | LReceive now => worker_receives now
  | LFinish i id now c => worker_finishes i id now c
  | LStop => Stop
  end.
Fixpoint run (ls : list label) : io service unit :=
  match ls with [] => io_ret tt | l :: ls => let* _ := step l in run ls end.

(** ** The queue manager *)

Lemma tick_cases (s : service) : heap_ok (priorityQueue s) → priorityQueue s ≠ [] → ∃ x queue,
  pop_request (priorityQueue s) = Some (x, queue) ∧ heap_ok queue ∧ pointer x :: pointers queue ≡ₚ pointers (priorityQueue s) ∧ (∀ y, y ∈ priorityQueue s → requestLess y x = false) ∧
  S (length queue) = length (priorityQueue s) ∧
  queue_tick s =
    let s := s <| priorityQueue := queue |> in
    if stopped s then (Panic "send on closed channel", s)
    else if (length (requestQueue s) <? workers s)%nat then (Ok tt, s <| requestQueue := requestQueue s ++ [pointer x] |>)
    else match pop_request queue with
         | None => (Panic "index out of range", s)
         | Some (item, queue) => (Ok tt, s <| priorityQueue := push_request queue item |>)
         end.
Proof.
  intros Hh Hne. destruct (pop_ok _ Hh Hne) as (x & h' & E & H1 & H2 & H3 & H4). exists x, h'. split_and!; [done..|].
  unfold queue_tick. destruct (priorityQueue s) as [|z l]; [done|]. by rewrite E.
Qed.

(** A full channel costs a request.  A tick with room in the channel hands over the
    most urgent request of the queue, the earliest of the highest priority.  When
    the channel is full the most urgent request is gone from both, and if it was
    the only one the service dies. *)
Theorem tick_exact (s : service) (Hheap : heap_ok (priorityQueue s)) (Hrun : stopped s = false) :
  match priorityQueue s with
  | [] => queue_tick s = (Ok tt, s)
  | _ => ∃ x, (∀ y, y ∈ priorityQueue s → requestLess y x = false) ∧
      let '(res, s') := queue_tick s in
      if (length (requestQueue s) <? workers s)%nat
      then res = Ok tt ∧ requestQueue s' = requestQueue s ++ [pointer x] ∧ pointer x :: pointers (priorityQueue s') ≡ₚ pointers (priorityQueue s)
      else requestQueue s' = requestQueue s ∧ busy s' = busy s ∧ pointer x :: pointers (priorityQueue s') ≡ₚ pointers (priorityQueue s) ∧
           (if (length (priorityQueue s) =? 1)%nat then res = Panic "index out of range" else res = Ok tt)
  end.
Proof.
  destruct (priorityQueue s) as [|z l] eqn:El; [unfold queue_tick; by rewrite El|]. rewrite <- El in *.
  destruct (tick_cases s Hheap ltac:(by rewrite El)) as (x & queue & _ & H1 & H2 & H3 & H4 & ->). exists x. split; [done|]. cbv zeta.
  change (stopped (s <| priorityQueue := queue |>)) with (stopped s). rewrite Hrun.
  change (requestQueue (s <| priorityQueue := queue |>)) with (requestQueue s). change (workers (s <| priorityQueue := queue |>)) with (workers s).
  destruct (length (requestQueue s) <? workers s)%nat; [by split_and!|].
  destruct queue as [|z' l']; [rewrite pop_empty; cbn in H4; rewrite <- H4; by split_and!|].
  destruct (pop_ok _ H1) as (item & q2 & -> & H5 & H6 & H7 & H8); [done|]. destruct (push_ok q2 item H5) as [H9 H10].
  cbn [length] in H4. rewrite <- H4. cbn [Nat.eqb requestQueue busy priorityQueue set_field]. split_and!; [done|done| |done].
  etrans; [|exact H2]. constructor. etrans; [exact H10|exact H6].
Qed.

(** A tick after [Stop], which closes the channel while the manager may be at work. *)
Lemma tick_after_stop (s : service) : heap_ok (priorityQueue s) → priorityQueue s ≠ [] → stopped s = true → (queue_tick s).1 = Panic "send on closed channel".
Proof.
  intros Hh Hne Hs. destruct (tick_cases s Hh Hne) as (x & queue & _ & _ & _ & _ & _ & ->). cbv zeta.
  change (stopped (s <| priorityQueue := queue |>)) with (stopped s). by rewrite Hs.
Qed.

(** ** Where requests are *)

Definition places (s : service) : list nat := pointers (priorityQueue s) ++ requestQueue s ++ busy s.
(** The requests that a step drops, and those that it finishes. *)
Definition dropped (l : label) (s : service) : list nat :=
  match l, pop_request (priorityQueue s) with
  | LTick, Some (x, _) => if (length (requestQueue s) <? workers s)%nat then [] else [pointer x]
  | _, _ => []
  end.
Definition finishes (l : label) (s : service) : list nat :=
  match l with LFinish i _ _ _ => match busy s !! i with Some p => [p] | None => [] end | _ => [] end.
Fixpoint along (f : label → service → list nat) (ls : list label) (s : service) : list nat :=
  match ls with [] => [] | l :: ls => f l s ++ along f ls (step l s).2 end.

(** What an operation on the status leaves alone. *)
Definition frame (s s' : service) : Prop :=
  priorityQueue s' = priorityQueue s ∧ requestQueue s' = requestQueue s ∧ busy s' = busy s ∧ workers s' = workers s ∧
  length (requests s') = length (requests s).
Lemma frame_places s s' : frame s s' → places s' = places s.
Proof. intros (H1 & H2 & H3 & _). unfold places. congruence. Qed.
Lemma frame_refl s : frame s s.
Proof. done. Qed.
Lemma frame_request p f s : frame s (on_request p f s).
Proof. unfold on_request. destruct (requests s !! p); [|done]. split_and!; [done..|]. cbn. apply length_insert. Qed.
Lemma record_frame o c s : frame s (RecordReproductionResult o c s).2.
Proof.
  unfold RecordReproductionResult. destruct o as [r|]; [|done]. destruct (CreateReproductionResult r (storage s)) as [[e|] db]; [done|].
  cbn [requestStatus set_field]. destruct (requestStatus s !! ResultCrashID r) as [p|]; [|done]. unfold score.
  destruct (CalculateScore _ _ _ _ _ _ _) as [[sc|e|why] scorer]; [..|done];
    match goal with |- frame _ (_, on_request p ?f ?s1).2 => exact (frame_request p f s1) end.
Qed.
Lemma start_frame p now s : frame s (start_processing p now s).2.
Proof.
  unfold start_processing. destruct (requests s !! p) as [r|] eqn:E; [|done]. cbn [snd].
  match goal with |- frame _ (on_request _ ?f ?s1) => exact (frame_request p f s1) end.
Qed.
Lemma finish_frame p id now c s : frame s (finish_processing p id now c s).2.
Proof.
  unfold finish_processing. destruct (requests s !! p) as [r|]; [|done]. unfold ignore.
  pose proof (record_frame (Some (simulated r id now)) c s) as Hf. by destruct (RecordReproductionResult _ c s) as [[]].
Qed.

(** Every step accounts for the requests it finds and makes. *)
Lemma step_accounts l s s' : heap_ok (priorityQueue s) → step l s = (Ok tt, s') →
  heap_ok (priorityQueue s') ∧ (length (requests s) ≤ length (requests s'))%nat ∧
  places s' ++ dropped l s ++ finishes l s ≡ₚ places s ++ seq (length (requests s)) (length (requests s') - length (requests s)).
Proof.
  intros Hh Hs. assert (∀ s1, frame s s1 → heap_ok (priorityQueue s1) ∧ (length (requests s) ≤ length (requests s1))%nat ∧
    places s1 ≡ₚ places s ++ seq (length (requests s)) (length (requests s1) - length (requests s))) as Hframe.
  { intros s1 Hf. rewrite (frame_places _ _ Hf). destruct Hf as (-> & _ & _ & _ & ->). by rewrite Nat.sub_diag, app_nil_r. }
  destruct l as [crashID priority id now1 now2|o c| |now|i id now c|]; cbn [step] in Hs; unfold finishes.
  - cbn [dropped]. rewrite !app_nil_r. assert (s' = (QueueReproduction crashID priority id now1 now2 s).2) as ->.
    { unfold ignore in Hs. by destruct (QueueReproduction _ _ _ _ _ s) as [[] ?]; simplify_eq. }
    unfold QueueReproduction. destruct (String.eqb crashID ""); [by apply Hframe|]. destruct (GetCrash _ _) as [[crash|]|]; [|by apply Hframe..].
    cbn [snd]. destruct (push_ok (priorityQueue s) (mkQueued (length (requests s)) priority now1 0) Hh) as [H1 H2].
    split_and!; [exact H1|cbn; rewrite length_app; cbn; lia|]. cbn. rewrite length_app. cbn [length].
    replace (length (requests s) + 1 - length (requests s))%nat with 1%nat by lia. unfold places. cbn [priorityQueue requestQueue busy set_field seq].
    rewrite H2. cbn [pointer]. rewrite <- Permutation_cons_append. done.
  - cbn [dropped]. rewrite !app_nil_r. apply Hframe. unfold ignore in Hs. pose proof (record_frame o c s) as Hf.
    destruct (RecordReproductionResult o c s) as [[]]; simplify_eq; exact Hf.
  - rewrite app_nil_r. destruct (priorityQueue s) as [|z l] eqn:El.
    { unfold dropped. rewrite El, pop_empty. unfold queue_tick in Hs. rewrite El in Hs. injection Hs as <-. rewrite app_nil_r. by apply Hframe. }
    rewrite <- El in *. destruct (tick_cases s Hh ltac:(by rewrite El)) as (x & queue & Ep & H1 & H2 & _ & _ & Et). rewrite Et in Hs. cbv zeta in Hs.
    unfold dropped. rewrite Ep. cbn [stopped requestQueue workers set_field] in Hs. destruct (stopped s); [done|].
    assert (∀ q w d, heap_ok q → pointers q ++ w ++ d ≡ₚ pointers (priorityQueue s) ++ requestQueue s →
      priorityQueue s' = q ∧ requestQueue s' = w ∧ busy s' = busy s ∧ requests s' = requests s →
      heap_ok (priorityQueue s') ∧ (length (requests s) ≤ length (requests s'))%nat ∧
      places s' ++ d ≡ₚ places s ++ seq (length (requests s)) (length (requests s') - length (requests s))) as Hgo.
    { intros q w d Hq Hp (E1 & E2 & E3 & E4). unfold places. rewrite E1, E2, E3, E4, Nat.sub_diag, app_nil_r. split_and!; [done|done|].
      rewrite (app_assoc (pointers (priorityQueue s))), <- Hp. solve_Permutation. }
    destruct (length (requestQueue s) <? workers s)%nat.
    + injection Hs as <-. apply (Hgo queue (requestQueue s ++ [pointer x]) []); [done| |by split_and!]. rewrite <- H2. solve_Permutation.
    + destruct (pop_request queue) as [[item q2]|] eqn:E2; [|done]. injection Hs as <-.
      destruct queue as [|z' l']; [by rewrite pop_empty in E2|].
      destruct (pop_ok _ H1) as (? & ? & E3 & H5 & H6 & _); [done|]. rewrite E2 in E3. injection E3 as <- <-.
      destruct (push_ok q2 item H5) as [H7 H8]. apply (Hgo (push_request q2 item) (requestQueue s) [pointer x]); [done| |by split_and!].
      rewrite H8, <- H2, H6. solve_Permutation.
  - cbn [dropped]. rewrite !app_nil_r. unfold worker_receives in Hs. destruct (requestQueue s) as [|p rest] eqn:Er; [injection Hs as <-; by apply Hframe|].
    destruct (length (busy s) <? workers s)%nat; [|injection Hs as <-; by apply Hframe].
    set (s1 := s <| requestQueue := rest |> <| busy := busy s ++ [p] |>) in Hs. pose proof (start_frame p now s1) as Hf. rewrite Hs in Hf. cbn [snd] in Hf.
    rewrite (frame_places _ _ Hf). destruct Hf as (-> & _ & _ & _ & ->). change (requests s1) with (requests s). split_and!; [done|done|].
    rewrite Nat.sub_diag, app_nil_r. unfold places. cbn. rewrite Er. solve_Permutation.
  - cbn [dropped app]. unfold worker_finishes in Hs. destruct (busy s !! i) as [p|] eqn:Eb; [|injection Hs as <-; rewrite app_nil_r; by apply Hframe].
    set (s1 := s <| busy := delete i (busy s) |>) in Hs. pose proof (finish_frame p id now c s1) as Hf. rewrite Hs in Hf. cbn [snd] in Hf.
    rewrite (frame_places _ _ Hf). destruct Hf as (-> & _ & _ & _ & ->). change (requests s1) with (requests s). split_and!; [done|done|].
    rewrite Nat.sub_diag, app_nil_r. unfold places. cbn. pose proof (delete_Permutation (busy s) i p Eb) as Hd.
    set (d := delete i (busy s)) in *. clearbody d. rewrite Hd. solve_Permutation.
  - cbn [dropped]. rewrite !app_nil_r. unfold Stop in Hs. destruct (stopped s); [done|]. injection Hs as <-. by apply Hframe.
Qed.

Lemma run_accounts ls s0 s : heap_ok (priorityQueue s0) → run ls s0 = (Ok tt, s) → heap_ok (priorityQueue s) ∧ (length (requests s0) ≤ length (requests s))%nat ∧
  places s ++ along dropped ls s0 ++ along finishes ls s0 ≡ₚ places s0 ++ seq (length (requests s0)) (length (requests s) - length (requests s0)).
Proof.
  revert s0. induction ls as [|l ls IH]; intros s0 Hh Hs.
  - injection Hs as <-. cbn. by rewrite Nat.sub_diag, !app_nil_r.
  - cbn [run] in Hs. unfold io_bind in Hs. destruct (step l s0) as [[[]|e|w] s1] eqn:E1; [|done..]. cbn [along]. rewrite E1. cbn [snd].
    destruct (step_accounts _ _ _ Hh E1) as (H1 & H2 & H3). destruct (IH s1 H1 Hs) as (H0 & H4 & H5). split; [done|]. split; [lia|].
    replace (length (requests s) - length (requests s0))%nat with
      ((length (requests s1) - length (requests s0)) + (length (requests s) - length (requests s1)))%nat by lia.
    rewrite seq_app. replace (length (requests s0) + (length (requests s1) - length (requests s0)))%nat with (length (requests s1)) by lia.
    rewrite (app_assoc (places s0)), <- H3, <- !app_assoc.
    transitivity (dropped l s0 ++ finishes l s0 ++ (places s ++ along dropped ls s1 ++ along finishes ls s1)); [solve_Permutation|].
    rewrite H5. solve_Permutation.
Qed.
Abbreviation initial := NewReproducibilityService (only parsing).
Lemma initial_accounts jobExecution (db : D) ls s : run ls (initial jobExecution db) = (Ok tt, s) →
  places s ++ along dropped ls (initial jobExecution db) ++ along finishes ls (initial jobExecution db) ≡ₚ seq 0 (length (requests s)).
Proof. intros Hs. destruct (run_accounts ls (initial jobExecution db) s) as (_ & _ & H1); [apply is_heap_nil|done|]. by rewrite Nat.sub_0_r in H1. Qed.

(** C34: requests are accounted for.  In every run of the service every request that was
    accepted is in exactly one place: the queue, the channel, with a worker,
    finished, or dropped by a tick on a full channel. *)
Theorem requests_accounted (jobExecution : option Duration) (db : D) (ls : list label) (s : service)
    (Hrun : run ls (initial jobExecution db) = (Ok tt, s)) :
  let s0 := initial jobExecution db in
  NoDup (places s ++ along dropped ls s0 ++ along finishes ls s0) ∧
  ∀ p, (p < length (requests s))%nat ↔ p ∈ places s ∨ p ∈ along dropped ls s0 ∨ p ∈ along finishes ls s0.
Proof.
  intros s0. pose proof (initial_accounts _ _ _ _ Hrun) as Hp. fold s0 in Hp. split; [rewrite Hp; apply NoDup_seq|].
  intros p. rewrite <- !elem_of_app, Hp, elem_of_seq. lia.
Qed.

(** ** How often a request is attempted *)

Definition request_ok (r : ReproductionRequest) : Prop :=
  MaxAttempts r = 3 ∧ 0 ≤ AttemptCount r ∧ (AttemptCount r ≤ 0 → CompletedAt r = None) ∧
  (AttemptCount r ≤ 1 → CompletedAt r = None ∨ RequestStatus r = StatusConfirmed).
Lemma attempted_ok st now r : request_ok r →
  request_ok (attempted st now r) ∧ AttemptCount (attempted st now r) = AttemptCount r + 1 ∧ RequestCrashID (attempted st now r) = RequestCrashID r.
Proof.
  intros (H1 & H2 & H3 & H4). set (r1 := match st with Some st => r <| AttemptCount := AttemptCount r + 1 |> <| RequestStatus := st |>
    | None => r <| AttemptCount := AttemptCount r + 1 |> end).
  assert (attempted st now r = if (MaxAttempts r1 <=? AttemptCount r1) || String.eqb (RequestStatus r1) StatusConfirmed then r1 <| CompletedAt := Some now |> else r1) as -> by done.
  assert (MaxAttempts r1 = 3 ∧ AttemptCount r1 = AttemptCount r + 1 ∧ CompletedAt r1 = CompletedAt r ∧ RequestCrashID r1 = RequestCrashID r) as (E1 & E2 & E3 & E4)
    by (unfold r1; by destruct st).
  rewrite E1, E2. destruct (Z.leb_spec 3 (AttemptCount r + 1)), (String.eqb_spec (RequestStatus r1) StatusConfirmed); cbn [orb];
    (split; [|split; [try exact E2|try exact E4]]); unfold request_ok; cbn; rewrite ?E1, ?E2, ?E3; (split_and!; [done|lia|lia|]); intros ?; try lia; auto.
  left. apply H3. lia.
Qed.

Lemma record_effect result c (s : service) : let s' := (RecordReproductionResult (Some result) c s).2 in
  requestStatus s' = requestStatus s ∧ (requests s' = requests s ∨ ∃ q st now r,
    requestStatus s !! ResultCrashID result = Some q ∧ requests s !! q = Some r ∧ requests s' = <[q := attempted st now r]> (requests s)).
Proof.
  unfold RecordReproductionResult. destruct (CreateReproductionResult result (storage s)) as [[e|] db]; [by split; [|left]|].
  cbn [requestStatus set_field]. destruct (requestStatus s !! ResultCrashID result) as [q|] eqn:Eq; [|by split; [|left]]. unfold score.
  cbn [service_scorer storage set_field].
  destruct (CalculateScore _ _ _ _ _ _ _) as [[sc|e|why] scorer]; [..|by split; [|left]]; cbn [snd]; unfold on_request; cbn [requests set_field];
    (destruct (requests s !! q) as [r|] eqn:Er; [|by split; [|left]]); (split; [done|right]); eexists q, _, _, r; by split_and!.
Qed.

Definition of_crash (s : service) (c : string) (ps : list nat) : nat := length (filter (λ p, RequestCrashID <$> requests s !! p = Some c) ps).
Record attempts_ok (s : service) (done : list nat) : Prop := {
  ao_status c p : requestStatus s !! c = Some p → RequestCrashID <$> requests s !! p = Some c;
  ao_request p r : requests s !! p = Some r → request_ok r ∧ AttemptCount r ≤ Z.of_nat (of_crash s (RequestCrashID r) done) }.

Lemma of_crash_mono (s s' : service) c ps : (∀ p c, RequestCrashID <$> requests s !! p = Some c → RequestCrashID <$> requests s' !! p = Some c) →
  (of_crash s c ps ≤ of_crash s' c ps)%nat.
Proof.
  intros H0. unfold of_crash. induction ps as [|p ps IH]; [done|]. rewrite !filter_cons. pose proof (H0 p c).
  case_decide as E1; case_decide as E2; cbn; try lia. by destruct E2; auto.
Qed.
Lemma of_crash_eq (s s' : service) c ps : requests s' = requests s → of_crash s' c ps = of_crash s c ps.
Proof. intros E. apply Nat.le_antisymm; apply of_crash_mono; intros p c'; by rewrite E. Qed.
Lemma of_crash_snoc (s : service) c ps p : RequestCrashID <$> requests s !! p = Some c → of_crash s c (ps ++ [p]) = S (of_crash s c ps).
Proof. intros E. unfold of_crash. rewrite filter_app, length_app, filter_cons_True by done. rewrite filter_nil. cbn. lia. Qed.

(** A change of one request that keeps its crash. *)
Lemma attempts_change (s s' : service) fin fin' q r r' : attempts_ok s fin → requests s !! q = Some r → requests s' = <[q := r']> (requests s) →
  RequestCrashID r' = RequestCrashID r → (∀ c p, requestStatus s' !! c = Some p → requestStatus s !! c = Some p ∨ (p = q ∧ c = RequestCrashID r)) →
  request_ok r' → (∀ c, (of_crash s c fin ≤ of_crash s c fin')%nat) → AttemptCount r' ≤ Z.of_nat (of_crash s (RequestCrashID r) fin') → attempts_ok s' fin'.
Proof.
  intros [H1 H2] Hq Hr Hc Hst Hok Hfin Hn.
  assert (∀ p, RequestCrashID <$> requests s' !! p = RequestCrashID <$> requests s !! p) as Hsame.
  { intros p. rewrite Hr. destruct (decide (p = q)) as [->|]; [|by rewrite list_lookup_insert_ne].
    rewrite list_lookup_insert_eq by (by eapply lookup_lt_Some). rewrite Hq. cbn. congruence. }
  assert (∀ c ps, of_crash s' c ps = of_crash s c ps) as Hcount.
  { intros c ps. apply Nat.le_antisymm; apply of_crash_mono; intros p c'; by rewrite Hsame. }
  split.
  - intros c p [Hx|[-> ->]]%Hst; rewrite Hsame; [by apply H1|by rewrite Hq].
  - intros p r0. rewrite Hcount, Hr. destruct (decide (p = q)) as [->|].
    + rewrite list_lookup_insert_eq by (by eapply lookup_lt_Some). intros [= <-]. by rewrite Hc.
    + rewrite list_lookup_insert_ne by done. intros Hx. destruct (H2 _ _ Hx) as [? ?]. split; [done|]. specialize (Hfin (RequestCrashID r0)). lia.
Qed.

Lemma simulated_crash r id now : ResultCrashID (simulated r id now) = RequestCrashID r.
Proof. unfold simulated. destruct (_ =? 0); [done|]. by destruct (_ =? 1). Qed.

Lemma step_attempts l s s' fin : (∀ o c, l ≠ LRecord o c) → attempts_ok s fin → step l s = (Ok tt, s') → attempts_ok s' (fin ++ finishes l s).
Proof.
  intros Hl Ha Hs. assert (∀ s1, requests s1 = requests s → requestStatus s1 = requestStatus s → attempts_ok s1 fin) as Hsame.
  { intros s1 E1 E2. destruct Ha as [H1 H2]. split; [by rewrite E2, E1|]. intros p r. rewrite E1, (of_crash_eq s s1) by done. apply H2. }
  destruct l as [crashID priority id now1 now2|o c| |now|i id now c|]; cbn [step] in Hs; unfold finishes.
  - rewrite app_nil_r. assert (s' = (QueueReproduction crashID priority id now1 now2 s).2) as ->.
    { unfold ignore in Hs. by destruct (QueueReproduction _ _ _ _ _ s) as [[] ?]; simplify_eq. }
    unfold QueueReproduction. destruct (String.eqb crashID ""); [by apply Hsame|]. destruct (GetCrash _ _) as [[crash|]|]; [|by apply Hsame..].
    destruct Ha as [H1 H2]. cbn [snd]. set (rq := mkRequest _ _ _ _ _ _ _ _ _ _ _ _). set (s1 := set_field _ _ _ : service).
    assert (requests s1 = requests s ++ [rq]) as E1 by done. assert (requestStatus s1 = <[crashID := length (requests s)]> (requestStatus s)) as E2 by done. clearbody s1.
    assert (∀ p c, RequestCrashID <$> requests s !! p = Some c → RequestCrashID <$> requests s1 !! p = Some c) as Hold.
    { intros p c Hp. rewrite E1, lookup_app_l; [done|]. apply lookup_lt_is_Some. destruct (requests s !! p); [by eexists|done]. }
    split.
    + intros c p. rewrite E2. intros [[<- <-]|[Hne Hp]]%lookup_insert_Some; [by rewrite E1, list_lookup_middle|]. by apply Hold, H1.
    + intros p r. rewrite E1. intros [Hp|[_ Hp]]%lookup_app_Some.
      * destruct (H2 p r Hp) as [? ?]. split; [done|]. pose proof (of_crash_mono s s1 (RequestCrashID r) fin Hold). lia.
      * apply list_lookup_singleton_Some in Hp as [_ <-]. split; [|cbn; lia]. unfold request_ok, rq. cbn. split_and!; [done|lia|done|by left].
  - by destruct (Hl o c).
  - rewrite app_nil_r. assert (requests s' = requests s ∧ requestStatus s' = requestStatus s) as [E1 E2]; [|by apply Hsame].
    unfold queue_tick in Hs. destruct (priorityQueue s); [by injection Hs as <-|]. destruct (pop_request _) as [[x queue]|]; [|done].
    cbn [stopped set_field] in Hs. destruct (stopped s); [done|]. destruct (_ <? _)%nat; [by injection Hs as <-|].
    destruct (pop_request queue) as [[]|]; [by injection Hs as <-|done].
  - rewrite app_nil_r. unfold worker_receives in Hs. destruct (requestQueue s) as [|p rest]; [injection Hs as <-; by apply Hsame|].
    destruct (_ <? _)%nat; [|injection Hs as <-; by apply Hsame]. unfold start_processing in Hs. cbn [requests set_field] in Hs.
    destruct (requests s !! p) as [r|] eqn:Er; [|done]. unfold on_request in Hs. cbn [requests set_field] in Hs. rewrite Er in Hs. injection Hs as <-.
    destruct (ao_request _ _ Ha p r Er) as [Hok Hn].
    eapply (attempts_change s _ fin fin p r (r <| StartedAt := Some now |>)); [done|done|reflexivity|reflexivity| |exact Hok|done|exact Hn].
    cbn. intros c q [[<- <-]|[_ Hq]]%lookup_insert_Some; auto.
  - unfold worker_finishes in Hs. destruct (busy s !! i) as [p|]; [|injection Hs as <-; rewrite app_nil_r; by apply Hsame].
    unfold finish_processing in Hs. cbn [requests set_field] in Hs. destruct (requests s !! p) as [r|] eqn:Er; [|done].
    assert (∀ c0, (of_crash s c0 fin ≤ of_crash s c0 (fin ++ [p]))%nat) as Hmore.
    { intros c0. unfold of_crash. rewrite filter_app, length_app. lia. }
    set (s1 := mkService _ _ _ _ _ _ _ _ _) in Hs. pose proof (record_effect (simulated r id now) c s1) as He.
    assert (s' = (RecordReproductionResult (Some (simulated r id now)) c s1).2) as E'.
    { unfold ignore in Hs. by destruct (RecordReproductionResult _ _ s1) as [[] ?]; simplify_eq. }
    cbv zeta in He. rewrite <- E' in He. rewrite simulated_crash in He. destruct He as [Est [Eq|(q & st & t & rq & Hq & Hrq & Eq)]].
    + change (requestStatus s1) with (requestStatus s) in Est. change (requests s1) with (requests s) in Eq. destruct Ha as [H1 H2]. split; [by rewrite Est, Eq|].
      intros p0 r0. rewrite Eq, (of_crash_eq s s') by done. intros Hp. destruct (H2 _ _ Hp) as [? ?]. split; [done|].
      specialize (Hmore (RequestCrashID r0)). lia.
    + change (requestStatus s1) with (requestStatus s) in *. change (requests s1) with (requests s) in *. destruct (ao_request _ _ Ha q rq Hrq) as [Hok Hn].
      destruct (attempted_ok st t rq Hok) as (A1 & A2 & A3). assert (RequestCrashID rq = RequestCrashID r) as Hc.
      { pose proof (ao_status _ _ Ha _ _ Hq) as Hx. rewrite Hrq in Hx. by injection Hx. }
      eapply (attempts_change s s' fin _ q rq); [exact Ha|exact Hrq|exact Eq|exact A3| |exact A1|exact Hmore|].
      * intros c0 p0. rewrite Est. auto.
      * rewrite A2, of_crash_snoc; [lia|]. rewrite Er. cbn. by rewrite Hc.
  - rewrite app_nil_r. unfold Stop in Hs. destruct (stopped s); [done|]. injection Hs as <-. by apply Hsame.
Qed.

Lemma run_attempts ls s0 s fin : (∀ o c, LRecord o c ∉ ls) → attempts_ok s0 fin → run ls s0 = (Ok tt, s) → attempts_ok s (fin ++ along finishes ls s0).
Proof.
  revert s0 fin. induction ls as [|l ls IH]; intros s0 fin Hl Ha Hs.
  - injection Hs as <-. cbn. by rewrite app_nil_r.
  - cbn [run] in Hs. unfold io_bind in Hs. destruct (step l s0) as [[[]|e|w] s1] eqn:E1; [|done..]. cbn [along]. rewrite E1, app_assoc. cbn [snd].
    apply IH; [|eapply step_attempts; [|done|done]|done].
    + intros o c Hin. apply (Hl o c). by right.
    + intros o c ->. apply (Hl o c). by left.
Qed.

(** A request has one attempt.  Every request may take three, but the service
    never queues one again: a request that is the only one of its crash is
    attempted at most once, whatever happens, and it is completed only if that
    attempt confirmed the crash. *)
Theorem one_attempt (jobExecution : option Duration) (db : D) (ls : list label) (s : service) (p : nat) (r : ReproductionRequest)
    (Hrun : run ls (initial jobExecution db) = (Ok tt, s)) (Hown : ∀ o c, LRecord o c ∉ ls) (Hr : requests s !! p = Some r)
    (Honly : ∀ q r', requests s !! q = Some r' → RequestCrashID r' = RequestCrashID r → q = p) :
  MaxAttempts r = 3 ∧ AttemptCount r ≤ 1 ∧ (CompletedAt r = None ∨ RequestStatus r = StatusConfirmed).
Proof.
  pose proof (initial_accounts _ _ _ _ Hrun) as Hp. set (fin := along finishes ls _) in *.
  assert (NoDup fin) as Hnd.
  { pose proof (NoDup_seq 0 (length (requests s))) as Hn. rewrite <- Hp in Hn. apply NoDup_app in Hn as (_ & _ & Hn). by apply NoDup_app in Hn as (_ & _ & Hn). }
  assert (attempts_ok s fin) as Ha.
  { apply (run_attempts ls _ s [] Hown) in Hrun; [done|]. split; [done|]. intros q r0 Hq. change (requests _) with (@nil ReproductionRequest) in Hq. by rewrite lookup_nil in Hq. }
  destruct (ao_request _ _ Ha p r Hr) as [(H1 & H2 & H3 & H4) Hn].
  assert (of_crash s (RequestCrashID r) fin ≤ 1)%nat as Hle.
  { unfold of_crash. apply (NoDup_filter (λ q, RequestCrashID <$> requests s !! q = Some (RequestCrashID r))) in Hnd.
    assert (∀ q, q ∈ filter (λ q, RequestCrashID <$> requests s !! q = Some (RequestCrashID r)) fin → q = p) as Hall.
    { intros q [Hq _]%list_elem_of_filter. destruct (requests s !! q) as [r'|] eqn:E; [|done]. injection Hq as Hq. by apply (Honly q r'). }
    destruct (filter _ fin) as [|x [|y l]]; [cbn; lia..|]. apply NoDup_cons in Hnd as [Hx _]. destruct Hx.
    rewrite (Hall x), (Hall y) by (try (by left); right; by left). by left. }
  split_and!; [done|lia|]. apply H4. lia.
Qed.

(** The simulated first attempt always reproduces another crash. *)
Lemma first_attempt_mismatch r id now : AttemptCount r = 0 → Reproduced (simulated r id now) = true ∧ success (simulated r id now) = false.
Proof. intros E. unfold simulated. by rewrite E. Qed.

(** A new result does not count for five minutes.  While the last score of a crash
    is recent, recording a result stores it and counts the attempt, but the status
    is the one of that score, whatever the result. *)
Theorem status_lags (result : ReproductionResult) (c : Clocks) (s : service) (db : D) (p : nat) (cached : ReproducibilityScore)
    (Hstore : CreateReproductionResult result (storage s) = (None, db)) (Hp : requestStatus s !! ResultCrashID result = Some p)
    (Hfresh : fresh (service_scorer s) (ResultCrashID result) (at_cache c) = Some cached) :
  RecordReproductionResult (Some result) c s = (Ok tt, on_request p (attempted (Some (ScoreStatus cached)) (at_end c)) (s <| storage := db |>)).
Proof.
  unfold RecordReproductionResult. rewrite Hstore. cbn [requestStatus set_field]. rewrite Hp. unfold score. cbn [service_scorer storage set_field].
  by rewrite (cached_score order _ _ _ _ db _ cached Hfresh).
Qed.
End service.

(** ** Runs of a service *)

Definition test_clocks : Clocks := mkClocks 10 10 10 10.
Definition test_service : reproducibilityService (list ReproductionResult) := NewReproducibilityService None [].
Definition one_cycle : list label := [LQueue "c" 5 "r1" 1 1; LTick; LReceive 2; LFinish 0 "res" 3 test_clocks].
Definition after (ls : list label) : reproducibilityService (list ReproductionResult) := (run forwards ls test_service).2.

Lemma requests_accounted_witness : along forwards finishes one_cycle test_service = [0%nat] ∧ NoDup (places (after one_cycle) ++ [] ++ [0%nat]).
Proof.
  assert (run forwards one_cycle test_service = (Ok tt, after one_cycle)) as E by (vm_compute; reflexivity).
  destruct (requests_accounted forwards None [] one_cycle (after one_cycle) E) as [H _].
  split; [vm_compute; reflexivity|]. change (along forwards dropped one_cycle (NewReproducibilityService None [])) with (@nil nat) in H.
  exact H.
Defined.
Lemma one_attempt_witness : ∃ r, requests (after one_cycle) !! 0%nat = Some r ∧ AttemptCount r ≤ 1.
Proof.
  assert (run forwards one_cycle test_service = (Ok tt, after one_cycle)) as E by (vm_compute; reflexivity).
  destruct (requests (after one_cycle) !! 0%nat) as [r|] eqn:Er; [|vm_compute in Er; discriminate Er].
  exists r. split; [reflexivity|].
  apply (one_attempt forwards None [] one_cycle (after one_cycle) 0 r E).
  - intros o c H. repeat (apply elem_of_cons in H as [H|H]; [discriminate H|]). by apply not_elem_of_nil in H.
  - exact Er.
  - intros [|[|q]] r' Hq _; [reflexivity|vm_compute in Hq; discriminate Hq..].
Defined.

(** Seven requests and a channel of five: the sixth tick drops the most urgent of the
    two that are left, and the seventh would end the service. *)
Definition fill (n : nat) : list label := (λ i, LQueue (pretty (Z.of_nat i)) (Z.of_nat i) "r" 1 1) <$> seq 0 n.
Definition crowding : list label := fill 7 ++ repeat LTick 5.
Definition crowded : reproducibilityService (list ReproductionResult) := after crowding.
Example dropped_and_dead : along forwards dropped (crowding ++ [LTick]) test_service = [1%nat] ∧
  (run forwards (crowding ++ [LTick; LTick]) test_service).1 = Panic "index out of range".
Proof. split; vm_compute; reflexivity. Qed.
Lemma crowded_sizes : (length (requestQueue crowded), workers crowded, length (priorityQueue crowded)) = (5, 5, 2)%nat.
Proof. vm_compute. reflexivity. Qed.
Lemma crowded_runs : stopped crowded = false.
Proof. vm_compute. reflexivity. Qed.
Lemma crowded_heap : heap_ok (priorityQueue crowded).
Proof.
  assert (run forwards crowding test_service = (Ok tt, crowded)) as E by (vm_compute; reflexivity).
  exact (proj1 (run_accounts forwards crowding test_service crowded (is_heap_nil _) E)).
Qed.
Lemma tick_exact_witness : ∃ x, (queue_tick crowded).1 = Ok tt ∧ pointer x :: (pointer <$> priorityQueue (queue_tick crowded).2) ≡ₚ pointer <$> priorityQueue crowded.
Proof.
  pose proof (tick_exact crowded crowded_heap crowded_runs) as H. pose proof crowded_sizes as E.
  revert H E. generalize crowded as s. intros s H E. injection E as E1 E2 E3.
  destruct (priorityQueue s) as [|z l]; [discriminate E3|]. rewrite E1, E2, E3 in H. destruct H as (x & _ & H). exists x.
  destruct (queue_tick s) as [res s']. destruct H as (_ & _ & H1 & H2). split; [exact H2|exact H1].
Defined.

Definition scored : reproducibilityService (list ReproductionResult) := after (one_cycle ++ one_cycle).
Definition next_result : ReproductionResult := simulated (mkRequest "r3" "c" "" "" StatusTesting 0 2 3 0 None None 0) "res3" 4.
Lemma status_lags_witness : (RecordReproductionResult forwards (Some next_result) test_clocks scored).1 = Ok tt ∧ AttemptCount <$> requests (RecordReproductionResult forwards (Some next_result) test_clocks scored).2 !! 1%nat = Some 2.
Proof.
  destruct (fresh (service_scorer scored) (ResultCrashID next_result) (at_cache test_clocks)) as [cached|] eqn:Ef; [|vm_compute in Ef; discriminate Ef].
  assert (∃ r, requests scored !! 1%nat = Some r ∧ AttemptCount r = 1) as (r & Er & Ea) by (eexists; split; vm_compute; reflexivity).
  assert (requestStatus scored !! ResultCrashID next_result = Some 1%nat) as Ep by (vm_compute; reflexivity).
  revert Ef Er Ep. generalize scored as s. intros s Ef Er Ep.
  rewrite (status_lags forwards next_result test_clocks s (storage s ++ [next_result]) 1 cached); [|reflexivity|exact Ep|exact Ef].
  split; [reflexivity|]. unfold on_request. cbn [requests set_field]. rewrite Er. cbn [snd requests set_field].
  rewrite list_lookup_insert_eq by (by eapply lookup_lt_Some). cbn [fmap option_fmap option_map].
  unfold attempted. destruct (_ || _); cbn; rewrite Ea; reflexivity.
Defined.
