(* ===== verification/BotWork.v ===== *)
(** * The work of a bot: src/pkg/bot/agent.go

    The work cycle of the agent, with the jobs that client.go makes of the
    replies of the master, the cache of api.go and the fuzzers that
    executor_fuzzer.go knows.  Jobs are reached through pointers (positions in
    [jobs]): the current job and the goroutines that prepare and execute a job
    share them.  A handler is one step, and the clock is a sequence of readings
    in the state.  The master and the fuzzers are classes.  Runs that switch
    goroutines within a handler are not modelled; one matters: [getJobCrashes]
    reads the current job three times without the lock of the agent, so that a
    work cycle that clears it in between makes it dereference nil. *)

From Stdlib Require Import Lia Strings.String Strings.Ascii.
From S2P Require Import Prelude MasterTypes CrashTypes Paths JobOutcome.

(** ** What the agent works with *)

(** A job in a reply of the API; durations in seconds. *)
Record apiV1Job := mkApiJob {
  ApiID : string; ApiName : string; ApiFuzzer : string; ApiTarget : string; ApiStatus : MJobStatus; ApiAssignedBotID : option string;
  ApiWorkDir : string; ApiDuration : Z; ApiTimeout : Z; ApiMemoryLimit : Z; ApiCreatedAt : Time; ApiStartedAt : option Time; ApiCompletedAt : option Time;
  ApiEnableCoverage : bool; ApiCoverageFormat : string }.

(** The master, through the retries of the client. *)
Class MasterLink (M : Type) := {
  next_job : string → M → (option apiV1Job + goerror) * M;
  reproduction_request : string → M → (bool + goerror) * M;
  post_ack : string → string → string → M → (bool * string + goerror) * M;
  post_completion : string → string → bool → string → M → (bool * string + goerror) * M;
  post_heartbeat : string → BotStatus → option string → M → option goerror * M;
  push_logs : string → string → string → M → option goerror * M }.
Class Fuzzing (F : Type) := {
  fuzz_IsRunning : F → bool;
  fuzz_Stop : F → option goerror * F;
  fuzz_Cleanup : F → option goerror * F }.
(** The disk of the bot: whether a file exists, its lines as a [bufio.Scanner]
    reads them, its bytes, and the entries of a directory (a name and whether it is
    a directory); [None] is an error. *)
Record Disk := mkDisk {
  file_exists : string → bool; scan_lines : string → option (list string); read_file : string → option bytes; read_dir : string → option (list (string * bool)) }.

Record JobStatus := mkJobStatus {
  StJobID : string; StStatus : string; StStart : Time; StEnd : Time; StSuccess : bool; StMessage : string; StOutput : string;
  StCrashCount : Z; StCrashes : list CrashResult; UpdatedAt : Time }.
#[export] Instance JobStatus_eta : Eta JobStatus := fun s =>
  mkJobStatus (StJobID s) (StStatus s) (StStart s) (StEnd s) (StSuccess s) (StMessage s) (StOutput s) (StCrashCount s) (StCrashes s) (UpdatedAt s).

(** What a goroutine does with its job. *)
Inductive phase := Preparing | Executing.

Record Agent (M F : Type) := mkAgent {
  jobs : list MJob; currentJob : option nat; background : list (nat * phase); leases : list nat; activeFuzzers : gmap string F;
  jobCache : gmap string JobStatus; link : M; agentID : string; configID : string; baseWorkDir : string; mu_locked : bool; clock : nat → Time; ticks : nat;
  jobStartTime : Time; currentJobCrashes : Z; statCompleted : Z; statFailed : Z; ConnectionErrors : Z; HeartbeatsSent : Z;
  jobsCompleted : Z; jobsFailed : Z; CurrentStatus : string; lastHeartbeat : Time }.
Arguments mkAgent {M F}. Arguments jobs {M F}. Arguments currentJob {M F}. Arguments background {M F}. Arguments leases {M F}.
Arguments activeFuzzers {M F}. Arguments jobCache {M F}. Arguments link {M F}. Arguments agentID {M F}. Arguments configID {M F}. Arguments baseWorkDir {M F}.
Arguments mu_locked {M F}. Arguments clock {M F}. Arguments ticks {M F}. Arguments jobStartTime {M F}. Arguments currentJobCrashes {M F}.
Arguments statCompleted {M F}. Arguments statFailed {M F}. Arguments ConnectionErrors {M F}. Arguments HeartbeatsSent {M F}.
Arguments jobsCompleted {M F}. Arguments jobsFailed {M F}. Arguments CurrentStatus {M F}. Arguments lastHeartbeat {M F}.
#[export] Instance Agent_eta {M F} : Eta (Agent M F) := fun a =>
  mkAgent (jobs a) (currentJob a) (background a) (leases a) (activeFuzzers a) (jobCache a) (link a) (agentID a) (configID a) (baseWorkDir a) (mu_locked a)
    (clock a) (ticks a) (jobStartTime a) (currentJobCrashes a) (statCompleted a) (statFailed a) (ConnectionErrors a) (HeartbeatsSent a)
    (jobsCompleted a) (jobsFailed a) (CurrentStatus a) (lastHeartbeat a).
Definition NewAgent {M F} (botID workDir : string) (m : M) (clock : nat → Time) : Agent M F :=
  mkAgent [] None [] [] ∅ ∅ m botID botID workDir false clock 0 zero_time 0 0 0 0 0 0 0 "running" zero_time.

Definition NewNetworkError (op : string) (err : goerror) : goerror := ErrPanda "network" op err.

Section agent.
Context {M F : Type} {ML : MasterLink M} {FZ : Fuzzing F} (disk : Disk) (sha256_hex : bytes → string).
(** The order of an iteration over the cache. *)
Context (cache_order : gmap string JobStatus → list (string * JobStatus)).
Abbreviation agent := (Agent M F) (only parsing).

Definition Now : io agent Time := λ a, (Ok (clock a (ticks a)), a <| ticks := S (ticks a) |>).
(** Taking the lock of the agent: whoever holds it already waits for ever. *)
Definition lock : io agent unit := λ a, if mu_locked a then (Panic "deadlock", a) else (Ok tt, a).
Definition job_at (a : agent) (p : nat) : option MJob := jobs a !! p.
Definition on_job (p : nat) (f : MJob → MJob) (a : agent) : agent :=
  match jobs a !! p with Some j => a <| jobs := <[p := f j]> (jobs a) |> | None => a end.
Definition ask {X} (f : M → X * M) : io agent X := λ a, let '(x, m) := f (link a) in (Ok x, a <| link := m |>).

(** ** The client *)

Definition job_of_api (j : apiV1Job) : MJob :=
  mkMJob (ApiID j) (ApiName j) (ApiTarget j) (ApiFuzzer j) "" (ApiStatus j) (ApiAssignedBotID j) (ApiCreatedAt j) (ApiStartedAt j) (ApiCompletedAt j)
    zero_time (ApiWorkDir j) (mkJobConfig (wrap64 (ApiDuration j * Second)) (ApiMemoryLimit j) (wrap64 (ApiTimeout j * Second)) "" [] "") 0 None None false None 0
    (ApiEnableCoverage j) (ApiCoverageFormat j) None None None None.
Definition GetJob (botID : string) : io agent (option MJob + goerror) :=
  let* r := ask (next_job botID) in
  io_ret (match r with inl o => inl (job_of_api <$> o) | inr err => inr (NewNetworkError "get_job" err) end).
Definition AckJobWithToken (botID jobID leaseToken : string) : io agent (option goerror) :=
  let* r := ask (post_ack botID jobID leaseToken) in
  io_ret (match r with
          | inl (true, _) => None
          | inl (false, message) => Some (NewValidationError "ack_job" (ErrNew ("acknowledgment failed: " +:+ message)))
          | inr err => Some (NewNetworkError "ack_job" err)
          end).
Definition CompleteJob (botID jobID : string) (success : bool) (message : string) : io agent (option goerror) :=
  let* r := ask (post_completion botID jobID success message) in
  io_ret (match r with
          | inl (true, _) => None
          | inl (false, why) => Some (NewNetworkError "complete_job" (ErrNew ("master did not acknowledge completion: " +:+ why)))
          | inr err => Some (NewNetworkError "complete_job" err)
          end).

(** ** The executor *)

Definition IsJobRunning (jobID : string) (a : agent) : bool :=
  match activeFuzzers a !! jobID with Some f => fuzz_IsRunning f | None => false end.
Definition StopJob (jobID : string) : io agent (option goerror) := λ a,
  match activeFuzzers a !! jobID with
  | None => (Ok (Some (ErrNew ("job " +:+ jobID +:+ " not found"))), a)
  | Some f => let '(err, f) := fuzz_Stop f in (Ok err, a <| activeFuzzers := <[jobID := f]> (activeFuzzers a) |>)
  end.
Definition CleanupJob (jobID : string) : io agent (option goerror) := λ a,
  match activeFuzzers a !! jobID with
  | None => (Ok None, a)
  | Some f =>
      let f := if fuzz_IsRunning f then (fuzz_Stop f).2 else f in
      (Ok (fuzz_Cleanup f).1, a <| activeFuzzers := delete jobID (activeFuzzers a) |>)
  end.

(** ** The cache *)

Definition older (best : Time * string) (kv : string * JobStatus) : Time * string :=
  if time_before (UpdatedAt kv.2) best.1 then (UpdatedAt kv.2, kv.1) else best.
Definition UpdateJobStatus (jobID : string) (status : JobStatus) : io agent unit :=
  let* now := Now in
  let* _ := io_set (λ a, a <| jobCache := <[jobID := status <| UpdatedAt := now |>]> (jobCache a) |>) in
  let* large := io_get (λ a : agent, (100 <? size (jobCache a))%nat) in
  if large then
    let* oldest := Now in
    io_set (λ a, a <| jobCache := delete (fold_left older (cache_order (jobCache a)) (oldest, "")).2 (jobCache a) |>)
  else io_ret tt.

Definition findCrashFiles (workDir : string) : option (list string) :=
  entries ← read_dir disk workDir;
  Some ((λ e : string * bool, JoinPath [workDir; e.1]) <$> List.filter (λ e, negb e.2 && HasPrefix e.1 "crash-") entries).
(** The last [n] lines of what was read so far. *)
Definition keep_last (n : nat) (lines : list string) (line : string) : list string :=
  let lines := lines ++ [line] in if (n <? length lines)%nat then tl lines else lines.
Definition nl : string := String (ascii_of_nat 10) "".
Definition tailFile (filePath : string) (n : nat) : string :=
  match scan_lines disk filePath with Some lines => String.concat nl (fold_left (keep_last n) lines []) | None => "" end.
Definition hashCrashInput (data : bytes) : string := sha256_hex data.
Definition crash_of_file (jobID botID : string) (now : Time) (path : string) (data : bytes) : CrashResult :=
  mkCrash (jobID +:+ "_" +:+ Base path) jobID botID "" (hashCrashInput data) path "libfuzzer" 0 0 now (len data) false data "" "" "" false false None.
Definition getJobCrashes (jobID : string) (now : Time) (a : agent) : list CrashResult :=
  let crashes :=
    match currentJob a with
    | Some p =>
        match job_at a p with
        | Some job =>
            if String.eqb (JobID job) jobID
            then omap (λ path, crash_of_file jobID (agentID a) now path <$> read_file disk path) (default [] (findCrashFiles (WorkDir job)))
            else []
        | None => []
        end
    | None => []
    end in
  match jobCache a !! jobID with
  | Some st => if String.eqb (StStatus st) "completed" then match StCrashes st with [] => crashes | cs => cs end else crashes
  | None => crashes
  end.
(** [MarkJobCompleted] and [MarkJobPendingCompletion]. *)
Definition mark (status jobID : string) (success : bool) (message output : string) : io agent unit :=
  let* ended := Now in
  let* a := io_get id in
  let st := mkJobStatus jobID status (jobStartTime a) ended success message output 0 [] zero_time in
  let* st :=
    match currentJob a with
    | Some _ =>
        let st := st <| StCrashCount := currentJobCrashes a |> in
        if 0 <? currentJobCrashes a then
          let* now := Now in
          let crashes := getJobCrashes jobID now a in
          io_ret (match crashes with [] => st | _ => st <| StCrashes := crashes |> end)
        else io_ret st
    | None => io_ret st
    end in
  UpdateJobStatus jobID st.
Definition MarkJobCompleted := mark "completed".
Definition MarkJobPendingCompletion := mark "pending_ack".

(** ** The end of a job *)

(** The current job gets its time-out if it still is the job that was completed. *)
Definition set_recovery (jobID : string) (t : Time) (a : agent) : agent :=
  match currentJob a with
  | Some p =>
      match job_at a p with
      | Some j => if String.eqb (JobID j) jobID then on_job p (λ j, j <| RecoveryTimeout := Some t |>) a else a
      | None => a
      end
  | None => a
  end.
(** What follows once the current job is known. *)
Definition report_completion (job : MJob) (success : bool) (message : string) : io agent unit :=
  let* botID := io_get configID in
  let logPath := JoinPath [WorkDir job; "job.log"] in
  let logged := file_exists disk logPath in
  let* _ := if logged then ignore (ask (push_logs (JobID job) botID logPath)) else io_ret tt in
  let lastLines := if logged then tailFile logPath 50 else "" in
  let output := "Job completed: " +:+ message in
  let output := if String.eqb lastLines "" then output else output +:+ nl +:+ nl +:+ "--- Last 50 lines of log ---" +:+ nl +:+ lastLines in
  let* _ := MarkJobCompleted (JobID job) success message output in
  let* err := CompleteJob botID (JobID job) success message in
  match err with
  | Some _ =>
      let* _ := io_set (λ a, a <| ConnectionErrors := ConnectionErrors a + 1 |>) in
      let* _ := MarkJobPendingCompletion (JobID job) success message "" in
      let* recoveryTime := Now in
      io_set (set_recovery (JobID job) (recoveryTime + 2 * Minute))
  | None =>
      let* _ := io_set (λ a, if success then a <| jobsCompleted := jobsCompleted a + 1 |> else a <| jobsFailed := jobsFailed a + 1 |>) in
      let* _ := StopJob (JobID job) in
      io_set (λ a, a <| currentJob := None |> <| CurrentStatus := "idle" |>)
  end.
Definition completeCurrentJob (success : bool) (message : string) : io agent unit :=
  let* _ := lock in
  let* current := io_get currentJob in
  match current with
  | None => io_ret tt
  | Some p =>
      let* job := io_get (λ a : agent, job_at a p) in
      match job with
      | None => λ a, (Panic "nil pointer dereference", a)
      | Some job => report_completion job success message
      end
  end.

Definition recoverFromStuckJob (jobID : string) : io agent unit :=
  let* running := io_get (IsJobRunning jobID) in
  let* _ := if running then ignore (StopJob jobID) else io_ret tt in
  let* _ := ignore (CleanupJob jobID) in
  let* _ := io_set (λ a, a <| currentJob := None |>) in
  let* _ := io_set (λ a, a <| statFailed := statFailed a + 1 |> <| CurrentStatus := "idle" |>) in
  MarkJobCompleted jobID false "Job recovered from stuck state" "Bot forced recovery due to timeout or zombie process".

(** ** The work cycle *)

Definition clear_if (jobID : string) (a : agent) : agent :=
  match currentJob a with
  | Some p => match job_at a p with Some j => if String.eqb (JobID j) jobID then a <| currentJob := None |> else a | None => a end
  | None => a
  end.
Fixpoint retry_acks (pendingJobs : list JobStatus) : io agent unit :=
  match pendingJobs with
  | [] => io_ret tt
  | st :: rest =>
      let* botID := io_get configID in
      let* err := CompleteJob botID (StJobID st) (StSuccess st) (StMessage st) in
      let* _ := match err with
                | Some _ => io_ret tt
                | None =>
                    let* _ := MarkJobCompleted (StJobID st) (StSuccess st) (StMessage st) (StOutput st) in
                    io_set (clear_if (StJobID st))
                end in
      retry_acks rest
  end.
(** The age of each status is read from the clock; here once for all. *)
Definition retryPendingAcknowledgments : io agent unit :=
  let* now := Now in
  let* cached := io_get (λ a : agent, (cache_order (jobCache a)).*2) in
  retry_acks (List.filter (λ st, String.eqb (StStatus st) "pending_ack" && (30 * Second <? time_sub now (UpdatedAt st))) cached).

Definition continueCurrentJob : io agent unit :=
  let* a := io_get id in
  match currentJob a ≫= job_at a with
  | None => io_ret tt
  | Some job =>
      if negb (IsJobRunning (JobID job) a) then recoverFromStuckJob (JobID job)
      else
        let* now := Now in
        if time_after now (JobTimeoutAt job) then ignore (StopJob (JobID job))
        else
          let* r := GetJob (configID a) in
          match r with
          | inr _ => io_ret tt
          | inl masterJob =>
              match masterJob with
              | Some mj =>
                  if negb (String.eqb (JobID mj) (JobID job)) then
                    let* _ := ignore (StopJob (JobID job)) in completeCurrentJob false "Job cancelled or reassigned"
                  else if existsb (String.eqb (JobState mj)) [JobStatusCancelled; JobStatusCompleted; JobStatusFailed] then
                    let* _ := ignore (StopJob (JobID job)) in
                    let* _ := ignore (CleanupJob (JobID job)) in
                    io_set (λ a, a <| currentJob := None |>)
                  else io_ret tt
              | None => let* _ := ignore (StopJob (JobID job)) in completeCurrentJob false "Job cancelled or reassigned"
              end
          end
  end.

(** The lease of a job, which gets the next pointer, is accepted first. *)
Definition accept_lease (botID : string) (job : MJob) : io agent bool :=
  match LeaseToken job with
  | Some token =>
      if String.eqb token "" then io_ret true
      else
        let* err := AckJobWithToken botID (JobID job) token in
        match err with
        | Some _ => io_ret false
        | None => let* _ := io_set (λ a, a <| leases := leases a ++ [length (jobs a)] |>) in io_ret true
        end
  | None => io_ret true
  end.
Definition receive (job : MJob) (a : agent) : agent := a <| jobs := jobs a ++ [job] |> <| currentJob := Some (length (jobs a)) |>.
Definition take_job (job : MJob) : io agent unit :=
  let* p := io_get (λ a : agent, length (jobs a)) in
  let* _ := io_set (receive job) in
  let* start := Now in
  let* updated := Now in
  let* _ := UpdateJobStatus (JobID job) (mkJobStatus (JobID job) "preparing" start zero_time false "Job received, preparing environment" "" 0 [] updated) in
  io_set (λ a, a <| background := background a ++ [(p, Preparing)] |>).
Definition requestNewJob : io agent unit :=
  let* botID := io_get configID in
  let* r := GetJob botID in
  match r with
  | inr _ => io_set (λ a, a <| ConnectionErrors := ConnectionErrors a + 1 |>)
  | inl None => io_ret tt
  | inl (Some job) =>
      if String.eqb (JobID job) "" then io_ret tt
      else
        let* accepted := accept_lease botID job in
        if accepted then take_job job else io_ret tt
  end.

Definition processWorkCycle : io agent unit :=
  let* a := io_get id in
  let current := currentJob a ≫= job_at a in
  let recoveryTimeout := current ≫= RecoveryTimeout in
  let* _ := retryPendingAcknowledgments in
  let* expired :=
    match current, recoveryTimeout with
    | Some _, Some t => if t =? zero_time then io_ret false else let* now := Now in io_ret (time_after now t)
    | _, _ => io_ret false
    end in
  let* now_current := io_get (λ a : agent, currentJob a ≫= job_at a) in
  match (if expired then now_current else None) with
  | Some job => recoverFromStuckJob (JobID job)
  | None =>
      match current with
      | Some _ => continueCurrentJob
      | None =>
          let* r := ask (reproduction_request (configID a)) in
          match r with inl true => io_ret tt | _ => requestNewJob end
      end
  end.

(** The master may give the bot another id. *)
Definition registerWithMaster (response : string + goerror) : io agent (option goerror) :=
  match response with
  | inl botID => let* _ := io_set (λ a, a <| configID := botID |>) in io_ret None
  | inr err => let* _ := io_set (λ a, a <| ConnectionErrors := ConnectionErrors a + 1 |>) in io_ret (Some err)
  end.
Definition sendHeartbeat : io agent unit :=
  let* a := io_get id in
  let current := currentJob a ≫= job_at a in
  let* err := ask (post_heartbeat (configID a) (match current with Some _ => BotStatusBusy | None => BotStatusIdle end) (JobID <$> current)) in
  match err with
  | Some _ => io_set (λ a, a <| ConnectionErrors := ConnectionErrors a + 1 |>)
  | None => let* now := Now in io_set (λ a, a <| HeartbeatsSent := HeartbeatsSent a + 1 |> <| lastHeartbeat := now |>)
  end.

(** ** The goroutine of a job *)

Definition set_phase (i : nat) (ph : option phase) (a : agent) : agent :=
  match background a !! i, ph with
  | Some (p, _), Some ph => a <| background := <[i := (p, ph)]> (background a) |>
  | Some _, None => a <| background := delete i (background a) |>
  | None, _ => a
  end.
Definition resolve_dir (base : string) (job : MJob) : MJob :=
  if IsAbs (WorkDir job) then job
  else job <| WorkDir := JoinPath [if String.eqb base "" then "./work" else base; "jobs"; WorkDir job] |>.
(** The preparation fails with a message, when the binary is in place or before, or
    the job is executed. *)
Definition prepare (i : nat) (failure : option (bool * string)) : io agent unit := λ a,
  match background a !! i with
  | Some (p, Preparing) =>
      let a := on_job p (resolve_dir (baseWorkDir a)) a in
      let a := match failure with
               | Some (false, _) => a
               | _ => on_job p (λ j, j <| Target := JoinPath [WorkDir j; "target_binary"] |>) a
               end in
      match failure with
      | Some (_, message) => completeCurrentJob false message (set_phase i None a)
      | None =>
          (let* now := Now in
           io_set (λ a, set_phase i (Some Executing) (a <| jobStartTime := now |> <| currentJobCrashes := 0 |> <| CurrentStatus := "executing_job" |>))) a
      end
  | _ => (Ok tt, a)
  end.
(** The executor knows the fuzzer of a job from its start on. *)
Definition fuzzer_starts (i : nat) (f : F) : io agent unit := λ a,
  match background a !! i with
  | Some (p, Executing) =>
      match jobs a !! p with Some job => (Ok tt, a <| activeFuzzers := <[JobID job := f]> (activeFuzzers a) |>) | None => (Ok tt, a) end
  | _ => (Ok tt, a)
  end.
(** What the classifier says of the end of a job, and the message of its completion. *)
Definition outcome_of (job : MJob) (err : option goerror) (duration : Duration) (crashesFound : Z) :=
  ClassifyJobOutcome err duration crashesFound (if 0 <? CfgDuration (JobCfg job) then CfgDuration (JobCfg job) else 0).
Definition end_message (outcome : JobOutcome) (crashesFound : Z) : string :=
  if Success outcome && ((0 <? crashesFound) && negb (Contains (Message outcome) "crash"))
  then Message outcome +:+ " (found " +:+ pretty crashesFound +:+ " crashes)" else Message outcome.
(** The end of [executeJob]: the error of the execution, and the crashes that were
    found and reported to the master, and those that could not be reported. *)
Definition execution_ends (i : nat) (err : option goerror) (duration : Duration) (crashesFound unreported : Z) : io agent unit := λ a,
  match background a !! i with
  | Some (p, Executing) =>
      match jobs a !! p with
      | None => (Ok tt, a)
      | Some job =>
          let outcome := outcome_of job err duration crashesFound in
          (let* _ := io_set (λ a, a <| currentJobCrashes := currentJobCrashes a + crashesFound |> <| ConnectionErrors := ConnectionErrors a + unreported |>) in
           let* _ := ignore (CleanupJob (JobID job)) in
           let* _ := io_set (set_phase i None) in
           if Success outcome then
             let* _ := io_set (λ a, a <| statCompleted := statCompleted a + 1 |>) in completeCurrentJob true (end_message outcome crashesFound)
           else
             let* _ := io_set (λ a, a <| statFailed := statFailed a + 1 |>) in completeCurrentJob false (end_message outcome crashesFound)) a
      end
  | _ => (Ok tt, a)
  end.

(** The start of [Stop] of a running agent: it holds the lock of the agent until it returns. *)
Definition Stop : io agent unit :=
  let* _ := lock in
  let* _ := io_set (λ a, a <| mu_locked := true |>) in
  let* current := io_get currentJob in
  let* _ := match current with Some _ => completeCurrentJob false "Agent shutdown" | None => io_ret tt end in
  io_set (λ a, a <| mu_locked := false |> <| CurrentStatus := "stopped" |>).

Inductive label :=
  | LCycle | LHeartbeat
  | LPrepare (i : nat) (failure : option (bool * string))
  | LFuzzer (i : nat) (f : F)
  | LEnd (i : nat) (err : option goerror) (duration : Duration) (crashesFound unreported : Z)
  | LRegister (response : string + goerror)
  | LStop.
Definition step (l : label) : io agent unit :=
  match l with
  | LCycle => processWorkCycle
  | LHeartbeat => sendHeartbeat
  | LPrepare i failure => prepare i failure
  | LFuzzer i f => fuzzer_starts i f
  | LEnd i err duration crashesFound unreported => execution_ends i err duration crashesFound unreported
  | LRegister response => ignore (registerWithMaster response)
  | LStop => Stop
  end.
Fixpoint run (ls : list label) : io agent unit :=
  match ls with [] => io_ret tt | l :: ls => let* _ := step l in run ls end.

(** ** No handler panics, and no job has a time-out or a lease *)

(** What [GetJob] keeps of a job of the master. *)
Definition fetched (j : MJob) : Prop :=
  JobTimeoutAt j = zero_time ∧ LeaseToken j = None ∧ LeaseExpiresAt j = None ∧ CampaignID j = None ∧ CollectionID j = None ∧ UseCampaignCorpus j = false ∧ JobType j = "".
Definition agent_ok (a : agent) : Prop :=
  mu_locked a = false ∧ leases a = [] ∧ Forall fetched (jobs a) ∧ (∀ p, currentJob a = Some p → is_Some (jobs a !! p)).
Definition safe {X} (m : io agent X) : Prop := ∀ a, agent_ok a → ∃ x, (m a).1 = Ok x ∧ agent_ok (m a).2.

Lemma safe_ret {X} (x : X) : safe (io_ret x).
Proof. intros a Ha. by exists x. Qed.
Lemma safe_get {X} (f : agent → X) : safe (io_get f).
Proof. intros a Ha. by exists (f a). Qed.
Lemma safe_bind {X Y} (m : io agent X) (k : X → io agent Y) : safe m → (∀ x, safe (k x)) → safe (io_bind m k).
Proof.
  intros Hm Hk a Ha. destruct (Hm a Ha) as (x & E & Ha'). unfold io_bind. destruct (m a) as [r a']. simpl in *. subst r. by apply Hk.
Qed.
Lemma safe_ignore {X} (m : io agent X) : safe m → safe (ignore m).
Proof.
  intros Hm a Ha. destruct (Hm a Ha) as (x & E & Ha'). unfold ignore. destruct (m a) as [r a']. simpl in *. subst r. by exists tt.
Qed.
Lemma safe_set (f : agent → agent) : (∀ a, agent_ok a → agent_ok (f a)) → safe (io_set f).
Proof. intros Hf a Ha. exists tt. split; [done | exact (Hf a Ha)]. Qed.
Lemma safe_ask {X} (f : M → X * M) : safe (ask f).
Proof. intros a Ha. unfold ask. destruct (f (link a)) as [x m]. by exists x. Qed.
Lemma safe_now : safe Now.
Proof. intros a Ha. by eexists. Qed.
Lemma safe_lock : safe lock.
Proof. intros a Ha. unfold lock. rewrite (proj1 Ha). by exists tt. Qed.
Lemma safe_stop jobID : safe (StopJob jobID).
Proof. intros a Ha. unfold StopJob. destruct (activeFuzzers a !! jobID) as [f|]; [destruct (fuzz_Stop f)|]; by eexists. Qed.
Lemma safe_cleanup jobID : safe (CleanupJob jobID).
Proof. intros a Ha. unfold CleanupJob. destruct (activeFuzzers a !! jobID) as [f|]; by eexists. Qed.
Lemma ok_forget a : agent_ok a → agent_ok (a <| currentJob := None |>).
Proof. intros (H1 & H2 & H3 & H4). repeat split; [done..|]. intros p E. discriminate. Qed.
Lemma ok_clear_if jobID a : agent_ok a → agent_ok (clear_if jobID a).
Proof.
  intros Ha. unfold clear_if. destruct (currentJob a) as [p|]; [|done]. destruct (job_at a p) as [j|]; [|done].
  destruct (String.eqb (JobID j) jobID); [by apply ok_forget | done].
Qed.
Lemma ok_on_job p f a : (∀ j, fetched j → fetched (f j)) → agent_ok a → agent_ok (on_job p f a).
Proof.
  intros Hf Ha. unfold on_job. destruct (jobs a !! p) as [j|] eqn:E; [|done]. destruct Ha as (H1 & H2 & H3 & H4). split_and!; [done..| |].
  - apply Forall_insert; [done|]. apply Hf. by eapply Forall_lookup_1.
  - intros q Hq. apply lookup_lt_is_Some. cbn. rewrite length_insert. by apply lookup_lt_is_Some, H4.
Qed.
Create HintDb agent.
#[local] Hint Resolve safe_ret safe_get safe_ask safe_now safe_lock safe_stop safe_cleanup safe_ignore : agent.
(** Goes through a handler call by call. *)
Ltac go_safe :=
  repeat first
    [ progress intros
    | progress cbv zeta
    | solve [eauto with agent nocore]
    | apply safe_bind
    | match goal with |- safe (if ?b then _ else _) => destruct b | |- safe (match ?x with _ => _ end) => destruct x end
    | apply safe_set; intros ? ?; solve [assumption | apply ok_forget; assumption | apply ok_clear_if; assumption] ].
Lemma safe_update jobID st : safe (UpdateJobStatus jobID st).
Proof. unfold UpdateJobStatus. go_safe. Qed.
#[local] Hint Resolve safe_update : agent.
Lemma safe_mark status jobID success message output : safe (mark status jobID success message output).
Proof. unfold mark. go_safe. Qed.
#[local] Hint Resolve safe_mark : agent.
Lemma safe_complete_job botID jobID success message : safe (CompleteJob botID jobID success message).
Proof. unfold CompleteJob. go_safe. Qed.
Lemma safe_get_job botID : safe (GetJob botID).
Proof. unfold GetJob. go_safe. Qed.
#[local] Hint Resolve safe_complete_job safe_get_job : agent.
Lemma safe_recover jobID : safe (recoverFromStuckJob jobID).
Proof. unfold recoverFromStuckJob, MarkJobCompleted. go_safe. Qed.
Lemma safe_retry_acks l : safe (retry_acks l).
Proof. induction l as [|st l IH]; cbn [retry_acks]; unfold MarkJobCompleted; go_safe. Qed.
Lemma safe_retry : safe retryPendingAcknowledgments.
Proof. unfold retryPendingAcknowledgments. go_safe. apply safe_retry_acks. Qed.
Lemma ok_set_recovery jobID t a : agent_ok a → agent_ok (set_recovery jobID t a).
Proof.
  intros Ha. unfold set_recovery. destruct (currentJob a) as [p|]; [|done]. destruct (job_at a p) as [j|]; [|done].
  destruct (String.eqb (JobID j) jobID); [by apply ok_on_job | done].
Qed.
Lemma safe_report job success message : safe (report_completion job success message).
Proof.
  unfold report_completion, MarkJobCompleted, MarkJobPendingCompletion. go_safe.
  - apply safe_set. intros a Ha. by apply ok_set_recovery.
  - apply safe_set. intros a Ha. by destruct success.
Qed.
Lemma safe_complete success message : safe (completeCurrentJob success message).
Proof.
  unfold completeCurrentJob. apply safe_bind; [auto with agent|]. intros _ a Ha. unfold io_bind, io_get.
  destruct (currentJob a) as [p|] eqn:Ep; [|by apply safe_ret].
  destruct (proj2 (proj2 (proj2 Ha)) p Ep) as [job Ej]. unfold job_at. rewrite Ej. by apply safe_report.
Qed.
#[local] Hint Resolve safe_recover safe_retry safe_complete : agent.
Lemma safe_continue : safe continueCurrentJob.
Proof. unfold continueCurrentJob. go_safe. Qed.
#[local] Hint Resolve safe_continue : agent.
Lemma ok_receive job a : fetched job → agent_ok a → agent_ok (receive job a).
Proof.
  intros Hj (H1 & H2 & H3 & H4). split_and!; [done..|by apply Forall_app_2; [|constructor]|].
  intros p [= <-]. cbn. by rewrite lookup_app_r, Nat.sub_diag.
Qed.
Lemma safe_bind_post {X Y} (Q : X → Prop) (m : io agent X) (k : X → io agent Y) :
  safe m → (∀ a x, (m a).1 = Ok x → Q x) → (∀ x, Q x → safe (k x)) → safe (io_bind m k).
Proof.
  intros Hm HQ Hk a Ha. destruct (Hm a Ha) as (x & E & Ha'). specialize (HQ a x E). unfold io_bind. destruct (m a) as [r a']. simpl in *. subst r.
  by apply Hk.
Qed.
Definition fetched_reply (r : option MJob + goerror) : Prop := match r with inl (Some job) => fetched job | _ => True end.
Lemma get_job_fetched botID a r : (GetJob botID a).1 = Ok r → fetched_reply r.
Proof. unfold GetJob, ask, io_bind, io_ret. by destruct (next_job botID (link a)) as [[[j|]|err] m]; intros [= <-]. Qed.
Lemma no_lease botID job : fetched job → accept_lease botID job = io_ret true.
Proof. intros (_ & E & _). unfold accept_lease. by rewrite E. Qed.
Lemma safe_take job : fetched job → safe (take_job job).
Proof. intros Hj. unfold take_job. go_safe. apply safe_set. intros a. by apply ok_receive. Qed.
Lemma safe_request : safe requestNewJob.
Proof.
  unfold requestNewJob. apply safe_bind; [auto with agent|]. intros botID.
  apply (safe_bind_post fetched_reply); [auto with agent | exact (get_job_fetched botID)|].
  intros [[job|]|err] Hj; [|go_safe..]. destruct (String.eqb (JobID job) ""); [go_safe|]. rewrite (no_lease botID job Hj).
  apply (safe_bind_post (λ b, b = true)); [auto with agent | by intros a x [= <-] |]. intros b ->. by apply safe_take.
Qed.
#[local] Hint Resolve safe_request : agent.
Lemma safe_cycle : safe processWorkCycle.
Proof. unfold processWorkCycle. go_safe. Qed.
Lemma safe_heartbeat : safe sendHeartbeat.
Proof. unfold sendHeartbeat. go_safe. Qed.
Lemma ok_phase i ph a : agent_ok a → agent_ok (set_phase i ph a).
Proof. intros Ha. unfold set_phase. destruct (background a !! i) as [[p ph']|]; [|done]. by destruct ph. Qed.
Lemma safe_prepare i failure : safe (prepare i failure).
Proof.
  intros a Ha. unfold prepare. destruct (background a !! i) as [[p []]|]; [|by exists tt..]. cbv zeta.
  set (b := match failure with Some (false, _) => _ | _ => _ end). assert (agent_ok b) as Hb; [|revert Hb; generalize b; clear; intros b Hb].
  { assert (agent_ok (on_job p (resolve_dir (baseWorkDir a)) a)) as Ha'.
    { apply ok_on_job; [|done]. intros j Hj. unfold resolve_dir. by destruct (IsAbs (WorkDir j)). }
    subst b. destruct failure as [[[] message]|]; [by apply ok_on_job | done | by apply ok_on_job]. }
  destruct failure as [[late message]|]; [apply safe_complete; by apply ok_phase|].
  match goal with |- ∃ x, (?m ?c).1 = _ ∧ _ => assert (safe m) as Hm; [|by apply Hm] end. go_safe. apply safe_set. intros c Hc. by apply ok_phase.
Qed.
Lemma safe_fuzzer i f : safe (fuzzer_starts i f).
Proof. intros a Ha. unfold fuzzer_starts. destruct (background a !! i) as [[p []]|]; [by exists tt| |by exists tt]. by destruct (jobs a !! p); exists tt. Qed.
Lemma safe_end i err duration crashesFound unreported : safe (execution_ends i err duration crashesFound unreported).
Proof.
  intros a Ha. unfold execution_ends. destruct (background a !! i) as [[p []]|]; [by exists tt| |by exists tt]. destruct (jobs a !! p) as [job|]; [|by exists tt].
  cbv zeta. match goal with |- ∃ x, (?m a).1 = _ ∧ _ => assert (safe m) as Hm; [|exact (Hm a Ha)] end. go_safe.
  apply safe_set. intros b Hb. by apply ok_phase.
Qed.
Lemma safe_register response : safe (registerWithMaster response).
Proof. unfold registerWithMaster. go_safe. Qed.
#[local] Hint Resolve safe_cycle safe_heartbeat safe_prepare safe_fuzzer safe_end safe_register : agent.
(** A stop with a job waits for the lock it holds; without one it is harmless. *)
Lemma stop_cases a : agent_ok a →
  Stop a = (Panic "deadlock", a <| mu_locked := true |>) ∨ Stop a = (Ok tt, a <| mu_locked := false |> <| CurrentStatus := "stopped" |>).
Proof.
  intros Ha. unfold Stop, lock, io_bind, io_set, io_get. rewrite (proj1 Ha). cbn. destruct (currentJob a) eqn:E; [by left|right].
  destruct a. simpl in *. by subst.
Qed.
(** What no handler and no stop can change. *)
Definition leaseless (a : agent) : Prop := leases a = [] ∧ Forall fetched (jobs a).
Lemma ok_leaseless a : agent_ok a → leaseless a.
Proof. by intros (_ & H1 & H2 & _). Qed.
Lemma safe_step l : l ≠ LStop → safe (step l).
Proof. intros Hl. destruct l; cbn [step]; [auto with agent..|done]. Qed.
Lemma step_cases l a : agent_ok a →
  (l = LStop ∧ step l a = (Panic "deadlock", a <| mu_locked := true |>)) ∨ ∃ b, step l a = (Ok tt, b) ∧ agent_ok b.
Proof.
  intros Ha. assert (l = LStop ∨ l ≠ LStop) as [->|Hl] by (destruct l; [by right..|by left]).
  - destruct (stop_cases a Ha) as [E|E]; [by left|]. right. eexists. split; [exact E|]. by destruct Ha.
  - right. destruct (safe_step l Hl a Ha) as ([] & E & Hb). exists (step l a).2. split; [|exact Hb]. destruct (step l a). simpl in E. by subst.
Qed.
Lemma run_cases ls a : agent_ok a →
  leaseless (run ls a).2 ∧ ((run ls a).1 = Ok tt ∧ agent_ok (run ls a).2 ∨ (run ls a).1 = Panic "deadlock" ∧ LStop ∈ ls).
Proof.
  revert a. induction ls as [|l ls IH]; intros a Ha; [split; [by apply ok_leaseless | by left]|]. cbn [run]. unfold io_bind.
  destruct (step_cases l a Ha) as [[-> E]|(b & E & Hb)]; rewrite E; cbn [fst snd].
  - split; [by apply ok_leaseless in Ha|]. right. split; [done | left].
  - destruct (IH b Hb) as [H1 [H2|[H2 H3]]]; (split; [exact H1|]); [by left | right; split; [done | by right]].
Qed.
Lemma new_agent_ok botID workDir m clock : agent_ok (NewAgent botID workDir m clock).
Proof. by split_and!; try constructor. Qed.
(** A state of an agent that has made some steps since it was started. *)
Definition reachable (a : agent) : Prop := ∃ ls botID workDir m clock, run ls (NewAgent botID workDir m clock) = (Ok tt, a).
Lemma reachable_ok a : reachable a → agent_ok a.
Proof.
  intros (ls & botID & workDir & m & clk & E). destruct (run_cases ls _ (new_agent_ok botID workDir m clk)) as [_ [[_ H]|[H _]]]; rewrite E in H; done.
Qed.


(** ** What the handlers do *)

(** The cache and the clock are all that a status leaves behind. *)
Definition cached (a : agent) (c : gmap string JobStatus) (k : nat) : agent := a <| jobCache := c |> <| ticks := k |>.
Lemma update_run jobID st a : ∃ c k, (ticks a ≤ k)%nat ∧ UpdateJobStatus jobID st a = (Ok tt, cached a c k).
Proof.
  unfold UpdateJobStatus, io_bind, Now, io_set, io_get, io_ret. cbn. case_match; eexists _, _; (split; [|reflexivity]); cbn; lia.
Qed.
Lemma mark_run status jobID success message output a : ∃ c k, (ticks a < k)%nat ∧ mark status jobID success message output a = (Ok tt, cached a c k).
Proof.
  unfold mark. unfold io_bind at 1, Now at 1, io_bind at 1, io_get at 1. cbn -[UpdateJobStatus getJobCrashes].
  destruct (currentJob a) eqn:?; [destruct (0 <? currentJobCrashes a)|];
    unfold io_bind, io_ret, Now; cbn -[UpdateJobStatus getJobCrashes];
    match goal with |- context [UpdateJobStatus ?x ?st ?b] => destruct (update_run x st b) as (c & k & Hk & ->) end;
    exists c, k; (split; [cbn in Hk; lia | unfold cached; cbn; by rewrite ?Heqo]).
Qed.
Lemma complete_job_run botID jobID success message a :
  CompleteJob botID jobID success message a =
  (Ok (match (post_completion botID jobID success message (link a)).1 with
       | inl (true, _) => None
       | inl (false, why) => Some (NewNetworkError "complete_job" (ErrNew ("master did not acknowledge completion: " +:+ why)))
       | inr err => Some (NewNetworkError "complete_job" err)
       end), a <| link := (post_completion botID jobID success message (link a)).2 |>).
Proof. unfold CompleteJob, ask, io_bind, io_ret. by destruct (post_completion botID jobID success message (link a)). Qed.
(** The master as [completeCurrentJob] finds it, after the log. *)
Definition after_logs (job : MJob) (a : agent) : M :=
  let logPath := JoinPath [WorkDir job; "job.log"] in
  if file_exists disk logPath then (push_logs (JobID job) (configID a) logPath (link a)).2 else link a.
Definition acknowledged (r : bool * string + goerror) : bool := match r with inl (b, _) => b | inr _ => false end.
Definition stopped (jobID : string) (a : agent) : gmap string F :=
  match activeFuzzers a !! jobID with Some f => <[jobID := (fuzz_Stop f).2]> (activeFuzzers a) | None => activeFuzzers a end.
Lemma stop_run jobID a : ∃ r, StopJob jobID a = (Ok r, a <| activeFuzzers := stopped jobID a |>).
Proof.
  unfold StopJob, stopped. destruct (activeFuzzers a !! jobID) as [f|]; [|by eexists; destruct a]. destruct (fuzz_Stop f) as [err f']. by eexists.
Qed.
Lemma logs_run job (a : agent) :
  (if file_exists disk (JoinPath [WorkDir job; "job.log"])
   then ignore (ask (push_logs (JobID job) (configID a) (JoinPath [WorkDir job; "job.log"]))) else io_ret tt) a = (Ok tt, a <| link := after_logs job a |>).
Proof.
  unfold after_logs. destruct (file_exists disk _); [|by destruct a]. unfold ignore, ask. by destruct (push_logs _ _ _ (link a)).
Qed.

Definition acked (job : MJob) (success : bool) (a : agent) : agent :=
  a <| jobsCompleted := jobsCompleted a + (if success then 1 else 0) |> <| jobsFailed := jobsFailed a + (if success then 0 else 1) |>
    <| activeFuzzers := stopped (JobID job) a |> <| currentJob := None |> <| CurrentStatus := "idle" |>.
Definition pending (p : nat) (job : MJob) (now : Time) (a : agent) : agent :=
  a <| ConnectionErrors := ConnectionErrors a + 1 |> <| jobs := <[p := job <| RecoveryTimeout := Some (now + 2 * Minute) |>]> (jobs a) |>.
Lemma acked_run job (success : bool) (a : agent) :
  (let* _ := io_set (λ a : agent, if success then a <| jobsCompleted := jobsCompleted a + 1 |> else a <| jobsFailed := jobsFailed a + 1 |>) in
   let* _ := StopJob (JobID job) in
   io_set (λ a : agent, a <| currentJob := None |> <| CurrentStatus := "idle" |>)) a = (Ok tt, acked job success a).
Proof.
  unfold io_bind, io_set. destruct success.
  - destruct (stop_run (JobID job) (a <| jobsCompleted := jobsCompleted a + 1 |>)) as [r ->]. unfold acked. cbn. by rewrite Z.add_0_r.
  - destruct (stop_run (JobID job) (a <| jobsFailed := jobsFailed a + 1 |>)) as [r ->]. unfold acked. cbn. by rewrite Z.add_0_r.
Qed.
Lemma pending_run p job (success : bool) message (a : agent) : currentJob a = Some p → jobs a !! p = Some job → ∃ c k, (ticks a < k)%nat ∧
  (let* _ := io_set (λ a : agent, a <| ConnectionErrors := ConnectionErrors a + 1 |>) in
   let* _ := MarkJobPendingCompletion (JobID job) success message "" in
   let* recoveryTime := Now in
   io_set (set_recovery (JobID job) (recoveryTime + 2 * Minute))) a = (Ok tt, pending p job (clock a k) (cached a c (S k))).
Proof.
  intros Hp Hj. unfold io_bind at 1, io_set at 1. unfold io_bind at 1, MarkJobPendingCompletion.
  match goal with |- context [mark ?s ?i ?b ?m ?o ?x] => destruct (mark_run s i b m o x) as (c & k & Hk & ->) end.
  exists c, k. split; [exact Hk|]. unfold io_bind, Now, io_set, cached, set_recovery, job_at, on_job, pending. cbn. rewrite Hp. cbn. rewrite Hj. cbn. rewrite String.eqb_refl. done.
Qed.

Lemma report_run a p job success message (Hp : currentJob a = Some p) (Hj : jobs a !! p = Some job) :
  let reply := post_completion (configID a) (JobID job) success message (after_logs job a) in
  ∃ c k, (ticks a < k)%nat ∧
    let told := (cached a c (if acknowledged reply.1 then k else S k)) <| link := reply.2 |> in
    report_completion job success message a = (Ok tt, if acknowledged reply.1 then acked job success told else pending p job (clock a k) told).
Proof.
  intros reply.
  unfold report_completion. cbv zeta. unfold io_bind at 1, io_get at 1. unfold io_bind at 1. rewrite logs_run.
  unfold io_bind at 1, MarkJobCompleted.
  match goal with |- context [mark ?s ?i ?b ?m ?o ?x] => destruct (mark_run s i b m o x) as (c & k & Hk & ->) end. cbn [ticks] in Hk.
  unfold io_bind at 1. rewrite complete_job_run. cbv beta iota.
  match goal with |- context [post_completion _ _ _ _ (link ?b)] => change (link b) with (after_logs job a) end. fold reply.
  destruct reply as [[[[] why]|err] m']; cbn [fst snd acknowledged].
  - exists c, k. split; [exact Hk|]. by rewrite acked_run.
  - match goal with |- context [((io_bind _ _) ?b)] => destruct (pending_run p job success message b Hp Hj) as (c' & k' & Hk' & ->) end.
    exists c', k'. split; [cbn in Hk, Hk'; lia | done].
  - match goal with |- context [((io_bind _ _) ?b)] => destruct (pending_run p job success message b Hp Hj) as (c' & k' & Hk' & ->) end.
    exists c', k'. split; [cbn in Hk, Hk'; lia | done].
Qed.
Lemma complete_current a p job success message : agent_ok a → currentJob a = Some p → jobs a !! p = Some job →
  completeCurrentJob success message a = report_completion job success message a.
Proof. intros Ha Hp Hj. unfold completeCurrentJob, lock, io_bind, io_get. rewrite (proj1 Ha), Hp. unfold job_at. by rewrite Hj. Qed.

(** C36: completing a job tells the master after the logs are pushed.  When the
    master acknowledges, the job is counted, its fuzzer is stopped and the bot is
    idle; otherwise the job stays the current one, with two minutes to recover. *)
Theorem complete_exact a p job success message (Ha : agent_ok a) (Hp : currentJob a = Some p) (Hj : jobs a !! p = Some job) :
  let reply := post_completion (configID a) (JobID job) success message (after_logs job a) in
  ∃ c k, (ticks a < k)%nat ∧
    let told := (cached a c (if acknowledged reply.1 then k else S k)) <| link := reply.2 |> in
    completeCurrentJob success message a = (Ok tt, if acknowledged reply.1 then acked job success told else pending p job (clock a k) told).
Proof. intros reply. rewrite (complete_current a p job) by done. by apply report_run. Qed.
(** A stop of the agent while it has a job never ends: it holds the lock of the
    agent, and completing the job takes that lock. *)
Theorem stop_deadlocks a p (Ha : mu_locked a = false) (Hp : currentJob a = Some p) : Stop a = (Panic "deadlock", a <| mu_locked := true |>).
Proof. unfold Stop, lock, io_bind, io_set, io_get. rewrite Ha. cbn. rewrite Hp. done. Qed.

Lemma current_job a p job : currentJob a = Some p → jobs a !! p = Some job → currentJob a ≫= job_at a = Some job.
Proof. intros Hp Hj. by rewrite Hp. Qed.
Lemma agent_bind_ok {X Y} (m : io agent X) (k : X → io agent Y) a x b : m a = (Ok x, b) → io_bind m k a = k x b.
Proof. intros E. unfold io_bind. by rewrite E. Qed.
(** A running job is past its time-out from the start. *)
Lemma continue_stops a p job f (Hz : JobTimeoutAt job = zero_time) (Hp : currentJob a = Some p) (Hj : jobs a !! p = Some job)
    (Hf : activeFuzzers a !! JobID job = Some f) (Hr : fuzz_IsRunning f = true) (Hclock : zero_time < clock a (ticks a)) :
  continueCurrentJob a = (Ok tt, a <| ticks := S (ticks a) |> <| activeFuzzers := <[JobID job := (fuzz_Stop f).2]> (activeFuzzers a) |>).
Proof.
  unfold continueCurrentJob, io_bind at 1, io_get at 1, id. rewrite (current_job a p job Hp Hj). unfold IsJobRunning. rewrite Hf, Hr. cbn [negb].
  unfold io_bind at 1, Now. rewrite Hz. unfold time_after. replace (zero_time <? clock a (ticks a)) with true by (symmetry; by apply Z.ltb_lt).
  unfold ignore, StopJob. cbn. rewrite Hf. by destruct (fuzz_Stop f).
Qed.
(** Nothing to acknowledge again. *)
Lemma retry_idle a :
  (∀ st, st ∈ (cache_order (jobCache a)).*2 → StStatus st = "pending_ack" → time_sub (clock a (ticks a)) (UpdatedAt st) ≤ 30 * Second) →
  retryPendingAcknowledgments a = (Ok tt, a <| ticks := S (ticks a) |>).
Proof.
  intros H. unfold retryPendingAcknowledgments, io_bind, Now, io_get. change (jobCache (a <| ticks := S (ticks a) |>)) with (jobCache a).
  replace (List.filter _ _) with (@nil JobStatus); [done|]. symmetry. revert H. generalize ((cache_order (jobCache a)).*2). intros l H.
  induction l as [|st l IH]; [done|]. cbn [List.filter]. destruct (String.eqb (StStatus st) "pending_ack") eqn:E; cbn [andb].
  - apply String.eqb_eq in E. rewrite (proj2 (Z.ltb_ge _ _)) by (apply H; [left|done]). apply IH. intros st' Hst'. apply H. by right.
  - apply IH. intros st' Hst'. apply H. by right.
Qed.
(** C37: in every state an agent can reach, the next work cycle stops the fuzzer of
    a current job that is running, and does nothing else: the time-out of the job
    is the zero time.  The master is not asked whether the job was cancelled.  No
    completion is older than 30 seconds, and no recovery of the job is due. *)
Theorem running_job_stopped a p job f (Ha : reachable a) (Hp : currentJob a = Some p) (Hj : jobs a !! p = Some job)
    (Hf : activeFuzzers a !! JobID job = Some f) (Hr : fuzz_IsRunning f = true) (Hclock : ∀ k, (ticks a ≤ k)%nat → zero_time < clock a k)
    (Hacks : ∀ st, st ∈ (cache_order (jobCache a)).*2 → StStatus st = "pending_ack" → time_sub (clock a (ticks a)) (UpdatedAt st) ≤ 30 * Second)
    (Hrec : ∀ t, RecoveryTimeout job = Some t → clock a (S (ticks a)) ≤ t) :
  ∃ k, processWorkCycle a = (Ok tt, a <| ticks := k |> <| activeFuzzers := <[JobID job := (fuzz_Stop f).2]> (activeFuzzers a) |>).
Proof.
  destruct (reachable_ok a Ha) as (_ & _ & Hall & _). pose proof (Forall_lookup_1 _ _ _ _ Hall Hj) as [Et _].
  unfold processWorkCycle. unfold io_bind at 1, io_get at 1, id. rewrite (current_job a p job Hp Hj). cbn [mbind option_bind].
  unfold io_bind at 1. rewrite (retry_idle a Hacks).
  assert (∃ k, (ticks a ≤ k)%nat ∧
    (match RecoveryTimeout job with
     | Some t => if t =? zero_time then io_ret false else let* now := Now in io_ret (time_after now t)
     | None => io_ret false
     end) (a <| ticks := S (ticks a) |>) = (Ok false, a <| ticks := k |>)) as (k & Hk & E).
  { destruct (RecoveryTimeout job) as [t|]; [destruct (t =? zero_time)|]; [by exists (S (ticks a)); split; [lia|]| |by exists (S (ticks a)); split; [lia|]].
    exists (S (S (ticks a))). split; [lia|]. unfold io_bind, Now, io_ret, time_after. cbn. by rewrite (proj2 (Z.ltb_ge _ _)) by (by apply Hrec). }
  rewrite (agent_bind_ok _ _ _ _ _ E). unfold io_bind, io_get. exists (S k).
  rewrite (continue_stops (a <| ticks := k |>) p job f Et); [by destruct a | exact Hp | exact Hj | exact Hf | exact Hr | destruct a; exact (Hclock k Hk)].
Qed.

Definition cleaned (jobID : string) (a : agent) : agent := a <| activeFuzzers := delete jobID (activeFuzzers a) |>.
Lemma cleanup_run jobID a : ∃ r, CleanupJob jobID a = (Ok r, cleaned jobID a).
Proof.
  unfold CleanupJob, cleaned. destruct (activeFuzzers a !! jobID) as [f|] eqn:E; eexists; [reflexivity|]. rewrite delete_id; [by destruct a | done].
Qed.
Definition recovered (jobID : string) (a : agent) : agent :=
  (cleaned jobID a) <| currentJob := None |> <| statFailed := statFailed a + 1 |> <| CurrentStatus := "idle" |>.
Lemma recover_run jobID a : ∃ c k, (ticks a < k)%nat ∧ recoverFromStuckJob jobID a = (Ok tt, cached (recovered jobID a) c k).
Proof.
  unfold recoverFromStuckJob, io_bind at 1, io_get at 1.
  assert (∃ b, (if IsJobRunning jobID a then ignore (StopJob jobID) else io_ret tt) a = (Ok tt, b) ∧ recovered jobID b = recovered jobID a ∧ ticks b = ticks a)
    as (b & E & Eb & Ek).
  { destruct (IsJobRunning jobID a); [|by exists a]. destruct (stop_run jobID a) as [r E]. unfold ignore. rewrite E. eexists. split; [reflexivity|].
    split; [|done]. unfold recovered, cleaned, stopped. cbn. destruct (activeFuzzers a !! jobID); [|done]. by rewrite delete_insert_eq. }
  unfold io_bind at 1. rewrite E. unfold io_bind at 1, ignore. destruct (cleanup_run jobID b) as [r ->]. unfold io_bind, io_set, MarkJobCompleted.
  match goal with |- context [mark ?s ?i ?b ?m ?o ?x] => destruct (mark_run s i b m o x) as (c & k & Hk & ->) end.
  exists c, k. cbn in Hk. rewrite Ek in Hk. split; [done|]. unfold recovered in Eb |- *. cbn in Eb |- *. by rewrite <- Eb.
Qed.
(** A work cycle gives up a current job that has no running fuzzer, such as one
    whose binary is still being downloaded: the job is counted as failed and the
    master is not told. *)
Theorem unprepared_job_abandoned a p job (Hp : currentJob a = Some p) (Hj : jobs a !! p = Some job) (Hf : activeFuzzers a !! JobID job = None) :
  ∃ c k, (ticks a < k)%nat ∧ continueCurrentJob a = (Ok tt, (cached a c k) <| currentJob := None |> <| statFailed := statFailed a + 1 |> <| CurrentStatus := "idle" |>).
Proof.
  unfold continueCurrentJob, io_bind at 1, io_get at 1, id. rewrite (current_job a p job Hp Hj). unfold IsJobRunning. rewrite Hf. cbn [negb].
  destruct (recover_run (JobID job) a) as (c & k & Hk & E). exists c, k. split; [done|]. rewrite E. unfold recovered, cleaned, cached. cbn. by rewrite delete_id.
Qed.

(** The loop of [tailFile] keeps the last [n] lines. *)
Lemma tail_exact n lines : fold_left (keep_last n) lines [] = drop (length lines - n) lines.
Proof.
  induction lines as [|line lines IH] using rev_ind; [by destruct n|]. rewrite fold_left_app, IH. cbn [fold_left]. unfold keep_last.
  rewrite !length_app, length_drop. cbn [length]. destruct (Nat.ltb_spec n (length lines - (length lines - n) + 1)) as [Hlt|Hge].
  - rewrite <- drop_app_le by lia. replace (length lines + 1 - n)%nat with (length lines - n + 1)%nat by lia. rewrite <- drop_drop.
    by destruct (drop (length lines - n) (lines ++ [line])).
  - replace (length lines - n)%nat with 0%nat by lia. by replace (length lines + 1 - n)%nat with 0%nat by lia.
Qed.

(** *** The end of a job *)

Lemma end_run a i p job err duration crashesFound unreported :
  agent_ok a → background a !! i = Some (p, Executing) → jobs a !! p = Some job →
  let outcome := outcome_of job err duration crashesFound in
  ∃ b, execution_ends i err duration crashesFound unreported a = completeCurrentJob (Success outcome) (end_message outcome crashesFound) b ∧
    agent_ok b ∧ link b = link a ∧ configID b = configID a ∧ currentJob b = currentJob a ∧ jobs b = jobs a ∧
    activeFuzzers b = delete (JobID job) (activeFuzzers a) ∧ jobsCompleted b = jobsCompleted a ∧ jobsFailed b = jobsFailed a.
Proof.
  intros Ha Hi Hj outcome. unfold execution_ends. rewrite Hi, Hj. cbv zeta. fold outcome.
  unfold io_bind at 1, io_set at 1. set (a1 := (a <| currentJobCrashes := _ |>) <| ConnectionErrors := _ |>).
  unfold io_bind at 1, ignore. destruct (cleanup_run (JobID job) a1) as [r ->]. unfold io_bind at 1, io_set at 1.
  set (a2 := set_phase i None (cleaned (JobID job) a1)).
  assert (a2 = (cleaned (JobID job) a1) <| background := delete i (background a) |>) as E.
  { unfold a2, set_phase. change (background (cleaned (JobID job) a1)) with (background a). by rewrite Hi. }
  destruct (Success outcome); unfold io_bind at 1, io_set at 1; eexists; (split; [reflexivity|]); rewrite E; by destruct Ha.
Qed.
(** C38: the end of a job completes whatever job is the current one.  When the
    goroutine of a job that is no longer the current one ends, the master is told
    that the current job ended so; if it acknowledges, the fuzzer of that other
    job is stopped, the job is counted and the bot is left without a job. *)
Theorem wrong_job_reported a i p0 job0 p job err duration crashesFound unreported (Ha : reachable a)
    (Hi : background a !! i = Some (p0, Executing)) (H0 : jobs a !! p0 = Some job0)
    (Hp : currentJob a = Some p) (Hj : jobs a !! p = Some job) (Hne : JobID job ≠ JobID job0) :
  let outcome := outcome_of job0 err duration crashesFound in
  let reply := post_completion (configID a) (JobID job) (Success outcome) (end_message outcome crashesFound) (after_logs job a) in
  ∃ b, execution_ends i err duration crashesFound unreported a = (Ok tt, b) ∧ link b = reply.2 ∧
    (acknowledged reply.1 = true → currentJob b = None ∧
       activeFuzzers b !! JobID job = (λ f, (fuzz_Stop f).2) <$> activeFuzzers a !! JobID job ∧
       jobsCompleted b = jobsCompleted a + (if Success outcome then 1 else 0) ∧ jobsFailed b = jobsFailed a + (if Success outcome then 0 else 1)) ∧
    (acknowledged reply.1 = false → currentJob b = Some p).
Proof.
  intros outcome reply.
  destruct (end_run a i p0 job0 err duration crashesFound unreported (reachable_ok a Ha) Hi H0) as (b0 & E & Hb & El & Ec & Ecur & Ejobs & Ef & E1 & E2).
  fold outcome in E. rewrite E. rewrite <- Ecur in Hp. rewrite <- Ejobs in Hj. rewrite (complete_current b0 p job) by done.
  destruct (report_run b0 p job (Success outcome) (end_message outcome crashesFound) Hp Hj) as (c & k & _ & ->).
  assert (after_logs job b0 = after_logs job a) as -> by (unfold after_logs; by rewrite El, Ec). rewrite Ec. fold reply.
  eexists. split; [reflexivity|]. destruct (acknowledged reply.1); (split; [done|]); (split; [|done]); [intros _|done].
  unfold acked. cbn. rewrite E1, E2. split_and!; [done| |done..].
  unfold stopped. cbn. rewrite Ef. rewrite lookup_delete_ne by done.
  destruct (activeFuzzers a !! JobID job) as [f|] eqn:Eq; cbn; [by rewrite lookup_insert_eq | by rewrite lookup_delete_ne].
Qed.

(** *** A job that was not acknowledged is given up in the end *)

(** What the retries of acknowledgments leave as it is. *)
Definition kept (a a' : agent) : Prop :=
  jobs a' = jobs a ∧ clock a' = clock a ∧ (ticks a ≤ ticks a')%nat ∧ (currentJob a' = currentJob a ∨ currentJob a' = None).
Lemma kept_refl a : kept a a.
Proof. split_and!; [done..|lia|by left]. Qed.
Lemma kept_trans a b c : kept a b → kept b c → kept a c.
Proof. intros (H1 & H2 & H3 & H4) (G1 & G2 & G3 & G4). split_and!; [congruence..|lia|]. destruct G4 as [->| ->]; [done | by right]. Qed.
Lemma kept_clear jobID a : kept a (clear_if jobID a).
Proof.
  unfold clear_if. destruct (currentJob a) as [p|] eqn:Ep; [|apply kept_refl]. destruct (job_at a p) as [j|]; [|apply kept_refl].
  destruct (String.eqb (JobID j) jobID); [|apply kept_refl]. split_and!; [done..|cbn; lia|by right].
Qed.
Definition keeping {X} (m : io agent X) : Prop := ∀ a, ∃ x, (m a).1 = Ok x ∧ kept a (m a).2.
Lemma keeping_ret {X} (x : X) : keeping (io_ret x).
Proof. intros a. exists x. split; [done | apply kept_refl]. Qed.
Lemma keeping_get {X} (f : agent → X) : keeping (io_get f).
Proof. intros a. exists (f a). split; [done | apply kept_refl]. Qed.
Lemma keeping_bind {X Y} (m : io agent X) (k : X → io agent Y) : keeping m → (∀ x, keeping (k x)) → keeping (io_bind m k).
Proof.
  intros Hm Hk a. destruct (Hm a) as (x & E & Ha). unfold io_bind. destruct (m a) as [r b]. simpl in *. subst r.
  destruct (Hk x b) as (y & E & Hb). exists y. split; [done | by eapply kept_trans].
Qed.
Lemma keeping_now : keeping Now.
Proof. intros a. eexists. split; [done|]. split_and!; [done..|cbn; lia|by left]. Qed.
Lemma keeping_mark status jobID success message output : keeping (mark status jobID success message output).
Proof.
  intros a. destruct (mark_run status jobID success message output a) as (c & k & Hk & ->). eexists. split; [done|]. split_and!; [done..|cbn; lia|by left].
Qed.
Lemma keeping_complete botID jobID success message : keeping (CompleteJob botID jobID success message).
Proof. intros a. rewrite complete_job_run. eexists. split; [done|]. split_and!; [done..|cbn; lia|by left]. Qed.
Lemma keeping_retry : keeping retryPendingAcknowledgments.
Proof.
  unfold retryPendingAcknowledgments. apply keeping_bind; [apply keeping_now|]. intros now. apply keeping_bind; [apply keeping_get|]. intros cache.
  induction (List.filter _ cache) as [|st l IH]; cbn [retry_acks]; [apply keeping_ret|].
  apply keeping_bind; [apply keeping_get|]. intros botID. apply keeping_bind; [apply keeping_complete|]. intros err. apply keeping_bind; [|done].
  destruct err; [apply keeping_ret|]. apply keeping_bind; [apply keeping_mark|]. intros _ a. exists tt. split; [done | apply kept_clear].
Qed.

(** C39: a job that the master did not acknowledge does not block the bot for ever:
    the first work cycle after its two minutes leaves the bot without a job. *)
Theorem stuck_job_recovered a p job t (Hp : currentJob a = Some p) (Hj : jobs a !! p = Some job) (Ht : RecoveryTimeout job = Some t)
    (Hz : t ≠ zero_time) (Hclock : ∀ k, (ticks a ≤ k)%nat → t < clock a k) :
  ∃ b, processWorkCycle a = (Ok tt, b) ∧ currentJob b = None.
Proof.
  unfold processWorkCycle, io_bind at 1, io_get at 1, id. rewrite (current_job a p job Hp Hj). cbn -[retryPendingAcknowledgments recoverFromStuckJob io_bind]. rewrite Ht.
  replace (t =? zero_time) with false by (symmetry; by apply Z.eqb_neq). unfold io_bind at 1.
  destruct (keeping_retry a) as ([] & E & Hjobs & Hcl & Hk & Hcur). destruct (retryPendingAcknowledgments a) as [r b]. simpl in E, Hjobs, Hcl, Hk, Hcur. subst r.
  unfold io_bind, Now, io_ret, io_get. cbn -[recoverFromStuckJob continueCurrentJob]. unfold time_after. rewrite Hcl.
  replace (t <? clock a (ticks b)) with true by (symmetry; by apply Z.ltb_lt, Hclock).
  destruct Hcur as [Hcur|Hcur]; rewrite Hcur, ?Hp; cbn -[recoverFromStuckJob continueCurrentJob].
  - unfold job_at. cbn -[recoverFromStuckJob]. rewrite Hjobs, Hj.
    match goal with |- context [recoverFromStuckJob ?i ?x] => destruct (recover_run i x) as (c & k & _ & ->) end. by eexists.
  - unfold continueCurrentJob, io_bind, io_get, id. cbn. by eexists.
Qed.
End agent.

(** ** A master that hands out jobs and records what it hears *)

Record recorder := mkRecorder { offered : list apiV1Job; acks : bool; heard : list (string * bool * string) }.
#[local] Instance recorder_eta : Eta recorder := fun r => mkRecorder (offered r) (acks r) (heard r).
#[local] Instance recording : MasterLink recorder := {|
  next_job := λ _ r, match offered r with [] => (inl None, r) | j :: js => (inl (Some j), r <| offered := js |>) end;
  reproduction_request := λ _ r, (inl false, r);
  post_ack := λ _ _ _ r, (inl (true, ""), r);
  post_completion := λ _ jobID success message r, (inl (acks r, "busy"), r <| heard := heard r ++ [(jobID, success, message)] |>);
  post_heartbeat := λ _ _ _ r, (None, r);
  push_logs := λ _ _ _ r, (None, r) |}.
(** A fuzzer that runs until it is stopped. *)
#[local] Instance flag_fuzzing : Fuzzing bool := {| fuzz_IsRunning := λ b, b; fuzz_Stop := λ _, (None, false); fuzz_Cleanup := λ b, (None, b) |}.
Definition empty_disk : Disk := mkDisk (λ _, false) (λ _, None) (λ _, None) (λ _, None).
Definition offer (jobID : string) : apiV1Job := mkApiJob jobID jobID "aflplusplus" "target" JobStatusAssigned (Some "bot") jobID 3600 1 512 0 None None false "".
Definition seconds (n : nat) : Time := Z.of_nat n * Second.
Definition run_example (acks : bool) (ls : list label) : Agent recorder bool :=
  (run empty_disk (λ _, "") map_to_list ls (NewAgent "bot" "/work" (mkRecorder [offer "job-1"; offer "job-2"] acks []) seconds)).2.
Lemma example_reachable acks ls :
  (run empty_disk (λ _, "") map_to_list ls (NewAgent "bot" "/work" (mkRecorder [offer "job-1"; offer "job-2"] acks []) seconds)).1 = Ok tt →
  reachable empty_disk (λ _, "") map_to_list (run_example acks ls).
Proof.
  intros E. exists ls, "bot", "/work", (mkRecorder [offer "job-1"; offer "job-2"] acks []), seconds. unfold run_example.
  revert E. generalize (run empty_disk (λ _, "") map_to_list ls (NewAgent "bot" "/work" (mkRecorder [offer "job-1"; offer "job-2"] acks []) seconds)).
  intros [r a] E. simpl in *. by subst.
Qed.
Definition fuzzing_steps : list (label (F := bool)) := [LCycle; LPrepare 0 None; LFuzzer 0 true].

(** The bot gives up its first job while it is prepared and fetches a second one,
    and both run. *)
Definition two_steps : list (label (F := bool)) := [LCycle; LCycle; LCycle; LPrepare 0 None; LPrepare 1 None; LFuzzer 0 true; LFuzzer 1 true].
Definition two_jobs : Agent recorder bool := run_example true two_steps.
Definition prepared_job (jobID : string) : MJob :=
  (job_of_api (offer jobID)) <| WorkDir := "/work/jobs/" +:+ jobID |> <| Target := "/work/jobs/" +:+ jobID +:+ "/target_binary" |>.
Lemma two_jobs_reachable : reachable empty_disk (λ _, "") map_to_list two_jobs.
Proof. apply example_reachable. vm_compute. reflexivity. Qed.
Lemma wrong_job_reported_witness :
  let outcome := outcome_of (prepared_job "job-1") None (3600 * Second) 0 in
  let reply := post_completion (configID two_jobs) (JobID (prepared_job "job-2")) (Success outcome) (end_message outcome 0)
                 (after_logs empty_disk (prepared_job "job-2") two_jobs) in
  (∃ b, execution_ends empty_disk (λ _, "") map_to_list 0 None (3600 * Second) 0 0 two_jobs = (Ok tt, b) ∧ link b = reply.2 ∧ currentJob b = None) ∧
  heard reply.2 = [("job-2", true, "Fuzzing completed successfully")].
Proof.
  split; [|vm_compute; reflexivity].
  destruct (wrong_job_reported empty_disk (λ _, "") map_to_list two_jobs 0 0 (prepared_job "job-1") 1 (prepared_job "job-2") None (3600 * Second) 0 0)
    as (b & E & H1 & H2 & _); [exact two_jobs_reachable | vm_compute; reflexivity | vm_compute; reflexivity | vm_compute; reflexivity | vm_compute; reflexivity
                              | vm_compute; discriminate |].
  exists b. split; [exact E|]. split; [exact H1|]. apply H2. vm_compute. reflexivity.
Defined.

(** The master does not acknowledge the end of the job, and minutes pass. *)
Definition later : Agent recorder bool :=
  (run_example false (fuzzing_steps ++ [LEnd 0 None (3600 * Second) 0 0])) <| ticks := 200%nat |>.
Lemma later_recovery : RecoveryTimeout <$> (jobs later !! 0%nat) = Some (Some 129000000000).
Proof. vm_compute. reflexivity. Qed.
Lemma later_job : ∃ job, jobs later !! 0%nat = Some job ∧ RecoveryTimeout job = Some 129000000000.
Proof. pose proof later_recovery as H. destruct (jobs later !! 0%nat) as [job|]; [|done]. injection H as H. by exists job. Qed.
Lemma late k : (200 ≤ k)%nat → 129000000000 < seconds k.
Proof. unfold seconds, Second. lia. Qed.
Lemma stuck_job_recovered_witness : ∃ b, processWorkCycle empty_disk (λ _, "") map_to_list later = (Ok tt, b) ∧ currentJob b = None.
Proof.
  destruct later_job as (job & Hj & Ht).
  apply (stuck_job_recovered empty_disk (λ _, "") map_to_list later 0 job 129000000000); [vm_compute; reflexivity | exact Hj | exact Ht | done |].
  exact late.
Defined.

Definition fuzzing : Agent recorder bool := run_example true fuzzing_steps.
Definition fuzzed_job : MJob := prepared_job "job-1".
Lemma fuzzing_reachable : reachable empty_disk (λ _, "") map_to_list fuzzing.
Proof. apply example_reachable. vm_compute. reflexivity. Qed.
Lemma after_zero k : zero_time < seconds k.
Proof. unfold zero_time, seconds, Second. lia. Qed.
Lemma has_status x st l : st ∈ l → StStatus st = x → existsb (λ st, String.eqb (StStatus st) x) l = true.
Proof. intros Hst E. apply existsb_exists. exists st. split; [by apply list_elem_of_In | by apply String.eqb_eq]. Qed.
Lemma fuzzing_idle st : st ∈ (map_to_list (jobCache fuzzing)).*2 → StStatus st = "pending_ack" →
  time_sub (clock fuzzing (ticks fuzzing)) (UpdatedAt st) ≤ 30 * Second.
Proof. intros Hst E. exfalso. generalize (has_status _ _ _ Hst E). vm_compute. discriminate. Qed.
Lemma running_job_stopped_witness :
  ∃ k, processWorkCycle empty_disk (λ _, "") map_to_list fuzzing =
  (Ok tt, fuzzing <| ticks := k |> <| activeFuzzers := <[JobID fuzzed_job := (fuzz_Stop true).2]> (activeFuzzers fuzzing) |>).
Proof.
  apply (running_job_stopped empty_disk (λ _, "") map_to_list fuzzing 0 fuzzed_job true);
    [exact fuzzing_reachable | vm_compute; reflexivity | vm_compute; reflexivity | vm_compute; reflexivity | vm_compute; reflexivity
    | intros k _; exact (after_zero k)
    | exact fuzzing_idle | intros t; vm_compute; discriminate].
Defined.
Lemma complete_exact_witness :
  let reply := post_completion (configID fuzzing) (JobID fuzzed_job) true "done" (after_logs empty_disk fuzzed_job fuzzing) in
  ∃ c k, (ticks fuzzing < k)%nat ∧
    let told := (cached fuzzing c (if acknowledged reply.1 then k else S k)) <| link := reply.2 |> in
    completeCurrentJob empty_disk (λ _, "") map_to_list true "done" fuzzing =
    (Ok tt, if acknowledged reply.1 then acked fuzzed_job true told else pending 0 fuzzed_job (clock fuzzing k) told).
Proof.
  apply (complete_exact empty_disk (λ _, "") map_to_list fuzzing 0 fuzzed_job true "done");
    [exact (reachable_ok _ _ _ _ fuzzing_reachable) | vm_compute; reflexivity ..].
Defined.
Lemma stop_deadlocks_witness : Stop empty_disk (λ _, "") map_to_list fuzzing = (Panic "deadlock", fuzzing <| mu_locked := true |>).
Proof. apply (stop_deadlocks empty_disk (λ _, "") map_to_list fuzzing 0); vm_compute; reflexivity. Defined.
Definition preparing : Agent recorder bool := run_example true [LCycle].
Definition fetched_job : MJob := job_of_api (offer "job-1").
Lemma unprepared_job_abandoned_witness :
  ∃ c k, (ticks preparing < k)%nat ∧
    continueCurrentJob empty_disk (λ _, "") map_to_list preparing =
    (Ok tt, (cached preparing c k) <| currentJob := None |> <| statFailed := statFailed preparing + 1 |> <| CurrentStatus := "idle" |>).
Proof.
  apply (unprepared_job_abandoned empty_disk (λ _, "") map_to_list preparing 0 fetched_job); vm_compute; reflexivity.
Defined.
